(* ===== verification/_CoqProject ===== *)
-Q . S2P
Prelude.v
GoLib.v
Fault.v
Identity.v
Contracts.v
RunState.v
RunStore.v
ControlMemory.v
Governance.v
ControlRefinement.v
ControlService.v
LeasePaths.v
Postgres.v
DeliveryContracts.v
Leases.v
LeaseSets.v
LeaseExpansion.v
DeliveryScopes.v
DeliveryLeases.v
DeliverySample.v
LeaseSafety.v
IndexCards.v
IndexValidation.v
Invalidation.v
Deltas.v
RetrievalContracts.v
Retrieval.v
RetrievalProperties.v
PgTables.v
PgEvents.v
Publications.v
PgLogic.v
PublicationEffects.v
PublicationWorld.v
PgControl.v
PgEffects.v
AttemptRecords.v
PgSample.v
PgRefinement.v
PgReplay.v
PgStreams.v
Queue.v
Outbox.v
ProjectionDeliveries.v
RunProjection.v
RunReplay.v
StreamEffects.v
WorkerResults.v
Attempts.v
Authorizations.v
AttemptEffects.v
AuthorizationEffects.v
PgSystem.v
PgProperties.v
AttemptProperties.v
AuthorizationProperties.v
PublicationProperties.v
SystemSample.v
PgLiveness.v
SystemWitnesses.v
PublicationSample.v
AuthorizationSample.v
PublicationService.v
PublicationGit.v
PublicationServiceLogic.v
PublicationServiceProperties.v
PublicationHistories.v
PublicationServiceSample.v
Approval.v
Programs.v
LeaseGuard.v
Pipeline.v
PipelineRecovery.v
DeliveryProtocol.v
PipelineSafety.v
PipelineProperties.v
RecoverySafety.v
RecoveryProperties.v
DeliveryWorld.v
ExecutionSample.v
