(* ===== verification/Prelude.v ===== *)
(** * Forja: verification of the governed control plane and the code index

    Forja is a Go program that runs software work under governance: people plan
    sprints, an authorised principal approves them, workers execute the runs
    under fenced leases of the paths they write, and an index of the repository
    is kept up to date incrementally. This library models the parts that decide
    something and proves what they promise.

    ** Parts of the program and where they are modelled

    - [internal/fault], [internal/identity]: [Fault], [Identity]. Coded errors;
      UUIDv4 identifiers from an entropy source, and their parsers.
    - [internal/runstate/state.go]: [RunState] (states, transition table,
      [Machine.Transition]) and [RunStore] (the in-memory [Store]: optimistic
      versions, idempotency receipts). The abstract [lifecycle] and the
      specification by histories of phases are in the same files.
    - [internal/control]: [ControlMemory] ([types.go], [memory.go]: one
      definition per command of [MemoryRepository]), [Governance] (the abstract
      machine of sprints, decisions and runs), [ControlRefinement] (the commands
      implement the machine) and [ControlService] ([service.go]: principals,
      permissions, scoping; proved against the class [Repository], of which the
      memory repository is an instance).
    - [internal/postgres/leases.go], [lease_sets.go]: [LeasePaths] (scopes,
      overlap, ancestors), [Postgres] (transactions, server clock, failures),
      [Leases], [LeaseSets] (one definition per operation, statement by
      statement), [LeaseExpansion] (what a set contains, its digest and its
      locks) and [LeaseSafety] (runs of many operations).
    - [internal/postgres/store.go], [control.go]: [PgTables] (the tables of the
      migrations and their constraints), [PgEvents] (receipts, events, audit,
      outbox rows and the fan-out trigger), [PgControl] (one definition per
      command, statement by statement), [PgLogic] (weakest preconditions of
      transactions), [PgEffects], [PgRefinement] (the commands implement the same
      abstract machine as the memory repository), [PgReplay] (receipts).
    - [internal/postgres/outbox.go], [projection_deliveries.go],
      [projection.go]: [Queue] (the claim protocol the outbox and the ledgers
      share), [Outbox], [ProjectionDeliveries] (consumers, ledgers, checkpoints),
      [RunProjection] and [RunReplay] (the rebuild from events), [PgStreams],
      [StreamEffects] (what an operation does to its rows), [PgSystem] (their
      invariants), [PgProperties] and [PgLiveness] (histories of commands, queue
      operations, attempts and leases together).
    - [internal/postgres/attempts.go], [attempt_lifecycle.go]: [AttemptRecords]
      (data), [WorkerResults] (validation and hash parts of a worker's result),
      [Attempts] (one definition per command, statement by statement, with the
      fence checked at both ends), [AttemptEffects] (what a command writes; the
      outcomes within one database are at the end of [AuthorizationEffects]) and
      [AttemptProperties] (attempts in every history of the system).
    - [internal/contracts/delivery.go]: [DeliveryContracts] (requests, reports,
      evidence and receipts of deliveries, with their validators) and
      [DeliveryScopes] (what a validated publication guarantees);
      [DeliveryLeases] is [acquireDeliveryLeases] of the pipeline over the lease sets.
    - [internal/postgres/delivery_publications.go]: [Publications] (the journal,
      statement by statement, next to a Git state that no rollback takes back),
      [PublicationEffects] (what a verified lease set proves and what an operation
      writes), [PublicationWorld] (when an operation lets the caller act on Git) and [PublicationProperties] (publications in every history of
      the system). [DeliverySample] and [PublicationSample] hold example
      documents and runs.
    - [internal/postgres/delivery_authorizations.go]: [Authorizations] (the human
      approval of an exact delivery request), [AuthorizationEffects] and
      [AuthorizationProperties]; [AuthorizationSample] is an example.
    - [internal/delivery/publication.go]: [PublicationService] (the service that
      journals an intent, swaps the reference, answers the receipt, and recovers
      after a crash), [PublicationGit] (references, the behaviour of the Git
      commands, observation and compare-and-swap), [PublicationServiceLogic] and
      [PublicationServiceProperties] (every outcome of a call) and
      [PublicationHistories] (a call is a history of the journal);
      [PublicationServiceSample] is an example.
    - [internal/execution/approval.go]: [Approval] (the service through which a human
      approves a delivery, over the PostgreSQL store, and what it guarantees).
    - [internal/execution/pipeline.go], [worker_failure.go], [recovery.go]: [Programs]
      (a program is a tree of calls to the interfaces [Repository], [Worktrees],
      [Worker], [Validator] and [Publisher], branching on any answer; a stage
      adds local variables and early returns), [Pipeline] ([Execute]) and
      [PipelineRecovery] ([Recover]). [DeliveryProtocol] has the abstract
      specifications: what an observer of the calls of a delivery, or of a recovery,
      has seen, and which call is then allowed; [PipelineSafety] and [RecoverySafety]
      prove every run of the programs lawful, and [PipelineProperties] and
      [RecoveryProperties] read the protocols as statements on traces.
      [ExecutionSample] is an example of each.
    - [internal/execution/lease_guard.go]: [LeaseGuard] (the goroutine that renews both
      fences, as a step relation).
    - [DeliveryWorld] composes the pipeline with the authorization store and the
      publication service: the calls for an approval and for a publication are
      answered by the definitions of [Authorizations] and [PublicationService] on one
      database and one repository, between which other clients may act.
      [ExecutionSample] ends with such a delivery, computed from an empty database.
    - [internal/contracts/indexing.go], [internal/indexing]: [IndexCards] (data),
      [IndexValidation] (stable identities, card and bundle validators),
      [Invalidation] ([PlanInvalidation]) and [Deltas] ([ComputeBundleDeltas]).
    - [internal/contracts/retrieval.go], [internal/retrieval]: [RetrievalContracts]
      (points, queries and results of the governed search with their validators;
      [float64] is the binary64 of the Standard Library's executable specification of
      IEEE 754), [Retrieval] (the request to the vector store of [qdrant.go], rank
      fusion, [QueryService.Search] of [query.go] and the canonical resolution of
      [resolver.go]) and [RetrievalProperties] (what a search guarantees, with a
      repository of two cards as its example).
    - [GoLib] has what the source uses of Go itself: 64-bit integers that wrap,
      strings as bytes, runes, [strings.TrimSpace], [strings.Join], [time.Time].
      This file has the result and state monads, loops with early return, the
      tactics and the generic lemmas.

    The service calls the repository, the repository the state machine; lease
    sets are made of leases; a plan and the deltas are computed from validated
    bundles. A Go method on a mutex-protected struct is a function of the state,
    since the mutex makes it atomic; state mutated before an error is kept.

    ** What is a parameter

    - the clock ([Clock]: any sequence of readings) and the entropy of identifier
      generators ([Generators]);
    - SHA-256 ([Sha256]: any function; where two inputs must not collide, that is
      a hypothesis about these two inputs) and JSON ([Json], [JsonCodec],
      [AdapterJson]; a round trip is assumed where a receipt is read back);
    - PostgreSQL: [Postgres.Database] says which statements fail and how, the
      clock is read anew by every [clock_timestamp()], collation order and the
      text of a timestamp are arbitrary. A transaction that returns an error
      leaves the tables as they were. Transactions that take a common advisory
      lock do not interleave, and all that touch a resource take its lock, so
      runs are sequences of whole transactions;
    - of the same server: the syntax of a UUID ([UuidText]), what [jsonb] accepts
      ([Jsonb]), the gaps in an identity sequence ([Sequences]), the rows that
      [SKIP LOCKED] skips ([RowLocks]) and the order of text ([TextOrder]); the
      entropy of event identifiers ([Entropy]). Of the attempts: the JSON of their
      records ([AttemptCodecs]), the text of a worker report ([ReportJson]) and the
      schema registry ([WorkerContracts]). Of the deliveries: the JSON of their
      documents ([DeliveryJson], [AuthorizationContracts], and the round trip of an
      approval in [AuthorizationLaws]) and Git, an arbitrary state on which the
      callbacks of a publication act. Of the publication service: the JSON schemas
      ([Schemas]) and the machine it runs on ([Host]: file information, Git
      commands, the reading of a commit and of persisted evidence, the time);
      [GitLaws] says what [git for-each-ref] prints and [git update-ref] with an
      old value does, and that the other commands of a publication leave the references
      alone. Of the
      pipeline: every service, as the answer to its call; theorems about it hold for
      all answers. Of the lease guard: the answers of the repository and the moments
      of cancellations. Of the search: the embedder, the sparse encoder, the resolver,
      the reader of the projection lag and the vector store, as functions of their
      arguments, and the JSON of a policy ([RetrievalJson]); [QdrantLaws] says which
      payloads a filter selects;
      [Reliable] says that no statement
      fails; only theorems that promise a result assume it;
    - the orders in which Go visits maps, where they could matter
      ([Deltas.visits], [RunProjection.Visits], [Retrieval.CandidateVisits],
      [scan_order_irrelevant]).

    ** What the theorems show

    - Runs: the table refines the lifecycle; the store refines histories; commands
      are applied exactly once; keys and versions protect against reuse and lost
      updates; failures are atomic; terminal runs are frozen. One theorem shows
      that NUL bytes make the request hash of create commands ambiguous.
    - Governance: every command refines the abstract machine; no run works without
      an approval, and end to end the approval came from a principal with the
      decide permission; unauthorised requests have no effect; decisions are
      final; the audit trail is exact and attributed.
    - PostgreSQL control: the SQL commands refine the same abstract machine, within
      their tenant and repository; no run works without an approval; decisions are
      final; a committed command is applied exactly once and its key is bound.
    - Events and queues: every change of a run is an event with one message, and
      the log replays to the canonical tables, so a rebuild succeeds and projects
      them; queue rows follow the claim protocol, live claims exclude each other,
      superseded or expired claims settle nothing, published and buried messages
      stay so, a failure reschedules or buries, a checkpoint passes published
      deliveries only; a due message that is claimed by a live worker is
      delivered. One theorem shows that error texts PostgreSQL cannot store keep
      a message from ever being settled as failed.
    - Attempts: an attempt changes only through a command that presents a live
      scheduler fence, along its life cycle and with its event; a scheduler whose
      lease was granted again is locked out; while the lease still carries an
      attempt's fence nobody else touches the attempt, and a reconciliation leaves
      no active attempt of a dead fence; finished attempts are frozen; ordinals
      are dense and events complete.
    - Publications: while a publication is prepared its run stays in validation and
      its attempt succeeded, and a published one lets the run only complete; the
      caller is let act on Git only under the live leases the receipt names, with
      forty seconds left; rows only move from prepared to one final state and obey
      the table's constraints, one active publication per reference; after a crash
      between the Git update and the commit, recovery marks the row published.
    - Authorizations: a new approval is earned: an independent human, a valid
      request, an approved queued run and a queued attempt under its live fence; what is
      read back is exactly what was approved; an approval stays readable.
    - Publication service: whatever a call answers, a reference moves only from the
      approved commit to the result, with its intent on record; an answered receipt
      is durable and true; recovery decides by what the reference shows and moves
      nothing. Since a call is a history of the journal, the invariants above hold
      with the service in it.
    - Pipeline: whatever the services answer, a worker starts only for a request whose
      exact approval was loaded, under leases renewed just before; only a commit that
      passed validation is published, under renewed leases; leases are released and a
      run is failed only when the worktree is put away and the attempt is over; an
      answer without an error means a published receipt and a completed run. A
      recovery starts no work; it settles an attempt that another scheduler abandoned
      by fenced reconciliation only, changes nothing else until the attempt was read
      in a state in which no process of it can be running, and publishes only validated
      commits of a succeeded attempt or journaled intents. The guard reports
      every renewal it lost, and its interval leaves time for a late renewal.
    - Approval: the service lets only independent humans with the decide permission
      approve, and what it stores is what the pipeline recognises. End to end, a
      delivery that answers no error has a published row in the journal and rests on
      an approval event a human earned.
    - Deliveries: a validated publication has passed all its checks, touches
      approved paths only and is fenced by exactly the leases of its scopes; the
      lease set a delivery acquires, new or replayed, consists of exactly those fences,
      and the request for it is accepted exactly when the scopes of the two kinds lie
      beneath different top directories. One theorem
      shows that scopes of both kinds beneath a common directory are refused.
    - Leases: tokens only grow, superseded tokens are dead, live leases are never
      taken over, writers of overlapping paths exclude each other, sets are
      granted whole and bound once, failures are atomic. Paths: the check is
      exact, overlap and fencing agree, sets contain exactly what they declare,
      the member encoding is injective, overlapping sets share a lock and locks
      are ordered.
    - Index: identities bind their fields, validated bundles are closed, planning
      terminates and finds exactly the affected region, what is reused and all it
      depends on is unchanged, invalidations are exact, deltas account for every
      entity once and do not depend on the order of maps.
    - Retrieval: a search accepts only what the one canonical record of a point
      grants within tenant, repository, generation, commit, filters and paths, no
      entity twice and nothing while a configured reader of the lag reports one; its answer does not depend on
      the order of maps and meets the contract of results; the prefilter of the vector
      store selects a source-bound point exactly when its record is granted, and a
      payload is read back as the point it was written for. One theorem shows that
      points which belong to the whole repository are never selected.

    ** Fuel

    [trim_left] has the length of the string as fuel and removes at least one
    byte per step. [propagate] has [propagation_fuel]: every path enters the work
    list at most once, either as a seed or as one of the listed dependents;
    [plan_total] proves it suffices for every input. Everything else is
    structural recursion.

    ** Assumptions that the callers discharge

    The governance theorems take identifiers generated for new sprints, runs and
    decisions to be fresh ([admissible]): [MemoryRepository.SubmitSprint] does not
    check its decision ID, the generator makes it unique. Lease and claim exclusion
    assume a server clock that does not run backwards. The histories of
    [PgProperties] contain no [ResetRetrievalProjection], which returns a ledger to
    its start on purpose; those of [PgRefinement] consist of [CreateRun] and the six
    control commands. A timer of the lease guard fires as one step: reading the cause,
    failing and cancelling are not interleaved with [Stop].

    ** Not modelled

    HTTP, MCP and command-line front ends, configuration, logging and telemetry:
    transport around modelled services. Git, file-system and process execution
    (worktrees, result commits and validation runs of deliveries, the worker
    supervisor, language adapters): their effects are outside the repository, and the
    pipeline sees their results as answers of calls. Contexts and timeouts of the
    pipeline show as errors of the calls made with them. Building, evaluating and
    projecting retrieval cards, the lifecycle of vector collections, and the remote
    embedding service; opening the pool and running migrations; the SQL
    repositories of artifacts, index, knowledge, memory and retrieval, and the
    validators of knowledge contracts; reuse of adapter results ([reuse.go]) and
    [NormalizeResults], which only rewrite records of adapters. *)

From stdpp Require Export base tactics option list strings gmap pretty sorting relations.
From Stdlib Require Export ZArith Lia.

#[export] Set Default Goal Selector "!".
#[export] Set Warnings "-clear-no-such-hyp".

Declare Scope forja_scope.
Delimit Scope forja_scope with forja.

(** ** Results: a value or an error *)

Inductive res (E A : Type) : Type :=
| Ok (a : A)
| Err (e : E).
Arguments Ok {E A} a.
Arguments Err {E A} e.

#[export] Instance res_ret {E} : MRet (res E) := λ A a, Ok a.
#[export] Instance res_bind {E} : MBind (res E) := λ A B k m,
  match m with Ok a => k a | Err e => Err e end.

(** [fail_if c e] is the early return [if c { return e }]. *)
Definition fail_if {E} (c : bool) (e : E) : res E unit :=
  if c then Err e else Ok tt.

(** A loop that updates its variables and may return early with an error. *)
Fixpoint loop {E A X} (body : X → A → res E X) (x : X) (l : list A) : res E X :=
  match l with
  | [] => Ok x
  | a :: l' => x' ← body x a; loop body x' l'
  end.

Definition is_ok {E A} (r : res E A) : bool :=
  match r with Ok _ => true | Err _ => false end.

(** ** Stateful computations that may fail

    The state after an error is kept: Go code that has already mutated a map
    when it returns an error leaves the mutation behind. *)

Definition M (E S A : Type) : Type := S → res E A * S.

#[export] Instance M_ret {E S} : MRet (M E S) := λ A a s, (Ok a, s).
#[export] Instance M_bind {E S} : MBind (M E S) := λ A B k m s,
  match m s with
  | (Ok a, s') => k a s'
  | (Err e, s') => (Err e, s')
  end.

Definition get {E S} : M E S S := λ s, (Ok s, s).
Definition gets {E S A} (f : S → A) : M E S A := λ s, (Ok (f s), s).
Definition modify {E S} (f : S → S) : M E S unit := λ s, (Ok tt, f s).
Definition throw {E S A} (e : E) : M E S A := λ s, (Err e, s).
Definition lift {E S A} (r : res E A) : M E S A := λ s, (r, s).

(** ** Lemmas on the two monads *)

Section monads.
Context {E S A B : Type}.
Implicit Types (m : M E S A) (k : A → M E S B) (s : S).

Lemma res_bind_ok (r : res E A) (f : A → res E B) b :
  r ≫= f = Ok b ↔ ∃ a, r = Ok a ∧ f a = Ok b.
Proof.
  destruct r as [a|e]; cbn.
  - split; [intros Hb; by exists a | by intros (? & [= ->] & ?)].
  - split; [done | by intros (? & ? & ?)].
Qed.

Lemma M_bind_ok m k s b s' :
  (m ≫= k) s = (Ok b, s') ↔ ∃ a s1, m s = (Ok a, s1) ∧ k a s1 = (Ok b, s').
Proof.
  unfold mbind, M_bind. destruct (m s) as [[a|e] s1]; split; try done.
  - intros Hk. by exists a, s1.
  - by intros (? & ? & [= -> ->] & ?).
  - by intros (? & ? & ? & ?).
Qed.

Lemma M_bind_run m k s :
  (m ≫= k) s = match m s with
               | (Ok a, s') => k a s'
               | (Err e, s') => (Err e, s')
               end.
Proof. done. Qed.
End monads.

Lemma fail_if_ok {E} (c : bool) (e : E) : fail_if c e = Ok tt ↔ c = false.
Proof. destruct c; naive_solver. Qed.

(** Bounded existentials over a list, by its structure. *)
Lemma exists_in_nil {A} (P : A → Prop) : (∃ x, x ∈ [] ∧ P x) ↔ False.
Proof. split; [|done]. intros (x & Hx & _). by apply elem_of_nil in Hx. Qed.

Lemma exists_in_cons {A} (P : A → Prop) a l :
  (∃ x, x ∈ a :: l ∧ P x) ↔ P a ∨ ∃ x, x ∈ l ∧ P x.
Proof.
  split.
  - intros (x & [->|Hx]%elem_of_cons & HP); [by left|]. right. by exists x.
  - intros [HP|(x & Hx & HP)]; [exists a|exists x]; split; auto; [by left|by right].
Qed.

(** What one iteration adds to a loop variable, all of them add. *)
Lemma loop_collects {E A X K} (body : X → A → res E X) (has : X → K → Prop) (adds : A → K → Prop) :
  (∀ x a x', body x a = Ok x' → ∀ k, has x' k ↔ has x k ∨ adds a k) →
  ∀ l x x', loop body x l = Ok x' →
  ∀ k, has x' k ↔ has x k ∨ ∃ a, a ∈ l ∧ adds a k.
Proof.
  intros Hstep l. induction l as [|a l IH]; intros x x'; cbn [loop].
  - intros [= <-] k. rewrite exists_in_nil. tauto.
  - intros (x1 & Hrun1 & Hrun2)%res_bind_ok k.
    rewrite (IH _ _ Hrun2), (Hstep _ _ _ Hrun1), exists_in_cons. tauto.
Qed.

(** What every accepted iteration checks holds of all elements. *)
Lemma loop_checks {E A X} (body : X → A → res E X) (P : A → Prop) :
  (∀ x a x', body x a = Ok x' → P a) → ∀ l x x', loop body x l = Ok x' → Forall P l.
Proof.
  intros Hstep l. induction l as [|a l IH]; intros x x'; cbn [loop]; [by constructor|].
  intros (x1 & Hrun1 & Hrun2)%res_bind_ok. constructor; eauto.
Qed.

(** A loop that refuses a key it has met accepts only distinct keys. *)
Lemma loop_distinct {E A X K} (body : X → A → res E X) (has : X → K → Prop) (key : A → K) :
  (∀ x a x', body x a = Ok x' → ¬ has x (key a) ∧ ∀ k, has x' k ↔ has x k ∨ k = key a) →
  ∀ l x x', loop body x l = Ok x' →
  NoDup (key <$> l) ∧ ∀ a, a ∈ l → ¬ has x (key a).
Proof.
  intros Hstep l. induction l as [|a l IH]; intros x x'; cbn [loop].
  - intros _. split; [constructor|]. by intros a ?%elem_of_nil.
  - intros (x1 & Hrun1 & Hrun2)%res_bind_ok. destruct (IH _ _ Hrun2) as [Hnd Hfresh].
    destruct (Hstep _ _ _ Hrun1) as [Hno Hhas]. split.
    + cbn. apply NoDup_cons. split; [|done]. intros (b & Hb & Hin)%list_elem_of_fmap.
      apply (Hfresh b Hin), Hhas. by right.
    + intros b [->|Hb]%elem_of_cons; [done|]. intros Hx. apply (Hfresh b Hb), Hhas. by left.
Qed.

(** ** Automation

    [split_run] takes a hypothesis [op s = (r, s')] apart: it case-splits every
    guard and lookup the operation performs and discards the branches whose
    outcome contradicts [r]. *)

Ltac split_step :=
  match goal with
  | H : (_, _) = (_, _) |- _ => injection H as H
  | H : Ok _ = Ok _ |- _ => injection H as H
  | H : Err _ = Err _ |- _ => injection H as H
  | H : Ok _ = Err _ |- _ => discriminate H
  | H : Err _ = Ok _ |- _ => discriminate H
  | H : context [match ?x with _ => _ end] |- _ =>
      lazymatch x with context [match _ with _ => _ end] => fail | _ => idtac end;
      destruct x eqn:?
  end.
Ltac split_run := repeat (split_step; try discriminate; simplify_eq/=).

(** Two equations that name different literals for the same term. *)
Ltac literal_clash :=
  match goal with
  | H1 : ?x = ?a, H2 : ?x = ?b |- _ => exfalso; rewrite H1 in H2; discriminate H2
  end.

(** Lemmas that hold of a computation because they hold of its parts. *)
Create HintDb forja_parts.

(** [bool_prop] turns the boolean guards of the model into propositions. *)
Create Rewrite HintDb forja_bool.
#[export] Hint Rewrite andb_true_iff andb_false_iff orb_true_iff orb_false_iff
  negb_true_iff negb_false_iff bool_decide_eq_true bool_decide_eq_false
  Z.ltb_lt Z.ltb_ge Z.leb_le Z.leb_gt Z.eqb_eq Z.eqb_neq
  Nat.ltb_lt Nat.ltb_ge Nat.leb_le Nat.leb_gt : forja_bool.
Ltac bool_prop := autorewrite with forja_bool in *.

(** ** Generic lemmas *)

Lemma default_Some {A} (d a : A) (o : option A) : o = Some a → default d o = a.
Proof. by intros ->. Qed.

(** An invariant of a relation holds at everything it reaches. *)
Lemma rtc_invariant {A} (R : relation A) (P : A → Prop) x y :
  (∀ a b, P a → R a b → P b) → P x → rtc R x y → P y.
Proof. intros Hstep Hx Hxy. induction Hxy; eauto. Qed.

Lemma rtc_reverse {A} (R : relation A) x y : rtc R x y → rtc (flip R) y x.
Proof. induction 1 as [|x y z Hxy _ IH]; [done|]. by eapply rtc_r. Qed.

(** Elements of a list whose keys are distinct are determined by their key. *)
Lemma NoDup_key_inj {A B} (key : A → B) (l : list A) a b :
  NoDup (key <$> l) → a ∈ l → b ∈ l → key a = key b → a = b.
Proof.
  induction l as [|x l IH]; cbn; [by intros _ ?%elem_of_nil|].
  intros [Hx Hnd]%NoDup_cons [->|Ha]%elem_of_cons [->|Hb]%elem_of_cons Heq; [done| | |by apply IH];
    destruct Hx; apply list_elem_of_fmap; eauto.
Qed.
