(* ===== verification/GoLib.v ===== *)
(** * The parts of Go's language and standard library the sources use

    Strings are byte sequences ([string], one [ascii] per byte). [int] and
    [int64] are [Z] with two's-complement wrap-around written out by [wrap64].
    [time.Time] is an instant with the UTC offset of its location. *)

From S2P Require Import Prelude.
From Stdlib Require Import Ascii.

(** ** Integers *)

Definition wrap64 (z : Z) : Z := ((z + 2 ^ 63) `mod` 2 ^ 64 - 2 ^ 63)%Z.
Definition int_max : Z := (2 ^ 63 - 1)%Z.

(** [x++] on an [int]. *)
Definition incr (z : Z) : Z := wrap64 (z + 1).

Lemma wrap64_id z : (- 2 ^ 63 ≤ z < 2 ^ 63)%Z → wrap64 z = z.
Proof. intros ?. unfold wrap64. rewrite Z.mod_small by lia. lia. Qed.

Lemma wrap64_range z : (- 2 ^ 63 ≤ wrap64 z < 2 ^ 63)%Z.
Proof.
  unfold wrap64. pose proof (Z.mod_pos_bound (z + 2 ^ 63) (2 ^ 64)). lia.
Qed.

Lemma incr_lt z : (0 ≤ z < int_max)%Z → incr z = (z + 1)%Z.
Proof. unfold int_max. intros. apply wrap64_id. lia. Qed.

(** Counting by increments is counting modulo the width. *)
Lemma incr_wrap64 z : incr (wrap64 z) = wrap64 (z + 1).
Proof.
  unfold incr, wrap64. f_equal.
  replace ((z + 2 ^ 63) `mod` 2 ^ 64 - 2 ^ 63 + 1 + 2 ^ 63)%Z
    with ((z + 2 ^ 63) `mod` 2 ^ 64 + 1)%Z by lia.
  rewrite Zplus_mod_idemp_l. f_equal. lia.
Qed.

(** Inside the [int] range an increment is never a no-op. *)
Lemma incr_ne z : (- 2 ^ 63 ≤ z < 2 ^ 63)%Z → incr z ≠ z.
Proof.
  intros Hz. destruct (decide (z = int_max)) as [->|Hne].
  - vm_compute. discriminate.
  - unfold incr, int_max in *. rewrite wrap64_id; lia.
Qed.

(** ** Bytes and strings *)

Definition byte_of (c : ascii) : N := N_of_ascii c.
Definition chr (n : N) : ascii := ascii_of_N n.

(** ["\x00"]. *)
Definition NUL : string := String (chr 0) "".

Definition HasPrefix (s p : string) : bool := String.prefix p s.

(** The rest of [s] after the prefix [p], if [p] is a prefix. *)
Fixpoint strip_prefix (p s : string) : option string :=
  match p, s with
  | "", _ => Some s
  | String c p', String d s' =>
      if decide (c = d) then strip_prefix p' s' else None
  | String _ _, "" => None
  end.

(** [s[n:]]. *)
Fixpoint sdrop (n : nat) (s : string) : string :=
  match n, s with
  | S n', String _ s' => sdrop n' s'
  | _, _ => s
  end.

(** [strings.TrimPrefix]. *)
Definition TrimPrefix (s p : string) : string := default s (strip_prefix p s).

(** [strings.Join]. *)
Fixpoint Join (l : list string) (sep : string) : string :=
  match l with
  | [] => ""
  | [x] => x
  | x :: l' => x +:+ sep +:+ Join l' sep
  end.

Fixpoint contains_byte (c : ascii) (s : string) : bool :=
  match s with
  | "" => false
  | String d s' => bool_decide (c = d) || contains_byte c s'
  end.

(** ** UTF-8 *)

Definition in_range (lo hi : N) (c : ascii) : bool :=
  ((lo <=? byte_of c) && (byte_of c <=? hi))%N.

(** How many bytes the next rune of a [range] loop takes: the width of a valid
    encoding, one byte for an invalid one ([utf8.DecodeRuneInString]). *)
Definition rune_width (s : string) : nat :=
  let cont := in_range 0x80 0xBF in
  let two lo hi (t : string) :=
    match t with String c1 _ => if in_range lo hi c1 then 2 else 1 | _ => 1 end in
  let three lo hi (t : string) :=
    match t with
    | String c1 (String c2 _) => if in_range lo hi c1 && cont c2 then 3 else 1
    | _ => 1
    end in
  let four lo hi (t : string) :=
    match t with
    | String c1 (String c2 (String c3 _)) =>
        if in_range lo hi c1 && cont c2 && cont c3 then 4 else 1
    | _ => 1
    end in
  match s with
  | "" => 0
  | String c0 t =>
      if in_range 0xC2 0xDF c0 then two 0x80%N 0xBF%N t
      else if in_range 0xE0 0xE0 c0 then three 0xA0%N 0xBF%N t
      else if in_range 0xE1 0xEC c0 then three 0x80%N 0xBF%N t
      else if in_range 0xED 0xED c0 then three 0x80%N 0x9F%N t
      else if in_range 0xEE 0xEF c0 then three 0x80%N 0xBF%N t
      else if in_range 0xF0 0xF0 c0 then four 0x90%N 0xBF%N t
      else if in_range 0xF1 0xF3 c0 then four 0x80%N 0xBF%N t
      else if in_range 0xF4 0xF4 c0 then four 0x80%N 0x8F%N t
      else 1
  end.

Fixpoint count_runes (skip : nat) (s : string) : nat :=
  match s with
  | "" => 0
  | String _ s' =>
      match skip with
      | S k => count_runes k s'
      | 0 => S (count_runes (pred (rune_width s)) s')
      end
  end.

(** [utf8.RuneCountInString], as an [int]. *)
Definition RuneCountInString (s : string) : Z := Z.of_nat (count_runes 0 s).

(** [utf8.ValidString]: no byte is decoded as an invalid encoding. *)
Fixpoint valid_runes (skip : nat) (s : string) : bool :=
  match s with
  | "" => true
  | String c s' =>
      match skip with
      | S k => valid_runes k s'
      | 0 => (in_range 0 0x7F c || negb (Nat.eqb (rune_width s) 1)) &&
             valid_runes (pred (rune_width s)) s'
      end
  end.

Definition ValidString (s : string) : bool := valid_runes 0 s.

(** ** [strings.TrimSpace] *)

(** The UTF-8 encodings of the runes [unicode.IsSpace] accepts. A rune at either
    end of a string is one of them exactly if the string starts (ends) with its
    encoding. *)
Definition space_encodings : list string :=
  (λ l : list N, foldr (λ n s, String (chr n) s) "" l) <$>
    [ [0x09]; [0x0A]; [0x0B]; [0x0C]; [0x0D]; [0x20];
      [0xC2; 0x85]; [0xC2; 0xA0]; [0xE1; 0x9A; 0x80];
      [0xE2; 0x80; 0x80]; [0xE2; 0x80; 0x81]; [0xE2; 0x80; 0x82];
      [0xE2; 0x80; 0x83]; [0xE2; 0x80; 0x84]; [0xE2; 0x80; 0x85];
      [0xE2; 0x80; 0x86]; [0xE2; 0x80; 0x87]; [0xE2; 0x80; 0x88];
      [0xE2; 0x80; 0x89]; [0xE2; 0x80; 0x8A]; [0xE2; 0x80; 0xA8];
      [0xE2; 0x80; 0xA9]; [0xE2; 0x80; 0xAF]; [0xE2; 0x81; 0x9F];
      [0xE3; 0x80; 0x80] ]%N.

Fixpoint strip_any (ps : list string) (s : string) : option string :=
  match ps with
  | [] => None
  | p :: ps' =>
      match strip_prefix p s with Some s' => Some s' | None => strip_any ps' s end
  end.

(** Strip encodings of [ps] from the front; the fuel is the string's length,
    and every encoding is at least one byte. *)
Fixpoint trim_left (ps : list string) (fuel : nat) (s : string) : string :=
  match fuel with
  | 0 => s
  | S fuel' =>
      match strip_any ps s with
      | Some s' => trim_left ps fuel' s'
      | None => s
      end
  end.

Definition TrimSpace (s : string) : string :=
  let l := trim_left space_encodings (String.length s) s in
  String.rev (trim_left (String.rev <$> space_encodings) (String.length l) (String.rev l)).

(** ** Time *)

Record Time := mkTime { instant : Z; zone_offset : Z }.

#[export] Instance Time_eq_dec : EqDecision Time.
Proof. solve_decision. Defined.

(** Midnight of 1 January of year 1, UTC, in nanoseconds since the Unix epoch. *)
Definition zero_time : Time := mkTime (-62135596800 * 10 ^ 9) 0.

Definition IsZero (t : Time) : bool := (instant t =? instant zero_time)%Z.
Definition UTC (t : Time) : Time := mkTime (instant t) 0.
Definition Before (t u : Time) : bool := (instant t <? instant u)%Z.
Definition After (t u : Time) : bool := (instant u <? instant t)%Z.

(** A source of time: the readings successive [Now] calls return. Nothing is
    assumed about their order. *)
Class Clock := clock_reading : nat → Time.

(** ** String facts *)

Lemma length_sdrop n s : String.length (sdrop n s) = String.length s - n.
Proof. revert s. induction n; intros [|c s]; cbn; auto. Qed.

Lemma string_app_cons c (a b : string) : String c a +:+ b = String c (a +:+ b).
Proof. done. Qed.

Lemma strip_prefix_app p s : strip_prefix p (p +:+ s) = Some s.
Proof.
  induction p; [done|]. rewrite string_app_cons. cbn. by rewrite decide_True.
Qed.

Lemma strip_prefix_Some p s r : strip_prefix p s = Some r → s = p +:+ r.
Proof.
  revert s. induction p as [|c p IH]; intros s; cbn; [by intros [= ->]|].
  destruct s as [|d s]; [done|]. case_decide; [|done]. subst. by intros ->%IH.
Qed.

Lemma TrimPrefix_app p s : TrimPrefix (p +:+ s) p = s.
Proof. unfold TrimPrefix. by rewrite strip_prefix_app. Qed.

Lemma string_app_assoc (a b c : string) : (a +:+ b) +:+ c = a +:+ b +:+ c.
Proof. induction a; [done|]. rewrite !string_app_cons. by f_equal. Qed.

Lemma string_app_nil_r (a : string) : a +:+ "" = a.
Proof. induction a; [done|]. rewrite !string_app_cons. by f_equal. Qed.

(** [clock.Now()]: the state is the number of readings taken so far. *)
Definition Now `{Clock} {E} : M E nat Time := λ n, (Ok (clock_reading n), S n).

(** [sha256.Sum256]: the digest function is a parameter of the model, and no
    property assumes more of it than being a function of its input, except
    where a hypothesis names a pair of inputs it separates. *)
Class Sha256 := Sum256 : string → string.

(** ** NUL-separated keys *)

Definition nul_free (s : string) : bool := negb (contains_byte (chr 0) s).

Lemma nul_split_inj (a b x y : string) :
  nul_free a = true → nul_free b = true →
  a +:+ NUL +:+ x = b +:+ NUL +:+ y → a = b ∧ x = y.
Proof.
  unfold nul_free. revert b. induction a as [|c a IH]; intros [|d b] Ha Hb Heq.
  - by injection Heq.
  - injection Heq as <- _. discriminate Hb.
  - injection Heq as -> _. discriminate Ha.
  - rewrite !string_app_cons in Heq. injection Heq as -> Heq. cbn in Ha, Hb. bool_prop.
    destruct (IH b) as [-> ->]; [by apply negb_true_iff, Ha|by apply negb_true_iff, Hb|done..].
Qed.

Lemma contains_byte_app c (a b : string) :
  contains_byte c (a +:+ b) = contains_byte c a || contains_byte c b.
Proof. induction a as [|d a IH]; [done|]. rewrite string_app_cons. cbn. by rewrite IH, orb_assoc. Qed.

(** The last NUL separates as well as the first. *)
Lemma nul_split_inj_r (a b x y : string) :
  nul_free x = true → nul_free y = true →
  a +:+ NUL +:+ x = b +:+ NUL +:+ y → a = b ∧ x = y.
Proof.
  unfold nul_free. intros Hx%negb_true_iff Hy%negb_true_iff. revert b.
  induction a as [|c a IH]; intros [|d b] Heq.
  - by injection Heq.
  - injection Heq as _ Heq. change (x = b +:+ NUL +:+ y) in Heq.
    rewrite Heq, contains_byte_app in Hx. cbn in Hx. by rewrite orb_true_r in Hx.
  - injection Heq as _ Heq. change (a +:+ NUL +:+ x = y) in Heq.
    rewrite <-Heq, contains_byte_app in Hy. cbn in Hy. by rewrite orb_true_r in Hy.
  - rewrite !string_app_cons in Heq. injection Heq as -> Heq. by destruct (IH b Heq) as [-> ->].
Qed.

(** A NUL-joined list of at least one element can be taken apart again if no
    element but the last contains a NUL. *)
Lemma Join_NUL_inj (l k : list string) (x y : string) :
  length l = length k →
  Forall (λ s, nul_free s = true) l → Forall (λ s, nul_free s = true) k →
  Join (l ++ [x]) NUL = Join (k ++ [y]) NUL → l = k ∧ x = y.
Proof.
  intros Hlen Hl. revert k Hlen. induction Hl as [|a l Ha _ IH]; intros [|b k] Hlen Hk Heq.
  - done.
  - done.
  - done.
  - apply Forall_cons in Hk as [Hb Hk].
    assert (∀ z (m : list string) w, Join ((z :: m) ++ [w]) NUL
              = z +:+ NUL +:+ Join (m ++ [w]) NUL) as Hstep by (by intros ? [] ?).
    rewrite !Hstep in Heq. apply nul_split_inj in Heq as [-> Heq]; [|done..].
    destruct (IH k) as [-> ->]; [by injection Hlen|done..].
Qed.

Lemma nul_free_cons c s : nul_free (String c s) = true ↔ c ≠ chr 0 ∧ nul_free s = true.
Proof.
  unfold nul_free. cbn. rewrite negb_orb, andb_true_iff, !negb_true_iff, bool_decide_eq_false.
  naive_solver.
Qed.

(** Decimal numerals contain no NUL. *)
Lemma nul_free_pretty_N_go x s : nul_free s = true → nul_free (pretty_N_go x s) = true.
Proof.
  revert s. induction (N.lt_wf_0 x) as [x _ IH]; intros s Hs.
  destruct (decide (0 < x)%N) as [Hx|Hx].
  - rewrite pretty_N_go_step by done. apply IH.
    + by apply N.div_lt.
    + apply nul_free_cons. split; [|done]. unfold pretty_N_char.
      repeat case_match; discriminate.
  - assert (x = 0%N) as -> by lia. by rewrite pretty_N_go_0.
Qed.

Lemma nul_free_pretty_N (x : N) : nul_free (pretty x) = true.
Proof.
  unfold pretty, pretty_N. case_decide; [done|]. by apply nul_free_pretty_N_go.
Qed.

Lemma nul_free_pretty (z : Z) : nul_free (pretty z) = true.
Proof.
  destruct z as [|p|p]; [done|apply (nul_free_pretty_N (Npos p))|].
  unfold pretty, pretty_Z. rewrite string_app_cons. apply nul_free_cons.
  split; [discriminate|]. apply (nul_free_pretty_N (Npos p)).
Qed.
