(* ===== verification/Fault.v ===== *)
(** * Package [internal/fault]: categorized errors

    [error] is the closed set of error values the modelled code builds:
    [errors.New]/[fmt.Errorf] strings, package variables that are compared by
    identity, [%w] wrappers, [errors.Join], [*fault.Error], and the two error
    types of [internal/delivery/publication.go]. Texts are kept unrendered, as a
    format with its arguments. *)

From S2P Require Import Prelude.

Inductive message :=
| Lit (s : string)
| Sprintf (format : string) (args : list string).

Inductive Code :=
| CodeInvalidArgument | CodeUnauthenticated | CodePermissionDenied
| CodeNotFound | CodeConflict | CodeUnavailable | CodeInternal.

(** The wire spelling of a code. *)
Definition Code_string (c : Code) : string :=
  match c with
  | CodeInvalidArgument => "invalid_argument"
  | CodeUnauthenticated => "unauthenticated"
  | CodePermissionDenied => "permission_denied"
  | CodeNotFound => "not_found"
  | CodeConflict => "conflict"
  | CodeUnavailable => "unavailable"
  | CodeInternal => "internal"
  end.

#[warnings="-register-all"]
Inductive error :=
| ErrorString (m : message)
| Errorf (m : message) (cause : error)
| FaultError (code : Code) (op : string) (m : message) (cause : option error)
| Sentinel (name : string)
| Joined (left right : error)
| publicationRefConflict (observed : option string) (cause : error)
| invalidPublicationRefObservation (cause : error).

#[export] Instance message_eq_dec : EqDecision message.
Proof. solve_decision. Defined.
#[export] Instance Code_eq_dec : EqDecision Code.
Proof. solve_decision. Defined.

(** [fault.New] and [fault.Wrap]; [nil] is [None]. *)
Definition New (code : Code) (op : string) (m : message) : error :=
  FaultError code op m None.

Definition Wrap (code : Code) (op : string) (m : message) (err : option error)
    : option error :=
  match err with
  | None => None
  | Some e => Some (FaultError code op m (Some e))
  end.

(** [errors.As(err, &target)] for [*fault.Error]: the first one of the chain. *)
Fixpoint As_code (err : error) : option Code :=
  match err with
  | ErrorString _ | Sentinel _ => None
  | Errorf _ cause | publicationRefConflict _ cause | invalidPublicationRefObservation cause => As_code cause
  | Joined l r => match As_code l with Some c => Some c | None => As_code r end
  | FaultError code _ _ _ => Some code
  end.

(** [errors.Is(err, target)] for a package variable. *)
Fixpoint Is (err : error) (name : string) : bool :=
  match err with
  | ErrorString _ | FaultError _ _ _ None => false
  | Sentinel n => bool_decide (n = name)
  | Errorf _ cause | publicationRefConflict _ cause | invalidPublicationRefObservation cause
  | FaultError _ _ _ (Some cause) => Is cause name
  | Joined l r => Is l name || Is r name
  end.

(** [errors.As(err, &target)] for the error types of a publication. *)
Fixpoint As_conflict (err : error) : option (option string * error) :=
  match err with
  | ErrorString _ | FaultError _ _ _ None | Sentinel _ => None
  | publicationRefConflict observed cause => Some (observed, cause)
  | Errorf _ cause | invalidPublicationRefObservation cause | FaultError _ _ _ (Some cause) => As_conflict cause
  | Joined l r => match As_conflict l with Some c => Some c | None => As_conflict r end
  end.

Fixpoint As_invalid (err : error) : option error :=
  match err with
  | ErrorString _ | FaultError _ _ _ None | Sentinel _ => None
  | invalidPublicationRefObservation cause => Some err
  | Errorf _ cause | publicationRefConflict _ cause | FaultError _ _ _ (Some cause) => As_invalid cause
  | Joined l r => match As_invalid l with Some c => Some c | None => As_invalid r end
  end.

(** [errors.Join]: nil errors are dropped, and without any the result is nil. *)
Definition Join_errors (errs : list (option error)) : option error :=
  foldr (λ e acc, match e, acc with
                  | None, _ => acc
                  | Some e, None => Some e
                  | Some e, Some rest => Some (Joined e rest)
                  end) None errs.

Definition CodeOf (err : error) : Code := default CodeInternal (As_code err).

Definition IsCode (err : error) (code : Code) : bool :=
  match As_code err with Some c => bool_decide (c = code) | None => false end.

(** The result type of the modelled operations. *)
Abbreviation result := (res error).

(** Shorthand for [fault.New] with a literal text. *)
Definition fault (code : Code) (op m : string) : error := New code op (Lit m).

(** ** Facts *)

Lemma Code_string_inj c d : Code_string c = Code_string d → c = d.
Proof. by destruct c, d. Qed.

Lemma IsCode_CodeOf err code : IsCode err code = true → CodeOf err = code.
Proof.
  unfold IsCode, CodeOf. destruct (As_code err); [|done].
  intros ?%bool_decide_eq_true. done.
Qed.

(** A boundary that switches on [CodeOf] sees the outermost category: wrapping
    replaces the category, [fmt.Errorf] keeps it, and only an uncategorized
    error reads as internal. *)
Lemma CodeOf_outermost err :
  CodeOf err =
    match err with
    | FaultError c _ _ _ => c
    | Errorf _ e | publicationRefConflict _ e | invalidPublicationRefObservation e => CodeOf e
    | Joined l r => match As_code l with Some c => c | None => CodeOf r end
    | ErrorString _ | Sentinel _ => CodeInternal
    end.
Proof. destruct err; try done. unfold CodeOf. cbn. by destruct (As_code _). Qed.
