(* ===== verification/Identity.v ===== *)
(** * Package [internal/identity]: typed UUIDv4 identifiers

    Generation from an entropy source and validation by regular expression.
    An [io.Reader] is the string of bytes it still has to deliver; reading
    consumes them, a short read fails and consumes what is left. *)

From S2P Require Import Prelude GoLib Fault.
From Stdlib Require Import Ascii.

(** ** [encoding/hex] *)

Definition hex_digit (n : N) : ascii :=
  if (n <? 10)%N then chr (48 + n) else chr (87 + n).

Definition hex_byte (b : N) : list ascii := [hex_digit (b / 16); hex_digit (b mod 16)].

Definition hex_encode (bs : list N) : list ascii := mjoin (hex_byte <$> bs).

Definition hex_char (c : ascii) : bool :=
  in_range 48 57 c || in_range 65 70 c || in_range 97 102 c.

(** [hex.DecodeString] succeeds with 32 bytes. *)
Definition hex_digest (s : string) : bool :=
  Nat.eqb (String.length s) 64 && forallb hex_char (String.list_ascii_of_string s).

(** ** Generation *)

Abbreviation RunID := string (only parsing).
Abbreviation SprintID := string (only parsing).
Abbreviation DecisionID := string (only parsing).

Fixpoint string_of (l : list ascii) : string :=
  match l with [] => "" | c :: l' => String c (string_of l') end.

Fixpoint bytes_of (s : string) : list N :=
  match s with "" => [] | String c s' => byte_of c :: bytes_of s' end.

(** [hex.EncodeToString]. *)
Definition hexText (digest : string) : string := string_of (hex_encode (bytes_of digest)).

(** [io.ReadFull(source, raw[:n])]. *)
Definition ReadFull (n : nat) : M error string (list N) := λ src,
  let bs := bytes_of src in
  if bool_decide (n ≤ length bs)
  then (Ok (take n bs), sdrop n src)
  else (Err (ErrorString (Lit (if decide (bs = []) then "EOF" else "unexpected EOF"))), "").

(** The version and variant bits. *)
Definition set_version (raw : list N) : list N :=
  let raw := <[6 := N.lor (N.land (raw !!! 6) 0x0f) 0x40]> raw in
  <[8 := N.lor (N.land (raw !!! 8) 0x3f) 0x80]> raw.

Definition slice (i j : nat) (raw : list N) : list N := drop i (take j raw).

Definition uuid_text (raw : list N) : list ascii :=
  hex_encode (slice 0 4 raw) ++ ["-"%char] ++
  hex_encode (slice 4 6 raw) ++ ["-"%char] ++
  hex_encode (slice 6 8 raw) ++ ["-"%char] ++
  hex_encode (slice 8 10 raw) ++ ["-"%char] ++
  hex_encode (slice 10 16 raw).

Definition NewRunIDFrom : M error string RunID := λ src,
  match ReadFull 16 src with
  | (Err e, src') => (Err (Errorf (Lit "read run id entropy: %w") e), src')
  | (Ok raw, src') => (Ok ("run_" +:+ string_of (uuid_text (set_version raw))), src')
  end.

Definition newGovernanceID (prefix : string) : M error string string := λ src,
  match NewRunIDFrom src with
  | (Err e, src') => (Err e, src')
  | (Ok runID, src') => (Ok (prefix +:+ "_" +:+ TrimPrefix runID "run_"), src')
  end.

Definition NewSprintIDFrom : M error string SprintID := newGovernanceID "sprint".
Definition NewDecisionIDFrom : M error string DecisionID := newGovernanceID "decision".

(** ** Validation *)

(** An anchored regular expression without repetition ranges: one character
    class per position. *)
Definition class := ascii → bool.

Fixpoint match_classes (cs : list class) (s : string) : bool :=
  match cs, s with
  | [], "" => true
  | c :: cs', String x s' => c x && match_classes cs' s'
  | _, _ => false
  end.

Definition cl_hex : class := λ c, in_range 48 57 c || in_range 97 102 c.
Definition cl_char (x : ascii) : class := λ c, bool_decide (c = x).
Definition cl_variant : class := λ c, in_range 56 57 c || in_range 97 98 c.
Definition cl_lit (s : string) : list class :=
  cl_char <$> String.list_ascii_of_string s.

Definition uuid_pattern : list class :=
  replicate 8 cl_hex ++ [cl_char "-"] ++ replicate 4 cl_hex ++ [cl_char "-"] ++
  [cl_char "4"] ++ replicate 3 cl_hex ++ [cl_char "-"] ++
  [cl_variant] ++ replicate 3 cl_hex ++ [cl_char "-"] ++ replicate 12 cl_hex.

Definition runIDPattern : list class := cl_lit "run_" ++ uuid_pattern.
Definition sprintIDPattern : list class := cl_lit "sprint_" ++ uuid_pattern.
Definition decisionIDPattern : list class := cl_lit "decision_" ++ uuid_pattern.

Definition ParseRunID (value : string) : result RunID :=
  if negb (match_classes runIDPattern value)
  then Err (ErrorString (Sprintf "invalid run id %q" [value]))
  else Ok value.

Definition ParseSprintID (value : string) : result SprintID :=
  if negb (match_classes sprintIDPattern value)
  then Err (ErrorString (Sprintf "invalid sprint id %q" [value]))
  else Ok value.

Definition ParseDecisionID (value : string) : result DecisionID :=
  if negb (match_classes decisionIDPattern value)
  then Err (ErrorString (Sprintf "invalid decision id %q" [value]))
  else Ok value.

(** [SprintID.UUID]. *)
Definition UUID (id : SprintID) : string := TrimPrefix id "sprint_".

Example NewRunIDFrom_test :
  fst (NewRunIDFrom (string_of (chr <$> [0;1;2;3;4;5;6;7;8;9;10;11;12;13;14;15]%N)))
  = Ok "run_00010203-0405-4607-8809-0a0b0c0d0e0f".
Proof. reflexivity. Qed.

(** ** Lemmas on the text form *)

Lemma match_classes_length cs s : match_classes cs s = true → String.length s = length cs.
Proof.
  revert s. induction cs as [|c cs IH]; intros [|x s]; cbn; try done.
  intros [_ Hm]%andb_true_iff. by rewrite (IH s Hm).
Qed.

Lemma match_classes_Forall2 cs l :
  match_classes cs (string_of l) = true ↔ Forall2 (λ c x, c x = true) cs l.
Proof.
  revert l. induction cs as [|c cs IH]; intros [|x l]; cbn.
  - split; [constructor|done].
  - split; [done|by inversion 1].
  - split; [done|by inversion 1].
  - rewrite andb_true_iff, IH. split; [intros []; by constructor|by inversion 1].
Qed.

Lemma string_of_inj l k : string_of l = string_of k → l = k.
Proof. revert k. induction l; intros [|? k] ?; simplify_eq/=; f_equal; auto. Qed.

Lemma byte_of_lt c : (byte_of c < 256)%N.
Proof. apply N_ascii_bounded. Qed.

Lemma bytes_of_lt s : Forall (λ b, b < 256)%N (bytes_of s).
Proof. induction s; cbn; constructor; auto using byte_of_lt. Qed.

Lemma hex_digit_hex n : (n < 16)%N → cl_hex (hex_digit n) = true.
Proof.
  intros ?. assert (∃ k, n = N.of_nat k ∧ k < 16) as (k & -> & Hk).
  { exists (N.to_nat n). lia. }
  do 16 (destruct k as [|k]; [reflexivity|]). lia.
Qed.

Lemma hex_digit_inj n m : (n < 16 → m < 16 → hex_digit n = hex_digit m → n = m)%N.
Proof.
  unfold hex_digit. intros ?? Heq.
  destruct (n <? 10)%N eqn:?, (m <? 10)%N eqn:?;
    apply (f_equal N_of_ascii) in Heq; unfold chr in Heq;
    rewrite !N_ascii_embedding in Heq by (rewrite ?N.ltb_lt, ?N.ltb_ge in *; lia);
    rewrite ?N.ltb_lt, ?N.ltb_ge in *; lia.
Qed.

Lemma hex_byte_inj b c : (b < 256)%N → (c < 256)%N → hex_byte b = hex_byte c → b = c.
Proof.
  intros Hb Hc [= Hhi%hex_digit_inj Hlo%hex_digit_inj].
  - rewrite (N.div_mod b 16), (N.div_mod c 16) by done. congruence.
  - by apply N.mod_lt.
  - by apply N.mod_lt.
  - by apply N.Div0.div_lt_upper_bound.
  - by apply N.Div0.div_lt_upper_bound.
Qed.

Lemma hex_encode_hex bs :
  Forall (λ b, b < 256)%N bs →
  Forall2 (λ (c : class) x, c x = true) (replicate (2 * length bs) cl_hex) (hex_encode bs).
Proof.
  induction 1 as [|b bs Hb _ IH]; [constructor|].
  replace (2 * length (b :: bs)) with (S (S (2 * length bs))) by (cbn; lia).
  cbn [replicate hex_encode fmap list_fmap mjoin list_join hex_byte app].
  repeat constructor; [apply hex_digit_hex..|exact IH].
  - by apply N.Div0.div_lt_upper_bound.
  - by apply N.mod_lt.
Qed.

Lemma hex_encode_inj bs cs :
  length bs = length cs →
  Forall (λ b, b < 256)%N bs → Forall (λ b, b < 256)%N cs →
  hex_encode bs = hex_encode cs → bs = cs.
Proof.
  intros Hlen Hbs. revert cs Hlen.
  induction Hbs as [|b bs Hb _ IH]; intros [|c cs] Hlen Hcs Heq; try done.
  apply Forall_cons in Hcs as [Hc Hcs]. injection Heq as Hhi Hlo Hrest.
  rewrite (hex_byte_inj b c); [|done..|unfold hex_byte; congruence].
  f_equal. apply IH; [cbn in Hlen; lia|done|done].
Qed.

Lemma length_hex_encode bs : length (hex_encode bs) = 2 * length bs.
Proof.
  induction bs as [|b bs IH]; [done|].
  change (S (S (length (hex_encode bs))) = 2 * S (length bs)). lia.
Qed.

Lemma set_version_lt raw :
  Forall (λ b, b < 256)%N raw → Forall (λ b, b < 256)%N (set_version raw).
Proof.
  intros Hraw. unfold set_version.
  assert (∀ x m v : N, m < 256 → v < 256 → N.lor (N.land x m) v < 256)%N as Hlt.
  { intros x m v Hm Hv.
    assert (∀ y, (y < 256 → N.log2 y < 8 ∨ y = 0)%N) as Hlog.
    { intros y ?. destruct (decide (y = 0%N)); [by right|left].
      apply N.log2_lt_pow2; lia. }
    destruct (decide (N.lor (N.land x m) v = 0%N)); [lia|].
    apply (N.log2_lt_pow2 _ 8); [lia|]. rewrite N.log2_lor.
    apply N.max_lub_lt.
    - destruct (decide (N.land x m = 0%N)) as [->|?]; [done|].
      eapply N.le_lt_trans; [apply N.log2_land|].
      destruct (Hlog m Hm) as [?| ->]; [|by rewrite N.land_0_r in *]. lia.
    - destruct (Hlog v Hv) as [?| ->]; [done|done]. }
  apply Forall_insert; [apply Forall_insert; [done|]|]; by apply Hlt.
Qed.

Lemma length_set_version raw : length (set_version raw) = length raw.
Proof. unfold set_version. by rewrite !length_insert. Qed.

(** The high nibbles of the version and variant bytes. *)
Lemma version_digit b : (b < 256)%N →
  hex_digit (N.lor (N.land b 0x0f) 0x40 / 16) = "4"%char.
Proof.
  intros Hb. rewrite <-(N_ascii_embedding b) by done.
  by destruct (ascii_of_N b) as [[] [] [] [] [] [] [] []].
Qed.

Lemma variant_digit b : (b < 256)%N →
  cl_variant (hex_digit (N.lor (N.land b 0x3f) 0x80 / 16)) = true.
Proof.
  intros Hb. rewrite <-(N_ascii_embedding b) by done.
  by destruct (ascii_of_N b) as [[] [] [] [] [] [] [] []].
Qed.

Lemma explode16 {A} (l : list A) :
  length l = 16 → ∃ a0 a1 a2 a3 a4 a5 a6 a7 a8 a9 b0 b1 b2 b3 b4 b5,
    l = [a0; a1; a2; a3; a4; a5; a6; a7; a8; a9; b0; b1; b2; b3; b4; b5].
Proof. intros Hl. do 16 (destruct l as [|? l]; [done|]). destruct l; [|done]. eauto 20. Qed.

(** The masked entropy prints as a version-4, variant-1 UUID. *)
Lemma uuid_text_pattern raw :
  length raw = 16 → Forall (λ b, b < 256)%N raw →
  Forall2 (λ (c : class) x, c x = true) uuid_pattern (uuid_text (set_version raw)).
Proof.
  intros Hlen Hlt. pose proof (set_version_lt raw Hlt) as Hlt'.
  destruct (explode16 raw Hlen) as
    (a0&a1&a2&a3&a4&a5&a6&a7&a8&a9&b0&b1&b2&b3&b4&b5&->).
  unfold set_version in *. cbn in Hlt'. unfold uuid_text, uuid_pattern.
  assert (∀ (l : list N), Forall (λ b, b < 256)%N l →
    Forall2 (λ (c : class) x, c x = true) (replicate (2 * length l) cl_hex) (hex_encode l))
    as Hhex by exact hex_encode_hex.
  assert (∀ b, b < 256 → cl_hex (hex_digit (b mod 16)) = true)%N as Hlow.
  { intros. apply hex_digit_hex. by apply N.mod_lt. }
  repeat (apply Forall_cons in Hlt as [? Hlt]).
  repeat (apply Forall_cons in Hlt' as [? Hlt']).
  apply Forall2_app; [apply (Hhex [a0; a1; a2; a3]); by repeat constructor|].
  apply Forall2_app; [by repeat constructor|].
  apply Forall2_app; [apply (Hhex [a4; a5]); by repeat constructor|].
  apply Forall2_app; [by repeat constructor|].
  cbn [slice take drop insert list_insert lookup_total list_lookup_total
       hex_encode fmap list_fmap mjoin list_join hex_byte app replicate].
  rewrite version_digit by done.
  repeat constructor; auto using hex_digit_hex, N.mod_lt, variant_digit;
    apply hex_digit_hex; by apply N.Div0.div_lt_upper_bound.
Qed.

Lemma uuid_text_inj raw raw' :
  length raw = 16 → length raw' = 16 →
  Forall (λ b, b < 256)%N raw → Forall (λ b, b < 256)%N raw' →
  uuid_text raw = uuid_text raw' → raw = raw'.
Proof.
  intros Hl Hl' Hlt Hlt' Heq. unfold uuid_text in Heq.
  assert (∀ i j, j ≤ 16 → length (hex_encode (slice i j raw))
                 = length (hex_encode (slice i j raw'))) as Hlen.
  { intros. rewrite !length_hex_encode. unfold slice.
    rewrite !length_drop, !length_take. lia. }
  assert (∀ i j, j ≤ 16 → hex_encode (slice i j raw) = hex_encode (slice i j raw') →
                 slice i j raw = slice i j raw') as Hinj.
  { intros i j ? ?. apply hex_encode_inj; auto.
    - unfold slice. rewrite !length_drop, !length_take. lia.
    - unfold slice. by apply Forall_drop, Forall_take.
    - unfold slice. by apply Forall_drop, Forall_take. }
  apply app_inj_1 in Heq as [E1 Heq]; [|auto with lia]. injection Heq as Heq.
  apply app_inj_1 in Heq as [E2 Heq]; [|auto with lia]. injection Heq as Heq.
  apply app_inj_1 in Heq as [E3 Heq]; [|auto with lia]. injection Heq as Heq.
  apply app_inj_1 in Heq as [E4 Heq]; [|auto with lia]. injection Heq as E5.
  apply Hinj in E1, E2, E3, E4, E5; [|lia..].
  destruct (explode16 raw Hl) as (?&?&?&?&?&?&?&?&?&?&?&?&?&?&?&?&->).
  destruct (explode16 raw' Hl') as (?&?&?&?&?&?&?&?&?&?&?&?&?&?&?&?&->).
  cbn in *. congruence.
Qed.

Lemma length_bytes_of s : length (bytes_of s) = String.length s.
Proof. induction s; cbn; auto. Qed.

Lemma cl_lit_Forall2 s :
  Forall2 (λ (c : class) x, c x = true) (cl_lit s) (String.list_ascii_of_string s).
Proof.
  unfold cl_lit. induction s as [|c s IH]; cbn; constructor; [|done].
  by apply bool_decide_eq_true.
Qed.

Lemma string_of_lit s l : string_of (String.list_ascii_of_string s ++ l) = s +:+ string_of l.
Proof. induction s; [done|]. rewrite string_app_cons. cbn. by f_equal. Qed.

(** Any prefix followed by masked entropy matches the prefix's pattern. *)
Lemma prefixed_matches p raw :
  length raw = 16 → Forall (λ b, b < 256)%N raw →
  match_classes (cl_lit p ++ uuid_pattern)
    (p +:+ string_of (uuid_text (set_version raw))) = true.
Proof.
  intros. rewrite <-string_of_lit. apply match_classes_Forall2.
  apply Forall2_app; [apply cl_lit_Forall2|by apply uuid_text_pattern].
Qed.

Lemma NewRunIDFrom_ok src id src' :
  NewRunIDFrom src = (Ok id, src') ↔
  16 ≤ String.length src ∧ src' = sdrop 16 src ∧
  id = "run_" +:+ string_of (uuid_text (set_version (take 16 (bytes_of src)))).
Proof.
  unfold NewRunIDFrom, ReadFull. rewrite length_bytes_of.
  case_bool_decide; (split; [by intros [= <- <-]|]).
  - by intros (_ & -> & ->).
  - by intros (? & _).
Qed.

Lemma entropy_ok src :
  16 ≤ String.length src →
  length (take 16 (bytes_of src)) = 16 ∧
  Forall (λ b, b < 256)%N (take 16 (bytes_of src)).
Proof.
  intros. split; [rewrite length_take, length_bytes_of; lia|].
  apply Forall_take, bytes_of_lt.
Qed.

Lemma newGovernanceID_eq p src :
  newGovernanceID p src =
    match NewRunIDFrom src with
    | (Ok _, src') => (Ok ((p +:+ "_") +:+
        string_of (uuid_text (set_version (take 16 (bytes_of src))))), src')
    | (Err e, src') => (Err e, src')
    end.
Proof.
  unfold newGovernanceID. destruct (NewRunIDFrom src) as [[id|e] src'] eqn:Hnew; [|done].
  apply NewRunIDFrom_ok in Hnew as (_ & _ & ->).
  by rewrite TrimPrefix_app, string_app_assoc.
Qed.

(** ** Properties *)

(** Generating a run ID from an entropy source either consumes exactly
    sixteen bytes and yields an ID that [ParseRunID] accepts unchanged, or the
    source held fewer than sixteen bytes and the call fails. *)
Theorem NewRunIDFrom_total src :
  match NewRunIDFrom src with
  | (Ok id, src') =>
      16 ≤ String.length src ∧ src' = sdrop 16 src ∧ ParseRunID id = Ok id
  | (Err _, src') => String.length src < 16 ∧ src' = ""
  end.
Proof.
  destruct (NewRunIDFrom src) as [[id|e] src'] eqn:Hnew.
  - apply NewRunIDFrom_ok in Hnew as (Hlen & -> & ->). do 2 (split; [done|]).
    destruct (entropy_ok src Hlen). unfold ParseRunID, runIDPattern.
    by rewrite prefixed_matches.
  - unfold NewRunIDFrom, ReadFull in Hnew. rewrite length_bytes_of in Hnew.
    case_bool_decide; simplify_eq. split; [lia|done].
Qed.

(** The sprint and decision identifiers derived from an entropy source are
    accepted by their own parser, carry the same UUID as the run identifier of
    that source, and no identifier is valid under two of the three types. *)
Theorem governance_ids_typed src id rest :
  NewRunIDFrom src = (Ok id, rest) →
  ∃ sprint decision,
    NewSprintIDFrom src = (Ok sprint, rest) ∧ ParseSprintID sprint = Ok sprint ∧
    NewDecisionIDFrom src = (Ok decision, rest) ∧
    ParseDecisionID decision = Ok decision ∧
    UUID sprint = TrimPrefix id "run_" ∧
    is_ok (ParseRunID sprint) = false ∧ is_ok (ParseRunID decision) = false ∧
    is_ok (ParseSprintID decision) = false ∧ is_ok (ParseDecisionID sprint) = false ∧
    is_ok (ParseSprintID id) = false ∧ is_ok (ParseDecisionID id) = false.
Proof.
  intros Hnew. unfold NewSprintIDFrom, NewDecisionIDFrom.
  rewrite !newGovernanceID_eq, Hnew.
  apply NewRunIDFrom_ok in Hnew as (Hlen & _ & ->).
  destruct (entropy_ok src Hlen) as [H16 Hlt].
  eexists _, _. split; [done|]. split.
  { unfold ParseSprintID, sprintIDPattern. by rewrite prefixed_matches. }
  split; [done|]. split.
  { unfold ParseDecisionID, decisionIDPattern. by rewrite prefixed_matches. }
  unfold UUID. change ("sprint" +:+ "_") with "sprint_". by rewrite !TrimPrefix_app.
Qed.

Lemma governance_ids_typed_witness : ∃ sprint decision,
    let src := string_of (replicate 16 (chr 255)) in
    NewSprintIDFrom src = (Ok sprint, "") ∧ ParseSprintID sprint = Ok sprint ∧
    NewDecisionIDFrom src = (Ok decision, "") ∧ ParseDecisionID decision = Ok decision.
Proof.
  destruct (governance_ids_typed (string_of (replicate 16 (chr 255)))
    "run_ffffffff-ffff-4fff-bfff-ffffffffffff" "" eq_refl)
    as (s & d & H1 & H2 & H3 & H4 & _).
  exists s, d. auto.
Defined.

(** Two generated run IDs are equal only if the 122 entropy bits that
    survive the version and variant masking are equal. *)
Theorem NewRunIDFrom_collision src1 src2 id rest1 rest2 :
  NewRunIDFrom src1 = (Ok id, rest1) → NewRunIDFrom src2 = (Ok id, rest2) →
  set_version (take 16 (bytes_of src1)) = set_version (take 16 (bytes_of src2)).
Proof.
  intros (Hl1 & _ & ->)%NewRunIDFrom_ok (Hl2 & _ & Heq)%NewRunIDFrom_ok.
  destruct (entropy_ok src1 Hl1), (entropy_ok src2 Hl2).
  apply (inj (String.app "run_")), string_of_inj, uuid_text_inj in Heq;
    rewrite ?length_set_version; auto using set_version_lt.
Qed.

Lemma NewRunIDFrom_collision_witness :
  let src1 := string_of (chr <$> [0;1;2;3;4;5;0x06;7;0x08;9;10;11;12;13;14;15]%N) in
  let src2 := string_of (chr <$> [0;1;2;3;4;5;0xF6;7;0xC8;9;10;11;12;13;14;15]%N) in
  set_version (take 16 (bytes_of src1)) = set_version (take 16 (bytes_of src2)).
Proof.
  apply (NewRunIDFrom_collision _ _ "run_00010203-0405-4607-8809-0a0b0c0d0e0f" "" "");
    reflexivity.
Defined.
