(* ===== verification/Contracts.v ===== *)
(** * Package [internal/contracts]: the aggregates the control plane stores *)

From S2P Require Import Prelude GoLib.

Record Run := mkRun {
  r_RunID : string;
  r_SchemaVersion : string;
  r_Objective : string;
  r_State : string;
  r_Version : Z;
  r_CreatedAt : Time;
  r_UpdatedAt : Time;
}.

Record Sprint := mkSprint {
  s_SprintID : string;
  s_SchemaVersion : string;
  s_SequenceNumber : Z;
  s_Title : string;
  s_Objective : string;
  s_Status : string;
  s_Version : Z;
  s_RunID : string;
  s_PendingDecisionID : option string;
  s_CreatedAt : Time;
  s_UpdatedAt : Time;
}.

Record Decision := mkDecision {
  d_DecisionID : string;
  d_SchemaVersion : string;
  d_SprintID : string;
  d_RunID : string;
  d_Action : string;
  d_RiskClass : string;
  d_Status : string;
  d_Version : Z;
  d_RequestedBy : string;
  d_DecidedBy : option string;
  d_Reason : option string;
  d_CreatedAt : Time;
  d_UpdatedAt : Time;
  d_DecidedAt : option Time;
}.

(** A worker's report; a slice is [None] when it is [nil]. *)
Record WorkerReport := mkWorkerReport {
  rep_Status : string;
  rep_Summary : string;
  rep_ChangedPaths : option (list string);
  rep_EvidenceRefs : option (list string);
  rep_Risks : option (list string);
}.

Record WorkerUsage := mkWorkerUsage {
  wu_InputTokens : Z;
  wu_CachedInputTokens : Z;
  wu_OutputTokens : Z;
  wu_ToolCalls : Z;
}.

Record WorkerResult := mkWorkerResult {
  wr_TaskID : string;
  wr_AttemptID : string;
  wr_RunID : string;
  wr_SchemaVersion : string;
  wr_Adapter : string;
  wr_Status : string;
  wr_Retryable : bool;
  wr_TerminationReason : string;
  wr_StartedAt : Time;
  wr_FinishedAt : Time;
  wr_DurationMS : Z;
  wr_ExitCode : option Z;
  wr_Stdout : string;
  wr_Stderr : string;
  wr_StdoutSHA256 : string;
  wr_StderrSHA256 : string;
  wr_Usage : WorkerUsage;
  wr_Report : option WorkerReport;
  wr_EvidenceRefs : option (list string);
}.

Record WorkerBudgets := mkWorkerBudgets {
  wb_WallClockMS : Z;
  wb_InactivityMS : Z;
  wb_MaxOutputBytes : Z;
  wb_CancellationGraceMS : Z;
  wb_MaxRetries : Z;
  wb_MaxTokens : option Z;
  wb_MaxCommands : option Z;
}.

(** ** Deliveries

    The contract requires every slice of these records but
    [MechanicalValidatorIDs] to be non-empty, so [nil] is not told from the
    empty slice there. *)

Record DeliveryRequest := mkDeliveryRequest {
  rq_DeliveryID : string;
  rq_TenantID : string;
  rq_RepositoryID : string;
  rq_TaskID : string;
  rq_AttemptID : string;
  rq_RunID : string;
  rq_SchemaVersion : string;
  rq_RepositoryPath : string;
  rq_WorktreeRoot : string;
  rq_BaseCommit : string;
  rq_PublicationRef : string;
  rq_PublicationPreviousCommit : option string;
  rq_AuthorID : string;
  rq_ValidatorID : string;
  rq_Role : string;
  rq_Objective : string;
  rq_ReadScopes : list string;
  rq_WriteScopes : list string;
  rq_ArtifactScopes : list string;
  rq_EvidenceScope : string;
  rq_ContextPackRef : option string;
  rq_AttemptOrdinal : Z;
  rq_Model : option string;
  rq_WorkerBudgets : WorkerBudgets;
  rq_MechanicalValidatorIDs : option (list string);
  rq_LeaseTTLMS : Z;
}.

Record ValidationCheck := mkValidationCheck {
  vc_CheckID : string;
  vc_Kind : string;
  vc_Status : string;
  vc_StartedAt : Time;
  vc_FinishedAt : Time;
  vc_DurationMS : Z;
  vc_ExitCode : option Z;
  vc_CommandDigest : option string;
  vc_StdoutSHA256 : string;
  vc_StderrSHA256 : string;
  vc_Detail : option string;
}.

Record ValidationReport := mkValidationReport {
  vr_ValidationID : string;
  vr_DeliveryID : string;
  vr_TenantID : string;
  vr_RepositoryID : string;
  vr_SchemaVersion : string;
  vr_Status : string;
  vr_BaseCommit : string;
  vr_ResultCommit : string;
  vr_PatchSHA256 : string;
  vr_AuthorID : string;
  vr_ValidatorID : string;
  vr_CleanCheckout : bool;
  vr_Checks : list ValidationCheck;
  vr_CreatedAt : Time;
}.

Record EvidenceEntry := mkEvidenceEntry {
  ee_Path : string; ee_SHA256 : string; ee_SizeBytes : Z; ee_MediaType : string }.

Record EvidenceManifest := mkEvidenceManifest {
  mf_DeliveryID : string;
  mf_TenantID : string;
  mf_RepositoryID : string;
  mf_SchemaVersion : string;
  mf_Entries : list EvidenceEntry;
}.

Record DeliveryLeaseFence := mkFence {
  fn_ResourceType : string; fn_ResourceID : string; fn_OwnerID : string; fn_FencingToken : Z }.

Record DeliveryReceipt := mkDeliveryReceipt {
  rt_DeliveryID : string;
  rt_TenantID : string;
  rt_RepositoryID : string;
  rt_SchemaVersion : string;
  rt_Status : string;
  rt_BaseCommit : string;
  rt_ResultCommit : string;
  rt_ResultTree : string;
  rt_PatchSHA256 : string;
  rt_ChangedPaths : list string;
  rt_PublicationRef : string;
  rt_PublicationPreviousCommit : option string;
  rt_AuthorID : string;
  rt_ValidatorID : string;
  rt_LeaseFences : list DeliveryLeaseFence;
  rt_ValidationReportRef : string;
  rt_EvidenceManifestRef : string;
  rt_CreatedAt : Time;
  rt_PublishedAt : Time;
}.

#[export] Instance DeliveryLeaseFence_eq_dec : EqDecision DeliveryLeaseFence.
Proof. solve_decision. Defined.

(** The zero values Go's map index expression yields for an absent key. *)
Definition zeroRun : Run := mkRun "" "" "" "" 0 zero_time zero_time.
Definition zeroSprint : Sprint :=
  mkSprint "" "" 0 "" "" "" 0 "" None zero_time zero_time.

#[export] Instance Run_eq_dec : EqDecision Run.
Proof. solve_decision. Defined.
#[export] Instance Sprint_eq_dec : EqDecision Sprint.
Proof. solve_decision. Defined.
#[export] Instance Decision_eq_dec : EqDecision Decision.
Proof. solve_decision. Defined.
