(* ===== verification/RunState.v ===== *)
(** * Package [internal/runstate], first half: the run state machine

    States are strings, as in the source ([type State string]); [phase] is the
    abstract lifecycle they encode and [lifecycle] its step relation, stated
    independently of the transition table. *)

From S2P Require Import Prelude GoLib Fault Contracts.

Abbreviation State := string (only parsing).

Definition StateDraft : State := "draft".
Definition StateAwaitingApproval : State := "awaiting_approval".
Definition StateQueued : State := "queued".
Definition StatePreparing : State := "preparing".
Definition StateRunning : State := "running".
Definition StateValidating : State := "validating".
Definition StateAwaitingDecision : State := "awaiting_decision".
Definition StateCompleted : State := "completed".
Definition StateCancelling : State := "cancelling".
Definition StateCancelled : State := "cancelled".
Definition StateFailedRetryable : State := "failed_retryable".
Definition StateFailedTerminal : State := "failed_terminal".

Definition transition_rows : list (State * gset State) :=
  [ (StateDraft, {[ StateAwaitingApproval; StateCancelling ]});
    (StateAwaitingApproval, {[ StateQueued; StateCancelling ]});
    (StateQueued, {[ StatePreparing; StateCancelling ]});
    (StatePreparing,
      {[ StateRunning; StateCancelling; StateFailedRetryable; StateFailedTerminal ]});
    (StateRunning,
      {[ StateValidating; StateCancelling; StateFailedRetryable; StateFailedTerminal ]});
    (StateValidating,
      {[ StateAwaitingDecision; StateCompleted; StateCancelling;
         StateFailedRetryable; StateFailedTerminal ]});
    (StateAwaitingDecision,
      {[ StateQueued; StateCompleted; StateCancelling; StateFailedTerminal ]});
    (StateFailedRetryable, {[ StateQueued; StateCancelling ]});
    (StateCancelling, {[ StateCancelled ]}) ].

Definition allowedTransitions : gmap State (gset State) := list_to_map transition_rows.

Record CommandMetadata := mkMetadata {
  IdempotencyKey : string;
  ActorType : string;
  ActorID : string;
  CorrelationID : string;
  CausationID : option string;
  AuditToolName : string;
}.

(** [length := utf8.RuneCountInString(s); length < lo || length > hi]. *)
Definition runes_outside (lo hi : Z) (s : string) : bool :=
  let length := RuneCountInString s in ((length <? lo) || (hi <? length))%Z.

Definition ValidateCommandMetadata (metadata : CommandMetadata) : result unit :=
  let invalid := fault CodeInvalidArgument "runstate.ValidateCommandMetadata" in
  _ ← fail_if (runes_outside 8 200 (IdempotencyKey metadata))
        (invalid "idempotency key length must be between 8 and 200 characters");
  _ ← fail_if (negb (bool_decide
          (ActorType metadata ∈ ["human"; "agent"; "worker"; "system"])))
        (invalid "actor type must be human, agent, worker, or system");
  _ ← fail_if (runes_outside 1 160 (ActorID metadata))
        (invalid "actor ID length must be between 1 and 160 characters");
  _ ← fail_if (runes_outside 3 160 (CorrelationID metadata))
        (invalid "correlation ID length must be between 3 and 160 characters");
  _ ← fail_if (negb (bool_decide (AuditToolName metadata = "")) &&
               runes_outside 3 120 (AuditToolName metadata))
        (invalid "audit tool name length must be between 3 and 120 characters");
  fail_if (match CausationID metadata with
           | Some c => (160 <? RuneCountInString c)%Z
           | None => false
           end)
    (invalid "causation ID must not exceed 160 characters").

Definition ParseState (value : string) : result State :=
  if bool_decide (value ∈
       [StateDraft; StateAwaitingApproval; StateQueued; StatePreparing;
        StateRunning; StateValidating; StateAwaitingDecision; StateCompleted;
        StateCancelling; StateCancelled; StateFailedRetryable; StateFailedTerminal])
  then Ok value
  else Err (New CodeInvalidArgument "runstate.ParseState"
              (Sprintf "unknown run state %q" [value])).

Definition CanTransition (from to : State) : bool :=
  match allowedTransitions !! from with
  | None => false
  | Some destinations => bool_decide (to ∈ destinations)
  end.

(** The run [Machine.Transition] returns when the step is allowed. *)
Definition advance (run : Run) (target : State) (now : Time) : Run :=
  mkRun (r_RunID run) (r_SchemaVersion run) (r_Objective run) target
    (incr (r_Version run)) (r_CreatedAt run)
    (if Before now (r_UpdatedAt run) then r_UpdatedAt run else now).

(** [Machine.Transition]. *)
Definition Transition `{Clock} (run : Run) (target : State) : M error nat Run :=
  current ← lift (ParseState (r_State run));
  _ ← lift (fail_if (negb (CanTransition current target))
        (New CodeConflict "runstate.Machine.Transition"
          (Sprintf "transition %s -> %s is not allowed" [current; target])));
  now ← Now;
  mret (advance run target now).

Definition Terminal (state : State) : bool :=
  bool_decide (state = StateCompleted) || bool_decide (state = StateCancelled) ||
  bool_decide (state = StateFailedTerminal).

Definition ValidTimestamp (value : Time) : bool :=
  negb (IsZero value) && (zone_offset value =? 0)%Z.

(** ** The abstract lifecycle *)

Inductive phase :=
| Draft | AwaitingApproval | Queued | Preparing | Running | Validating
| AwaitingDecision | Completed | Cancelling | Cancelled
| FailedRetryable | FailedTerminal.

#[export] Instance phase_eq_dec : EqDecision phase.
Proof. solve_decision. Defined.

Definition phase_state (p : phase) : State :=
  match p with
  | Draft => StateDraft
  | AwaitingApproval => StateAwaitingApproval
  | Queued => StateQueued
  | Preparing => StatePreparing
  | Running => StateRunning
  | Validating => StateValidating
  | AwaitingDecision => StateAwaitingDecision
  | Completed => StateCompleted
  | Cancelling => StateCancelling
  | Cancelled => StateCancelled
  | FailedRetryable => StateFailedRetryable
  | FailedTerminal => StateFailedTerminal
  end.

Definition settled (p : phase) : Prop := p = Completed ∨ p = Cancelled ∨ p = FailedTerminal.
Definition executing (p : phase) : Prop := p = Preparing ∨ p = Running ∨ p = Validating.

(** Work is submitted, approved, executed in order and judged; executing work
    may fail, a judge may reject for good or send the work back, and anything
    that is neither settled nor already cancelling may be cancelled. *)
Inductive lifecycle : phase → phase → Prop :=
| lc_submit : lifecycle Draft AwaitingApproval
| lc_approve : lifecycle AwaitingApproval Queued
| lc_prepare : lifecycle Queued Preparing
| lc_start : lifecycle Preparing Running
| lc_validate : lifecycle Running Validating
| lc_ask : lifecycle Validating AwaitingDecision
| lc_pass : lifecycle Validating Completed
| lc_accept : lifecycle AwaitingDecision Completed
| lc_rework : lifecycle AwaitingDecision Queued
| lc_reject : lifecycle AwaitingDecision FailedTerminal
| lc_fail p : executing p → lifecycle p FailedTerminal
| lc_fail_retryable p : executing p → lifecycle p FailedRetryable
| lc_retry : lifecycle FailedRetryable Queued
| lc_cancel p : ¬ settled p → p ≠ Cancelling → lifecycle p Cancelling
| lc_cancelled : lifecycle Cancelling Cancelled.

(** ** Lemmas *)

Lemma ParseState_ok v s : ParseState v = Ok s ↔ s = v ∧ ∃ p, phase_state p = v.
Proof.
  unfold ParseState. case_bool_decide as Hin.
  - split; [|by intros [-> _]]. intros [= <-]. split; [done|].
    set_unfold in Hin. destruct_or?; subst;
      [exists Draft|exists AwaitingApproval|exists Queued|exists Preparing
      |exists Running|exists Validating|exists AwaitingDecision|exists Completed
      |exists Cancelling|exists Cancelled|exists FailedRetryable|exists FailedTerminal];
      done.
  - split; [done|]. intros [-> [p <-]]. destruct Hin. destruct p; set_solver.
Qed.

#[export] Instance phase_state_inj : Inj (=) (=) phase_state.
Proof. by intros [] []. Qed.

Lemma ParseState_phase p : ParseState (phase_state p) = Ok (phase_state p).
Proof. apply ParseState_ok. eauto. Qed.

Lemma CanTransition_row from to :
  CanTransition from to = true ↔ ∃ ds, (from, ds) ∈ transition_rows ∧ to ∈ ds.
Proof.
  assert (NoDup (transition_rows.*1)) as Hnd by (apply (bool_decide_unpack _); by vm_compute).
  unfold CanTransition, allowedTransitions. split.
  - destruct (_ !! from) as [ds|] eqn:Hl; [|done]. intros ?%bool_decide_eq_true.
    exists ds. split; [|done]. by apply elem_of_list_to_map_2.
  - intros (ds & Hin & Hto). rewrite (elem_of_list_to_map_1 _ _ ds Hnd Hin).
    by apply bool_decide_eq_true.
Qed.

Lemma settled_dec p : settled p ∨ ¬ settled p.
Proof. unfold settled. destruct p; (by right; intros [|[|]]) || (left; by auto). Qed.

(** The encoded step relation, by computation over the twelve states. *)
Lemma lifecycle_CanTransition p q :
  lifecycle p q → CanTransition (phase_state p) (phase_state q) = true.
Proof.
  assert (∀ p q, CanTransition (phase_state p) (phase_state q) =
    match p, q with
    | Draft, (AwaitingApproval | Cancelling) | AwaitingApproval, (Queued | Cancelling)
    | Queued, (Preparing | Cancelling)
    | Preparing, (Running | Cancelling | FailedRetryable | FailedTerminal)
    | Running, (Validating | Cancelling | FailedRetryable | FailedTerminal)
    | Validating, (AwaitingDecision | Completed | Cancelling | FailedRetryable | FailedTerminal)
    | AwaitingDecision, (Queued | Completed | Cancelling | FailedTerminal)
    | FailedRetryable, (Queued | Cancelling) | Cancelling, Cancelled => true
    | _, _ => false
    end) as ->.
  { intros [] []; by vm_compute. }
  destruct 1 as [| | | | | | | | | |[] [?|[?|?]]|[] [?|[?|?]]| |[] Hs ?|];
    try done; exfalso; first [congruence | apply Hs; unfold settled; by auto].
Qed.

Lemma CanTransition_phases from to :
  CanTransition from to = true → ∃ p q, phase_state p = from ∧ phase_state q = to.
Proof.
  rewrite CanTransition_row. unfold transition_rows. intros (ds & Hin & Hto).
  assert (∀ v, v ∈ [StateDraft; StateAwaitingApproval; StateQueued; StatePreparing;
        StateRunning; StateValidating; StateAwaitingDecision; StateCompleted;
        StateCancelling; StateCancelled; StateFailedRetryable; StateFailedTerminal] →
        ∃ p, phase_state p = v) as Hph.
  { intros v Hv. apply (ParseState_ok v v). unfold ParseState.
    by rewrite bool_decide_eq_true_2. }
  rewrite !elem_of_cons in Hin. destruct_or! Hin; simplify_eq; [..|set_solver];
    rewrite !elem_of_union, !elem_of_singleton in Hto || rewrite elem_of_singleton in Hto;
    destruct_or?; subst; (edestruct Hph as [p Hp]; [|edestruct Hph as [q Hq];
      [|exists p, q; split; [exact Hp|exact Hq]]]); set_solver.
Qed.

(** [Machine.Transition] as a function of the clock reading it would take. *)
Lemma Transition_run `{Clock} run target n :
  Transition run target n =
    match ParseState (r_State run) with
    | Err e => (Err e, n)
    | Ok current =>
        if CanTransition current target
        then (Ok (advance run target (clock_reading n)), S n)
        else (Err (New CodeConflict "runstate.Machine.Transition"
               (Sprintf "transition %s -> %s is not allowed" [current; target])), n)
    end.
Proof.
  unfold Transition. rewrite M_bind_run. unfold lift.
  destruct (ParseState _); [|done]. rewrite M_bind_run.
  by destruct (CanTransition _ _).
Qed.

Lemma CanTransition_lifecycle p q :
  CanTransition (phase_state p) (phase_state q) = true → lifecycle p q.
Proof.
  destruct p, q; vm_compute; try discriminate; intros _;
    try constructor; unfold executing, settled; naive_solver.
Qed.

Lemma Terminal_stuck s t : Terminal s = true → CanTransition s t = false.
Proof.
  intros Ht. apply not_true_iff_false. intros Hct.
  destruct (CanTransition_phases _ _ Hct) as (p & q & <- & <-).
  destruct p; try discriminate Ht; destruct q; discriminate Hct.
Qed.

(** ** Properties *)

(** The transition table implements the lifecycle: a transition is allowed
    exactly if both names encode phases and the lifecycle has that step. *)
Theorem CanTransition_refines_lifecycle from to :
  CanTransition from to = true ↔
  ∃ p q, phase_state p = from ∧ phase_state q = to ∧ lifecycle p q.
Proof.
  split.
  - intros Hct. destruct (CanTransition_phases _ _ Hct) as (p & q & <- & <-).
    exists p, q. auto using CanTransition_lifecycle.
  - intros (p & q & <- & <- & ?). by apply lifecycle_CanTransition.
Qed.

(** [Terminal] names exactly the known states from which the table allows
    nothing, and every known state has a sequence of allowed transitions to a
    terminal one. *)
Theorem Terminal_exact v s :
  ParseState v = Ok s →
  (Terminal s = true ↔ ∀ t, CanTransition s t = false) ∧
  ∃ t, rtc (λ a b, CanTransition a b = true) s t ∧ Terminal t = true.
Proof.
  intros [-> [p <-]]%ParseState_ok. split; [split|].
  - intros Ht t. by apply Terminal_stuck.
  - intros Hstuck. destruct p; try done; exfalso;
      (discriminate (Hstuck StateCancelling) || discriminate (Hstuck StateCancelled)).
  - destruct (settled_dec p) as [Hs|Hs].
    + exists (phase_state p). split; [done|]. destruct Hs as [->|[->| ->]]; done.
    + exists StateCancelled. split; [|done].
      assert (CanTransition StateCancelling StateCancelled = true) by done.
      destruct (decide (p = Cancelling)) as [->|Hne]; [by apply rtc_once|].
      eapply rtc_l; [apply (lifecycle_CanTransition p Cancelling); by constructor|].
      by apply rtc_once.
Qed.

Lemma Terminal_exact_witness :
  ∃ t, rtc (λ a b, CanTransition a b = true) StateRunning t ∧ Terminal t = true.
Proof. apply (Terminal_exact StateRunning StateRunning eq_refl). Defined.

(** The approval gate: however a run moves from draft, unless it passes
    through [awaiting_approval] it can only be draft, cancelling or cancelled. *)
Theorem approval_gate s :
  rtc (λ a b, CanTransition a b = true ∧ b ≠ StateAwaitingApproval) StateDraft s →
  s = StateDraft ∨ s = StateCancelling ∨ s = StateCancelled.
Proof.
  apply (rtc_ind_r (λ s, s = StateDraft ∨ s = StateCancelling ∨ s = StateCancelled)); [auto|].
  intros a b _ [Hct Hb] Ha. destruct (CanTransition_phases _ _ Hct) as (p & q & <- & <-).
  change (phase_state p = phase_state Draft ∨ phase_state p = phase_state Cancelling ∨
    phase_state p = phase_state Cancelled) in Ha.
  destruct Ha as [->%(inj _)|[->%(inj _)| ->%(inj _)]];
    destruct q; first [discriminate Hct | by destruct Hb | by left | by right; left
                      | by right; right].
Qed.

Lemma approval_gate_witness :
  StateCancelled = StateDraft ∨ StateCancelled = StateCancelling ∨
  StateCancelled = StateCancelled.
Proof.
  apply approval_gate.
  apply (rtc_l _ _ StateCancelling); [by split|]. apply rtc_once. by split.
Defined.
