(* ===== verification/RunStore.v ===== *)
(** * Package [internal/runstate], second half: the in-memory run repository

    [Store] keeps the runs, the idempotency receipts and a clock. Its mutex is
    held for the whole of every operation that touches the maps, so an
    operation is one atomic step [exec]; [step] is the step of a client that
    issues any operation, and [rtc step] any interleaving of clients. *)

From S2P Require Import Prelude GoLib Fault Contracts Identity RunState.

Record commandReceipt := mkReceipt { requestHash : string; receipt_run : Run }.

Record Store := mkStore {
  runs : gmap RunID Run;
  receipts : gmap string commandReceipt;
  ticks : nat;
}.

(** [NewStore]. *)
Definition NewStore : Store := mkStore ∅ ∅ 0.

Definition validateObjective (objective : string) : result unit :=
  fail_if (runes_outside 3 8000 objective)
    (fault CodeInvalidArgument "runstate.Store.Create"
       "objective length must be between 3 and 8000 characters").

Definition draftRun (id : RunID) (objective : string) (now : Time) : Run :=
  mkRun id "1.0" objective StateDraft 1 now now.

(** The bytes [commandRequestHash] digests. *)
Definition commandRequestPreimage (metadata : CommandMetadata) (parts : list string) : string :=
  Join (parts ++ [ActorType metadata; ActorID metadata; default "" (CausationID metadata)]) NUL.

Definition receiptKey (scope key : string) : string := scope +:+ NUL +:+ key.

Section store.
Context `{Clock, Sha256}.

Definition on_clock {A} (m : M error nat A) : M error Store A := λ s,
  let '(r, n) := m (ticks s) in (r, mkStore (runs s) (receipts s) n).

Definition put_run (id : RunID) (run : Run) : M error Store unit :=
  modify (λ s, mkStore (<[id := run]> (runs s)) (receipts s) (ticks s)).

Definition commandRequestHash (metadata : CommandMetadata) (parts : list string) : string :=
  Sum256 (commandRequestPreimage metadata parts).

(** [replayLocked]: [Ok None] is "not found". *)
Definition replayLocked (s : Store) (scope key hash : string) : result (option Run) :=
  match receipts s !! receiptKey scope key with
  | None => Ok None
  | Some receipt =>
      if bool_decide (requestHash receipt = hash) then Ok (Some (receipt_run receipt))
      else Err (fault CodeConflict "runstate.Store.idempotency"
                  "idempotency key was reused with a different command")
  end.

Definition saveReceiptLocked (scope key hash : string) (run : Run) : M error Store unit :=
  modify (λ s, mkStore (runs s)
    (<[receiptKey scope key := mkReceipt hash run]> (receipts s)) (ticks s)).

Definition Create (id : RunID) (objective : string) : M error Store Run :=
  _ ← lift (validateObjective objective);
  now ← on_clock Now;
  s ← get;
  match runs s !! id with
  | Some _ => throw (New CodeConflict "runstate.Store.Create"
                       (Sprintf "run %s already exists" [id]))
  | None =>
      _ ← put_run id (draftRun id objective now);
      mret (draftRun id objective now)
  end.

Definition Get (id : RunID) : M error Store Run :=
  s ← get;
  match runs s !! id with
  | Some run => mret run
  | None => throw (New CodeNotFound "runstate.Store.Get"
                     (Sprintf "run %s was not found" [id]))
  end.

(** The part [Store.Transition] and [Store.TransitionRun] share: look the run
    up, check the expected version, and apply the state machine. *)
Definition versionedTransition (op : string) (id : RunID) (expectedVersion : Z)
    (target : State) : M error Store Run :=
  s ← get;
  match runs s !! id with
  | None => throw (New CodeNotFound op (Sprintf "run %s was not found" [id]))
  | Some run =>
      if negb (r_Version run =? expectedVersion)%Z
      then throw (New CodeConflict op
             (Sprintf "run %s version mismatch: expected %d, current %d"
                [id; pretty expectedVersion; pretty (r_Version run)]))
      else
        updated ← on_clock (RunState.Transition run target);
        _ ← put_run id updated;
        mret updated
  end.

Definition Store_Transition (id : RunID) (expectedVersion : Z) (target : State)
    : M error Store Run :=
  versionedTransition "runstate.Store.Transition" id expectedVersion target.

Definition CreateRun (id : RunID) (objective : string) (metadata : CommandMetadata)
    : M error Store Run :=
  _ ← lift (validateObjective objective);
  _ ← lift (ValidateCommandMetadata metadata);
  let scope := "create_run" in
  let hash := commandRequestHash metadata ["create_run"; objective] in
  s ← get;
  replay ← lift (replayLocked s scope (IdempotencyKey metadata) hash);
  match replay with
  | Some run => mret run
  | None =>
      match runs s !! id with
      | Some _ => throw (New CodeConflict "runstate.Store.CreateRun"
                           (Sprintf "run %s already exists" [id]))
      | None =>
          now ← on_clock Now;
          _ ← put_run id (draftRun id objective now);
          _ ← saveReceiptLocked scope (IdempotencyKey metadata) hash
                (draftRun id objective now);
          mret (draftRun id objective now)
      end
  end.

Definition GetRun (id : RunID) : M error Store Run := Get id.

Definition TransitionRun (id : RunID) (expectedVersion : Z) (target : State)
    (metadata : CommandMetadata) : M error Store Run :=
  _ ← lift (fail_if (expectedVersion <? 1)%Z
        (fault CodeInvalidArgument "runstate.Store.TransitionRun"
           "expected version must be at least 1"));
  _ ← lift (ValidateCommandMetadata metadata);
  let scope := "transition_run:" +:+ id in
  let hash := commandRequestHash metadata
                ["transition_run"; id; pretty expectedVersion; target] in
  s ← get;
  replay ← lift (replayLocked s scope (IdempotencyKey metadata) hash);
  match replay with
  | Some run => mret run
  | None =>
      updated ← versionedTransition "runstate.Store.TransitionRun" id expectedVersion target;
      _ ← saveReceiptLocked scope (IdempotencyKey metadata) hash updated;
      mret updated
  end.

(** ** Clients *)

Inductive op :=
| OpCreate (id : RunID) (objective : string)
| OpGet (id : RunID)
| OpTransition (id : RunID) (version : Z) (target : State)
| OpCreateRun (id : RunID) (objective : string) (md : CommandMetadata)
| OpTransitionRun (id : RunID) (version : Z) (target : State) (md : CommandMetadata).

Definition exec (o : op) : M error Store Run :=
  match o with
  | OpCreate id objective => Create id objective
  | OpGet id => Get id
  | OpTransition id v t => Store_Transition id v t
  | OpCreateRun id objective md => CreateRun id objective md
  | OpTransitionRun id v t md => TransitionRun id v t md
  end.

Definition step (s s' : Store) : Prop := ∃ o r, exec o s = (r, s').
End store.

(** ** What one operation can do to the store *)

Section effects.
Context `{Clock, Sha256}.

(** [run] is a legal new value of the entry [id]: a fresh draft, or the old
    entry advanced along an allowed transition. *)
Inductive successor (rs : gmap RunID Run) (id : RunID) (run : Run) : Prop :=
| succ_create objective now :
    rs !! id = None → validateObjective objective = Ok tt →
    run = draftRun id objective now → successor rs id run
| succ_move old target now :
    rs !! id = Some old → CanTransition (r_State old) target = true →
    run = advance old target now → successor rs id run.

Inductive effect (s : Store) : result Run → Store → Prop :=
| eff_idle r n : effect s r (mkStore (runs s) (receipts s) n)
| eff_write id run n rcs :
    successor (runs s) id run →
    (rcs = receipts s ∨
     ∃ k h, receipts s !! k = None ∧ rcs = <[k := mkReceipt h run]> (receipts s)) →
    effect s (Ok run) (mkStore (<[id := run]> (runs s)) rcs n).

Lemma versionedTransition_ok op id v t s r s' :
  versionedTransition op id v t s = (r, s') →
  (∃ old, runs s !! id = Some old ∧ r_Version old = v ∧
     CanTransition (r_State old) t = true ∧
     r = Ok (advance old t (clock_reading (ticks s))) ∧
     s' = mkStore (<[id := advance old t (clock_reading (ticks s))]> (runs s))
            (receipts s) (S (ticks s))) ∨
  (∃ e, r = Err e ∧ s' = s).
Proof.
  unfold versionedTransition, get, throw. rewrite M_bind_run.
  destruct (runs s !! id) as [old|] eqn:Hold; [|intros [= <- <-]; eauto].
  destruct (negb _) eqn:Hv; [intros [= <- <-]; eauto|].
  rewrite M_bind_run. unfold on_clock. rewrite Transition_run.
  apply negb_false_iff, Z.eqb_eq in Hv.
  destruct (ParseState _) as [st|e] eqn:Hst;
    [|intros [= <- <-]; right; destruct s; eauto].
  apply ParseState_ok in Hst as [-> _].
  destruct (CanTransition _ _) eqn:Hct;
    [|intros [= <- <-]; right; destruct s; eauto].
  intros [= <- <-]. left. exists old. auto.
Qed.

Lemma exec_effect o s r s' : exec o s = (r, s') → effect s r s'.
Proof.
  assert (∀ r, effect s r s) as Hidle by (intros; destruct s; apply eff_idle).
  destruct o as [id obj|id|id v t|id obj md|id v t md]; cbn [exec].
  - unfold Create. rewrite M_bind_run. unfold lift.
    destruct (validateObjective obj) as [[]|] eqn:Hobj; [|by intros [= <- <-]].
    rewrite M_bind_run. cbn. rewrite M_bind_run. cbn.
    destruct (runs s !! id) eqn:?; intros [= <- <-]; [apply eff_idle|].
    apply eff_write; [by eapply succ_create|by left].
  - unfold Get. rewrite M_bind_run. cbn.
    destruct (runs s !! id); by intros [= <- <-].
  - intros [(old & ? & ? & ? & -> & ->)|(e & -> & ->)]%versionedTransition_ok; [|done].
    apply eff_write; [by eapply succ_move|by left].
  - unfold CreateRun. rewrite M_bind_run. unfold lift.
    destruct (validateObjective obj) as [[]|] eqn:Hobj; [|by intros [= <- <-]].
    rewrite M_bind_run. destruct (ValidateCommandMetadata md); [|by intros [= <- <-]].
    rewrite M_bind_run. cbn. rewrite M_bind_run. unfold replayLocked.
    destruct (receipts s !! _) as [rc|] eqn:Hrc.
    { destruct (bool_decide _); by intros [= <- <-]. }
    destruct (runs s !! id) eqn:?; intros [= <- <-]; [done|].
    apply eff_write; [by eapply succ_create|right; eauto].
  - unfold TransitionRun. rewrite M_bind_run. unfold lift.
    destruct (fail_if _ _); [|by intros [= <- <-]].
    rewrite M_bind_run. destruct (ValidateCommandMetadata md); [|by intros [= <- <-]].
    rewrite M_bind_run. cbn. rewrite M_bind_run. unfold replayLocked.
    destruct (receipts s !! _) as [rc|] eqn:Hrc.
    { destruct (bool_decide _); by intros [= <- <-]. }
    rewrite M_bind_run.
    destruct (versionedTransition _ id v t s) as [r1 s1] eqn:Hvt.
    apply versionedTransition_ok in Hvt
      as [(old & ? & ? & ? & -> & ->)|(e & -> & ->)]; intros [= <- <-]; [|done].
    apply eff_write; [by eapply succ_move|right; eauto].
Qed.
End effects.

(** ** Abstract specification: a history of phases per run

    The newest phase comes first. A store does nothing, registers a run in
    [Draft], or extends one history along the lifecycle. *)

Inductive spec_step (h : gmap RunID (list phase)) : gmap RunID (list phase) → Prop :=
| spec_stutter : spec_step h h
| spec_create id : h !! id = None → spec_step h (<[id := [Draft]]> h)
| spec_move id p q t :
    h !! id = Some (p :: t) → lifecycle p q → spec_step h (<[id := q :: p :: t]> h).

(** A stored run shows the newest phase and, as version, the length of the
    history at the width of an [int]. *)
Definition represents (run : Run) (t : list phase) : Prop :=
  r_Version run = wrap64 (Z.of_nat (length t)) ∧
  match t with p :: _ => r_State run = phase_state p | [] => False end.

Definition abstracts (s : Store) (h : gmap RunID (list phase)) : Prop :=
  ∀ id, option_Forall2 represents (runs s !! id) (h !! id).

(** ** The representation invariant *)

Definition run_ok (id : RunID) (run : Run) : Prop :=
  r_RunID run = id ∧ r_SchemaVersion run = "1.0" ∧
  validateObjective (r_Objective run) = Ok tt ∧
  (∃ p, r_State run = phase_state p) ∧
  (instant (r_CreatedAt run) ≤ instant (r_UpdatedAt run))%Z.

(** [old] is an earlier value of the run [new]. *)
Definition earlier (old new : Run) : Prop :=
  r_RunID old = r_RunID new ∧ r_Objective old = r_Objective new ∧
  r_CreatedAt old = r_CreatedAt new ∧
  rtc (λ a b, CanTransition a b = true) (r_State old) (r_State new) ∧
  (instant (r_UpdatedAt old) ≤ instant (r_UpdatedAt new))%Z.

Definition store_ok (s : Store) : Prop :=
  map_Forall run_ok (runs s) ∧
  ∀ k rc, receipts s !! k = Some rc →
    ∃ cur, runs s !! r_RunID (receipt_run rc) = Some cur ∧ earlier (receipt_run rc) cur.

Section facts.
Context `{Clock, Sha256}.

Lemma advance_updated old t now :
  (instant (r_UpdatedAt old) ≤ instant (r_UpdatedAt (advance old t now)))%Z.
Proof. cbn. unfold Before. destruct (_ <? _)%Z eqn:?; bool_prop; lia. Qed.

Lemma advance_earlier old t now :
  CanTransition (r_State old) t = true → earlier old (advance old t now).
Proof.
  intros. split_and!; [done..|by apply rtc_once|apply advance_updated].
Qed.

#[export] Instance earlier_preorder : PreOrder earlier.
Proof.
  split.
  - intros run. by split_and!.
  - intros a b c (? & ? & ? & ? & ?) (? & ? & ? & ? & ?).
    split_and!; [congruence..|by etrans|lia].
Qed.

Lemma successor_ok rs id run :
  map_Forall run_ok rs → successor rs id run → run_ok id run.
Proof.
  intros Hok [obj now ? Hobj ->|old t now Hold Hct ->].
  - split_and!; [done..|by exists Draft|done].
  - destruct (Hok _ _ Hold) as (? & ? & ? & ? & ?).
    split_and!; try done.
    + destruct (CanTransition_phases _ _ Hct) as (_ & q & _ & <-). by exists q.
    + pose proof (advance_updated old t now). cbn [r_CreatedAt advance]. lia.
Qed.

(** A write keeps every run that was there, in a later value. *)
Lemma successor_later rs id run id' cur :
  map_Forall run_ok rs → successor rs id run → rs !! id' = Some cur →
  ∃ cur', <[id := run]> rs !! id' = Some cur' ∧ earlier cur cur'.
Proof.
  intros Hok Hsucc Hcur. destruct (decide (id = id')) as [<-|Hne].
  - exists run. rewrite lookup_insert_eq. split; [done|].
    destruct Hsucc as [|old t now Hold ? ->]; simplify_eq. by apply advance_earlier.
  - exists cur. rewrite lookup_insert_ne by done. by split.
Qed.

Lemma effect_ok s r s' : store_ok s → effect s r s' → store_ok s'.
Proof.
  intros [Hruns Hrcs] [|id run n rcs Hsucc Hr]; [by split|].
  pose proof (successor_ok _ _ _ Hruns Hsucc) as Hrun. split; cbn.
  - by apply map_Forall_insert_2.
  - intros k rc. destruct Hr as [->|(k0 & h & Hnone & ->)].
    + intros (cur & Hcur & He)%Hrcs.
      destruct (successor_later _ _ _ _ _ Hruns Hsucc Hcur) as (cur' & ? & ?).
      exists cur'. split; [done|by etrans].
    + rewrite lookup_insert. case_decide; [intros [= <-]|].
      * cbn. destruct Hrun as (-> & _). exists run. by rewrite lookup_insert_eq.
      * intros (cur & Hcur & He)%Hrcs.
        destruct (successor_later _ _ _ _ _ Hruns Hsucc Hcur) as (cur' & ? & ?).
        exists cur'. split; [done|by etrans].
Qed.

Lemma receipts_stable s s' k rc :
  rtc step s s' → receipts s !! k = Some rc → receipts s' !! k = Some rc.
Proof.
  induction 1 as [|s s1 s' (o & r & He) _ IH]; [done|]. intros Hk. apply IH.
  destruct (exec_effect _ _ _ _ He) as [|id run n rcs _ [->|(k' & h & ? & ->)]]; [done..|].
  cbn. rewrite lookup_insert_ne; [done|congruence].
Qed.
End facts.

(** ** Properties *)

Section properties.
Context `{Clock, Sha256}.

(** *** Receipts: written by the first success, answered ever after *)

Lemma commandRequestHash_actor md md' parts :
  ActorType md = ActorType md' → ActorID md = ActorID md' →
  default "" (CausationID md) = default "" (CausationID md') →
  commandRequestHash md parts = commandRequestHash md' parts.
Proof.
  unfold commandRequestHash, commandRequestPreimage. by intros -> -> ->.
Qed.

Lemma TransitionRun_receipt s id v t md r s' :
  TransitionRun id v t md s = (Ok r, s') →
  (v <? 1)%Z = false ∧
  receipts s' !! receiptKey ("transition_run:" +:+ id) (IdempotencyKey md) =
    Some (mkReceipt (commandRequestHash md ["transition_run"; id; pretty v; t]) r).
Proof.
  unfold TransitionRun. rewrite M_bind_run. unfold lift, fail_if.
  destruct (v <? 1)%Z; [done|]. cbn.
  rewrite M_bind_run. destruct (ValidateCommandMetadata md); [|done].
  rewrite M_bind_run. cbn. rewrite M_bind_run. unfold replayLocked.
  destruct (receipts s !! _) as [[h rr]|] eqn:Hrc.
  { case_bool_decide as Hh; [|done]. intros [= <- <-]. cbn in Hh. by rewrite Hrc, Hh. }
  rewrite M_bind_run.
  destruct (versionedTransition _ id v t s) as [r1 s1'] eqn:Hvt.
  apply versionedTransition_ok in Hvt
    as [(old & ? & ? & ? & -> & ->)|(e & -> & ->)]; intros [= <- <-].
  cbn. by rewrite lookup_insert_eq.
Qed.

(** What a transition command does where its key already has a receipt. *)
Lemma TransitionRun_keyed s id v t md rc :
  (v <? 1)%Z = false → ValidateCommandMetadata md = Ok tt →
  receipts s !! receiptKey ("transition_run:" +:+ id) (IdempotencyKey md) = Some rc →
  TransitionRun id v t md s =
    (if bool_decide (requestHash rc =
          commandRequestHash md ["transition_run"; id; pretty v; t])
     then Ok (receipt_run rc)
     else Err (fault CodeConflict "runstate.Store.idempotency"
                 "idempotency key was reused with a different command"), s).
Proof.
  intros Hv Hmd Hrc.
  unfold TransitionRun, fail_if. rewrite Hv, M_bind_run. cbn.
  rewrite M_bind_run. unfold lift. rewrite Hmd, M_bind_run. cbn.
  rewrite M_bind_run. unfold replayLocked. rewrite Hrc.
  by destruct (bool_decide _).
Qed.

Lemma TransitionRun_replay s id v t md r :
  (v <? 1)%Z = false → ValidateCommandMetadata md = Ok tt →
  receipts s !! receiptKey ("transition_run:" +:+ id) (IdempotencyKey md) =
    Some (mkReceipt (commandRequestHash md ["transition_run"; id; pretty v; t]) r) →
  TransitionRun id v t md s = (Ok r, s).
Proof.
  intros Hv Hmd Hrc. rewrite (TransitionRun_keyed _ _ _ _ _ _ Hv Hmd Hrc).
  by rewrite bool_decide_eq_true_2.
Qed.

Lemma CreateRun_receipt s id objective md r s' :
  CreateRun id objective md s = (Ok r, s') →
  validateObjective objective = Ok tt ∧
  receipts s' !! receiptKey "create_run" (IdempotencyKey md) =
    Some (mkReceipt (commandRequestHash md ["create_run"; objective]) r).
Proof.
  unfold CreateRun. rewrite M_bind_run. unfold lift.
  destruct (validateObjective objective) as [[]|]; [|done].
  rewrite M_bind_run. destruct (ValidateCommandMetadata md); [|done].
  rewrite M_bind_run. cbn. rewrite M_bind_run. unfold replayLocked.
  destruct (receipts s !! _) as [[h rr]|] eqn:Hrc.
  { case_bool_decide as Hh; [|done]. intros [= <- <-]. cbn in Hh. by rewrite Hrc, Hh. }
  destruct (runs s !! id); intros [= <- <-]. split; [done|]. apply lookup_insert_eq.
Qed.

Lemma CreateRun_replay s id objective md r :
  validateObjective objective = Ok tt → ValidateCommandMetadata md = Ok tt →
  receipts s !! receiptKey "create_run" (IdempotencyKey md) =
    Some (mkReceipt (commandRequestHash md ["create_run"; objective]) r) →
  CreateRun id objective md s = (Ok r, s).
Proof.
  intros Hobj Hmd Hrc. unfold CreateRun. rewrite M_bind_run. unfold lift. rewrite Hobj.
  rewrite M_bind_run, Hmd, M_bind_run. cbn. rewrite M_bind_run. unfold replayLocked.
  rewrite Hrc. cbn. by rewrite bool_decide_eq_true_2.
Qed.

(** C36. The store refines the history specification: whatever operation a
    client issues, and whether it succeeds or fails, the histories take one
    specification step, with every version counting the phases passed. *)
Theorem store_refines_history s h o r s' :
  abstracts s h → exec o s = (r, s') → ∃ h', spec_step h h' ∧ abstracts s' h'.
Proof.
  intros Habs Hex. destruct (exec_effect _ _ _ _ Hex) as [|id run n rcs Hsucc _].
  { exists h. split; [constructor|done]. }
  pose proof (Habs id) as Hid.
  assert (∀ t, represents run t →
    abstracts (mkStore (<[id := run]> (runs s)) rcs n) (<[id := t]> h)) as Hins.
  { intros t Ht id'. cbn. rewrite !lookup_insert. case_decide; [by constructor|apply Habs]. }
  destruct Hsucc as [obj now Hnone _ ->|old t now Hold Hct ->].
  - rewrite Hnone in Hid. inversion Hid as [|]; subst.
    exists (<[id := [Draft]]> h). split; [by constructor|]. by apply Hins.
  - rewrite Hold in Hid. inversion Hid as [? t0 [Hver Hst] E1 E2|]; subst.
    destruct t0 as [|p t0]; [done|].
    destruct (CanTransition_phases _ _ Hct) as (p' & q & Hp' & <-).
    rewrite Hst in Hct, Hp'. apply (inj phase_state) in Hp' as ->.
    exists (<[id := q :: p :: t0]> h). split.
    { eapply spec_move; [done|by apply CanTransition_lifecycle]. }
    apply Hins. split; [|done]. cbn [r_Version advance]. rewrite Hver.
    rewrite incr_wrap64, !length_cons. f_equal. lia.
Qed.

(** In every store reached by any sequence of operations, each run sits
    under its own ID with a valid objective, a known state and ordered
    timestamps, whatever the clock returned, and each idempotency receipt
    holds an earlier value of a run that is still there. *)
Theorem store_reachable_ok s : rtc step NewStore s → store_ok s.
Proof.
  apply rtc_invariant.
  - intros a b Ha (o & r & He). eapply effect_ok; [done|by eapply exec_effect].
  - split; cbn; [apply map_Forall_empty|by intros].
Qed.

(** A transition command is applied exactly once: after it succeeded, and
    whatever happened since, sending it again under its idempotency key (even
    with another correlation ID) returns the original run and changes
    nothing. *)
Theorem transition_exactly_once s id v t md r s1 s2 md' :
  TransitionRun id v t md s = (Ok r, s1) → rtc step s1 s2 →
  ValidateCommandMetadata md' = Ok tt →
  IdempotencyKey md' = IdempotencyKey md → ActorType md' = ActorType md →
  ActorID md' = ActorID md → default "" (CausationID md') = default "" (CausationID md) →
  TransitionRun id v t md' s2 = (Ok r, s2).
Proof.
  intros Hex Hs Hmd' Hkey Hty Hid Hca.
  apply TransitionRun_receipt in Hex as [Hv Hrc].
  apply (receipts_stable _ _ _ _ Hs) in Hrc.
  apply TransitionRun_replay; [done..|].
  by rewrite Hkey, (commandRequestHash_actor md' md).
Qed.

(** A create command is applied exactly once, too: resending it under its
    key returns the first run, although each attempt carries a fresh run ID. *)
Theorem create_exactly_once s id objective md r s1 s2 id' md' :
  CreateRun id objective md s = (Ok r, s1) → rtc step s1 s2 →
  ValidateCommandMetadata md' = Ok tt →
  IdempotencyKey md' = IdempotencyKey md → ActorType md' = ActorType md →
  ActorID md' = ActorID md → default "" (CausationID md') = default "" (CausationID md) →
  CreateRun id' objective md' s2 = (Ok r, s2).
Proof.
  intros Hex Hs Hmd' Hkey Hty Hid Hca.
  apply CreateRun_receipt in Hex as [Hobj Hrc].
  apply (receipts_stable _ _ _ _ Hs) in Hrc.
  apply CreateRun_replay; [done..|].
  by rewrite Hkey, (commandRequestHash_actor md' md).
Qed.

(** An operation that returns an error leaves every run and every receipt
    as it was. *)
Theorem failed_op_atomic o s e s' :
  exec o s = (Err e, s') → runs s' = runs s ∧ receipts s' = receipts s.
Proof. intros Hex. apply exec_effect in Hex. by inversion Hex. Qed.

(** A run in a terminal state is frozen: no later operation, by any
    client, changes its record in any field. *)
Theorem terminal_run_frozen s s' id run :
  rtc step s s' → runs s !! id = Some run → Terminal (r_State run) = true →
  runs s' !! id = Some run.
Proof.
  intros Hs Hrun Ht. revert Hrun. induction Hs as [|s s1 s' (o & r & He) _ IH]; [done|].
  intros Hrun. apply IH.
  destruct (exec_effect _ _ _ _ He) as [|id' run' n rcs Hsucc _]; [done|]. cbn.
  destruct (decide (id' = id)) as [->|?]; [|by rewrite lookup_insert_ne].
  destruct Hsucc as [|old t now Hold Hct _]; simplify_eq.
  by rewrite Terminal_stuck in Hct.
Qed.

Lemma ValidateCommandMetadata_actor md :
  ValidateCommandMetadata md = Ok tt → nul_free (ActorType md) = true.
Proof.
  unfold ValidateCommandMetadata. intros (_ & _ & H1)%res_bind_ok.
  apply res_bind_ok in H1 as ([] & Hty & _).
  apply fail_if_ok, negb_false_iff, bool_decide_eq_true in Hty.
  set_unfold in Hty. by destruct_or! Hty; rewrite Hty.
Qed.

(** An idempotency key is bound to its command: after a transition
    succeeded, presenting its key on the same run with any other version,
    target or actor is refused with a conflict and changes nothing, provided
    the texts contain no NUL and the digest separates the two requests. *)
Theorem key_reuse_rejected s id v t md r s1 s2 v' t' md' :
  TransitionRun id v t md s = (Ok r, s1) → rtc step s1 s2 →
  ValidateCommandMetadata md = Ok tt → ValidateCommandMetadata md' = Ok tt →
  (1 ≤ v')%Z → IdempotencyKey md' = IdempotencyKey md →
  Forall (λ x, nul_free x = true) [id; t; t'; ActorID md; ActorID md'] →
  (v', t', ActorType md', ActorID md') ≠ (v, t, ActorType md, ActorID md) →
  (let p := commandRequestPreimage md ["transition_run"; id; pretty v; t] in
   let p' := commandRequestPreimage md' ["transition_run"; id; pretty v'; t'] in
   Sum256 p = Sum256 p' → p = p') →
  TransitionRun id v' t' md' s2 =
    (Err (fault CodeConflict "runstate.Store.idempotency"
            "idempotency key was reused with a different command"), s2).
Proof.
  intros Hex Hs Hmd Hmd' Hv' Hkey Hnul Hne Hsep.
  apply TransitionRun_receipt in Hex as [_ Hrc].
  apply (receipts_stable _ _ _ _ Hs) in Hrc. rewrite <-Hkey in Hrc.
  rewrite (TransitionRun_keyed _ _ _ _ _ _ (proj2 (Z.ltb_ge _ _) Hv') Hmd' Hrc). cbn.
  rewrite bool_decide_eq_false_2; [done|]. intros Heq%Hsep. apply Hne.
  rewrite !Forall_cons in Hnul. destruct Hnul as (? & ? & ? & ? & ? & _).
  destruct (Join_NUL_inj
    ["transition_run"; id; pretty v; t; ActorType md; ActorID md]
    ["transition_run"; id; pretty v'; t'; ActorType md'; ActorID md']
    (default "" (CausationID md)) (default "" (CausationID md'))) as [Hl _].
  - done.
  - repeat constructor; auto using nul_free_pretty, ValidateCommandMetadata_actor.
  - repeat constructor; auto using nul_free_pretty, ValidateCommandMetadata_actor.
  - exact Heq.
  - injection Hl as Hpv -> -> ->. by apply (inj pretty) in Hpv as ->.
Qed.

Lemma step_version s s' id run :
  step s s' → runs s !! id = Some run →
  ∃ run', runs s' !! id = Some run' ∧
    (r_Version run' = r_Version run ∨ r_Version run' = incr (r_Version run)).
Proof.
  intros (o & r & He) Hrun.
  destruct (exec_effect _ _ _ _ He) as [|id' run' n rcs Hsucc _]; [by eauto|]. cbn.
  destruct (decide (id' = id)) as [->|?]; [|rewrite lookup_insert_ne by done; eauto].
  rewrite lookup_insert_eq. exists run'. split; [done|].
  destruct Hsucc as [|old t now Hold _ ->]; simplify_eq. by right.
Qed.

Lemma nsteps_version n s s' id run :
  nsteps step n s s' → runs s !! id = Some run →
  (0 ≤ r_Version run)%Z → (r_Version run + Z.of_nat n < 2 ^ 63)%Z →
  ∃ run', runs s' !! id = Some run' ∧
    (r_Version run ≤ r_Version run' ≤ r_Version run + Z.of_nat n)%Z.
Proof.
  intros Hn. revert run. induction Hn as [s|n s s1 s' Hst _ IH]; intros run Hrun Hpos Hb.
  { exists run. split; [done|lia]. }
  destruct (step_version _ _ _ _ Hst Hrun) as (run1 & Hrun1 & Hv).
  assert (r_Version run1 = r_Version run ∨ r_Version run1 = r_Version run + 1)%Z as Hv1.
  { destruct Hv as [->| ->]; [by left|right]. apply incr_lt. unfold int_max. lia. }
  destruct (IH run1 Hrun1) as (run' & ? & ?); [lia..|].
  exists run'. split; [done|]. lia.
Qed.

(** No lost update: once a run has moved past a version, no later command
    that still expects that version succeeds. For fewer than [2^63] further
    operations it is refused with a conflict and changes nothing. *)
Theorem stale_version_rejected n s s' id run v t md :
  runs s !! id = Some run → (1 ≤ v < r_Version run)%Z →
  nsteps step n s s' → (r_Version run + Z.of_nat n < 2 ^ 63)%Z →
  ValidateCommandMetadata md = Ok tt →
  receipts s' !! receiptKey ("transition_run:" +:+ id) (IdempotencyKey md) = None →
  ∃ e, TransitionRun id v t md s' = (Err e, s') ∧ CodeOf e = CodeConflict.
Proof.
  intros Hrun Hv Hn Hb Hmd Hnone.
  destruct (nsteps_version _ _ _ _ _ Hn Hrun) as (run' & Hrun' & Hv'); [lia..|].
  unfold TransitionRun, fail_if. rewrite (proj2 (Z.ltb_ge v 1)) by lia.
  rewrite M_bind_run. cbn. rewrite M_bind_run. unfold lift. rewrite Hmd, M_bind_run. cbn.
  rewrite M_bind_run. unfold replayLocked. rewrite Hnone. cbn.
  unfold versionedTransition. rewrite !M_bind_run. cbn. rewrite Hrun'. cbn.
  rewrite (proj2 (Z.eqb_neq (r_Version run') v)) by lia. cbn. eauto.
Qed.
(** Two create commands of one actor under one key. *)
Definition ambiguous_metadata (causation : string) : CommandMetadata :=
  mkMetadata "key-0001" "human" "alice" "corr" (Some causation) "".
Definition nul_text (parts : list string) : string := Join parts NUL.

(** The converse fails for texts that contain NUL: objectives and causation IDs
    may, so the joined request is ambiguous. Whatever the digest, a second
    create command with another objective and another causation ID, under the
    key of the first, is not refused: it is answered with the first run. *)
Theorem create_key_ambiguous id id' :
  let objective := "abc" in
  let objective' := nul_text ["abc"; "human"; "alice"; "z"] in
  let metadata := ambiguous_metadata (nul_text ["z"; "human"; "alice"; "w"]) in
  let metadata' := ambiguous_metadata "w" in
  ∃ run s, CreateRun id objective metadata NewStore = (Ok run, s) ∧
    CreateRun id' objective' metadata' s = (Ok run, s) ∧
    r_Objective run = objective ∧ objective ≠ objective'.
Proof.
  cbv zeta. destruct (CreateRun id _ _ NewStore) as [[run|e] s] eqn:Hrun.
  - exists run, s. split; [done|].
    assert (r_Objective run = "abc") as Hobj.
    { cbv [NewStore] in Hrun. vm_compute in Hrun. by injection Hrun as <- _. }
    split_and!; [|done|discriminate].
    apply CreateRun_receipt in Hrun as [_ Hrc]. by apply CreateRun_replay.
  - exfalso. vm_compute in Hrun. discriminate Hrun.
Qed.

End properties.

(** ** A concrete session

    A clock that counts, an identity digest, and a client that creates a run,
    submits it and repeats the command. *)

Module Session.
#[local] Instance demo_clock : Clock := λ n, mkTime (Z.of_nat n) 0.
#[local] Instance demo_sha : Sha256 := λ s, s.

Definition id : RunID := "run_00010203-0405-4607-8809-0a0b0c0d0e0f".
Definition md : CommandMetadata := mkMetadata "key-0001" "human" "alice" "corr" None "".
Definition md2 : CommandMetadata := mkMetadata "key-0002" "human" "alice" "corr" None "".
Definition s1 : Store := snd (CreateRun id "objective" md NewStore).
Definition s2 : Store := snd (TransitionRun id 1 StateAwaitingApproval md s1).
Definition s3 : Store := snd (TransitionRun id 2 StateCancelling md2 s2).
Definition s4 : Store := snd (Store_Transition id 3 StateCancelled s3).

Definition draft : Run := draftRun id "objective" (mkTime 0 0).
Definition submitted : Run := advance draft StateAwaitingApproval (mkTime 1 0).

Lemma run1 : CreateRun id "objective" md NewStore = (Ok draft, s1).
Proof. vm_compute. reflexivity. Qed.
Lemma run2 : TransitionRun id 1 StateAwaitingApproval md s1 = (Ok submitted, s2).
Proof. vm_compute. reflexivity. Qed.

Lemma steps : rtc step s2 s3.
Proof. apply rtc_once. eexists (OpTransitionRun id 2 StateCancelling md2), _. vm_compute. reflexivity. Qed.

Lemma store_refines_history_witness :
  ∃ h', spec_step ∅ h' ∧ abstracts s1 h'.
Proof.
  apply (store_refines_history NewStore ∅ (OpCreateRun id "objective" md) (Ok draft) s1).
  - intros i. constructor.
  - vm_compute. reflexivity.
Defined.

Lemma store_reachable_ok_witness : store_ok s1.
Proof.
  apply store_reachable_ok. apply rtc_once.
  exists (OpCreateRun id "objective" md), (Ok draft). vm_compute. reflexivity.
Defined.

Lemma transition_exactly_once_witness :
  TransitionRun id 1 StateAwaitingApproval
    (mkMetadata "key-0001" "human" "alice" "retry-7" None "") s3 = (Ok submitted, s3).
Proof.
  apply (transition_exactly_once s1 id 1 StateAwaitingApproval md submitted s2 s3);
    [exact run2|exact steps|vm_compute; reflexivity..].
Defined.

Lemma create_exactly_once_witness :
  CreateRun "run_ffffffff-0405-4607-8809-0a0b0c0d0e0f" "objective" md s2 = (Ok draft, s2).
Proof.
  apply (create_exactly_once NewStore id "objective" md draft s1 s2);
    [exact run1| |vm_compute; reflexivity..].
  apply rtc_once. exists (OpTransitionRun id 1 StateAwaitingApproval md), (Ok submitted).
  exact run2.
Defined.

Lemma failed_op_atomic_witness :
  let s' := snd (Store_Transition id 1 StateQueued s1) in
  runs s' = runs s1 ∧ receipts s' = receipts s1.
Proof.
  apply (failed_op_atomic (OpTransition id 1 StateQueued) s1
    (New CodeConflict "runstate.Machine.Transition"
      (Sprintf "transition %s -> %s is not allowed" [StateDraft; StateQueued]))).
  vm_compute. reflexivity.
Defined.

Lemma terminal_run_frozen_witness :
  runs (snd (Store_Transition id 4 StateQueued s4)) !! id = runs s4 !! id.
Proof.
  assert (∃ run, runs s4 !! id = Some run ∧ Terminal (r_State run) = true) as (run & Hr & Ht).
  { eexists. split; vm_compute; reflexivity. }
  rewrite Hr. apply (terminal_run_frozen s4); [|exact Hr|exact Ht].
  apply rtc_once. by exists (OpTransition id 4 StateQueued), (fst (Store_Transition id 4 StateQueued s4)).
Defined.

Lemma key_reuse_rejected_witness :
  ∃ e, TransitionRun id 2 StateCancelling md s3 = (Err e, s3).
Proof.
  eexists. apply (key_reuse_rejected s1 id 1 StateAwaitingApproval md submitted s2 s3);
    [exact run2|exact steps|vm_compute; reflexivity..|lia|reflexivity| | |].
  - by repeat constructor.
  - discriminate.
  - by intros p p'.
Defined.

Lemma stale_version_rejected_witness :
  ∃ e, TransitionRun id 1 StateCancelling md2 s2 = (Err e, s2) ∧ CodeOf e = CodeConflict.
Proof.
  apply (stale_version_rejected 0 s2 s2 id submitted 1 StateCancelling md2);
    [vm_compute; reflexivity|vm_compute; by split|constructor
    |vm_compute; reflexivity..].
Defined.
End Session.
