(* ===== verification/ControlMemory.v ===== *)
(** * Package [internal/control]: governed commands over the in-memory repository

    [MemoryRepository] keeps sprints, decisions, runs, replay receipts and the
    audit trail. The mutex covers each operation, so an operation is one atomic
    step. [encoding/json] is a parameter: a type of documents, the encoding of
    string lists (used for request digests), and a codec per response type. *)

From S2P Require Import Prelude GoLib Fault Contracts Identity RunState.

(** ** Types *)

Definition SprintProposed := "proposed".
Definition SprintAwaitingApproval := "awaiting_approval".
Definition SprintApproved := "approved".
Definition SprintRejected := "rejected".
Definition SprintCancelling := "cancelling".

Definition DecisionPending := "pending".
Definition DecisionApproved := "approved".
Definition DecisionRejected := "rejected".

Definition DecisionActionSubmitSprint := "submit_sprint".

Definition LocalTenantID := "00000000-0000-4000-8000-000000000001".
Definition LocalRepositoryID := "00000000-0000-4000-8000-000000000002".

Record Authority := mkAuthority { a_TenantID : string; a_RepositoryID : string }.

Record PlanResult := mkPlanResult { pr_Sprint : Sprint; pr_Run : Run }.
Record SubmissionResult := mkSubmissionResult {
  sr_Sprint : Sprint; sr_Decision : Decision; sr_Run : Run }.
Record DecisionResult := mkDecisionResult {
  dr_Sprint : Sprint; dr_Decision : Decision; dr_Run : Run }.

Record PlanCommand := mkPlanCommand {
  pc_SprintID : SprintID; pc_RunID : RunID; pc_Title : string; pc_Objective : string }.
Record SubmitCommand := mkSubmitCommand {
  sc_SprintID : SprintID; sc_DecisionID : DecisionID;
  sc_ExpectedVersion : Z; sc_RiskClass : string }.
Record DecideCommand := mkDecideCommand {
  dc_DecisionID : DecisionID; dc_ExpectedVersion : Z;
  dc_Approve : bool; dc_Reason : string }.

Record AuditRecord := mkAudit {
  au_ToolName : string;
  au_Outcome : string;
  au_ActorType : string;
  au_ActorID : string;
  au_CorrelationID : string;
  au_CausationID : option string;
  au_IdempotencyKey : string;
  au_CommandScope : string;
  au_ErrorCode : string;
  au_Replay : bool;
  au_OccurredAt : Time;
}.

(** ** JSON *)

Class Json := {
  json : Type;
  json_strings : list string → string;
}.

(** [json.Marshal] and a strict [Decoder.Decode] at one type. *)
Class JsonCodec `{Json} (A : Type) := {
  Marshal : A → result json;
  Decode : json → result A;
}.

(** A value the codec returns unchanged. *)
Definition roundtrips `{JsonCodec A} (a : A) : Prop :=
  ∃ j, Marshal a = Ok j ∧ Decode j = Ok a.

(** ** State *)

Record memoryReceipt `{Json} := mkMemoryReceipt {
  mr_requestHash : string;
  mr_response : json;
}.

Record MemoryRepository `{Json} := mkRepo {
  m_sprints : gmap SprintID Sprint;
  m_decisions : gmap DecisionID Decision;
  m_runs : gmap RunID Run;
  m_receipts : gmap string memoryReceipt;
  m_audits : list AuditRecord;
  m_nextSequence : Z;
  m_ticks : nat;
}.

Definition NewMemoryRepository `{Json} : MemoryRepository := mkRepo _ ∅ ∅ ∅ ∅ [] 1 0.

Definition isPrivilegedResumeTransition (source : string) (target : State) : bool :=
  (bool_decide (source = StateFailedRetryable) && bool_decide (target = StateQueued)) ||
  (bool_decide (source = StateAwaitingDecision) && bool_decide (target = StateQueued)).

Definition resumeTarget (run : Run) : result State :=
  if bool_decide (r_State run = StateFailedRetryable) then Ok StateQueued
  else if bool_decide (r_State run = StateAwaitingDecision) then Ok StateQueued
  else Err (fault CodeConflict "control.resumeTarget"
              "only failed_retryable or awaiting_decision runs can resume").

(** The loop of [TransitionRun] over the sprints, in the order [l] in which the
    map is ranged over: the first sprint linked to the run decides. *)
Fixpoint scanLinked (id : RunID) (target : State) (l : list (SprintID * Sprint))
    : result (option (SprintID * Sprint)) :=
  match l with
  | [] => Ok None
  | (sprintID, sprint) :: l' =>
      if negb (bool_decide (s_RunID sprint = id)) then scanLinked id target l'
      else if bool_decide (s_Status sprint = SprintAwaitingApproval) ||
              bool_decide (is_Some (s_PendingDecisionID sprint))
      then Err (fault CodeConflict "control.MemoryRepository.TransitionRun"
                  "resolve the pending decision before transitioning its run")
      else if bool_decide (s_Status sprint = SprintProposed) &&
              negb (bool_decide (target = StateCancelling))
      then Err (fault CodeConflict "control.MemoryRepository.TransitionRun"
                  "submit the proposed Sprint before transitioning its run")
      else if bool_decide (target = StateCancelling) then Ok (Some (sprintID, sprint))
      else Ok None
  end.

Section memory.
Context `{Clock, Sha256, Json}.
Context `{!JsonCodec PlanResult, !JsonCodec SubmissionResult, !JsonCodec DecisionResult,
          !JsonCodec Run}.

Abbreviation Cmd := (M error MemoryRepository).

Definition RepositoryAuthority : Authority := mkAuthority LocalTenantID LocalRepositoryID.

Definition clocked {A} (m : M error nat A) : Cmd A := λ s,
  let '(r, n) := m (m_ticks s) in
  (r, mkRepo _ (m_sprints s) (m_decisions s) (m_runs s) (m_receipts s) (m_audits s)
        (m_nextSequence s) n).

Definition putSprint (id : SprintID) (sprint : Sprint) : Cmd unit :=
  modify (λ s, mkRepo _ (<[id := sprint]> (m_sprints s)) (m_decisions s) (m_runs s)
                 (m_receipts s) (m_audits s) (m_nextSequence s) (m_ticks s)).
Definition putDecision (id : DecisionID) (decision : Decision) : Cmd unit :=
  modify (λ s, mkRepo _ (m_sprints s) (<[id := decision]> (m_decisions s)) (m_runs s)
                 (m_receipts s) (m_audits s) (m_nextSequence s) (m_ticks s)).
Definition putRun (id : RunID) (run : Run) : Cmd unit :=
  modify (λ s, mkRepo _ (m_sprints s) (m_decisions s) (<[id := run]> (m_runs s))
                 (m_receipts s) (m_audits s) (m_nextSequence s) (m_ticks s)).
Definition appendAudit (record : AuditRecord) : Cmd unit :=
  modify (λ s, mkRepo _ (m_sprints s) (m_decisions s) (m_runs s) (m_receipts s)
                 (m_audits s ++ [record]) (m_nextSequence s) (m_ticks s)).
Definition bumpSequence : Cmd unit :=
  modify (λ s, mkRepo _ (m_sprints s) (m_decisions s) (m_runs s) (m_receipts s)
                 (m_audits s) (incr (m_nextSequence s)) (m_ticks s)).

Definition controlHash (metadata : CommandMetadata) (parts : list string) : string :=
  Sum256 (json_strings
    (parts ++ [ActorType metadata; ActorID metadata; default "" (CausationID metadata)] ++
     (if bool_decide (AuditToolName metadata = "") then [] else [AuditToolName metadata]))).

Definition memoryKey (scope key : string) : string := scope +:+ NUL +:+ key.

(** [replayLocked]: [Ok None] is "not found". *)
Definition memoryReplay {A} `{!JsonCodec A} (s : MemoryRepository)
    (scope key hash : string) : result (option A) :=
  match m_receipts s !! memoryKey scope key with
  | None => Ok None
  | Some receipt =>
      if bool_decide (mr_requestHash receipt = hash) then
        match Decode (mr_response receipt) with
        | Ok a => Ok (Some a)
        | Err e => Err (FaultError CodeInternal "control.MemoryRepository.idempotency"
                          (Lit "decode replay") (Some e))
        end
      else Err (fault CodeConflict "control.MemoryRepository.idempotency"
                  "idempotency key was reused with a different command")
  end.

Definition memorySave {A} `{!JsonCodec A} (scope key hash : string) (response : A)
    : Cmd unit :=
  match Marshal response with
  | Err e => throw (FaultError CodeInternal "control.MemoryRepository.idempotency"
                      (Lit "encode replay receipt") (Some e))
  | Ok data =>
      modify (λ s, mkRepo _ (m_sprints s) (m_decisions s) (m_runs s)
        (<[memoryKey scope key := mkMemoryReceipt _ hash data]> (m_receipts s))
        (m_audits s) (m_nextSequence s) (m_ticks s))
  end.

Definition appendSuccessAuditLocked (metadata : CommandMetadata) (commandScope : string)
    (replay : bool) : Cmd unit :=
  if bool_decide (AuditToolName metadata = "") then mret tt
  else
    now ← clocked Now;
    appendAudit (mkAudit (AuditToolName metadata) "succeeded" (ActorType metadata)
      (ActorID metadata) (CorrelationID metadata) (CausationID metadata)
      (IdempotencyKey metadata) commandScope "" replay (UTC now)).

(** The frame every governed command shares: look for a receipt; answer a
    replay from it, with an audit entry; otherwise run the command, store its
    response and audit the success. *)
Definition governed {A} `{!JsonCodec A} (metadata : CommandMetadata) (scope hash : string)
    (body : Cmd A) : Cmd A :=
  s ← get;
  replay ← lift (memoryReplay s scope (IdempotencyKey metadata) hash);
  match replay with
  | Some response =>
      _ ← appendSuccessAuditLocked metadata scope true;
      mret response
  | None =>
      response ← body;
      _ ← memorySave scope (IdempotencyKey metadata) hash response;
      _ ← appendSuccessAuditLocked metadata scope false;
      mret response
  end.

Definition planBody (command : PlanCommand) : Cmd PlanResult :=
  s ← get;
  match m_sprints s !! pc_SprintID command with
  | Some _ => throw (fault CodeConflict "control.MemoryRepository.PlanSprint"
                       "sprint already exists")
  | None =>
      match m_runs s !! pc_RunID command with
      | Some _ => throw (fault CodeConflict "control.MemoryRepository.PlanSprint"
                           "run already exists")
      | None =>
          now0 ← clocked Now;
          let now := UTC now0 in
          let sprint := mkSprint (pc_SprintID command) "1.0" (m_nextSequence s)
            (pc_Title command) (pc_Objective command) SprintProposed 1
            (pc_RunID command) None now now in
          let run := mkRun (pc_RunID command) "1.0" (pc_Objective command)
            StateDraft 1 now now in
          _ ← bumpSequence;
          _ ← putSprint (pc_SprintID command) sprint;
          _ ← putRun (pc_RunID command) run;
          mret (mkPlanResult sprint run)
      end
  end.

Definition PlanSprint (command : PlanCommand) (metadata : CommandMetadata) : Cmd PlanResult :=
  _ ← lift (ValidateCommandMetadata metadata);
  governed metadata "plan_sprint"
    (controlHash metadata ["plan_sprint"; pc_Title command; pc_Objective command])
    (planBody command).

Definition GetSprint (id : SprintID) : Cmd Sprint :=
  s ← get;
  match m_sprints s !! id with
  | Some sprint => mret sprint
  | None => throw (New CodeNotFound "control.MemoryRepository.GetSprint"
                     (Sprintf "sprint %s was not found" [id]))
  end.

(** The identifier parsers' errors are re-categorized as internal. *)
Definition storedID {A} (op m : string) (r : result A) : Cmd A :=
  match r with
  | Ok a => mret a
  | Err e => throw (FaultError CodeInternal op (Lit m) (Some e))
  end.

Definition submitBody (command : SubmitCommand) (metadata : CommandMetadata)
    : Cmd SubmissionResult :=
  s ← get;
  match m_sprints s !! sc_SprintID command with
  | None => throw (fault CodeNotFound "control.MemoryRepository.SubmitSprint"
                     "sprint was not found")
  | Some sprint =>
      if negb (s_Version sprint =? sc_ExpectedVersion command)%Z ||
         negb (bool_decide (s_Status sprint = SprintProposed))
      then throw (fault CodeConflict "control.MemoryRepository.SubmitSprint"
                    "sprint is not a matching proposed version")
      else
        runID ← storedID "control.MemoryRepository.SubmitSprint"
                  "stored run ID is invalid" (ParseRunID (s_RunID sprint));
        let run := default zeroRun (m_runs s !! runID) in
        updatedRun ← clocked (Transition run StateAwaitingApproval);
        now0 ← clocked Now;
        let now := if Before (UTC now0) (s_UpdatedAt sprint) then s_UpdatedAt sprint
                   else UTC now0 in
        let sprint' := mkSprint (s_SprintID sprint) (s_SchemaVersion sprint)
          (s_SequenceNumber sprint) (s_Title sprint) (s_Objective sprint)
          SprintAwaitingApproval (incr (s_Version sprint)) (s_RunID sprint)
          (Some (sc_DecisionID command)) (s_CreatedAt sprint) now in
        let decision := mkDecision (sc_DecisionID command) "1.0" (s_SprintID sprint)
          (s_RunID sprint) DecisionActionSubmitSprint (sc_RiskClass command)
          DecisionPending 1 (ActorID metadata) None None now now None in
        _ ← putSprint (sc_SprintID command) sprint';
        _ ← putRun runID updatedRun;
        _ ← putDecision (sc_DecisionID command) decision;
        mret (mkSubmissionResult sprint' decision updatedRun)
  end.

Definition SubmitSprint (command : SubmitCommand) (metadata : CommandMetadata)
    : Cmd SubmissionResult :=
  _ ← lift (ValidateCommandMetadata metadata);
  governed metadata ("submit_sprint:" +:+ sc_SprintID command)
    (controlHash metadata ["submit_sprint"; sc_SprintID command;
       pretty (sc_ExpectedVersion command); sc_RiskClass command])
    (submitBody command metadata).

Definition resolveBody (command : DecideCommand) (metadata : CommandMetadata)
    : Cmd DecisionResult :=
  s ← get;
  match m_decisions s !! dc_DecisionID command with
  | None => throw (fault CodeNotFound "control.MemoryRepository.ResolveDecision"
                     "decision was not found")
  | Some decision =>
      if negb (d_Version decision =? dc_ExpectedVersion command)%Z ||
         negb (bool_decide (d_Status decision = DecisionPending))
      then throw (fault CodeConflict "control.MemoryRepository.ResolveDecision"
                    "decision is not a matching pending version")
      else
        sprintID ← storedID "control.MemoryRepository.ResolveDecision"
                     "stored sprint ID is invalid" (ParseSprintID (d_SprintID decision));
        runID ← storedID "control.MemoryRepository.ResolveDecision"
                  "stored run ID is invalid" (ParseRunID (d_RunID decision));
        let sprint := default zeroSprint (m_sprints s !! sprintID) in
        let run := default zeroRun (m_runs s !! runID) in
        let target := if dc_Approve command then StateQueued else StateCancelling in
        let decisionStatus :=
          if dc_Approve command then DecisionApproved else DecisionRejected in
        let sprintStatus :=
          if dc_Approve command then SprintApproved else SprintRejected in
        updatedRun ← clocked (Transition run target);
        now0 ← clocked Now;
        let now := if Before (UTC now0) (d_UpdatedAt decision) then d_UpdatedAt decision
                   else UTC now0 in
        let decision' := mkDecision (d_DecisionID decision) (d_SchemaVersion decision)
          (d_SprintID decision) (d_RunID decision) (d_Action decision)
          (d_RiskClass decision) decisionStatus (incr (d_Version decision))
          (d_RequestedBy decision) (Some (ActorID metadata)) (Some (dc_Reason command))
          (d_CreatedAt decision) now (Some now) in
        let sprint' := mkSprint (s_SprintID sprint) (s_SchemaVersion sprint)
          (s_SequenceNumber sprint) (s_Title sprint) (s_Objective sprint)
          sprintStatus (incr (s_Version sprint)) (s_RunID sprint) None
          (s_CreatedAt sprint) now in
        _ ← putDecision (dc_DecisionID command) decision';
        _ ← putSprint sprintID sprint';
        _ ← putRun runID updatedRun;
        mret (mkDecisionResult sprint' decision' updatedRun)
  end.

(** [fmt.Sprint] of a [bool]. *)
Definition Sprint_bool (b : bool) : string := if b then "true" else "false".

Definition ResolveDecision (command : DecideCommand) (metadata : CommandMetadata)
    : Cmd DecisionResult :=
  _ ← lift (ValidateCommandMetadata metadata);
  governed metadata ("resolve_decision:" +:+ dc_DecisionID command)
    (controlHash metadata ["resolve_decision"; dc_DecisionID command;
       pretty (dc_ExpectedVersion command); Sprint_bool (dc_Approve command);
       dc_Reason command])
    (resolveBody command metadata).

Definition GetRun (id : RunID) : Cmd Run :=
  s ← get;
  match m_runs s !! id with
  | Some run => mret run
  | None => throw (New CodeNotFound "control.MemoryRepository.GetRun"
                     (Sprintf "run %s was not found" [id]))
  end.

Definition transitionBody (id : RunID) (expectedVersion : Z) (target : State) : Cmd Run :=
  s ← get;
  match m_runs s !! id with
  | None => throw (fault CodeNotFound "control.MemoryRepository.TransitionRun"
                     "run was not found")
  | Some run =>
      if negb (r_Version run =? expectedVersion)%Z
      then throw (fault CodeConflict "control.MemoryRepository.TransitionRun"
                    "run version mismatch")
      else if isPrivilegedResumeTransition (r_State run) target
      then throw (fault CodePermissionDenied "control.MemoryRepository.TransitionRun"
                    "resume transitions require the governed ResumeRun command")
      else
        linked ← lift (scanLinked id target (map_to_list (m_sprints s)));
        updated ← clocked (Transition run target);
        _ ← putRun id updated;
        _ ← match linked with
            | Some (sprintID, sprint) =>
                if negb (bool_decide (sprintID = "")) &&
                   (bool_decide (s_Status sprint = SprintProposed) ||
                    bool_decide (s_Status sprint = SprintApproved))
                then putSprint sprintID
                       (mkSprint (s_SprintID sprint) (s_SchemaVersion sprint)
                          (s_SequenceNumber sprint) (s_Title sprint) (s_Objective sprint)
                          SprintCancelling (incr (s_Version sprint)) (s_RunID sprint)
                          (s_PendingDecisionID sprint) (s_CreatedAt sprint)
                          (r_UpdatedAt updated))
                else mret tt
            | None => mret tt
            end;
        mret updated
  end.

Definition TransitionRun (id : RunID) (expectedVersion : Z) (target : State)
    (metadata : CommandMetadata) : Cmd Run :=
  _ ← lift (ValidateCommandMetadata metadata);
  governed metadata ("transition_run:" +:+ id)
    (controlHash metadata ["transition_run"; id; pretty expectedVersion; target])
    (transitionBody id expectedVersion target).

Definition resumeBody (id : RunID) (expectedVersion : Z) : Cmd Run :=
  s ← get;
  match m_runs s !! id with
  | None => throw (fault CodeNotFound "control.MemoryRepository.ResumeRun"
                     "run was not found")
  | Some run =>
      if negb (r_Version run =? expectedVersion)%Z
      then throw (fault CodeConflict "control.MemoryRepository.ResumeRun"
                    "run version mismatch")
      else
        target ← lift (resumeTarget run);
        updated ← clocked (Transition run target);
        _ ← putRun id updated;
        mret updated
  end.

Definition ResumeRun (id : RunID) (expectedVersion : Z) (metadata : CommandMetadata)
    : Cmd Run :=
  _ ← lift (fail_if (expectedVersion <? 1)%Z
        (fault CodeInvalidArgument "control.MemoryRepository.ResumeRun"
           "expected version must be positive"));
  _ ← lift (ValidateCommandMetadata metadata);
  governed metadata ("resume_run:" +:+ id)
    (controlHash metadata ["resume_run"; id; pretty expectedVersion])
    (resumeBody id expectedVersion).

Definition RecordToolAudit (record : AuditRecord) : Cmd unit :=
  if bool_decide (au_ToolName record = "") || bool_decide (au_CorrelationID record = "") ||
     bool_decide (au_ActorID record = "")
  then throw (fault CodeInvalidArgument "control.MemoryRepository.RecordToolAudit"
                "tool, actor, and correlation are required")
  else if IsZero (au_OccurredAt record) then
    now ← clocked Now;
    appendAudit (mkAudit (au_ToolName record) (au_Outcome record) (au_ActorType record)
      (au_ActorID record) (au_CorrelationID record) (au_CausationID record)
      (au_IdempotencyKey record) (au_CommandScope record) (au_ErrorCode record)
      (au_Replay record) (UTC now))
  else appendAudit record.

Definition AuditRecords : Cmd (list AuditRecord) := gets m_audits.
End memory.
