(* ===== verification/Governance.v ===== *)
(** * The governance contract of [internal/control]

    An abstract machine over sprints, decisions and runs ([gstep]) that says
    what the control plane may do, its invariant [gov_ok], and the proofs that
    the invariant is kept. [ControlRefinement] shows that every command of the
    in-memory repository is one step of this machine. *)

From S2P Require Import Prelude GoLib Fault Contracts Identity RunState ControlMemory.

Record Gov := mkGov {
  g_sprints : gmap SprintID Sprint;
  g_decisions : gmap DecisionID Decision;
  g_runs : gmap RunID Run;
}.

(** The stored aggregates of a repository. *)
Definition gov `{Json} (s : MemoryRepository) : Gov :=
  mkGov (m_sprints s) (m_decisions s) (m_runs s).

(** A run state that only an approved sprint may show. *)
Definition working (st : string) : Prop :=
  ∃ p, st = phase_state p ∧
    p ∈ [Queued; Preparing; Running; Validating; AwaitingDecision; Completed;
         FailedRetryable; FailedTerminal].

Definition stopping (st : string) : Prop := st = StateCancelling ∨ st = StateCancelled.

(** [sp'] is [sp] with another status and pending decision. *)
Definition restatus (sp sp' : Sprint) (status : string) (pending : option string) : Prop :=
  s_SprintID sp' = s_SprintID sp ∧ s_RunID sp' = s_RunID sp ∧
  s_Title sp' = s_Title sp ∧ s_Objective sp' = s_Objective sp ∧
  s_SequenceNumber sp' = s_SequenceNumber sp ∧ s_Version sp' = incr (s_Version sp) ∧
  s_Status sp' = status ∧ s_PendingDecisionID sp' = pending.

(** [d'] is the pending decision [d], decided by [actor]. *)
Definition decided (d d' : Decision) (status : string) (actor : string) : Prop :=
  d_DecisionID d' = d_DecisionID d ∧ d_SprintID d' = d_SprintID d ∧
  d_RunID d' = d_RunID d ∧ d_RiskClass d' = d_RiskClass d ∧
  d_RequestedBy d' = d_RequestedBy d ∧ d_Version d' = incr (d_Version d) ∧
  d_Status d' = status ∧ d_DecidedBy d' = Some actor ∧ is_Some (d_DecidedAt d').

(** ** The abstract machine *)

Inductive gstep (g : Gov) : Gov → Prop :=
| g_idle : gstep g g
| g_create rid run :
    g_runs g !! rid = None → r_RunID run = rid → r_State run = StateDraft →
    gstep g (mkGov (g_sprints g) (g_decisions g) (<[rid := run]> (g_runs g)))
| g_plan sid sp run :
    sid ≠ "" → g_sprints g !! sid = None → g_runs g !! s_RunID sp = None →
    s_SprintID sp = sid → s_Status sp = SprintProposed → s_PendingDecisionID sp = None →
    r_RunID run = s_RunID sp → r_State run = StateDraft →
    gstep g (mkGov (<[sid := sp]> (g_sprints g)) (g_decisions g)
               (<[s_RunID sp := run]> (g_runs g)))
| g_submit sid sp sp' did d run now :
    g_sprints g !! sid = Some sp → s_Status sp = SprintProposed →
    g_decisions g !! did = None →
    g_runs g !! s_RunID sp = Some run →
    CanTransition (r_State run) StateAwaitingApproval = true →
    restatus sp sp' SprintAwaitingApproval (Some did) →
    d_DecisionID d = did → d_SprintID d = s_SprintID sp → d_RunID d = s_RunID sp →
    d_Status d = DecisionPending → d_DecidedBy d = None →
    gstep g (mkGov (<[sid := sp']> (g_sprints g)) (<[did := d]> (g_decisions g))
               (<[s_RunID sp := advance run StateAwaitingApproval now]> (g_runs g)))
| g_decide (approve : bool) actor did d d' sp sp' run now :
    g_decisions g !! did = Some d → d_Status d = DecisionPending →
    g_sprints g !! d_SprintID d = Some sp → g_runs g !! d_RunID d = Some run →
    CanTransition (r_State run) (if approve then StateQueued else StateCancelling) = true →
    decided d d' (if approve then DecisionApproved else DecisionRejected) actor →
    restatus sp sp' (if approve then SprintApproved else SprintRejected) None →
    gstep g (mkGov (<[d_SprintID d := sp']> (g_sprints g)) (<[did := d']> (g_decisions g))
               (<[d_RunID d :=
                  advance run (if approve then StateQueued else StateCancelling) now]>
                  (g_runs g)))
| g_transition rid run target sprints' now :
    g_runs g !! rid = Some run → CanTransition (r_State run) target = true →
    isPrivilegedResumeTransition (r_State run) target = false →
    (∀ sid sp, g_sprints g !! sid = Some sp → s_RunID sp = rid →
       s_Status sp ≠ SprintAwaitingApproval ∧ s_PendingDecisionID sp = None ∧
       (s_Status sp = SprintProposed → target = StateCancelling) ∧
       if bool_decide (target = StateCancelling) &&
          (bool_decide (s_Status sp = SprintProposed) || bool_decide (s_Status sp = SprintApproved))
       then ∃ sp', restatus sp sp' SprintCancelling None ∧
                   sprints' = <[sid := sp']> (g_sprints g)
       else sprints' = g_sprints g) →
    ((∀ sid sp, g_sprints g !! sid = Some sp → s_RunID sp ≠ rid) → sprints' = g_sprints g) →
    gstep g (mkGov sprints' (g_decisions g) (<[rid := advance run target now]> (g_runs g)))
| g_resume rid run now :
    g_runs g !! rid = Some run →
    r_State run = StateFailedRetryable ∨ r_State run = StateAwaitingDecision →
    gstep g (mkGov (g_sprints g) (g_decisions g)
               (<[rid := advance run StateQueued now]> (g_runs g))).

(** ** The invariant *)

(** What the status of a sprint says about its run and its decisions. *)
Inductive status_ok (ds : gmap DecisionID Decision) (sid : SprintID) (sp : Sprint)
    (st : string) : Prop :=
| st_proposed :
    s_Status sp = SprintProposed → s_PendingDecisionID sp = None → st = StateDraft →
    (∀ did d, ds !! did = Some d → d_SprintID d ≠ sid) → status_ok ds sid sp st
| st_awaiting did :
    s_Status sp = SprintAwaitingApproval → s_PendingDecisionID sp = Some did →
    st = StateAwaitingApproval → is_Some (ds !! did) → status_ok ds sid sp st
| st_approved did d :
    s_Status sp = SprintApproved → s_PendingDecisionID sp = None → working st →
    ds !! did = Some d → d_SprintID d = sid → d_Status d = DecisionApproved →
    status_ok ds sid sp st
| st_rejected did d :
    s_Status sp = SprintRejected → s_PendingDecisionID sp = None → stopping st →
    ds !! did = Some d → d_SprintID d = sid → d_Status d = DecisionRejected →
    status_ok ds sid sp st
| st_cancelling :
    s_Status sp = SprintCancelling → s_PendingDecisionID sp = None → stopping st →
    status_ok ds sid sp st.

Definition sprint_ok (g : Gov) (sid : SprintID) (sp : Sprint) : Prop :=
  s_SprintID sp = sid ∧ sid ≠ "" ∧
  ∃ run, g_runs g !! s_RunID sp = Some run ∧ r_RunID run = s_RunID sp ∧
         status_ok (g_decisions g) sid sp (r_State run).

Definition decision_ok (g : Gov) (did : DecisionID) (d : Decision) : Prop :=
  d_DecisionID d = did ∧
  ∃ sp, g_sprints g !! d_SprintID d = Some sp ∧ s_RunID sp = d_RunID d ∧
    ((d_Status d = DecisionPending ∧ d_DecidedBy d = None ∧
      s_Status sp = SprintAwaitingApproval ∧ s_PendingDecisionID sp = Some did) ∨
     ((d_Status d = DecisionApproved ∨ d_Status d = DecisionRejected) ∧
      is_Some (d_DecidedBy d) ∧
      s_Status sp ≠ SprintProposed ∧ s_Status sp ≠ SprintAwaitingApproval)).

Record gov_ok (g : Gov) : Prop := {
  go_sprints : ∀ sid sp, g_sprints g !! sid = Some sp → sprint_ok g sid sp;
  go_decisions : ∀ did d, g_decisions g !! did = Some d → decision_ok g did d;
  go_runs : ∀ a b sa sb, g_sprints g !! a = Some sa → g_sprints g !! b = Some sb →
              s_RunID sa = s_RunID sb → a = b;
  go_single : ∀ a b da db, g_decisions g !! a = Some da → g_decisions g !! b = Some db →
                d_SprintID da = d_SprintID db → a = b;
}.

(** ** Lemmas on run states *)

Lemma working_step st t :
  working st → CanTransition st t = true → t ≠ StateCancelling → working t.
Proof.
  intros (p & -> & Hp) Hct Ht. destruct (CanTransition_phases _ _ Hct) as (_ & q & _ & <-).
  apply CanTransition_lifecycle in Hct. exists q. split; [done|].
  set_unfold in Hp. destruct Hct; unfold executing in *; set_unfold; naive_solver.
Qed.

Lemma stopping_step st t : stopping st → CanTransition st t = true → stopping t.
Proof.
  intros Hst Hct. destruct (CanTransition_phases _ _ Hct) as (p & q & Hp & <-).
  destruct Hst as [Hst|Hst]; rewrite Hst in *; destruct q; try discriminate Hct; by right.
Qed.

Lemma draft_not_working : ¬ working StateDraft.
Proof. intros (p & Hp & Hin). destruct p; try discriminate Hp. set_solver. Qed.

Lemma awaiting_not_working : ¬ working StateAwaitingApproval.
Proof. intros (p & Hp & Hin). destruct p; try discriminate Hp. set_solver. Qed.

Lemma stopping_not_working st : stopping st → ¬ working st.
Proof.
  intros [->| ->] (p & Hp & Hin); destruct p; try discriminate Hp; set_solver.
Qed.

Lemma queued_working : working StateQueued.
Proof. exists Queued. split; [done|set_solver]. Qed.

#[export] Hint Resolve draft_not_working awaiting_not_working stopping_not_working
  queued_working : core.

(** Writing a decision of another sprint does not disturb a sprint. *)
Lemma status_ok_insert ds did d sid sp st :
  d_SprintID d ≠ sid → (∀ d0, ds !! did = Some d0 → d_SprintID d0 ≠ sid) →
  status_ok ds sid sp st → status_ok (<[did := d]> ds) sid sp st.
Proof.
  intros Hd Hold. destruct 1 as [? ? ? Hno|did0 ? ? ? Hsome|did0 d0 ? ? ? Hd0|did0 d0 ? ? ? Hd0|].
  - apply st_proposed; [done..|]. intros did' d'. rewrite lookup_insert.
    case_decide; naive_solver.
  - eapply st_awaiting; [done..|]. by apply lookup_insert_is_Some'; right.
  - eapply (st_approved _ _ _ _ did0 d0); try done.
    rewrite lookup_insert_ne; [done|]. intros ->. naive_solver.
  - eapply (st_rejected _ _ _ _ did0 d0); try done.
    rewrite lookup_insert_ne; [done|]. intros ->. naive_solver.
  - by apply st_cancelling.
Qed.

(** ** Every step keeps the invariant *)

Section preservation.
Context (g : Gov) (Hok : gov_ok g).

Lemma plan_ok sid sp run :
  sid ≠ "" → g_sprints g !! sid = None → g_runs g !! s_RunID sp = None →
  s_SprintID sp = sid → s_Status sp = SprintProposed → s_PendingDecisionID sp = None →
  r_RunID run = s_RunID sp → r_State run = StateDraft →
  gov_ok (mkGov (<[sid := sp]> (g_sprints g)) (g_decisions g)
            (<[s_RunID sp := run]> (g_runs g))).
Proof.
  intros Hsid Hnew Hrun Hid Hst Hpd Hrid Hrs.
  assert (∀ did d, g_decisions g !! did = Some d → d_SprintID d ≠ sid) as Hnod.
  { intros did d Hd Heq. destruct (go_decisions _ Hok _ _ Hd) as (_ & ? & ? & _). congruence. }
  assert (∀ sid' sp', g_sprints g !! sid' = Some sp' → s_RunID sp' ≠ s_RunID sp) as Hnor.
  { intros sid' sp' Hs Heq. destruct (go_sprints _ Hok _ _ Hs) as (_ & _ & ? & ? & _). congruence. }
  split; cbn.
  - intros sid' sp'. rewrite lookup_insert. case_decide as Heq; [intros [= <-]; subst sid'|intros Hs].
    + split_and!; [done..|]. exists run. cbn. rewrite lookup_insert_eq. split_and!; [done..|].
      by apply st_proposed.
    + destruct (go_sprints _ Hok _ _ Hs) as (? & ? & run' & Hr & ? & ?).
      split_and!; [done..|]. exists run'. cbn.
      rewrite lookup_insert_ne by (symmetry; eauto). done.
  - intros did d Hd. destruct (go_decisions _ Hok _ _ Hd) as (? & sp' & Hs & ? & ?).
    split; [done|]. exists sp'. cbn. rewrite lookup_insert_ne; [done|congruence].
  - intros a b sa sb. rewrite !lookup_insert.
    do 2 case_decide; intros ?? Hr; simplify_eq; try done.
    + by destruct (Hnor b sb).
    + by destruct (Hnor a sa).
    + by eapply (go_runs _ Hok).
  - apply (go_single _ Hok).
Qed.

Lemma submit_ok sid sp sp' did d run now :
  g_sprints g !! sid = Some sp → s_Status sp = SprintProposed →
  g_decisions g !! did = None → g_runs g !! s_RunID sp = Some run →
  restatus sp sp' SprintAwaitingApproval (Some did) →
  d_DecisionID d = did → d_SprintID d = s_SprintID sp → d_RunID d = s_RunID sp →
  d_Status d = DecisionPending → d_DecidedBy d = None →
  gov_ok (mkGov (<[sid := sp']> (g_sprints g)) (<[did := d]> (g_decisions g))
            (<[s_RunID sp := advance run StateAwaitingApproval now]> (g_runs g))).
Proof.
  intros Hs Hst Hnew Hrun (Hid' & Hrid' & _ & _ & _ & _ & Hst' & Hpd') Hdid Hdsp Hdrun Hds Hdb.
  destruct (go_sprints _ Hok _ _ Hs) as (Hid & Hne & run0 & Hr0 & Hrid & Hsok).
  simplify_eq.
  assert (∀ did0 d0, g_decisions g !! did0 = Some d0 → d_SprintID d0 ≠ s_SprintID sp) as Hnod.
  { destruct Hsok; done || literal_clash. }
  split; cbn.
  - intros sid' sp0. rewrite lookup_insert.
    case_decide as Heq; [intros [= <-]; subst sid'|intros Hs'].
    + split_and!; [done..|]. eexists. cbn. rewrite Hrid', lookup_insert_eq.
      split_and!; [done..|]. eapply st_awaiting; [done..|].
      cbn. by rewrite lookup_insert_eq.
    + destruct (go_sprints _ Hok _ _ Hs') as (? & ? & run' & Hr & ? & ?).
      split_and!; [done..|]. exists run'. cbn. rewrite lookup_insert_ne.
      * split_and!; [done..|]. apply status_ok_insert; [congruence|intros; congruence|done].
      * intros Heqr. apply Heq. eapply (go_runs _ Hok); [exact Hs|exact Hs'|done].
  - intros did0 d0. rewrite lookup_insert.
    case_decide as Heq; [intros [= <-]; subst did0|intros Hd0].
    + split; [done|]. exists sp'. cbn. rewrite Hdsp, lookup_insert_eq.
      split_and!; [done|congruence|left; by split_and!].
    + destruct (go_decisions _ Hok _ _ Hd0) as (? & sp0 & Hs0 & ? & ?).
      split; [done|]. exists sp0. cbn.
      rewrite lookup_insert_ne; [done|]. intros Heq0. by eapply Hnod.
  - intros a b sa sb. rewrite !lookup_insert.
    do 2 case_decide; intros ?? Hr; simplify_eq; try done.
    + eapply (go_runs _ Hok); [exact Hs|done|congruence].
    + eapply (go_runs _ Hok); [done|exact Hs|congruence].
    + by eapply (go_runs _ Hok).
  - intros a b da db. rewrite !lookup_insert.
    do 2 case_decide; intros ?? Hr; simplify_eq; try done.
    + exfalso. eapply Hnod; [done|congruence].
    + exfalso. eapply Hnod; [done|congruence].
    + by eapply (go_single _ Hok).
Qed.

Lemma decide_ok (approve : bool) actor did d d' sp sp' run now :
  g_decisions g !! did = Some d → d_Status d = DecisionPending →
  g_sprints g !! d_SprintID d = Some sp → g_runs g !! d_RunID d = Some run →
  decided d d' (if approve then DecisionApproved else DecisionRejected) actor →
  restatus sp sp' (if approve then SprintApproved else SprintRejected) None →
  gov_ok (mkGov (<[d_SprintID d := sp']> (g_sprints g)) (<[did := d']> (g_decisions g))
            (<[d_RunID d := advance run (if approve then StateQueued else StateCancelling) now]>
               (g_runs g))).
Proof.
  intros Hd Hds Hs Hrun (Hdid' & Hdsp' & Hdrun' & _ & _ & _ & Hdst' & Hdb' & _)
    (Hid' & Hrid' & _ & _ & _ & _ & Hst' & Hpd').
  destruct (go_decisions _ Hok _ _ Hd) as (Hdid & sp0 & Hs1 & Hsr & Hdok).
  assert (sp0 = sp) as -> by congruence. clear Hs1.
  destruct (go_sprints _ Hok _ _ Hs) as (Hid & Hne & run0 & Hr0 & Hrid & Hsok).
  split; cbn.
  - intros sid' sp1. rewrite lookup_insert.
    case_decide as Heq; [intros [= <-]; subst sid'|intros Hs'].
    + split_and!; [congruence|congruence|]. eexists. cbn.
      rewrite Hrid', Hsr, lookup_insert_eq. split_and!; [done|cbn; congruence|].
      destruct approve; cbn.
      * eapply (st_approved _ _ _ _ did d');
          [done|done|apply queued_working|apply lookup_insert_eq|congruence|done].
      * eapply (st_rejected _ _ _ _ did d');
          [done|done|by left|apply lookup_insert_eq|congruence|done].
    + destruct (go_sprints _ Hok _ _ Hs') as (? & ? & run' & Hr & ? & ?).
      split_and!; [done..|]. exists run'. cbn. rewrite lookup_insert_ne.
      * split_and!; [done..|]. apply status_ok_insert; [congruence|intros; congruence|done].
      * intros Heqr. apply Heq. eapply (go_runs _ Hok); [exact Hs|exact Hs'|congruence].
  - intros did0 d0. rewrite lookup_insert.
    case_decide as Heq; [intros [= <-]; subst did0|intros Hd0].
    + split; [congruence|]. exists sp'. cbn. rewrite Hdsp', lookup_insert_eq.
      split_and!; [done|congruence|]. right. rewrite Hdst', Hdb', Hst'.
      destruct approve; split_and!; eauto; discriminate.
    + destruct (go_decisions _ Hok _ _ Hd0) as (? & sp1 & Hs1 & ? & ?).
      split; [done|]. exists sp1. cbn. rewrite lookup_insert_ne; [done|].
      intros Heq0. apply Heq. eapply (go_single _ Hok); [exact Hd|exact Hd0|done].
  - intros a b sa sb. rewrite !lookup_insert.
    do 2 case_decide; intros ?? Hr; simplify_eq; try done.
    + eapply (go_runs _ Hok); [exact Hs|done|congruence].
    + eapply (go_runs _ Hok); [done|exact Hs|congruence].
    + by eapply (go_runs _ Hok).
  - intros a b da db. rewrite !lookup_insert.
    do 2 case_decide; intros ?? Hr; simplify_eq; try done.
    + eapply (go_single _ Hok); [exact Hd|done|congruence].
    + eapply (go_single _ Hok); [done|exact Hd|congruence].
    + by eapply (go_single _ Hok).
Qed.

Lemma create_ok rid run :
  g_runs g !! rid = None →
  gov_ok (mkGov (g_sprints g) (g_decisions g) (<[rid := run]> (g_runs g))).
Proof.
  intros Hnew. split; [|apply (go_decisions _ Hok)|apply (go_runs _ Hok)|apply (go_single _ Hok)].
  intros sid sp Hs. destruct (go_sprints _ Hok _ _ Hs) as (? & ? & run0 & ? & ? & ?).
  split_and!; [done..|]. exists run0. cbn. rewrite lookup_insert_ne; [done|congruence].
Qed.

(** A run update that keeps every linked sprint's status true, and at most
    re-labels that sprint, keeps the invariant. *)
Lemma move_ok rid run run' sprints' :
  g_runs g !! rid = Some run → r_RunID run' = r_RunID run →
  (∀ sid sp, g_sprints g !! sid = Some sp → s_RunID sp = rid →
     (sprints' = g_sprints g ∧ status_ok (g_decisions g) sid sp (r_State run')) ∨
     ∃ sp', sprints' = <[sid := sp']> (g_sprints g) ∧
            restatus sp sp' SprintCancelling None ∧
            s_Status sp ≠ SprintAwaitingApproval ∧ stopping (r_State run')) →
  ((∀ sid sp, g_sprints g !! sid = Some sp → s_RunID sp ≠ rid) → sprints' = g_sprints g) →
  gov_ok (mkGov sprints' (g_decisions g) (<[rid := run']> (g_runs g))).
Proof.
  intros Hrun Hrid' Hlink Hnolink.
  assert (∀ sid sp, g_sprints g !! sid = Some sp → s_RunID sp ≠ rid →
    sprint_ok (mkGov sprints' (g_decisions g) (<[rid := run']> (g_runs g))) sid sp) as Hother.
  { intros sid sp Hs Hne. destruct (go_sprints _ Hok _ _ Hs) as (? & ? & run0 & ? & ? & ?).
    split_and!; [done..|]. exists run0. cbn. by rewrite lookup_insert_ne. }
  destruct (decide (map_Exists (λ _ sp, s_RunID sp = rid) (g_sprints g)))
    as [(sid & sp & Hs & Hsr)|Hno]; cbn in *.
  - destruct (go_sprints _ Hok _ _ Hs) as (Hid & Hne & run0 & Hr0 & Hrid0 & Hsok).
    assert (run0 = run) as -> by congruence.
    assert (∀ sid' sp', g_sprints g !! sid' = Some sp' → sid' ≠ sid → s_RunID sp' ≠ rid) as Huniq.
    { intros sid' sp' Hs' Hn Hr. apply Hn. eapply (go_runs _ Hok); [exact Hs'|exact Hs|congruence]. }
    destruct (Hlink _ _ Hs Hsr)
      as [[-> Hst]|(sp' & -> & (Hid' & Hr' & _ & _ & _ & _ & Hst' & Hpd') & Hnaw & Hstop)].
    + split; [|apply (go_decisions _ Hok)|apply (go_runs _ Hok)|apply (go_single _ Hok)].
      intros sid' sp0 Hs0. cbn in Hs0. destruct (decide (sid' = sid)) as [->|Hn]; [|eauto].
      assert (sp0 = sp) as -> by congruence. split_and!; [congruence..|].
      exists run'. cbn. rewrite Hsr, lookup_insert_eq. split_and!; [done|congruence|done].
    + split; cbn.
      * intros sid' sp0. rewrite lookup_insert. case_decide as Heq.
        -- intros [= <-]. subst sid'. split_and!; [congruence|done|]. exists run'.
           cbn. rewrite Hr', Hsr, lookup_insert_eq. split_and!; [done|congruence|].
           by apply st_cancelling.
        -- intros Hs0. apply Hother; [done|]. eapply Huniq; [done|congruence].
      * intros did d Hd. destruct (go_decisions _ Hok _ _ Hd) as (? & sp0 & Hs0 & Hsr0 & Hdok).
        split; [done|]. cbn. destruct (decide (sid = d_SprintID d)) as [Heq|];
          [|exists sp0; by rewrite lookup_insert_ne].
        exists sp'. rewrite <-Heq, lookup_insert_eq in *.
        assert (sp0 = sp) as -> by congruence. split_and!; [done|congruence|].
        destruct Hdok as [(_ & _ & Haw & _)|(? & ? & _)]; [done|].
        right. rewrite Hst'. split_and!; [done..|discriminate|discriminate].
      * intros a b sa sb. rewrite !lookup_insert.
        do 2 case_decide; intros ?? Hr; simplify_eq; try done.
        -- eapply (go_runs _ Hok); [exact Hs|done|congruence].
        -- eapply (go_runs _ Hok); [done|exact Hs|congruence].
        -- by eapply (go_runs _ Hok).
      * apply (go_single _ Hok).
  - assert (∀ sid sp, g_sprints g !! sid = Some sp → s_RunID sp ≠ rid) as Hno'.
    { intros sid sp Hs Hr. apply Hno. by exists sid, sp. }
    rewrite (Hnolink Hno') in *.
    split; [eauto|apply (go_decisions _ Hok)|apply (go_runs _ Hok)|apply (go_single _ Hok)].
Qed.
End preservation.

Lemma gstep_ok g g' : gov_ok g → gstep g g' → gov_ok g'.
Proof.
  intros Hok [ |rid run|sid sp run|sid sp sp' did d run now|approve actor did d d' sp sp' run now
             |rid run target sprints' now Hrun Hct Hpriv Hlink Hno|rid run now Hrun Hst].
  - done.
  - by apply create_ok.
  - by apply plan_ok.
  - by eapply submit_ok.
  - by eapply decide_ok.
  - eapply move_ok; [done..| |done]. intros sid sp Hs Hsr.
    destruct (Hlink _ _ Hs Hsr) as (Hnaw & Hpd & Hprop & Hif).
    destruct (go_sprints _ Hok _ _ Hs) as (_ & _ & run0 & Hr0 & _ & Hsok).
    assert (run0 = run) as -> by congruence. cbn [r_State advance].
    destruct (decide (target = StateCancelling)) as [->|Hnc].
    + rewrite bool_decide_eq_true_2 in Hif by done. cbn in Hif.
      destruct Hsok as [Hst| ? Hst|did d Hst ? ? Hd ? ?|did d Hst ? ? Hd ? ?|Hst ? ?];
        rewrite Hst in Hif; cbn in Hif; try done.
      * destruct Hif as (sp' & ? & ->). right. exists sp'. split_and!; [done..|by left].
      * destruct Hif as (sp' & ? & ->). right. exists sp'. split_and!; [done..|by left].
      * left. split; [done|]. eapply (st_rejected _ _ _ _ did d); try done. by left.
      * left. split; [done|]. apply st_cancelling; try done. by left.
    + rewrite bool_decide_eq_false_2 in Hif by done. cbn in Hif. left. split; [done|].
      destruct Hsok as [Hst| ? Hst|did d Hst ? ? Hd ? ?|did d Hst ? ? Hd ? ?|Hst ? ?].
      * by destruct Hnc; apply Hprop.
      * done.
      * eapply (st_approved _ _ _ _ did d); try done. by eapply working_step.
      * eapply (st_rejected _ _ _ _ did d); try done. by eapply stopping_step.
      * apply st_cancelling; try done. by eapply stopping_step.
  - eapply move_ok; [done..| |done]. intros sid sp Hs Hsr. left. split; [done|].
    destruct (go_sprints _ Hok _ _ Hs) as (_ & _ & run0 & Hr0 & _ & Hsok).
    assert (run0 = run) as -> by congruence. cbn [r_State advance].
    assert (working (r_State run)) as Hw.
    { destruct Hst as [->| ->]; [exists FailedRetryable|exists AwaitingDecision];
        (split; [done|set_solver]). }
    destruct Hsok as [? ? Hr|? ? ? Hr|did d ? ? ? Hd ? ?|did d ? ? Hr|? ? Hr].
    + rewrite Hr in Hw. by apply draft_not_working in Hw.
    + rewrite Hr in Hw. by apply awaiting_not_working in Hw.
    + by eapply (st_approved _ _ _ _ did d).
    + by apply stopping_not_working in Hr.
    + by apply stopping_not_working in Hr.
Qed.

(** In a consistent state, a run that works belongs to an approved sprint. *)
Lemma approved_sprint g sid sp run :
  gov_ok g → g_sprints g !! sid = Some sp → g_runs g !! s_RunID sp = Some run →
  working (r_State run) →
  ∃ did d actor, g_decisions g !! did = Some d ∧ d_SprintID d = sid ∧
    d_Status d = DecisionApproved ∧ d_DecidedBy d = Some actor.
Proof.
  intros Hok Hsp Hrun Hw.
  destruct (go_sprints _ Hok _ _ Hsp) as (_ & _ & run0 & Hr0 & _ & Hst).
  assert (run0 = run) as -> by congruence.
  destruct Hst as [? ? Hr|? ? ? Hr|did d ? ? _ Hd Hds Hda|? ? ? ? Hr|? ? Hr].
  - rewrite Hr in Hw. by apply draft_not_working in Hw.
  - rewrite Hr in Hw. by apply awaiting_not_working in Hw.
  - destruct (go_decisions _ Hok _ _ Hd) as (_ & sp0 & _ & _ & Hdok).
    destruct Hdok as [(Hp & _)|(_ & [actor Hactor] & _)]; [literal_clash|].
    by exists did, d, actor.
  - by apply stopping_not_working in Hr.
  - by apply stopping_not_working in Hr.
Qed.

(** A decided decision never changes. *)
Lemma gstep_decided g g' did d :
  gstep g g' → g_decisions g !! did = Some d → d_Status d ≠ DecisionPending →
  g_decisions g' !! did = Some d.
Proof.
  intros Hg Hd Hnp.
  destruct Hg as [| | |? ? ? did' d' ? ? _ _ Hnew|? ? did' d0 ? ? ? ? ? Hd0 Hp| |]; cbn; try done.
  - rewrite lookup_insert_ne; [done|]. intros ->. congruence.
  - rewrite lookup_insert_ne; [done|]. intros ->. congruence.
Qed.
