(* ===== verification/ControlRefinement.v ===== *)
(** * The in-memory repository implements the governance contract

    Every command of [ControlMemory] is at most one step of the abstract
    machine of [Governance], whether it succeeds, fails or is a replay; hence
    the governance invariant holds in every reachable repository. The file also
    proves that commands are applied exactly once, that every outcome is
    audited as specified, and that the order in which Go ranges over the
    sprint map does not matter. *)

From S2P Require Import Prelude GoLib Fault Contracts Identity RunState.
From S2P Require Import ControlMemory Governance.

Section refinement.
Context `{Clock, Sha256, Json}.
Context `{!JsonCodec PlanResult, !JsonCodec SubmissionResult, !JsonCodec DecisionResult,
          !JsonCodec Run}.
Implicit Types s : MemoryRepository.

(** ** The command frame *)

Lemma appendSuccessAudit_run md scope replay s :
  ∃ n, appendSuccessAuditLocked md scope replay s =
    (Ok tt, mkRepo _ (m_sprints s) (m_decisions s) (m_runs s) (m_receipts s)
      (if bool_decide (AuditToolName md = "") then m_audits s
       else m_audits s ++
         [mkAudit (AuditToolName md) "succeeded" (ActorType md) (ActorID md)
            (CorrelationID md) (CausationID md) (IdempotencyKey md) scope "" replay
            (UTC (clock_reading (m_ticks s)))])
      (m_nextSequence s) n).
Proof.
  unfold appendSuccessAuditLocked. case_bool_decide.
  - exists (m_ticks s). by destruct s.
  - by eexists.
Qed.

Lemma governed_gov {A} `{!JsonCodec A} md scope hash (body : M error MemoryRepository A) s r s' :
  governed md scope hash body s = (r, s') →
  gov s' = gov s ∨ ∃ rb s1, body s = (rb, s1) ∧ gov s' = gov s1.
Proof.
  unfold governed. rewrite M_bind_run. cbn. rewrite M_bind_run. unfold lift.
  destruct (memoryReplay s _ _ _) as [[a|]|e]; [| |by intros [= <- <-]; left].
  - rewrite M_bind_run. destruct (appendSuccessAudit_run md scope true s) as [n ->].
    intros [= <- <-]. by left.
  - rewrite M_bind_run. destruct (body s) as [[a|e] s1] eqn:Hbody;
      [|intros [= <- <-]; right; eauto].
    rewrite M_bind_run. unfold memorySave. destruct (Marshal a) as [j|];
      [|intros [= <- <-]; right; eauto].
    cbn. rewrite M_bind_run.
    match goal with |- context [appendSuccessAuditLocked md scope false ?x] =>
      destruct (appendSuccessAudit_run md scope false x) as [n ->] end.
    intros [= <- <-]. right. by exists (Ok a), s1.
Qed.

Lemma clocked_run {A} (m : M error nat A) s :
  clocked m s = ((m (m_ticks s)).1,
    mkRepo _ (m_sprints s) (m_decisions s) (m_runs s) (m_receipts s) (m_audits s)
      (m_nextSequence s) (m (m_ticks s)).2).
Proof. unfold clocked. by destruct (m (m_ticks s)). Qed.

(** A transition of a looked-up run: the zero run has no known state, so only
    a stored run can be advanced. *)
Lemma clocked_Transition_ok (o : option Run) target s run' s' :
  clocked (Transition (default zeroRun o) target) s = (Ok run', s') →
  ∃ run now, o = Some run ∧ CanTransition (r_State run) target = true ∧
    run' = advance run target now ∧
    s' = mkRepo _ (m_sprints s) (m_decisions s) (m_runs s) (m_receipts s) (m_audits s)
           (m_nextSequence s) (m_ticks s').
Proof.
  rewrite clocked_run, Transition_run.
  destruct (ParseState _) as [st|] eqn:Hst; [|done]. apply ParseState_ok in Hst as [-> [p Hp]].
  destruct o as [run|]; [|by destruct p]. cbn.
  destruct (CanTransition _ _) eqn:?; [|done]. intros [= <- <-]. eauto 10.
Qed.

Lemma clocked_err {A} (m : M error nat A) s e s' :
  clocked m s = (Err e, s') → gov s' = gov s.
Proof. rewrite clocked_run. by intros [= _ <-]. Qed.

(** ** The command bodies *)

Lemma planBody_gstep command s r s' :
  pc_SprintID command ≠ "" → planBody command s = (r, s') → gstep (gov s) (gov s').
Proof.
  intros Hne. unfold planBody. rewrite M_bind_run. cbn.
  destruct (m_sprints s !! _) eqn:?; [intros [= <- <-]; constructor|].
  destruct (m_runs s !! _) eqn:?; [intros [= <- <-]; constructor|].
  intros [= <- <-]. unfold gov. cbn.
  by eapply (g_plan (gov s) _ (mkSprint _ _ _ _ _ _ _ _ _ _ _) (mkRun _ _ _ _ _ _ _)).
Qed.

Lemma submitBody_gstep command md s r s' :
  m_decisions s !! sc_DecisionID command = None →
  submitBody command md s = (r, s') → gstep (gov s) (gov s').
Proof.
  intros Hfresh. unfold submitBody. rewrite M_bind_run. cbn.
  destruct (m_sprints s !! _) as [sp|] eqn:Hsp; [|intros [= <- <-]; constructor].
  destruct (negb _ || negb _) eqn:Hguard; [intros [= <- <-]; constructor|]. bool_prop.
  destruct Hguard as [_ Hst]. rewrite M_bind_run.
  unfold ParseRunID. destruct (negb _); cbn; [intros [= <- <-]; constructor|].
  rewrite M_bind_run.
  destruct (clocked (Transition _ _) s) as [[run'|e] s1] eqn:Htr;
    [|intros [= <- <-]; rewrite (clocked_err _ _ _ _ Htr); constructor].
  apply clocked_Transition_ok in Htr as (run & now & Hrun & Hct & -> & ->).
  intros [= <- <-]. unfold gov. cbn.
  eapply (g_submit (gov s) _ sp (mkSprint _ _ _ _ _ _ _ _ _ _ _) _
    (mkDecision _ _ _ _ _ _ _ _ _ _ _ _ _ _)); done.
Qed.

Lemma resolveBody_gstep command md s r s' :
  gov_ok (gov s) → resolveBody command md s = (r, s') → gstep (gov s) (gov s').
Proof.
  intros Hok. unfold resolveBody. rewrite M_bind_run. cbn.
  destruct (m_decisions s !! _) as [d|] eqn:Hd; [|intros [= <- <-]; constructor].
  destruct (negb _ || negb _) eqn:Hguard; [intros [= <- <-]; constructor|]. bool_prop.
  destruct Hguard as [_ Hst]. rewrite M_bind_run.
  unfold ParseSprintID. destruct (negb _); cbn; [intros [= <- <-]; constructor|].
  rewrite M_bind_run. unfold ParseRunID. destruct (negb _); cbn; [intros [= <- <-]; constructor|].
  rewrite M_bind_run.
  destruct (clocked (Transition _ _) s) as [[run'|e] s1] eqn:Htr;
    [|intros [= <- <-]; rewrite (clocked_err _ _ _ _ Htr); constructor].
  apply clocked_Transition_ok in Htr as (run & now & Hrun & Hct & -> & ->).
  destruct (go_decisions _ Hok _ _ Hd) as (_ & sp & Hsp & _). cbn in Hsp. rewrite Hsp.
  intros [= <- <-]. unfold gov. cbn.
  eapply (g_decide (gov s) (dc_Approve command) (ActorID md) _ d
    (mkDecision _ _ _ _ _ _ _ _ _ _ _ _ _ _) sp (mkSprint _ _ _ _ _ _ _ _ _ _ _));
    done.
Qed.

Lemma resumeBody_gstep id v s r s' :
  resumeBody id v s = (r, s') → gstep (gov s) (gov s').
Proof.
  unfold resumeBody. rewrite M_bind_run. cbn.
  destruct (m_runs s !! id) as [run|] eqn:Hrun; [|intros [= <- <-]; constructor].
  destruct (negb _); [intros [= <- <-]; constructor|]. rewrite M_bind_run. unfold lift.
  destruct (resumeTarget run) as [target|] eqn:Ht; [|intros [= <- <-]; constructor].
  assert (target = StateQueued ∧
    (r_State run = StateFailedRetryable ∨ r_State run = StateAwaitingDecision)) as [-> Hst].
  { unfold resumeTarget in Ht. repeat case_bool_decide; naive_solver. }
  rewrite M_bind_run.
  destruct (clocked (Transition _ _) s) as [[run'|e] s1] eqn:Htr;
    [|intros [= <- <-]; rewrite (clocked_err _ _ _ _ Htr); constructor].
  apply (clocked_Transition_ok (Some run)) in Htr as (? & now & [= <-] & Hct & -> & ->).
  intros [= <- <-]. unfold gov. cbn. by apply (g_resume (gov s)).
Qed.

(** ** The scan over the sprints *)

Lemma scanLinked_none id target l :
  (∀ x, x ∈ l → s_RunID x.2 ≠ id) → scanLinked id target l = Ok None.
Proof.
  induction l as [|[sid sp] l IH]; intros Hno; [done|]. cbn.
  rewrite bool_decide_eq_false_2 by (apply (Hno (sid, sp)); set_solver). cbn.
  apply IH. set_solver.
Qed.

Lemma scanLinked_one id target l x :
  x ∈ l → s_RunID x.2 = id → (∀ y, y ∈ l → s_RunID y.2 = id → y = x) →
  scanLinked id target l = scanLinked id target [x].
Proof.
  destruct x as [sid sp]. cbn. intros Hin Hr Huniq.
  rewrite (bool_decide_eq_true_2 (s_RunID sp = id)) by done.
  induction l as [|[sid0 sp0] l IH]; [set_solver|]. cbn.
  destruct (decide (s_RunID sp0 = id)) as [Hr0|Hr0].
  - rewrite (bool_decide_eq_true_2 _ Hr0). cbn.
    assert ((sid0, sp0) = (sid, sp)) as [= -> ->] by (apply Huniq; [set_solver|done]). done.
  - rewrite (bool_decide_eq_false_2 _ Hr0). cbn. apply IH; [|set_solver].
    set_unfold in Hin. destruct Hin as [[= -> ->]|?]; [done|done].
Qed.

(** A run belongs to at most one sprint. *)
Lemma linked_unique s id sid sp :
  gov_ok (gov s) → m_sprints s !! sid = Some sp → s_RunID sp = id →
  ∀ sid' sp', m_sprints s !! sid' = Some sp' → s_RunID sp' = id → sid' = sid ∧ sp' = sp.
Proof.
  intros Hok Hsp Hsr sid' sp' Hs' Hr'.
  assert (sid' = sid) as -> by (eapply (go_runs _ Hok); [exact Hs'|exact Hsp|congruence]).
  split; [done|congruence].
Qed.

(** What the scan lets through when the run has a sprint. *)
Lemma scanLinked_passes s id target sid sp linked :
  gov_ok (gov s) → m_sprints s !! sid = Some sp → s_RunID sp = id →
  scanLinked id target (map_to_list (m_sprints s)) = Ok linked →
  s_Status sp ≠ SprintAwaitingApproval ∧ s_PendingDecisionID sp = None ∧
  (s_Status sp = SprintProposed → target = StateCancelling) ∧
  linked = if bool_decide (target = StateCancelling) then Some (sid, sp) else None.
Proof.
  intros Hok Hsp Hsr Hscan.
  rewrite (scanLinked_one _ _ _ (sid, sp)) in Hscan; [|by apply elem_of_map_to_list|done|].
  2: { intros [sid' sp'] Hin Hr'. apply elem_of_map_to_list in Hin.
       by destruct (linked_unique s id sid sp Hok Hsp Hsr _ _ Hin Hr') as [-> ->]. }
  cbn in Hscan. rewrite (bool_decide_eq_true_2 _ Hsr) in Hscan. cbn in Hscan.
  destruct (bool_decide (s_Status sp = SprintAwaitingApproval) || _) eqn:Haw; [done|].
  destruct (bool_decide (s_Status sp = SprintProposed) && _) eqn:Hprop; [done|].
  bool_prop. destruct Haw as [Haw Hpd]. split_and!; [done|by apply eq_None_not_Some| |].
  - intros Hp. destruct Hprop as [Hp'|Hp']; bool_prop; done.
  - case_bool_decide; by injection Hscan as <-.
Qed.

Lemma transitionBody_gstep id v target s r s' :
  gov_ok (gov s) → transitionBody id v target s = (r, s') → gstep (gov s) (gov s').
Proof.
  intros Hok. unfold transitionBody. rewrite M_bind_run. cbn.
  destruct (m_runs s !! id) as [run|] eqn:Hrun; [|intros [= <- <-]; constructor].
  destruct (negb _); [intros [= <- <-]; constructor|].
  destruct (isPrivilegedResumeTransition _ _) eqn:Hpriv; [intros [= <- <-]; constructor|].
  rewrite M_bind_run. unfold lift.
  destruct (scanLinked _ _ _) as [linked|] eqn:Hscan; [|intros [= <- <-]; constructor].
  rewrite M_bind_run.
  destruct (clocked (Transition _ _) s) as [[run'|e] s1] eqn:Htr;
    [|intros [= <- <-]; rewrite (clocked_err _ _ _ _ Htr); constructor].
  apply (clocked_Transition_ok (Some run)) in Htr as (? & now & [= <-] & Hct & -> & ->).
  destruct (decide (map_Exists (λ _ sp, s_RunID sp = id) (m_sprints s)))
    as [(sid & sp & Hsp & Hsr)|Hno].
  - destruct (go_sprints _ Hok _ _ Hsp) as (_ & Hne & _).
    destruct (scanLinked_passes s id target sid sp linked Hok Hsp Hsr Hscan)
      as (Haw & Hpd & Hpt & ->).
    assert (∀ sprints',
      (if bool_decide (target = StateCancelling) &&
          (bool_decide (s_Status sp = SprintProposed) || bool_decide (s_Status sp = SprintApproved))
       then ∃ sp', restatus sp sp' SprintCancelling None ∧
                   sprints' = <[sid := sp']> (m_sprints s)
       else sprints' = m_sprints s) →
      gstep (gov s) (mkGov sprints' (m_decisions s)
        (<[id := advance run target now]> (m_runs s)))) as Hstep.
    { intros sprints' Hif. eapply (g_transition (gov s)); [done..| |].
      - intros sid' sp' Hs' Hr'.
        by destruct (linked_unique s id sid sp Hok Hsp Hsr _ _ Hs' Hr') as [-> ->].
      - intros Hnone. by destruct (Hnone _ _ Hsp). }
    destruct (decide (target = StateCancelling)) as [Ht|Ht].
    + rewrite (bool_decide_eq_true_2 _ Ht) in Hstep |- *. cbn in Hstep.
      rewrite bool_decide_eq_false_2 by done. cbn.
      destruct (_ || _); intros [= <- <-]; apply Hstep; [|done].
      eexists. split; [|done]. by split_and!.
    + rewrite (bool_decide_eq_false_2 _ Ht) in Hstep |- *.
      intros [= <- <-]. by apply Hstep.
  - assert (∀ sid sp, m_sprints s !! sid = Some sp → s_RunID sp ≠ id) as Hno'.
    { intros sid sp Hs Hr. apply Hno. by exists sid, sp. }
    rewrite scanLinked_none in Hscan
      by (intros [sid sp] Hin%elem_of_map_to_list; by eapply Hno').
    injection Hscan as <-. intros [= <- <-].
    eapply (g_transition (gov s)); [done..| |done].
    intros sid sp Hs Hr. by destruct (Hno' _ _ Hs).
Qed.
End refinement.

(** ** Clients of the repository *)

Inductive command :=
| CmdPlan (c : PlanCommand) (md : CommandMetadata)
| CmdSubmit (c : SubmitCommand) (md : CommandMetadata)
| CmdResolve (c : DecideCommand) (md : CommandMetadata)
| CmdTransition (id : RunID) (v : Z) (target : State) (md : CommandMetadata)
| CmdResume (id : RunID) (v : Z) (md : CommandMetadata)
| CmdAudit (record : AuditRecord).

Inductive reply :=
| ReplyPlan (r : PlanResult)
| ReplySubmission (r : SubmissionResult)
| ReplyDecision (r : DecisionResult)
| ReplyRun (r : Run)
| ReplyDone.

Definition command_metadata (c : command) : option CommandMetadata :=
  match c with
  | CmdPlan _ md | CmdSubmit _ md | CmdResolve _ md | CmdTransition _ _ _ md
  | CmdResume _ _ md => Some md
  | CmdAudit _ => None
  end.

Section clients.
Context `{Clock, Sha256, Json}.
Context `{!JsonCodec PlanResult, !JsonCodec SubmissionResult, !JsonCodec DecisionResult,
          !JsonCodec Run}.
Implicit Types s : MemoryRepository.

Definition issue (c : command) : M error MemoryRepository reply :=
  match c with
  | CmdPlan c md => r ← PlanSprint c md; mret (ReplyPlan r)
  | CmdSubmit c md => r ← SubmitSprint c md; mret (ReplySubmission r)
  | CmdResolve c md => r ← ResolveDecision c md; mret (ReplyDecision r)
  | CmdTransition id v target md => r ← TransitionRun id v target md; mret (ReplyRun r)
  | CmdResume id v md => r ← ResumeRun id v md; mret (ReplyRun r)
  | CmdAudit record => _ ← RecordToolAudit record; mret ReplyDone
  end.

(** The identifiers a command brings along are generated: a sprint ID is not
    empty, a decision ID is not in use. *)
Definition admissible (s : MemoryRepository) (c : command) : Prop :=
  match c with
  | CmdPlan c _ => pc_SprintID c ≠ ""
  | CmdSubmit c _ => m_decisions s !! sc_DecisionID c = None
  | _ => True
  end.

Definition cstep (s s' : MemoryRepository) : Prop :=
  ∃ c r, admissible s c ∧ issue c s = (r, s').

(** Dropping the response type does not change the state. *)
Lemma issue_state {A} (m : M error MemoryRepository A) (f : A → reply) s r s' :
  (x ← m; mret (f x)) s = (r, s') → ∃ r0, m s = (r0, s') ∧
    match r0 with Ok a => r = Ok (f a) | Err e => r = Err e end.
Proof.
  rewrite M_bind_run. destruct (m s) as [[a|e] s1]; intros [= <- <-];
    [by exists (Ok a)|by exists (Err e)].
Qed.

Lemma validated {A} (md : CommandMetadata) (m : M error MemoryRepository A) s r s' :
  (_ ← lift (ValidateCommandMetadata md); m) s = (r, s') →
  (∃ e, r = Err e ∧ s' = s) ∨ (ValidateCommandMetadata md = Ok tt ∧ m s = (r, s')).
Proof.
  rewrite M_bind_run. unfold lift. destruct (ValidateCommandMetadata md) as [[]|e]; [auto|].
  intros [= <- <-]. eauto.
Qed.

Lemma validated_ok {A} (md : CommandMetadata) (m : M error MemoryRepository A) s :
  ValidateCommandMetadata md = Ok tt → (_ ← lift (ValidateCommandMetadata md); m) s = m s.
Proof. intros Hv. rewrite M_bind_run. unfold lift. by rewrite Hv. Qed.

Lemma issue_gstep s c r s' :
  gov_ok (gov s) → admissible s c → issue c s = (r, s') → gstep (gov s) (gov s').
Proof.
  intros Hok Hadm. destruct c as [c md|c md|c md|id v t md|id v md|record]; cbn [issue];
    intros (r0 & Hrun & _)%issue_state.
  - apply validated in Hrun as [(e & _ & ->)|[_ Hrun]]; [constructor|].
    apply governed_gov in Hrun as [->|(rb & s1 & Hb & ->)]; [constructor|].
    by eapply planBody_gstep.
  - apply validated in Hrun as [(e & _ & ->)|[_ Hrun]]; [constructor|].
    apply governed_gov in Hrun as [->|(rb & s1 & Hb & ->)]; [constructor|].
    by eapply submitBody_gstep.
  - apply validated in Hrun as [(e & _ & ->)|[_ Hrun]]; [constructor|].
    apply governed_gov in Hrun as [->|(rb & s1 & Hb & ->)]; [constructor|].
    by eapply resolveBody_gstep.
  - apply validated in Hrun as [(e & _ & ->)|[_ Hrun]]; [constructor|].
    apply governed_gov in Hrun as [->|(rb & s1 & Hb & ->)]; [constructor|].
    by eapply transitionBody_gstep.
  - unfold ResumeRun in Hrun. rewrite M_bind_run in Hrun. unfold lift at 1, fail_if in Hrun.
    destruct (v <? 1)%Z; [injection Hrun as _ <-; constructor|].
    apply validated in Hrun as [(e & _ & ->)|[_ Hrun]]; [constructor|].
    apply governed_gov in Hrun as [->|(rb & s1 & Hb & ->)]; [constructor|].
    by eapply resumeBody_gstep.
  - revert Hrun. unfold RecordToolAudit. destruct (_ || _ || _); [intros [= _ <-]; constructor|].
    destruct (IsZero _); intros [= _ <-]; constructor.
Qed.

Lemma reachable_gov_ok s : rtc cstep NewMemoryRepository s → gov_ok (gov s).
Proof.
  apply (rtc_invariant cstep (λ s, gov_ok (gov s))).
  - intros a b Ha (c & r & Hadm & Hc). eapply gstep_ok; [done|by eapply issue_gstep].
  - split; cbn; intros *; rewrite ?lookup_empty; done.
Qed.

(** ** Receipts *)

(** The audit entry of a success. *)
Definition successAudit (md : CommandMetadata) (scope : string) (replay : bool) (t : Time)
    : list AuditRecord :=
  if bool_decide (AuditToolName md = "") then [] else
    [mkAudit (AuditToolName md) "succeeded" (ActorType md) (ActorID md) (CorrelationID md)
       (CausationID md) (IdempotencyKey md) scope "" replay t].

(** What a command frame does to receipts and audits. *)
Inductive framed {A} `{!JsonCodec A} (md : CommandMetadata) (scope hash : string) (s : MemoryRepository)
    : result A → MemoryRepository → Prop :=
| fr_error e s' :
    m_receipts s' = m_receipts s → m_audits s' = m_audits s →
    framed md scope hash s (Err e) s'
| fr_replay a j s' :
    m_receipts s !! memoryKey scope (IdempotencyKey md) = Some (mkMemoryReceipt _ hash j) →
    Decode j = Ok a → gov s' = gov s → m_receipts s' = m_receipts s →
    m_audits s' = m_audits s ++ successAudit md scope true (UTC (clock_reading (m_ticks s))) →
    framed md scope hash s (Ok a) s'
| fr_done a j t s' :
    m_receipts s !! memoryKey scope (IdempotencyKey md) = None →
    Marshal a = Ok j →
    m_receipts s' = <[memoryKey scope (IdempotencyKey md) := mkMemoryReceipt _ hash j]> (m_receipts s) →
    m_audits s' = m_audits s ++ successAudit md scope false t →
    framed md scope hash s (Ok a) s'.

(** A body that leaves receipts and audits alone. *)
Definition bookkeeping_free {A} (body : M error MemoryRepository A) : Prop :=
  ∀ s r s', body s = (r, s') → m_receipts s' = m_receipts s ∧ m_audits s' = m_audits s.

Lemma governed_framed {A} `{!JsonCodec A} md scope hash (body : M error MemoryRepository A) s r s' :
  bookkeeping_free body → governed md scope hash body s = (r, s') →
  framed md scope hash s r s'.
Proof.
  intros Hfree. unfold governed. rewrite M_bind_run. cbn. rewrite M_bind_run.
  unfold lift, memoryReplay.
  destruct (m_receipts s !! _) as [[h j]|] eqn:Hrc; cbn.
  - case_bool_decide; [|intros [= <- <-]; by constructor]. subst h.
    destruct (Decode j) as [a|] eqn:Hj; [|intros [= <- <-]; by constructor].
    rewrite M_bind_run. destruct (appendSuccessAudit_run md scope true s) as [n ->].
    intros [= <- <-]. eapply fr_replay; [done..|]. cbn. unfold successAudit. case_bool_decide; [|done].
    by rewrite app_nil_r.
  - rewrite M_bind_run. destruct (body s) as [[a|e] s1] eqn:Hbody;
      destruct (Hfree _ _ _ Hbody) as [Hr Ha]; [|intros [= <- <-]; by constructor].
    rewrite M_bind_run. unfold memorySave. destruct (Marshal a) as [j|] eqn:Hj;
      [|intros [= <- <-]; by constructor].
    cbn. rewrite M_bind_run.
    match goal with |- context [appendSuccessAuditLocked md scope false ?x] =>
      destruct (appendSuccessAudit_run md scope false x) as [n ->] end.
    intros [= <- <-]. eapply fr_done; [done|done|cbn; by rewrite Hr|].
    cbn. rewrite Ha. unfold successAudit. case_bool_decide; [|done]. by rewrite app_nil_r.
Qed.

Lemma bf_bind {A B} (m : M error MemoryRepository A) (k : A → M error MemoryRepository B) :
  bookkeeping_free m → (∀ a, bookkeeping_free (k a)) → bookkeeping_free (m ≫= k).
Proof.
  intros Hm Hk s r s'. rewrite M_bind_run. destruct (m s) as [[a|e] s1] eqn:Hms;
    destruct (Hm _ _ _ Hms) as [Hr Ha].
  - intros (Hr' & Ha')%Hk. split; congruence.
  - by intros [= <- <-].
Qed.
Lemma bf_get : bookkeeping_free get.
Proof. by intros s r s' [= <- <-]. Qed.
Lemma bf_lift {A} (x : result A) : bookkeeping_free (lift x).
Proof. by intros s r s' [= <- <-]. Qed.
Lemma bf_throw {A} e : bookkeeping_free (throw (A := A) e).
Proof. by intros s r s' [= <- <-]. Qed.
Lemma bf_ret {A} (a : A) : bookkeeping_free (mret a).
Proof. by intros s r s' [= <- <-]. Qed.
Lemma bf_clocked {A} (m : M error nat A) : bookkeeping_free (clocked m).
Proof. intros s r s'. rewrite clocked_run. by intros [= <- <-]. Qed.
Lemma bf_putSprint id sp : bookkeeping_free (putSprint id sp).
Proof. by intros s r s' [= <- <-]. Qed.
Lemma bf_putDecision id d : bookkeeping_free (putDecision id d).
Proof. by intros s r s' [= <- <-]. Qed.
Lemma bf_putRun id run : bookkeeping_free (putRun id run).
Proof. by intros s r s' [= <- <-]. Qed.
Lemma bf_bumpSequence : bookkeeping_free bumpSequence.
Proof. by intros s r s' [= <- <-]. Qed.

Hint Resolve bf_bind bf_get bf_lift bf_throw bf_ret bf_clocked bf_putSprint
  bf_putDecision bf_putRun bf_bumpSequence : forja_parts.

Ltac parts := repeat first
  [ progress (intros; cbn beta zeta)
  | apply bf_bind
  | solve [auto 1 with forja_parts]
  | case_match ].

Lemma planBody_bf c : bookkeeping_free (planBody c).
Proof. unfold planBody. parts. Qed.
Lemma submitBody_bf c md : bookkeeping_free (submitBody c md).
Proof. unfold submitBody, storedID. parts. Qed.
Lemma resolveBody_bf c md : bookkeeping_free (resolveBody c md).
Proof. unfold resolveBody, storedID. parts. Qed.
Lemma transitionBody_bf id v t : bookkeeping_free (transitionBody id v t).
Proof. unfold transitionBody. parts. Qed.
Lemma resumeBody_bf id v : bookkeeping_free (resumeBody id v).
Proof. unfold resumeBody. parts. Qed.

(** Bookkeeping of one command, whatever its response type. *)
Definition bookkept (md : CommandMetadata) (s : MemoryRepository) (ok : bool)
    (s' : MemoryRepository) : Prop :=
  if ok then
    ∃ scope replay t, m_audits s' = m_audits s ++ successAudit md scope replay t ∧
      if replay then m_receipts s' = m_receipts s ∧ gov s' = gov s
      else ∃ k rc, m_receipts s !! k = None ∧ m_receipts s' = <[k := rc]> (m_receipts s)
  else m_receipts s' = m_receipts s ∧ m_audits s' = m_audits s.

Lemma framed_bookkept {A} `{!JsonCodec A} md scope hash s (r : result A) s' :
  framed md scope hash s r s' → bookkept md s (is_ok r) s'.
Proof.
  destruct 1 as [|a j s' ? ? Hg Hr Ha|a j t s' ? ? Hr Ha]; cbn; [done|..].
  - exists scope, true. eexists. by rewrite Ha.
  - exists scope, false, t. rewrite Ha. split; [done|eauto].
Qed.

Lemma command_bookkept {A} `{!JsonCodec A} md scope hash
    (body : M error MemoryRepository A) (f : A → reply) s r s' :
  bookkeeping_free body →
  (x ← (_ ← lift (ValidateCommandMetadata md); governed md scope hash body); mret (f x)) s
    = (r, s') →
  bookkept md s (is_ok r) s'.
Proof.
  intros Hfree (r0 & Hrun & Hr)%issue_state.
  assert (bookkept md s (is_ok r0) s') as Hb.
  { apply validated in Hrun as [(e & -> & ->)|[_ Hrun]]; [done|].
    eapply framed_bookkept, governed_framed; done. }
  by destruct r0; subst r.
Qed.

Lemma issue_bookkept c md s r s' :
  command_metadata c = Some md → issue c s = (r, s') → bookkept md s (is_ok r) s'.
Proof.
  destruct c as [c md0|c md0|c md0|id v t md0|id v md0|record]; intros [= ->]; cbn [issue].
  - apply command_bookkept, planBody_bf.
  - apply command_bookkept, submitBody_bf.
  - apply command_bookkept, resolveBody_bf.
  - apply command_bookkept, transitionBody_bf.
  - intros (r0 & Hrun & Hr)%issue_state. unfold ResumeRun in Hrun.
    rewrite M_bind_run in Hrun. unfold lift at 1, fail_if in Hrun.
    destruct (v <? 1)%Z; [injection Hrun as <- <-; by subst r|].
    apply (command_bookkept md ("resume_run:" +:+ id)
      (controlHash md ["resume_run"; id; pretty v]) (resumeBody id v) ReplyRun);
      [apply resumeBody_bf|].
    rewrite M_bind_run, Hrun. by destruct r0; subst r.
Qed.

Lemma issue_audit_receipts record s r s' :
  issue (CmdAudit record) s = (r, s') → m_receipts s' = m_receipts s.
Proof.
  intros (r0 & Hrun & _)%issue_state. revert Hrun. unfold RecordToolAudit.
  destruct (_ || _ || _); [by intros [= _ <-]|].
  destruct (IsZero _); by intros [= _ <-].
Qed.

Lemma cstep_receipts s s' k rc :
  rtc cstep s s' → m_receipts s !! k = Some rc → m_receipts s' !! k = Some rc.
Proof.
  induction 1 as [|s s1 s' (c & r & _ & Hc) _ IH]; [done|]. intros Hk. apply IH.
  destruct (command_metadata c) as [md|] eqn:Hmd.
  - apply (issue_bookkept _ _ _ _ _ Hmd) in Hc. destruct (is_ok r); cbn in Hc.
    + destruct Hc as (scope & [|] & t & _ & Hc); [by destruct Hc as [-> _]|].
      destruct Hc as (k' & rc' & Hnone & ->). rewrite lookup_insert_ne; [done|congruence].
    + by destruct Hc as [-> _].
  - destruct c as [| | | | |record]; try done. by rewrite (issue_audit_receipts _ _ _ _ Hc).
Qed.

(** After a success, the frame answers the same request from its receipt. *)
Lemma governed_once {A} `{!JsonCodec A} md md' scope hash
    (body body' : M error MemoryRepository A) s a s1 s2 :
  bookkeeping_free body → bookkeeping_free body' →
  governed md scope hash body s = (Ok a, s1) → roundtrips a →
  rtc cstep s1 s2 → IdempotencyKey md' = IdempotencyKey md →
  ∃ s3 t, governed md' scope hash body' s2 = (Ok a, s3) ∧
    gov s3 = gov s2 ∧ m_receipts s3 = m_receipts s2 ∧
    m_audits s3 = m_audits s2 ++ successAudit md' scope true t.
Proof.
  intros Hf Hf' Hrun (j & Hj & Hd) Hs Hkey.
  assert (∃ j', m_receipts s1 !! memoryKey scope (IdempotencyKey md)
                = Some (mkMemoryReceipt _ hash j') ∧ Decode j' = Ok a) as (j' & Hrc & Hd').
  { apply governed_framed in Hrun; [|done].
    inversion Hrun as [|? j' ? Hrc ? ? Hsame|? j' ? ? Hnone Hm Hrc]; subst.
    - exists j'. by rewrite Hsame.
    - exists j'. rewrite Hrc, lookup_insert_eq. split; [done|congruence]. }
  apply (cstep_receipts _ _ _ _ Hs) in Hrc. rewrite <-Hkey in Hrc.
  destruct (governed md' scope hash body' s2) as [r s3] eqn:Hrun'.
  assert (r = Ok a) as ->.
  { revert Hrun'. unfold governed. rewrite M_bind_run. cbn. rewrite M_bind_run.
    unfold lift, memoryReplay. rewrite Hrc. cbn. rewrite bool_decide_eq_true_2 by done.
    rewrite Hd', M_bind_run.
    destruct (appendSuccessAudit_run md' scope true s2) as [n ->]. by intros [= <- <-]. }
  apply governed_framed in Hrun'; [|done].
  inversion Hrun' as [|? ? ? ? ? Hg Hr Ha|]; subst; [|congruence].
  eexists s3, _. by split_and!.
Qed.
End clients.

(** ** Properties *)

Section properties.
Context `{Clock, Sha256, Json}.
Context `{!JsonCodec PlanResult, !JsonCodec SubmissionResult, !JsonCodec DecisionResult,
          !JsonCodec Run}.
Implicit Types s : MemoryRepository.

(** The repository implements the governance machine: every command, on
    every branch (success, failure, replay, even a failing receipt), takes at
    most one abstract step. *)
Theorem issue_refines_gstep s c r s' :
  gov_ok (gov s) → admissible s c → issue c s = (r, s') → gstep (gov s) (gov s').
Proof. apply issue_gstep. Qed.

(** No work without approval: in every reachable repository, if the run of
    a sprint is queued, executing, judged, completed or failed, then a decision
    on that very sprint was approved, and it records who approved it. *)
Theorem work_requires_approval s sid sp run :
  rtc cstep NewMemoryRepository s →
  m_sprints s !! sid = Some sp → m_runs s !! s_RunID sp = Some run →
  working (r_State run) →
  ∃ did d actor, m_decisions s !! did = Some d ∧ d_SprintID d = sid ∧
    d_RunID d = s_RunID sp ∧ d_Status d = DecisionApproved ∧ d_DecidedBy d = Some actor ∧
    ∀ did' d', m_decisions s !! did' = Some d' → d_SprintID d' = sid → did' = did.
Proof.
  intros Hok%reachable_gov_ok Hsp Hrun Hw.
  destruct (approved_sprint _ _ _ _ Hok Hsp Hrun Hw) as (did & d & actor & Hd & Hds & Ha & Hby).
  destruct (go_decisions _ Hok _ _ Hd) as (_ & sp0 & Hsp0 & Hsr & _).
  cbn in Hd, Hsp0. rewrite Hds in Hsp0. assert (sp0 = sp) as -> by congruence.
  exists did, d, actor. split_and!; [done..|].
  intros did' d' Hd' Hds'. eapply (go_single _ Hok); [exact Hd'|exact Hd|congruence].
Qed.

(** A decision is final: once it is no longer pending, no command changes
    its record in any field. *)
Theorem decision_final s s' did d :
  rtc cstep NewMemoryRepository s → rtc cstep s s' →
  m_decisions s !! did = Some d → d_Status d ≠ DecisionPending →
  m_decisions s' !! did = Some d.
Proof.
  intros Hreach Hs Hd Hnp. revert Hd Hreach.
  induction Hs as [|s s1 s' Hst Hs IH]; [done|]. intros Hd Hreach.
  pose proof (reachable_gov_ok _ Hreach) as Hok.
  apply IH; [|by eapply rtc_r]. destruct Hst as (c & r & Hadm & Hc).
  apply issue_gstep in Hc; [|done..].
  by eapply (gstep_decided (gov s) (gov s1)).
Qed.

(** Planning is applied exactly once: repeating a plan under its key, with
    whatever fresh identifiers the repetition brings, answers with the first
    sprint and run, changes no aggregate, and appends one replay audit entry. *)
Theorem plan_exactly_once s c md a s1 s2 c' :
  PlanSprint c md s = (Ok a, s1) → roundtrips a → rtc cstep s1 s2 →
  pc_Title c' = pc_Title c → pc_Objective c' = pc_Objective c →
  ∃ s3 t, PlanSprint c' md s2 = (Ok a, s3) ∧ gov s3 = gov s2 ∧
    m_receipts s3 = m_receipts s2 ∧
    m_audits s3 = m_audits s2 ++ successAudit md "plan_sprint" true t.
Proof.
  intros [(e & [=] & _)|[Hv Hrun]]%validated Hrt Hs Ht Ho.
  unfold PlanSprint. rewrite validated_ok, Ht, Ho by done.
  eapply governed_once; [..|exact Hrun|exact Hrt|exact Hs|done]; apply planBody_bf.
Qed.

(** A decision is resolved exactly once: repeating the resolution under
    its key returns the recorded outcome and changes no aggregate. *)
Theorem resolve_exactly_once s c md a s1 s2 :
  ResolveDecision c md s = (Ok a, s1) → roundtrips a → rtc cstep s1 s2 →
  ∃ s3 t, ResolveDecision c md s2 = (Ok a, s3) ∧ gov s3 = gov s2 ∧
    m_receipts s3 = m_receipts s2 ∧
    m_audits s3 = m_audits s2 ++
      successAudit md ("resolve_decision:" +:+ dc_DecisionID c) true t.
Proof.
  intros [(e & [=] & _)|[Hv Hrun]]%validated Hrt Hs.
  unfold ResolveDecision. rewrite validated_ok by done.
  eapply governed_once; [..|exact Hrun|exact Hrt|exact Hs|done]; apply resolveBody_bf.
Qed.

(** The audit trail is exact: a successful governed command with an audit
    tool appends exactly one "succeeded" entry carrying the caller's identity,
    and a failed one appends nothing. *)
Theorem audit_trail_exact s c md r s' :
  command_metadata c = Some md → AuditToolName md ≠ "" → issue c s = (r, s') →
  match r with
  | Err _ => m_audits s' = m_audits s
  | Ok _ => ∃ entry, m_audits s' = m_audits s ++ [entry] ∧
      au_ToolName entry = AuditToolName md ∧ au_Outcome entry = "succeeded" ∧
      au_ActorType entry = ActorType md ∧ au_ActorID entry = ActorID md ∧
      au_CorrelationID entry = CorrelationID md ∧
      au_IdempotencyKey entry = IdempotencyKey md ∧
      (au_Replay entry = true → gov s' = gov s)
  end.
Proof.
  intros Hmd Htool Hc. apply (issue_bookkept _ _ _ _ _ Hmd) in Hc.
  destruct r; cbn in Hc; [|by destruct Hc].
  destruct Hc as (scope & replay & t & Ha & Hrest). unfold successAudit in Ha.
  rewrite bool_decide_eq_false_2 in Ha by done.
  eexists. split; [exact Ha|]. split_and!; try done. cbn. intros ->. by destruct Hrest.
Qed.

(** Go ranges over the sprint map in an unspecified order; in a reachable
    repository the scan of [TransitionRun] gives the same verdict in all of
    them. *)
Theorem scan_order_irrelevant s id target l :
  rtc cstep NewMemoryRepository s → l ≡ₚ map_to_list (m_sprints s) →
  scanLinked id target l = scanLinked id target (map_to_list (m_sprints s)).
Proof.
  intros Hok%reachable_gov_ok Hperm.
  destruct (decide (map_Exists (λ _ sp, s_RunID sp = id) (m_sprints s)))
    as [(sid & sp & Hsp & Hsr)|Hno].
  - assert (∀ y, y ∈ map_to_list (m_sprints s) → s_RunID y.2 = id → y = (sid, sp)) as Huniq.
    { intros [sid' sp'] Hin%elem_of_map_to_list Hr. cbn in Hr.
      assert (sid' = sid) as -> by (eapply (go_runs _ Hok); [exact Hin|exact Hsp|congruence]).
      f_equal. congruence. }
    trans (scanLinked id target [(sid, sp)]); [|symmetry]; apply scanLinked_one; try done.
    + rewrite Hperm. by apply elem_of_map_to_list.
    + intros y. rewrite Hperm. apply Huniq.
    + by apply elem_of_map_to_list.
  - assert (∀ x, x ∈ map_to_list (m_sprints s) → s_RunID x.2 ≠ id) as Hno'.
    { intros [sid sp] Hin%elem_of_map_to_list Hr. apply Hno. by exists sid, sp. }
    rewrite !scanLinked_none; try done. intros x. rewrite Hperm. apply Hno'.
Qed.
End properties.

(** ** A concrete session

    A clock that counts, an identity digest, and a client that plans a sprint,
    submits it and has it approved. *)

Module Walkthrough.
#[local] Instance demo_clock : Clock := λ n, mkTime (Z.of_nat n) 0.
#[local] Instance demo_sha : Sha256 := λ s, s.

Inductive document :=
| DocPlan (r : PlanResult)
| DocSubmission (r : SubmissionResult)
| DocDecision (r : DecisionResult)
| DocRun (r : Run).

Definition bad_document : error := fault CodeInternal "json" "wrong type".

#[local] Instance demo_json : Json := { json := document; json_strings l := Join l NUL }.
#[local] Instance plan_codec : JsonCodec PlanResult := {
  Marshal r := Ok (DocPlan r);
  Decode j := match j with DocPlan r => Ok r | _ => Err bad_document end }.
#[local] Instance submission_codec : JsonCodec SubmissionResult := {
  Marshal r := Ok (DocSubmission r);
  Decode j := match j with DocSubmission r => Ok r | _ => Err bad_document end }.
#[local] Instance decision_codec : JsonCodec DecisionResult := {
  Marshal r := Ok (DocDecision r);
  Decode j := match j with DocDecision r => Ok r | _ => Err bad_document end }.
#[local] Instance run_codec : JsonCodec Run := {
  Marshal r := Ok (DocRun r);
  Decode j := match j with DocRun r => Ok r | _ => Err bad_document end }.

Definition sid : SprintID := "sprint_00010203-0405-4607-8809-0a0b0c0d0e0f".
Definition rid : RunID := "run_00010203-0405-4607-8809-0a0b0c0d0e0f".
Definition did : DecisionID := "decision_00010203-0405-4607-8809-0a0b0c0d0e0f".
Definition md (key : string) : CommandMetadata :=
  mkMetadata key "human" "alice" "corr" None "forja.tool".

Definition plan : PlanCommand := mkPlanCommand sid rid "title" "objective".
Definition submit : SubmitCommand := mkSubmitCommand sid did 1 "high".
Definition approve : DecideCommand := mkDecideCommand did 1 true "looks right".

Definition r0 : MemoryRepository := NewMemoryRepository.
Definition r1 : MemoryRepository := snd (PlanSprint plan (md "key-0001") r0).
Definition r2 : MemoryRepository := snd (SubmitSprint submit (md "key-0002") r1).
Definition r3 : MemoryRepository := snd (ResolveDecision approve (md "key-0003") r2).

Definition now (n : Z) : Time := mkTime n 0.
Definition planned : PlanResult :=
  mkPlanResult (mkSprint sid "1.0" 1 "title" "objective" SprintProposed 1 rid None
                  (now 0) (now 0))
    (mkRun rid "1.0" "objective" StateDraft 1 (now 0) (now 0)).

Lemma did_plan : PlanSprint plan (md "key-0001") r0 = (Ok planned, r1).
Proof. vm_compute. reflexivity. Qed.

Lemma step1 : cstep r0 r1.
Proof.
  exists (CmdPlan plan (md "key-0001")), (Ok (ReplyPlan planned)).
  split; [discriminate|vm_compute; reflexivity].
Qed.
Lemma step2 : cstep r1 r2.
Proof.
  exists (CmdSubmit submit (md "key-0002")). eexists.
  split; vm_compute; reflexivity.
Qed.
Lemma step3 : cstep r2 r3.
Proof.
  exists (CmdResolve approve (md "key-0003")). eexists.
  split; [exact I|vm_compute; reflexivity].
Qed.

Lemma reach2 : rtc cstep r0 r2.
Proof. eapply rtc_l; [exact step1|]. by eapply rtc_once, step2. Qed.
Lemma reach3 : rtc cstep r0 r3.
Proof. eapply rtc_r; [exact reach2|exact step3]. Qed.

Lemma issue_refines_gstep_witness : gstep (gov r0) (gov r1).
Proof.
  apply (issue_refines_gstep r0 (CmdPlan plan (md "key-0001")) (Ok (ReplyPlan planned)));
    [apply reachable_gov_ok; constructor|discriminate|vm_compute; reflexivity].
Defined.

Lemma work_requires_approval_witness :
  ∃ did d actor, m_decisions r3 !! did = Some d ∧ d_SprintID d = sid ∧
    d_RunID d = rid ∧ d_Status d = DecisionApproved ∧ d_DecidedBy d = Some actor ∧
    ∀ did' d', m_decisions r3 !! did' = Some d' → d_SprintID d' = sid → did' = did.
Proof.
  eapply (work_requires_approval r3 sid (mkSprint sid "1.0" 1 "title" "objective"
    SprintApproved 3 rid None (now 0) (now 6))); [exact reach3|vm_compute; reflexivity..|].
  exact queued_working.
Defined.

Lemma decision_final_witness :
  m_decisions (snd (ResolveDecision (mkDecideCommand did 2 false "no") (md "key-0004") r3))
    !! did = m_decisions r3 !! did.
Proof.
  assert (∃ d, m_decisions r3 !! did = Some d ∧ d_Status d = DecisionApproved) as (d & Hd & Hst)
    by (eexists; split; vm_compute; reflexivity).
  rewrite Hd. apply (decision_final r3); [exact reach3| |exact Hd|by rewrite Hst].
  apply rtc_once. exists (CmdResolve (mkDecideCommand did 2 false "no") (md "key-0004")).
  eexists. split; [exact I|vm_compute; reflexivity].
Defined.

Lemma plan_exactly_once_witness :
  ∃ s3 t, PlanSprint (mkPlanCommand "sprint_ffffffff-0405-4607-8809-0a0b0c0d0e0f"
                        "run_ffffffff-0405-4607-8809-0a0b0c0d0e0f" "title" "objective")
            (md "key-0001") r2 = (Ok planned, s3) ∧ gov s3 = gov r2 ∧
    m_receipts s3 = m_receipts r2 ∧
    m_audits s3 = m_audits r2 ++ successAudit (md "key-0001") "plan_sprint" true t.
Proof.
  eapply (plan_exactly_once r0 plan (md "key-0001") planned r1 r2);
    [exact did_plan|by eexists|apply rtc_once, step2|reflexivity..].
Defined.

Lemma resolve_exactly_once_witness :
  ∃ a s3, ResolveDecision approve (md "key-0003") r3 = (Ok a, s3) ∧ gov s3 = gov r3.
Proof.
  assert (∃ a, ResolveDecision approve (md "key-0003") r2 = (Ok a, r3)) as [a Ha]
    by (eexists; vm_compute; reflexivity).
  destruct (resolve_exactly_once r2 approve (md "key-0003") a r3 r3 Ha)
    as (s3 & t & Hs3 & Hg & _).
  - exists (DocDecision a). split; reflexivity.
  - apply rtc_refl.
  - exists a, s3. exact (conj Hs3 Hg).
Defined.

Lemma audit_trail_exact_witness :
  ∃ entry, m_audits r1 = m_audits r0 ++ [entry] ∧
      au_ToolName entry = "forja.tool" ∧ au_Outcome entry = "succeeded" ∧
      au_ActorType entry = "human" ∧ au_ActorID entry = "alice" ∧
      au_CorrelationID entry = "corr" ∧ au_IdempotencyKey entry = "key-0001" ∧
      (au_Replay entry = true → gov r1 = gov r0).
Proof.
  apply (audit_trail_exact r0 (CmdPlan plan (md "key-0001")) (md "key-0001")
           (Ok (ReplyPlan planned)) r1); [reflexivity|discriminate|vm_compute; reflexivity].
Defined.

Lemma scan_order_irrelevant_witness :
  scanLinked rid StateCancelling (rev (map_to_list (m_sprints r3))) =
  scanLinked rid StateCancelling (map_to_list (m_sprints r3)).
Proof.
  apply scan_order_irrelevant; [exact reach3|]. symmetry. apply Permutation_rev.
Defined.
End Walkthrough.
