(* ===== verification/ControlService.v ===== *)
(** * Package [internal/control]: the governed application service

    [Service] authenticates nothing and stores nothing: it authorises a
    [Principal], validates and normalises the input, generates identifiers and
    forwards one command to its [Repository], which is an interface in the
    source and a type class here. Theorems about authorisation and attribution
    are proved against the interface; the end-to-end ones at the in-memory
    repository, through the governance contract of [ControlRefinement]. *)

From S2P Require Import Prelude GoLib Fault Contracts Identity RunState.
From S2P Require Import ControlMemory Governance ControlRefinement.

(** ** Permissions and principals *)

Abbreviation Permission := string (only parsing).

Definition PermissionPlan : Permission := "sprint:plan".
Definition PermissionRead : Permission := "control:read".
Definition PermissionSubmit : Permission := "sprint:submit".
Definition PermissionDecide : Permission := "decision:decide".
Definition PermissionCancel : Permission := "run:cancel".
Definition PermissionResume : Permission := "run:resume".
Definition PermissionLegacyRunWrite : Permission := "legacy_run:write".
Definition PermissionMemoryPromote : Permission := "memory:promote".

Definition auditToolPlanSprint := "forja.plan_sprint".
Definition auditToolSubmitSprint := "forja.submit_sprint".
Definition auditToolApproveDecision := "forja.approve_decision".
Definition auditToolRejectDecision := "forja.reject_decision".
Definition auditToolCancelRun := "forja.cancel_run".
Definition auditToolResumeRun := "forja.resume_run".

Definition AllPermissions : list Permission :=
  [PermissionPlan; PermissionRead; PermissionSubmit; PermissionDecide; PermissionCancel;
   PermissionResume; PermissionLegacyRunWrite].

Record Principal := mkPrincipal {
  p_ActorType : string;
  p_ActorID : string;
  p_TenantID : string;
  p_RepositoryID : string;
  p_Permissions : gset Permission;
}.

Definition validPermission (permission : Permission) : bool :=
  bool_decide (permission = PermissionMemoryPromote) ||
  bool_decide (permission ∈ AllPermissions).

(** The loop of [NewScopedPrincipal] over the requested permissions. *)
Fixpoint grant (principal : Principal) (permissions : list Permission) : result Principal :=
  match permissions with
  | [] => Ok principal
  | permission :: rest =>
      if negb (validPermission permission)
      then Err (New CodeInvalidArgument "control.NewPrincipal"
                  (Sprintf "unknown permission %q" [permission]))
      else if bool_decide (permission = PermissionMemoryPromote) &&
              (bool_decide (p_ActorType principal = "agent") ||
               bool_decide (p_ActorType principal = "worker"))
      then Err (fault CodePermissionDenied "control.NewPrincipal"
                  "agents and workers cannot hold memory promotion authority")
      else grant (mkPrincipal (p_ActorType principal) (p_ActorID principal)
                    (p_TenantID principal) (p_RepositoryID principal)
                    ({[permission]} ∪ p_Permissions principal)) rest
  end.

Definition NewScopedPrincipal (actorType actorID tenantID repositoryID : string)
    (permissions : list Permission) : result Principal :=
  let principal := mkPrincipal (TrimSpace actorType) (TrimSpace actorID)
    (TrimSpace tenantID) (TrimSpace repositoryID) ∅ in
  if negb (bool_decide (p_ActorType principal = "human")) &&
     negb (bool_decide (p_ActorType principal = "agent")) &&
     negb (bool_decide (p_ActorType principal = "worker")) &&
     negb (bool_decide (p_ActorType principal = "system"))
  then Err (fault CodeUnauthenticated "control.NewPrincipal"
              "actor type is not an authenticated Forja identity")
  else if runes_outside 1 160 (p_ActorID principal)
  then Err (fault CodeUnauthenticated "control.NewPrincipal"
              "actor ID length must be between 1 and 160 characters")
  else if bool_decide (p_TenantID principal = "") || bool_decide (p_RepositoryID principal = "")
  then Err (fault CodeUnauthenticated "control.NewScopedPrincipal"
              "tenant and repository authority are required")
  else grant principal permissions.

Definition NewPrincipal (actorType actorID : string) (permissions : list Permission)
    : result Principal :=
  NewScopedPrincipal actorType actorID LocalTenantID LocalRepositoryID permissions.

(** ** Inputs *)

Record CommandContext := mkContext {
  cc_IdempotencyKey : string;
  cc_CorrelationID : string;
  cc_CausationID : option string;
}.

Record PlanSprintInput := mkPlanInput {
  pi_Title : string; pi_Objective : string; pi_Command : CommandContext }.
Record SubmitSprintInput := mkSubmitInput {
  si_SprintID : string; si_ExpectedVersion : Z; si_RiskClass : string;
  si_Command : CommandContext }.
Record ResolveDecisionInput := mkResolveInput {
  ri_DecisionID : string; ri_ExpectedVersion : Z; ri_Reason : string;
  ri_Command : CommandContext }.
Record TransitionInput := mkTransitionInput {
  ti_RunID : string; ti_ExpectedVersion : Z; ti_Command : CommandContext }.

(** ** The persistence boundary *)

Class Repository (S : Type) := {
  repo_Authority : Authority;
  repo_PlanSprint : PlanCommand → CommandMetadata → M error S PlanResult;
  repo_GetSprint : SprintID → M error S Sprint;
  repo_SubmitSprint : SubmitCommand → CommandMetadata → M error S SubmissionResult;
  repo_ResolveDecision : DecideCommand → CommandMetadata → M error S DecisionResult;
  repo_GetRun : RunID → M error S Run;
  repo_TransitionRun : RunID → Z → State → CommandMetadata → M error S Run;
  repo_ResumeRun : RunID → Z → CommandMetadata → M error S Run;
  repo_RecordToolAudit : AuditRecord → M error S unit;
}.

#[export] Instance memory_repository `{Clock, Sha256, Json, !JsonCodec PlanResult,
    !JsonCodec SubmissionResult, !JsonCodec DecisionResult, !JsonCodec Run}
    : Repository MemoryRepository := {
  repo_Authority := RepositoryAuthority;
  repo_PlanSprint := PlanSprint;
  repo_GetSprint := GetSprint;
  repo_SubmitSprint := SubmitSprint;
  repo_ResolveDecision := ResolveDecision;
  repo_GetRun := GetRun;
  repo_TransitionRun := TransitionRun;
  repo_ResumeRun := ResumeRun;
  repo_RecordToolAudit := RecordToolAudit;
}.

(** The identifier generators of a service, over the state [G] they draw from. *)
Record Generators (G : Type) := mkGenerators {
  newSprintID : M error G SprintID;
  newDecisionID : M error G DecisionID;
  newRunID : M error G RunID;
}.
Arguments mkGenerators {G}.
Arguments newSprintID {G}.
Arguments newDecisionID {G}.
Arguments newRunID {G}.

(** [NewService] draws identifiers from the system's random bytes. *)
Definition NewService : Generators string :=
  mkGenerators NewSprintIDFrom NewDecisionIDFrom NewRunIDFrom.

Definition WithIDGenerators {G} (s : Generators G)
    (sprint : option (M error G SprintID)) (decision : option (M error G DecisionID))
    (run : option (M error G RunID)) : Generators G :=
  mkGenerators (default (newSprintID s) sprint) (default (newDecisionID s) decision)
    (default (newRunID s) run).

(** ** Validation *)

Definition validateTitle (value : string) : result unit :=
  fail_if (runes_outside 1 500 (TrimSpace value))
    (fault CodeInvalidArgument "control.validateTitle"
       "title length must be between 1 and 500 characters").

Definition validateObjective (value : string) : result unit :=
  fail_if (runes_outside 3 8000 (TrimSpace value))
    (fault CodeInvalidArgument "control.validateObjective"
       "objective length must be between 3 and 8000 characters").

Definition validateRiskClass (value : string) : result unit :=
  fail_if (negb (bool_decide (value ∈ ["low"; "medium"; "high"; "critical"])))
    (fault CodeInvalidArgument "control.validateRiskClass"
       "risk class must be low, medium, high, or critical").

Definition isMutatingAuditTool (tool : string) : bool :=
  bool_decide (tool ∈ [auditToolPlanSprint; auditToolSubmitSprint; auditToolApproveDecision;
    auditToolRejectDecision; auditToolCancelRun; auditToolResumeRun]).

Definition metadata (principal : Principal) (command : CommandContext)
    (auditToolName : list string) : result CommandMetadata :=
  let toolName := default "" (head auditToolName) in
  let value := mkMetadata (TrimSpace (cc_IdempotencyKey command)) (p_ActorType principal)
    (p_ActorID principal) (TrimSpace (cc_CorrelationID command)) (cc_CausationID command)
    toolName in
  _ ← ValidateCommandMetadata value;
  mret value.

(** ** The service *)

Section service.
Context {S G : Type} `{!Repository S} (svc : Generators G).

(** The repository and the generators' state. *)
Abbreviation Serve := (M error (S * G)).

Definition on_repository {A} (m : M error S A) : Serve A := λ st,
  let '(r, s) := m st.1 in (r, (s, st.2)).
Definition on_generator {A} (m : M error G A) : Serve A := λ st,
  let '(r, g) := m st.2 in (r, (st.1, g)).

(** [fault.Wrap] around a failing call. *)
Definition wrapping {A} (code : Code) (op m : string) (c : Serve A) : Serve A := λ st,
  match c st with
  | (Ok a, st') => (Ok a, st')
  | (Err e, st') => (Err (FaultError code op (Lit m) (Some e)), st')
  end.

Definition authorizeScope (principal : Principal) : result unit :=
  fail_if (negb (bool_decide (p_TenantID principal = a_TenantID repo_Authority)) ||
           negb (bool_decide (p_RepositoryID principal = a_RepositoryID repo_Authority)))
    (fault CodePermissionDenied "control.authorizeScope"
       "principal authority does not match the bound repository").

Definition authorize (principal : Principal) (permission : Permission) : result unit :=
  if bool_decide (p_ActorID principal = "") || bool_decide (p_ActorType principal = "")
  then Err (fault CodeUnauthenticated "control.authorize"
              "authenticated principal is required")
  else if negb (bool_decide (permission ∈ p_Permissions principal))
  then Err (New CodePermissionDenied "control.authorize"
              (Sprintf "permission %q is required" [permission]))
  else authorizeScope principal.

Definition positiveVersion (op : string) (v : Z) : result unit :=
  fail_if (v <? 1)%Z (fault CodeInvalidArgument op "expected version must be positive").

Definition Service_PlanSprint (principal : Principal) (input : PlanSprintInput)
    : Serve PlanResult :=
  _ ← lift (authorize principal PermissionPlan);
  _ ← lift (validateTitle (pi_Title input));
  _ ← lift (validateObjective (pi_Objective input));
  md ← lift (metadata principal (pi_Command input) [auditToolPlanSprint]);
  sprintID ← wrapping CodeInternal "control.PlanSprint" "generate sprint ID"
               (on_generator (newSprintID svc));
  runID ← wrapping CodeInternal "control.PlanSprint" "generate run ID"
            (on_generator (newRunID svc));
  on_repository (repo_PlanSprint
    (mkPlanCommand sprintID runID (TrimSpace (pi_Title input))
       (TrimSpace (pi_Objective input))) md).

Definition Service_GetSprint (principal : Principal) (sprintID : string)
    (command : CommandContext) : Serve Sprint :=
  _ ← lift (authorize principal PermissionRead);
  _ ← lift (metadata principal command []);
  id ← wrapping CodeInvalidArgument "control.GetSprint" "parse sprint ID"
         (lift (ParseSprintID sprintID));
  on_repository (repo_GetSprint id).

Definition Service_SubmitSprint (principal : Principal) (input : SubmitSprintInput)
    : Serve SubmissionResult :=
  _ ← lift (authorize principal PermissionSubmit);
  id ← wrapping CodeInvalidArgument "control.SubmitSprint" "parse sprint ID"
         (lift (ParseSprintID (si_SprintID input)));
  _ ← lift (positiveVersion "control.SubmitSprint" (si_ExpectedVersion input));
  _ ← lift (validateRiskClass (si_RiskClass input));
  md ← lift (metadata principal (si_Command input) [auditToolSubmitSprint]);
  decisionID ← wrapping CodeInternal "control.SubmitSprint" "generate decision ID"
                 (on_generator (newDecisionID svc));
  on_repository (repo_SubmitSprint
    (mkSubmitCommand id decisionID (si_ExpectedVersion input) (si_RiskClass input)) md).

Definition Service_ResolveDecision (principal : Principal) (input : ResolveDecisionInput)
    (approve : bool) : Serve DecisionResult :=
  _ ← lift (authorize principal PermissionDecide);
  id ← wrapping CodeInvalidArgument "control.ResolveDecision" "parse decision ID"
         (lift (ParseDecisionID (ri_DecisionID input)));
  _ ← lift (positiveVersion "control.ResolveDecision" (ri_ExpectedVersion input));
  let reason := TrimSpace (ri_Reason input) in
  _ ← lift (fail_if (runes_outside 3 2000 reason)
        (fault CodeInvalidArgument "control.ResolveDecision"
           "reason length must be between 3 and 2000 characters"));
  let auditTool := if approve then auditToolApproveDecision else auditToolRejectDecision in
  md ← lift (metadata principal (ri_Command input) [auditTool]);
  on_repository (repo_ResolveDecision
    (mkDecideCommand id (ri_ExpectedVersion input) approve reason) md).

Definition Service_GetRun (principal : Principal) (runID : string)
    (command : CommandContext) : Serve Run :=
  _ ← lift (authorize principal PermissionRead);
  _ ← lift (metadata principal command []);
  id ← wrapping CodeInvalidArgument "control.GetRun" "parse run ID" (lift (ParseRunID runID));
  on_repository (repo_GetRun id).

Definition transition (principal : Principal) (input : TransitionInput)
    (permission : Permission) (target : State) : Serve Run :=
  _ ← lift (authorize principal permission);
  id ← wrapping CodeInvalidArgument "control.transition" "parse run ID"
         (lift (ParseRunID (ti_RunID input)));
  _ ← lift (positiveVersion "control.transition" (ti_ExpectedVersion input));
  let auditTool := if bool_decide (target = StateCancelling) then auditToolCancelRun else "" in
  md ← lift (metadata principal (ti_Command input) [auditTool]);
  on_repository (repo_TransitionRun id (ti_ExpectedVersion input) target md).

Definition CancelRun (principal : Principal) (input : TransitionInput) : Serve Run :=
  transition principal input PermissionCancel StateCancelling.

Definition Service_ResumeRun (principal : Principal) (input : TransitionInput) : Serve Run :=
  _ ← lift (authorize principal PermissionResume);
  _ ← lift (positiveVersion "control.ResumeRun" (ti_ExpectedVersion input));
  id ← wrapping CodeInvalidArgument "control.ResumeRun" "parse run ID"
         (lift (ParseRunID (ti_RunID input)));
  md ← lift (metadata principal (ti_Command input) [auditToolResumeRun]);
  on_repository (repo_ResumeRun id (ti_ExpectedVersion input) md).

Definition Service_RecordToolAudit (principal : Principal) (record : AuditRecord)
    : Serve unit :=
  _ ← lift (fail_if (bool_decide (p_ActorID principal = ""))
        (fault CodeUnauthenticated "control.RecordToolAudit" "principal is required"));
  _ ← lift (if bool_decide (au_Outcome record = "denied")
            then fail_if (negb (bool_decide (au_ErrorCode record =
                                             Code_string CodePermissionDenied)))
                   (fault CodeInvalidArgument "control.RecordToolAudit"
                      "denied audits require the permission_denied error code")
            else authorizeScope principal);
  _ ← lift (fail_if (au_Replay record)
        (fault CodeInvalidArgument "control.RecordToolAudit"
           "replay audits are emitted only by the idempotent repository path"));
  _ ← lift (fail_if (bool_decide (au_Outcome record = "succeeded") &&
                     isMutatingAuditTool (au_ToolName record))
        (fault CodeInvalidArgument "control.RecordToolAudit"
           "mutating success audits must commit atomically with their domain command"));
  on_repository (repo_RecordToolAudit
    (mkAudit (au_ToolName record) (au_Outcome record) (p_ActorType principal)
       (p_ActorID principal) (au_CorrelationID record) (au_CausationID record)
       (au_IdempotencyKey record) (au_CommandScope record) (au_ErrorCode record)
       (au_Replay record) (au_OccurredAt record))).
End service.

(** ** Requests

    What a caller may ask, what it answers, and the calls the service makes on
    its repository. *)

Inductive request :=
| ReqPlan (input : PlanSprintInput)
| ReqGetSprint (id : string) (command : CommandContext)
| ReqSubmit (input : SubmitSprintInput)
| ReqResolve (input : ResolveDecisionInput) (approve : bool)
| ReqGetRun (id : string) (command : CommandContext)
| ReqCancel (input : TransitionInput)
| ReqResume (input : TransitionInput)
| ReqAudit (record : AuditRecord).

Inductive call :=
| CallCommand (c : command)
| CallGetSprint (id : SprintID)
| CallGetRun (id : RunID).

Inductive answer :=
| Reply (r : reply)
| ASprint (sprint : Sprint).

(** The permission a request needs; an audit entry needs none of them. *)
Definition required (q : request) : option Permission :=
  match q with
  | ReqPlan _ => Some PermissionPlan
  | ReqGetSprint _ _ | ReqGetRun _ _ => Some PermissionRead
  | ReqSubmit _ => Some PermissionSubmit
  | ReqResolve _ _ => Some PermissionDecide
  | ReqCancel _ => Some PermissionCancel
  | ReqResume _ => Some PermissionResume
  | ReqAudit _ => None
  end.

(** The permission behind a mutating audit tool. *)
Definition tool_permission (tool : string) : option Permission :=
  list_to_map (M := gmap string Permission)
    [(auditToolPlanSprint, PermissionPlan); (auditToolSubmitSprint, PermissionSubmit);
     (auditToolApproveDecision, PermissionDecide); (auditToolRejectDecision, PermissionDecide);
     (auditToolCancelRun, PermissionCancel); (auditToolResumeRun, PermissionResume)]
  !! tool.

Section boundary.
Context {S G : Type} `{!Repository S} (svc : Generators G).
Implicit Types (p : Principal) (s : S) (g : G) (st : S * G).

Definition answering {A} (f : A → answer) (m : M error (S * G) A) : M error (S * G) answer :=
  a ← m; mret (f a).

Definition serve p (q : request) : M error (S * G) answer :=
  match q with
  | ReqPlan input => answering (Reply ∘ ReplyPlan) (Service_PlanSprint svc p input)
  | ReqGetSprint id command => answering ASprint (Service_GetSprint p id command)
  | ReqSubmit input => answering (Reply ∘ ReplySubmission) (Service_SubmitSprint svc p input)
  | ReqResolve input approve =>
      answering (Reply ∘ ReplyDecision) (Service_ResolveDecision p input approve)
  | ReqGetRun id command => answering (Reply ∘ ReplyRun) (Service_GetRun p id command)
  | ReqCancel input => answering (Reply ∘ ReplyRun) (CancelRun p input)
  | ReqResume input => answering (Reply ∘ ReplyRun) (Service_ResumeRun p input)
  | ReqAudit record => answering (λ _, Reply ReplyDone) (Service_RecordToolAudit p record)
  end.

Definition recast {A} (f : A → answer) (m : M error S A) : M error S answer :=
  a ← m; mret (f a).

Definition perform (c : call) : M error S answer :=
  match c with
  | CallCommand (CmdPlan c md) => recast (Reply ∘ ReplyPlan) (repo_PlanSprint c md)
  | CallCommand (CmdSubmit c md) => recast (Reply ∘ ReplySubmission) (repo_SubmitSprint c md)
  | CallCommand (CmdResolve c md) => recast (Reply ∘ ReplyDecision) (repo_ResolveDecision c md)
  | CallCommand (CmdTransition id v t md) =>
      recast (Reply ∘ ReplyRun) (repo_TransitionRun id v t md)
  | CallCommand (CmdResume id v md) => recast (Reply ∘ ReplyRun) (repo_ResumeRun id v md)
  | CallCommand (CmdAudit record) => recast (λ _, Reply ReplyDone) (repo_RecordToolAudit record)
  | CallGetSprint id => recast ASprint (repo_GetSprint id)
  | CallGetRun id => recast (Reply ∘ ReplyRun) (repo_GetRun id)
  end.

(** [p] is authenticated, in the repository's scope, and holds [permission]. *)
Definition in_scope p : Prop :=
  p_TenantID p = a_TenantID repo_Authority ∧ p_RepositoryID p = a_RepositoryID repo_Authority.
Definition authorised p (permission : Permission) : Prop :=
  p_ActorID p ≠ "" ∧ p_ActorType p ≠ "" ∧ permission ∈ p_Permissions p ∧ in_scope p.

(** [md] is the metadata of a command of [p] in the context [ctx]. *)
Definition speaks_for p (ctx : CommandContext) (tool : string) (md : CommandMetadata) : Prop :=
  ValidateCommandMetadata md = Ok tt ∧
  ActorType md = p_ActorType p ∧ ActorID md = p_ActorID p ∧ AuditToolName md = tool ∧
  IdempotencyKey md = TrimSpace (cc_IdempotencyKey ctx) ∧
  CorrelationID md = TrimSpace (cc_CorrelationID ctx) ∧ CausationID md = cc_CausationID ctx.

(** The call that carries out a request, identifiers drawn from [g]. *)
Inductive carries p (g : G) : request → call → Prop :=
| carry_plan input sid g1 rid g2 md :
    newSprintID svc g = (Ok sid, g1) → newRunID svc g1 = (Ok rid, g2) →
    speaks_for p (pi_Command input) auditToolPlanSprint md →
    carries p g (ReqPlan input) (CallCommand (CmdPlan (mkPlanCommand sid rid
      (TrimSpace (pi_Title input)) (TrimSpace (pi_Objective input))) md))
| carry_get_sprint id ctx :
    ParseSprintID id = Ok id → carries p g (ReqGetSprint id ctx) (CallGetSprint id)
| carry_submit input did g1 md :
    newDecisionID svc g = (Ok did, g1) →
    ParseSprintID (si_SprintID input) = Ok (si_SprintID input) →
    (1 ≤ si_ExpectedVersion input)%Z →
    si_RiskClass input ∈ ["low"; "medium"; "high"; "critical"] →
    speaks_for p (si_Command input) auditToolSubmitSprint md →
    carries p g (ReqSubmit input) (CallCommand (CmdSubmit (mkSubmitCommand
      (si_SprintID input) did (si_ExpectedVersion input) (si_RiskClass input)) md))
| carry_resolve input (approve : bool) md :
    ParseDecisionID (ri_DecisionID input) = Ok (ri_DecisionID input) →
    (1 ≤ ri_ExpectedVersion input)%Z →
    speaks_for p (ri_Command input)
      (if approve then auditToolApproveDecision else auditToolRejectDecision) md →
    carries p g (ReqResolve input approve) (CallCommand (CmdResolve (mkDecideCommand
      (ri_DecisionID input) (ri_ExpectedVersion input) approve
      (TrimSpace (ri_Reason input))) md))
| carry_get_run id ctx :
    ParseRunID id = Ok id → carries p g (ReqGetRun id ctx) (CallGetRun id)
| carry_cancel input md :
    ParseRunID (ti_RunID input) = Ok (ti_RunID input) → (1 ≤ ti_ExpectedVersion input)%Z →
    speaks_for p (ti_Command input) auditToolCancelRun md →
    carries p g (ReqCancel input) (CallCommand (CmdTransition (ti_RunID input)
      (ti_ExpectedVersion input) StateCancelling md))
| carry_resume input md :
    ParseRunID (ti_RunID input) = Ok (ti_RunID input) → (1 ≤ ti_ExpectedVersion input)%Z →
    speaks_for p (ti_Command input) auditToolResumeRun md →
    carries p g (ReqResume input) (CallCommand (CmdResume (ti_RunID input)
      (ti_ExpectedVersion input) md))
| carry_audit record record' :
    au_ActorType record' = p_ActorType p → au_ActorID record' = p_ActorID p →
    au_ToolName record' = au_ToolName record → au_Outcome record' = au_Outcome record →
    au_Replay record' = false →
    (au_Outcome record' = "succeeded" → isMutatingAuditTool (au_ToolName record') = false) →
    carries p g (ReqAudit record) (CallCommand (CmdAudit record')).

(** *** Facts *)

Lemma authorizeScope_ok p u : authorizeScope p = Ok u ↔ in_scope p.
Proof.
  destruct u. unfold authorizeScope, in_scope. rewrite fail_if_ok. bool_prop. tauto.
Qed.

Lemma authorize_ok p permission u : authorize p permission = Ok u ↔ authorised p permission.
Proof.
  unfold authorize, authorised. repeat case_match; bool_prop.
  - split; [done|]. intros (? & ? & _). tauto.
  - split; [done|]. intros (_ & _ & ? & _). tauto.
  - rewrite authorizeScope_ok. tauto.
Qed.

Lemma authorize_err p permission e :
  authorize p permission = Err e →
  CodeOf e = CodePermissionDenied ∨ CodeOf e = CodeUnauthenticated.
Proof.
  unfold authorize, authorizeScope, fail_if. intros He. repeat case_match; simplify_eq; auto.
Qed.

Lemma metadata_ok p ctx tools md :
  metadata p ctx tools = Ok md → speaks_for p ctx (default "" (head tools)) md.
Proof.
  unfold metadata. rewrite res_bind_ok. intros ([] & Hv & [= <-]). by split.
Qed.

Lemma ParseRunID_id v id : ParseRunID v = Ok id → id = v ∧ ParseRunID v = Ok v.
Proof. unfold ParseRunID. case_match; [done|]. by intros [= ->]. Qed.
Lemma ParseSprintID_id v id : ParseSprintID v = Ok id → id = v ∧ ParseSprintID v = Ok v.
Proof. unfold ParseSprintID. case_match; [done|]. by intros [= ->]. Qed.
Lemma ParseDecisionID_id v id : ParseDecisionID v = Ok id → id = v ∧ ParseDecisionID v = Ok v.
Proof. unfold ParseDecisionID. case_match; [done|]. by intros [= ->]. Qed.

(** A guard either refuses and changes nothing, or passes. *)
Lemma lift_bind {A B} (x : result A) (k : A → M error (S * G) B) st r st' :
  (lift x ≫= k) st = (r, st') →
  (∃ e, x = Err e ∧ r = Err e ∧ st' = st) ∨ (∃ a, x = Ok a ∧ k a st = (r, st')).
Proof.
  rewrite M_bind_run. unfold lift. destruct x as [a|e]; [by right; exists a|].
  intros [= <- <-]. left. by exists e.
Qed.

Lemma wrapping_bind {A B} code op m (c : M error (S * G) A) (k : A → M error (S * G) B) st r st' :
  (wrapping code op m c ≫= k) st = (r, st') →
  (∃ e, c st = (Err e, st') ∧ is_ok r = false) ∨
  (∃ a st1, c st = (Ok a, st1) ∧ k a st1 = (r, st')).
Proof.
  rewrite M_bind_run. unfold wrapping. destruct (c st) as [[a|e] st1].
  - intros Hk. right. by exists a, st1.
  - intros [= <- <-]. left. by exists e.
Qed.

Definition relabel {A} (f : A → answer) (r : result A) : result answer :=
  match r with Ok a => Ok (f a) | Err e => Err e end.

Lemma answering_run {A} (f : A → answer) (m : M error (S * G) A) st r st' :
  answering f m st = (r, st') → ∃ r0, m st = (r0, st') ∧ r = relabel f r0.
Proof.
  unfold answering. rewrite M_bind_run. destruct (m st) as [[a|e] st1]; intros [= <- <-];
    [by exists (Ok a)|by exists (Err e)].
Qed.

Lemma performed {A} (f : A → answer) (m : M error S A) st r0 st' :
  on_repository m st = (r0, st') → recast f m st.1 = (relabel f r0, st'.1).
Proof.
  unfold on_repository, recast. rewrite M_bind_run.
  destruct (m st.1) as [[a|e] s1]; by intros [= <- <-].
Qed.

Lemma refused {A} (f : A → answer) r0 : is_ok r0 = false → is_ok (relabel f r0) = false.
Proof. by destruct r0. Qed.

Lemma on_generator_run {A} (m : M error G A) st r st' :
  on_generator m st = (r, st') → m st.2 = (r, st'.2) ∧ st'.1 = st.1.
Proof. unfold on_generator. destruct (m st.2) as [r1 g1]. by intros [= <- <-]. Qed.

(** What a request did: refused without touching the repository, or one call
    by an authorised principal. *)
Definition served p (q : request) st (r : result answer) st' : Prop :=
  (is_ok r = false ∧ st'.1 = st.1) ∨
  ((∀ permission, required q = Some permission → authorised p permission) ∧
   ∃ c, carries p st.2 q c ∧ perform c st.1 = (r, st'.1)).

Ltac passes Hrun x Hx :=
  apply lift_bind in Hrun as [(? & _ & -> & ->)|(x & Hx & Hrun)]; [by left|].
Ltac parse Hrun x Hx :=
  apply wrapping_bind in Hrun as [(? & [= _ <-] & ?)|(x & ? & [= Hx <-] & Hrun)];
  [by left; split; [apply refused|]|].
Ltac permitted Hauth :=
  right; split; [intros ? [= <-]; exact Hauth|].

Lemma plan_served p input st r st' :
  serve p (ReqPlan input) st = (r, st') → served p (ReqPlan input) st r st'.
Proof.
  intros (r0 & Hrun & ->)%answering_run. unfold Service_PlanSprint in Hrun.
  passes Hrun u1 Hauth. apply authorize_ok in Hauth. passes Hrun u2 Ht. passes Hrun u3 Ho.
  passes Hrun md Hmd. apply metadata_ok in Hmd.
  apply wrapping_bind in Hrun as [(e & [_ Hg]%on_generator_run & He)|(sid & st1 & Hg1 & Hrun)];
    [by left; split; [apply refused|]|].
  apply on_generator_run in Hg1 as [Hg1 Hs1].
  apply wrapping_bind in Hrun as [(e & [_ Hg]%on_generator_run & He)|(rid & st2 & Hg2 & Hrun)];
    [by left; split; [apply refused|congruence]|].
  apply on_generator_run in Hg2 as [Hg2 Hs2].
  permitted Hauth. eexists. split; [by eapply carry_plan|].
  cbn [perform]. rewrite <-Hs1, <-Hs2. by apply performed.
Qed.

Lemma submit_served p input st r st' :
  serve p (ReqSubmit input) st = (r, st') → served p (ReqSubmit input) st r st'.
Proof.
  intros (r0 & Hrun & ->)%answering_run. unfold Service_SubmitSprint in Hrun.
  passes Hrun u1 Hauth. apply authorize_ok in Hauth. parse Hrun parsed Hid.
  apply ParseSprintID_id in Hid as [-> Hid].
  passes Hrun u2 Hv. passes Hrun u3 Hr. passes Hrun md Hmd. apply metadata_ok in Hmd.
  apply wrapping_bind in Hrun as [(e & [_ Hg]%on_generator_run & He)|(did & st1 & Hg1 & Hrun)];
    [by left; split; [apply refused|]|].
  apply on_generator_run in Hg1 as [Hg1 Hs1]. destruct u2, u3.
  apply fail_if_ok in Hv, Hr. bool_prop.
  permitted Hauth. eexists. split; [by eapply carry_submit|].
  cbn [perform]. rewrite <-Hs1. by apply performed.
Qed.

Lemma resolve_served p input approve st r st' :
  serve p (ReqResolve input approve) st = (r, st') →
  served p (ReqResolve input approve) st r st'.
Proof.
  intros (r0 & Hrun & ->)%answering_run. unfold Service_ResolveDecision in Hrun.
  passes Hrun u1 Hauth. apply authorize_ok in Hauth. parse Hrun parsed Hid.
  apply ParseDecisionID_id in Hid as [-> Hid].
  passes Hrun u2 Hv. passes Hrun u3 Hr. passes Hrun md Hmd. apply metadata_ok in Hmd.
  destruct u2. apply fail_if_ok in Hv. bool_prop.
  permitted Hauth. eexists. split; [by eapply carry_resolve|].
  cbn [perform]. by apply performed.
Qed.

Lemma cancel_served p input st r st' :
  serve p (ReqCancel input) st = (r, st') → served p (ReqCancel input) st r st'.
Proof.
  intros (r0 & Hrun & ->)%answering_run. unfold CancelRun, transition in Hrun.
  passes Hrun u1 Hauth. apply authorize_ok in Hauth. parse Hrun parsed Hid.
  apply ParseRunID_id in Hid as [-> Hid].
  passes Hrun u2 Hv. passes Hrun md Hmd. apply metadata_ok in Hmd.
  destruct u2. apply fail_if_ok in Hv. bool_prop.
  permitted Hauth. eexists. split; [by eapply carry_cancel|].
  cbn [perform]. by apply performed.
Qed.

Lemma resume_served p input st r st' :
  serve p (ReqResume input) st = (r, st') → served p (ReqResume input) st r st'.
Proof.
  intros (r0 & Hrun & ->)%answering_run. unfold Service_ResumeRun in Hrun.
  passes Hrun u1 Hauth. apply authorize_ok in Hauth. passes Hrun u2 Hv. parse Hrun parsed Hid.
  apply ParseRunID_id in Hid as [-> Hid].
  passes Hrun md Hmd. apply metadata_ok in Hmd.
  destruct u2. apply fail_if_ok in Hv. bool_prop.
  permitted Hauth. eexists. split; [by eapply carry_resume|].
  cbn [perform]. by apply performed.
Qed.

Lemma read_served p q st r st' :
  required q = Some PermissionRead → serve p q st = (r, st') → served p q st r st'.
Proof.
  destruct q as [|id ctx| | |id ctx| | |]; try discriminate; intros _;
    intros (r0 & Hrun & ->)%answering_run;
    unfold Service_GetSprint, Service_GetRun in Hrun;
    passes Hrun u1 Hauth; apply authorize_ok in Hauth; passes Hrun md Hmd; parse Hrun parsed Hid.
  - apply ParseSprintID_id in Hid as [-> Hid]. permitted Hauth.
    eexists. split; [by apply carry_get_sprint|]. by apply performed.
  - apply ParseRunID_id in Hid as [-> Hid]. permitted Hauth.
    eexists. split; [by apply carry_get_run|]. by apply performed.
Qed.

Lemma audit_served p record st r st' :
  serve p (ReqAudit record) st = (r, st') → served p (ReqAudit record) st r st'.
Proof.
  intros (r0 & Hrun & ->)%answering_run. unfold Service_RecordToolAudit in Hrun.
  passes Hrun u1 H1. passes Hrun u2 H2. passes Hrun u3 H3. passes Hrun u4 H4.
  destruct u3, u4. apply fail_if_ok in H3, H4. right. split; [done|].
  eexists (CallCommand (CmdAudit _)). split; [|by eapply performed]. apply carry_audit; try done.
  cbn. intros Ho. rewrite (bool_decide_eq_true_2 _ Ho) in H4. exact H4.
Qed.

Lemma serve_served p q st r st' : serve p q st = (r, st') → served p q st r st'.
Proof.
  destruct q.
  - apply plan_served.
  - by apply read_served.
  - apply submit_served.
  - apply resolve_served.
  - by apply read_served.
  - apply cancel_served.
  - apply resume_served.
  - apply audit_served.
Qed.
End boundary.

(** ** Over the in-memory repository *)

Section memory.
Context `{Clock, Sha256, Json}.
Context `{!JsonCodec PlanResult, !JsonCodec SubmissionResult, !JsonCodec DecisionResult,
          !JsonCodec Run}.
Context {G : Type} (svc : Generators G).
Implicit Types (s : MemoryRepository) (p : Principal) (st : MemoryRepository * G).

(** [m] leaves every decided decision alone, except that it may decide in the
    name of [who]. *)
Definition decides_as (who : option string) {A} (m : M error MemoryRepository A) : Prop :=
  ∀ s r s' did d, m s = (r, s') → m_decisions s' !! did = Some d →
    m_decisions s !! did = Some d ∨ d_DecidedBy d = None ∨ d_DecidedBy d = who.

Lemma da_bind who {A B} (m : M error MemoryRepository A) (k : A → M error MemoryRepository B) :
  decides_as who m → (∀ a, decides_as who (k a)) → decides_as who (m ≫= k).
Proof.
  intros Hm Hk s r s' did d. rewrite M_bind_run. destruct (m s) as [[a|e] s1] eqn:Hms.
  - intros Hks Hd. destruct (Hk _ _ _ _ _ _ Hks Hd) as [Hd1|Hd1]; [|tauto].
    by apply (Hm _ _ _ _ _ Hms).
  - intros [= <- <-]. by apply (Hm _ _ _ _ _ Hms).
Qed.
Lemma da_same who {A} (m : M error MemoryRepository A) :
  (∀ s, m_decisions (m s).2 = m_decisions s) → decides_as who m.
Proof. intros Hm s r s' did d Hrun Hd. left. rewrite <-Hm, Hrun. done. Qed.
Lemma da_putDecision who id d :
  d_DecidedBy d = None ∨ d_DecidedBy d = who → decides_as who (putDecision id d).
Proof.
  intros Hd s r s' did d0 [= <- <-]. cbn. rewrite lookup_insert. case_decide; naive_solver.
Qed.

Ltac sameness := apply da_same; intros ?; rewrite ?clocked_run; by repeat case_match.
Ltac parts := repeat first
  [ progress (intros; cbn beta zeta)
  | apply da_bind
  | apply da_putDecision; by auto
  | solve [sameness]
  | case_match ].

Lemma planBody_da who c : decides_as who (planBody c).
Proof. unfold planBody. parts. Qed.
Lemma submitBody_da who c md : decides_as who (submitBody c md).
Proof. unfold submitBody, storedID. parts. Qed.
Lemma resolveBody_da c md : decides_as (Some (ActorID md)) (resolveBody c md).
Proof. unfold resolveBody, storedID. parts. Qed.
Lemma transitionBody_da who id v t : decides_as who (transitionBody id v t).
Proof. unfold transitionBody. parts. Qed.
Lemma resumeBody_da who id v : decides_as who (resumeBody id v).
Proof. unfold resumeBody. parts. Qed.

Lemma governed_da who {A} `{!JsonCodec A} md scope hash (body : M error MemoryRepository A) :
  decides_as who body → decides_as who (governed md scope hash body).
Proof.
  intros Hb s r s' did d [Hg|(rb & s1 & Hrun & Hg)]%governed_gov Hd.
  - left. apply (f_equal g_decisions) in Hg. cbn in Hg. by rewrite <-Hg.
  - apply (f_equal g_decisions) in Hg. cbn in Hg. rewrite Hg in Hd.
    by apply (Hb _ _ _ _ _ Hrun).
Qed.

(** The actor a command decides for. *)
Definition decider (c : command) : option string :=
  match c with CmdResolve _ md => Some (ActorID md) | _ => None end.

Lemma issue_da c : decides_as (decider c) (issue c).
Proof.
  destruct c; cbn [issue decider]; apply da_bind; try (intros; sameness).
  - apply da_bind; [sameness|intros; apply governed_da, planBody_da].
  - apply da_bind; [sameness|intros; apply governed_da, submitBody_da].
  - apply da_bind; [sameness|intros; apply governed_da, resolveBody_da].
  - apply da_bind; [sameness|intros; apply governed_da, transitionBody_da].
  - apply da_bind; [sameness|intros]. apply da_bind; [sameness|intros].
    apply governed_da, resumeBody_da.
  - unfold RecordToolAudit. parts.
Qed.

(** ** Reachable service states

    [P] are the principals that ever call. Generated sprint IDs are not
    empty and generated decision IDs are not in use. *)

Definition fresh st : Prop :=
  (∀ sid g, newSprintID svc st.2 = (Ok sid, g) → sid ≠ "") ∧
  (∀ did g, newDecisionID svc st.2 = (Ok did, g) → m_decisions st.1 !! did = None).

Definition sstep (P : Principal → Prop) st st' : Prop :=
  ∃ p q r, P p ∧ fresh st ∧ serve svc p q st = (r, st').

(** The commands behind the calls. *)
Lemma perform_command c s r s' :
  perform (CallCommand c) s = (r, s') → ∃ r0, issue c s = (r0, s') ∧ r = relabel Reply r0.
Proof.
  destruct c; cbn; unfold recast; rewrite !M_bind_run;
    repeat case_match; intros [= <- <-]; eexists; split; done.
Qed.

Lemma perform_read c s r s' :
  perform c s = (r, s') → (∀ c', c ≠ CallCommand c') → s' = s.
Proof.
  intros Hrun Hc. destruct c as [c|id|id]; [by destruct (Hc c)|..]; revert Hrun; cbn;
    unfold recast, GetSprint, GetRun; rewrite !M_bind_run; cbn;
    destruct (_ !! id); by intros [= _ <-].
Qed.

(** A step is a refusal or a read, or one command of an authorised caller. *)
Definition commanded (P : Principal → Prop) st st' : Prop :=
  ∃ p q c r, P p ∧ (∀ permission, required q = Some permission → authorised p permission) ∧
    carries svc p st.2 q (CallCommand c) ∧ admissible st.1 c ∧ issue c st.1 = (r, st'.1).

Lemma carries_admissible p q c st :
  fresh st → carries svc p st.2 q (CallCommand c) → admissible st.1 c.
Proof.
  intros [Hs Hd] Hc. inversion Hc; subst; cbn; try done; eauto.
Qed.

Lemma sstep_cases P st st' : sstep P st st' → st'.1 = st.1 ∨ commanded P st st'.
Proof.
  intros (p & q & r & Hp & Hf & Hrun). apply serve_served in Hrun.
  destruct Hrun as [[_ ?]|(Hauth & c & Hc & Hrun)]; [by left|].
  destruct c as [c|id|id].
  - right. apply perform_command in Hrun as (r0 & Hrun & _).
    exists p, q, c, r0. split_and!; try done. by eapply carries_admissible.
  - left. by apply perform_read in Hrun.
  - left. by apply perform_read in Hrun.
Qed.

Lemma sstep_reach P st st' : rtc (sstep P) st st' → rtc cstep st.1 st'.1.
Proof.
  induction 1 as [|st st1 st' Hst _ IH]; [constructor|].
  apply sstep_cases in Hst as [Heq|(p & q & c & r & _ & _ & _ & Hadm & Hc)].
  - by rewrite <-Heq.
  - eapply rtc_l; [|exact IH]. by exists c, r.
Qed.

(** An audit entry a command accounts for. *)
Definition entry_of (c : command) (entry : AuditRecord) : Prop :=
  match c with
  | CmdPlan _ md | CmdSubmit _ md | CmdResolve _ md | CmdTransition _ _ _ md
  | CmdResume _ _ md =>
      au_ToolName entry = AuditToolName md ∧
      au_ActorType entry = ActorType md ∧ au_ActorID entry = ActorID md
  | CmdAudit record =>
      au_ToolName entry = au_ToolName record ∧ au_Outcome entry = au_Outcome record ∧
      au_ActorType entry = au_ActorType record ∧ au_ActorID entry = au_ActorID record
  end.

Lemma issue_audits c s r s' :
  issue c s = (r, s') → ∃ new, m_audits s' = m_audits s ++ new ∧ Forall (entry_of c) new.
Proof.
  intros Hrun. destruct (command_metadata c) as [md|] eqn:Hmd.
  - apply (issue_bookkept _ _ _ _ _ Hmd) in Hrun. destruct (is_ok r); cbn in Hrun.
    + destruct Hrun as (scope & replay & t & -> & _). eexists. split; [done|].
      unfold successAudit. case_bool_decide; [constructor|]. constructor; [|constructor].
      destruct c; simplify_eq/=; done.
    + destruct Hrun as [_ ->]. exists []. by rewrite app_nil_r.
  - destruct c as [| | | | |record]; try done. revert Hrun. cbn. unfold RecordToolAudit.
    rewrite M_bind_run. destruct (_ || _ || _).
    + intros [= _ <-]. exists []. by rewrite app_nil_r.
    + destruct (IsZero _); intros [= _ <-]; eexists; (split; [done|]); repeat constructor.
Qed.

(** Its entry names the caller, who is authorised when a mutation succeeded. *)
Lemma carried_entry p g q c entry :
  (∀ permission, required q = Some permission → authorised p permission) →
  carries svc p g q (CallCommand c) → entry_of c entry →
  au_ActorType entry = p_ActorType p ∧ au_ActorID entry = p_ActorID p ∧
  (au_Outcome entry = "succeeded" → isMutatingAuditTool (au_ToolName entry) = true →
   ∃ permission, tool_permission (au_ToolName entry) = Some permission ∧
     authorised p permission).
Proof.
  intros Hauth Hc He. inversion Hc; subst; cbn in He;
    try (match goal with Hs : speaks_for _ _ _ _ |- _ =>
           destruct Hs as (_ & Hty & Hid & Htool & _) end;
         destruct He as (-> & -> & ->); rewrite Htool;
         split_and!; [done..|intros _ _; eexists; split; [|by apply Hauth]; by try destruct approve]).
  destruct He as (Ht & Ho & -> & ->). split_and!; [done..|].
  intros Hok Hmut. rewrite Ho in Hok. rewrite Ht in Hmut.
  match goal with Hn : _ → isMutatingAuditTool _ = false |- _ => rewrite (Hn Hok) in Hmut end.
  done.
Qed.
End memory.

(** ** Properties *)

Section properties.
Context `{Clock, Sha256, Json}.
Context `{!JsonCodec PlanResult, !JsonCodec SubmissionResult, !JsonCodec DecisionResult,
          !JsonCodec Run}.

Lemma grant_ok permissions : ∀ p p',
  grant p permissions = Ok p' ↔
  (∀ x, x ∈ permissions → validPermission x = true ∧
     ¬ (x = PermissionMemoryPromote ∧ (p_ActorType p = "agent" ∨ p_ActorType p = "worker"))) ∧
  p' = mkPrincipal (p_ActorType p) (p_ActorID p) (p_TenantID p) (p_RepositoryID p)
         (list_to_set permissions ∪ p_Permissions p).
Proof.
  induction permissions as [|x rest IH]; intros p p'; cbn [grant].
  - split.
    + intros [= ->]. split; [set_solver|]. destruct p'; cbn. f_equal. set_solver.
    + intros [_ ->]. destruct p; cbn. do 2 f_equal. set_solver.
  - destruct (validPermission x) eqn:Hv; cbn [negb].
    2: { split; [done|]. intros [Hx _]. destruct (Hx x); [set_solver|congruence]. }
    destruct (_ && _) eqn:Hp; bool_prop.
    { split; [done|]. intros [Hx _]. destruct (Hx x); [set_solver|tauto]. }
    rewrite IH. cbn. split; intros [Hx ->]; (split; [|f_equal; set_solver]).
    + intros y [->|Hy]%elem_of_cons; [|by apply Hx]. split; [done|]. tauto.
    + intros y Hy. apply Hx. set_solver.
Qed.

(** C40. A principal is created exactly for a known actor type, a bounded
    actor ID, a non-empty scope and known permissions, of which agents and
    workers cannot hold memory promotion; it then carries exactly the trimmed
    identity and the requested permissions. *)
Theorem NewScopedPrincipal_exact actorType actorID tenantID repositoryID permissions p :
  NewScopedPrincipal actorType actorID tenantID repositoryID permissions = Ok p ↔
  TrimSpace actorType ∈ ["human"; "agent"; "worker"; "system"] ∧
  (1 ≤ RuneCountInString (TrimSpace actorID) ≤ 160)%Z ∧
  TrimSpace tenantID ≠ "" ∧ TrimSpace repositoryID ≠ "" ∧
  (∀ x, x ∈ permissions → x = PermissionMemoryPromote ∨ x ∈ AllPermissions) ∧
  (PermissionMemoryPromote ∈ permissions →
   TrimSpace actorType = "human" ∨ TrimSpace actorType = "system") ∧
  p = mkPrincipal (TrimSpace actorType) (TrimSpace actorID) (TrimSpace tenantID)
        (TrimSpace repositoryID) (list_to_set permissions).
Proof.
  unfold NewScopedPrincipal, runes_outside. cbn [p_ActorType p_ActorID p_TenantID p_RepositoryID].
  rewrite !elem_of_cons, elem_of_nil.
  destruct (_ && _ && _ && _) eqn:Ht; bool_prop; [split; [done|tauto]|].
  destruct (_ || _) eqn:Hl; bool_prop; [split; [done|lia]|].
  destruct (bool_decide (TrimSpace tenantID = "") || _) eqn:Hs; bool_prop; [split; [done|tauto]|].
  rewrite grant_ok. cbn. rewrite union_empty_r_L. unfold validPermission.
  split.
  - intros [Hx ->]. split_and!; try tauto; try lia.
    + intros x Hin. destruct (Hx x Hin) as [Hv _]. bool_prop. tauto.
    + intros Hin. destruct (Hx _ Hin) as [_ Hno]. tauto.
  - intros (Htt & _ & _ & _ & Hx & Hm & ->). split; [|done]. intros x Hin.
    specialize (Hx x Hin). bool_prop. split; [tauto|]. intros [-> Ha].
    destruct (Hm Hin) as [Hh|Hh]; rewrite Hh in Ha; destruct Ha; discriminate.
Qed.

(** Whatever the repository behind the service, a request whose
    permission the principal does not hold in the repository's own scope is
    answered with a permission or authentication fault, and neither the
    repository nor the identifier generators are touched. *)
Theorem unauthorised_no_effect {S G} `{!Repository S} (svc : Generators G) p q permission st :
  required q = Some permission → ¬ authorised p permission →
  ∃ e, serve svc p q st = (Err e, st) ∧
    (CodeOf e = CodePermissionDenied ∨ CodeOf e = CodeUnauthenticated).
Proof.
  intros Hq Hno. destruct (authorize p permission) as [u|e] eqn:Ha;
    [by apply authorize_ok in Ha|].
  exists e. split; [|by eapply authorize_err].
  destruct q; cbn in Hq; simplify_eq Hq; intros <-; cbn [serve]; unfold answering, Service_PlanSprint,
    Service_GetSprint, Service_SubmitSprint, Service_ResolveDecision, Service_GetRun,
    CancelRun, transition, Service_ResumeRun;
    rewrite !M_bind_run; unfold lift; by rewrite Ha.
Qed.

(** Whatever the repository, a request is either refused without touching
    it or carried out by exactly one repository call, made for an authorised
    principal, whose metadata names that principal and the audit tool of the
    request, and whose text is trimmed and identifiers well formed. *)
Theorem service_attribution {S G} `{!Repository S} (svc : Generators G) p q st r st' :
  serve svc p q st = (r, st') →
  (is_ok r = false ∧ st'.1 = st.1) ∨
  ((∀ permission, required q = Some permission → authorised p permission) ∧
   ∃ c, carries svc p st.2 q c ∧ perform c st.1 = (r, st'.1)).
Proof. apply serve_served. Qed.

(** C1. End to end: if only principals of [P] call the service, then a run
    that is queued or beyond belongs to a sprint that some principal of [P],
    holding the decide permission in scope, approved under its own actor ID. *)
Theorem work_approved_by_authorised_principal {G} (svc : Generators G) P g st sid sp run :
  rtc (sstep svc P) (NewMemoryRepository, g) st →
  m_sprints st.1 !! sid = Some sp → m_runs st.1 !! s_RunID sp = Some run →
  working (r_State run) →
  ∃ did d p, m_decisions st.1 !! did = Some d ∧ d_SprintID d = sid ∧
    d_Status d = DecisionApproved ∧ P p ∧ authorised p PermissionDecide ∧
    d_DecidedBy d = Some (p_ActorID p).
Proof.
  intros Hreach Hsp Hrun Hw.
  assert (∀ did d actor, m_decisions st.1 !! did = Some d → d_DecidedBy d = Some actor →
    ∃ p, P p ∧ authorised p PermissionDecide ∧ actor = p_ActorID p) as Hdec.
  { clear Hsp Hrun Hw. revert Hreach.
    apply (rtc_invariant _ (λ st, ∀ did d actor, m_decisions st.1 !! did = Some d →
      d_DecidedBy d = Some actor →
      ∃ p, P p ∧ authorised p PermissionDecide ∧ actor = p_ActorID p)); [|done].
    intros st1 st2 IH [Heq|(p & q & c & r & Hp & Hauth & Hc & _ & Hrun)]%sstep_cases did d actor;
      [rewrite Heq; apply IH|].
    intros Hd Hby. destruct (issue_da _ _ _ _ _ _ Hrun Hd) as [Hd1|[Hn|Hn]];
      [by eapply IH|congruence|].
    rewrite Hn in Hby. inversion Hc; subst c q; try discriminate Hby.
    injection Hby as <-. exists p. split_and!; [done|by apply Hauth|].
    match goal with Hs : speaks_for _ _ _ _ |- _ => apply Hs end. }
  pose proof (reachable_gov_ok _ (sstep_reach _ _ _ _ Hreach)) as Hok. cbn in Hok.
  destruct (approved_sprint _ _ _ _ Hok Hsp Hrun Hw) as (did & d & actor & Hd & Hs & Ha & Hby).
  destruct (Hdec _ _ _ Hd Hby) as (p & Hp & Hauth & ->). by exists did, d, p.
Qed.

(** End to end: every audit entry bears the identity of a principal that
    called the service, and an entry that reports a mutating tool as
    succeeded bears that of a principal with the tool's permission in scope. *)
Theorem audit_entries_authorised {G} (svc : Generators G) P g st entry :
  rtc (sstep svc P) (NewMemoryRepository, g) st → entry ∈ m_audits st.1 →
  ∃ p, P p ∧ au_ActorType entry = p_ActorType p ∧ au_ActorID entry = p_ActorID p ∧
    (au_Outcome entry = "succeeded" → isMutatingAuditTool (au_ToolName entry) = true →
     ∃ permission, tool_permission (au_ToolName entry) = Some permission ∧
       authorised p permission).
Proof.
  intros Hreach. revert entry. apply Forall_forall. revert Hreach.
  apply (rtc_invariant _ (λ st, Forall _ (m_audits st.1))); [|constructor].
  intros st1 st2 IH [Heq|(p & q & c & r & Hp & Hauth & Hc & _ & Hrun)]%sstep_cases;
    [by rewrite Heq|].
  destruct (issue_audits _ _ _ _ Hrun) as (new & -> & Hnew). apply Forall_app. split; [done|].
  apply (Forall_impl _ _ _ Hnew). intros entry He. exists p. split; [done|].
  by eapply carried_entry.
Qed.
End properties.

(** ** A concrete session *)

Module Desk.
Import Walkthrough.
#[local] Existing Instances demo_clock demo_sha demo_json plan_codec submission_codec
  decision_codec run_codec.

Definition once {A} (a : A) : M error nat A := λ n,
  match n with
  | O => (Ok a, O)
  | S _ => (Err (ErrorString (Lit "exhausted")), n)
  end.
(** One sprint, one run, one decision. *)
Definition ids : Generators nat :=
  mkGenerators (once sid) (λ n, match n with O => (Ok did, 1) | S _ => once did n end)
    (once rid).

Definition boss : Principal := mkPrincipal "human" "alice" LocalTenantID LocalRepositoryID
  (list_to_set AllPermissions).
Definition guest : Principal := mkPrincipal "human" "bob" LocalTenantID LocalRepositoryID
  {[ PermissionRead ]}.
Definition ctx (key : string) : CommandContext := mkContext key "corr" None.

Definition ask (q : request) (st : MemoryRepository * nat) := serve ids boss q st.
Definition q1 : request := ReqPlan (mkPlanInput " title " "objective" (ctx "key-0001")).
Definition q2 : request := ReqSubmit (mkSubmitInput sid 1 "high" (ctx "key-0002")).
Definition q3 : request :=
  ReqResolve (mkResolveInput did 1 "looks right" (ctx "key-0003")) true.
Definition t1 := snd (ask q1 (NewMemoryRepository, 0)).
Definition t2 := snd (ask q2 t1).
Definition t3 := snd (ask q3 t2).

Lemma fresh_before st : m_decisions st.1 = ∅ ∨ st.2 ≠ 0 → fresh ids st.
Proof.
  intros Hst. split; intros i g; destruct (st.2) as [|n] eqn:Hn; intros [= <- _]; [done|].
  destruct Hst as [->|?]; [apply lookup_empty|done].
Qed.

Lemma sstep_ask q st : fresh ids st → sstep ids (eq boss) st (snd (ask q st)).
Proof.
  intros Hf. exists boss, q, (fst (ask q st)). split_and!; [done|done|].
  unfold ask. by destruct (serve ids boss q st).
Qed.

Lemma reach : rtc (sstep ids (eq boss)) (NewMemoryRepository, 0) t3.
Proof.
  eapply rtc_l; [apply (sstep_ask q1), fresh_before; by left|].
  eapply rtc_l; [apply (sstep_ask q2), fresh_before; left; vm_compute; reflexivity|].
  apply rtc_once. apply (sstep_ask q3), fresh_before. right. vm_compute. discriminate.
Qed.

Lemma unauthorised_no_effect_witness :
  ∃ e, serve ids guest q3 t2 = (Err e, t2) ∧
    (CodeOf e = CodePermissionDenied ∨ CodeOf e = CodeUnauthenticated).
Proof.
  apply (unauthorised_no_effect ids guest q3 PermissionDecide t2); [reflexivity|].
  intros (_ & _ & Hin & _). vm_compute in Hin. discriminate.
Defined.

Lemma service_attribution_witness :
  let out := serve ids boss q1 (NewMemoryRepository, 0) in
  is_ok out.1 = true ∧
  ((is_ok out.1 = false ∧ (out.2).1 = NewMemoryRepository) ∨
   ((∀ permission, required q1 = Some permission → authorised boss permission) ∧
    ∃ c, carries ids boss 0 q1 c ∧ perform c NewMemoryRepository = (out.1, (out.2).1))).
Proof.
  intros out. split; [vm_compute; reflexivity|].
  apply (service_attribution ids boss q1 (NewMemoryRepository, 0) out.1 out.2).
  unfold out. by destruct (serve ids boss q1 (NewMemoryRepository, 0)).
Defined.

Lemma work_approved_by_authorised_principal_witness :
  ∃ did d p, m_decisions t3.1 !! did = Some d ∧ d_SprintID d = sid ∧
    d_Status d = DecisionApproved ∧ boss = p ∧ authorised p PermissionDecide ∧
    d_DecidedBy d = Some (p_ActorID p).
Proof.
  eapply (work_approved_by_authorised_principal ids (eq boss) 0 t3 sid
    (mkSprint sid "1.0" 1 "title" "objective" SprintApproved 3 rid None (now 0) (now 6)));
    [exact reach|vm_compute; reflexivity..|exact queued_working].
Defined.

Lemma audit_entries_authorised_witness :
  ∃ entry, entry ∈ m_audits t3.1 ∧ au_ToolName entry = auditToolApproveDecision ∧
    ∃ p, boss = p ∧ au_ActorType entry = p_ActorType p ∧ au_ActorID entry = p_ActorID p ∧
    (au_Outcome entry = "succeeded" → isMutatingAuditTool (au_ToolName entry) = true →
     ∃ permission, tool_permission (au_ToolName entry) = Some permission ∧
       authorised p permission).
Proof.
  assert (∃ entry, m_audits t3.1 !! 2 = Some entry ∧
            au_ToolName entry = auditToolApproveDecision) as (entry & He & Ht)
    by (eexists; split; vm_compute; reflexivity).
  exists entry. apply list_elem_of_lookup_2 in He. split; [exact He|]. split; [exact Ht|].
  exact (audit_entries_authorised ids (eq boss) 0 t3 entry reach He).
Defined.
End Desk.
