(* ===== verification/LeasePaths.v ===== *)
(** * Package [internal/postgres]: repository paths as lease scopes

    The pure part of [lease_sets.go]: which paths may be leased, when two scopes
    overlap, which ancestors a scope fences, the canonical order of lease keys
    and the digest of a member list. [path.Clean] is written out from Go's
    standard library. *)

From S2P Require Import Prelude GoLib Fault.
From Stdlib Require Import Ascii.

(** ** Standard library: [strings.Split], [path.IsAbs], [path.Clean] *)

Definition SLASH : ascii := chr 47.

(** [strings.Split(s, "/")]; the result is never empty. *)
Fixpoint Split_slash (s : string) : list string :=
  match s with
  | "" => [""]
  | String c s' =>
      if bool_decide (c = SLASH) then "" :: Split_slash s'
      else match Split_slash s' with
           | x :: l => String c x :: l
           | [] => [String c ""]
           end
  end.

Definition IsAbs (s : string) : bool := HasPrefix s "/".

(** The element loop of [path.Clean]: [out] is the reversed output, [rooted]
    tells whether the path starts at the root. *)
Fixpoint clean_elements (rooted : bool) (out : list string) (l : list string) : list string :=
  match l with
  | [] => reverse out
  | x :: l' =>
      if bool_decide (x = "") || bool_decide (x = ".") then clean_elements rooted out l'
      else if bool_decide (x = "..") then
        match out with
        | y :: out' =>
            if bool_decide (y = "..") then clean_elements rooted (x :: out) l'
            else clean_elements rooted out' l'
        | [] => clean_elements rooted (if rooted then [] else [x]) l'
        end
      else clean_elements rooted (x :: out) l'
  end.

Definition Clean (s : string) : string :=
  if bool_decide (s = "") then "."
  else
    let rooted := IsAbs s in
    let body := Join (clean_elements rooted [] (Split_slash s)) "/" in
    if rooted then "/" +:+ body else if bool_decide (body = "") then "." else body.

(** ** Lease scopes *)

Definition invalidLeaseSetError (message : string) : error :=
  fault CodeInvalidArgument "postgres.leaseSet" message.

Definition conflictError (operation message : string) : error :=
  fault CodeConflict operation message.

Definition leaseScopesOverlap (left right : string) : bool :=
  bool_decide (left = right) || HasPrefix left (right +:+ "/") || HasPrefix right (left +:+ "/").

Definition validateLeaseScopePath (value : string) : result unit :=
  fail_if (bool_decide (value = "") || bool_decide (value = ".") || bool_decide (value = "..") ||
           IsAbs value || negb (bool_decide (Clean value = value)) || HasPrefix value "../" ||
           contains_byte (chr 92) value || contains_byte (chr 0) value)
    (invalidLeaseSetError "file and artifact resources must be canonical repository-relative paths").

Definition leaseScopeAndAncestors (scope : string) : list string :=
  let parts := Split_slash scope in
  (λ index, Join (take (S index) parts) "/") <$> seq 0 (length parts).

(** ** Facts: joining and splitting *)

Definition slash_free (s : string) : bool := negb (contains_byte SLASH s).

Lemma Join_cons2 x y l sep : Join (x :: y :: l) sep = x +:+ sep +:+ Join (y :: l) sep.
Proof. done. Qed.

Lemma Split_slash_ne s : Split_slash s ≠ [].
Proof. destruct s; cbn; [done|]. case_bool_decide; [done|]. by case_match. Qed.

Lemma slash_free_cons c x : slash_free (String c x) = true ↔ c ≠ SLASH ∧ slash_free x = true.
Proof.
  unfold slash_free. cbn [contains_byte]. rewrite negb_orb, andb_true_iff, negb_true_iff,
    bool_decide_eq_false. naive_solver.
Qed.

Lemma Split_slash_free s : Forall (λ x, slash_free x = true) (Split_slash s).
Proof.
  induction s as [|c s IH]; cbn [Split_slash]; [by repeat constructor|].
  case_bool_decide; [by constructor|]. destruct (Split_slash s) as [|x l].
  - repeat constructor. by apply slash_free_cons.
  - inversion_clear IH. constructor; [|done]. by apply slash_free_cons.
Qed.

Lemma Join_Split_slash s : Join (Split_slash s) "/" = s.
Proof.
  induction s as [|c s IH]; [done|]. cbn [Split_slash].
  destruct (Split_slash s) as [|x l] eqn:Hs; [by apply Split_slash_ne in Hs|].
  case_bool_decide.
  - subst c. rewrite Join_cons2, IH. done.
  - destruct l as [|y l]; cbn in IH |- *; by rewrite <-IH.
Qed.

Lemma Split_slash_app x s :
  slash_free x = true → Split_slash (x +:+ "/" +:+ s) = x :: Split_slash s.
Proof.
  induction x as [|c x IH]; [done|]. intros [Hc Hx]%slash_free_cons.
  rewrite string_app_cons. cbn [Split_slash]. by rewrite bool_decide_eq_false_2, IH.
Qed.

Lemma Split_slash_single x : slash_free x = true → Split_slash x = [x].
Proof.
  induction x as [|c x IH]; [done|]. intros [Hc Hx]%slash_free_cons.
  cbn [Split_slash]. by rewrite bool_decide_eq_false_2, IH.
Qed.

Lemma Split_slash_Join l :
  l ≠ [] → Forall (λ x, slash_free x = true) l → Split_slash (Join l "/") = l.
Proof.
  intros Hne Hl. induction Hl as [|x l Hx Hl IH]; [done|]. destruct l as [|y l].
  - by apply Split_slash_single.
  - rewrite Join_cons2, Split_slash_app by done. by rewrite IH.
Qed.

Lemma Join_app l1 l2 :
  l1 ≠ [] → l2 ≠ [] → Join (l1 ++ l2) "/" = Join l1 "/" +:+ "/" +:+ Join l2 "/".
Proof.
  intros H1 H2. induction l1 as [|x l1 IH]; [done|]. destruct l1 as [|y l1].
  - cbn. by destruct l2.
  - change ((x :: y :: l1) ++ l2) with (x :: y :: (l1 ++ l2)).
    rewrite !Join_cons2. change (y :: (l1 ++ l2)) with ((y :: l1) ++ l2).
    rewrite IH by done. by rewrite !string_app_assoc.
Qed.

Lemma prefix_app p s : String.prefix p (p +:+ s) = true.
Proof.
  induction p as [|c p IH]; [by destruct s|]. rewrite string_app_cons. cbn.
  by destruct (ascii_dec c c).
Qed.

Lemma HasPrefix_spec s p : HasPrefix s p = true ↔ ∃ r, s = p +:+ r.
Proof.
  unfold HasPrefix. split.
  - revert s. induction p as [|c p IH]; intros s; [by exists s|].
    destruct s as [|d s]; [done|]. cbn. destruct (ascii_dec c d); [|done]. subst.
    intros (r & ->)%IH. by exists r.
  - intros (r & ->). apply prefix_app.
Qed.

(** ** Facts: scopes as component lists *)

Lemma Split_slash_app_gen q r : Split_slash (q +:+ "/" +:+ r) = Split_slash q ++ Split_slash r.
Proof.
  induction q as [|c q IH]; [done|]. rewrite string_app_cons. cbn [Split_slash]. rewrite IH.
  case_bool_decide; [done|]. destruct (Split_slash q) eqn:Hq; [by apply Split_slash_ne in Hq|done].
Qed.

Lemma Split_slash_inj p q : Split_slash p = Split_slash q → p = q.
Proof. intros Hpq. by rewrite <-(Join_Split_slash p), Hpq, Join_Split_slash. Qed.

Lemma below_spec p q :
  HasPrefix p (q +:+ "/") = true ↔ ∃ l, l ≠ [] ∧ Split_slash p = Split_slash q ++ l.
Proof.
  rewrite HasPrefix_spec. split.
  - intros (r & ->). exists (Split_slash r). split; [apply Split_slash_ne|].
    rewrite string_app_assoc. apply Split_slash_app_gen.
  - intros (l & Hl & Hp). exists (Join l "/").
    rewrite <-(Join_Split_slash p), Hp, Join_app, Join_Split_slash, string_app_assoc;
      [done|apply Split_slash_ne|done].
Qed.

Lemma overlap_spec p q :
  leaseScopesOverlap p q = true ↔
  Split_slash p `prefix_of` Split_slash q ∨ Split_slash q `prefix_of` Split_slash p.
Proof.
  unfold leaseScopesOverlap. rewrite !orb_true_iff, bool_decide_eq_true, !below_spec. split.
  - intros [[->|(l & _ & Hl)]|(l & _ & Hl)]; [by left|right; by exists l|left; by exists l].
  - intros [[l Hl]|[l Hl]]; (destruct l as [|x l];
      [rewrite app_nil_r in Hl; apply Split_slash_inj in Hl; by auto|]).
    + right. by exists (x :: l).
    + left. right. by exists (x :: l).
Qed.

Lemma ancestors_spec x q :
  x ∈ leaseScopeAndAncestors q ↔ Split_slash x `prefix_of` Split_slash q.
Proof.
  unfold leaseScopeAndAncestors. rewrite list_elem_of_fmap. split.
  - intros (i & -> & Hi%elem_of_seq). rewrite Split_slash_Join.
    + by apply prefix_take.
    + destruct (Split_slash q) eqn:Hq; [by apply Split_slash_ne in Hq|done].
    + apply Forall_take, Split_slash_free.
  - intros [l Hl]. exists (pred (length (Split_slash x))).
    assert (length (Split_slash x) ≠ 0) as Hne
      by (intros H0%nil_length_inv; by apply Split_slash_ne in H0).
    split.
    + rewrite Nat.succ_pred by done. by rewrite Hl, take_app_length, Join_Split_slash.
    + apply elem_of_seq. rewrite Hl, length_app. lia.
Qed.

(** A component a canonical path may contain. *)
Definition plain (x : string) : Prop := x ≠ "" ∧ x ≠ "." ∧ x ≠ "..".

Lemma clean_plain rooted l : ∀ out,
  Forall plain l → clean_elements rooted out l = reverse out ++ l.
Proof.
  induction l as [|x l IH]; intros out Hl; cbn [clean_elements]; [by rewrite app_nil_r|].
  inversion_clear Hl as [|? ? (H1 & H2 & H3)].
  rewrite !bool_decide_eq_false_2 by done. cbn. rewrite IH by done.
  by rewrite reverse_cons, <-app_assoc.
Qed.

(** Reversed outputs of [path.Clean]: plain components above leading [".."]s. *)
Definition climbs (out : list string) : Prop :=
  ∃ ps n, out = ps ++ replicate n ".." ∧ Forall plain ps.

Lemma clean_climbs l : ∀ out, climbs out →
  ∃ out', clean_elements false out l = reverse out' ∧ climbs out'.
Proof.
  induction l as [|x l IH]; intros out Hout; cbn [clean_elements]; [by exists out|].
  destruct (_ || _) eqn:Hx; [by apply IH|]. bool_prop. destruct Hx as [Hx1 Hx2].
  destruct Hout as (ps & n & -> & Hps). case_bool_decide as Hx3.
  - subst x. destruct ps as [|p ps]; cbn.
    + destruct n as [|n]; cbn; apply IH.
      * exists [], 1. done.
      * exists [], (S (S n)). done.
    + inversion_clear Hps as [|? ? (_ & _ & Hp)]. rewrite bool_decide_eq_false_2 by done.
      apply IH. by exists ps, n.
  - apply IH. exists (x :: ps), n. split; [done|]. by constructor.
Qed.

Lemma clean_Forall (P : string → Prop) rooted l : ∀ out,
  Forall P out → Forall P l → Forall P (clean_elements rooted out l).
Proof.
  induction l as [|x l IH]; intros out Ho Hl; cbn [clean_elements]; [by apply Forall_reverse|].
  inversion_clear Hl. destruct (_ || _); [by apply IH|].
  case_bool_decide; [|apply IH; [by constructor|done]].
  destruct out as [|y out].
  - apply IH; [destruct rooted; by repeat constructor|done].
  - inversion_clear Ho. case_bool_decide; apply IH; by repeat constructor.
Qed.

Lemma Split_dotdot v l : Split_slash v = ".." :: l → v = ".." ∨ HasPrefix v "../" = true.
Proof.
  intros Hv. apply (f_equal (λ l, Join l "/")) in Hv. rewrite Join_Split_slash in Hv.
  destruct l as [|y l]; [by left|right]. apply HasPrefix_spec.
  rewrite Join_cons2 in Hv. by exists (Join (y :: l) "/").
Qed.

Lemma Clean_canonical v :
  v ≠ "" → v ≠ "." → v ≠ ".." → IsAbs v = false → HasPrefix v "../" = false →
  (Clean v = v ↔ Forall plain (Split_slash v)).
Proof.
  intros Hv1 Hv2 Hv3 Ha Hup. unfold Clean. rewrite (bool_decide_eq_false_2 _ Hv1), Ha.
  set (l := Split_slash v). split.
  - destruct (clean_climbs l []) as (out & Hout & ps & n & -> & Hps); [by exists [], 0|].
    rewrite Hout. case_bool_decide as Hbody; [congruence|]. intros Hj.
    assert (reverse (ps ++ replicate n "..") = l) as Hl.
    { rewrite <-(Split_slash_Join (reverse (ps ++ replicate n ".."))).
      - by rewrite Hj.
      - intros Hn. rewrite Hn in Hbody. done.
      - rewrite <-Hout. apply clean_Forall; [constructor|apply Split_slash_free]. }
    rewrite reverse_app, reverse_replicate in Hl. destruct n as [|n].
    + rewrite <-Hl. by apply Forall_reverse.
    + cbn in Hl. symmetry in Hl. apply Split_dotdot in Hl as [?|?]; congruence.
  - intros Hp. rewrite clean_plain by done. cbn. unfold l. rewrite Join_Split_slash.
    by rewrite bool_decide_eq_false_2.
Qed.

Lemma plain_shape v :
  Forall plain (Split_slash v) →
  v ≠ "" ∧ v ≠ "." ∧ v ≠ ".." ∧ IsAbs v = false ∧ HasPrefix v "../" = false.
Proof.
  intros Hp. split_and!.
  - intros ->. inversion_clear Hp as [|? ? (? & _)]. done.
  - intros ->. inversion_clear Hp as [|? ? (_ & ? & _)]. done.
  - intros ->. inversion_clear Hp as [|? ? (_ & _ & ?)]. done.
  - destruct (IsAbs v) eqn:Ha; [|done]. apply HasPrefix_spec in Ha as (r & ->).
    inversion_clear Hp as [|? ? (? & _)]. done.
  - destruct (HasPrefix v "../") eqn:Ha; [|done]. apply HasPrefix_spec in Ha as (r & ->).
    inversion_clear Hp as [|? ? (_ & _ & ?)]. done.
Qed.

Lemma validateLeaseScopePath_plain v :
  validateLeaseScopePath v = Ok tt ↔
  Forall plain (Split_slash v) ∧ contains_byte (chr 92) v = false ∧ contains_byte (chr 0) v = false.
Proof.
  unfold validateLeaseScopePath. rewrite fail_if_ok, !orb_false_iff, !bool_decide_eq_false,
    negb_false_iff, bool_decide_eq_true. split.
  - intros (((((((H1 & H2) & H3) & H4) & H5) & H6) & H7) & H8). split; [|done].
    by apply Clean_canonical.
  - intros (Hp & H7 & H8). destruct (plain_shape v Hp) as (? & ? & ? & ? & ?).
    split_and!; try done. by apply Clean_canonical.
Qed.

(** ** Properties *)

(** The path check accepts exactly the repository-relative paths whose
    components are all proper names (none empty, ["."] or [".."]) and that
    contain neither a backslash nor a NUL byte; in particular no accepted path
    leaves the repository. *)
Theorem validateLeaseScopePath_exact v :
  validateLeaseScopePath v = Ok tt ↔
  (∀ x, x ∈ Split_slash v → x ≠ "" ∧ x ≠ "." ∧ x ≠ "..") ∧
  contains_byte (chr 92) v = false ∧ contains_byte (chr 0) v = false.
Proof. rewrite validateLeaseScopePath_plain. by rewrite Forall_forall. Qed.

(** Overlap detection and ancestor fencing agree: two scopes overlap exactly
    when one of them is among the scope-and-ancestors the other one fences. *)
Theorem overlap_iff_fenced p q :
  leaseScopesOverlap p q = true ↔
  p ∈ leaseScopeAndAncestors q ∨ q ∈ leaseScopeAndAncestors p.
Proof. by rewrite overlap_spec, !ancestors_spec. Qed.
