(* ===== verification/Postgres.v ===== *)
(** * Package [internal/postgres]: transactions over tables

    The shared ground of the repositories: a database is its tables plus two
    counters, one of the clock readings taken by [clock_timestamp()] and one of
    the statements executed. PostgreSQL itself is not modelled; what the code
    relies on is: a statement either fails with an error the driver reports
    ([db_fault], an arbitrary schedule) or does what its SQL text says, a text
    parameter must be valid UTF-8 without NUL, a violated CHECK or a numeric overflow is an
    error, and a transaction that is not committed leaves no trace. Row,
    table and advisory locks make the modelled transactions serial, so each one
    is one step. *)

From S2P Require Import Prelude GoLib Fault.

(** What the driver reports: a SQLSTATE or a failure without one. *)
Inductive pgfault :=
| PgError (code : string)
| DriverError (text : string).

Definition databaseError (operation : string) (err : pgfault) : error :=
  match err with
  | PgError code =>
      if bool_decide (code ∈ ["23505"; "23503"; "40001"; "40P01"])
      then FaultError CodeConflict operation (Lit "database conflict")
             (Some (ErrorString (Lit code)))
      else if bool_decide (code ∈ ["23514"; "22P02"])
      then FaultError CodeInvalidArgument operation (Lit "database rejected input")
             (Some (ErrorString (Lit code)))
      else FaultError CodeUnavailable operation (Lit "database operation failed")
             (Some (ErrorString (Lit code)))
  | DriverError text =>
      FaultError CodeUnavailable operation (Lit "database operation failed")
        (Some (ErrorString (Lit text)))
  end.

(** The failures of the environment, by statement number. *)
Class Database := db_fault : nat → option pgfault.

Record DB (T : Type) := mkDB {
  tables : T;
  readings : nat;
  statements : nat;
}.
Arguments mkDB {T}.
Arguments tables {T}.
Arguments readings {T}.
Arguments statements {T}.

(** The identity a store is bound to when it is opened. *)
Record PgStore := mkPgStore { tenantID : string; repositoryID : string }.

(** ** Durations, in nanoseconds *)

Definition Microsecond : Z := 1000.
Definition Millisecond : Z := 1000 * Microsecond.
Definition Second : Z := 1000 * Millisecond.
Definition Hour : Z := 3600 * Second.

(** [intervalString], kept as the numbers of its ["%d seconds %d microseconds"]. *)
Definition intervalString (duration : Z) : Z * Z :=
  (duration `quot` Second, (duration `rem` Second) `quot` Microsecond)%Z.

(** The [::interval] cast of that text, in nanoseconds. *)
Definition interval (i : Z * Z) : Z := (i.1 * Second + i.2 * Microsecond)%Z.

Definition AddInterval (t : Time) (d : Z) : Time := mkTime (instant t + d) (zone_offset t).

(** [time.Time.Sub], which saturates. *)
Definition Sub (t u : Time) : Z :=
  Z.max (- 2 ^ 63) (Z.min int_max (instant t - instant u)).

(** [time.Duration.Milliseconds]. *)
Definition Milliseconds (d : Z) : Z := (d `quot` Millisecond)%Z.

(** [GREATEST(t, u)]. *)
Definition Greatest (t u : Time) : Time := if Before t u then u else t.

(** What a [text] parameter may contain. *)
Definition pg_text (s : string) : bool := nul_free s && ValidString s.

Section sql.
Context `{Clock, Database} {T : Type}.

Definition statement (op : string) (params : list string) : M error (DB T) unit := λ s,
  let s' := mkDB (tables s) (readings s) (S (statements s)) in
  match db_fault (statements s) with
  | Some f => (Err (databaseError op f), s')
  | None => if forallb pg_text params then (Ok tt, s')
            else (Err (databaseError op (PgError "22021")), s')
  end.

Definition clock_timestamp : M error (DB T) Time := λ s,
  (Ok (clock_reading (readings s)), mkDB (tables s) (S (readings s)) (statements s)).

Definition select {A} (f : T → A) : M error (DB T) A := λ s, (Ok (f (tables s)), s).

Definition write (f : T → T) : M error (DB T) unit := λ s,
  (Ok tt, mkDB (f (tables s)) (readings s) (statements s)).

(** [defer tx.Rollback]: only a body that ends in a successful [Commit] keeps its
    writes. *)
Definition atomically {A} (m : M error (DB T) A) : M error (DB T) A := λ s,
  match m s with
  | (Ok a, s') => (Ok a, s')
  | (Err e, s') => (Err e, mkDB (tables s) (readings s') (statements s'))
  end.

(** A row that violates a CHECK, or whose bigint column overflows. *)
Definition checked (op : string) (bad : option pgfault) : M error (DB T) unit :=
  match bad with Some f => throw (databaseError op f) | None => mret tt end.

(** [EXISTS (... AND expires_at > clock_timestamp())] over the candidate rows. *)
Fixpoint any_live (l : list Time) : M error (DB T) bool :=
  match l with
  | [] => mret false
  | expires :: l' =>
      now ← clock_timestamp;
      if After expires now then mret true else any_live l'
  end.

(** ** Reads *)

(** [m] writes nothing. *)
Definition reader {A} (m : M error (DB T) A) : Prop :=
  ∀ s r s', m s = (r, s') → tables s' = tables s ∧ readings s ≤ readings s'.

Lemma reader_bind {A B} (m : M error (DB T) A) (k : A → M error (DB T) B) :
  reader m → (∀ a, reader (k a)) → reader (m ≫= k).
Proof.
  intros Hm Hk s r s'. rewrite M_bind_run. destruct (m s) as [[a|e] s1] eqn:Hms;
    destruct (Hm _ _ _ Hms) as [Ht Hn].
  - intros [Ht' Hn']%Hk. split; [congruence|lia].
  - by intros [= _ <-].
Qed.
Lemma reader_ret {A} (a : A) : reader (mret a).
Proof. by intros s r s' [= _ <-]. Qed.
Lemma reader_throw {A} e : reader (throw (A := A) e).
Proof. by intros s r s' [= _ <-]. Qed.
Lemma reader_lift {A} (x : result A) : reader (lift x).
Proof. by intros s r s' [= _ <-]. Qed.
Lemma reader_statement op params : reader (statement op params).
Proof.
  intros s r s'. unfold statement. destruct (db_fault _); [by intros [= _ <-]|].
  case_match; by intros [= _ <-].
Qed.
Lemma reader_clock : reader clock_timestamp.
Proof. intros s r s' [= _ <-]. cbn. split; [done|lia]. Qed.
Lemma reader_select {A} (f : T → A) : reader (select f).
Proof. by intros s r s' [= _ <-]. Qed.
Lemma reader_checked op bad : reader (checked op bad).
Proof. unfold checked. case_match; [apply reader_throw|apply reader_ret]. Qed.
Lemma reader_any_live l : reader (any_live l).
Proof.
  induction l as [|t l IH]; cbn [any_live]; [apply reader_ret|].
  apply reader_bind; [apply reader_clock|]. intros now. case_match; [apply reader_ret|done].
Qed.

(** No row of the list was live at the readings taken. *)
Lemma any_live_false l s s' :
  any_live l s = (Ok false, s') → ∀ t, t ∈ l →
  ∃ i, readings s ≤ i < readings s' ∧ (instant t ≤ instant (clock_reading i))%Z.
Proof.
  revert s. induction l as [|t l IH]; intros s Hrun t0 Hin; [by apply elem_of_nil in Hin|].
  cbn [any_live] in Hrun. rewrite M_bind_run in Hrun. cbn in Hrun.
  destruct (After t _) eqn:Ha; [done|].
  pose proof (reader_any_live _ _ _ _ Hrun) as [_ Hn]. cbn in Hn.
  apply elem_of_cons in Hin as [->|Hin].
  - exists (readings s). split; [lia|]. unfold After in Ha. by apply Z.ltb_ge in Ha.
  - destruct (IH _ Hrun _ Hin) as (i & Hi & Hle). cbn in Hi. exists i. split; [lia|done].
Qed.

Lemma atomically_err {A} (m : M error (DB T) A) s e s' :
  atomically m s = (Err e, s') → tables s' = tables s.
Proof. unfold atomically. destruct (m s) as [[a|e'] s1]; [done|]. by intros [= _ <-]. Qed.

Lemma atomically_ok {A} (m : M error (DB T) A) s a s' :
  atomically m s = (Ok a, s') → m s = (Ok a, s').
Proof. unfold atomically. destruct (m s) as [[b|e'] s1]; [|done]. by intros [= -> ->]. Qed.
End sql.

#[export] Hint Resolve reader_ret reader_throw reader_lift reader_statement reader_clock
  reader_select reader_checked reader_any_live : forja_parts.

(** Decides [reader] for a body without writes. *)
Ltac reading := repeat first
  [ progress (intros; cbn beta zeta)
  | solve [auto 1 with forja_parts]
  | apply reader_bind
  | case_match ].
