(* ===== verification/DeliveryContracts.v ===== *)
(** * Package [internal/contracts]: deliveries ([delivery.go])

    A delivery request is the authority of one attempt, a validation report the
    word of its independent validator, a receipt the claim that a commit was
    published. The validators here decide which of them agree. *)

From S2P Require Import Prelude GoLib Fault Contracts Identity LeasePaths Postgres.
From Stdlib Require Import Ascii.

(** ** Standard library: [slices], [strings.Cut] *)

Fixpoint IsSorted (l : list string) : bool :=
  match l with
  | a :: (b :: _) as rest => bool_decide (String.le a b) && IsSorted rest
  | _ => true
  end.

(** [slices.Compact]: of equal neighbours the first is kept. *)
Fixpoint Compact (l : list string) : list string :=
  match l with
  | a :: (b :: _) as rest => if bool_decide (a = b) then Compact rest else a :: Compact rest
  | _ => l
  end.

Definition Sort (l : list string) : list string := merge_sort String.le l.

(** [strings.Cut]: before and after the first separator, and whether there is one. *)
Fixpoint Cut (s sep : string) : string * string * bool :=
  match strip_prefix sep s with
  | Some after => ("", after, true)
  | None =>
      match s with
      | "" => ("", "", false)
      | String c s' => let '(before, after, found) := Cut s' sep in (String c before, after, found)
      end
  end.

Definition plain_error (m : string) : error := ErrorString (Lit m).
Definition wrapped {A} (m : string) (r : result A) : result A :=
  match r with Ok a => Ok a | Err e => Err (Errorf (Lit m) e) end.
Lemma wrapped_ok {A} m (r : result A) a : wrapped m r = Ok a ↔ r = Ok a.
Proof. destruct r; naive_solver. Qed.

(** ** Identities *)

Definition mandatoryBuiltInCheckIDs : list string :=
  ["filesystem-safety"; "generated-file-policy"; "schema-validation"; "scope-boundary"; "secret-scan"].

Definition MinimumPublicationLeaseTTLMS : Z := 60000.
Definition DeliverySchemaVersion : string := "1.1".

Definition deliveryIDPattern : list class := cl_lit "delivery_" ++ uuid_pattern.
Definition attemptIDPattern : list class := cl_lit "attempt_" ++ uuid_pattern.

Definition ValidateDeliveryID (deliveryID : string) : result unit :=
  fail_if (negb (match_classes deliveryIDPattern deliveryID))
    (plain_error "delivery ID is not a canonical delivery-prefixed UUIDv4").

Definition ValidateDeliveryAttemptID (attemptID : string) : result unit :=
  fail_if (negb (match_classes attemptIDPattern attemptID))
    (plain_error "attempt ID is not a canonical attempt-prefixed UUIDv4").

(** [repositoryStorageIdentityPattern]. *)
Definition storage_id (s : string) : bool := match_classes uuid_pattern s.

Definition ValidateRepositoryIdentity (tenantID repositoryID : string) : result unit :=
  _ ← fail_if (negb (HasPrefix tenantID "tenant_") || negb (storage_id (TrimPrefix tenantID "tenant_")))
        (plain_error "tenant ID is not a canonical tenant-prefixed UUIDv4");
  fail_if (negb (HasPrefix repositoryID "repo_") || negb (storage_id (TrimPrefix repositoryID "repo_")))
    (plain_error "repository ID is not a canonical repo-prefixed UUIDv4").

Definition RepositoryStorageIdentity (tenantID repositoryID : string) : result (string * string) :=
  _ ← ValidateRepositoryIdentity tenantID repositoryID;
  Ok (TrimPrefix tenantID "tenant_", TrimPrefix repositoryID "repo_").

Definition ValidateRepositoryStorageIdentity (tenantID repositoryID : string) : result unit :=
  _ ← fail_if (negb (storage_id tenantID))
        (plain_error "storage tenant ID is not a canonical UUIDv4");
  fail_if (negb (storage_id repositoryID))
    (plain_error "storage repository ID is not a canonical UUIDv4").

(** ** Paths and scopes *)

Definition coveredByScope (value : string) (scopes : list string) : bool :=
  existsb (λ scope, bool_decide (value = scope) || HasPrefix value (scope +:+ "/")) scopes.

Definition sortedUnique (values : list string) : bool :=
  IsSorted values && Nat.eqb (length (Compact values)) (length values).

Definition validateCanonicalScope (label value : string) (allowRoot : bool) : result unit :=
  fail_if (bool_decide (value = "") || contains_byte (chr 92) value || contains_byte (chr 0) value ||
           IsAbs value || negb (bool_decide (Clean value = value)) || HasPrefix value "../" ||
           bool_decide (value = "..") || (negb allowRoot && bool_decide (value = ".")))
    (ErrorString (Sprintf "%s %q is not a canonical repository-relative path" [label; value])).

Definition validateCanonicalPaths (label : string) (values : list string) (allowRoot : bool)
    : result unit :=
  _ ← fail_if (bool_decide (values = []) || negb (sortedUnique values))
        (ErrorString (Sprintf "%s values must be non-empty, unique, and byte-sorted" [label]));
  _ ← loop (λ _ value, validateCanonicalScope label value allowRoot) tt values;
  fail_if (allowRoot && bool_decide ("." ∈ values) && negb (Nat.eqb (length values) 1))
    (plain_error "root read scope must be the only read scope").

(** The loop over the indexes 1, 2, ...: [before] are the earlier values. *)
Fixpoint scopes_overlap (before values : list string) : bool :=
  match values with
  | [] => false
  | value :: rest => coveredByScope value before || scopes_overlap (before ++ [value]) rest
  end.

Definition validateCanonicalScopes (label : string) (values : list string) (allowRoot : bool)
    : result unit :=
  _ ← validateCanonicalPaths label values allowRoot;
  fail_if (scopes_overlap (take 1 values) (drop 1 values))
    (ErrorString (Sprintf "%s values must not overlap" [label])).

Definition validateCanonicalAbsoluteRoot (label value : string) : result unit :=
  fail_if (bool_decide (value = "") || bool_decide (value = "/") || contains_byte (chr 92) value ||
           contains_byte (chr 0) value || negb (IsAbs value) || negb (bool_decide (Clean value = value)))
    (ErrorString (Sprintf "%s %q is not a canonical non-root absolute path" [label; value])).

Definition absolutePathContains (parent child : string) : bool :=
  bool_decide (child = parent) || HasPrefix child (parent +:+ "/").

Definition scopeAndAncestors (scope : string) : list string :=
  let parts := Split_slash scope in
  (λ index, Join (take (S index) parts) "/") <$> seq 0 (length parts).

Definition ExpectedDeliveryFenceKeys (request : DeliveryRequest) : list string :=
  let fences ty scopes := (λ resourceID, ty +:+ NUL +:+ resourceID) <$> mjoin (scopeAndAncestors <$> scopes) in
  Compact (Sort (("worktree" +:+ NUL +:+ rq_DeliveryID request) ::
    fences "file" (rq_WriteScopes request) ++ fences "artifact" (rq_ArtifactScopes request))).

(** ** Requests *)

Definition ValidateDeliveryRequest (request : DeliveryRequest) : result unit :=
  let budgets := rq_WorkerBudgets request in
  _ ← fail_if (negb (bool_decide (rq_SchemaVersion request = DeliverySchemaVersion)))
        (ErrorString (Sprintf "delivery request has unsupported schema version %q"
           [rq_SchemaVersion request]));
  _ ← ValidateDeliveryID (rq_DeliveryID request);
  _ ← ValidateDeliveryAttemptID (rq_AttemptID request);
  _ ← ValidateRepositoryIdentity (rq_TenantID request) (rq_RepositoryID request);
  _ ← fail_if (bool_decide (rq_AuthorID request = rq_ValidatorID request))
        (plain_error "delivery author and independent validator must differ");
  _ ← validateCanonicalAbsoluteRoot "repository path" (rq_RepositoryPath request);
  _ ← validateCanonicalAbsoluteRoot "worktree root" (rq_WorktreeRoot request);
  _ ← fail_if (absolutePathContains (rq_RepositoryPath request) (rq_WorktreeRoot request) ||
               absolutePathContains (rq_WorktreeRoot request) (rq_RepositoryPath request))
        (plain_error "repository path and worktree root must be disjoint");
  _ ← fail_if (negb (bool_decide (rq_PublicationRef request =
                       "refs/forja/deliveries/" +:+ rq_DeliveryID request)))
        (plain_error "publication ref must be derived from the delivery ID");
  _ ← fail_if (incr (wb_MaxRetries budgets) <? rq_AttemptOrdinal request)%Z
        (plain_error "attempt ordinal exceeds the approved retry budget");
  let minimumLease := wrap64 (wb_WallClockMS budgets + wb_CancellationGraceMS budgets) in
  _ ← fail_if (rq_LeaseTTLMS request <=? minimumLease)%Z
        (plain_error "lease TTL must outlive worker and cancellation budgets");
  _ ← fail_if (rq_LeaseTTLMS request <? MinimumPublicationLeaseTTLMS)%Z
        (plain_error "lease TTL must provide the publication authority horizon");
  _ ← validateCanonicalScopes "read scope" (rq_ReadScopes request) true;
  _ ← validateCanonicalScopes "write scope" (rq_WriteScopes request) false;
  _ ← validateCanonicalScopes "artifact scope" (rq_ArtifactScopes request) false;
  _ ← validateCanonicalScopes "combined writable scope"
        (Sort (rq_WriteScopes request ++ rq_ArtifactScopes request)) false;
  _ ← validateCanonicalScope "evidence scope" (rq_EvidenceScope request) false;
  _ ← fail_if (negb (coveredByScope (rq_EvidenceScope request) (rq_ArtifactScopes request)))
        (plain_error "evidence scope must be covered by an artifact scope");
  fail_if (negb (sortedUnique (default [] (rq_MechanicalValidatorIDs request))))
    (plain_error "mechanical validator IDs must be unique and byte-sorted").

(** ** Reports *)

(** The local variables of the loop over the checks. *)
Record tally := mkTally {
  ta_checkIDs : list string;
  ta_allPassed : bool;
  ta_hasIndependent : bool;
  ta_cleanFound : bool;
  ta_cleanPassed : bool;
  ta_latest : Time;
}.

Definition tally_check (t : tally) (check : ValidationCheck) : result tally :=
  let id := vc_CheckID check in
  let passed := bool_decide (vc_Status check = "passed") in
  let independent := bool_decide (vc_Kind check = "independent") in
  let clean := bool_decide (id = "clean-checkout") in
  _ ← fail_if (Before (vc_FinishedAt check) (vc_StartedAt check))
        (ErrorString (Sprintf "validation check %q finishes before it starts" [id]));
  _ ← fail_if (negb (vc_DurationMS check =?
                     Milliseconds (Sub (vc_FinishedAt check) (vc_StartedAt check)))%Z)
        (ErrorString (Sprintf "validation check %q duration is inconsistent" [id]));
  _ ← fail_if (clean && negb independent)
        (plain_error "clean checkout check must be independent");
  Ok (mkTally (ta_checkIDs t ++ [id]) (ta_allPassed t && passed) (ta_hasIndependent t || independent)
        (ta_cleanFound t || clean) (if clean then passed else ta_cleanPassed t)
        (if After (vc_FinishedAt check) (ta_latest t) then vc_FinishedAt check else ta_latest t)).

Definition ValidateValidationReport (report : ValidationReport) : result unit :=
  _ ← fail_if (negb (bool_decide (vr_SchemaVersion report = DeliverySchemaVersion)))
        (ErrorString (Sprintf "validation report has unsupported schema version %q"
           [vr_SchemaVersion report]));
  _ ← ValidateDeliveryID (vr_DeliveryID report);
  _ ← ValidateRepositoryIdentity (vr_TenantID report) (vr_RepositoryID report);
  _ ← fail_if (bool_decide (vr_AuthorID report = vr_ValidatorID report))
        (plain_error "validation author and validator must differ");
  _ ← fail_if (Nat.eqb (length (vr_Checks report)) 0)
        (plain_error "independent validation requires at least one check");
  t ← loop tally_check (mkTally [] true false false false zero_time) (vr_Checks report);
  _ ← fail_if (negb (ta_hasIndependent t))
        (plain_error "validation report requires an independent check");
  _ ← fail_if (negb (ta_cleanFound t) || negb (Bool.eqb (vr_CleanCheckout report) (ta_cleanPassed t)))
        (plain_error "clean checkout field disagrees with its independent check");
  _ ← fail_if (negb (sortedUnique (ta_checkIDs t)))
        (plain_error "validation checks must be unique and byte-sorted");
  _ ← fail_if (Before (vr_CreatedAt report) (ta_latest t))
        (plain_error "validation report predates a completed check");
  _ ← fail_if (negb (Bool.eqb (bool_decide (vr_Status report = "passed")) (ta_allPassed t)))
        (plain_error "validation status disagrees with check results");
  fail_if (bool_decide (vr_Status report = "passed") && negb (vr_CleanCheckout report))
    (plain_error "passing independent validation requires a clean checkout").

(** ** Receipts *)

(** [digest != strings.ToLower(digest)] of a text of hexadecimal digits. *)
Definition lower_hex (digest : string) : bool :=
  forallb (λ c, negb (in_range 65 70 c)) (String.list_ascii_of_string digest).

Definition validateSHA256 (label digest : string) : result unit :=
  fail_if (negb (hex_digest digest) || negb (lower_hex digest))
    (ErrorString (Sprintf "%s has an invalid SHA-256 digest" [label])).

Definition validateContentReference (label reference : string) : result unit :=
  let '(relative, digest, ok) := Cut reference "#sha256=" in
  _ ← fail_if (negb ok || contains_byte (chr 35) digest || negb (Nat.eqb (String.length digest) 64))
        (ErrorString (Sprintf "%s reference is not content-addressed" [label]));
  _ ← validateCanonicalScope (label +:+ " path") relative false;
  validateSHA256 (label +:+ " reference") digest.

Definition fence_key (fence : DeliveryLeaseFence) : string :=
  fn_ResourceType fence +:+ NUL +:+ fn_ResourceID fence.

(** One iteration of the loop over the fences of a receipt. *)
Definition check_fence (receipt : DeliveryReceipt) (owner : string)
    (_ : unit) (fence : DeliveryLeaseFence) : result unit :=
  _ ← fail_if (bool_decide (fn_OwnerID fence = "") || (fn_FencingToken fence <? 1)%Z)
        (plain_error "delivery lease fence has invalid ownership proof");
  _ ← fail_if (negb (bool_decide (fn_OwnerID fence = owner)))
        (plain_error "delivery lease fences must have one owner");
  if bool_decide (fn_ResourceType fence = "worktree") then
    fail_if (negb (bool_decide (fn_ResourceID fence = rt_DeliveryID receipt)))
      (plain_error "worktree lease fence must identify the delivery")
  else if bool_decide (fn_ResourceType fence ∈ ["file"; "artifact"]) then
    validateCanonicalScope (fn_ResourceType fence +:+ " lease resource") (fn_ResourceID fence) false
  else Err (ErrorString (Sprintf "unsupported delivery lease resource type %q" [fn_ResourceType fence])).

Definition validateDeliveryReceiptStructure (receipt : DeliveryReceipt) : result unit :=
  let fences := rt_LeaseFences receipt in
  let has ty := existsb (λ fence, bool_decide (fn_ResourceType fence = ty)) fences in
  _ ← fail_if (negb (bool_decide (rt_SchemaVersion receipt = DeliverySchemaVersion)))
        (ErrorString (Sprintf "delivery receipt has unsupported schema version %q"
           [rt_SchemaVersion receipt]));
  _ ← ValidateDeliveryID (rt_DeliveryID receipt);
  _ ← ValidateRepositoryIdentity (rt_TenantID receipt) (rt_RepositoryID receipt);
  _ ← fail_if (negb (bool_decide (rt_Status receipt = "published")))
        (plain_error "delivery receipt must represent a published result");
  _ ← fail_if (bool_decide (rt_AuthorID receipt = rt_ValidatorID receipt))
        (plain_error "delivery author and validator must differ");
  _ ← fail_if (negb (bool_decide (rt_PublicationRef receipt =
                       "refs/forja/deliveries/" +:+ rt_DeliveryID receipt)))
        (plain_error "publication ref must be derived from the delivery ID");
  _ ← fail_if (Before (rt_PublishedAt receipt) (rt_CreatedAt receipt))
        (plain_error "delivery publication predates receipt creation");
  _ ← validateCanonicalPaths "changed path" (rt_ChangedPaths receipt) false;
  _ ← validateContentReference "validation report" (rt_ValidationReportRef receipt);
  _ ← validateContentReference "evidence manifest" (rt_EvidenceManifestRef receipt);
  match fences with
  | first :: _ :: _ :: _ =>
      _ ← loop (check_fence receipt (fn_OwnerID first)) tt fences;
      _ ← fail_if (negb (has "worktree") || negb (has "file") || negb (has "artifact"))
            (plain_error "delivery receipt lacks a required lease resource type");
      fail_if (negb (sortedUnique (fence_key <$> fences)))
        (plain_error "delivery lease fences must be unique and byte-sorted")
  | _ => Err (plain_error "delivery receipt requires worktree, file, and artifact fences")
  end.

(** ** Publications *)

(** [encoding/json] on the bytes of the delivery documents. *)
Class DeliveryJson := {
  request_json : DeliveryRequest → result string;
  report_json : ValidationReport → result string;
  receipt_json : DeliveryReceipt → result string;
  receipt_of_json : string → result DeliveryReceipt;
  manifest_json : EvidenceManifest → result string;
  (** The strict decoder, and whether something follows the document. *)
  manifest_of_json : string → result EvidenceManifest;
  trailing_json : string → bool;
}.

Definition equalOptionalString (left right : option string) : bool := bool_decide (left = right).

Section publication.
Context `{Sha256, DeliveryJson}.

Definition sha256Hex (content : string) : string := hexText (Sum256 content).

Definition decodeCanonicalEvidenceManifest (content : string) : result EvidenceManifest :=
  manifest ← wrapped "decode evidence manifest: %w" (manifest_of_json content);
  _ ← fail_if (trailing_json content) (plain_error "evidence manifest contains trailing JSON");
  _ ← fail_if (negb (bool_decide (mf_SchemaVersion manifest = DeliverySchemaVersion)) ||
               Nat.eqb (length (mf_Entries manifest)) 0)
        (plain_error "evidence manifest has an unsupported version or no entries");
  _ ← wrapped "evidence manifest: %w" (ValidateDeliveryID (mf_DeliveryID manifest));
  _ ← wrapped "evidence manifest: %w"
        (ValidateRepositoryIdentity (mf_TenantID manifest) (mf_RepositoryID manifest));
  canonical ← wrapped "marshal canonical evidence manifest: %w" (manifest_json manifest);
  _ ← fail_if (negb (bool_decide (content = canonical)))
        (plain_error "evidence manifest is not canonical JSON");
  Ok manifest.

(** [completed[id]] after the loop over the checks of one kind. *)
Definition completed (kind : string) (checks : list ValidationCheck) : gmap string bool :=
  foldl (λ m check,
    if bool_decide (vc_Kind check = kind)
    then <[vc_CheckID check := bool_decide (vc_Status check = "passed")]> m else m) ∅ checks.

Definition did_pass (m : gmap string bool) (id : string) : bool := default false (m !! id).

(** One iteration of the loop over the entries; the variable tells whether the
    report was found. *)
Definition check_entry (evidenceScope manifestPath reportPath reportDigest report : string)
    (found : bool) (entry : EvidenceEntry) : result bool :=
  _ ← validateCanonicalScope "evidence entry path" (ee_Path entry) false;
  _ ← fail_if (negb (coveredByScope (ee_Path entry) [evidenceScope]))
        (ErrorString (Sprintf "evidence entry %q is outside the approved evidence scope" [ee_Path entry]));
  _ ← fail_if (bool_decide (ee_Path entry = manifestPath))
        (plain_error "evidence manifest cannot contain itself");
  _ ← validateSHA256 "evidence entry" (ee_SHA256 entry);
  _ ← fail_if ((ee_SizeBytes entry <? 0)%Z || bool_decide (ee_MediaType entry = ""))
        (ErrorString (Sprintf "evidence entry %q has invalid metadata" [ee_Path entry]));
  Ok (found ||
      (bool_decide (ee_Path entry = reportPath) && bool_decide (ee_SHA256 entry = reportDigest) &&
       (ee_SizeBytes entry =? Z.of_nat (String.length report))%Z)).

Definition identities_agree (request : DeliveryRequest) (report : ValidationReport)
    (receipt : DeliveryReceipt) : bool :=
  bool_decide (vr_DeliveryID report = rq_DeliveryID request) &&
  bool_decide (rt_DeliveryID receipt = rq_DeliveryID request) &&
  bool_decide (vr_TenantID report = rq_TenantID request) &&
  bool_decide (rt_TenantID receipt = rq_TenantID request) &&
  bool_decide (vr_RepositoryID report = rq_RepositoryID request) &&
  bool_decide (rt_RepositoryID receipt = rq_RepositoryID request) &&
  bool_decide (vr_BaseCommit report = rq_BaseCommit request) &&
  bool_decide (rt_BaseCommit receipt = rq_BaseCommit request) &&
  bool_decide (rt_ResultCommit receipt = vr_ResultCommit report) &&
  bool_decide (rt_PatchSHA256 receipt = vr_PatchSHA256 report) &&
  bool_decide (rt_AuthorID receipt = rq_AuthorID request) &&
  bool_decide (vr_AuthorID report = rq_AuthorID request) &&
  bool_decide (rt_ValidatorID receipt = rq_ValidatorID request) &&
  bool_decide (vr_ValidatorID report = rq_ValidatorID request) &&
  bool_decide (rt_PublicationRef receipt = rq_PublicationRef request).

Definition ValidateDeliveryPublication (request : DeliveryRequest) (report : ValidationReport)
    (evidenceManifest : string) (receipt : DeliveryReceipt) : result unit :=
  _ ← wrapped "delivery request: %w" (ValidateDeliveryRequest request);
  _ ← wrapped "validation report: %w" (ValidateValidationReport report);
  _ ← validateDeliveryReceiptStructure receipt;
  _ ← fail_if (negb (bool_decide (vr_Status report = "passed")))
        (plain_error "published delivery requires a passing validation report");
  _ ← loop (λ _ id, fail_if (negb (did_pass (completed "configured" (vr_Checks report)) id))
        (ErrorString (Sprintf "approved mechanical validator %q did not pass" [id])))
        tt (default [] (rq_MechanicalValidatorIDs request));
  _ ← loop (λ _ id, fail_if (negb (did_pass (completed "built_in" (vr_Checks report)) id))
        (ErrorString (Sprintf "mandatory built-in check %q did not pass" [id])))
        tt mandatoryBuiltInCheckIDs;
  _ ← fail_if (negb (identities_agree request report receipt))
        (plain_error "delivery request, validation report, and receipt identities disagree");
  _ ← fail_if (negb (equalOptionalString (rt_PublicationPreviousCommit receipt)
                       (rq_PublicationPreviousCommit request)))
        (plain_error "publication previous commit disagrees with approved compare-and-swap state");
  _ ← fail_if (Before (rt_CreatedAt receipt) (vr_CreatedAt report))
        (plain_error "delivery receipt predates independent validation");
  _ ← loop (λ _ changed, fail_if (negb (coveredByScope changed (rq_WriteScopes request)))
        (ErrorString (Sprintf "changed path %q is outside approved write scopes" [changed])))
        tt (rt_ChangedPaths receipt);
  let '(reportPath, reportDigest, _) := Cut (rt_ValidationReportRef receipt) "#sha256=" in
  let '(manifestPath, manifestDigest, _) := Cut (rt_EvidenceManifestRef receipt) "#sha256=" in
  _ ← fail_if (negb (coveredByScope reportPath [rq_EvidenceScope request]) ||
               negb (coveredByScope manifestPath [rq_EvidenceScope request]))
        (plain_error "publication evidence is outside the approved evidence scope");
  canonicalReport ← wrapped "marshal canonical validation report: %w" (report_json report);
  _ ← fail_if (negb (bool_decide (reportDigest = sha256Hex canonicalReport)))
        (plain_error "validation report reference digest disagrees with canonical report");
  _ ← fail_if (negb (bool_decide (manifestDigest = sha256Hex evidenceManifest)))
        (plain_error "evidence manifest reference digest disagrees with manifest content");
  manifest ← decodeCanonicalEvidenceManifest evidenceManifest;
  _ ← fail_if (negb (bool_decide (mf_DeliveryID manifest = rq_DeliveryID request)) ||
               negb (bool_decide (mf_TenantID manifest = rq_TenantID request)) ||
               negb (bool_decide (mf_RepositoryID manifest = rq_RepositoryID request)))
        (plain_error "evidence manifest identifies another repository delivery");
  found ← loop (check_entry (rq_EvidenceScope request) manifestPath reportPath reportDigest
                  canonicalReport) false (mf_Entries manifest);
  _ ← fail_if (negb (sortedUnique (ee_Path <$> mf_Entries manifest)))
        (plain_error "evidence entries must be unique and byte-sorted by path");
  _ ← fail_if (negb found)
        (plain_error "evidence manifest does not contain the canonical validation report");
  fail_if (negb (bool_decide (fence_key <$> rt_LeaseFences receipt = ExpectedDeliveryFenceKeys request)))
    (plain_error "delivery lease fences disagree with the approved scope set").
End publication.
