(* ===== verification/Leases.v ===== *)
(** * Package [internal/postgres]: fenced leases ([leases.go])

    A lease row grants one resource to one owner until it expires; every
    takeover increments its fencing token. The file models the standalone
    lease operations on the tables they share with lease sets, and proves that
    no operation lets a token go back, that a superseded token is dead for
    ever, and that a live lease is never taken over. *)

From S2P Require Import Prelude GoLib Fault Postgres.

(** ** Data ([internal/persistence/model.go]) *)

Record LeaseKey := mkLeaseKey {
  k_TenantID : string;
  k_RepositoryID : string;
  k_ResourceType : string;
  k_ResourceID : string;
}.

#[export] Instance LeaseKey_eq_dec : EqDecision LeaseKey.
Proof. solve_decision. Defined.
#[export] Instance LeaseKey_countable : Countable LeaseKey.
Proof.
  refine (inj_countable' (λ k, (k_TenantID k, k_RepositoryID k, k_ResourceType k, k_ResourceID k))
    (λ '(a, b, c, d), mkLeaseKey a b c d) _). by intros [].
Defined.

Record LeaseProof := mkLeaseProof {
  lp_LeaseKey : LeaseKey; lp_OwnerID : string; lp_FencingToken : Z }.

Record Lease := mkLease {
  l_LeaseKey : LeaseKey;
  l_OwnerID : string;
  l_FencingToken : Z;
  l_AcquiredAt : Time;
  l_ExpiresAt : Time;
}.

(** ** Tables *)

(** A row of [forja.leases]. *)
Record LeaseRow := mkLeaseRow {
  row_owner : string;
  row_token : Z;
  row_acquired : Time;
  row_expires : Time;
  row_updated : Time;
}.

(** A row of [forja.lease_sets]. *)
Record LeaseSetRow := mkSetRow {
  set_owner : string;
  set_digest : string;
  set_state : string;
  set_acquired : Time;
  set_expires : Time;
  set_updated : Time;
  set_ttl_us : Z;
}.

(** Tenant, repository and lease set ID. *)
Definition SetKey : Type := string * string * string.

Record Tables := mkTables {
  leases : gmap LeaseKey LeaseRow;
  lease_sets : gmap SetKey LeaseSetRow;
  (** [forja.lease_set_members]: the fencing token of a set's resource. *)
  lease_set_members : gmap (SetKey * (string * string)) Z;
}.

Definition with_leases (f : gmap LeaseKey LeaseRow → gmap LeaseKey LeaseRow) (t : Tables) : Tables :=
  mkTables (f (leases t)) (lease_sets t) (lease_set_members t).
Definition with_sets (f : gmap SetKey LeaseSetRow → gmap SetKey LeaseSetRow) (t : Tables) : Tables :=
  mkTables (leases t) (f (lease_sets t)) (lease_set_members t).
Definition with_members
    (f : gmap (SetKey * (string * string)) Z → gmap (SetKey * (string * string)) Z)
    (t : Tables) : Tables :=
  mkTables (leases t) (lease_sets t) (f (lease_set_members t)).

(** The CHECK constraints and the bigint range of a lease row. *)
Definition lease_row_fault (row : LeaseRow) : option pgfault :=
  if (int_max <? row_token row)%Z then Some (PgError "22003")
  else if (row_token row <? 1)%Z || Before (row_expires row) (row_acquired row)
  then Some (PgError "23514") else None.

(** [time.Time]'s text, for messages only. *)
Class TimeText := time_String : Time → string.

(** ** Validation *)

Definition leaseTypes : list string := ["worker"; "scheduler"; "file"; "worktree"; "artifact"].
Definition deliveryLeaseTypes : list string := ["artifact"; "file"; "worktree"].

Definition validateLeaseKey (key : LeaseKey) (tenant repository : string) : result unit :=
  if bool_decide (k_TenantID key = "") || negb (bool_decide (k_TenantID key = tenant)) ||
     bool_decide (k_RepositoryID key = "") ||
     negb (bool_decide (k_RepositoryID key = repository)) ||
     (RuneCountInString (k_ResourceID key) <? 1)%Z ||
     (500 <? RuneCountInString (k_ResourceID key))%Z
  then Err (fault CodeInvalidArgument "postgres.validateLeaseKey"
    "lease authority must match the store and resource ID must contain at most 500 characters")
  else fail_if (negb (bool_decide (k_ResourceType key ∈ leaseTypes)))
    (fault CodeInvalidArgument "postgres.validateLeaseKey"
       "resource type must be worker, scheduler, file, worktree, or artifact").

Definition outside (lo hi : Z) (s : string) : bool :=
  (RuneCountInString s <? lo)%Z || (hi <? RuneCountInString s)%Z.

Definition validateLeaseInput (key : LeaseKey) (ownerID : string) (ttl : Z)
    (tenant repository : string) : result unit :=
  _ ← validateLeaseKey key tenant repository;
  if outside 1 500 ownerID
  then Err (fault CodeInvalidArgument "postgres.validateLeaseInput"
              "owner ID length must be between 1 and 500 characters")
  else fail_if ((ttl <? Millisecond)%Z || (24 * Hour <? ttl)%Z)
         (fault CodeInvalidArgument "postgres.validateLeaseInput"
            "lease TTL must be between one millisecond and 24 hours").

Definition validateStandaloneLeaseType (resourceType : string) : result unit :=
  fail_if (bool_decide (resourceType ∈ deliveryLeaseTypes))
    (fault CodeInvalidArgument "postgres.validateStandaloneLeaseType"
       "file, worktree, and artifact resources require atomic lease-set authority").

Definition bindLeaseKey (s : PgStore) (key : LeaseKey) : LeaseKey :=
  if bool_decide (k_RepositoryID key = "")
  then mkLeaseKey (k_TenantID key) (repositoryID s) (k_ResourceType key) (k_ResourceID key)
  else key.

Section leases.
Context `{Clock, Database, TimeText}.

Abbreviation Tx := (M error (DB Tables)).

(** The primary key the statements select by. *)
Definition row_key (s : PgStore) (key : LeaseKey) : LeaseKey :=
  mkLeaseKey (k_TenantID key) (repositoryID s) (k_ResourceType key) (k_ResourceID key).

Definition key_params (s : PgStore) (key : LeaseKey) : list string :=
  [k_TenantID key; repositoryID s; k_ResourceType key; k_ResourceID key].

Definition lease_of (key : LeaseKey) (row : LeaseRow) : Lease :=
  mkLease key (row_owner row) (row_token row) (UTC (row_acquired row)) (UTC (row_expires row)).

(** A row write that passes the table's constraints. *)
Definition put_lease (op : string) (k : LeaseKey) (row : LeaseRow) : Tx unit :=
  _ ← checked op (lease_row_fault row);
  write (with_leases <[k := row]>).

(** The shared lock on the table and the advisory lock on the resource. *)
Definition lockLeaseResource (s : PgStore) (key : LeaseKey) : Tx unit :=
  _ ← statement "postgres.lockLeaseResource.migration_barrier" [];
  statement "postgres.lockLeaseResource" [].

Definition getLeaseForUpdate (s : PgStore) (key : LeaseKey) : Tx (option (LeaseRow * bool)) :=
  _ ← statement "postgres.getLeaseForUpdate" (key_params s key);
  rows ← select leases;
  match rows !! row_key s key with
  | None => mret None
  | Some row =>
      now ← clock_timestamp;
      mret (Some (row, After (row_expires row) now))
  end.

(** The expiry of every active set that protects the resource under a token. *)
Definition protecting (key : LeaseKey) (token : Z) (t : Tables) : list Time :=
  omap (λ '((sk, res), tok),
    if bool_decide (sk.1 = (k_TenantID key, k_RepositoryID key)) &&
       bool_decide (res = (k_ResourceType key, k_ResourceID key)) && (tok =? token)%Z
    then match lease_sets t !! sk with
         | Some row => if bool_decide (set_state row = "active") then Some (set_expires row)
                       else None
         | None => None
         end
    else None) (map_to_list (lease_set_members t)).

Definition rejectActiveLeaseSetMember (key : LeaseKey) (token : Z) : Tx unit :=
  _ ← statement "postgres.rejectActiveLeaseSetMember"
        [k_TenantID key; k_RepositoryID key; k_ResourceType key; k_ResourceID key];
  expiries ← select (protecting key token);
  protected ← any_live expiries;
  if protected : bool
  then throw (fault CodeConflict "postgres.rejectActiveLeaseSetMember"
                "active lease-set members must be mutated through the set authority")
  else mret tt.

(** ** Operations *)

Definition VerifyLease (s : PgStore) (proof : LeaseProof) (minimumRemaining : Z) : Tx Lease :=
  let key := bindLeaseKey s (lp_LeaseKey proof) in
  _ ← lift (validateLeaseInput key (lp_OwnerID proof) Millisecond (tenantID s) (repositoryID s));
  _ ← lift (fail_if ((lp_FencingToken proof <? 1)%Z || (minimumRemaining <? 0)%Z ||
                     (24 * Hour <? minimumRemaining)%Z)
        (fault CodeInvalidArgument "postgres.VerifyLease"
           "positive fencing token and a bounded minimum horizon are required"));
  _ ← statement "postgres.VerifyLease" (lp_OwnerID proof :: key_params s key);
  rows ← select leases;
  now ← clock_timestamp;
  let stale := fault CodeConflict "postgres.VerifyLease"
    "lease is expired, replaced, or shorter than the required horizon" in
  match rows !! row_key s key with
  | Some row =>
      if bool_decide (row_owner row = lp_OwnerID proof) &&
         (row_token row =? lp_FencingToken proof)%Z &&
         After (row_expires row) (AddInterval now (interval (intervalString minimumRemaining)))
      then mret (lease_of key row) else throw stale
  | None => throw stale
  end.

(** The INSERT of [AcquireLease]; each [clock_timestamp()] is its own reading. *)
Definition insert_lease (op : string) (k : LeaseKey) (ownerID : string) (ttl : Z) : Tx LeaseRow :=
  t1 ← clock_timestamp; t2 ← clock_timestamp; t3 ← clock_timestamp;
  let row := mkLeaseRow ownerID 1 t1 (AddInterval t2 (interval (intervalString ttl))) t3 in
  _ ← put_lease op k row;
  mret row.

(** The UPDATE of [AcquireLease] that takes an expired lease over. *)
Definition takeover_lease (op : string) (k : LeaseKey) (ownerID : string) (ttl : Z)
    (current : LeaseRow) : Tx LeaseRow :=
  t1 ← clock_timestamp; t2 ← clock_timestamp; t3 ← clock_timestamp;
  let row := mkLeaseRow ownerID (row_token current + 1)%Z t1
    (AddInterval t2 (interval (intervalString ttl))) t3 in
  _ ← put_lease op k row;
  mret row.

Definition grantLease (s : PgStore) (key : LeaseKey) (ownerID : string) (ttl : Z) : Tx LeaseRow :=
  found ← getLeaseForUpdate s key;
  match found with
  | None =>
      _ ← statement "postgres.AcquireLease.write" (ownerID :: key_params s key);
      insert_lease "postgres.AcquireLease.write" (row_key s key) ownerID ttl
  | Some (current, active) =>
      if (active : bool) && negb (bool_decide (row_owner current = ownerID))
      then throw (New CodeConflict "postgres.AcquireLease"
             (Sprintf "lease is owned by %s until %s"
                [row_owner current; time_String (UTC (row_expires current))]))
      else if active then mret current
      else
        _ ← statement "postgres.AcquireLease.write" (ownerID :: key_params s key);
        takeover_lease "postgres.AcquireLease.write" (row_key s key) ownerID ttl current
  end.

Definition AcquireLease (s : PgStore) (key0 : LeaseKey) (ownerID : string) (ttl : Z) : Tx Lease :=
  let key := bindLeaseKey s key0 in
  _ ← lift (validateStandaloneLeaseType (k_ResourceType key));
  _ ← lift (validateLeaseInput key ownerID ttl (tenantID s) (repositoryID s));
  atomically (
    _ ← statement "postgres.AcquireLease.begin" [];
    _ ← lockLeaseResource s key;
    row ← grantLease s key ownerID ttl;
    _ ← statement "postgres.AcquireLease.commit" [];
    mret (lease_of key row)).

(** [UPDATE ... WHERE owner_id AND fencing_token AND expires_at > clock_timestamp()]:
    [change] computes the new row; the result tells whether a row matched. *)
Definition update_live_lease (op : string) (k : LeaseKey) (ownerID : string) (token : Z)
    (change : LeaseRow → Tx LeaseRow) : Tx (option LeaseRow) :=
  rows ← select leases;
  now ← clock_timestamp;
  match rows !! k with
  | Some row =>
      if bool_decide (row_owner row = ownerID) && (row_token row =? token)%Z &&
         After (row_expires row) now
      then row' ← change row; _ ← put_lease op k row'; mret (Some row')
      else mret None
  | None => mret None
  end.

Definition RenewLease (s : PgStore) (key0 : LeaseKey) (ownerID : string) (token ttl : Z)
    : Tx Lease :=
  let key := bindLeaseKey s key0 in
  _ ← lift (validateLeaseInput key ownerID ttl (tenantID s) (repositoryID s));
  _ ← lift (fail_if (token <? 1)%Z
        (fault CodeInvalidArgument "postgres.RenewLease" "fencing token must be positive"));
  atomically (
    _ ← statement "postgres.RenewLease.begin" [];
    _ ← lockLeaseResource s key;
    _ ← rejectActiveLeaseSetMember key token;
    _ ← statement "postgres.RenewLease" (ownerID :: key_params s key);
    updated ← update_live_lease "postgres.RenewLease" (row_key s key) ownerID token (λ row,
      t1 ← clock_timestamp; t2 ← clock_timestamp;
      mret (mkLeaseRow (row_owner row) (row_token row) (row_acquired row)
              (AddInterval t1 (interval (intervalString ttl))) t2));
    match updated with
    | None => throw (fault CodeConflict "postgres.RenewLease"
                       "lease is expired, replaced, or owned by another worker")
    | Some row =>
        _ ← statement "postgres.RenewLease.commit" [];
        mret (lease_of key row)
    end).

Definition ReleaseLease (s : PgStore) (key0 : LeaseKey) (ownerID : string) (token : Z) : Tx unit :=
  let key := bindLeaseKey s key0 in
  _ ← lift (validateLeaseKey key (tenantID s) (repositoryID s));
  _ ← lift (fail_if (bool_decide (ownerID = "") || (token <? 1)%Z)
        (fault CodeInvalidArgument "postgres.ReleaseLease"
           "owner ID and positive fencing token are required"));
  atomically (
    _ ← statement "postgres.ReleaseLease.begin" [];
    _ ← lockLeaseResource s key;
    _ ← rejectActiveLeaseSetMember key token;
    _ ← statement "postgres.ReleaseLease" (ownerID :: key_params s key);
    updated ← update_live_lease "postgres.ReleaseLease" (row_key s key) ownerID token (λ row,
      t1 ← clock_timestamp; t2 ← clock_timestamp;
      mret (mkLeaseRow (row_owner row) (row_token row) (row_acquired row)
              (Greatest t1 (row_acquired row)) t2));
    match updated with
    | None => throw (fault CodeConflict "postgres.ReleaseLease"
                       "lease is expired, replaced, or owned by another worker")
    | Some _ => statement "postgres.ReleaseLease.commit" []
    end).
End leases.

(** ** What an operation may do to a row

    [granted]: nothing, a first grant, or a takeover of a row that had expired
    at one of the clock readings [i .. j-1], under a larger token. [touched]:
    nothing, or a change of the expiry of a row that was live at one of them. *)

Section effects.
Context `{Clock, Database, TimeText}.
Abbreviation Tx := (M error (DB Tables)).

Definition granted (i j : nat) (o o' : option LeaseRow) : Prop :=
  o' = o ∨ ∃ r', o' = Some r' ∧ (1 ≤ row_token r')%Z ∧
    ∀ r, o = Some r → (row_token r < row_token r')%Z ∧
      ∃ n, i ≤ n < j ∧ (instant (row_expires r) ≤ instant (clock_reading n))%Z.

Definition touched (i j : nat) (o o' : option LeaseRow) : Prop :=
  o' = o ∨ ∃ r r', o = Some r ∧ o' = Some r' ∧ row_owner r' = row_owner r ∧
    row_token r' = row_token r ∧ row_acquired r' = row_acquired r ∧
    ∃ n, i ≤ n < j ∧ (instant (clock_reading n) < instant (row_expires r))%Z.

Definition obeys (R : nat → nat → option LeaseRow → option LeaseRow → Prop)
    {A} (m : Tx A) : Prop :=
  ∀ s r s', m s = (r, s') → readings s ≤ readings s' ∧
    ∀ k, R (readings s) (readings s') (leases (tables s) !! k) (leases (tables s') !! k).

(** Relations that compose along consecutive reading intervals. *)
Class Composes (R : nat → nat → option LeaseRow → option LeaseRow → Prop) : Prop := {
  composes_refl i j o : R i j o o;
  composes_trans a b c x y z : a ≤ b → b ≤ c → R a b x y → R b c y z → R a c x z;
}.

#[export] Instance granted_composes : Composes granted.
Proof.
  split; [by left|]. intros a b c x y z Hab Hbc [->|(r1 & -> & Hr1 & Hxy)]
    [->|(r2 & -> & Hr2 & Hyz)].
  - by left.
  - right. exists r2. split_and!; [done..|]. intros r Hr.
    destruct (Hyz r Hr) as (? & n & ? & ?). split; [done|]. exists n. split; [lia|done].
  - right. exists r1. split_and!; [done..|]. intros r Hr.
    destruct (Hxy r Hr) as (? & n & ? & ?). split; [done|]. exists n. split; [lia|done].
  - right. exists r2. split_and!; [done..|]. intros r Hr.
    destruct (Hxy r Hr) as (? & n & ? & ?). destruct (Hyz r1 eq_refl) as (? & _).
    split; [lia|]. exists n. split; [lia|done].
Qed.

#[export] Instance touched_composes : Composes touched.
Proof.
  split; [by left|]. intros a b c x y z Hab Hbc [->|Hxy] [->|Hyz].
  - by left.
  - right. destruct Hyz as (r & r' & ? & ? & ? & ? & ? & n & ? & ?).
    exists r, r'. split_and!; [done..|]. exists n. split; [lia|done].
  - right. destruct Hxy as (r & r' & ? & ? & ? & ? & ? & n & ? & ?).
    exists r, r'. split_and!; [done..|]. exists n. split; [lia|done].
  - right. destruct Hxy as (r & r1 & ? & Hy & ? & ? & ? & n & ? & ?).
    destruct Hyz as (r1' & r' & Hy' & ? & ? & ? & ? & _).
    assert (r1' = r1) as -> by congruence.
    exists r, r'. split_and!; [done..|congruence|congruence|congruence|].
    exists n. split; [lia|done].
Qed.

Section composition.
Context R `{!Composes R}.

Lemma obeys_reader {A} (m : Tx A) : reader m → obeys R m.
Proof.
  intros Hm s r s' Hrun. destruct (Hm _ _ _ Hrun) as [Ht Hn]. split; [done|].
  intros k. rewrite Ht. apply composes_refl.
Qed.

Lemma obeys_bind {A B} (m : Tx A) (k : A → Tx B) :
  obeys R m → (∀ a, obeys R (k a)) → obeys R (m ≫= k).
Proof.
  intros Hm Hk s r s'. rewrite M_bind_run. destruct (m s) as [[a|e] s1] eqn:Hms;
    destruct (Hm _ _ _ Hms) as [Hn HR].
  - intros Hrun. destruct (Hk _ _ _ _ Hrun) as [Hn' HR']. split; [lia|].
    intros key. by eapply composes_trans.
  - by intros [= _ <-].
Qed.

Lemma obeys_atomically {A} (m : Tx A) : obeys R m → obeys R (atomically m).
Proof.
  intros Hm s r s'. unfold atomically. destruct (m s) as [[a|e] s1] eqn:Hms;
    destruct (Hm _ _ _ Hms) as [Hn HR]; intros [= _ <-]; [done|].
  split; [done|]. intros k. apply composes_refl.
Qed.
End composition.

(** ** Single statements *)

Lemma put_lease_run op k row s r s' :
  put_lease op k row s = (r, s') →
  readings s' = readings s ∧
  ((is_ok r = false ∧ tables s' = tables s) ∨
   (is_ok r = true ∧ (1 ≤ row_token row)%Z ∧ tables s' = with_leases <[k := row]> (tables s))).
Proof.
  unfold put_lease, checked. rewrite M_bind_run. unfold lease_row_fault.
  destruct (_ <? _)%Z; [intros [= <- <-]; auto|].
  destruct (_ || _) eqn:Hc; intros [= <- <-]; [auto|]. bool_prop. split; [done|right].
  split_and!; [done|lia|done].
Qed.

Lemma getLeaseForUpdate_run s key st o st' :
  getLeaseForUpdate s key st = (Ok o, st') →
  tables st' = tables st ∧ readings st ≤ readings st' ∧
  match o with
  | None => leases (tables st) !! row_key s key = None ∧ readings st' = readings st
  | Some (row, active) =>
      leases (tables st) !! row_key s key = Some row ∧ readings st' = S (readings st) ∧
      active = After (row_expires row) (clock_reading (readings st))
  end.
Proof.
  unfold getLeaseForUpdate. rewrite M_bind_run.
  destruct (statement _ _ st) as [[u|e] st1] eqn:Hst; [|done].
  assert (tables st1 = tables st ∧ readings st1 = readings st) as [Ht Hr].
  { revert Hst. unfold statement. destruct (db_fault _); [done|]. case_match; by intros [= _ <-]. }
  rewrite M_bind_run. cbn. rewrite Ht. destruct (leases _ !! _) as [row|].
  - intros [= <- <-]. cbn. rewrite Ht, Hr. split_and!; [done|lia|done..].
  - intros [= <- <-]. rewrite Hr. by split_and!.
Qed.

Lemma update_live_lease_run op k ownerID token change st r st' :
  (∀ row, reader (change row)) →
  update_live_lease op k ownerID token change st = (r, st') →
  S (readings st) ≤ readings st' ∧
  ((is_ok r = false ∧ tables st' = tables st) ∨ (r = Ok None ∧ tables st' = tables st) ∨
   ∃ row row' s1 s2, r = Ok (Some row') ∧ leases (tables st) !! k = Some row ∧
     row_owner row = ownerID ∧ row_token row = token ∧
     (instant (clock_reading (readings st)) < instant (row_expires row))%Z ∧
     change row s1 = (Ok row', s2) ∧
     tables st' = with_leases <[k := row']> (tables st)).
Proof.
  intros Hch. unfold update_live_lease. rewrite !M_bind_run. cbn. rewrite M_bind_run. cbn.
  destruct (leases _ !! k) as [row|] eqn:Hrow; [|intros [= <- <-]; cbn; split; [lia|auto]].
  destruct (_ && _ && _) eqn:Hg; [|intros [= <- <-]; cbn; split; [lia|auto]].
  rewrite M_bind_run. destruct (change row _) as [[row'|e] s1] eqn:Hc;
    destruct (Hch _ _ _ _ Hc) as [Ht Hn]; cbn in Ht, Hn;
    [|intros [= <- <-]; split; [lia|auto]].
  rewrite M_bind_run. destruct (put_lease op k row' s1) as [[u|e] s2] eqn:Hput;
    apply put_lease_run in Hput as [Hr [[Hok Ht2]|(Hok & _ & Ht2)]]; try done;
    intros [= <- <-]; (split; [lia|]).
  - right; right. bool_prop. destruct Hg as [[Ho Hk] Ha]. unfold After in Ha. bool_prop.
    exists row, row'. eexists _, s1. rewrite Ht2, Ht. split_and!; done.
  - left. by rewrite Ht2.
Qed.

Lemma update_live_lease_touched op k ownerID token change :
  (∀ row, reader (change row)) →
  (∀ row s row' s', change row s = (Ok row', s') → row_owner row' = row_owner row ∧
     row_token row' = row_token row ∧ row_acquired row' = row_acquired row) →
  obeys touched (update_live_lease op k ownerID token change).
Proof.
  intros Hrd Hch s r s' Hrun.
  apply (update_live_lease_run _ _ _ _ _ _ _ _ Hrd) in Hrun as [Hn [[_ Ht]|[[_ Ht]|Hrun]]];
    [split; [lia|]; intros k0; rewrite Ht; by left..|].
  destruct Hrun as (row & row' & s1 & s2 & _ & Hrow & _ & _ & Hlive & Hc & Ht).
  split; [lia|]. intros k0. rewrite Ht. cbn. rewrite lookup_insert. case_decide; [|by left].
  subst k0. right. exists row, row'. destruct (Hch _ _ _ _ Hc) as (? & ? & ?).
  split_and!; [done..|]. exists (readings s). split; [lia|done].
Qed.
End effects.

(** Composition of operations from obeying parts and reads. *)
Ltac obeying R := repeat first
  [ progress (intros; cbn beta zeta)
  | solve [eauto 2 with forja_parts]
  | apply (obeys_reader R); solve [auto 1 with forja_parts]
  | apply (obeys_atomically R)
  | apply (obeys_bind R)
  | apply (obeys_reader R); solve [reading; eauto 2 with forja_parts]
  | case_match ].

(** ** The operations *)

Section operations.
Context `{Clock, Database, TimeText}.

Lemma lockLeaseResource_reader s key : reader (lockLeaseResource s key).
Proof. unfold lockLeaseResource. reading. Qed.
Lemma rejectActive_reader key token : reader (rejectActiveLeaseSetMember key token).
Proof. unfold rejectActiveLeaseSetMember. reading. Qed.
Lemma getLeaseForUpdate_reader s key : reader (getLeaseForUpdate s key).
Proof. unfold getLeaseForUpdate. reading. Qed.
Lemma VerifyLease_reader s proof minimum : reader (VerifyLease s proof minimum).
Proof. unfold VerifyLease. reading. Qed.

(** What a row write leaves of the lookups. *)
Lemma lookup_put k row t k' :
  leases (with_leases <[k := row]> t) !! k' =
  if decide (k = k') then Some row else leases t !! k'.
Proof. cbn. apply lookup_insert. Qed.

(** Both writes of [AcquireLease]: three readings, then the row. *)
Lemma new_lease_run op k ownerID ttl token st r st' :
  (t1 ← clock_timestamp; t2 ← clock_timestamp; t3 ← clock_timestamp;
   let row := mkLeaseRow ownerID token t1 (AddInterval t2 (interval (intervalString ttl))) t3 in
   _ ← put_lease op k row; mret row) st = (r, st') →
  readings st' = readings st + 3 ∧
  ((is_ok r = false ∧ tables st' = tables st) ∨
   ∃ row, r = Ok row ∧ row_owner row = ownerID ∧ row_token row = token ∧ (1 ≤ token)%Z ∧
     row_acquired row = clock_reading (readings st) ∧
     tables st' = with_leases <[k := row]> (tables st)).
Proof.
  rewrite !M_bind_run. cbn. rewrite !M_bind_run. cbn. rewrite !M_bind_run. cbn.
  rewrite M_bind_run. destruct (put_lease op k _ _) as [[u|e] s2] eqn:Hput;
    apply put_lease_run in Hput as [Hr [[Hok Ht2]|(Hok & Htok & Ht2)]]; try done;
    intros [= <- <-]; cbn in Hr; (split; [lia|]).
  - right. eexists. by split_and!.
  - left. by rewrite Ht2.
Qed.

Lemma grantLease_granted s key ownerID ttl : obeys granted (grantLease s key ownerID ttl).
Proof.
  intros st r st'. unfold grantLease. rewrite M_bind_run.
  destruct (getLeaseForUpdate s key st) as [[o|e] s1] eqn:Hget.
  2: { intros [= _ <-]. by apply (obeys_reader _ _ (getLeaseForUpdate_reader s key) _ _ _ Hget). }
  apply getLeaseForUpdate_run in Hget as (Ht1 & Hn1 & Ho).
  destruct o as [[row active]|].
  - destruct Ho as (Hrow & Hn & ->).
    destruct (_ && _); [intros [= _ <-]; split; [done|]; intros k; rewrite Ht1; by left|].
    destruct (After _ _) eqn:Ha; [intros [= _ <-]; split; [done|]; intros k; rewrite Ht1; by left|].
    rewrite M_bind_run. destruct (statement _ _ s1) as [[u|e] s2] eqn:Hst;
      apply reader_statement in Hst as [Ht2 Hn2];
      [|intros [= _ <-]; split; [lia|]; intros k; rewrite Ht2, Ht1; by left].
    intros [Hn3 [[_ Ht3]|(row' & _ & _ & Htok & Hpos & _ & Ht3)]]%new_lease_run;
      (split; [lia|]; intros k; rewrite Ht3).
    + rewrite Ht2, Ht1. by left.
    + rewrite lookup_put, Ht2, Ht1. case_decide; [|by left]. subst k. right. exists row'.
      split_and!; [done|lia|]. intros r0. rewrite Hrow. intros [= <-].
      split; [lia|]. exists (readings st). split; [lia|]. unfold After in Ha. bool_prop. lia.
  - destruct Ho as (Hrow & Hn). rewrite M_bind_run.
    destruct (statement _ _ s1) as [[u|e] s2] eqn:Hst; apply reader_statement in Hst as [Ht2 Hn2];
      [|intros [= _ <-]; split; [lia|]; intros k; rewrite Ht2, Ht1; by left].
    intros [Hn3 [[_ Ht3]|(row' & _ & _ & Htok & Hpos & _ & Ht3)]]%new_lease_run;
      (split; [lia|]; intros k; rewrite Ht3).
    + rewrite Ht2, Ht1. by left.
    + rewrite lookup_put, Ht2, Ht1. case_decide; [|by left]. subst k. right. exists row'.
      split_and!; [done|lia|]. rewrite Hrow. done.
Qed.

#[local] Hint Resolve grantLease_granted : forja_parts.
#[local] Hint Resolve lockLeaseResource_reader rejectActive_reader getLeaseForUpdate_reader : forja_parts.

Lemma AcquireLease_granted s key ownerID ttl : obeys granted (AcquireLease s key ownerID ttl).
Proof. unfold AcquireLease. obeying granted. Qed.

Lemma RenewLease_touched s key ownerID token ttl :
  obeys touched (RenewLease s key ownerID token ttl).
Proof.
  assert (∀ op k, obeys touched (update_live_lease op k ownerID token (λ row,
    t1 ← clock_timestamp; t2 ← clock_timestamp;
    mret (mkLeaseRow (row_owner row) (row_token row) (row_acquired row)
            (AddInterval t1 (interval (intervalString ttl))) t2)))) as Hup.
  { intros op k. apply update_live_lease_touched; [reading|]. by intros row ? row' ? [= <- _]. }
  unfold RenewLease. obeying touched.
Qed.

Lemma ReleaseLease_touched s key ownerID token :
  obeys touched (ReleaseLease s key ownerID token).
Proof.
  assert (∀ op k, obeys touched (update_live_lease op k ownerID token (λ row,
    t1 ← clock_timestamp; t2 ← clock_timestamp;
    mret (mkLeaseRow (row_owner row) (row_token row) (row_acquired row)
            (Greatest t1 (row_acquired row)) t2)))) as Hup.
  { intros op k. apply update_live_lease_touched; [reading|]. by intros row ? row' ? [= <- _]. }
  unfold ReleaseLease. obeying touched.
Qed.
End operations.

#[export] Hint Resolve lockLeaseResource_reader rejectActive_reader getLeaseForUpdate_reader
  : forja_parts.
