(* ===== verification/LeaseSets.v ===== *)
(** * Package [internal/postgres]: atomic lease sets ([lease_sets.go])

    A lease set grants a worktree and a collection of file and artifact scopes
    in one transaction. Scopes are expanded to their ancestors, so that two
    sets that could write the same path compete for a common resource. The
    members are canonicalised in byte order, whatever order the database
    returns them in. *)

From S2P Require Import Prelude GoLib Fault Identity LeasePaths Postgres DeliveryContracts Leases.
From Stdlib Require Import Ascii.

(** ** Data *)

Record LeaseSet := mkLeaseSet {
  ls_LeaseSetID : string;
  ls_OwnerID : string;
  ls_Leases : list Lease;
  ls_AcquiredAt : Time;
  ls_ExpiresAt : Time;
}.

Record storedLeaseSet := mkStored {
  st_row : LeaseSetRow;
  st_authorizedTTL : Z;
  st_databaseNow : Time;
}.

Record storedLeaseSetMember := mkStoredMember { sm_lease : Lease; sm_updatedAt : Time }.

(** [ORDER BY resource_type, resource_id] follows the database's collation. *)
Class Collation := collation_le : string * string → string * string → bool.

(** ** Keys: order, digest, locks *)

Definition keyText (key : LeaseKey) : string := k_ResourceType key +:+ NUL +:+ k_ResourceID key.

Definition compareLeaseKeys (left right : LeaseKey) : Z :=
  match String.compare (keyText left) (keyText right) with Lt => -1 | Gt => 1 | Eq => 0 end.

(** [slices.SortFunc] with a comparison on a key of the elements. *)
Definition keys_le {A} (key : A → LeaseKey) (a b : A) : Prop :=
  (compareLeaseKeys (key a) (key b) ≤ 0)%Z.
#[export] Instance keys_le_dec {A} (key : A → LeaseKey) : RelDecision (keys_le key).
Proof. unfold keys_le. intros a b. apply _. Defined.

Definition SortBy {A} (key : A → LeaseKey) (l : list A) : list A := merge_sort (keys_le key) l.

(** The bytes [leaseMemberDigest] writes to the hash. *)
Fixpoint memberBytes (keys : list LeaseKey) : string :=
  match keys with
  | [] => ""
  | key :: rest => keyText key +:+ String (chr 10) (memberBytes rest)
  end.

Definition leaseMemberDigest `{Sha256} (keys : list LeaseKey) : string :=
  Sum256 (memberBytes keys).

Definition writable (resourceType : string) : bool :=
  bool_decide (resourceType = "file") || bool_decide (resourceType = "artifact").

(** The names of the advisory locks, in the order they are taken. *)
Definition lockNames (s : PgStore) (leaseSetID : string) (keys : list LeaseKey) : list string :=
  merge_sort String.le
    ((tenantID s +:+ NUL +:+ repositoryID s +:+ NUL +:+ "lease-set" +:+ NUL +:+ leaseSetID) ::
     mjoin ((λ key,
       (k_TenantID key +:+ NUL +:+ repositoryID s +:+ NUL +:+ k_ResourceType key +:+ NUL +:+
          k_ResourceID key) ::
       (if writable (k_ResourceType key)
        then [k_TenantID key +:+ NUL +:+ repositoryID s +:+ NUL +:+ "writable-path" +:+ NUL +:+
                k_ResourceID key]
        else [])) <$> keys)).

(** ** Validation *)

(** The local variables of the loop of [validateLeaseSetInput]. *)
Record expansion := mkExpansion {
  x_normalized : list LeaseKey;
  x_seenInput : gset string;
  x_seenNormalized : gset string;
  x_declaredWritable : list LeaseKey;
  x_worktreeCount : Z;
}.

Definition with_resource (key : LeaseKey) (resourceID : string) : LeaseKey :=
  mkLeaseKey (k_TenantID key) (k_RepositoryID key) (k_ResourceType key) resourceID.

(** The inner loop over the resource IDs a key expands to. *)
Fixpoint expand (key : LeaseKey) (resourceIDs : list string)
    (acc : list LeaseKey * gset string) : list LeaseKey * gset string :=
  match resourceIDs with
  | [] => acc
  | resourceID :: rest =>
      let expanded := with_resource key resourceID in
      expand key rest
        (if bool_decide (keyText expanded ∈ acc.2) then acc
         else (acc.1 ++ [expanded], {[keyText expanded]} ∪ acc.2))
  end.

Section sets.
Context `{Clock, Database, TimeText, Sha256, Collation}.

Abbreviation Tx := (M error (DB Tables)).

(** One iteration of the loop of [validateLeaseSetInput]. *)
Definition expandKey (s : PgStore) (x : expansion) (input : LeaseKey) : result expansion :=
  let key := bindLeaseKey s input in
  _ ← validateLeaseKey key (tenantID s) (repositoryID s);
  _ ← fail_if (negb (bool_decide (k_ResourceType key ∈ deliveryLeaseTypes)))
        (invalidLeaseSetError "lease sets may contain only file, worktree, and artifact resources");
  let worktrees := if bool_decide (k_ResourceType key = "worktree")
                   then (x_worktreeCount x + 1)%Z else x_worktreeCount x in
  _ ← fail_if (bool_decide (keyText key ∈ x_seenInput x))
        (invalidLeaseSetError "lease set resources must be unique");
  let seenInput := {[keyText key]} ∪ x_seenInput x in
  '(declared, resourceIDs) ←
    (if writable (k_ResourceType key) then
       _ ← validateLeaseScopePath (k_ResourceID key);
       _ ← fail_if (existsb (λ previous,
               negb (bool_decide (k_ResourceType previous = k_ResourceType key)) &&
               leaseScopesOverlap (k_ResourceID previous) (k_ResourceID key))
               (x_declaredWritable x))
             (invalidLeaseSetError "file and artifact lease scopes must not overlap");
       mret (x_declaredWritable x ++ [key], leaseScopeAndAncestors (k_ResourceID key))
     else mret (x_declaredWritable x, [k_ResourceID key]));
  let '(normalized, seenNormalized) :=
    expand key resourceIDs (x_normalized x, x_seenNormalized x) in
  mret (mkExpansion normalized seenInput seenNormalized declared worktrees).

Fixpoint expandKeys (s : PgStore) (x : expansion) (keys : list LeaseKey) : result expansion :=
  match keys with
  | [] => mret x
  | key :: rest => x' ← expandKey s x key; expandKeys s x' rest
  end.

Definition boundedID (value : string) (message : string) : result unit :=
  fail_if ((RuneCountInString value <? 1)%Z || (500 <? RuneCountInString value)%Z)
    (invalidLeaseSetError message).

Definition validateLeaseSetInput (s : PgStore) (leaseSetID : string) (keys : list LeaseKey)
    (ownerID : string) (ttl : Z) : result (list LeaseKey * string) :=
  _ ← boundedID leaseSetID "lease set ID length must be between 1 and 500 characters";
  _ ← boundedID ownerID "owner ID length must be between 1 and 500 characters";
  _ ← fail_if ((ttl <? Millisecond)%Z || (24 * Hour <? ttl)%Z ||
               negb (ttl `rem` Microsecond =? 0)%Z)
        (invalidLeaseSetError "lease TTL must be a whole number of microseconds between one millisecond and 24 hours");
  _ ← fail_if ((length keys <? 1)%nat || (1024 <? length keys)%nat)
        (invalidLeaseSetError "lease set must contain between 1 and 1024 resources");
  x ← expandKeys s (mkExpansion [] ∅ ∅ [] 0) keys;
  _ ← fail_if (negb (x_worktreeCount x =? 1)%Z)
        (invalidLeaseSetError "lease set requires exactly one worktree resource");
  _ ← fail_if (1024 <? length (x_normalized x))%nat
        (invalidLeaseSetError "expanded lease set exceeds 1024 resources");
  let normalized := SortBy id (x_normalized x) in
  mret (normalized, leaseMemberDigest normalized).

(** The loop of [validateLeaseSetProof]: the keys in order and the proofs by key. *)
Fixpoint collectProofs (s : PgStore) (leases0 : list Lease) (keys : list LeaseKey)
    (proofByKey : gmap string Lease) (worktreeCount : Z)
    : result (list LeaseKey * gmap string Lease * Z) :=
  match leases0 with
  | [] => mret (keys, proofByKey, worktreeCount)
  | lease :: rest =>
      let key := bindLeaseKey s (l_LeaseKey lease) in
      _ ← validateLeaseKey key (tenantID s) (repositoryID s);
      _ ← fail_if (negb (bool_decide (k_ResourceType key ∈ deliveryLeaseTypes)))
            (invalidLeaseSetError "lease set proofs may contain only file, worktree, and artifact resources");
      _ ← (if writable (k_ResourceType key) then validateLeaseScopePath (k_ResourceID key)
           else mret tt);
      let worktrees := if bool_decide (k_ResourceType key = "worktree")
                       then (worktreeCount + 1)%Z else worktreeCount in
      match proofByKey !! keyText key with
      | Some _ => Err (invalidLeaseSetError "lease set proof resources must be unique")
      | None => collectProofs s rest (keys ++ [key]) (<[keyText key := lease]> proofByKey) worktrees
      end
  end.

Definition zeroLease : Lease := mkLease (mkLeaseKey "" "" "" "") "" 0 zero_time zero_time.

Definition rekey (proof : Lease) (key : LeaseKey) : Lease :=
  mkLease key (l_OwnerID proof) (l_FencingToken proof) (l_AcquiredAt proof) (l_ExpiresAt proof).

Fixpoint orderProofs (proofByKey : gmap string Lease) (keys : list LeaseKey)
    : result (list Lease) :=
  match keys with
  | [] => mret []
  | key :: rest =>
      let proof := default zeroLease (proofByKey !! keyText key) in
      _ ← fail_if (l_FencingToken proof <? 1)%Z
            (invalidLeaseSetError "all lease set fencing tokens must be positive");
      proofs ← orderProofs proofByKey rest;
      mret (rekey proof key :: proofs)
  end.

Definition validateLeaseSetProof (s : PgStore) (leaseSet : LeaseSet) (ttl : Z)
    : result (list LeaseKey * list Lease * string) :=
  _ ← boundedID (ls_LeaseSetID leaseSet) "lease set ID length must be between 1 and 500 characters";
  _ ← boundedID (ls_OwnerID leaseSet) "owner ID length must be between 1 and 500 characters";
  _ ← fail_if ((ttl <? Millisecond)%Z || (24 * Hour <? ttl)%Z)
        (invalidLeaseSetError "lease TTL must be between one millisecond and 24 hours");
  _ ← fail_if ((length (ls_Leases leaseSet) <? 1)%nat || (1024 <? length (ls_Leases leaseSet))%nat)
        (invalidLeaseSetError "lease set proof must contain between 1 and 1024 resources");
  '(keys0, proofByKey, worktreeCount) ← collectProofs s (ls_Leases leaseSet) [] ∅ 0;
  _ ← fail_if (negb (worktreeCount =? 1)%Z)
        (invalidLeaseSetError "lease set proof requires exactly one worktree resource");
  let keys := SortBy id keys0 in
  proofs ← orderProofs proofByKey keys;
  mret (keys, proofs, leaseMemberDigest keys).

(** ** Statements *)

Definition setKey (s : PgStore) (leaseSetID : string) : SetKey :=
  (tenantID s, repositoryID s, leaseSetID).

Definition set_params (s : PgStore) (leaseSetID : string) : list string :=
  [tenantID s; repositoryID s; leaseSetID].

Fixpoint takeLocks (names : list string) : Tx unit :=
  match names with
  | [] => mret tt
  | _ :: rest => _ ← statement "postgres.lockLeaseSetAndMembers" []; takeLocks rest
  end.

Definition lockLeaseSetAndMembers (s : PgStore) (leaseSetID : string) (keys : list LeaseKey)
    : Tx unit :=
  _ ← statement "postgres.lockLeaseSetAndMembers.migration_barrier" [];
  takeLocks (lockNames s leaseSetID keys).

Definition loadLeaseSetForUpdate (s : PgStore) (leaseSetID : string) : Tx (option storedLeaseSet) :=
  _ ← statement "postgres.loadLeaseSetForUpdate" (set_params s leaseSetID);
  sets ← select lease_sets;
  match sets !! setKey s leaseSetID with
  | None => mret None
  | Some row =>
      now ← clock_timestamp;
      mret (Some (mkStored row (wrap64 (set_ttl_us row * Microsecond)) now))
  end.

Definition collation_order (a b : (string * string) * Z) : Prop := collation_le a.1 b.1 = true.
#[export] Instance collation_order_dec : RelDecision collation_order.
Proof. unfold collation_order. intros a b. apply _. Defined.

(** The members of a set, in the order of the database's collation. *)
Definition memberRows (s : PgStore) (leaseSetID : string) (t : Tables)
    : list ((string * string) * Z) :=
  merge_sort collation_order
    (omap (λ '((sk, res), token),
       if bool_decide (sk = setKey s leaseSetID) then Some (res, token) else None)
       (map_to_list (lease_set_members t))).

Definition resource_key (s : PgStore) (res : string * string) : LeaseKey :=
  mkLeaseKey (tenantID s) (repositoryID s) res.1 res.2.

(** The row loop of [loadAndVerifyLeaseSetMembers] over the join with the leases. *)
Fixpoint scanMembers (s : PgStore) (ownerID : string) (rows : list ((string * string) * Z))
    (members : list storedLeaseSetMember) : Tx (list storedLeaseSetMember) :=
  match rows with
  | [] => mret members
  | (res, memberToken) :: rest =>
      live ← select leases;
      match live !! resource_key s res with
      | None => scanMembers s ownerID rest members
      | Some row =>
          now ← clock_timestamp;
          if negb (After (row_expires row) now) || negb (bool_decide (row_owner row = ownerID)) ||
             negb (row_token row =? memberToken)%Z
          then throw (conflictError "postgres.loadAndVerifyLeaseSetMembers"
                        "lease set member is stale or replaced")
          else scanMembers s ownerID rest
                 (members ++ [mkStoredMember (lease_of (resource_key s res) row)
                                (UTC (row_updated row))])
      end
  end.

(** The final loop over the indexes of [keys]. *)
Fixpoint matchMembers (keys : list LeaseKey) (members : list storedLeaseSetMember)
    (expectedProofs : option (list Lease)) : result unit :=
  match keys, members with
  | key :: keys', member :: members' =>
      _ ← fail_if (negb (bool_decide (l_LeaseKey (sm_lease member) = key)))
            (conflictError "postgres.loadAndVerifyLeaseSetMembers"
               "lease set membership disagrees with authority");
      match expectedProofs with
      | None => matchMembers keys' members' None
      | Some proofs =>
          _ ← fail_if (negb (l_FencingToken (sm_lease member) =?
                             default 0 (l_FencingToken <$> head proofs))%Z)
                (conflictError "postgres.loadAndVerifyLeaseSetMembers"
                   "lease set fencing proof is stale");
          matchMembers keys' members' (Some (tail proofs))
      end
  | _, _ => mret tt
  end.

Definition loadAndVerifyLeaseSetMembers (s : PgStore) (leaseSetID ownerID : string)
    (keys : list LeaseKey) (expectedProofs : option (list Lease))
    : Tx (list Lease * list Time) :=
  _ ← statement "postgres.loadAndVerifyLeaseSetMembers.query" (set_params s leaseSetID);
  rows ← select (memberRows s leaseSetID);
  members0 ← scanMembers s ownerID rows [];
  _ ← lift (fail_if (negb (length members0 =? length keys)%nat)
        (conflictError "postgres.loadAndVerifyLeaseSetMembers"
           "lease set membership is incomplete"));
  let members := SortBy (l_LeaseKey ∘ sm_lease) members0 in
  _ ← lift (matchMembers keys members expectedProofs);
  mret (sm_lease <$> members, sm_updatedAt <$> members).

Fixpoint matchHistory (keys : list LeaseKey) (proofs : list Lease)
    (members : list ((string * string) * Z)) : result unit :=
  match members, keys, proofs with
  | (res, token) :: members', key :: keys', proof :: proofs' =>
      _ ← fail_if (negb (bool_decide (res.1 = k_ResourceType key)) ||
                   negb (bool_decide (res.2 = k_ResourceID key)) ||
                   negb (token =? l_FencingToken proof)%Z)
            (conflictError "postgres.verifyHistoricalLeaseSetMembers"
               "lease set membership or fence changed");
      matchHistory keys' proofs' members'
  | _, _, _ => mret tt
  end.

Definition verifyHistoricalLeaseSetMembers (s : PgStore) (leaseSetID : string)
    (keys : list LeaseKey) (proofs : list Lease) : Tx unit :=
  _ ← statement "postgres.verifyHistoricalLeaseSetMembers.query" (set_params s leaseSetID);
  members ← select (memberRows s leaseSetID);
  _ ← lift (fail_if (negb (length members =? length keys)%nat)
        (conflictError "postgres.verifyHistoricalLeaseSetMembers"
           "lease set membership is incomplete"));
  lift (matchHistory keys proofs
          (SortBy (λ m, mkLeaseKey "" "" m.1.1 m.1.2) members)).

Definition Equal (t u : Time) : bool := (instant t =? instant u)%Z.

Definition leaseSetDurationsMatch (stored : storedLeaseSet) (leases0 : list Lease)
    (memberUpdatedAt : list Time) : bool :=
  let row := st_row stored in
  (length leases0 =? length memberUpdatedAt)%nat &&
  (Sub (set_expires row) (set_updated row) =? st_authorizedTTL stored)%Z &&
  forallb (λ '(lease, updatedAt),
    Equal (l_AcquiredAt lease) (set_acquired row) &&
    Equal (l_ExpiresAt lease) (set_expires row) &&
    Equal updatedAt (set_updated row) &&
    (Sub (l_ExpiresAt lease) updatedAt =? st_authorizedTTL stored)%Z)
    (zip leases0 memberUpdatedAt).

Definition verifyLeaseSetAuthorityWithMinimum (s : PgStore) (leaseSet : LeaseSet)
    (keys : list LeaseKey) (proofs : list Lease) (digest : string)
    (minimumRemaining expectedTTL : Z) : Tx LeaseSet :=
  found ← loadLeaseSetForUpdate s (ls_LeaseSetID leaseSet);
  _ ← lift (fail_if (minimumRemaining <? 0)%Z
        (invalidLeaseSetError "minimum remaining lease duration cannot be negative"));
  _ ← lift (fail_if (expectedTTL <? 0)%Z
        (invalidLeaseSetError "expected lease duration cannot be negative"));
  let stale := conflictError "postgres.verifyLeaseSetAuthority"
                 "lease set is missing, stale, or replaced" in
  match found with
  | None => throw stale
  | Some stored =>
      let row := st_row stored in
      if negb (bool_decide (set_state row = "active")) ||
         negb (bool_decide (set_owner row = ls_OwnerID leaseSet)) ||
         negb (bool_decide (set_digest row = digest)) ||
         negb (After (set_expires row) (AddInterval (st_databaseNow stored) minimumRemaining)) ||
         (st_authorizedTTL stored <? Millisecond)%Z || (24 * Hour <? st_authorizedTTL stored)%Z ||
         negb (Sub (set_expires row) (set_updated row) =? st_authorizedTTL stored)%Z ||
         ((0 <? expectedTTL)%Z && negb (st_authorizedTTL stored =? expectedTTL)%Z)
      then throw stale
      else
        '(leases0, memberUpdatedAt) ← loadAndVerifyLeaseSetMembers s (ls_LeaseSetID leaseSet)
           (ls_OwnerID leaseSet) keys (Some proofs);
        if negb (leaseSetDurationsMatch stored leases0 memberUpdatedAt)
        then throw (conflictError "postgres.verifyLeaseSetAuthority"
                      "lease set member duration disagrees with authority")
        else mret (mkLeaseSet (ls_LeaseSetID leaseSet) (set_owner row) leases0
                     (UTC (set_acquired row)) (UTC (set_expires row)))
  end.

Definition verifyLeaseSetAuthority (s : PgStore) (leaseSet : LeaseSet)
    (keys : list LeaseKey) (proofs : list Lease) (digest : string) : Tx LeaseSet :=
  verifyLeaseSetAuthorityWithMinimum s leaseSet keys proofs digest 0 0.

(** The rows [hasActiveWritablePathLease] looks at: every file or artifact lease
    of the repository on the same path, below it or above it. *)
Definition conflictingExpiries (key : LeaseKey) (t : Tables) : list Time :=
  omap (λ '(k, row),
    if bool_decide (k_TenantID k = k_TenantID key) &&
       bool_decide (k_RepositoryID k = k_RepositoryID key) && writable (k_ResourceType k) &&
       (bool_decide (k_ResourceID k = k_ResourceID key) ||
        HasPrefix (k_ResourceID k) (k_ResourceID key +:+ "/") ||
        HasPrefix (k_ResourceID key) (k_ResourceID k +:+ "/"))
    then Some (row_expires row) else None) (map_to_list (leases t)).

Definition hasActiveWritablePathLease (key : LeaseKey) : Tx bool :=
  _ ← statement "postgres.hasActiveWritablePathLease"
        [k_TenantID key; k_RepositoryID key; k_ResourceID key];
  expiries ← select (conflictingExpiries key);
  any_live expiries.

(** ** Operations *)

(** The set as stored, its state, and whether it exists ([None]). *)
Definition GetLeaseSet (s : PgStore) (leaseSetID : string) : Tx (option (LeaseSet * string)) :=
  _ ← lift (ValidateDeliveryAttemptID leaseSetID);
  atomically (
    _ ← statement "postgres.GetLeaseSet.begin" [];
    _ ← statement "postgres.GetLeaseSet.set" (set_params s leaseSetID);
    sets ← select lease_sets;
    match sets !! setKey s leaseSetID with
    | None => mret None
    | Some row =>
        _ ← statement "postgres.GetLeaseSet.members" (set_params s leaseSetID);
        members ← select (memberRows s leaseSetID);
        let leases0 := (λ '(res, token), mkLease (resource_key s res) (set_owner row) token
                          (UTC (set_acquired row)) (UTC (set_expires row))) <$> members in
        _ ← lift (fail_if (length leases0 =? 0)%nat
              (fault CodeInternal "postgres.GetLeaseSet" "lease set has no immutable members"));
        _ ← statement "postgres.GetLeaseSet.commit" [];
        mret (Some (mkLeaseSet leaseSetID (set_owner row) leases0 (UTC (set_acquired row))
                      (UTC (set_expires row)), set_state row))
    end).

(** The loop that checks every writable path before the first write. *)
Fixpoint checkPaths (keys : list LeaseKey) : Tx unit :=
  match keys with
  | [] => mret tt
  | key :: rest =>
      if writable (k_ResourceType key) then
        active ← hasActiveWritablePathLease key;
        if active : bool
        then throw (New CodeConflict "postgres.AcquireLeaseSet"
               (Sprintf "writable path %s is already leased" [k_ResourceID key]))
        else checkPaths rest
      else checkPaths rest
  end.

(** One member: refuse a live lease, otherwise insert it or take it over. *)
Definition grantMember (s : PgStore) (ownerID : string) (acquiredAt expiresAt : Time)
    (key : LeaseKey) : Tx Lease :=
  found ← getLeaseForUpdate s key;
  token ← match found with
          | Some (current, true) =>
              throw (New CodeConflict "postgres.AcquireLeaseSet"
                (Sprintf "resource %s/%s is already leased" [k_ResourceType key; k_ResourceID key]))
          | Some (current, false) => mret (row_token current + 1)%Z
          | None => mret 1%Z
          end;
  _ ← statement "postgres.AcquireLeaseSet.member" (ownerID :: key_params s key);
  _ ← put_lease "postgres.AcquireLeaseSet.member" (row_key s key)
        (mkLeaseRow ownerID token acquiredAt expiresAt acquiredAt);
  mret (mkLease key ownerID token (UTC acquiredAt) (UTC expiresAt)).

Fixpoint grantMembers (s : PgStore) (ownerID : string) (acquiredAt expiresAt : Time)
    (keys : list LeaseKey) : Tx (list Lease) :=
  match keys with
  | [] => mret []
  | key :: rest =>
      lease ← grantMember s ownerID acquiredAt expiresAt key;
      leasing ← grantMembers s ownerID acquiredAt expiresAt rest;
      mret (lease :: leasing)
  end.

(** INSERTs that respect the primary keys. *)
Definition insertSet (s : PgStore) (leaseSetID : string) (row : LeaseSetRow) : Tx unit :=
  _ ← statement "postgres.AcquireLeaseSet.insert_set" (set_owner row :: set_params s leaseSetID);
  sets ← select lease_sets;
  _ ← checked "postgres.AcquireLeaseSet.insert_set"
        (match sets !! setKey s leaseSetID with Some _ => Some (PgError "23505") | None => None end);
  write (with_sets <[setKey s leaseSetID := row]>).

Fixpoint insertMembers (s : PgStore) (leaseSetID : string) (leasing : list Lease) : Tx unit :=
  match leasing with
  | [] => mret tt
  | lease :: rest =>
      let k := (setKey s leaseSetID,
                (k_ResourceType (l_LeaseKey lease), k_ResourceID (l_LeaseKey lease))) in
      _ ← statement "postgres.AcquireLeaseSet.insert_member"
            (k_ResourceID (l_LeaseKey lease) :: set_params s leaseSetID);
      members ← select lease_set_members;
      _ ← checked "postgres.AcquireLeaseSet.insert_member"
            (match members !! k with Some _ => Some (PgError "23505") | None => None end);
      _ ← write (with_members <[k := l_FencingToken lease]>);
      insertMembers s leaseSetID rest
  end.

(** A set ID that is already committed: only the identical live authority is
    answered, from what is stored. *)
Definition replayLeaseSet (s : PgStore) (leaseSetID : string) (normalized : list LeaseKey)
    (digest ownerID : string) (ttl : Z) (existing : storedLeaseSet) : Tx LeaseSet :=
  let row := st_row existing in
  if negb (bool_decide (set_owner row = ownerID)) || negb (bool_decide (set_digest row = digest)) ||
     negb (st_authorizedTTL existing =? ttl)%Z
  then throw (conflictError "postgres.AcquireLeaseSet"
                "lease set ID is already bound to different authority")
  else if negb (bool_decide (set_state row = "active")) ||
          negb (After (set_expires row) (st_databaseNow existing))
  then throw (conflictError "postgres.AcquireLeaseSet"
                "expired or released lease set IDs cannot be reused")
  else
    '(leases0, memberUpdatedAt) ←
       loadAndVerifyLeaseSetMembers s leaseSetID ownerID normalized None;
    if negb (leaseSetDurationsMatch existing leases0 memberUpdatedAt)
    then throw (conflictError "postgres.AcquireLeaseSet"
                  "lease set duration disagrees with its immutable authority")
    else
      _ ← statement "postgres.AcquireLeaseSet.replay_commit" [];
      mret (mkLeaseSet leaseSetID ownerID leases0 (UTC (set_acquired row)) (UTC (set_expires row))).

(** The grant of a new set; [stamp] is read once for all members. *)
Definition grantLeaseSet (s : PgStore) (leaseSetID : string) (normalized : list LeaseKey)
    (digest ownerID : string) (ttl : Z) : Tx LeaseSet :=
  _ ← statement "postgres.AcquireLeaseSet.clock" [];
  acquiredAt ← clock_timestamp;
  let expiresAt := AddInterval acquiredAt (interval (intervalString ttl)) in
  _ ← checkPaths normalized;
  leasing ← grantMembers s ownerID acquiredAt expiresAt normalized;
  _ ← insertSet s leaseSetID (mkSetRow ownerID digest "active" acquiredAt expiresAt acquiredAt
        (ttl `quot` Microsecond)%Z);
  _ ← insertMembers s leaseSetID leasing;
  _ ← statement "postgres.AcquireLeaseSet.commit" [];
  mret (mkLeaseSet leaseSetID ownerID leasing (UTC acquiredAt) (UTC expiresAt)).

Definition AcquireLeaseSet (s : PgStore) (leaseSetID : string) (keys : list LeaseKey)
    (ownerID : string) (ttl : Z) : Tx LeaseSet :=
  '(normalized, digest) ← lift (validateLeaseSetInput s leaseSetID keys ownerID ttl);
  atomically (
    _ ← statement "postgres.AcquireLeaseSet.begin" [];
    _ ← lockLeaseSetAndMembers s leaseSetID normalized;
    found ← loadLeaseSetForUpdate s leaseSetID;
    match found with
    | Some existing => replayLeaseSet s leaseSetID normalized digest ownerID ttl existing
    | None => grantLeaseSet s leaseSetID normalized digest ownerID ttl
    end).

(** [UPDATE forja.leases ... WHERE ... AND expires_at > $now] for one member of a
    set; anything but one affected row is a conflict. *)
Definition updateMember (op : string) (s : PgStore) (ownerID : string) (databaseNow : Time)
    (change : LeaseRow → LeaseRow) (proof : Lease) : Tx unit :=
  _ ← statement (op +:+ ".member") (ownerID :: key_params s (l_LeaseKey proof));
  rows ← select leases;
  let k := resource_key s (k_ResourceType (l_LeaseKey proof), k_ResourceID (l_LeaseKey proof)) in
  match rows !! k with
  | Some row =>
      if bool_decide (row_owner row = ownerID) && (row_token row =? l_FencingToken proof)%Z &&
         After (row_expires row) databaseNow
      then put_lease (op +:+ ".member") k (change row)
      else throw (conflictError op "lease set member is stale")
  | None => throw (conflictError op "lease set member is stale")
  end.

Fixpoint updateMembers (op : string) (s : PgStore) (ownerID : string) (databaseNow : Time)
    (change : LeaseRow → LeaseRow) (proofs : list Lease) : Tx unit :=
  match proofs with
  | [] => mret tt
  | proof :: rest =>
      _ ← updateMember op s ownerID databaseNow change proof;
      updateMembers op s ownerID databaseNow change rest
  end.

(** [UPDATE forja.lease_sets SET ... WHERE] the key. *)
Definition updateSet (op : string) (s : PgStore) (leaseSetID : string)
    (change : LeaseSetRow → LeaseSetRow) : Tx unit :=
  _ ← statement op (set_params s leaseSetID);
  write (with_sets (alter change (setKey s leaseSetID))).

Definition renewRow (expiresAt databaseNow : Time) (row : LeaseRow) : LeaseRow :=
  mkLeaseRow (row_owner row) (row_token row) (row_acquired row) expiresAt databaseNow.

Definition RenewLeaseSet (s : PgStore) (leaseSet : LeaseSet) (ttl : Z) : Tx LeaseSet :=
  '(keys, proofs, digest) ← lift (validateLeaseSetProof s leaseSet ttl);
  atomically (
    _ ← statement "postgres.RenewLeaseSet.begin" [];
    _ ← lockLeaseSetAndMembers s (ls_LeaseSetID leaseSet) keys;
    canonical ← verifyLeaseSetAuthorityWithMinimum s leaseSet keys proofs digest 0 ttl;
    _ ← statement "postgres.RenewLeaseSet.clock" [];
    databaseNow ← clock_timestamp;
    let expiresAt := AddInterval databaseNow (interval (intervalString ttl)) in
    _ ← updateMembers "postgres.RenewLeaseSet" s (ls_OwnerID leaseSet) databaseNow
          (renewRow expiresAt databaseNow) proofs;
    _ ← updateSet "postgres.RenewLeaseSet.set" s (ls_LeaseSetID leaseSet) (λ row,
          mkSetRow (set_owner row) (set_digest row) (set_state row) (set_acquired row)
            expiresAt databaseNow (set_ttl_us row));
    _ ← statement "postgres.RenewLeaseSet.commit" [];
    mret (mkLeaseSet (ls_LeaseSetID canonical) (ls_OwnerID canonical)
            ((λ l, mkLease (l_LeaseKey l) (l_OwnerID l) (l_FencingToken l) (l_AcquiredAt l)
                     (UTC expiresAt)) <$> ls_Leases canonical)
            (ls_AcquiredAt canonical) (UTC expiresAt))).

Definition releaseRow (databaseNow : Time) (row : LeaseRow) : LeaseRow :=
  mkLeaseRow (row_owner row) (row_token row) (row_acquired row)
    (Greatest databaseNow (row_acquired row)) databaseNow.

(** The retirement of an expired set touches no lease. *)
Definition retireExpired (s : PgStore) (leaseSetID : string) (databaseNow : Time) : Tx unit :=
  _ ← updateSet "postgres.ReleaseLeaseSet.retire_expired" s leaseSetID (λ row,
        if bool_decide (set_state row = "active")
        then mkSetRow (set_owner row) (set_digest row) "released" (set_acquired row)
               (set_expires row) databaseNow (set_ttl_us row)
        else row);
  statement "postgres.ReleaseLeaseSet.expired_commit" [].

Definition releaseLive (s : PgStore) (leaseSet : LeaseSet) (keys : list LeaseKey)
    (proofs : list Lease) (databaseNow : Time) : Tx unit :=
  _ ← loadAndVerifyLeaseSetMembers s (ls_LeaseSetID leaseSet) (ls_OwnerID leaseSet) keys
        (Some proofs);
  _ ← updateMembers "postgres.ReleaseLeaseSet" s (ls_OwnerID leaseSet) databaseNow
        (releaseRow databaseNow) proofs;
  _ ← updateSet "postgres.ReleaseLeaseSet.set" s (ls_LeaseSetID leaseSet) (λ row,
        mkSetRow (set_owner row) (set_digest row) "released" (set_acquired row)
          (Greatest databaseNow (set_acquired row)) databaseNow (set_ttl_us row));
  statement "postgres.ReleaseLeaseSet.commit" [].

Definition ReleaseLeaseSet (s : PgStore) (leaseSet : LeaseSet) : Tx unit :=
  '(keys, proofs, digest) ← lift (validateLeaseSetProof s leaseSet Millisecond);
  atomically (
    _ ← statement "postgres.ReleaseLeaseSet.begin" [];
    _ ← lockLeaseSetAndMembers s (ls_LeaseSetID leaseSet) keys;
    found ← loadLeaseSetForUpdate s (ls_LeaseSetID leaseSet);
    let unbound := conflictError "postgres.ReleaseLeaseSet"
                     "lease set is missing or bound to different authority" in
    match found with
    | None => throw unbound
    | Some stored =>
        let row := st_row stored in
        if negb (bool_decide (set_owner row = ls_OwnerID leaseSet)) ||
           negb (bool_decide (set_digest row = digest))
        then throw unbound
        else
          _ ← verifyHistoricalLeaseSetMembers s (ls_LeaseSetID leaseSet) keys proofs;
          if bool_decide (set_state row = "released")
          then statement "postgres.ReleaseLeaseSet.replay_commit" []
          else if negb (bool_decide (set_state row = "active"))
          then throw (conflictError "postgres.ReleaseLeaseSet"
                        "lease set is not active or released")
          else if negb (After (set_expires row) (st_databaseNow stored))
          then retireExpired s (ls_LeaseSetID leaseSet) (st_databaseNow stored)
          else releaseLive s leaseSet keys proofs (st_databaseNow stored)
    end).
End sets.
