(* ===== verification/LeaseExpansion.v ===== *)
(** * What a lease set declares

    The members [validateLeaseSetInput] computes are exactly the declared
    resources and the ancestors of the writable ones, each once, in canonical
    byte order. *)

From S2P Require Import Prelude GoLib Fault Identity Postgres LeasePaths Leases LeaseSets.
From Stdlib Require Import Ascii.

(** The resources one input key stands for. *)
Definition scopes (key : LeaseKey) : list string :=
  if writable (k_ResourceType key) then leaseScopeAndAncestors (k_ResourceID key)
  else [k_ResourceID key].

Definition declares (s : PgStore) (input k : LeaseKey) : Prop :=
  ∃ r, r ∈ scopes (bindLeaseKey s input) ∧ k = with_resource (bindLeaseKey s input) r.

(** A key of the store's own delivery resources. *)
Definition own_key (s : PgStore) (k : LeaseKey) : Prop :=
  k_TenantID k = tenantID s ∧ k_RepositoryID k = repositoryID s ∧
  k_ResourceType k ∈ deliveryLeaseTypes.

Lemma delivery_nul_free ty : ty ∈ deliveryLeaseTypes → nul_free ty = true.
Proof.
  unfold deliveryLeaseTypes. rewrite !elem_of_cons, elem_of_nil. by intros [->|[->|[->|[]]]].
Qed.

Lemma keyText_inj s k1 k2 : own_key s k1 → own_key s k2 → keyText k1 = keyText k2 → k1 = k2.
Proof.
  destruct k1 as [t1 r1 ty1 i1], k2 as [t2 r2 ty2 i2]. unfold own_key, keyText. cbn.
  intros (-> & -> & Hty1) (-> & -> & Hty2) Heq.
  apply nul_split_inj in Heq as [-> ->]; auto using delivery_nul_free.
Qed.

Section expansion.
Context (s : PgStore).

Record expansion_ok (x : expansion) : Prop := {
  eo_own : ∀ k, k ∈ x_normalized x → own_key s k;
  eo_seen : ∀ t, t ∈ x_seenNormalized x ↔ t ∈ keyText <$> x_normalized x;
  eo_nodup : NoDup (x_normalized x);
}.

Lemma with_resource_own key r : own_key s key → own_key s (with_resource key r).
Proof. done. Qed.

Lemma expand_ok key ids : ∀ norm seen norm' seen',
  own_key s key →
  (∀ k, k ∈ norm → own_key s k) → (∀ t, t ∈ seen ↔ t ∈ keyText <$> norm) → NoDup norm →
  expand key ids (norm, seen) = (norm', seen') →
  (∀ k, k ∈ norm' ↔ k ∈ norm ∨ ∃ r, r ∈ ids ∧ k = with_resource key r) ∧
  (∀ t, t ∈ seen' ↔ t ∈ keyText <$> norm') ∧ NoDup norm'.
Proof.
  induction ids as [|r ids IH]; intros norm seen norm' seen' Hkey Hown Hseen Hnd; cbn [expand].
  - intros [= <- <-]. split_and!; [|done..]. set_solver.
  - cbn [fst snd]. case_bool_decide as Hin.
    + intros Hrun. apply IH in Hrun as (Hn & Hs & Hd); [|done..]. split_and!; [|done..].
      apply Hseen in Hin. apply list_elem_of_fmap in Hin as (k0 & Hk0 & Hin).
      assert (with_resource key r = k0) as <- by (eapply keyText_inj; eauto).
      intros k. rewrite Hn. set_solver.
    + intros Hrun. apply IH in Hrun as (Hn & Hs & Hd); [|done|..].
      * split_and!; [|done..]. intros k. rewrite Hn. set_solver.
      * intros k. rewrite elem_of_app, list_elem_of_singleton. intros [?| ->]; [by apply Hown|done].
      * intros t. rewrite fmap_app, elem_of_app, elem_of_union, Hseen. cbn. set_solver.
      * apply NoDup_app. split_and!; [done| |apply NoDup_singleton].
        intros k Hk. rewrite list_elem_of_singleton. intros ->. apply Hin, Hseen.
        apply list_elem_of_fmap. by exists (with_resource key r).
Qed.

Lemma validateLeaseKey_ok key u :
  validateLeaseKey key (tenantID s) (repositoryID s) = Ok u →
  k_TenantID key = tenantID s ∧ k_RepositoryID key = repositoryID s.
Proof.
  unfold validateLeaseKey. destruct (_ || _) eqn:Hc; [done|]. bool_prop.
  intros _. tauto.
Qed.

Lemma expandKey_ok x input x' :
  expansion_ok x → expandKey s x input = Ok x' →
  expansion_ok x' ∧
  ∀ k, k ∈ x_normalized x' ↔ k ∈ x_normalized x ∨ declares s input k.
Proof.
  intros [Hown Hseen Hnd]. unfold expandKey. set (key := bindLeaseKey s input).
  rewrite res_bind_ok. intros (u1 & Hk & H1). apply validateLeaseKey_ok in Hk as [Ht Hr].
  apply res_bind_ok in H1 as (u2 & Hty & H1). destruct u2. rewrite fail_if_ok in Hty. bool_prop.
  apply res_bind_ok in H1 as (u3 & Hdup & H1).
  apply res_bind_ok in H1 as ([declared ids] & Hids & H1).
  assert (ids = scopes key) as ->.
  { revert Hids. unfold scopes. destruct (writable _); [|by intros [= _ <-]].
    rewrite res_bind_ok. intros (? & _ & Hx). apply res_bind_ok in Hx as (? & _ & [= _ <-]). done. }
  destruct (expand key _ _) as [norm' seen'] eqn:Hex. injection H1 as <-. cbn.
  assert (own_key s key) as Hkey by done.
  pose proof (expand_ok _ _ _ _ _ _ Hkey Hown Hseen Hnd Hex) as (Hn & Hs & Hd). split.
  - split; cbn; [|done..]. intros k. rewrite Hn. intros [?|(r & _ & ->)]; [by apply Hown|done].
  - exact Hn.
Qed.

Lemma expandKeys_ok keys : ∀ x x',
  expansion_ok x → expandKeys s x keys = Ok x' →
  expansion_ok x' ∧
  ∀ k, k ∈ x_normalized x' ↔ k ∈ x_normalized x ∨ ∃ input, input ∈ keys ∧ declares s input k.
Proof.
  induction keys as [|key keys IH]; intros x x' Hx; cbn [expandKeys].
  - intros [= <-]. split; [done|]. set_solver.
  - rewrite res_bind_ok. intros (x1 & H1 & H2). apply expandKey_ok in H1 as [Hx1 Hn1]; [|done].
    apply IH in H2 as [Hx2 Hn2]; [|done]. split; [done|]. intros k. rewrite Hn2, Hn1. set_solver.
Qed.
End expansion.

Section members.
Context `{Sha256}.

Lemma SortBy_Permutation {A} (key : A → LeaseKey) l : SortBy key l ≡ₚ l.
Proof. apply merge_sort_Permutation. Qed.

Lemma validateLeaseSetInput_ok s id keys ownerID ttl normalized digest :
  validateLeaseSetInput s id keys ownerID ttl = Ok (normalized, digest) →
  (∀ k, k ∈ normalized ↔ ∃ input, input ∈ keys ∧ declares s input k) ∧
  (∀ k, k ∈ normalized → own_key s k) ∧ NoDup normalized ∧
  digest = leaseMemberDigest normalized ∧
  ∃ x, expansion_ok s x ∧ normalized = SortBy (λ k, k) (x_normalized x).
Proof.
  unfold validateLeaseSetInput. rewrite res_bind_ok. intros (? & _ & H1).
  do 3 apply res_bind_ok in H1 as (? & _ & H1).
  apply res_bind_ok in H1 as (xp & Hx & H1).
  do 2 apply res_bind_ok in H1 as (? & _ & H1). injection H1 as <- <-.
  apply expandKeys_ok in Hx as [Hok Hn].
  2: { split; cbn; [set_solver|set_solver|constructor]. }
  cbn in Hn. split_and!.
  - intros k. rewrite SortBy_Permutation, Hn. set_solver.
  - intros k. rewrite SortBy_Permutation. apply (eo_own _ _ Hok).
  - rewrite SortBy_Permutation. apply (eo_nodup _ _ Hok).
  - done.
  - by exists xp.
Qed.

(** *** The order is total on keys *)

Lemma keys_le_String {A} (key : A → LeaseKey) a b :
  keys_le key a b ↔ String.le (keyText (key a)) (keyText (key b)).
Proof.
  unfold keys_le, compareLeaseKeys, String.le, String.leb.
  destruct (String.compare _ _); cbn; split; try done; try lia.
Qed.

#[export] Instance keys_le_trans {A} (key : A → LeaseKey) : Transitive (keys_le key).
Proof. intros a b c. rewrite !keys_le_String. apply transitivity. Qed.
#[export] Instance keys_le_total {A} (key : A → LeaseKey) : Total (keys_le key).
Proof. intros a b. rewrite !keys_le_String. apply total, _. Qed.

Lemma SortBy_unique s l1 l2 :
  (∀ k, k ∈ l1 → own_key s k) → (∀ k, k ∈ l2 → own_key s k) → l1 ≡ₚ l2 →
  SortBy (λ k, k) l1 = SortBy (λ k, k) l2.
Proof.
  intros H1 H2 Hp. unfold SortBy.
  apply (StronglySorted_unique_strong (keys_le (λ k, k))).
  - intros k1 k2. rewrite !merge_sort_Permutation. intros Hk1 Hk2.
    rewrite !keys_le_String. intros Ha Hb. apply (keyText_inj s); [by apply H1|by apply H2|].
    by apply (anti_symm String.le).
  - apply StronglySorted_merge_sort; apply _.
  - apply StronglySorted_merge_sort; apply _.
  - by rewrite !merge_sort_Permutation.
Qed.
End members.

(** ** The digest's encoding *)

Lemma app_char_split (a b x y : string) (c d : ascii) :
  a +:+ String c x = b +:+ String d y →
  (a = b ∧ c = d ∧ x = y) ∨
  (∃ u, b = a +:+ String c u ∧ x = u +:+ String d y) ∨
  (∃ u, a = b +:+ String d u ∧ y = u +:+ String c x).
Proof.
  revert b. induction a as [|e a IH]; intros [|f b] Heq.
  - injection Heq as -> ->. auto.
  - rewrite string_app_cons in Heq. injection Heq as -> ->. right; left. by exists b.
  - rewrite string_app_cons in Heq. injection Heq as -> <-. right; right. by exists a.
  - rewrite !string_app_cons in Heq. injection Heq as -> Heq.
    destruct (IH _ Heq) as [(-> & -> & ->)|[(u & -> & ->)|(u & -> & ->)]]; [auto|..].
    + right; left. by exists u.
    + right; right. by exists u.
Qed.

Lemma contains_byte_cons c d a :
  contains_byte c (String d a) = bool_decide (c = d) || contains_byte c a.
Proof. done. Qed.

Definition LF : ascii := chr 10.

(** What follows a member: nothing, or another member's type and a NUL. *)
Lemma memberBytes_shape l :
  (∀ k, k ∈ l → k_ResourceType k ∈ deliveryLeaseTypes) →
  memberBytes l = "" ∨ ∃ ty x, memberBytes l = ty +:+ String (chr 0) x ∧
    contains_byte LF ty = false.
Proof.
  destruct l as [|k l]; [by left|]. intros Hl. right. cbn [memberBytes]. unfold keyText, NUL.
  eexists (k_ResourceType k), _. split; [by rewrite string_app_assoc|].
  assert (k_ResourceType k ∈ deliveryLeaseTypes) as Hty by (apply Hl; left).
  unfold deliveryLeaseTypes in Hty. rewrite !elem_of_cons, elem_of_nil in Hty.
  by destruct Hty as [->|[->|[->|[]]]].
Qed.

(** An ID cannot be the start of a longer NUL-free ID. *)
Lemma id_not_longer id u rest rest' :
  nul_free (id +:+ String LF u) = true → rest = u +:+ String LF rest' →
  rest = "" ∨ (∃ ty x, rest = ty +:+ String (chr 0) x ∧ contains_byte LF ty = false) → False.
Proof.
  intros Hfree -> [Hnil|(ty & x & Heq & Hty)].
  - destruct u; discriminate Hnil.
  - unfold nul_free in Hfree. rewrite contains_byte_app, contains_byte_cons in Hfree. bool_prop.
    destruct Hfree as [_ [_ Hu]].
    apply app_char_split in Heq as [(_ & Hc & _)|[(v & -> & _)|(v & -> & _)]].
    + discriminate Hc.
    + rewrite contains_byte_app, contains_byte_cons in Hty. bool_prop. tauto.
    + rewrite contains_byte_app, contains_byte_cons in Hu. bool_prop. tauto.
Qed.

Lemma memberBytes_inj s l1 : ∀ l2,
  (∀ k, k ∈ l1 ++ l2 → own_key s k ∧ nul_free (k_ResourceID k) = true) →
  memberBytes l1 = memberBytes l2 → l1 = l2.
Proof.
  induction l1 as [|k1 l1 IH]; intros [|k2 l2] Hl Heq; [done| | |].
  - unfold memberBytes, keyText, NUL in Heq. rewrite string_app_assoc in Heq.
    by destruct (k_ResourceType k2).
  - unfold memberBytes, keyText, NUL in Heq. rewrite string_app_assoc in Heq.
    by destruct (k_ResourceType k1).
  - setoid_rewrite elem_of_app in Hl. setoid_rewrite elem_of_cons in Hl.
    destruct (Hl k1) as [[Ht1 [Hr1 Hty1]] Hf1]; [tauto|].
    destruct (Hl k2) as [[Ht2 [Hr2 Hty2]] Hf2]; [tauto|].
    cbn [memberBytes] in Heq. unfold keyText in Heq.
    rewrite !string_app_assoc in Heq. apply nul_split_inj in Heq as [Hty Heq];
      [|by apply delivery_nul_free..].
    apply app_char_split in Heq as [(Hid & _ & Heq)|[(u & Hid & Hrest)|(u & Hid & Hrest)]].
    + apply IH in Heq as ->; [|intros k; rewrite elem_of_app; intros Hk; apply Hl; tauto].
      f_equal. destruct k1, k2; cbn in *; congruence.
    + exfalso. rewrite Hid in Hf2. eapply id_not_longer; [exact Hf2|exact Hrest|].
      apply memberBytes_shape. intros k Hk. apply (Hl k). tauto.
    + exfalso. rewrite Hid in Hf1. eapply id_not_longer; [exact Hf1|exact Hrest|].
      apply memberBytes_shape. intros k Hk. apply (Hl k). tauto.
Qed.

(** ** Locks *)

Lemma lockNames_path s id keys k :
  k ∈ keys → writable (k_ResourceType k) = true →
  k_TenantID k +:+ NUL +:+ repositoryID s +:+ NUL +:+ "writable-path" +:+ NUL +:+ k_ResourceID k
    ∈ lockNames s id keys.
Proof.
  intros Hk Hw. unfold lockNames. rewrite merge_sort_Permutation. apply elem_of_cons. right.
  apply list_elem_of_join. eexists. split; [|apply list_elem_of_fmap; by exists k].
  rewrite Hw. right. left.
Qed.

Lemma covered_path_locked s (keys n : list LeaseKey) k p id :
  k ∈ keys → writable (k_ResourceType k) = true →
  p ∈ leaseScopeAndAncestors (k_ResourceID k) →
  (∀ k, k ∈ n ↔ ∃ input, input ∈ keys ∧ declares s input k) →
  (∀ k, k ∈ n → own_key s k) →
  tenantID s +:+ NUL +:+ repositoryID s +:+ NUL +:+ "writable-path" +:+ NUL +:+ p
    ∈ lockNames s id n.
Proof.
  intros Hk Hw Hp Hn Ho.
  assert (with_resource (bindLeaseKey s k) p ∈ n) as Hin.
  { apply Hn. exists k. split; [done|]. exists p. split; [|done]. unfold scopes, bindLeaseKey.
    case_bool_decide; cbn; by rewrite Hw. }
  destruct (Ho _ Hin) as (Ht & _). apply (lockNames_path s id) in Hin as Hl.
  - cbn in Hl, Ht. by rewrite Ht in Hl.
  - unfold bindLeaseKey. by case_bool_decide.
Qed.

(** ** Properties *)

Section properties.
Context `{Sha256}.

(** A lease set covers exactly what it declares: its members are the declared
    resources and, for files and artifacts, all their ancestors, each once. *)
Theorem lease_set_members_exact s id keys ownerID ttl normalized digest :
  validateLeaseSetInput s id keys ownerID ttl = Ok (normalized, digest) →
  NoDup normalized ∧
  ∀ k, k ∈ normalized ↔ ∃ input r, input ∈ keys ∧ k = with_resource (bindLeaseKey s input) r ∧
    if writable (k_ResourceType input) then r ∈ leaseScopeAndAncestors (k_ResourceID input)
    else r = k_ResourceID input.
Proof.
  intros (Hn & _ & Hnd & _)%validateLeaseSetInput_ok. split; [done|]. intros k. rewrite Hn.
  assert (∀ input r, r ∈ scopes (bindLeaseKey s input) ↔
    if writable (k_ResourceType input) then r ∈ leaseScopeAndAncestors (k_ResourceID input)
    else r = k_ResourceID input) as Hsc.
  { intros input r. unfold scopes, bindLeaseKey. case_bool_decide; cbn;
      destruct (writable _); by rewrite ?list_elem_of_singleton. }
  unfold declares. split.
  - intros (input & Hin & r & Hr & ->). exists input, r. by rewrite <-Hsc.
  - intros (input & r & Hin & -> & Hr). exists input. split; [done|]. exists r. by rewrite Hsc.
Qed.

(** The order in which the resources of a set are listed does not matter:
    permuted requests get the same members in the same order, and so the same
    digest. *)
Theorem lease_set_order_irrelevant s id id' keys keys' ownerID ownerID' ttl ttl' v v' :
  keys ≡ₚ keys' →
  validateLeaseSetInput s id keys ownerID ttl = Ok v →
  validateLeaseSetInput s id' keys' ownerID' ttl' = Ok v' → v = v'.
Proof.
  intros Hp. destruct v as [n d], v' as [n' d'].
  intros (Hn & _ & Hnd & -> & x & Hx & Hnx)%validateLeaseSetInput_ok.
  intros (Hn' & _ & Hnd' & -> & x' & Hx' & Hnx')%validateLeaseSetInput_ok.
  assert (n = n') as ->; [|done]. rewrite Hnx, Hnx'.
  apply (SortBy_unique s); [by apply eo_own|by apply eo_own|].
  rewrite <-(SortBy_Permutation (λ k, k) (x_normalized x)), <-Hnx.
  rewrite <-(SortBy_Permutation (λ k, k) (x_normalized x')), <-Hnx'.
  apply NoDup_Permutation; [done..|]. intros k. rewrite Hn, Hn'. by setoid_rewrite Hp.
Qed.

(** The member digest hashes an unambiguous encoding: two member lists of a
    store with NUL-free resource IDs that give the hash the same bytes are the
    same list, even when IDs contain line feeds. *)
Theorem member_encoding_injective s l1 l2 :
  (∀ k, k ∈ l1 ++ l2 → own_key s k ∧ nul_free (k_ResourceID k) = true) →
  memberBytes l1 = memberBytes l2 → l1 = l2.
Proof. apply memberBytes_inj. Qed.

(** Sets that could write the same path exclude each other: if they declare
    overlapping file or artifact scopes, they take a common advisory lock, and
    every set takes its locks in ascending order, so waiting cannot be circular. *)
Theorem overlapping_sets_share_lock s id1 id2 keys1 keys2 owner1 owner2 ttl1 ttl2 n1 d1 n2 d2 k1 k2 :
  validateLeaseSetInput s id1 keys1 owner1 ttl1 = Ok (n1, d1) →
  validateLeaseSetInput s id2 keys2 owner2 ttl2 = Ok (n2, d2) →
  k1 ∈ keys1 → k2 ∈ keys2 →
  writable (k_ResourceType k1) = true → writable (k_ResourceType k2) = true →
  leaseScopesOverlap (k_ResourceID k1) (k_ResourceID k2) = true →
  Sorted String.le (lockNames s id1 n1) ∧ Sorted String.le (lockNames s id2 n2) ∧
  ∃ name, name ∈ lockNames s id1 n1 ∧ name ∈ lockNames s id2 n2.
Proof.
  intros (Hn1 & Ho1 & _)%validateLeaseSetInput_ok (Hn2 & Ho2 & _)%validateLeaseSetInput_ok
    Hk1 Hk2 Hw1 Hw2 Hov.
  split_and!; [apply Sorted_merge_sort; apply _..|].
  assert (∃ p, p ∈ leaseScopeAndAncestors (k_ResourceID k1) ∧
               p ∈ leaseScopeAndAncestors (k_ResourceID k2)) as (p & Hp1 & Hp2).
  { apply overlap_spec in Hov as [Hpre|Hpre].
    - exists (k_ResourceID k1). by rewrite !ancestors_spec.
    - exists (k_ResourceID k2). by rewrite !ancestors_spec. }
  exists (tenantID s +:+ NUL +:+ repositoryID s +:+ NUL +:+ "writable-path" +:+ NUL +:+ p).
  split; [apply (covered_path_locked s keys1 n1 k1)|apply (covered_path_locked s keys2 n2 k2)];
    done.
Qed.
End properties.

(** ** Concrete sets *)

Module Sets.
#[local] Instance demo_sha : Sha256 := λ s, s.

Definition store : PgStore := mkPgStore "tenant" "repo".
Definition res (ty id : string) : LeaseKey := mkLeaseKey "tenant" "" ty id.
Definition full (ty id : string) : LeaseKey := mkLeaseKey "tenant" "repo" ty id.
Definition alice : list LeaseKey := [res "worktree" "w1"; res "file" "src/a.go"; res "artifact" "out"].
Definition alice' : list LeaseKey := [res "artifact" "out"; res "worktree" "w1"; res "file" "src/a.go"].
Definition bob : list LeaseKey := [res "file" "src"; res "worktree" "w2"].
Definition alice_members : list LeaseKey :=
  [full "artifact" "out"; full "file" "src"; full "file" "src/a.go"; full "worktree" "w1"].
Definition bob_members : list LeaseKey := [full "file" "src"; full "worktree" "w2"].

Lemma alice_ok :
  validateLeaseSetInput store "set-a" alice "alice" Second =
  Ok (alice_members, leaseMemberDigest alice_members).
Proof. vm_compute. reflexivity. Qed.
Lemma alice'_ok :
  validateLeaseSetInput store "set-b" alice' "alice" Second =
  Ok (alice_members, leaseMemberDigest alice_members).
Proof. vm_compute. reflexivity. Qed.
Lemma bob_ok :
  validateLeaseSetInput store "set-c" bob "bob" Second =
  Ok (bob_members, leaseMemberDigest bob_members).
Proof. vm_compute. reflexivity. Qed.

Lemma lease_set_members_exact_witness : NoDup alice_members.
Proof. apply (lease_set_members_exact _ _ _ _ _ _ _ alice_ok). Defined.

Lemma lease_set_order_irrelevant_witness :
  (alice_members, leaseMemberDigest alice_members) =
  (alice_members, leaseMemberDigest alice_members).
Proof.
  apply (lease_set_order_irrelevant store "set-a" "set-b" alice alice' "alice" "alice"
    Second Second); [|exact alice_ok|exact alice'_ok].
  apply (Permutation_app_comm [res "worktree" "w1"; res "file" "src/a.go"] [res "artifact" "out"]).
Defined.

Lemma member_encoding_injective_witness : alice_members = alice_members ++ [].
Proof.
  apply (member_encoding_injective store); [|vm_compute; reflexivity].
  intros k Hk. rewrite app_nil_r, elem_of_app in Hk. unfold alice_members in Hk.
  rewrite !elem_of_cons, elem_of_nil in Hk. unfold own_key, deliveryLeaseTypes. rewrite !elem_of_cons.
  destruct Hk as [Hk|Hk]; repeat destruct Hk as [->|Hk]; cbn; by auto 10.
Defined.

Lemma overlapping_sets_share_lock_witness :
  ∃ name, name ∈ lockNames store "set-a" alice_members ∧
          name ∈ lockNames store "set-c" bob_members.
Proof.
  apply (overlapping_sets_share_lock store "set-a" "set-c" alice bob "alice" "bob" Second Second
    alice_members _ bob_members _ (res "file" "src/a.go") (res "file" "src") alice_ok bob_ok);
    [right; left|left|vm_compute; reflexivity..].
Defined.
End Sets.
