(* ===== verification/DeliveryScopes.v ===== *)
(** * What validated deliveries promise about paths

    Scopes as lists of path components: which paths a delivery may change, which
    resources its fences name, and that the lease set of the pipeline is made of
    exactly these. *)

From S2P Require Import Prelude GoLib Fault Contracts Identity LeasePaths Postgres DeliveryContracts.
From S2P Require Import Leases LeaseSets LeaseExpansion.
From Stdlib Require Import Ascii.

(** [p] is [q] or lies below it. *)
Definition below (p q : string) : Prop := Split_slash q `prefix_of` Split_slash p.

(** ** Strings in byte order *)

Definition string_lt (a b : string) : Prop := String.le a b ∧ a ≠ b.

#[export] Instance string_lt_trans : Transitive string_lt.
Proof.
  intros a b c [Hab Hne] [Hbc _]. split; [by transitivity b|]. intros ->.
  apply Hne. by apply (anti_symm String.le).
Qed.

Lemma string_le_app (a r : string) : String.le a (a +:+ r).
Proof.
  unfold String.le, String.leb. induction a as [|c a IH]; [by destruct r|].
  rewrite string_app_cons. cbn. unfold Ascii.compare. rewrite N.compare_refl. exact IH.
Qed.

Lemma IsSorted_spec l : IsSorted l = true ↔ Sorted String.le l.
Proof.
  induction l as [|a [|b l] IH].
  - split; [constructor|done].
  - split; [by repeat constructor|done].
  - change (IsSorted (a :: b :: l)) with (bool_decide (String.le a b) && IsSorted (b :: l)).
    rewrite andb_true_iff, bool_decide_eq_true, IH. split.
    + intros [Hab Hs]. constructor; [done|by constructor].
    + intros Hs. inversion_clear Hs as [|? ? Hs' Hd]. split; [by inversion_clear Hd|done].
Qed.

Lemma Compact_cons2 a b l :
  Compact (a :: b :: l) = if bool_decide (a = b) then Compact (b :: l) else a :: Compact (b :: l).
Proof. done. Qed.

Lemma Compact_length l : length (Compact l) ≤ length l.
Proof.
  induction l as [|a [|b l] IH]; [done..|]. rewrite Compact_cons2. case_bool_decide; cbn in *; lia.
Qed.

Lemma Compact_elem x l : x ∈ Compact l ↔ x ∈ l.
Proof.
  induction l as [|a [|b l] IH]; [done..|]. rewrite Compact_cons2. case_bool_decide as Hab.
  - subst b. rewrite IH. set_solver.
  - rewrite (elem_of_cons (Compact _)), IH, (elem_of_cons (b :: l)). done.
Qed.

Lemma Compact_strict l : StronglySorted String.le l → StronglySorted string_lt (Compact l).
Proof.
  induction l as [|a [|b l] IH]; intros Hs; [constructor|by repeat constructor|].
  apply StronglySorted_inv in Hs as [Hs Ha]. rewrite Compact_cons2.
  case_bool_decide as Hab; [by apply IH|]. constructor; [by apply IH|].
  apply Forall_forall. intros x Hx. rewrite Compact_elem in Hx. rewrite Forall_forall in Ha. split; [by apply Ha|].
  intros ->. apply Hab. apply (anti_symm String.le); [apply Ha; by left|].
  apply elem_of_cons in Hx as [->|Hx]; [done|]. apply StronglySorted_inv in Hs as [_ Hb].
  rewrite Forall_forall in Hb. by apply Hb.
Qed.

Lemma sortedUnique_spec l : sortedUnique l = true ↔ StronglySorted string_lt l.
Proof.
  unfold sortedUnique. rewrite andb_true_iff, IsSorted_spec, Nat.eqb_eq. split.
  - intros [Hs%(Sorted_StronglySorted _) Hlen].
    assert (Compact l = l) as Heq; [|rewrite <-Heq; by apply Compact_strict].
    clear Hs. induction l as [|a [|b l] IH]; [done..|]. rewrite Compact_cons2 in *.
    case_bool_decide as Hab.
    + pose proof (Compact_length (b :: l)). cbn in *. lia.
    + f_equal. apply IH. by injection Hlen.
  - intros Hs. assert (StronglySorted String.le l) as Hle.
    { induction Hs as [|a l _ IH Ha]; constructor; [done|]. eapply Forall_impl; [exact Ha|]. by intros x [? _]. }
    split; [by apply StronglySorted_Sorted|].
    clear Hle. induction l as [|a [|b l] IH]; [done..|]. rewrite Compact_cons2.
    apply StronglySorted_inv in Hs as [Hs Ha]. rewrite bool_decide_eq_false_2.
    + cbn in *. f_equal. by apply IH.
    + inversion_clear Ha as [|? ? [_ Hne] _]. done.
Qed.

Lemma strict_NoDup l : StronglySorted string_lt l → NoDup l.
Proof.
  induction 1 as [|a l _ IH Ha]; constructor; [|done]. intros Hin. rewrite Forall_forall in Ha.
  by destruct (Ha _ Hin).
Qed.

(** ** Scopes *)

Lemma covered_spec v scopes :
  coveredByScope v scopes = true ↔ ∃ s, s ∈ scopes ∧ below v s.
Proof.
  unfold coveredByScope. rewrite existsb_exists. unfold below. split.
  - intros (s & Hs%list_elem_of_In & Hv). exists s. split; [done|].
    rewrite orb_true_iff, bool_decide_eq_true, below_spec in Hv.
    destruct Hv as [->|(l & _ & Hl)]; [done|by exists l].
  - intros (s & Hs & [l Hl]). exists s. split; [by apply list_elem_of_In|].
    rewrite orb_true_iff, bool_decide_eq_true, below_spec. destruct l as [|x l].
    + left. rewrite app_nil_r in Hl. by apply Split_slash_inj.
    + right. by exists (x :: l).
Qed.

Lemma canonical_plain label v :
  validateCanonicalScope label v false = Ok tt ↔
  Forall plain (Split_slash v) ∧ contains_byte (chr 92) v = false ∧ contains_byte (chr 0) v = false.
Proof.
  rewrite <-validateLeaseScopePath_plain. unfold validateCanonicalScope, validateLeaseScopePath.
  rewrite !fail_if_ok. cbn [negb]. rewrite !orb_false_iff. cbn [andb]. tauto.
Qed.

(** A scope precedes everything below it. *)
Lemma below_le p q : below p q → String.le q p.
Proof.
  intros [[|x l] Hl].
  - rewrite app_nil_r in Hl. apply Split_slash_inj in Hl as ->. reflexivity.
  - assert (HasPrefix p (q +:+ "/") = true) as (r & ->)%HasPrefix_spec by (apply below_spec; by exists (x :: l)).
    rewrite string_app_assoc. apply string_le_app.
Qed.

Lemma scopes_overlap_false before l l1 v l2 :
  scopes_overlap before l = false → l = l1 ++ v :: l2 → coveredByScope v (before ++ l1) = false.
Proof.
  revert before l1. induction l as [|a l IH]; intros before l1 Ho Hl; [by destruct l1|].
  cbn in Ho. apply orb_false_iff in Ho as [Ha Ho]. destruct l1 as [|b l1]; injection Hl as -> Hl.
  - by rewrite app_nil_r.
  - specialize (IH _ l1 Ho Hl). by rewrite <-app_assoc in IH.
Qed.

Lemma canonical_paths_ok label vs root :
  validateCanonicalPaths label vs root = Ok tt →
  vs ≠ [] ∧ StronglySorted string_lt vs ∧ ∀ v, v ∈ vs → validateCanonicalScope label v root = Ok tt.
Proof.
  unfold validateCanonicalPaths. intros ([] & Hne & Hrest)%res_bind_ok.
  apply res_bind_ok in Hrest as ([] & Hall & _). apply fail_if_ok in Hne. bool_prop.
  destruct Hne as [Hne Hs]. apply sortedUnique_spec in Hs. split_and!; [done..|].
  intros v Hv. eapply loop_checks in Hall; [|intros [] a [] Ha; exact Ha].
  rewrite Forall_forall in Hall. by apply Hall.
Qed.

(** Of validated scopes none lies below another. *)
Lemma canonical_scopes_apart label vs root x y :
  validateCanonicalScopes label vs root = Ok tt → x ∈ vs → y ∈ vs → below y x → x = y.
Proof.
  unfold validateCanonicalScopes. intros ([] & Hp & Ho)%res_bind_ok Hx Hy Hb.
  apply canonical_paths_ok in Hp as (_ & Hs & _). apply fail_if_ok in Ho.
  destruct (decide (x = y)) as [|Hne]; [done|exfalso].
  assert (string_lt x y) as Hlt by (split; [by apply below_le|done]).
  apply list_elem_of_split in Hy as (l1 & l2 & ->).
  assert (x ∈ l1) as Hx1.
  { apply elem_of_app in Hx as [|Hx]; [done|]. apply elem_of_cons in Hx as [->|Hx]; [done|].
    apply StronglySorted_app in Hs as (_ & _ & Hs). apply StronglySorted_inv in Hs as [_ Hs].
    rewrite Forall_forall in Hs. destruct (Hs _ Hx) as [Hyx _], Hlt as [Hxy _].
    destruct Hne. by apply (anti_symm String.le). }
  destruct l1 as [|a l1]; [by apply elem_of_nil in Hx1|]. cbn in Ho.
  pose proof (scopes_overlap_false [a] _ l1 y l2 Ho eq_refl) as Hc.
  assert (coveredByScope y ([a] ++ l1) = true) as Hc'; [|congruence].
  apply covered_spec. by exists x.
Qed.

(** ** Requests *)

Record request_ok (request : DeliveryRequest) : Prop := {
  ro_delivery : match_classes deliveryIDPattern (rq_DeliveryID request) = true;
  ro_attempt : match_classes attemptIDPattern (rq_AttemptID request) = true;
  ro_people : rq_AuthorID request ≠ rq_ValidatorID request;
  ro_ref : rq_PublicationRef request = "refs/forja/deliveries/" +:+ rq_DeliveryID request;
  ro_horizon : (MinimumPublicationLeaseTTLMS ≤ rq_LeaseTTLMS request)%Z;
  ro_write : validateCanonicalScopes "write scope" (rq_WriteScopes request) false = Ok tt;
  ro_artifact : validateCanonicalScopes "artifact scope" (rq_ArtifactScopes request) false = Ok tt;
  ro_writable : validateCanonicalScopes "combined writable scope"
    (Sort (rq_WriteScopes request ++ rq_ArtifactScopes request)) false = Ok tt;
  ro_evidence : validateCanonicalScope "evidence scope" (rq_EvidenceScope request) false = Ok tt;
  ro_covered : coveredByScope (rq_EvidenceScope request) (rq_ArtifactScopes request) = true;
}.

Lemma ValidateDeliveryRequest_ok request : ValidateDeliveryRequest request = Ok tt → request_ok request.
Proof.
  unfold ValidateDeliveryRequest, ValidateDeliveryID, ValidateDeliveryAttemptID. intros Hok.
  repeat match type of Hok with
  | _ ≫= _ = Ok _ => let H := fresh "H" in apply res_bind_ok in Hok as ([] & H & Hok)
  end.
  apply fail_if_ok, negb_false_iff in H0, H1, H7, H16. apply fail_if_ok, bool_decide_eq_false in H3.
  apply fail_if_ok, Z.ltb_ge in H10. apply bool_decide_eq_true in H7.
  exact (Build_request_ok _ H0 H1 H3 H7 H10 H12 H13 H14 H15 H16).
Qed.

(** The writable scopes of both kinds are apart. *)
Lemma writable_apart request x y :
  request_ok request →
  x ∈ rq_WriteScopes request ++ rq_ArtifactScopes request →
  y ∈ rq_WriteScopes request ++ rq_ArtifactScopes request → below y x → x = y.
Proof.
  intros Hr Hx Hy. eapply canonical_scopes_apart; [apply (ro_writable _ Hr)|..]; unfold Sort;
    by rewrite merge_sort_Permutation.
Qed.

(** A write scope and an artifact scope are different and not nested. *)
Lemma kinds_apart request w a :
  request_ok request → w ∈ rq_WriteScopes request → a ∈ rq_ArtifactScopes request →
  ¬ below w a ∧ ¬ below a w.
Proof.
  intros Hr Hw Ha. assert (w ≠ a) as Hne.
  { pose proof (ro_writable _ Hr) as Hv. unfold validateCanonicalScopes in Hv.
    apply res_bind_ok in Hv as ([] & (_ & Hs & _)%canonical_paths_ok & _). apply strict_NoDup in Hs.
    unfold Sort in Hs. rewrite merge_sort_Permutation in Hs. apply NoDup_app in Hs as (_ & Hs & _).
    intros ->. by apply (Hs a). }
  assert (∀ x y, x ∈ rq_WriteScopes request ++ rq_ArtifactScopes request →
    y ∈ rq_WriteScopes request ++ rq_ArtifactScopes request → below y x → x = y) as Happ
    by (intros x y; by apply writable_apart).
  split; intros Hb; apply Hne; [symmetry|]; apply Happ; try done; apply elem_of_app; auto.
Qed.

(** The fences a request must hold: its worktree, and every writable scope with
    its ancestors. *)
Lemma fences_elem request k :
  k ∈ ExpectedDeliveryFenceKeys request ↔
  k = "worktree" +:+ NUL +:+ rq_DeliveryID request ∨
  (∃ s r, s ∈ rq_WriteScopes request ∧ below s r ∧ k = "file" +:+ NUL +:+ r) ∨
  (∃ s r, s ∈ rq_ArtifactScopes request ∧ below s r ∧ k = "artifact" +:+ NUL +:+ r).
Proof.
  assert (∀ ty l, k ∈ (λ r, ty +:+ NUL +:+ r) <$> mjoin (scopeAndAncestors <$> l) ↔
    ∃ s r, s ∈ l ∧ below s r ∧ k = ty +:+ NUL +:+ r) as Hf.
  { intros ty l. rewrite list_elem_of_fmap. setoid_rewrite list_elem_of_join.
    setoid_rewrite list_elem_of_fmap. split.
    - intros (r & -> & l' & Hr & s & -> & Hs). exists s, r. split_and!; [done| |done].
      by apply ancestors_spec in Hr.
    - intros (s & r & Hs & Hr & ->). exists r. split; [done|]. exists (scopeAndAncestors s).
      split; [by apply ancestors_spec|eauto]. }
  unfold ExpectedDeliveryFenceKeys, Sort. rewrite Compact_elem, merge_sort_Permutation.
  by rewrite elem_of_cons, elem_of_app, !Hf.
Qed.

Lemma fences_strict request : StronglySorted string_lt (ExpectedDeliveryFenceKeys request).
Proof. apply Compact_strict, StronglySorted_merge_sort; apply _. Qed.

(** ** Reports *)

Definition passed (c : ValidationCheck) : Prop := vc_Status c = "passed".

Lemma tally_loop checks t t' :
  loop tally_check t checks = Ok t' →
  (ta_allPassed t' = true → ta_allPassed t = true ∧ ∀ c, c ∈ checks → passed c) ∧
  (ta_cleanFound t' = true → ta_cleanFound t = true ∨
     ∃ c, c ∈ checks ∧ vc_CheckID c = "clean-checkout" ∧ vc_Kind c = "independent") ∧
  ta_checkIDs t' = ta_checkIDs t ++ (vc_CheckID <$> checks).
Proof.
  revert t. induction checks as [|c checks IH]; intros t; cbn [loop].
  { intros [= <-]. rewrite app_nil_r. split_and!; [|by left|done]. intros Hp. split; [done|].
    by intros c ?%elem_of_nil. }
  intros (t1 & H1 & H2)%res_bind_ok. destruct (IH _ H2) as (Hp & Hc & Hids). clear IH H2.
  unfold tally_check in H1. do 3 (apply res_bind_ok in H1 as ([] & ?Hg & H1)). injection H1 as <-.
  cbn [ta_allPassed ta_cleanFound ta_checkIDs] in *. apply fail_if_ok in Hg1. split_and!.
  - intros [Ha Hall]%Hp. apply andb_true_iff in Ha as [Ha Hc1%bool_decide_eq_true]. split; [done|].
    intros c' [->|Hc']%elem_of_cons; [done|by apply Hall].
  - intros [Hf|(c' & Hc' & Hk)]%Hc; [|right; exists c'; split; [by right|done]].
    apply orb_true_iff in Hf as [Hf|Hf]; [by left|right]. exists c. rewrite Hf in Hg1. cbn in Hg1.
    apply negb_false_iff, bool_decide_eq_true in Hg1. apply bool_decide_eq_true in Hf.
    split; [by left|done].
  - rewrite Hids. by rewrite <-app_assoc.
Qed.

Lemma report_passed report :
  ValidateValidationReport report = Ok tt → vr_Status report = "passed" →
  (∀ c, c ∈ vr_Checks report → passed c) ∧
  (∃ c, c ∈ vr_Checks report ∧ vc_CheckID c = "clean-checkout" ∧ vc_Kind c = "independent") ∧
  vr_CleanCheckout report = true ∧ NoDup (vc_CheckID <$> vr_Checks report).
Proof.
  unfold ValidateValidationReport. intros Hok Hst.
  do 5 (apply res_bind_ok in Hok as ([] & _ & Hok)). apply res_bind_ok in Hok as (t & Ht & Hok).
  apply tally_loop in Ht as (Hp & Hc & Hids). cbn [ta_allPassed ta_cleanFound ta_checkIDs app] in *.
  apply res_bind_ok in Hok as ([] & _ & Hok). do 4 (apply res_bind_ok in Hok as ([] & ?Hg & Hok)).
  apply fail_if_ok in Hg, Hg0, Hg2, Hok. rewrite Hst in Hg2, Hok. cbn in Hg2, Hok.
  apply orb_false_iff in Hg as [Hcf%negb_false_iff _]. apply negb_false_iff in Hok, Hg0, Hg2.
  apply eqb_prop in Hg2. split_and!; [by apply Hp| |done|].
  - by destruct (Hc Hcf) as [Hf|Hf].
  - rewrite <-Hids. by apply strict_NoDup, sortedUnique_spec.
Qed.

Lemma completed_pass kind checks id :
  did_pass (completed kind checks) id = true →
  ∃ c, c ∈ checks ∧ vc_CheckID c = id ∧ vc_Kind c = kind ∧ passed c.
Proof.
  unfold did_pass, completed. induction checks as [|c l IH] using rev_ind; intros Hd; [done|].
  rewrite foldl_snoc in Hd.
  assert ((∃ c, c ∈ l ∧ vc_CheckID c = id ∧ vc_Kind c = kind ∧ passed c) →
    ∃ c', c' ∈ l ++ [c] ∧ vc_CheckID c' = id ∧ vc_Kind c' = kind ∧ passed c') as Hl.
  { intros (c' & Hc' & Hk). exists c'. split; [apply elem_of_app; by left|done]. }
  destruct (bool_decide (vc_Kind c = kind)) eqn:Hk; [|by apply Hl, IH].
  rewrite lookup_insert in Hd. case_decide as Hid; [|by apply Hl, IH].
  cbn in Hd. apply bool_decide_eq_true in Hd, Hk. exists c.
  split; [apply elem_of_app; right; by left|done].
Qed.

(** ** Publications *)

Section publications.
Context `{Sha256, DeliveryJson}.

Lemma Cut_spec s sep a b : Cut s sep = (a, b, true) → s = a +:+ sep +:+ b.
Proof.
  revert a b. induction s as [|c s IH]; intros a b; cbn [Cut].
  - destruct (strip_prefix sep "") as [r|] eqn:Hp; [|done]. intros [= <- <-]. exact (strip_prefix_Some _ _ _ Hp).
  - destruct (strip_prefix sep (String c s)) as [r|] eqn:Hp.
    + intros [= <- <-]. exact (strip_prefix_Some _ _ _ Hp).
    + destruct (Cut s sep) as [[a' b'] found]. intros [= <- <- ->]. by rewrite (IH a' b').
Qed.

(** One owner, positive tokens. *)
Lemma receipt_fences_ok receipt :
  validateDeliveryReceiptStructure receipt = Ok tt →
  (∀ p, p ∈ rt_ChangedPaths receipt → Forall plain (Split_slash p)) ∧
  (∃ owner, owner ≠ "" ∧ ∀ f, f ∈ rt_LeaseFences receipt →
     fn_OwnerID f = owner ∧ (1 ≤ fn_FencingToken f)%Z) ∧
  ∃ path digest, rt_ValidationReportRef receipt = path +:+ "#sha256=" +:+ digest ∧
    Cut (rt_ValidationReportRef receipt) "#sha256=" = (path, digest, true).
Proof.
  unfold validateDeliveryReceiptStructure. intros Hok.
  do 7 (apply res_bind_ok in Hok as ([] & _ & Hok)). apply res_bind_ok in Hok as ([] & Hpaths & Hok).
  apply res_bind_ok in Hok as ([] & Href & Hok). apply res_bind_ok in Hok as ([] & _ & Hok).
  apply canonical_paths_ok in Hpaths as (_ & _ & Hpaths). split_and!.
  - intros p Hp. by apply Hpaths, canonical_plain in Hp as [? _].
  - destruct (rt_LeaseFences receipt) as [|f [|f1 [|f2 fs]]]; try discriminate Hok.
    apply res_bind_ok in Hok as ([] & Hloop & _).
    apply (loop_checks _ (λ g, fn_OwnerID g ≠ "" ∧ fn_OwnerID g = fn_OwnerID f ∧ (1 ≤ fn_FencingToken g)%Z))
      in Hloop.
    + rewrite Forall_forall in Hloop. exists (fn_OwnerID f). split; [apply Hloop; by left|].
      by intros g (_ & ? & ?)%Hloop.
    + intros [] g [] Hg. unfold check_fence in Hg. apply res_bind_ok in Hg as ([] & H1 & Hg).
      apply res_bind_ok in Hg as ([] & H2 & _). apply fail_if_ok in H1, H2. bool_prop.
      destruct H1. split_and!; [done..|lia].
  - unfold validateContentReference in Href. destruct (Cut _ _) as [[path digest] found] eqn:Hcut.
    apply res_bind_ok in Href as ([] & Hg & _). apply fail_if_ok in Hg.
    apply orb_false_iff in Hg as [Hg _]. apply orb_false_iff in Hg as [Hg%negb_false_iff _]. subst found.
    exists path, digest. split; [by apply Cut_spec|done].
Qed.

(** What the checks of a publication establish one by one. *)
Record publication_checks (request : DeliveryRequest) (report : ValidationReport) (manifest : string)
    (receipt : DeliveryReceipt) : Prop := {
  pc_request : ValidateDeliveryRequest request = Ok tt;
  pc_report : ValidateValidationReport report = Ok tt;
  pc_receipt : validateDeliveryReceiptStructure receipt = Ok tt;
  pc_status : vr_Status report = "passed";
  pc_configured : ∀ id, id ∈ default [] (rq_MechanicalValidatorIDs request) →
    did_pass (completed "configured" (vr_Checks report)) id = true;
  pc_built_in : ∀ id, id ∈ mandatoryBuiltInCheckIDs →
    did_pass (completed "built_in" (vr_Checks report)) id = true;
  pc_identities : identities_agree request report receipt = true;
  pc_changed : ∀ p, p ∈ rt_ChangedPaths receipt → coveredByScope p (rq_WriteScopes request) = true;
  pc_digest : ∃ text, report_json report = Ok text ∧
    (Cut (rt_ValidationReportRef receipt) "#sha256=").1.2 = sha256Hex text;
  pc_manifest : (Cut (rt_EvidenceManifestRef receipt) "#sha256=").1.2 = sha256Hex manifest;
  pc_fences : fence_key <$> rt_LeaseFences receipt = ExpectedDeliveryFenceKeys request;
}.

Lemma loop_guards {A} (test : A → bool) (e : A → error) l :
  loop (λ _ a, fail_if (negb (test a)) (e a)) tt l = Ok tt → ∀ a, a ∈ l → test a = true.
Proof.
  intros Hl. apply (loop_checks _ (λ a, test a = true)) in Hl.
  - by rewrite Forall_forall in Hl.
  - intros [] a [] Ha%fail_if_ok. by apply negb_false_iff.
Qed.

Lemma ValidateDeliveryPublication_ok request report manifest receipt :
  ValidateDeliveryPublication request report manifest receipt = Ok tt →
  publication_checks request report manifest receipt.
Proof.
  unfold ValidateDeliveryPublication. intros Hok.
  do 10 (apply res_bind_ok in Hok as ([] & ?Hg & Hok)).
  destruct (Cut (rt_ValidationReportRef receipt) _) as [[reportPath reportDigest] f1] eqn:Hc1.
  destruct (Cut (rt_EvidenceManifestRef receipt) _) as [[manifestPath manifestDigest] f2] eqn:Hc2.
  apply res_bind_ok in Hok as ([] & _ & Hok). apply res_bind_ok in Hok as (text & Ht & Hok).
  do 2 (apply res_bind_ok in Hok as ([] & ?Hd & Hok)). apply res_bind_ok in Hok as (m & _ & Hok).
  apply res_bind_ok in Hok as ([] & _ & Hok). apply res_bind_ok in Hok as (found & _ & Hok).
  do 2 (apply res_bind_ok in Hok as ([] & _ & Hok)).
  apply wrapped_ok in Hg, Hg0, Ht. apply fail_if_ok, negb_false_iff in Hg2, Hg5, Hd, Hd0, Hok.
  apply bool_decide_eq_true in Hg2, Hd, Hd0, Hok.
  pose proof (loop_guards _ _ _ Hg3) as Hcf.
  pose proof (loop_guards _ _ _ Hg4) as Hbi.
  pose proof (loop_guards _ _ _ Hg8) as Hch.
  split; [exact Hg|exact Hg0|exact Hg1|exact Hg2|exact Hcf|exact Hbi|exact Hg5|exact Hch| | |exact Hok].
  - exists text. rewrite Hc1. by split.
  - by rewrite Hc2.
Qed.

(** ** Properties *)

(** C28. What a validated publication means. Author and validator differ, also in the
    receipt. Every changed path is a proper repository path below an approved
    write scope, and neither below an artifact scope nor above one: delivered
    code cannot touch the evidence. Every check passed, among them the
    independent clean checkout, the five mandatory built-in checks and each
    approved mechanical validator. The receipt names the validated commit, the
    digest of the report and exactly the fences the request needs, all of one
    owner. *)
Theorem validated_publication_sound request report manifest receipt :
  ValidateDeliveryPublication request report manifest receipt = Ok tt →
  rt_AuthorID receipt ≠ rt_ValidatorID receipt ∧ rt_ResultCommit receipt = vr_ResultCommit report ∧
  (∀ p, p ∈ rt_ChangedPaths receipt →
     Forall plain (Split_slash p) ∧ (∃ w, w ∈ rq_WriteScopes request ∧ below p w) ∧
     ∀ a, a ∈ rq_ArtifactScopes request → ¬ below p a ∧ ¬ below a p) ∧
  (∀ c, c ∈ vr_Checks report → passed c) ∧
  (∃ c, c ∈ vr_Checks report ∧ vc_CheckID c = "clean-checkout" ∧ vc_Kind c = "independent") ∧
  (∀ id, id ∈ mandatoryBuiltInCheckIDs →
     ∃ c, c ∈ vr_Checks report ∧ vc_CheckID c = id ∧ vc_Kind c = "built_in") ∧
  (∀ id, id ∈ default [] (rq_MechanicalValidatorIDs request) →
     ∃ c, c ∈ vr_Checks report ∧ vc_CheckID c = id ∧ vc_Kind c = "configured") ∧
  (∃ path text, report_json report = Ok text ∧
     rt_ValidationReportRef receipt = path +:+ "#sha256=" +:+ sha256Hex text) ∧
  fence_key <$> rt_LeaseFences receipt = ExpectedDeliveryFenceKeys request ∧
  ∃ owner, ∀ f, f ∈ rt_LeaseFences receipt → fn_OwnerID f = owner ∧ (1 ≤ fn_FencingToken f)%Z.
Proof.
  intros [Hreq Hrep Hrec Hst Hcf Hbi Hid Hch (text & Htext & Hdig) _ Hf]%ValidateDeliveryPublication_ok.
  apply ValidateDeliveryRequest_ok in Hreq. destruct (report_passed _ Hrep Hst) as (Hall & Hclean & _).
  destruct (receipt_fences_ok _ Hrec) as (Hplain & (owner & _ & Howner) & path & digest & Href & Hcut).
  rewrite Hcut in Hdig. cbn in Hdig. unfold identities_agree in Hid.
  repeat (apply andb_true_iff in Hid as [Hid ?Hi]). rewrite !bool_decide_eq_true in *.
  split_and!; [pose proof (ro_people _ Hreq); congruence|done| |done|done| | | |done|by exists owner].
  - intros p Hp. pose proof (proj1 (covered_spec _ _) (Hch p Hp)) as (w & Hw & Hpw).
    split_and!; [by apply Hplain|by exists w|]. intros a Ha.
    destruct (kinds_apart _ w a Hreq Hw Ha) as [Hwa Haw]. split; intros Hb.
    + by destruct (prefix_weak_total _ _ _ Hpw Hb).
    + apply Haw. unfold below in *. by etrans.
  - intros id Hin. apply Hbi, completed_pass in Hin as (c & ? & ? & ? & _). eauto.
  - intros id Hin. apply Hcf, completed_pass in Hin as (c & ? & ? & ? & _). eauto.
  - exists path, text. by rewrite <-Hdig.
Qed.
End publications.
