(* ===== verification/DeliveryLeases.v ===== *)
(** * Package [internal/execution]: the lease set of a delivery ([pipeline.go])

    [acquireDeliveryLeases] asks for the fences the receipt will have to name.
    The request for a set is accepted exactly when no write scope shares its first
    component with an artifact scope, and a set that is granted consists of exactly
    these fences. *)

From S2P Require Import Prelude GoLib Fault Contracts Identity LeasePaths Postgres DeliveryContracts.
From S2P Require Import Leases LeaseSets LeaseExpansion DeliveryScopes.
From Stdlib Require Import Ascii.

(** The loop over the encoded keys. *)
Definition decode_fence (tenant repository : string) (keys : list LeaseKey) (encoded : string)
    : result (list LeaseKey) :=
  let '(resourceType, resourceID, ok) := Cut encoded NUL in
  _ ← fail_if (negb ok || bool_decide (resourceType = "") || bool_decide (resourceID = ""))
        (ErrorString (Sprintf "invalid derived delivery fence %q" [encoded]));
  Ok (keys ++ [mkLeaseKey tenant repository resourceType resourceID]).

Definition delivery_keys (request : DeliveryRequest) : result (list LeaseKey) :=
  '(storageTenant, storageRepository) ←
    RepositoryStorageIdentity (rq_TenantID request) (rq_RepositoryID request);
  loop (decode_fence storageTenant storageRepository) [] (ExpectedDeliveryFenceKeys request).

Definition acquireDeliveryLeases `{Clock, Database, TimeText, Sha256, Collation} (st : PgStore)
    (ownerID : string) (request : DeliveryRequest) : M error (DB Tables) LeaseSet :=
  keys ← lift (delivery_keys request);
  AcquireLeaseSet st (rq_AttemptID request) keys ownerID
    (wrap64 (rq_LeaseTTLMS request * Millisecond)).

(** ** The keys *)

Lemma Cut_NUL (a b : string) : nul_free a = true → Cut (a +:+ NUL +:+ b) NUL = (a, b, true).
Proof.
  intros Ha. induction a as [|c a IH]; [by destruct b|]. apply nul_free_cons in Ha as [Hc Ha].
  rewrite string_app_cons. change (Cut (String c ?s) NUL) with
    (match strip_prefix NUL (String c s) with
     | Some after => ("", after, true)
     | None => let '(before, after, found) := Cut s NUL in (String c before, after, found)
     end).
  rewrite IH by done. unfold NUL. cbn [strip_prefix]. by rewrite decide_False.
Qed.

(** The key an encoded fence stands for. *)
Definition key_of (tenant repository encoded : string) : LeaseKey :=
  let '(resourceType, resourceID, _) := Cut encoded NUL in
  mkLeaseKey tenant repository resourceType resourceID.

Lemma below_shape s r :
  below s r → Forall plain (Split_slash s) → contains_byte (chr 92) s = false →
  contains_byte (chr 0) s = false →
  Forall plain (Split_slash r) ∧ contains_byte (chr 92) r = false ∧ contains_byte (chr 0) r = false.
Proof.
  intros [l Hl] Hp Hb Hn. split; [rewrite Hl in Hp; by apply Forall_app in Hp as [? _]|].
  assert (∃ t, s = r +:+ t) as [t ->].
  { destruct l as [|x l].
    - exists "". rewrite string_app_nil_r. apply Split_slash_inj. by rewrite Hl, app_nil_r.
    - assert (HasPrefix s (r +:+ "/") = true) as (t & ->)%HasPrefix_spec by (apply below_spec; by exists (x :: l)).
      exists ("/" +:+ t). by rewrite string_app_assoc. }
  rewrite !contains_byte_app in Hb, Hn. by apply orb_false_iff in Hb as [-> _], Hn as [-> _].
Qed.

(** Every fence of a valid request, taken apart. *)
Lemma fence_shape request e :
  request_ok request → e ∈ ExpectedDeliveryFenceKeys request →
  ∃ ty r, e = ty +:+ NUL +:+ r ∧ r ≠ "" ∧ ty ∈ deliveryLeaseTypes ∧
    (ty = "worktree" ∧ r = rq_DeliveryID request ∨
     writable ty = true ∧ validateLeaseScopePath r = Ok tt ∧
     ∃ s, s ∈ (if decide (ty = "file") then rq_WriteScopes request else rq_ArtifactScopes request) ∧ below s r).
Proof.
  intros Hr. assert (∀ label s r, validateCanonicalScope label s false = Ok tt → below s r →
    r ≠ "" ∧ validateLeaseScopePath r = Ok tt) as Hpath.
  { intros label s r (Hp & Hb & Hn)%canonical_plain Hsr. destruct (below_shape _ _ Hsr Hp Hb Hn) as (Hp' & ? & ?).
    split; [by apply plain_shape in Hp' as (? & _)|]. by apply validateLeaseScopePath_plain. }
  assert (∀ label vs s, validateCanonicalScopes label vs false = Ok tt → s ∈ vs →
    validateCanonicalScope label s false = Ok tt) as Hscope.
  { intros label vs s ([] & (_ & _ & Hall)%canonical_paths_ok & _)%res_bind_ok Hs. by apply Hall. }
  intros [->|[(s & r & Hs & Hb & ->)|(s & r & Hs & Hb & ->)]]%fences_elem.
  - exists "worktree", (rq_DeliveryID request). split_and!; [done| |set_solver|by left].
    intros He. pose proof (ro_delivery _ Hr) as Hd. by rewrite He in Hd.
  - destruct (Hpath _ s r (Hscope _ _ _ (ro_write _ Hr) Hs) Hb).
    exists "file", r. split_and!; [done..|set_solver|right]. split_and!; [done..|by exists s].
  - destruct (Hpath _ s r (Hscope _ _ _ (ro_artifact _ Hr) Hs) Hb).
    exists "artifact", r. split_and!; [done..|set_solver|right]. split_and!; [done..|by exists s].
Qed.

Lemma key_of_fence t rp ty r :
  ty ∈ deliveryLeaseTypes → key_of t rp (ty +:+ NUL +:+ r) = mkLeaseKey t rp ty r.
Proof. intros Hty. unfold key_of. by rewrite Cut_NUL by by apply delivery_nul_free. Qed.

Lemma key_of_text t rp request e :
  request_ok request → e ∈ ExpectedDeliveryFenceKeys request → keyText (key_of t rp e) = e.
Proof. intros Hr (ty & r & -> & _ & Hty & _)%fence_shape; [|done]. by rewrite key_of_fence. Qed.

Lemma delivery_keys_ok request t rp :
  request_ok request → RepositoryStorageIdentity (rq_TenantID request) (rq_RepositoryID request) = Ok (t, rp) →
  delivery_keys request = Ok (key_of t rp <$> ExpectedDeliveryFenceKeys request).
Proof.
  intros Hr Hid. unfold delivery_keys. rewrite Hid. cbn.
  assert (∀ l acc, (∀ e, e ∈ l → e ∈ ExpectedDeliveryFenceKeys request) →
    loop (decode_fence t rp) acc l = Ok (acc ++ (key_of t rp <$> l))) as Hl; [|by apply (Hl _ [])].
  induction l as [|e l IH]; intros acc He; cbn [loop]; [by rewrite app_nil_r|].
  destruct (fence_shape request e Hr) as (ty & r & -> & Hne & Hty & _); [apply He; by left|].
  assert (decode_fence t rp acc (ty +:+ NUL +:+ r) = Ok (acc ++ [mkLeaseKey t rp ty r])) as ->.
  { unfold decode_fence. rewrite Cut_NUL by by apply delivery_nul_free.
    rewrite !bool_decide_eq_false_2; [done..|]. intros ->. set_solver. }
  rewrite fmap_cons, key_of_fence by done. cbn [mbind res_bind].
  rewrite IH by (intros e' He'; apply He; by right). by rewrite <-app_assoc.
Qed.

(** ** Which sets are accepted *)

(** File and artifact keys do not overlap. *)
Definition apart (l : list LeaseKey) : Prop :=
  ∀ k1 k2, k1 ∈ l → k2 ∈ l → k_ResourceType k1 ≠ k_ResourceType k2 →
    leaseScopesOverlap (k_ResourceID k1) (k_ResourceID k2) = false.

Lemma overlap_sym p q : leaseScopesOverlap p q = leaseScopesOverlap q p.
Proof.
  apply eq_true_iff_eq. rewrite !overlap_spec. tauto.
Qed.

Lemma apart_snoc l k :
  apart (l ++ [k]) ↔ apart l ∧ existsb (λ previous,
    negb (bool_decide (k_ResourceType previous = k_ResourceType k)) &&
    leaseScopesOverlap (k_ResourceID previous) (k_ResourceID k)) l = false.
Proof.
  rewrite <-not_true_iff_false, existsb_exists. unfold apart. setoid_rewrite elem_of_app.
  setoid_rewrite list_elem_of_singleton. split.
  - intros Ha. split; [intros k1 k2 H1 H2; by apply Ha; auto|].
    intros (p & Hp%list_elem_of_In & Ho). bool_prop. destruct Ho as [Hne Ho].
    rewrite Ha in Ho; auto. discriminate.
  - intros [Ha Hno] k1 k2 [H1| ->] [H2| ->] Hne; [by apply Ha| | |done].
    + destruct (leaseScopesOverlap _ _) eqn:Ho; [|done]. exfalso. apply Hno. exists k1.
      split; [by apply list_elem_of_In|]. by rewrite bool_decide_eq_false_2, Ho.
    + rewrite overlap_sym. destruct (leaseScopesOverlap _ _) eqn:Ho; [|done]. exfalso. apply Hno.
      exists k2. split; [by apply list_elem_of_In|]. by rewrite bool_decide_eq_false_2, Ho.
Qed.

Definition declared_by (s : PgStore) (input : LeaseKey) : list LeaseKey :=
  let key := bindLeaseKey s input in if writable (k_ResourceType key) then [key] else [].

Definition is_worktree (s : PgStore) (input : LeaseKey) : Z :=
  if bool_decide (k_ResourceType (bindLeaseKey s input) = "worktree") then 1 else 0.

Lemma expandKey_declared s x input x' :
  expandKey s x input = Ok x' → apart (x_declaredWritable x) →
  apart (x_declaredWritable x') ∧
  x_declaredWritable x' = x_declaredWritable x ++ declared_by s input.
Proof.
  unfold expandKey, declared_by. set (key := bindLeaseKey s input). intros Hok Hap.
  do 3 (apply res_bind_ok in Hok as ([] & _ & Hok)).
  apply res_bind_ok in Hok as ([declared ids] & Hd & Hok).
  destruct (expand _ _ _) as [n sn]. injection Hok as <-. cbn.
  destruct (writable _); [|injection Hd as <- <-; by rewrite app_nil_r].
  apply res_bind_ok in Hd as ([] & _ & Hd). apply res_bind_ok in Hd as ([] & Hno%fail_if_ok & Hd).
  injection Hd as <- <-. split; [|done]. by apply apart_snoc.
Qed.

Lemma expandKeys_declared s keys x x' :
  expandKeys s x keys = Ok x' → apart (x_declaredWritable x) →
  apart (x_declaredWritable x ++ mjoin (declared_by s <$> keys)).
Proof.
  revert x. induction keys as [|k keys IH]; intros x; cbn [expandKeys].
  { intros _ Ha. cbn. by rewrite app_nil_r. }
  intros (x1 & H1 & H2)%res_bind_ok Ha. destruct (expandKey_declared _ _ _ _ H1 Ha) as [Ha1 Heq].
  specialize (IH _ H2 Ha1). rewrite Heq, <-app_assoc in IH. done.
Qed.

(** An input [expandKey] has no reason to refuse by itself. *)
Record proper (s : PgStore) (k : LeaseKey) : Prop := {
  pr_bound : bindLeaseKey s k = k;
  pr_valid : validateLeaseKey k (tenantID s) (repositoryID s) = Ok tt;
  pr_type : k_ResourceType k ∈ deliveryLeaseTypes;
  pr_path : writable (k_ResourceType k) = true → validateLeaseScopePath (k_ResourceID k) = Ok tt;
}.

Lemma expandKey_total s x k :
  proper s k → keyText k ∉ x_seenInput x → apart (x_declaredWritable x ++ declared_by s k) →
  ∃ x', expandKey s x k = Ok x' ∧ x_declaredWritable x' = x_declaredWritable x ++ declared_by s k ∧
    x_seenInput x' = {[keyText k]} ∪ x_seenInput x ∧
    x_worktreeCount x' = (x_worktreeCount x + is_worktree s k)%Z.
Proof.
  intros [Hb Hv Hty Hp] Hseen Hap. unfold expandKey, declared_by, is_worktree in *. rewrite Hb in *.
  rewrite Hv. cbn [mbind res_bind]. rewrite (bool_decide_eq_true_2 (k_ResourceType k ∈ _)) by done.
  rewrite (bool_decide_eq_false_2 (keyText k ∈ _)) by done. cbn [fail_if negb mbind res_bind].
  destruct (writable (k_ResourceType k)).
  - rewrite Hp by done. cbn [mbind res_bind]. apply apart_snoc in Hap as [_ ->]. cbn.
    destruct (expand _ _ _) as [n sn]. eexists. split; [done|]. cbn. split_and!; [done..|].
    case_bool_decide; lia.
  - cbn. destruct (bool_decide (_ ∈ _)); eexists; (split; [done|]); cbn; rewrite app_nil_r;
      (split_and!; [done..|]); case_bool_decide; lia.
Qed.

Lemma apart_app_l l k : apart (l ++ k) → apart l.
Proof. intros Ha k1 k2 H1 H2. apply Ha; apply elem_of_app; by left. Qed.

Lemma expandKeys_total s keys x :
  Forall (proper s) keys → NoDup (keyText <$> keys) → (∀ k, k ∈ keys → keyText k ∉ x_seenInput x) →
  apart (x_declaredWritable x ++ mjoin (declared_by s <$> keys)) →
  ∃ x', expandKeys s x keys = Ok x' ∧
    x_worktreeCount x' = (x_worktreeCount x + foldr Z.add 0 (is_worktree s <$> keys))%Z.
Proof.
  intros Hall. revert x. induction Hall as [|k keys Hk _ IH]; intros x Hnd Hseen Hap; cbn [expandKeys].
  { exists x. cbn. split; [done|lia]. }
  rewrite !fmap_cons in *. apply NoDup_cons in Hnd as [Hk1 Hnd]. cbn in Hap. rewrite app_assoc in Hap.
  destruct (expandKey_total s x k) as (x1 & -> & Hd & Hs & Hw);
    [done|apply Hseen; by left|by eapply apart_app_l|]. cbn [mbind res_bind].
  destruct (IH x1) as (x' & -> & Hw'); [done| |by rewrite Hd|].
  - intros k' Hk'. rewrite Hs. intros [Heq%elem_of_singleton|Hin]%elem_of_union.
    + apply Hk1. rewrite <-Heq. by apply list_elem_of_fmap_2.
    + by apply (Hseen k'); [right|].
  - exists x'. split; [done|]. cbn. rewrite Hw', Hw. lia.
Qed.

(** ** Requests and their lease sets *)

(** A write scope and an artifact scope lie beneath the same top directory. *)
Definition shared_top (request : DeliveryRequest) : Prop :=
  ∃ w a, w ∈ rq_WriteScopes request ∧ a ∈ rq_ArtifactScopes request ∧
    head (Split_slash w) = head (Split_slash a).

Lemma prefix_head {A} (l k : list A) : l ≠ [] → l `prefix_of` k → head l = head k.
Proof. intros Hne [m ->]. by destruct l. Qed.

Lemma top_below s h : head (Split_slash s) = Some h → below s h ∧ Split_slash h = [h].
Proof.
  intros Hh. assert (slash_free h = true) as Hf.
  { pose proof (Split_slash_free s) as Hs. destruct (Split_slash s); [done|].
    injection Hh as ->. by apply Forall_cons in Hs as [? _]. }
  unfold below. rewrite Split_slash_single by done. split; [|done].
  destruct (Split_slash s) as [|x l]; [done|]. injection Hh as ->. by exists l.
Qed.

Lemma bind_own s k : k_RepositoryID k ≠ "" → bindLeaseKey s k = k.
Proof. intros Hk. unfold bindLeaseKey. by rewrite bool_decide_eq_false_2. Qed.

Section derived.
Context (s : PgStore) (request : DeliveryRequest).
Context (Hreq : request_ok request) (Hid : repositoryID s ≠ "").

Definition derived : list LeaseKey :=
  key_of (tenantID s) (repositoryID s) <$> ExpectedDeliveryFenceKeys request.

Lemma derived_elem k :
  k ∈ derived ↔ ∃ ty r, k = mkLeaseKey (tenantID s) (repositoryID s) ty r ∧
    ty ∈ deliveryLeaseTypes ∧ ty +:+ NUL +:+ r ∈ ExpectedDeliveryFenceKeys request.
Proof.
  unfold derived. rewrite list_elem_of_fmap. split.
  - intros (e & -> & He). pose proof He as (ty & r & -> & _ & Hty & _)%fence_shape; [|done].
    exists ty, r. by rewrite key_of_fence.
  - intros (ty & r & -> & Hty & He). exists (ty +:+ NUL +:+ r). by rewrite key_of_fence.
Qed.

Lemma derived_declared k :
  k ∈ mjoin (declared_by s <$> derived) ↔ k ∈ derived ∧ writable (k_ResourceType k) = true.
Proof.
  rewrite list_elem_of_join. unfold declared_by. cbv zeta.
  assert (∀ k', k' ∈ derived → bindLeaseKey s k' = k') as Hb.
  { intros k' (ty & r & -> & _)%derived_elem. by apply bind_own. }
  split.
  - intros (l & Hk & (k' & -> & Hk')%list_elem_of_fmap). rewrite Hb in Hk by done.
    destruct (writable _) eqn:Hw; [|by apply elem_of_nil in Hk].
    apply list_elem_of_singleton in Hk as ->. done.
  - intros [Hk Hw]. exists [k]. split; [by left|]. apply list_elem_of_fmap. exists k. by rewrite Hb, Hw.
Qed.

(** A writable derived key, by its kind. *)
Lemma derived_writable k :
  k ∈ derived → writable (k_ResourceType k) = true →
  ∃ scope, below scope (k_ResourceID k) ∧
    (k_ResourceType k = "file" ∧ scope ∈ rq_WriteScopes request ∨
     k_ResourceType k = "artifact" ∧ scope ∈ rq_ArtifactScopes request).
Proof.
  intros (ty & r & -> & Hty & He)%derived_elem. cbn. intros Hw.
  apply fences_elem in He as [He|[(x & q & Hx & Hb & He)|(x & q & Hx & Hb & He)]];
    (apply nul_split_inj in He as [-> ->]; [|by apply delivery_nul_free|done]).
  - done.
  - exists x. auto.
  - exists x. auto.
Qed.

Lemma derived_apart : apart (mjoin (declared_by s <$> derived)) ↔ ¬ shared_top request.
Proof.
  split.
  - intros Ha (w & a & Hw & Hart & Heq).
    destruct (head (Split_slash w)) as [h|] eqn:Hh; [|by destruct (Split_slash w) eqn:E; [apply Split_slash_ne in E|]].
    destruct (top_below _ _ Hh) as [Hbw _], (top_below _ _ (eq_sym Heq)) as [Hba _].
    assert (∀ ty, ty = "file" ∨ ty = "artifact" →
      mkLeaseKey (tenantID s) (repositoryID s) ty h ∈ mjoin (declared_by s <$> derived)) as Hin.
    { intros ty Hty. apply derived_declared. split; [|by destruct Hty as [->| ->]]. apply derived_elem.
      exists ty, h. split_and!; [done|set_solver|]. apply fences_elem. destruct Hty as [->| ->]; naive_solver. }
    assert (leaseScopesOverlap h h = false) as Ho by (refine (Ha _ _ (Hin "file" _) (Hin "artifact" _) _); auto).
    assert (leaseScopesOverlap h h = true) as Ht by (apply overlap_spec; by left). by rewrite Ht in Ho.
  - intros Hno k1 k2 [H1 W1]%derived_declared [H2 W2]%derived_declared Hne.
    destruct (derived_writable k1 H1 W1) as (s1 & B1 & K1), (derived_writable k2 H2 W2) as (s2 & B2 & K2).
    destruct (leaseScopesOverlap _ _) eqn:Ho; [|done]. exfalso. apply Hno.
    assert (head (Split_slash s1) = head (Split_slash s2)) as Heq.
    { pose proof (prefix_head _ _ (Split_slash_ne _) B1) as <-.
      pose proof (prefix_head _ _ (Split_slash_ne _) B2) as <-.
      apply overlap_spec in Ho as [Ho|Ho]; apply prefix_head in Ho; auto using Split_slash_ne. }
    destruct K1 as [[E1 M1]|[E1 M1]], K2 as [[E2 M2]|[E2 M2]]; try congruence.
    + by exists s1, s2.
    + by exists s2, s1.
Qed.
End derived.

Lemma RuneCount_le skip s : count_runes skip s ≤ String.length s.
Proof.
  revert skip. induction s as [|c s IH]; intros [|k]; cbn [count_runes String.length]; [done..| |].
  - apply le_n_S, IH.
  - apply Nat.le_le_succ_r, IH.
Qed.

Lemma bounded_ok value message :
  (1 ≤ RuneCountInString value ≤ 500)%Z → boundedID value message = Ok tt.
Proof. intros [H1 H2]. unfold boundedID. by rewrite !(proj2 (Z.ltb_ge _ _)). Qed.

Lemma attempt_bounded a : match_classes attemptIDPattern a = true → (1 ≤ RuneCountInString a ≤ 500)%Z.
Proof.
  intros Hm. assert (String.length a = 44) as Hl by exact (match_classes_length _ _ Hm).
  unfold RuneCountInString. pose proof (RuneCount_le 0 a). destruct a; [done|]. cbn [count_runes] in *. lia.
Qed.

Lemma storage_nonempty t rp t' rp' : RepositoryStorageIdentity t rp = Ok (t', rp') → t' ≠ "" ∧ rp' ≠ "".
Proof.
  unfold RepositoryStorageIdentity, ValidateRepositoryIdentity.
  intros ([] & ([] & Ht & Hr)%res_bind_ok & [= <- <-])%res_bind_ok.
  apply fail_if_ok, orb_false_iff in Ht as [_ Ht], Hr as [_ Hr]. apply negb_false_iff in Ht, Hr.
  split; intros He; [by rewrite He in Ht|by rewrite He in Hr].
Qed.

Lemma derived_proper s request k :
  request_ok request → tenantID s ≠ "" → repositoryID s ≠ "" → k ∈ derived s request →
  (RuneCountInString (k_ResourceID k) ≤ 500)%Z → proper s k.
Proof.
  intros Hr Ht Hrp Hk Hl. apply derived_elem in Hk as (ty & r & -> & Hty & He); [|done]. cbn in Hl.
  pose proof He as (ty' & r' & Heq & Hne & _ & Hkind)%fence_shape; [|done].
  assert (nul_free ty' = true) as Hf.
  { destruct Hkind as [[-> _]|[Hw _]]; [done|]. unfold writable in Hw. bool_prop. by destruct Hw as [->| ->]. }
  apply nul_split_inj in Heq as [<- <-]; [|by apply delivery_nul_free|done].
  split; cbn; [by apply bind_own| |done|by destruct Hkind as [[-> _]|(_ & ? & _)]].
  assert (1 ≤ RuneCountInString r)%Z as H1 by (unfold RuneCountInString; destruct r; [done|cbn [count_runes]; lia]).
  assert (ty ∈ leaseTypes) as Hin by (unfold leaseTypes, deliveryLeaseTypes in *; set_solver).
  unfold validateLeaseKey. cbn [k_TenantID k_RepositoryID k_ResourceID k_ResourceType].
  rewrite (bool_decide_eq_false_2 _ Ht), (bool_decide_eq_false_2 _ Hrp), !(bool_decide_eq_true_2 (_ = _)) by done.
  by rewrite !(proj2 (Z.ltb_ge _ _)), (bool_decide_eq_true_2 _ Hin) by done.
Qed.

(** The keys the set is expanded to are the derived ones again. *)
Lemma derived_closed s request k :
  request_ok request → repositoryID s ≠ "" →
  (∃ input, input ∈ derived s request ∧ declares s input k) ↔ k ∈ derived s request.
Proof.
  intros Hr Hid. split.
  - intros (input & (ty & r & -> & Hty & He)%derived_elem & x & Hx & ->); [|done]. rewrite bind_own in Hx |- * by done.
    apply derived_elem; [done|]. exists ty, x. split_and!; [done..|]. revert Hx. unfold scopes. cbn [k_ResourceType k_ResourceID].
    destruct (writable ty) eqn:Hw; [|by intros ->%list_elem_of_singleton].
    rewrite ancestors_spec. intros Hx. rewrite fences_elem in He |- *.
    destruct He as [He|[(y & q & Hy & Hb & He)|(y & q & Hy & Hb & He)]];
      (apply nul_split_inj in He as [-> ->]; [|by apply delivery_nul_free|done]); [done|right; left|right; right];
      exists y, x; (split_and!; [done| |done]); by (unfold below; etrans).
  - intros Hk. exists k. split; [done|]. apply derived_elem in Hk as (ty & r & -> & _); [|done].
    exists r. rewrite bind_own by done. split; [|done]. unfold scopes. cbn [k_ResourceType k_ResourceID].
    destruct (writable ty); [by apply ancestors_spec|by left].
Qed.

Lemma sum_zero {A} (f : A → Z) l : (∀ k, k ∈ l → f k = 0%Z) → foldr Z.add 0%Z (f <$> l) = 0%Z.
Proof.
  induction l as [|k l IH]; intros Hf; [done|]. cbn. rewrite (Hf k) by by left.
  rewrite IH; [done|]. intros k' Hk'. apply Hf. by right.
Qed.

Lemma sum_single {A} (f : A → Z) l k0 :
  NoDup l → k0 ∈ l → f k0 = 1%Z → (∀ k, k ∈ l → k ≠ k0 → f k = 0%Z) →
  foldr Z.add 0%Z (f <$> l) = 1%Z.
Proof.
  induction 1 as [|k l Hk Hnd IH]; intros Hin H1 H0; [by apply elem_of_nil in Hin|].
  rewrite fmap_cons. cbn [foldr]. apply elem_of_cons in Hin as [<-|Hin].
  - rewrite H1, sum_zero; [done|]. intros k' Hk'. apply H0; [by right|]. by intros ->.
  - rewrite (H0 k), IH; [done|done|done| |by left|by intros ->].
    intros k' Hk'. apply H0. by right.
Qed.

Lemma derived_texts s request :
  request_ok request → keyText <$> derived s request = ExpectedDeliveryFenceKeys request.
Proof.
  intros Hr. unfold derived. rewrite <-list_fmap_compose.
  rewrite <-(list_fmap_id (ExpectedDeliveryFenceKeys request)) at 2. apply list_fmap_ext.
  intros i e He%list_elem_of_lookup_2. by apply (key_of_text _ _ request).
Qed.

Lemma derived_nodup s request : request_ok request → NoDup (keyText <$> derived s request).
Proof. intros Hr. rewrite derived_texts by done. apply strict_NoDup, fences_strict. Qed.

Lemma derived_worktrees s request :
  request_ok request → repositoryID s ≠ "" →
  foldr Z.add 0%Z (is_worktree s <$> derived s request) = 1%Z.
Proof.
  intros Hr Hid. apply (sum_single _ _ (mkLeaseKey (tenantID s) (repositoryID s) "worktree" (rq_DeliveryID request))).
  - by eapply NoDup_fmap_1, derived_nodup.
  - apply derived_elem; [done|]. eexists _, _. split_and!; [done|set_solver|]. apply fences_elem. by left.
  - unfold is_worktree. by rewrite bind_own.
  - intros k (ty & r & -> & Hty & He)%derived_elem Hne; [|done]. unfold is_worktree. rewrite bind_own by done.
    cbn. rewrite bool_decide_eq_false_2; [done|]. intros ->. apply Hne. f_equal.
    apply fences_elem in He as [He|[(x & q & Hx & Hb & He)|(x & q & Hx & Hb & He)]];
      by apply nul_split_inj in He as [? ?].
Qed.

(** The limits [validateLeaseSetInput] puts on a set of its own accord. *)
Record within_limits (s : PgStore) (ownerID : string) (request : DeliveryRequest) : Prop := {
  wl_owner : (1 ≤ RuneCountInString ownerID ≤ 500)%Z;
  wl_ttl : (rq_LeaseTTLMS request ≤ 86400000)%Z;
  wl_size : length (ExpectedDeliveryFenceKeys request) ≤ 1024;
  wl_ids : ∀ k, k ∈ derived s request → (RuneCountInString (k_ResourceID k) ≤ 500)%Z;
}.

Definition set_duration (request : DeliveryRequest) : Z := wrap64 (rq_LeaseTTLMS request * Millisecond).

Lemma duration_ok request :
  request_ok request → (rq_LeaseTTLMS request ≤ 86400000)%Z →
  let ttl := set_duration request in
  ((ttl <? Millisecond)%Z || (24 * Hour <? ttl)%Z || negb (ttl `rem` Microsecond =? 0)%Z) = false.
Proof.
  intros Hr Hle. pose proof (ro_horizon _ Hr) as Hge. unfold set_duration, MinimumPublicationLeaseTTLMS in *.
  set (n := rq_LeaseTTLMS request) in *. clearbody n.
  rewrite wrap64_id by (unfold Millisecond, Microsecond; lia).
  unfold Hour, Second, Millisecond, Microsecond. rewrite !(proj2 (Z.ltb_ge _ _)) by lia. cbn [orb].
  rewrite negb_false_iff. apply Z.eqb_eq.
  replace (n * (1000 * 1000))%Z with ((n * 1000) * 1000)%Z by lia. apply Z.rem_mul. lia.
Qed.

Section accepted.
Context `{Sha256} (s : PgStore) (ownerID : string) (request : DeliveryRequest).
Context (Hreq : request_ok request) (Htn : tenantID s ≠ "") (Hrp : repositoryID s ≠ "").

Abbreviation input := (validateLeaseSetInput s (rq_AttemptID request) (derived s request) ownerID
  (set_duration request)).
Abbreviation nothing := (mkExpansion [] ∅ ∅ [] 0).

Lemma nothing_ok : expansion_ok s nothing.
Proof. split; cbn; [set_solver|set_solver|constructor]. Qed.

Lemma expansion_size x : expandKeys s nothing (derived s request) = Ok x → x_normalized x ≡ₚ derived s request.
Proof.
  intros [Hok Hn]%expandKeys_ok; [|apply nothing_ok]. apply NoDup_Permutation.
  - apply (eo_nodup _ _ Hok).
  - by eapply NoDup_fmap_1, derived_nodup.
  - intros k. rewrite Hn, derived_closed by done. cbn [x_normalized]. rewrite elem_of_nil. tauto.
Qed.

Lemma derived_accepted :
  within_limits s ownerID request → apart (mjoin (declared_by s <$> derived s request)) →
  ∃ normalized, input = Ok (normalized, leaseMemberDigest normalized).
Proof.
  intros [Ho Ht Hn Hids] Hap.
  destruct (expandKeys_total s (derived s request) nothing) as (x & Hx & Hw); [| |set_solver|done|].
  { apply Forall_forall. intros k Hk. apply (derived_proper _ request); auto. }
  { by apply derived_nodup. }
  rewrite derived_worktrees in Hw by done. cbn in Hw.
  assert (length (derived s request) = length (ExpectedDeliveryFenceKeys request)) as Hlen by apply length_fmap.
  assert (length (ExpectedDeliveryFenceKeys request) ≠ 0) as Hne.
  { intros He%nil_length_inv. pose proof (proj2 (fences_elem request _) (or_introl eq_refl)) as Hf.
    rewrite He in Hf. by apply elem_of_nil in Hf. }
  eexists. unfold validateLeaseSetInput.
  rewrite !bounded_ok by auto using attempt_bounded, ro_attempt. cbn [mbind res_bind].
  rewrite duration_ok by done. cbn [fail_if mbind res_bind].
  rewrite Hlen, (proj2 (Nat.ltb_ge _ _)), (proj2 (Nat.ltb_ge _ _)) by lia. cbn [orb fail_if mbind res_bind].
  rewrite Hx. cbn [mbind res_bind]. rewrite Hw. cbn [Z.eqb Pos.eqb negb fail_if mbind res_bind].
  rewrite (Permutation_length (expansion_size _ Hx)), Hlen, (proj2 (Nat.ltb_ge _ _)) by lia. done.
Qed.

Lemma accepted_members normalized digest :
  input = Ok (normalized, digest) → normalized ≡ₚ derived s request.
Proof.
  intros (Hn & _ & Hnd & _)%validateLeaseSetInput_ok. apply NoDup_Permutation; [done| |].
  - by eapply NoDup_fmap_1, derived_nodup.
  - intros k. rewrite Hn. by apply derived_closed.
Qed.

Lemma accepted_fences normalized digest :
  input = Ok (normalized, digest) → keyText <$> normalized = ExpectedDeliveryFenceKeys request.
Proof.
  intros Hin. pose proof (accepted_members _ _ Hin) as Hmembers. revert Hin.
  intros (_ & _ & _ & _ & x & _ & Hsort)%validateLeaseSetInput_ok.
  apply (StronglySorted_unique String.le).
  - rewrite Hsort. assert (StronglySorted (keys_le (λ k, k)) (SortBy (λ k, k) (x_normalized x))) as Hs
      by (apply StronglySorted_merge_sort; apply _).
    clear -Hs. induction Hs as [|k l Hs IH Hall]; cbn; [constructor|]. constructor; [done|].
    apply Forall_fmap. eapply Forall_impl; [done|]. intros k'. apply (keys_le_String (λ k, k)).
  - pose proof (fences_strict request) as Hs. clear -Hs.
    induction Hs as [|k l Hs IH Hall]; constructor; [done|]. eapply Forall_impl; [done|]. by intros ? [? _].
  - rewrite <-(derived_texts s request) by done. by apply fmap_Permutation.
Qed.

Lemma accepted_apart r : input = Ok r → apart (mjoin (declared_by s <$> derived s request)).
Proof.
  unfold validateLeaseSetInput. intros Hok. do 4 (apply res_bind_ok in Hok as ([] & _ & Hok)).
  apply res_bind_ok in Hok as (x & Hx & _). apply (expandKeys_declared s _ _ _ Hx).
  cbn. intros k1 k2 H1%elem_of_nil. done.
Qed.
End accepted.

(** ** The members of a set that is granted *)

Section granted.
Context `{Clock, Database, TimeText, Sha256, Collation}.
Implicit Types (st : PgStore) (d : DB Tables).

Lemma grantMember_key st ownerID acq exp key d lease d' :
  grantMember st ownerID acq exp key d = (Ok lease, d') → l_LeaseKey lease = key.
Proof.
  unfold grantMember. intros (found & d1 & _ & (token & d2 & _ & Hrun)%M_bind_ok)%M_bind_ok.
  apply M_bind_ok in Hrun as (? & ? & _ & (? & ? & _ & [= <- _])%M_bind_ok). done.
Qed.

Lemma grantMembers_keys st ownerID acq exp keys : ∀ d leasing d',
  grantMembers st ownerID acq exp keys d = (Ok leasing, d') → l_LeaseKey <$> leasing = keys.
Proof.
  induction keys as [|key keys IH]; cbn [grantMembers]; intros d leasing d'; [by intros [= <- _]|].
  intros (lease & d1 & Hkey%grantMember_key & (rest & d2 & Hrest%IH & [= <- _])%M_bind_ok)%M_bind_ok.
  cbn. by rewrite Hkey, Hrest.
Qed.

Lemma matchMembers_keys keys : ∀ members,
  length members = length keys → matchMembers keys members None = Ok tt →
  l_LeaseKey ∘ sm_lease <$> members = keys.
Proof.
  induction keys as [|key keys IH]; intros [|member members]; try done. cbn. intros [= Hlen].
  intros ([] & Hkey & Hrest)%res_bind_ok. unfold fail_if in Hkey. case_bool_decide as Hk; [|done].
  by rewrite Hk, (IH members Hlen Hrest).
Qed.

Lemma replayed_keys st id ownerID keys d held updated d' :
  loadAndVerifyLeaseSetMembers st id ownerID keys None d = (Ok (held, updated), d') → l_LeaseKey <$> held = keys.
Proof.
  unfold loadAndVerifyLeaseSetMembers.
  intros (_ & d1 & _ & (rows & d2 & _ & (members & d3 & _ & Hrun)%M_bind_ok)%M_bind_ok)%M_bind_ok.
  apply M_bind_ok in Hrun as ([] & d4 & Hlen & Hrun). cbv zeta in Hrun.
  apply M_bind_ok in Hrun as ([] & d5 & Hmatch & [= <- _ _]).
  unfold lift, fail_if in Hlen. case_match eqn:Hcount; [done|]. apply negb_false_iff, Nat.eqb_eq in Hcount.
  injection Hmatch as Hmatch _. rewrite <-list_fmap_compose. apply matchMembers_keys; [|done].
  unfold SortBy. by rewrite merge_sort_Permutation.
Qed.

(** A lease set that is answered, new or replayed, holds the normalized keys in order. *)
Lemma AcquireLeaseSet_members st id keys ownerID ttl d ls d' :
  AcquireLeaseSet st id keys ownerID ttl d = (Ok ls, d') →
  ls_LeaseSetID ls = id ∧ ls_OwnerID ls = ownerID ∧
  ∃ digest, validateLeaseSetInput st id keys ownerID ttl = Ok (l_LeaseKey <$> ls_Leases ls, digest).
Proof.
  unfold AcquireLeaseSet. intros ([normalized digest] & d1 & [= Hin _] & Hrun)%M_bind_ok.
  apply atomically_ok in Hrun as Hbody. apply M_bind_ok in Hbody as (_ & d3 & _ & (_ & d4 & _ & (found & d5 & _ & Hbody)%M_bind_ok)%M_bind_ok).
  assert (ls_LeaseSetID ls = id ∧ ls_OwnerID ls = ownerID ∧ l_LeaseKey <$> ls_Leases ls = normalized) as (? & ? & ->);
    [|by split_and!; [..|exists digest]].
  destruct found as [existing|].
  - unfold replayLeaseSet in Hbody. cbv zeta in Hbody. do 2 (case_match; [done|]).
    apply M_bind_ok in Hbody as ([held updated] & d6 & Hheld%replayed_keys & Hbody). case_match; [done|].
    by apply M_bind_ok in Hbody as (? & ? & _ & [= <- _]).
  - unfold grantLeaseSet in Hbody. cbv zeta in Hbody.
    apply M_bind_ok in Hbody as (_ & ? & _ & (acquiredAt & ? & _ & (_ & ? & _ & Hbody)%M_bind_ok)%M_bind_ok).
    apply M_bind_ok in Hbody as (leasing & ? & Hkeys%grantMembers_keys & Hbody).
    by apply M_bind_ok in Hbody as (_ & ? & _ & (_ & ? & _ & (_ & ? & _ & [= <- _])%M_bind_ok)%M_bind_ok).
Qed.
End granted.

(** C29. The lease set a valid request asks for, if it keeps to the limits of a set, is
    accepted as input exactly when no write scope and no artifact scope lie beneath the
    same top directory, and the normalized set then names, in order, exactly the fences
    of [ExpectedDeliveryFenceKeys], which are those a receipt has to prove. Whenever
    [acquireDeliveryLeases] answers a set for such a request, granted now or replayed,
    it is the attempt's, belongs to the owner, and its members are exactly these fences. *)
Theorem derived_lease_set_exact `{Clock, Database, TimeText, Sha256, Collation} s ownerID request keys :
  ValidateDeliveryRequest request = Ok tt →
  RepositoryStorageIdentity (rq_TenantID request) (rq_RepositoryID request) = Ok (tenantID s, repositoryID s) →
  delivery_keys request = Ok keys →
  (within_limits s ownerID request →
     ¬ shared_top request ↔
     ∃ normalized, validateLeaseSetInput s (rq_AttemptID request) keys ownerID (set_duration request) =
         Ok (normalized, leaseMemberDigest normalized) ∧
       keyText <$> normalized = ExpectedDeliveryFenceKeys request) ∧
  (∀ d ls d', acquireDeliveryLeases s ownerID request d = (Ok ls, d') →
     ls_LeaseSetID ls = rq_AttemptID request ∧ ls_OwnerID ls = ownerID ∧ ¬ shared_top request ∧
     l_LeaseKey <$> ls_Leases ls ≡ₚ keys ∧
     keyText ∘ l_LeaseKey <$> ls_Leases ls = ExpectedDeliveryFenceKeys request).
Proof.
  intros Hr%ValidateDeliveryRequest_ok Hid Hk. destruct (storage_nonempty _ _ _ _ Hid) as [Htn Hrp]. split.
  - intros [Ho Ht Hn Hids]. rewrite (delivery_keys_ok _ _ _ Hr Hid) in Hk. injection Hk as <-. fold (derived s request).
    rewrite <-(derived_apart s request) by done. split.
    + intros Hap. destruct (derived_accepted s ownerID request) as (normalized & Hok); [done..|].
      exists normalized. split; [done|]. by eapply accepted_fences.
    + intros (normalized & Hok & _). by eapply accepted_apart.
  - unfold acquireDeliveryLeases. rewrite Hk. rewrite (delivery_keys_ok _ _ _ Hr Hid) in Hk. injection Hk as <-.
    fold (derived s request). intros d ls d' (? & ? & [= <- <-] & Hrun)%M_bind_ok.
    apply AcquireLeaseSet_members in Hrun as (? & ? & digest & Hin). split_and!; [done|done|..].
    + apply (derived_apart s request); [done..|]. by eapply accepted_apart.
    + by eapply accepted_members.
    + rewrite list_fmap_compose. by eapply accepted_fences.
Qed.

(** C30. When a write scope and an artifact scope lie beneath the same top
    directory, no lease set is ever granted to a valid request: the ancestors
    [ExpectedDeliveryFenceKeys] lists are passed on as declared file and artifact
    resources, which overlap. The call fails and changes nothing. *)
Theorem sibling_scopes_refused `{Clock, Database, TimeText, Sha256, Collation} st ownerID request d :
  ValidateDeliveryRequest request = Ok tt →
  RepositoryStorageIdentity (rq_TenantID request) (rq_RepositoryID request) = Ok (tenantID st, repositoryID st) →
  shared_top request →
  ∃ e, acquireDeliveryLeases st ownerID request d = (Err e, d).
Proof.
  intros Hr%ValidateDeliveryRequest_ok Hid Htop. destruct (storage_nonempty _ _ _ _ Hid) as [Htn Hrp].
  unfold acquireDeliveryLeases, AcquireLeaseSet. rewrite (delivery_keys_ok _ _ _ Hr Hid).
  fold (derived st request) (set_duration request).
  destruct (validateLeaseSetInput st (rq_AttemptID request) (derived st request) ownerID (set_duration request))
    as [[n dg]|e] eqn:Hok.
  - by apply accepted_apart, derived_apart in Hok.
  - exists e. unfold mbind, M_bind, lift. by rewrite Hok.
Qed.
