(* ===== verification/DeliverySample.v ===== *)
(** * A concrete delivery: its documents

    A request, its validation report, evidence manifest and receipt that agree,
    with digests of the right size and an encoding of just these documents. The
    witnesses of the contract and lease-set properties evaluate on them. *)

From S2P Require Import Prelude GoLib Fault Contracts Identity LeasePaths Postgres DeliveryContracts.
From S2P Require Import Leases LeaseSets LeaseExpansion DeliveryScopes DeliveryLeases.

Module Documents.

(** A digest of the right size. *)
Definition digest : string := string_of (replicate 32 (chr 0)).
#[export] Instance hashing : Sha256 := λ _, digest.

Definition uuid1 : string := "00010203-0405-4607-8809-0a0b0c0d0e0f".
Definition home : PgStore := mkPgStore uuid1 uuid1.
Definition run_id : string := "run_" +:+ uuid1.
Definition delivery : string := "delivery_" +:+ uuid1.
Definition attempt : string := "attempt_00000000-0000-4000-8000-000000000057".
Definition commit : string := string_of (replicate 40 (chr 97)).
Definition sha_text : string := hexText digest.
Definition moment (n : Z) : Time := mkTime (n * Second) 0.

Definition budgets : WorkerBudgets := mkWorkerBudgets 1000 1000 1000 1000 0 None None.

(** The request, for the given write and artifact scopes. *)
Definition request_for (writes artifacts : list string) (evidence : string) : DeliveryRequest :=
  mkDeliveryRequest delivery ("tenant_" +:+ uuid1) ("repo_" +:+ uuid1) "task" attempt run_id DeliverySchemaVersion
    "/work/repo" "/work/trees" commit ("refs/forja/deliveries/" +:+ delivery) None "author" "validator"
    "implementer" "objective" ["."] writes artifacts evidence None 1 None budgets None 60000.
Definition request : DeliveryRequest := request_for ["src"] ["out"] "out".
(** A write scope and an artifact scope beneath one directory. *)
Definition siblings : DeliveryRequest := request_for ["app/code"] ["app/logs"] "app/logs".

Definition check (id kind : string) : ValidationCheck :=
  mkValidationCheck id kind "passed" (moment 1) (moment 1) 0 None None sha_text sha_text None.
Definition report : ValidationReport :=
  mkValidationReport "validation" delivery ("tenant_" +:+ uuid1) ("repo_" +:+ uuid1) DeliverySchemaVersion "passed"
    commit commit sha_text "author" "validator" true
    [check "clean-checkout" "independent"; check "filesystem-safety" "built_in";
     check "generated-file-policy" "built_in"; check "schema-validation" "built_in";
     check "scope-boundary" "built_in"; check "secret-scan" "built_in"] (moment 2).
Definition manifest : EvidenceManifest :=
  mkEvidenceManifest delivery ("tenant_" +:+ uuid1) ("repo_" +:+ uuid1) DeliverySchemaVersion
    [mkEvidenceEntry "out/report.json" sha_text 6 "application/json"].
Definition fence (ty id : string) : DeliveryLeaseFence := mkFence ty id "sched" 1.
Definition receipt : DeliveryReceipt :=
  mkDeliveryReceipt delivery ("tenant_" +:+ uuid1) ("repo_" +:+ uuid1) DeliverySchemaVersion "published" commit commit
    commit sha_text ["src/a"] ("refs/forja/deliveries/" +:+ delivery) None "author" "validator"
    [fence "artifact" "out"; fence "file" "src"; fence "worktree" delivery]
    ("out/report.json#sha256=" +:+ sha_text) ("out/manifest.json#sha256=" +:+ sha_text)
    (moment 3) (moment 4).

Definition unknown {A} : result A := Err (ErrorString (Lit "json: unknown document")).
#[export] Instance encoding : DeliveryJson := {
  request_json _ := Ok "request";
  report_json _ := Ok "report";
  receipt_json _ := Ok "receipt";
  receipt_of_json text := if decide (text = "receipt") then Ok receipt else unknown;
  manifest_json _ := Ok "manifest";
  manifest_of_json text := if decide (text = "manifest") then Ok manifest else unknown;
  trailing_json _ := false;
}.

(** A database on its own. *)
Module Setting.
#[export] Instance ticking_clock : Clock := λ n, mkTime (Z.of_nat n * Millisecond) 0.
#[export] Instance server : Database := λ _, None.
#[export] Instance time_text : TimeText := λ _, "".
#[export] Instance key_order : Collation := λ a b,
  (countable.encode a <=? countable.encode b)%positive.
End Setting.
Import Setting.

Lemma request_valid : ValidateDeliveryRequest request = Ok tt.
Proof. vm_compute. reflexivity. Qed.
Lemma siblings_valid : ValidateDeliveryRequest siblings = Ok tt.
Proof. vm_compute. reflexivity. Qed.
Lemma home_identity :
  RepositoryStorageIdentity (rq_TenantID request) (rq_RepositoryID request) = Ok (tenantID home, repositoryID home).
Proof. vm_compute. reflexivity. Qed.

Lemma validated_publication_sound_witness :
  ValidateDeliveryPublication request report "manifest" receipt = Ok tt ∧
  ∃ w, w ∈ rq_WriteScopes request ∧ below "src/a" w.
Proof.
  assert (ValidateDeliveryPublication request report "manifest" receipt = Ok tt) as Hok
    by (vm_compute; reflexivity).
  destruct (validated_publication_sound request report "manifest" receipt Hok) as (_ & _ & Hp & _).
  split; [exact Hok|]. exact (proj1 (proj2 (Hp "src/a" (list_elem_of_here _ _)))).
Defined.

Lemma request_apart : ¬ shared_top request.
Proof.
  intros (w & a & Hw & Ha & Heq). apply list_elem_of_singleton in Hw as ->, Ha as ->. discriminate Heq.
Qed.

Lemma request_limits : within_limits home "sched" request.
Proof.
  split; [vm_compute; split; discriminate|vm_compute; discriminate|vm_compute; lia|].
  intros k Hin. assert (forallb (λ k, RuneCountInString (k_ResourceID k) <=? 500)%Z (derived home request) = true) as Hall
    by (vm_compute; reflexivity).
  rewrite forallb_forall in Hall. apply Z.leb_le, Hall, list_elem_of_In, Hin.
Qed.

Abbreviation granting := (acquireDeliveryLeases home "sched" request (mkDB (mkTables ∅ ∅ ∅) 0 0)).

Lemma request_granted : ∃ ls d', granting = (Ok ls, d').
Proof.
  assert (match granting.1 with Ok _ => true | Err _ => false end = true) as Hok by (vm_compute; reflexivity).
  destruct granting as [[ls|e] d']; [by exists ls, d'|discriminate Hok].
Qed.

(** The set is accepted, and granted on an empty database. *)
Lemma derived_lease_set_exact_witness :
  ∃ keys normalized ls d', delivery_keys request = Ok keys ∧
    keyText <$> normalized = ExpectedDeliveryFenceKeys request ∧
    validateLeaseSetInput home attempt keys "sched" (set_duration request) =
      Ok (normalized, leaseMemberDigest normalized) ∧
    granting = (Ok ls, d') ∧
    keyText ∘ l_LeaseKey <$> ls_Leases ls = ExpectedDeliveryFenceKeys request.
Proof.
  assert (delivery_keys request = Ok (derived home request)) as Hk by (vm_compute; reflexivity).
  destruct request_granted as (ls & d' & Hls).
  destruct (derived_lease_set_exact home "sched" request _ request_valid home_identity Hk) as [Hin Hout].
  destruct (proj1 (Hin request_limits) request_apart) as (normalized & Hok & Hf).
  destruct (Hout _ _ _ Hls) as (_ & _ & _ & _ & Hkeys).
  exists (derived home request), normalized, ls, d'. exact (conj Hk (conj Hf (conj Hok (conj Hls Hkeys)))).
Defined.

Lemma sibling_scopes_refused_witness :
  ∃ e, acquireDeliveryLeases home "sched" siblings (mkDB (mkTables ∅ ∅ ∅) 0 0) =
    (Err e, mkDB (mkTables ∅ ∅ ∅) 0 0).
Proof.
  apply (sibling_scopes_refused home "sched" siblings _ siblings_valid home_identity).
  exists "app/code", "app/logs". split; [apply list_elem_of_here|]. split; [apply list_elem_of_here|reflexivity].
Defined.
End Documents.
