(* ===== verification/LeaseSafety.v ===== *)
(** * Safety of leases and lease sets

    Every operation of [Leases] and [LeaseSets] on the shared tables, for any
    store and any caller, as one step relation; what a step may do to a lease
    row; and the safety properties: fencing, exclusion, atomicity, retirement. *)

From S2P Require Import Prelude GoLib Fault Identity Postgres LeasePaths Leases LeaseSets.
From S2P Require Import LeaseExpansion.

Section readers.
Context `{Clock, Database, TimeText, Sha256, Collation}.

Lemma takeLocks_reader names : reader (T := Tables) (takeLocks names).
Proof. induction names; cbn [takeLocks]; reading; eauto. Qed.
Lemma lockLeaseSetAndMembers_reader s id keys : reader (lockLeaseSetAndMembers s id keys).
Proof. unfold lockLeaseSetAndMembers. reading. apply takeLocks_reader. Qed.
Lemma loadLeaseSetForUpdate_reader s id : reader (loadLeaseSetForUpdate s id).
Proof. unfold loadLeaseSetForUpdate. reading. Qed.
Lemma scanMembers_reader s ownerID rows : ∀ members, reader (scanMembers s ownerID rows members).
Proof. induction rows; cbn [scanMembers]; reading; eauto. Qed.
#[local] Hint Resolve takeLocks_reader loadLeaseSetForUpdate_reader scanMembers_reader : forja_parts.
Lemma loadAndVerify_reader s id ownerID keys proofs :
  reader (loadAndVerifyLeaseSetMembers s id ownerID keys proofs).
Proof. unfold loadAndVerifyLeaseSetMembers. reading. Qed.
#[local] Hint Resolve loadAndVerify_reader : forja_parts.
Lemma verifyHistorical_reader s id keys proofs :
  reader (verifyHistoricalLeaseSetMembers s id keys proofs).
Proof. unfold verifyHistoricalLeaseSetMembers. reading. Qed.
Lemma verifyAuthority_reader s ls keys proofs digest minimum ttl :
  reader (verifyLeaseSetAuthorityWithMinimum s ls keys proofs digest minimum ttl).
Proof. unfold verifyLeaseSetAuthorityWithMinimum. reading. Qed.
Lemma hasActive_reader key : reader (hasActiveWritablePathLease key).
Proof. unfold hasActiveWritablePathLease. reading. Qed.
#[local] Hint Resolve hasActive_reader : forja_parts.
Lemma checkPaths_reader keys : reader (checkPaths keys).
Proof. induction keys; cbn [checkPaths]; reading; eauto. Qed.
Lemma GetLeaseSet_reader s id : reader (GetLeaseSet s id).
Proof.
  unfold GetLeaseSet. apply reader_bind; [apply reader_lift|]. intros _ st r st'.
  unfold atomically. match goal with |- context [match ?m st with _ => _ end] =>
    destruct (m st) as [[a|e] s1] eqn:Hm;
    assert (reader m) as Hr by reading; apply Hr in Hm as [Ht Hn]; by intros [= _ <-] end.
Qed.
End readers.

#[export] Hint Resolve lockLeaseSetAndMembers_reader loadLeaseSetForUpdate_reader
  loadAndVerify_reader verifyHistorical_reader verifyAuthority_reader hasActive_reader
  checkPaths_reader : forja_parts.

Section effects.
Context `{Clock, Database, TimeText, Sha256, Collation}.

(** ** Grants *)

Lemma insertSet_leases s id row st r st' :
  insertSet s id row st = (r, st') →
  readings st ≤ readings st' ∧ leases (tables st') = leases (tables st).
Proof.
  unfold insertSet. rewrite M_bind_run. destruct (statement _ _ st) as [[u|e] s1] eqn:Hst;
    apply reader_statement in Hst as [Ht Hn]; [|intros [= _ <-]; by rewrite Ht].
  rewrite M_bind_run. cbn. unfold checked. destruct (lease_sets _ !! _); intros [= _ <-]; cbn;
    by rewrite Ht.
Qed.

Lemma insertMembers_leases s id leasing : ∀ st r st',
  insertMembers s id leasing st = (r, st') →
  readings st ≤ readings st' ∧ leases (tables st') = leases (tables st).
Proof.
  induction leasing as [|lease leasing IH]; intros st r st'; cbn [insertMembers];
    [by intros [= _ <-]|].
  rewrite M_bind_run. destruct (statement _ _ st) as [[u|e] s1] eqn:Hst;
    apply reader_statement in Hst as [Ht Hn]; [|intros [= _ <-]; by rewrite Ht].
  rewrite M_bind_run. cbn. unfold checked. destruct (lease_set_members _ !! _).
  - intros [= _ <-]. by rewrite Ht.
  - rewrite !M_bind_run. cbn. rewrite M_bind_run. cbn. intros [Hn' Hl]%IH.
    cbn in Hn', Hl. rewrite Hl, Ht. split; [lia|done].
Qed.

(** A granted member: the row that was written and the row it replaced. *)
Lemma grantMember_run s ownerID acq exp key st r st' :
  grantMember s ownerID acq exp key st = (r, st') →
  readings st ≤ readings st' ∧
  ((is_ok r = false ∧ tables st' = tables st) ∨
   ∃ row, is_ok r = true ∧ row_owner row = ownerID ∧ row_acquired row = acq ∧
     row_expires row = exp ∧ (1 ≤ row_token row)%Z ∧
     tables st' = with_leases <[row_key s key := row]> (tables st) ∧
     ∀ old, leases (tables st) !! row_key s key = Some old →
       row_token row = (row_token old + 1)%Z ∧
       ∃ n, readings st ≤ n < readings st' ∧
         (instant (row_expires old) ≤ instant (clock_reading n))%Z).
Proof.
  unfold grantMember. rewrite M_bind_run.
  destruct (getLeaseForUpdate s key st) as [[o|e] s1] eqn:Hget.
  2: { apply getLeaseForUpdate_reader in Hget as [Ht Hn]. intros [= <- <-]. auto. }
  apply getLeaseForUpdate_run in Hget as (Ht1 & Hn1 & Ho). rewrite M_bind_run.
  assert (∃ tok, (match o with
     | Some (_, true) => throw (New CodeConflict "postgres.AcquireLeaseSet"
         (Sprintf "resource %s/%s is already leased" [k_ResourceType key; k_ResourceID key]))
     | Some (current, false) => mret (row_token current + 1)%Z
     | None => mret 1%Z end : M error (DB Tables) Z) s1 =
     (tok, s1) ∧ ∀ t, tok = Ok t → ∀ old, leases (tables st) !! row_key s key = Some old →
       t = (row_token old + 1)%Z ∧ readings s1 = S (readings st) ∧
       (instant (row_expires old) ≤ instant (clock_reading (readings st)))%Z)
    as (tok & -> & Htok).
  { destruct o as [[row [|]]|]; eexists; (split; [reflexivity|]); intros t [= <-] old Hold.
    - destruct Ho as (Hrow & Hn & Ha). rewrite Hrow in Hold. injection Hold as <-.
      symmetry in Ha. unfold After in Ha. bool_prop. split_and!; [done|done|lia].
    - destruct Ho. congruence. }
  destruct tok as [t|e]; [|intros [= <- <-]; auto].
  rewrite M_bind_run. destruct (statement _ _ s1) as [[u|e] s2] eqn:Hst;
    apply reader_statement in Hst as [Ht2 Hn2];
    [|intros [= <- <-]; split; [lia|left; split; [done|congruence]]].
  rewrite M_bind_run. destruct (put_lease _ _ _ s2) as [[u2|e] s3] eqn:Hput;
    apply put_lease_run in Hput as [Hr [[Hok Ht3]|(Hok & Hpos & Ht3)]]; try done;
    intros [= <- <-]; (split; [lia|]).
  - right. eexists (mkLeaseRow ownerID t acq exp acq). split_and!; try done.
    + by rewrite Ht3, Ht2, Ht1.
    + intros old Hold. destruct (Htok _ eq_refl _ Hold) as (-> & Hs1 & Hle). cbn. split; [done|].
      exists (readings st). split; [lia|done].
  - left. split; [done|congruence].
Qed.

Lemma grantMember_granted s ownerID acq exp key :
  obeys granted (grantMember s ownerID acq exp key).
Proof.
  intros st r st' [Hn [[_ Ht]|(row & _ & _ & _ & _ & Hpos & Ht & Hold)]]%grantMember_run;
    (split; [done|]; intros k; rewrite Ht); [by left|].
  rewrite lookup_put. case_decide; [|by left]. subst k. right. exists row.
  split_and!; [done..|]. intros old Hk. destruct (Hold _ Hk) as (-> & Hx). split; [lia|done].
Qed.

Lemma grantMembers_granted s ownerID acq exp keys :
  obeys granted (grantMembers s ownerID acq exp keys).
Proof.
  induction keys; cbn [grantMembers]; [apply (obeys_reader granted), reader_ret|].
  apply (obeys_bind granted); [apply grantMember_granted|intros lease].
  apply (obeys_bind granted); [done|intros leasing]. apply (obeys_reader granted), reader_ret.
Qed.

(** A computation that leaves the lease rows alone. *)
Lemma obeys_same R `{!Composes R} {A} (m : M error (DB Tables) A) :
  (∀ st r st', m st = (r, st') →
     readings st ≤ readings st' ∧ leases (tables st') = leases (tables st)) → obeys R m.
Proof.
  intros Hm st r st' Hrun. destruct (Hm _ _ _ Hrun) as [Hn Hl]. split; [done|].
  intros k. rewrite Hl. apply composes_refl.
Qed.

Lemma insertSet_same R `{!Composes R} s id row : obeys R (insertSet s id row).
Proof. apply obeys_same; [done|]. apply insertSet_leases. Qed.
Lemma insertMembers_same R `{!Composes R} s id leasing : obeys R (insertMembers s id leasing).
Proof. apply obeys_same; [done|]. apply insertMembers_leases. Qed.
#[local] Hint Resolve insertSet_same insertMembers_same grantMembers_granted
  granted_composes touched_composes : forja_parts.

Lemma grantLeaseSet_granted s id normalized digest ownerID ttl :
  obeys granted (grantLeaseSet s id normalized digest ownerID ttl).
Proof. unfold grantLeaseSet. obeying granted. Qed.
#[local] Hint Resolve grantLeaseSet_granted : forja_parts.

Lemma replayLeaseSet_reader s id normalized digest ownerID ttl existing :
  reader (replayLeaseSet s id normalized digest ownerID ttl existing).
Proof. unfold replayLeaseSet. reading. Qed.
#[local] Hint Resolve replayLeaseSet_reader : forja_parts.

Lemma AcquireLeaseSet_granted s id keys ownerID ttl :
  obeys granted (AcquireLeaseSet s id keys ownerID ttl).
Proof. unfold AcquireLeaseSet. obeying granted. Qed.

(** ** Renewals and releases: rows that were live at a given time *)

Definition touched_at (now : Time) (_ _ : nat) (o o' : option LeaseRow) : Prop :=
  o' = o ∨ ∃ r r', o = Some r ∧ o' = Some r' ∧ row_owner r' = row_owner r ∧
    row_token r' = row_token r ∧ row_acquired r' = row_acquired r ∧
    (instant now < instant (row_expires r))%Z.

#[local] Instance touched_at_composes now : Composes (touched_at now).
Proof.
  split; [by left|]. intros a b c x y z _ _ [->|Hxy] [->|Hyz]; [by left|by right|by right|].
  right. destruct Hxy as (r & r1 & ? & Hy & ? & ? & ? & ?).
  destruct Hyz as (r1' & r' & Hy' & ? & ? & ? & ? & _).
  assert (r1' = r1) as -> by congruence.
  exists r, r'. split_and!; [done..|congruence|congruence|congruence|done].
Qed.

Lemma touched_at_touched n i j i' j' o o' :
  i ≤ n < j → touched_at (clock_reading n) i' j' o o' → touched i j o o'.
Proof.
  intros Hn [->|(r & r' & ? & ? & ? & ? & ? & ?)]; [by left|right].
  exists r, r'. split_and!; [done..|]. by exists n.
Qed.

Lemma stamped {A} (k : Time → M error (DB Tables) A) :
  (∀ now, obeys (touched_at now) (k now)) → obeys touched (clock_timestamp ≫= k).
Proof.
  intros Hk st r st'. rewrite M_bind_run. cbn. intros [Hn Hrow]%Hk. cbn in Hn.
  split; [lia|]. intros key. eapply (touched_at_touched (readings st)); [lia|]. apply Hrow.
Qed.

Lemma loadLeaseSetForUpdate_run s id st o st' :
  loadLeaseSetForUpdate s id st = (Ok o, st') →
  tables st' = tables st ∧ (st_row <$> o) = lease_sets (tables st) !! setKey s id ∧
  ∀ stored, o = Some stored → readings st' = S (readings st) ∧
    st_databaseNow stored = clock_reading (readings st) ∧
    st_authorizedTTL stored = wrap64 (set_ttl_us (st_row stored) * Microsecond).
Proof.
  unfold loadLeaseSetForUpdate. rewrite M_bind_run.
  destruct (statement _ _ st) as [[u|e] st1] eqn:Hst; [|done].
  assert (tables st1 = tables st ∧ readings st1 = readings st) as [Ht Hr].
  { revert Hst. unfold statement. destruct (db_fault _); [done|]. case_match; by intros [= _ <-]. }
  rewrite M_bind_run. cbn. rewrite Ht. destruct (lease_sets _ !! _) as [row|];
    intros [= <- <-]; cbn; (split_and!; [done|done|]); [|done].
  intros stored [= <-]. cbn. by rewrite Hr.
Qed.

Lemma stamped_load {A} s id (k : option storedLeaseSet → M error (DB Tables) A) :
  obeys touched (k None) →
  (∀ stored, obeys (touched_at (st_databaseNow stored)) (k (Some stored))) →
  obeys touched (loadLeaseSetForUpdate s id ≫= k).
Proof.
  intros Hn Hs st r st'. rewrite M_bind_run.
  destruct (loadLeaseSetForUpdate s id st) as [[o|e] s1] eqn:Hl.
  - pose proof (loadLeaseSetForUpdate_reader _ _ _ _ _ Hl) as [Ht1 Hr1].
    apply loadLeaseSetForUpdate_run in Hl as (_ & _ & Hst). destruct o as [stored|].
    + destruct (Hst _ eq_refl) as (Hr & Hnow & _).
      intros [Hr2 Hrow]%Hs. split; [lia|]. intros key. specialize (Hrow key).
      rewrite Ht1, Hnow in Hrow. by eapply (touched_at_touched (readings st)); [lia|].
    + intros [Hr2 Hrow]%Hn. split; [lia|]. intros key. specialize (Hrow key). rewrite Ht1 in Hrow.
      eapply (composes_trans (R := touched)); [exact Hr1|exact Hr2|apply composes_refl|done].
  - apply loadLeaseSetForUpdate_reader in Hl as [Ht Hr]. intros [= _ <-]. split; [done|].
    intros key. rewrite Ht. by left.
Qed.

Lemma updateMember_touched op s ownerID now change proof :
  (∀ row, row_owner (change row) = row_owner row ∧ row_token (change row) = row_token row ∧
     row_acquired (change row) = row_acquired row) →
  obeys (touched_at now) (updateMember op s ownerID now change proof).
Proof.
  intros Hch. unfold updateMember. apply (obeys_bind _); [apply (obeys_reader _), reader_statement|].
  intros _ st r st'. rewrite M_bind_run. cbn.
  destruct (leases _ !! _) as [row|] eqn:Hrow; [|intros [= _ <-]; split; [done|]; by left].
  destruct (_ && _ && _) eqn:Hg; [|intros [= _ <-]; split; [done|]; by left].
  intros [Hr [[_ Ht]|(_ & _ & Ht)]]%put_lease_run; (split; [lia|]; intros k; rewrite Ht);
    [by left|]. rewrite lookup_put. destruct (decide (_ = k)) as [<-|]; [|by left]. right.
  bool_prop. destruct Hg as [_ Ha]. unfold After in Ha. bool_prop.
  destruct (Hch row) as (? & ? & ?). by exists row, (change row).
Qed.

Lemma updateMembers_touched op s ownerID now change proofs :
  (∀ row, row_owner (change row) = row_owner row ∧ row_token (change row) = row_token row ∧
     row_acquired (change row) = row_acquired row) →
  obeys (touched_at now) (updateMembers op s ownerID now change proofs).
Proof.
  intros Hch. induction proofs as [|p proofs IH]; cbn [updateMembers].
  - apply (obeys_reader _), reader_ret.
  - apply (obeys_bind _); [by apply updateMember_touched|done].
Qed.

Lemma updateSet_same R `{!Composes R} op s id change : obeys R (updateSet op s id change).
Proof.
  apply obeys_same; [done|]. intros st r st'. unfold updateSet. rewrite M_bind_run.
  destruct (statement _ _ st) as [[u|e] s1] eqn:Hst; apply reader_statement in Hst as [Ht Hn].
  - intros [= _ <-]. cbn. by rewrite Ht.
  - intros [= _ <-]. by rewrite Ht.
Qed.
#[local] Hint Resolve updateSet_same touched_at_composes : forja_parts.

Lemma RenewLeaseSet_touched s ls ttl : obeys touched (RenewLeaseSet s ls ttl).
Proof.
  unfold RenewLeaseSet. apply (obeys_bind touched); [apply (obeys_reader touched), reader_lift|].
  intros [[keys proofs] digest]. apply (obeys_atomically touched).
  do 4 (apply (obeys_bind touched); [apply (obeys_reader touched); auto 1 with forja_parts|intros ?]).
  apply stamped. intros now. apply (obeys_bind _); [by apply updateMembers_touched|intros _].
  obeying (touched_at now).
Qed.

Lemma ReleaseLeaseSet_touched s ls : obeys touched (ReleaseLeaseSet s ls).
Proof.
  unfold ReleaseLeaseSet. apply (obeys_bind touched); [apply (obeys_reader touched), reader_lift|].
  intros [[keys proofs] digest]. apply (obeys_atomically touched).
  do 2 (apply (obeys_bind touched); [apply (obeys_reader touched); auto 1 with forja_parts|intros ?]).
  apply stamped_load; [apply (obeys_reader touched), reader_throw|]. intros stored.
  assert (∀ op, obeys (touched_at (st_databaseNow stored)) (updateMembers op s (ls_OwnerID ls)
    (st_databaseNow stored) (releaseRow (st_databaseNow stored)) proofs)) as Hup
    by (intros op; by apply updateMembers_touched).
  unfold retireExpired, releaseLive. obeying (touched_at (st_databaseNow stored)).
Qed.
End effects.

(** ** All operations, by any store *)

Inductive lease_op :=
| OpVerify (s : PgStore) (proof : LeaseProof) (minimum : Z)
| OpAcquire (s : PgStore) (key : LeaseKey) (ownerID : string) (ttl : Z)
| OpRenew (s : PgStore) (key : LeaseKey) (ownerID : string) (token ttl : Z)
| OpRelease (s : PgStore) (key : LeaseKey) (ownerID : string) (token : Z)
| OpGetSet (s : PgStore) (id : string)
| OpAcquireSet (s : PgStore) (id : string) (keys : list LeaseKey) (ownerID : string) (ttl : Z)
| OpRenewSet (s : PgStore) (ls : LeaseSet) (ttl : Z)
| OpReleaseSet (s : PgStore) (ls : LeaseSet).

Section steps.
Context `{Clock, Database, TimeText, Sha256, Collation}.
Implicit Types st : DB Tables.

Definition discard {A} (m : M error (DB Tables) A) : M error (DB Tables) unit := _ ← m; mret tt.

Definition run_op (o : lease_op) : M error (DB Tables) unit :=
  match o with
  | OpVerify s proof minimum => discard (VerifyLease s proof minimum)
  | OpAcquire s key ownerID ttl => discard (AcquireLease s key ownerID ttl)
  | OpRenew s key ownerID token ttl => discard (RenewLease s key ownerID token ttl)
  | OpRelease s key ownerID token => discard (ReleaseLease s key ownerID token)
  | OpGetSet s id => discard (GetLeaseSet s id)
  | OpAcquireSet s id keys ownerID ttl => discard (AcquireLeaseSet s id keys ownerID ttl)
  | OpRenewSet s ls ttl => discard (RenewLeaseSet s ls ttl)
  | OpReleaseSet s ls => discard (ReleaseLeaseSet s ls)
  end.

(** Between operations time may pass: other sessions read the same clock. *)
Inductive lstep st : DB Tables → Prop :=
| lstep_op o r st' : run_op o st = (r, st') → lstep st st'
| lstep_tick n : readings st ≤ n → lstep st (mkDB (tables st) n (statements st)).

Lemma discard_run {A} (m : M error (DB Tables) A) st r st' :
  discard m st = (r, st') → ∃ r0, m st = (r0, st') ∧ is_ok r = is_ok r0.
Proof.
  unfold discard. rewrite M_bind_run. destruct (m st) as [[a|e] s1]; intros [= <- <-];
    [by exists (Ok a)|by exists (Err e)].
Qed.

(** What one step does to a lease row. *)
Definition row_step (i j : nat) (o o' : option LeaseRow) : Prop :=
  granted i j o o' ∨ touched i j o o'.

Lemma run_op_rows o st r st' :
  run_op o st = (r, st') → readings st ≤ readings st' ∧
  ∀ k, row_step (readings st) (readings st') (leases (tables st) !! k) (leases (tables st') !! k).
Proof.
  unfold row_step. destruct o; cbn [run_op]; intros (r0 & Hrun & _)%discard_run.
  - apply VerifyLease_reader in Hrun as [-> Hn]. split; [done|]. left. by left.
  - apply AcquireLease_granted in Hrun as [Hn Hr]. split; [done|]. by left.
  - apply RenewLease_touched in Hrun as [Hn Hr]. split; [done|]. by right.
  - apply ReleaseLease_touched in Hrun as [Hn Hr]. split; [done|]. by right.
  - apply GetLeaseSet_reader in Hrun as [-> Hn]. split; [done|]. left. by left.
  - apply AcquireLeaseSet_granted in Hrun as [Hn Hr]. split; [done|]. by left.
  - apply RenewLeaseSet_touched in Hrun as [Hn Hr]. split; [done|]. by right.
  - apply ReleaseLeaseSet_touched in Hrun as [Hn Hr]. split; [done|]. by right.
Qed.

Lemma lstep_rows st st' :
  lstep st st' → readings st ≤ readings st' ∧
  ∀ k, row_step (readings st) (readings st') (leases (tables st) !! k) (leases (tables st') !! k).
Proof.
  destruct 1 as [o r st' Hrun|n Hn]; [by eapply run_op_rows|]. cbn. split; [done|].
  left. by left.
Qed.

(** [row'] is a later version of [row]: the token did not go back, and the same
    token means the same grant. *)
Definition later (row row' : LeaseRow) : Prop :=
  (row_token row ≤ row_token row')%Z ∧
  (row_token row' = row_token row →
   row_owner row' = row_owner row ∧ row_acquired row' = row_acquired row).

#[export] Instance later_preorder : PreOrder later.
Proof.
  split.
  - intros row. unfold later. split; [lia|done].
  - intros a b c [Hab Hab'] [Hbc Hbc']. split; [lia|]. intros Heq.
    destruct Hab' as [? ?]; [lia|]. destruct Hbc' as [? ?]; [lia|]. split; congruence.
Qed.

Lemma row_step_later i j row o' :
  row_step i j (Some row) o' → ∃ row', o' = Some row' ∧ later row row'.
Proof.
  intros [[->|(r' & -> & _ & Hr)]|[->|(r & r' & [= <-] & -> & ? & ? & ? & _)]].
  - by exists row.
  - exists r'. split; [done|]. destruct (Hr row eq_refl) as [? _]. split; [lia|lia].
  - by exists row.
  - exists r'. split; [done|]. split; [lia|done].
Qed.

Lemma lsteps_later st st' k row :
  rtc lstep st st' → leases (tables st) !! k = Some row →
  ∃ row', leases (tables st') !! k = Some row' ∧ later row row'.
Proof.
  intros Hs. revert row. induction Hs as [|st st1 st' Hst _ IH]; intros row Hrow; [by exists row|].
  apply lstep_rows in Hst as [_ Hr]. specialize (Hr k). rewrite Hrow in Hr.
  apply row_step_later in Hr as (row1 & Hrow1 & Hl1).
  destruct (IH _ Hrow1) as (row' & Hrow' & Hl'). exists row'. split; [done|]. by etrans.
Qed.

(** ** Failures are atomic *)

Definition error_atomic {A} (m : M error (DB Tables) A) : Prop :=
  ∀ st e st', m st = (Err e, st') → tables st' = tables st.

Lemma ea_lift {A B} (x : result A) (k : A → M error (DB Tables) B) :
  (∀ a, error_atomic (k a)) → error_atomic (lift x ≫= k).
Proof.
  intros Hk st e st'. rewrite M_bind_run. unfold lift. destruct x as [a|e0]; [apply Hk|].
  by intros [= _ <-].
Qed.
Lemma ea_atomically {A} (m : M error (DB Tables) A) : error_atomic (atomically m).
Proof. intros st e st'. apply atomically_err. Qed.
Lemma ea_reader {A} (m : M error (DB Tables) A) : reader m → error_atomic m.
Proof. intros Hm st e st' [Ht _]%Hm. done. Qed.
Lemma ea_discard {A} (m : M error (DB Tables) A) : error_atomic m → error_atomic (discard m).
Proof. intros Hm st e st' ([a|e0] & Hrun & Hr)%discard_run; [done|]. by eapply Hm. Qed.

Lemma run_op_atomic o : error_atomic (run_op o).
Proof.
  destruct o; cbn [run_op]; apply ea_discard.
  - apply ea_reader, VerifyLease_reader.
  - apply ea_lift. intros _. apply ea_lift. intros _. apply ea_atomically.
  - apply ea_lift. intros _. apply ea_lift. intros _. apply ea_atomically.
  - apply ea_lift. intros _. apply ea_lift. intros _. apply ea_atomically.
  - apply ea_reader, GetLeaseSet_reader.
  - apply ea_lift. intros []. apply ea_atomically.
  - apply ea_lift. intros [[]]. apply ea_atomically.
  - apply ea_lift. intros [[]]. apply ea_atomically.
Qed.
End steps.

(** ** What a granted set covers *)

Section coverage.
Context `{Clock, Database, TimeText, Sha256, Collation}.
Implicit Types st : DB Tables.

(** [m] writes lease rows only at keys in [P]. *)
Definition confined (P : LeaseKey → Prop) {A} (m : M error (DB Tables) A) : Prop :=
  ∀ st r st', m st = (r, st') → ∀ k, ¬ P k → leases (tables st') !! k = leases (tables st) !! k.

Lemma confined_reader P {A} (m : M error (DB Tables) A) : reader m → confined P m.
Proof. intros Hm st r st' [Ht _]%Hm k _. by rewrite Ht. Qed.
Lemma confined_bind P {A B} (m : M error (DB Tables) A) (f : A → M error (DB Tables) B) :
  confined P m → (∀ a, confined P (f a)) → confined P (m ≫= f).
Proof.
  intros Hm Hf st r st'. rewrite M_bind_run. destruct (m st) as [[a|e] s1] eqn:Hms.
  - intros Hrun k Hk. rewrite (Hf _ _ _ _ Hrun k Hk). by apply (Hm _ _ _ Hms).
  - intros [= _ <-]. by apply (Hm _ _ _ Hms).
Qed.
Lemma confined_atomically P {A} (m : M error (DB Tables) A) :
  confined P m → confined P (atomically m).
Proof.
  intros Hm st r st'. unfold atomically. destruct (m st) as [[a|e] s1] eqn:Hms; intros [= _ <-];
    [by apply (Hm _ _ _ Hms)|done].
Qed.
Lemma confined_put P op k row : P k → confined P (put_lease op k row).
Proof.
  intros HP st r st' [_ [[_ Ht]|(_ & _ & Ht)]]%put_lease_run k' Hk'; rewrite Ht; [done|].
  rewrite lookup_put. destruct (decide (k = k')); [by subst|done].
Qed.

(** A standalone acquisition never writes a delivery resource. *)
Lemma AcquireLease_confined s key ownerID ttl :
  confined (λ k, k_ResourceType k ∉ deliveryLeaseTypes) (AcquireLease s key ownerID ttl).
Proof.
  unfold AcquireLease. set (k0 := bindLeaseKey s key). intros st r st'.
  rewrite M_bind_run. unfold lift at 1. unfold validateStandaloneLeaseType, fail_if.
  case_bool_decide as Hty; [by intros [= _ <-]|]. revert st r st'.
  apply confined_bind; [apply confined_reader, reader_lift|intros _].
  apply confined_atomically.
  do 2 (apply confined_bind; [apply confined_reader; auto 1 with forja_parts|intros ?]).
  apply confined_bind; [|intros ?; apply confined_reader; reading].
  unfold grantLease, insert_lease, takeover_lease.
  apply confined_bind; [apply confined_reader, getLeaseForUpdate_reader|intros found].
  repeat first
    [ apply confined_put; exact Hty
    | apply confined_reader; solve [auto 1 with forja_parts]
    | apply confined_bind; [|intros ?]
    | case_match ].
Qed.

(** The members after a grant: new rows with one owner and one expiry, and
    nothing else. *)
Lemma grantMembers_run s ownerID acq exp keys : ∀ st leasing st',
  grantMembers s ownerID acq exp keys st = (Ok leasing, st') →
  (∀ k, k ∈ row_key s <$> keys → ∃ row, leases (tables st') !! k = Some row ∧
     row_owner row = ownerID ∧ row_acquired row = acq ∧ row_expires row = exp) ∧
  (∀ k, k ∉ row_key s <$> keys → leases (tables st') !! k = leases (tables st) !! k) ∧
  lease_sets (tables st') = lease_sets (tables st).
Proof.
  induction keys as [|key keys IH]; intros st leasing st'; cbn [grantMembers].
  - intros [= _ <-]. split_and!; [|done..]. intros k Hk. by apply elem_of_nil in Hk.
  - rewrite M_bind_run. destruct (grantMember s ownerID acq exp key st) as [[lease|e] s1] eqn:Hg;
      [|done].
    apply grantMember_run in Hg as [_ [[Hok _]|(row & _ & Ho & Ha & He & _ & Ht & _)]]; [done|].
    rewrite M_bind_run. destruct (grantMembers s ownerID acq exp keys s1) as [[ls|e] s2] eqn:Hgs;
      [|done]. intros [= _ <-]. destruct (IH _ _ _ Hgs) as (Hin & Hout & Hsets). split_and!.
    + intros k [->|Hk]%elem_of_cons; [|by apply Hin].
      destruct (decide (row_key s key ∈ row_key s <$> keys)) as [Hk|Hk]; [by apply Hin|].
      exists row. rewrite (Hout _ Hk), Ht, lookup_put, decide_True by done. done.
    + intros k [Hne Hk]%not_elem_of_cons. rewrite (Hout _ Hk), Ht, lookup_put.
      by rewrite decide_False by congruence.
    + by rewrite Hsets, Ht.
Qed.

(** [checkPaths] succeeds only if every overlapping lease had expired. *)
Lemma checkPaths_run keys : ∀ st u st',
  checkPaths keys st = (Ok u, st') → ∀ key k row, key ∈ keys →
  writable (k_ResourceType key) = true → leases (tables st) !! k = Some row →
  k_TenantID k = k_TenantID key → k_RepositoryID k = k_RepositoryID key →
  writable (k_ResourceType k) = true →
  leaseScopesOverlap (k_ResourceID k) (k_ResourceID key) = true →
  ∃ n, readings st ≤ n < readings st' ∧
    (instant (row_expires row) ≤ instant (clock_reading n))%Z.
Proof.
  induction keys as [|key0 keys IH]; intros st u st' Hrun key k row Hin Hw Hk Ht Hr Hw' Hov;
    [by apply elem_of_nil in Hin|]. cbn [checkPaths] in Hrun.
  destruct (writable (k_ResourceType key0)) eqn:Hw0.
  - rewrite M_bind_run in Hrun.
    destruct (hasActiveWritablePathLease key0 st) as [[[|]|e] s1] eqn:Hact; [done| |done].
    pose proof (hasActive_reader _ _ _ _ Hact) as [Ht1 Hn1].
    pose proof (checkPaths_reader _ _ _ _ Hrun) as [_ Hn2].
    apply elem_of_cons in Hin as [->|Hin].
    + unfold hasActiveWritablePathLease in Hact. rewrite M_bind_run in Hact.
      destruct (statement _ _ st) as [[u0|e] s0] eqn:Hst; [|done].
      apply reader_statement in Hst as [Ht0 Hn0]. rewrite M_bind_run in Hact. cbn in Hact.
      destruct (any_live_false _ _ _ Hact (row_expires row)) as (n & ? & ?).
      2: { exists n. split; [lia|done]. }
      * unfold conflictingExpiries. apply list_elem_of_omap. exists (k, row).
        rewrite elem_of_map_to_list, Ht0. split; [done|].
        unfold leaseScopesOverlap in Hov. rewrite Ht, Hr, !bool_decide_eq_true_2, Hw', Hov by done.
        done.
    + rewrite <-Ht1 in Hk. destruct (IH _ _ _ Hrun _ _ _ Hin Hw Hk Ht Hr Hw' Hov) as (n & ? & ?).
      exists n. split; [lia|done].
  - apply elem_of_cons in Hin as [->|Hin]; [congruence|]. by eapply IH.
Qed.

Lemma insertSet_ok s id row st u st' :
  insertSet s id row st = (Ok u, st') →
  lease_sets (tables st) !! setKey s id = None ∧
  lease_sets (tables st') = <[setKey s id := row]> (lease_sets (tables st)).
Proof.
  unfold insertSet. rewrite M_bind_run. destruct (statement _ _ st) as [[u0|e] s1] eqn:Hst; [|done].
  apply reader_statement in Hst as [Ht _]. rewrite M_bind_run. cbn. unfold checked. rewrite <-Ht.
  destruct (lease_sets (tables s1) !! _) eqn:Hs; [done|]. intros [= _ <-]. done.
Qed.

Lemma insertMembers_sets s id leasing : ∀ st r st',
  insertMembers s id leasing st = (r, st') → lease_sets (tables st') = lease_sets (tables st).
Proof.
  induction leasing as [|lease leasing IH]; intros st r st'; cbn [insertMembers];
    [by intros [= _ <-]|].
  rewrite M_bind_run. destruct (statement _ _ st) as [[u|e] s1] eqn:Hst;
    apply reader_statement in Hst as [Ht Hn]; [|intros [= _ <-]; by rewrite Ht].
  rewrite M_bind_run. cbn. unfold checked. destruct (lease_set_members _ !! _).
  - intros [= _ <-]. by rewrite Ht.
  - rewrite !M_bind_run. cbn. rewrite M_bind_run. cbn. intros ->%IH. cbn. by rewrite Ht.
Qed.

(** The whole grant of a new set. *)
Lemma grantLeaseSet_run s id normalized digest ownerID ttl st ls st' :
  grantLeaseSet s id normalized digest ownerID ttl st = (Ok ls, st') →
  ∃ acq, let exp := AddInterval acq (interval (intervalString ttl)) in
  (∀ k, k ∈ row_key s <$> normalized → ∃ row, leases (tables st') !! k = Some row ∧
     row_owner row = ownerID ∧ row_acquired row = acq ∧ row_expires row = exp) ∧
  (∀ k, k ∉ row_key s <$> normalized → leases (tables st') !! k = leases (tables st) !! k) ∧
  (∀ key k row, key ∈ normalized → writable (k_ResourceType key) = true →
     leases (tables st) !! k = Some row → k_TenantID k = k_TenantID key →
     k_RepositoryID k = k_RepositoryID key → writable (k_ResourceType k) = true →
     leaseScopesOverlap (k_ResourceID k) (k_ResourceID key) = true →
     ∃ n, n < readings st' ∧ (instant (row_expires row) ≤ instant (clock_reading n))%Z) ∧
  lease_sets (tables st') !! setKey s id =
    Some (mkSetRow ownerID digest "active" acq exp acq (ttl `quot` Microsecond)%Z) ∧
  ls_OwnerID ls = ownerID ∧ ls_ExpiresAt ls = UTC exp.
Proof.
  unfold grantLeaseSet. rewrite M_bind_run. destruct (statement _ _ st) as [[u1|e] s1] eqn:Hrun1; [|done].
  apply reader_statement in Hrun1 as [Ht1 Hn1]. rewrite M_bind_run. cbn [clock_timestamp].
  set (acq := clock_reading (readings s1)). rewrite M_bind_run.
  set (s2 := mkDB (tables s1) (S (readings s1)) (statements s1)).
  destruct (checkPaths normalized s2) as [[u3|e] s3] eqn:Hrun3; [|done].
  pose proof (checkPaths_reader _ _ _ _ Hrun3) as [Ht3 Hn3]. rewrite M_bind_run.
  destruct (grantMembers _ _ _ _ _ s3) as [[leasing|e] s4] eqn:Hrun4; [|done].
  pose proof (grantMembers_granted _ _ _ _ _ _ _ _ Hrun4) as [Hn4 _].
  apply grantMembers_run in Hrun4 as (Hin & Hout & Hsets). rewrite M_bind_run.
  destruct (insertSet _ _ _ s4) as [[u5|e] s5] eqn:Hrun5; [|done].
  pose proof (insertSet_leases _ _ _ _ _ _ Hrun5) as [Hn5 Hl5]. apply insertSet_ok in Hrun5 as [_ Hs5].
  rewrite M_bind_run. destruct (insertMembers _ _ _ s5) as [[u6|e] s6] eqn:Hrun6; [|done].
  pose proof (insertMembers_leases _ _ _ _ _ _ Hrun6) as [Hn6 Hl6]. apply insertMembers_sets in Hrun6 as Hs6.
  rewrite M_bind_run. destruct (statement _ _ s6) as [[u7|e] s7] eqn:Hrun7; [|done].
  apply reader_statement in Hrun7 as [Ht7 Hn7]. intros [= <- <-].
  exists acq. cbn zeta. rewrite Ht7, Hl6, Hl5. cbn [tables s2] in Ht3. split_and!.
  - exact Hin.
  - intros k Hk. by rewrite (Hout k Hk), Ht3, Ht1.
  - intros key k row Hkey Hw Hrow ? ? ? ?. rewrite <-Ht1 in Hrow.
    destruct (checkPaths_run _ _ _ _ Hrun3 key k row) as (n & Hn & Hle); try done.
    exists n. split; [cbn in Hn; lia|done].
  - rewrite Hs6, Hs5, lookup_insert_eq. done.
  - done.
  - done.
Qed.
End coverage.

(** ** Exclusion *)

Section exclusion.
Context `{Clock, Database, TimeText, Sha256, Collation}.
Implicit Types st : DB Tables.

(** The authority a committed set ID is bound to. *)
Definition bound_to (row : LeaseSetRow) (digest ownerID : string) (ttl : Z) : Prop :=
  set_owner row = ownerID ∧ set_digest row = digest ∧ set_state row = "active" ∧
  wrap64 (set_ttl_us row * Microsecond) = ttl.

Lemma replayLeaseSet_bound s id normalized digest ownerID ttl existing st ls st' :
  st_authorizedTTL existing = wrap64 (set_ttl_us (st_row existing) * Microsecond) →
  replayLeaseSet s id normalized digest ownerID ttl existing st = (Ok ls, st') →
  bound_to (st_row existing) digest ownerID ttl.
Proof.
  intros Httl. unfold replayLeaseSet. destruct (_ || _) eqn:Hb; [done|].
  destruct (_ || _) eqn:Ha in |- *; [done|]. intros _. rewrite Httl in Hb. bool_prop.
  unfold bound_to. tauto.
Qed.

Lemma AcquireLeaseSet_cases s id keys ownerID ttl st r st' :
  AcquireLeaseSet s id keys ownerID ttl st = (r, st') →
  (tables st' = tables st ∧ ∀ ls, r = Ok ls → ∃ row normalized digest,
     validateLeaseSetInput s id keys ownerID ttl = Ok (normalized, digest) ∧
     lease_sets (tables st) !! setKey s id = Some row ∧ bound_to row digest ownerID ttl) ∨
  ∃ normalized digest ls st0,
    validateLeaseSetInput s id keys ownerID ttl = Ok (normalized, digest) ∧ r = Ok ls ∧
    lease_sets (tables st) !! setKey s id = None ∧
    tables st0 = tables st ∧ readings st ≤ readings st0 ∧
    grantLeaseSet s id normalized digest ownerID ttl st0 = (Ok ls, st').
Proof.
  unfold AcquireLeaseSet. rewrite M_bind_run. unfold lift at 1.
  destruct (validateLeaseSetInput _ _ _ _ _) as [[normalized digest]|e] eqn:Hv;
    [|intros [= <- <-]; by left].
  unfold atomically. match goal with |- context [match ?m st with _ => _ end] =>
    destruct (m st) as [r0 s0] eqn:Hbody end.
  rewrite M_bind_run in Hbody.
  destruct (statement _ _ st) as [[u1|e] s1] eqn:Hrun1; apply reader_statement in Hrun1 as [Ht1 Hn1];
    [|injection Hbody as <- <-; intros [= <- <-]; by left].
  rewrite M_bind_run in Hbody.
  destruct (lockLeaseSetAndMembers _ _ _ s1) as [[u2|e] s2] eqn:Hrun2;
    apply lockLeaseSetAndMembers_reader in Hrun2 as [Ht2 Hn2];
    [|injection Hbody as <- <-; intros [= <- <-]; by left].
  rewrite M_bind_run in Hbody.
  destruct (loadLeaseSetForUpdate s id s2) as [[found|e] s3] eqn:Hrun3;
    [|injection Hbody as <- <-; intros [= <- <-]; by left].
  pose proof (loadLeaseSetForUpdate_reader _ _ _ _ _ Hrun3) as [Ht3 Hn3].
  apply loadLeaseSetForUpdate_run in Hrun3 as (_ & Hfound & Httl).
  destruct found as [existing|].
  - assert (reader (replayLeaseSet s id normalized digest ownerID ttl existing)) as Hrd
      by (unfold replayLeaseSet; reading).
    pose proof (Hrd _ _ _ Hbody) as [Ht4 _]. intros Hout. left. split.
    + destruct r0; injection Hout as _ <-; cbn; congruence.
    + intros ls ->. destruct r0 as [ls0|e]; [|done]. injection Hout as -> ->.
      exists (st_row existing), normalized, digest. rewrite Ht2, Ht1 in Hfound.
      split_and!; [done|done|]. eapply replayLeaseSet_bound; [by apply Httl|exact Hbody].
  - destruct r0 as [ls|e]; [|intros [= <- <-]; by left]. intros [= <- <-]. right.
    exists normalized, digest, ls, s3. split_and!; try done; [|congruence|lia].
    rewrite Ht2, Ht1 in Hfound. cbn in Hfound. done.
Qed.

(** Two keys whose holders could write the same path. *)
Definition rivals (k1 k2 : LeaseKey) : Prop :=
  k_TenantID k1 = k_TenantID k2 ∧ k_RepositoryID k1 = k_RepositoryID k2 ∧
  writable (k_ResourceType k1) = true ∧ writable (k_ResourceType k2) = true ∧
  leaseScopesOverlap (k_ResourceID k1) (k_ResourceID k2) = true.

Lemma rivals_sym k1 k2 : rivals k1 k2 → rivals k2 k1.
Proof.
  intros (? & ? & ? & ? & Hov). unfold rivals. split_and!; try done.
  apply overlap_spec. apply overlap_spec in Hov. tauto.
Qed.

(** [row] has not expired when the clock is read next. *)
Definition live st (row : LeaseRow) : Prop :=
  (instant (clock_reading (readings st)) < instant (row_expires row))%Z.

Definition same_grant (r1 r2 : LeaseRow) : Prop :=
  row_owner r1 = row_owner r2 ∧ row_acquired r1 = row_acquired r2.

Definition exclusive st : Prop :=
  ∀ k1 k2 r1 r2, rivals k1 k2 → leases (tables st) !! k1 = Some r1 →
    leases (tables st) !! k2 = Some r2 → live st r1 → live st r2 → same_grant r1 r2.

Definition clock_monotone : Prop :=
  ∀ i j, i ≤ j → (instant (clock_reading i) ≤ instant (clock_reading j))%Z.

Context (Hmono : clock_monotone).

(** A row that is live afterwards and was not granted anew was live before. *)
Lemma touched_live st st' o row' :
  readings st ≤ readings st' → touched (readings st) (readings st') o (Some row') →
  live st' row' → ∃ row, o = Some row ∧ live st row ∧ same_grant row row'.
Proof.
  intros Hn Ht Hl. unfold live in *.
  destruct Ht as [<-|(r & r' & -> & [= ->] & Ho & _ & Ha & n & Hr & Hlt)].
  - exists row'. split_and!; [done| |done]. specialize (Hmono _ _ Hn). lia.
  - exists r. split_and!; [done| |done]. specialize (Hmono (readings st) n). lia.
Qed.

Lemma calm_exclusive st st' :
  readings st ≤ readings st' →
  (∀ k, writable (k_ResourceType k) = true →
     touched (readings st) (readings st') (leases (tables st) !! k) (leases (tables st') !! k)) →
  exclusive st → exclusive st'.
Proof.
  intros Hn Ht Hex k1 k2 r1 r2 Hriv Hr1 Hr2 Hl1 Hl2.
  destruct Hriv as (? & ? & Hw1 & Hw2 & ?).
  pose proof (Ht k1 Hw1) as Ht1. rewrite Hr1 in Ht1.
  pose proof (Ht k2 Hw2) as Ht2. rewrite Hr2 in Ht2.
  destruct (touched_live _ _ _ _ Hn Ht1 Hl1) as (r1' & Hr1' & Hl1' & Ho1 & Ha1).
  destruct (touched_live _ _ _ _ Hn Ht2 Hl2) as (r2' & Hr2' & Hl2' & Ho2 & Ha2).
  destruct (Hex k1 k2 r1' r2') as [Ho Ha]; try done. split; congruence.
Qed.

Lemma still_exclusive st st' :
  readings st ≤ readings st' → tables st' = tables st → exclusive st → exclusive st'.
Proof. intros Hn Ht. apply calm_exclusive; [done|]. intros k _. rewrite Ht. by left. Qed.

Lemma writable_delivery ty : writable ty = true → ty ∈ deliveryLeaseTypes.
Proof.
  unfold writable, deliveryLeaseTypes. rewrite orb_true_iff, !bool_decide_eq_true.
  rewrite !elem_of_cons. tauto.
Qed.

Lemma row_key_own s k : own_key s k → row_key s k = k.
Proof. destruct k. intros (? & ? & _). unfold row_key. cbn in *. congruence. Qed.

Lemma grant_exclusive s id keys ownerID ttl normalized digest st ls st' :
  validateLeaseSetInput s id keys ownerID ttl = Ok (normalized, digest) →
  readings st ≤ readings st' →
  grantLeaseSet s id normalized digest ownerID ttl st = (Ok ls, st') →
  exclusive st → exclusive st'.
Proof.
  intros Hv Hn Hrun Hex. apply validateLeaseSetInput_ok in Hv as (_ & Hown & _).
  apply grantLeaseSet_run in Hrun as (acq & Hin & Hout & Hchk & _).
  assert (row_key s <$> normalized = normalized) as Hkeys.
  { rewrite <-(list_fmap_id normalized) at 2. apply list_fmap_ext. intros i k Hk.
    apply row_key_own, Hown. by eapply list_elem_of_lookup_2. }
  rewrite Hkeys in Hin, Hout.
  assert (∀ k row, leases (tables st) !! k = Some row → live st' row → live st row) as Hback.
  { intros k row _. unfold live. specialize (Hmono _ _ Hn). lia. }
  assert (∀ k1 k2 r1 r2, rivals k1 k2 → k1 ∈ normalized → k2 ∉ normalized →
    leases (tables st') !! k1 = Some r1 → leases (tables st') !! k2 = Some r2 →
    live st' r2 → False) as Hmixed.
  { intros k1 k2 r1 r2 (Ht & Hr & Hw1 & Hw2 & Hov) Hk1 Hk2 _ Hr2 Hl2. rewrite (Hout _ Hk2) in Hr2.
    destruct (Hchk k1 k2 r2) as (n & Hn' & Hle); try done.
    - apply overlap_spec. apply overlap_spec in Hov. tauto.
    - unfold live in Hl2. specialize (Hmono n (readings st')). lia. }
  intros k1 k2 r1 r2 Hriv Hr1 Hr2 Hl1 Hl2.
  destruct (decide (k1 ∈ normalized)) as [Hk1|Hk1], (decide (k2 ∈ normalized)) as [Hk2|Hk2].
  - destruct (Hin _ Hk1) as (r1' & Hr1' & Ho1 & Ha1 & _).
    destruct (Hin _ Hk2) as (r2' & Hr2' & Ho2 & Ha2 & _).
    assert (r1' = r1) as -> by congruence. assert (r2' = r2) as -> by congruence.
    split; congruence.
  - exfalso. by eapply (Hmixed k1 k2).
  - exfalso. eapply (Hmixed k2 k1); try done. by apply rivals_sym.
  - rewrite (Hout _ Hk1) in Hr1. rewrite (Hout _ Hk2) in Hr2. eapply (Hex k1 k2); eauto.
Qed.

Lemma run_op_exclusive o st r st' : run_op o st = (r, st') → exclusive st → exclusive st'.
Proof.
  destruct o; cbn [run_op]; intros (r0 & Hrun & _)%discard_run.
  - apply VerifyLease_reader in Hrun as [Ht Hn]. by apply still_exclusive.
  - pose proof (AcquireLease_granted _ _ _ _ _ _ _ Hrun) as [Hn _].
    apply calm_exclusive; [done|]. intros k Hw. left.
    apply (AcquireLease_confined _ _ _ _ _ _ _ Hrun). intros Hno.
    by apply Hno, writable_delivery.
  - apply RenewLease_touched in Hrun as [Hn Ht]. by apply calm_exclusive.
  - apply ReleaseLease_touched in Hrun as [Hn Ht]. by apply calm_exclusive.
  - apply GetLeaseSet_reader in Hrun as [Ht Hn]. by apply still_exclusive.
  - pose proof (AcquireLeaseSet_granted _ _ _ _ _ _ _ _ Hrun) as [Hn _].
    apply AcquireLeaseSet_cases in Hrun as [[Ht _]|Hg]; [by apply still_exclusive|].
    destruct Hg as (normalized & digest & ls & st0 & Hv & _ & _ & Ht0 & Hn0 & Hg). intros Hex.
    pose proof (grantLeaseSet_granted _ _ _ _ _ _ _ _ _ Hg) as [Hn1 _].
    eapply grant_exclusive; [exact Hv|exact Hn1|exact Hg|]. by eapply still_exclusive.
  - apply RenewLeaseSet_touched in Hrun as [Hn Ht]. by apply calm_exclusive.
  - apply ReleaseLeaseSet_touched in Hrun as [Hn Ht]. by apply calm_exclusive.
Qed.

Lemma lstep_exclusive st st' : exclusive st → lstep st st' → exclusive st'.
Proof.
  intros Hex [o r st1 Hrun|n Hn]; [by eapply run_op_exclusive|]. by apply (still_exclusive st).
Qed.
End exclusion.

(** ** Retired sets *)

Section retirement.
Context `{Clock, Database, TimeText, Sha256, Collation}.
Context (k0 : SetKey) (row0 : LeaseSetRow).
Implicit Types st : DB Tables.

Definition kept st : Prop := lease_sets (tables st) !! k0 = Some row0.

Definition keeps {A} (m : M error (DB Tables) A) : Prop :=
  ∀ st r st', m st = (r, st') → kept st → kept st'.

Lemma keeps_reader {A} (m : M error (DB Tables) A) : reader m → keeps m.
Proof. intros Hm st r st' [Ht _]%Hm. unfold kept. by rewrite Ht. Qed.
Lemma keeps_bind {A B} (m : M error (DB Tables) A) (f : A → M error (DB Tables) B) :
  keeps m → (∀ a, keeps (f a)) → keeps (m ≫= f).
Proof.
  intros Hm Hf st r st'. rewrite M_bind_run. destruct (m st) as [[a|e] s1] eqn:Hms.
  - intros Hrun Hk. eapply Hf; [exact Hrun|]. by eapply Hm.
  - intros [= _ <-]. by eapply Hm.
Qed.
Lemma keeps_atomically {A} (m : M error (DB Tables) A) : keeps m → keeps (atomically m).
Proof.
  intros Hm st r st'. unfold atomically. destruct (m st) as [[a|e] s1] eqn:Hms; intros [= _ <-];
    [by eapply Hm|done].
Qed.
Lemma keeps_put op k row : keeps (put_lease op k row).
Proof.
  intros st r st' [_ [[_ Ht]|(_ & _ & Ht)]]%put_lease_run; unfold kept; by rewrite Ht.
Qed.

Lemma keeps_insertSet s id row : keeps (insertSet s id row).
Proof.
  intros st r st' Hrun Hk. destruct r as [u|e].
  - apply insertSet_ok in Hrun as [Hnone Hs]. unfold kept in *. rewrite Hs.
    rewrite lookup_insert_ne; [done|congruence].
  - revert Hrun. unfold insertSet. rewrite M_bind_run.
    destruct (statement _ _ st) as [[u0|e0] s1] eqn:Hst; apply reader_statement in Hst as [Ht _];
      [|intros [= _ <-]; unfold kept; by rewrite Ht].
    rewrite M_bind_run. cbn. unfold checked. destruct (lease_sets _ !! _); [|done].
    intros [= _ <-]. unfold kept. by rewrite Ht.
Qed.
Lemma keeps_insertMembers s id leasing : keeps (insertMembers s id leasing).
Proof. intros st r st' Hs%insertMembers_sets. unfold kept. by rewrite Hs. Qed.

Lemma keeps_updateMembers op s ownerID now change proofs :
  keeps (updateMembers op s ownerID now change proofs).
Proof.
  induction proofs as [|p proofs IH]; cbn [updateMembers]; [apply keeps_reader, reader_ret|].
  apply keeps_bind; [|done]. unfold updateMember.
  apply keeps_bind; [apply keeps_reader, reader_statement|intros _].
  apply keeps_bind; [apply keeps_reader, reader_select|intros rows].
  repeat case_match; try apply keeps_put; apply keeps_reader, reader_throw.
Qed.

Lemma keeps_updateSet op s id change :
  setKey s id ≠ k0 ∨ change row0 = row0 → keeps (updateSet op s id change).
Proof.
  intros Hor st r st'. unfold updateSet. rewrite M_bind_run.
  destruct (statement _ _ st) as [[u|e] s1] eqn:Hst; apply reader_statement in Hst as [Ht _];
    intros [= _ <-]; unfold kept; cbn; rewrite Ht; [|done].
  intros Hk. destruct (decide (setKey s id = k0)) as [Heq|Hne].
  - rewrite Heq, lookup_alter_eq, Hk. cbn. f_equal. by destruct Hor.
  - by rewrite lookup_alter_ne.
Qed.

#[local] Hint Resolve keeps_put keeps_insertSet keeps_insertMembers keeps_updateMembers : forja_parts.

Ltac keeping := repeat first
  [ progress (intros; cbn beta zeta)
  | solve [auto 1 with forja_parts]
  | apply keeps_reader; solve [auto 1 with forja_parts]
  | apply keeps_atomically
  | apply keeps_bind
  | case_match ].

Lemma keeps_grantMembers s ownerID acq exp keys : keeps (grantMembers s ownerID acq exp keys).
Proof.
  induction keys as [|key keys IH]; cbn [grantMembers]; [apply keeps_reader, reader_ret|].
  apply keeps_bind; [unfold grantMember; keeping|intros lease].
  apply keeps_bind; [done|intros leasing]. apply keeps_reader, reader_ret.
Qed.
#[local] Hint Resolve keeps_grantMembers : forja_parts.

Context (Hreleased : set_state row0 = "released").

(** The authority check refuses a released set. *)
Lemma verify_released s ls keys proofs digest minimum ttl st r st' :
  setKey s (ls_LeaseSetID ls) = k0 → kept st →
  verifyLeaseSetAuthorityWithMinimum s ls keys proofs digest minimum ttl st = (r, st') →
  is_ok r = false.
Proof.
  intros Hkey Hk. unfold verifyLeaseSetAuthorityWithMinimum. rewrite M_bind_run.
  destruct (loadLeaseSetForUpdate _ _ st) as [[found|e] s1] eqn:Hl; [|by intros [= <- _]].
  apply loadLeaseSetForUpdate_run in Hl as (_ & Hf & _). rewrite Hkey, Hk in Hf.
  destruct found as [stored|]; [|done]. injection Hf as Hrow.
  rewrite M_bind_run. unfold lift at 1, fail_if at 1. destruct (_ <? _)%Z; [by intros [= <- _]|].
  rewrite M_bind_run. unfold lift at 1, fail_if at 1. destruct (_ <? _)%Z; [by intros [= <- _]|].
  rewrite Hrow, Hreleased. cbn. by intros [= <- _].
Qed.

Lemma RenewLeaseSet_keeps s ls ttl : keeps (RenewLeaseSet s ls ttl).
Proof.
  unfold RenewLeaseSet. apply keeps_bind; [apply keeps_reader, reader_lift|].
  intros [[keys proofs] digest]. apply keeps_atomically.
  do 2 (apply keeps_bind; [apply keeps_reader; auto 1 with forja_parts|intros _]).
  destruct (decide (setKey s (ls_LeaseSetID ls) = k0)) as [Heq|Hne].
  - intros st r st'. rewrite M_bind_run.
    destruct (verifyLeaseSetAuthorityWithMinimum _ _ _ _ _ _ _ st) as [r1 s1] eqn:Hver.
    intros Hrun Hk. pose proof (verify_released _ _ _ _ _ _ _ _ _ _ Heq Hk Hver) as Hr1.
    apply verifyAuthority_reader in Hver as [Ht _]. destruct r1; [done|].
    injection Hrun as _ <-. unfold kept. by rewrite Ht.
  - apply keeps_bind; [apply keeps_reader; auto 1 with forja_parts|intros canonical].
    assert (∀ op change, keeps (updateSet op s (ls_LeaseSetID ls) change)) as Hset
      by (intros op change; apply keeps_updateSet; by left).
    keeping.
Qed.

Lemma ReleaseLeaseSet_keeps s ls : keeps (ReleaseLeaseSet s ls).
Proof.
  unfold ReleaseLeaseSet. apply keeps_bind; [apply keeps_reader, reader_lift|].
  intros [[keys proofs] digest]. apply keeps_atomically.
  do 2 (apply keeps_bind; [apply keeps_reader; auto 1 with forja_parts|intros _]).
  intros st r st'. rewrite M_bind_run.
  destruct (loadLeaseSetForUpdate _ _ st) as [[found|e] s1] eqn:Hl.
  2: { intros [= _ <-]. by eapply keeps_reader; [|exact Hl]; auto 1 with forja_parts. }
  intros Hrun Hk. apply loadLeaseSetForUpdate_run in Hl as (Ht & Hf & _).
  assert (kept s1) as Hk1 by (unfold kept; by rewrite Ht).
  destruct found as [stored|]; [|by injection Hrun as _ <-].
  assert (setKey s (ls_LeaseSetID ls) = k0 → set_state (st_row stored) = "released") as Hst.
  { intros Heq. rewrite Heq, Hk in Hf. injection Hf as ->. done. }
  match type of Hrun with ?m s1 = _ => assert (keeps m) as HK; [|by eapply HK] end.
  destruct (_ || _); [keeping|].
  apply keeps_bind; [apply keeps_reader; auto 1 with forja_parts|intros _].
  case_bool_decide as Hrel; [keeping|].
  assert (∀ op change, keeps (updateSet op s (ls_LeaseSetID ls) change)) as Hset
    by (intros op change; apply keeps_updateSet; left; intros Heq; by apply Hrel, Hst).
  unfold retireExpired, releaseLive. keeping.
Qed.

Lemma run_op_keeps o : keeps (run_op o).
Proof.
  destruct o; cbn [run_op]; (apply keeps_bind; [|intros _; apply keeps_reader, reader_ret]).
  - apply keeps_reader, VerifyLease_reader.
  - unfold AcquireLease, grantLease, insert_lease, takeover_lease. keeping.
  - unfold RenewLease, update_live_lease. keeping.
  - unfold ReleaseLease, update_live_lease. keeping.
  - apply keeps_reader, GetLeaseSet_reader.
  - unfold AcquireLeaseSet, replayLeaseSet, grantLeaseSet. keeping.
  - apply RenewLeaseSet_keeps.
  - apply ReleaseLeaseSet_keeps.
Qed.
End retirement.

(** ** Stale proofs *)

Section stale.
Context `{Clock, Database, TimeText, Sha256, Collation}.
Implicit Types st : DB Tables.

Lemma bind_err {A B} (m : M error (DB Tables) A) (f : A → M error (DB Tables) B) st r st' :
  (m ≫= f) st = (r, st') → reader m →
  is_ok r = false ∨ ∃ a s1, m st = (Ok a, s1) ∧ tables s1 = tables st ∧ f a s1 = (r, st').
Proof.
  rewrite M_bind_run. destruct (m st) as [[a|e] s1] eqn:Hm; intros Hrun Hrd.
  - right. exists a, s1. by apply Hrd in Hm as [? _].
  - left. by injection Hrun as <- _.
Qed.

Lemma VerifyLease_token s proof minimum st r st' :
  VerifyLease s proof minimum st = (r, st') → is_ok r = true →
  ∃ row, leases (tables st) !! row_key s (bindLeaseKey s (lp_LeaseKey proof)) = Some row ∧
    row_token row = lp_FencingToken proof.
Proof.
  unfold VerifyLease. intros Hrun Hok.
  do 2 (apply bind_err in Hrun as [?|(? & ? & [= _ <-] & _ & Hrun)]; [congruence| |apply reader_lift]).
  apply bind_err in Hrun as [?|(? & s1 & _ & Ht & Hrun)]; [congruence| |apply reader_statement].
  rewrite M_bind_run in Hrun. cbn in Hrun. rewrite M_bind_run in Hrun. cbn in Hrun. rewrite <-Ht.
  destruct (leases _ !! _) as [row|]; [|by injection Hrun as <- _].
  destruct (_ && _ && _) eqn:Hg; [|by injection Hrun as <- _]. bool_prop. exists row. tauto.
Qed.

(** A renewal or release that succeeds names the current token. *)
Lemma fenced_update_token s key ownerID token op change {A} (k : LeaseRow → M error (DB Tables) A) e
    begin op' st r st' :
  (∀ row, reader (change row)) →
  atomically (
    _ ← statement begin [];
    _ ← lockLeaseResource s key;
    _ ← rejectActiveLeaseSetMember key token;
    _ ← statement op' (ownerID :: key_params s key);
    updated ← update_live_lease op (row_key s key) ownerID token change;
    match updated with None => throw e | Some row => k row end) st = (r, st') →
  is_ok r = true →
  ∃ row, leases (tables st) !! row_key s key = Some row ∧ row_token row = token.
Proof.
  intros Hch Hrun Hok. destruct r as [a|]; [|done]. apply atomically_ok in Hrun.
  apply bind_err in Hrun as [?|(? & s1 & _ & Ht1 & Hrun)]; [done| |apply reader_statement].
  apply bind_err in Hrun as [?|(? & s2 & _ & Ht2 & Hrun)]; [done| |apply lockLeaseResource_reader].
  apply bind_err in Hrun as [?|(? & s3 & _ & Ht3 & Hrun)]; [done| |apply rejectActive_reader].
  apply bind_err in Hrun as [?|(? & s4 & _ & Ht4 & Hrun)]; [done| |apply reader_statement].
  rewrite M_bind_run in Hrun.
  destruct (update_live_lease _ _ _ _ _ s4) as [[updated|e0] s5] eqn:Hup; [|done].
  apply (update_live_lease_run _ _ _ _ _ _ _ _ Hch) in Hup
    as [_ [[? _]|[[[= ->] _]|(row & row' & ? & ? & _ & Hrow & _ & Htok & _)]]]; [done|done|].
  exists row. by rewrite <-Ht1, <-Ht2, <-Ht3, <-Ht4.
Qed.

Lemma RenewLease_token s key ownerID token ttl st r st' :
  RenewLease s key ownerID token ttl st = (r, st') → is_ok r = true →
  ∃ row, leases (tables st) !! row_key s (bindLeaseKey s key) = Some row ∧ row_token row = token.
Proof.
  unfold RenewLease. intros Hrun Hok.
  do 2 (apply bind_err in Hrun as [?|(? & ? & [= _ <-] & _ & Hrun)]; [congruence| |apply reader_lift]).
  eapply fenced_update_token; [|exact Hrun|done]. reading.
Qed.

Lemma ReleaseLease_token s key ownerID token st r st' :
  ReleaseLease s key ownerID token st = (r, st') → is_ok r = true →
  ∃ row, leases (tables st) !! row_key s (bindLeaseKey s key) = Some row ∧ row_token row = token.
Proof.
  unfold ReleaseLease. intros Hrun Hok.
  do 2 (apply bind_err in Hrun as [?|(? & ? & [= _ <-] & _ & Hrun)]; [congruence| |apply reader_lift]).
  eapply (fenced_update_token _ _ _ _ _ _ (λ _, statement _ [])); [|exact Hrun|done]. reading.
Qed.
End stale.

(** ** Properties *)

Section properties.
Context `{Clock, Database, TimeText, Sha256, Collation}.
Implicit Types st : DB Tables.

(** Fencing: whatever operations run and however the clock moves, a lease row
    is never removed and its token never goes back; as long as the token is the
    same, so are the owner and the time of the grant. *)
Theorem fencing_monotone st st' k row :
  rtc lstep st st' → leases (tables st) !! k = Some row →
  ∃ row', leases (tables st') !! k = Some row' ∧ (row_token row ≤ row_token row')%Z ∧
    (row_token row' = row_token row →
     row_owner row' = row_owner row ∧ row_acquired row' = row_acquired row).
Proof. apply lsteps_later. Qed.

(** A superseded fence is dead for ever: once a resource carries a larger
    token, no verification, renewal or release with an older token succeeds at
    any later time, for any claimed owner, and none of them changes a table. *)
Theorem stale_fence_rejected st st' s key ownerID token row minimum ttl :
  leases (tables st) !! row_key s (bindLeaseKey s key) = Some row →
  (token < row_token row)%Z → rtc lstep st st' →
  (∃ e st1, VerifyLease s (mkLeaseProof key ownerID token) minimum st' = (Err e, st1) ∧
     tables st1 = tables st') ∧
  (∃ e st1, RenewLease s key ownerID token ttl st' = (Err e, st1) ∧ tables st1 = tables st') ∧
  (∃ e st1, ReleaseLease s key ownerID token st' = (Err e, st1) ∧ tables st1 = tables st').
Proof.
  intros Hrow Hlt Hs. destruct (lsteps_later _ _ _ _ Hs Hrow) as (row' & Hrow' & [Hle _]).
  assert (∀ row0, leases (tables st') !! row_key s (bindLeaseKey s key) = Some row0 →
            row_token row0 ≠ token) as Hno by (intros row0 Hr0; simplify_eq; lia).
  split_and!.
  - destruct (VerifyLease s _ minimum st') as [[l|e] st1] eqn:Hrun.
    + apply VerifyLease_token in Hrun as (row0 & Hr0 & Ht); [|done]. by destruct (Hno _ Hr0).
    + exists e, st1. split; [done|]. by apply VerifyLease_reader in Hrun as [? _].
  - destruct (RenewLease s key ownerID token ttl st') as [[l|e] st1] eqn:Hrun.
    + apply RenewLease_token in Hrun as (row0 & Hr0 & Ht); [|done]. by destruct (Hno _ Hr0).
    + exists e, st1. split; [done|]. eapply (run_op_atomic (OpRenew s key ownerID token ttl)).
      cbn. unfold discard. by rewrite M_bind_run, Hrun.
  - destruct (ReleaseLease s key ownerID token st') as [[u|e] st1] eqn:Hrun.
    + apply ReleaseLease_token in Hrun as (row0 & Hr0 & Ht); [|done]. by destruct (Hno _ Hr0).
    + exists e, st1. split; [done|]. eapply (run_op_atomic (OpRelease s key ownerID token)).
      cbn. unfold discard. by rewrite M_bind_run, Hrun.
Qed.

(** A live lease is never taken over: if an operation gives a resource a new
    token, the previous grant had expired at a clock reading taken during that
    very operation, and the new token is larger. *)
Theorem takeover_only_after_expiry st o r st' k row row' :
  run_op o st = (r, st') → leases (tables st) !! k = Some row →
  leases (tables st') !! k = Some row' → row_token row' ≠ row_token row →
  (row_token row < row_token row')%Z ∧
  ∃ n, readings st ≤ n < readings st' ∧
    (instant (row_expires row) ≤ instant (clock_reading n))%Z.
Proof.
  intros Hrun Hrow Hrow' Hne. apply run_op_rows in Hrun as [_ Hr]. specialize (Hr k).
  rewrite Hrow, Hrow' in Hr.
  destruct Hr as [[[= ->]|(r' & [= ->] & _ & Hr)]|[[= ->]|(r0 & r' & [= <-] & [= <-] & _ & Ht & _)]];
    [done| |done|done]. by apply Hr.
Qed.

(** Failures are atomic: an operation that returns an error, for whatever
    reason and however far it got, leaves every table as it was. *)
Theorem failed_lease_op_atomic o st e st' :
  run_op o st = (Err e, st') → tables st' = tables st.
Proof. apply run_op_atomic. Qed.

(** C4. Writers exclude each other: under a clock that does not run backwards, two
    live leases on overlapping file or artifact paths of a repository always
    belong to one grant (same owner, same acquisition), in every state the
    operations can reach from empty tables. *)
Theorem writable_path_exclusion st0 st k1 k2 r1 r2 :
  clock_monotone → tables st0 = mkTables ∅ ∅ ∅ → rtc lstep st0 st →
  rivals k1 k2 → leases (tables st) !! k1 = Some r1 → leases (tables st) !! k2 = Some r2 →
  live st r1 → live st r2 → row_owner r1 = row_owner r2 ∧ row_acquired r1 = row_acquired r2.
Proof.
  intros Hmono Hempty Hs. revert k1 k2 r1 r2.
  apply (rtc_invariant lstep exclusive st0 st); [|intros ???? _; by rewrite Hempty|done].
  intros a b. by apply lstep_exclusive.
Qed.

(** A set is granted whole: a successful acquisition of a new set ID leases
    every declared resource and every ancestor of the writable ones to the
    owner, all acquired at one time and expiring together, and records the set
    as active under the digest of exactly those members. *)
Theorem set_grant_complete s id keys ownerID ttl st ls st' :
  lease_sets (tables st) !! setKey s id = None →
  AcquireLeaseSet s id keys ownerID ttl st = (Ok ls, st') →
  ∃ acq normalized, let exp := AddInterval acq (interval (intervalString ttl)) in
    (∀ input k, input ∈ keys → declares s input k → k ∈ normalized) ∧
    (∀ k, k ∈ normalized → ∃ row, leases (tables st') !! k = Some row ∧
       row_owner row = ownerID ∧ row_acquired row = acq ∧ row_expires row = exp) ∧
    (∀ k, k ∉ normalized → leases (tables st') !! k = leases (tables st) !! k) ∧
    lease_sets (tables st') !! setKey s id = Some (mkSetRow ownerID (leaseMemberDigest normalized)
      "active" acq exp acq (ttl `quot` Microsecond)%Z).
Proof.
  intros Hnone [[_ Hb]|Hg]%AcquireLeaseSet_cases.
  - destruct (Hb _ eq_refl) as (row & ? & ? & _ & Hrow & _). congruence.
  - destruct Hg as (normalized & digest & ls' & st0 & Hv & [= <-] & _ & Ht0 & _ & Hg).
    apply validateLeaseSetInput_ok in Hv as (Hn & Hown & _ & -> & _).
    apply grantLeaseSet_run in Hg as (acq & Hin & Hout & _ & Hset & _).
    assert (row_key s <$> normalized = normalized) as Hkeys.
    { rewrite <-(list_fmap_id normalized) at 2. apply list_fmap_ext. intros i k Hk.
      apply row_key_own, Hown. by eapply list_elem_of_lookup_2. }
    rewrite Hkeys in Hin, Hout. rewrite Ht0 in Hout. exists acq, normalized. split_and!; try done.
    intros input k Hi Hd. apply Hn. by exists input.
Qed.

(** A set ID is bound once: acquiring an ID that exists changes nothing, and
    succeeds only for the owner, members and TTL it is bound to, while the set
    is active. *)
Theorem set_id_bound_once s id keys ownerID ttl st r st' row :
  lease_sets (tables st) !! setKey s id = Some row →
  AcquireLeaseSet s id keys ownerID ttl st = (r, st') →
  tables st' = tables st ∧
  ∀ ls, r = Ok ls → set_owner row = ownerID ∧ set_state row = "active" ∧
    wrap64 (set_ttl_us row * Microsecond) = ttl ∧
    ∃ normalized digest, validateLeaseSetInput s id keys ownerID ttl = Ok (normalized, digest) ∧
      set_digest row = digest.
Proof.
  intros Hrow [[Ht Hb]|Hg]%AcquireLeaseSet_cases.
  - split; [done|]. intros ls Hls. destruct (Hb _ Hls) as (row0 & n & d & Hv & Hrow0 & Hbound).
    assert (row0 = row) as -> by congruence. destruct Hbound as (? & ? & ? & ?).
    split_and!; try done. by exists n, d.
  - destruct Hg as (? & ? & ? & ? & _ & _ & Hnone & _). congruence.
Qed.

(** A released set is retired for good: its row never changes again. *)
Theorem released_set_retired st st' k row :
  rtc lstep st st' → lease_sets (tables st) !! k = Some row → set_state row = "released" →
  lease_sets (tables st') !! k = Some row.
Proof.
  intros Hs Hrow Hst. revert Hs.
  apply (rtc_invariant lstep (kept k row)); [|done].
  intros a b Hk [o r b' Hrun|n Hn]; [|done]. by eapply run_op_keeps.
Qed.
End properties.

(** ** A concrete session *)

Module Office.
Import Sets.
#[local] Existing Instance demo_sha.
#[local] Instance demo_clock : Clock := λ n, mkTime (Z.of_nat n * Second) 0.
#[local] Instance demo_database : Database := λ _, None.
#[local] Instance demo_text : TimeText := λ _, "".
#[local] Instance demo_collation : Collation := λ a b, String.leb (a.1 +:+ NUL +:+ a.2) (b.1 +:+ NUL +:+ b.2).

Definition after (o : lease_op) (st : DB Tables) : DB Tables := (run_op o st).2.
Lemma after_step o st : lstep st (after o st).
Proof. unfold after. destruct (run_op o st) eqn:Hr. by eapply lstep_op. Qed.

Definition worker : LeaseKey := full "worker" "w".
Definition d0 : DB Tables := mkDB (mkTables ∅ ∅ ∅) 0 0.
Definition o1 : lease_op := OpAcquire store worker "ann" Second.
Definition o2 : lease_op := OpAcquire store worker "ben" Second.
Definition d1 : DB Tables := after o1 d0.
Definition d2 : DB Tables := after o2 d1.
Definition o3 : lease_op := OpAcquireSet store "set-a" alice "alice" Hour.
Definition d3 : DB Tables := after o3 d2.
Definition token_row (owner : string) (token n : Z) : LeaseRow :=
  mkLeaseRow owner token (mkTime (n * Second) 0) (mkTime ((n + 2) * Second) 0)
    (mkTime ((n + 2) * Second) 0).

Lemma fencing_monotone_witness :
  ∃ row', leases (tables d2) !! worker = Some row' ∧ (1 ≤ row_token row')%Z ∧
    (row_token row' = 1%Z → row_owner row' = "ann" ∧ row_acquired row' = mkTime 0 0).
Proof.
  apply (fencing_monotone d1 d2 worker (token_row "ann" 1 0));
    [apply rtc_once, after_step|vm_compute; reflexivity].
Defined.

Lemma stale_fence_rejected_witness :
  ∃ e st1, RenewLease store worker "ann" 1 Second d2 = (Err e, st1) ∧ tables st1 = tables d2.
Proof.
  apply (stale_fence_rejected d2 d2 store worker "ann" 1 (token_row "ben" 2 4) 0 Second);
    [vm_compute; reflexivity|vm_compute; reflexivity|apply rtc_refl].
Defined.

Lemma takeover_only_after_expiry_witness :
  (1 < 2)%Z ∧ ∃ n, readings d1 ≤ n < readings d2 ∧
    (instant (row_expires (token_row "ann" 1 0)) ≤ instant (clock_reading n))%Z.
Proof.
  apply (takeover_only_after_expiry d1 o2 (Ok tt) d2 worker (token_row "ann" 1 0)
    (token_row "ben" 2 4)); [vm_compute; reflexivity..|discriminate].
Defined.

Lemma failed_lease_op_atomic_witness :
  tables (after (OpRenew store worker "ann" 1 Second) d2) = tables d2.
Proof.
  apply (failed_lease_op_atomic (OpRenew store worker "ann" 1 Second) d2
    (fault CodeConflict "postgres.RenewLease"
       "lease is expired, replaced, or owned by another worker")).
  vm_compute. reflexivity.
Defined.

Definition member_row (token : Z) : LeaseRow :=
  mkLeaseRow "alice" token (mkTime (7 * Second) 0) (mkTime (7 * Second + Hour) 0)
    (mkTime (7 * Second) 0).

Lemma writable_path_exclusion_witness :
  row_owner (member_row 1) = row_owner (member_row 1) ∧
  row_acquired (member_row 1) = row_acquired (member_row 1).
Proof.
  apply (writable_path_exclusion d0 d3 (full "file" "src") (full "file" "src/a.go")).
  - intros i j Hij. change (Z.of_nat i * Second ≤ Z.of_nat j * Second)%Z. unfold Second, Millisecond, Microsecond. lia.
  - reflexivity.
  - eapply rtc_l; [apply (after_step o1)|]. eapply rtc_l; [apply (after_step o2)|].
    apply rtc_once, (after_step o3).
  - split_and!; vm_compute; reflexivity.
  - vm_compute. reflexivity.
  - vm_compute. reflexivity.
  - vm_compute. reflexivity.
  - vm_compute. reflexivity.
Defined.

Lemma set_grant_complete_witness :
  ∃ acq normalized, let exp := AddInterval acq (interval (intervalString Hour)) in
    (∀ input k, input ∈ alice → declares store input k → k ∈ normalized) ∧
    (∀ k, k ∈ normalized → ∃ row, leases (tables d3) !! k = Some row ∧
       row_owner row = "alice" ∧ row_acquired row = acq ∧ row_expires row = exp) ∧
    (∀ k, k ∉ normalized → leases (tables d3) !! k = leases (tables d2) !! k) ∧
    lease_sets (tables d3) !! setKey store "set-a" = Some (mkSetRow "alice"
      (leaseMemberDigest normalized) "active" acq exp acq (Hour `quot` Microsecond)%Z).
Proof.
  assert (∃ ls, AcquireLeaseSet store "set-a" alice "alice" Hour d2 = (Ok ls, d3)) as [ls Hls]
    by (eexists; vm_compute; reflexivity).
  apply (set_grant_complete store "set-a" alice "alice" Hour d2 ls d3);
    [vm_compute; reflexivity|exact Hls].
Defined.

Definition set_row : LeaseSetRow :=
  mkSetRow "alice" (leaseMemberDigest alice_members) "active" (mkTime (7 * Second) 0)
    (mkTime (7 * Second + Hour) 0) (mkTime (7 * Second) 0) 3600000000.

Lemma set_id_bound_once_witness :
  tables (AcquireLeaseSet store "set-a" bob "alice" Hour d3).2 = tables d3.
Proof.
  destruct (AcquireLeaseSet store "set-a" bob "alice" Hour d3) as [r st'] eqn:Hrun.
  apply (set_id_bound_once store "set-a" bob "alice" Hour d3 r st' set_row);
    [vm_compute; reflexivity|exact Hrun].
Defined.

Definition alice_proof : LeaseSet :=
  mkLeaseSet "set-a" "alice"
    ((λ k, mkLease k "alice" 1 zero_time zero_time) <$> alice_members) zero_time zero_time.
Definition d4 : DB Tables := after (OpReleaseSet store alice_proof) d3.

Lemma released_set_retired_witness :
  lease_sets (tables (after o3 d4)) !! setKey store "set-a" =
  lease_sets (tables d4) !! setKey store "set-a".
Proof.
  assert (∃ row, lease_sets (tables d4) !! setKey store "set-a" = Some row ∧
            set_state row = "released") as (row & Hrow & Hst)
    by (eexists; split; vm_compute; reflexivity).
  rewrite Hrow. apply (released_set_retired d4); [apply rtc_once, after_step|exact Hrow|exact Hst].
Defined.
End Office.
