(* ===== verification/IndexCards.v ===== *)
(** * Packages [internal/contracts] and [internal/indexing]: index cards

    The records an index bundle is made of, the change set Git reports between
    two commits, and the canonical form of repository paths. *)

From S2P Require Import Prelude GoLib Fault LeasePaths.
From Stdlib Require Import Ascii.

(** A slice that may be nil; ranging over nil visits nothing. *)
Abbreviation Slice A := (option (list A)) (only parsing).

Record AdapterDescriptor := mkAdapter {
  ad_Name : string; ad_Version : string; ad_ConfigurationHash : string; ad_CapabilityHash : string }.

Record SnapshotCounts := mkCounts {
  ct_Files : Z; ct_Symbols : Z; ct_Relations : Z; ct_Diagnostics : Z }.

Record RepositorySnapshot := mkSnapshot {
  sn_SnapshotID : string;
  sn_SchemaVersion : string;
  sn_TenantID : string;
  sn_RepositoryID : string;
  sn_SourceCommit : string;
  sn_SourceTree : string;
  sn_ConfigurationHash : string;
  sn_AdapterSetHash : string;
  sn_Adapters : list AdapterDescriptor;
  sn_Status : string;
  sn_Version : Z;
  sn_Counts : SnapshotCounts;
  sn_ArtifactID : option string;
  sn_ArtifactContentHash : option string;
  sn_CreatedBy : string;
  sn_CreatedAt : Time;
  sn_ValidatedAt : option Time;
}.

Record DiagnosticSummary := mkDiagnostic { dg_Severity : string; dg_Code : string; dg_Count : Z }.

Record FileCard := mkFileCard {
  f_FileID : string;
  f_LineageID : string;
  f_SchemaVersion : string;
  f_SnapshotID : string;
  f_RepositoryID : string;
  f_SourceCommit : string;
  f_Path : string;
  f_GitBlobID : string;
  f_SourceHash : string;
  f_SizeBytes : Z;
  f_Language : string;
  f_Generated : bool;
  f_SymbolIDs : Slice string;
  f_Diagnostics : Slice DiagnosticSummary;
}.

Record SourcePosition := mkPosition { ps_Line : Z; ps_Column : Z; ps_Offset : Z }.
Record SourceRange := mkRange { rg_Start : SourcePosition; rg_End : SourcePosition }.

Record SymbolCard := mkSymbolCard {
  y_SymbolID : string;
  y_LineageID : string;
  y_FileLineageID : string;
  y_SchemaVersion : string;
  y_SnapshotID : string;
  y_FileID : string;
  y_Language : string;
  y_Kind : string;
  y_Name : string;
  y_QualifiedName : string;
  y_Signature : string;
  y_Declaration : SourceRange;
  y_Exported : bool;
  y_Test : bool;
  y_Route : bool;
  y_Schema : bool;
  y_DocumentationHash : option string;
}.

Record RelationEvidence := mkRelation {
  re_RelationID : string;
  re_SchemaVersion : string;
  re_SnapshotID : string;
  re_SourceEntityID : string;
  re_Kind : string;
  re_Resolution : string;
  re_TargetEntityID : option string;
  re_UnresolvedName : option string;
  re_EvidenceClass : string;
  re_SourceFileID : string;
  re_Locator : SourceRange;
  re_EvidenceHash : string;
  re_Adapter : AdapterDescriptor;
}.

Record IndexBundle := mkBundle {
  b_Snapshot : RepositorySnapshot;
  b_FileSlice : Slice FileCard;
  b_SymbolSlice : Slice SymbolCard;
  b_RelationSlice : Slice RelationEvidence;
}.

(** What a loop over the collections visits. *)
Definition b_Files (bundle : IndexBundle) : list FileCard := default [] (b_FileSlice bundle).
Definition b_Symbols (bundle : IndexBundle) : list SymbolCard := default [] (b_SymbolSlice bundle).
Definition b_Relations (bundle : IndexBundle) : list RelationEvidence :=
  default [] (b_RelationSlice bundle).

(** [indexing.CommittedFile] and [SourceDocument], whose embedded fields are
    flattened. *)
Record SourceDocument := mkDocument {
  doc_Path : string;
  doc_Mode : string;
  doc_GitBlobID : string;
  doc_SizeBytes : Z;
  doc_Language : string;
  doc_Generated : bool;
  doc_SourceHash : string;
  doc_Body : string;
}.

Record GitChange := mkChange { gc_Kind : string; gc_Path : string; gc_FromPath : option string }.
Record GitChangeSet := mkChangeSet {
  gs_BaseCommit : string; gs_TargetCommit : string; gs_Changes : list GitChange }.

(** ** Repository paths *)

(** [strings.HasSuffix(s, "/")]. *)
Fixpoint ends_in_slash (s : string) : bool :=
  match s with
  | "" => false
  | String c "" => bool_decide (c = SLASH)
  | String _ s' => ends_in_slash s'
  end.

Definition NormalizeRepositoryPath (value : string) : result string :=
  if bool_decide (value = "") || (4096 <? Z.of_nat (String.length value))%Z ||
     (contains_byte (chr 92) value || contains_byte (chr 0) value) ||
     HasPrefix value "/" || ends_in_slash value
  then Err (ErrorString (Lit "repository path is invalid"))
  else
    let cleaned := Clean value in
    if bool_decide (cleaned = ".") || bool_decide (cleaned = "..") || HasPrefix cleaned "../" ||
       negb (bool_decide (cleaned = value))
    then Err (ErrorString (Lit "repository path is not canonical"))
    else if existsb (λ segment, bool_decide (segment = "") || bool_decide (segment = ".") ||
                       bool_decide (segment = "..")) (Split_slash value)
    then Err (ErrorString (Lit "repository path has an invalid segment"))
    else Ok value.

Lemma ends_in_slash_split v : ends_in_slash v = true → ∃ l, Split_slash v = l ++ [""].
Proof.
  induction v as [|c v IH]; [done|]. destruct v as [|d v].
  - cbn. rewrite bool_decide_eq_true. intros ->. by exists [""].
  - intros He. destruct (IH He) as [l Hl].
    change (Split_slash (String c (String d v))) with
      (if bool_decide (c = SLASH) then "" :: Split_slash (String d v)
       else match Split_slash (String d v) with
            | x :: l => String c x :: l | [] => [String c ""] end).
    rewrite Hl. case_bool_decide; [by exists ("" :: l)|].
    destruct l as [|x l]; [|by exists (String c x :: l)].
    by apply (Split_slash_inj (String d v) "") in Hl.
Qed.

(** The third check is redundant: a clean relative path has no such segment.
    Accepted paths are exactly the bounded ones that may be leased. *)
Lemma NormalizeRepositoryPath_accepts v :
  NormalizeRepositoryPath v = Ok v ↔
  validateLeaseScopePath v = Ok tt ∧ (Z.of_nat (String.length v) ≤ 4096)%Z.
Proof.
  rewrite validateLeaseScopePath_plain. unfold NormalizeRepositoryPath. split.
  - destruct (_ || _) eqn:H1; [done|]. destruct (_ || _) eqn:H2 in |- *; [done|].
    destruct (existsb _ _) eqn:H3; [done|]. intros _. bool_prop.
    split; [|lia]. split_and!; try tauto. apply Forall_forall. intros x Hx.
    rewrite <-not_true_iff_false, existsb_exists in H3.
    assert (¬ (bool_decide (x = "") || bool_decide (x = ".") || bool_decide (x = "..") = true)) as Hno.
    { intros Hb. apply H3. exists x. split; [by apply list_elem_of_In|done]. }
    rewrite not_true_iff_false in Hno. bool_prop. unfold plain. tauto.
  - intros [(Hp & Hb & H0) Hlen]. destruct (plain_shape v Hp) as (Hv1 & Hv2 & Hv3 & Ha & Hup).
    pose proof (proj2 (Clean_canonical v Hv1 Hv2 Hv3 Ha Hup) Hp) as Hclean.
    rewrite Hclean, !bool_decide_eq_false_2, bool_decide_eq_true_2 by done.
    unfold IsAbs in Ha. rewrite Hb, H0, Ha, Hup.
    assert (ends_in_slash v = false) as ->.
    { destruct (ends_in_slash v) eqn:He; [|done].
      destruct (ends_in_slash_split v He) as [l Hl].
      rewrite Hl in Hp. apply Forall_app in Hp as [_ Hp]. inversion_clear Hp as [|? ? (? & _)]. done. }
    rewrite (proj2 (Z.ltb_ge _ _)) by lia. cbn.
    destruct (existsb _ _) eqn:H3; [|done]. apply existsb_exists in H3 as (x & Hx & Hbad).
    apply list_elem_of_In in Hx. rewrite Forall_forall in Hp. destruct (Hp x Hx) as (? & ? & ?).
    bool_prop. tauto.
Qed.
