(* ===== verification/IndexValidation.v ===== *)
(** * Packages [internal/contracts] and [internal/indexing]: index validation

    The identities of index cards ([StableIndexID] and what is projected into
    it), the validators of [contracts/indexing.go] and [ValidateBundle] of
    [indexing/validate.go]. Slices that the code compares with nil are [Slice]s.
    [json.Marshal] of the adapter list is a parameter. *)

From S2P Require Import Prelude GoLib Fault Identity LeasePaths IndexCards.
From Stdlib Require Import Ascii.

(** ** Identifier patterns *)

Definition hex64 : list class := replicate 64 cl_hex.
Definition snapshotIDPattern : list class := cl_lit "snapshot_" ++ hex64.
Definition fileIDPattern : list class := cl_lit "file_" ++ hex64.
Definition symbolIDPattern : list class := cl_lit "symbol_" ++ hex64.
Definition fileLineagePattern : list class := cl_lit "file_lineage_" ++ hex64.
Definition symbolLineagePattern : list class := cl_lit "symbol_lineage_" ++ hex64.
Definition relationIDPattern : list class := cl_lit "relation_" ++ hex64.
Definition contentHashPattern : list class := cl_lit "sha256:" ++ hex64.

(** [^(?:file|symbol|external)_[a-f0-9]{64}$]. *)
Definition entityIDPattern (s : string) : bool :=
  match_classes fileIDPattern s || match_classes symbolIDPattern s ||
  match_classes (cl_lit "external_" ++ hex64) s.

(** [^[a-f0-9]{40,64}$]. *)
Definition gitObjectPattern (s : string) : bool :=
  forallb cl_hex (String.list_ascii_of_string s) &&
  bool_decide (40 ≤ String.length s ≤ 64).

(** [^artifact_[A-Za-z0-9_-]+$]. *)
Definition cl_word : class := λ c,
  in_range 65 90 c || in_range 97 122 c || in_range 48 57 c ||
  bool_decide (c = "_"%char) || bool_decide (c = "-"%char).
Definition artifactIDPattern (s : string) : bool :=
  match strip_prefix "artifact_" s with
  | Some rest => negb (bool_decide (rest = "")) && forallb cl_word (String.list_ascii_of_string rest)
  | None => false
  end.

(** [^(?:tenant|repo)_<uuid>$]. *)
Definition authorityIDPattern (s : string) : bool :=
  match_classes (cl_lit "tenant_" ++ uuid_pattern) s ||
  match_classes (cl_lit "repo_" ++ uuid_pattern) s.
Definition validAuthority (value prefix : string) : bool :=
  HasPrefix value prefix && authorityIDPattern value.

(** ** Stable identities *)

(** [binary.BigEndian.PutUint64]. *)
Fixpoint big_endian (width : nat) (n : Z) : string :=
  match width with
  | O => ""
  | S width' => String (chr (Z.to_N ((n / 256 ^ Z.of_nat width') mod 256))) (big_endian width' n)
  end.

Fixpoint sized (components : list string) : string :=
  match components with
  | [] => ""
  | component :: rest =>
      big_endian 8 (Z.of_nat (String.length component)) +:+ component +:+ sized rest
  end.

Definition stablePreimage (prefix : string) (components : list string) : string :=
  ("forja-index-id-v1" +:+ NUL) +:+ prefix +:+ sized components.

Class AdapterJson := MarshalAdapters : list AdapterDescriptor → result string.

Section identities.
Context `{Sha256, AdapterJson}.

Definition StableIndexID (prefix : string) (components : list string) : string :=
  prefix +:+ "_" +:+ hexText (Sum256 (stablePreimage prefix components)).

Definition ComputeSnapshotID (value : RepositorySnapshot) : string :=
  StableIndexID "snapshot"
    [sn_TenantID value; sn_RepositoryID value; sn_SourceCommit value; sn_SourceTree value;
     sn_ConfigurationHash value; sn_AdapterSetHash value].

Definition ComputeFileID (value : FileCard) : string :=
  StableIndexID "file"
    [f_RepositoryID value; f_SourceCommit value; f_Path value; f_GitBlobID value;
     f_SourceHash value].

Definition ComputeFileLineageID (value : FileCard) : string :=
  StableIndexID "file_lineage" [f_RepositoryID value; f_Path value].

Definition position_key (p : SourcePosition) : string :=
  pretty (ps_Line p) +:+ ":" +:+ pretty (ps_Column p) +:+ ":" +:+ pretty (ps_Offset p).
Definition sourceRangeKey (value : SourceRange) : string :=
  position_key (rg_Start value) +:+ "-" +:+ position_key (rg_End value).

Definition ComputeSymbolID (value : SymbolCard) : string :=
  StableIndexID "symbol"
    [y_FileID value; y_Language value; y_Kind value; y_QualifiedName value; y_Signature value;
     sourceRangeKey (y_Declaration value)].

Definition ComputeSymbolLineageID (value : SymbolCard) : string :=
  StableIndexID "symbol_lineage"
    [y_FileLineageID value; y_Language value; y_Kind value; y_QualifiedName value].

Definition ComputeRelationID (value : RelationEvidence) : string :=
  let target := default "" (re_TargetEntityID value) in
  let unresolved := default "" (re_UnresolvedName value) in
  StableIndexID "relation"
    [re_SnapshotID value; re_SourceEntityID value; re_Kind value; re_Resolution value; target;
     unresolved; re_EvidenceClass value; re_SourceFileID value; sourceRangeKey (re_Locator value);
     re_EvidenceHash value; ad_Name (re_Adapter value); ad_Version (re_Adapter value);
     ad_ConfigurationHash (re_Adapter value); ad_CapabilityHash (re_Adapter value)].

(** ** Validators *)

Definition bad (text : string) : error := ErrorString (Lit text).
Definition len (s : string) : Z := Z.of_nat (String.length s).
Definition blank (s : string) : bool := bool_decide (TrimSpace s = "").

Definition validateAdapter (value : AdapterDescriptor) : result unit :=
  fail_if (negb (bool_decide (ad_Name value ∈ ["go"; "typescript"; "python"])) ||
           blank (ad_Version value) || (80 <? len (ad_Version value))%Z ||
           negb (match_classes contentHashPattern (ad_ConfigurationHash value)) ||
           negb (match_classes contentHashPattern (ad_CapabilityHash value)))
    (bad "adapter descriptor is invalid").

Definition adapter_key (value : AdapterDescriptor) : string :=
  ad_Name value +:+ NUL +:+ ad_Version value +:+ NUL +:+ ad_ConfigurationHash value +:+ NUL +:+
  ad_CapabilityHash value.

Fixpoint validateAdapterList (previous : string) (values : list AdapterDescriptor) : result unit :=
  match values with
  | [] => Ok tt
  | value :: rest =>
      _ ← validateAdapter value;
      _ ← fail_if (bool_decide (String.le (adapter_key value) previous))
            (bad "adapters are not sorted and unique");
      validateAdapterList (adapter_key value) rest
  end.

Definition validateAdapters (values : list AdapterDescriptor) : result unit :=
  _ ← fail_if ((length values <? 1) || (16 <? length values))%nat (bad "adapter count is invalid");
  validateAdapterList "" values.

Definition ComputeAdapterSetHash (adapters : list AdapterDescriptor) : result string :=
  _ ← validateAdapters adapters;
  match MarshalAdapters adapters with
  | Err e => Err (Errorf (Lit "marshal adapter set: %w") e)
  | Ok encoded => Ok ("sha256:" +:+ hexText (Sum256 encoded))
  end.

Definition outside (lo hi n : Z) : bool := (n <? lo)%Z || (hi <? n)%Z.

Definition validateStatus (value : RepositorySnapshot) : result unit :=
  let terminalBody := bool_decide (is_Some (sn_ArtifactID value)) ||
    bool_decide (is_Some (sn_ArtifactContentHash value)) ||
    bool_decide (is_Some (sn_ValidatedAt value)) in
  if bool_decide (sn_Status value ∈ ["proposed"; "extracting"; "failed"]) then
    fail_if terminalBody (bad "unvalidated repository snapshot carries artifact evidence")
  else if bool_decide (sn_Status value ∈ ["validated"; "active"; "superseded"; "invalidated"]) then
    match sn_ArtifactID value, sn_ArtifactContentHash value, sn_ValidatedAt value with
    | Some artifact, Some hash, Some validated =>
        fail_if (negb (artifactIDPattern artifact) || negb (match_classes contentHashPattern hash) ||
                 Before validated (sn_CreatedAt value))
          (bad "validated repository snapshot lacks artifact evidence")
    | _, _, _ => Err (bad "validated repository snapshot lacks artifact evidence")
    end
  else Err (bad "repository snapshot status is invalid").

Definition ValidateRepositorySnapshot (value : RepositorySnapshot) : result unit :=
  _ ← fail_if (negb (bool_decide (sn_SchemaVersion value = "1.0")) ||
               negb (validAuthority (sn_TenantID value) "tenant_") ||
               negb (validAuthority (sn_RepositoryID value) "repo_") ||
               negb (gitObjectPattern (sn_SourceCommit value)) ||
               negb (gitObjectPattern (sn_SourceTree value)) ||
               negb (match_classes contentHashPattern (sn_ConfigurationHash value)) ||
               negb (match_classes contentHashPattern (sn_AdapterSetHash value)) ||
               (sn_Version value <? 1)%Z || blank (sn_CreatedBy value) ||
               (160 <? len (sn_CreatedBy value))%Z || IsZero (sn_CreatedAt value))
        (bad "repository snapshot identity or lifecycle is invalid");
  _ ← match ComputeAdapterSetHash (sn_Adapters value) with
      | Ok hash => fail_if (negb (bool_decide (hash = sn_AdapterSetHash value)))
                     (bad "repository snapshot adapter set is invalid")
      | Err _ => Err (bad "repository snapshot adapter set is invalid")
      end;
  _ ← fail_if (negb (match_classes snapshotIDPattern (sn_SnapshotID value)) ||
               negb (bool_decide (sn_SnapshotID value = ComputeSnapshotID value)))
        (bad "repository snapshot ID does not match its identity projection");
  _ ← fail_if (outside 0 1000000 (ct_Files (sn_Counts value)) ||
               outside 0 10000000 (ct_Symbols (sn_Counts value)) ||
               outside 0 50000000 (ct_Relations (sn_Counts value)) ||
               outside 0 10000000 (ct_Diagnostics (sn_Counts value)))
        (bad "repository snapshot counts are invalid");
  validateStatus value.

(** Each value is greater than the one before it. *)
Fixpoint sortedUniqueIndexValues (values : list string) : bool :=
  match values with
  | a :: (b :: _) as rest => negb (bool_decide (String.le b a)) && sortedUniqueIndexValues rest
  | _ => true
  end.

Fixpoint validateDiagnostics (previous : string) (values : list DiagnosticSummary) : result unit :=
  match values with
  | [] => Ok tt
  | diagnostic :: rest =>
      let key := dg_Severity diagnostic +:+ NUL +:+ dg_Code diagnostic in
      _ ← fail_if (negb (bool_decide (dg_Severity diagnostic ∈ ["info"; "warning"; "error"])) ||
                   blank (dg_Code diagnostic) || (160 <? len (dg_Code diagnostic))%Z ||
                   (dg_Count diagnostic <? 1)%Z || bool_decide (String.le key previous))
            (bad "file card diagnostic summaries are not canonical");
      validateDiagnostics key rest
  end.

Definition validateSymbolIDs (value : FileCard) : result unit :=
  match f_SymbolIDs value with
  | None => Err (bad "file card symbol IDs are not canonical")
  | Some ids =>
      _ ← fail_if ((100000 <? Z.of_nat (length ids))%Z || negb (sortedUniqueIndexValues ids))
            (bad "file card symbol IDs are not canonical");
      fail_if (negb (forallb (match_classes symbolIDPattern) ids))
        (bad "file card carries an invalid symbol ID")
  end.

Definition ValidateFileCard (value : FileCard) : result unit :=
  _ ← fail_if (negb (bool_decide (f_SchemaVersion value = "1.0")) ||
               negb (match_classes snapshotIDPattern (f_SnapshotID value)) ||
               negb (validAuthority (f_RepositoryID value) "repo_") ||
               negb (gitObjectPattern (f_SourceCommit value)) ||
               negb (gitObjectPattern (f_GitBlobID value)) ||
               negb (match_classes contentHashPattern (f_SourceHash value)) ||
               outside 0 16777216 (f_SizeBytes value))
        (bad "file card identity or source evidence is invalid");
  _ ← NormalizeRepositoryPath (f_Path value);
  _ ← fail_if (negb (bool_decide (f_Language value ∈
                 ["go"; "typescript"; "javascript"; "python"; "json"; "yaml"; "markdown"; "other"])))
        (bad "file card language is invalid");
  _ ← fail_if (negb (match_classes fileIDPattern (f_FileID value)) ||
               negb (bool_decide (f_FileID value = ComputeFileID value)) ||
               negb (match_classes fileLineagePattern (f_LineageID value)) ||
               negb (bool_decide (f_LineageID value = ComputeFileLineageID value)))
        (bad "file card ID does not match its identity projection");
  _ ← validateSymbolIDs value;
  match f_Diagnostics value with
  | None => Err (bad "file card diagnostics are invalid")
  | Some diagnostics =>
      _ ← fail_if (4096 <? Z.of_nat (length diagnostics))%Z (bad "file card diagnostics are invalid");
      validateDiagnostics "" diagnostics
  end.

Definition validateSourceRange (value : SourceRange) : result unit :=
  let s := rg_Start value in
  let e := rg_End value in
  fail_if ((ps_Line s <? 1) || (ps_Column s <? 1) || (ps_Offset s <? 0) ||
           (ps_Line e <? 1) || (ps_Column e <? 1) || (ps_Offset e <? 0) ||
           (ps_Offset e <? ps_Offset s) || (ps_Line e <? ps_Line s) ||
           ((ps_Line e =? ps_Line s) && (ps_Column e <? ps_Column s)) ||
           ((ps_Offset e =? ps_Offset s) &&
            (negb (ps_Line e =? ps_Line s) || negb (ps_Column e =? ps_Column s))))%Z
    (bad "source range is invalid").

Definition symbolKinds : list string :=
  ["package"; "module"; "namespace"; "class"; "interface"; "type"; "struct"; "enum"; "function";
   "method"; "constructor"; "variable"; "constant"; "field"; "property"; "parameter"; "import";
   "export"; "route"; "schema"; "test"].

Definition ValidateSymbolCard (value : SymbolCard) : result unit :=
  _ ← fail_if (negb (bool_decide (y_SchemaVersion value = "1.0")) ||
               negb (match_classes snapshotIDPattern (y_SnapshotID value)) ||
               negb (match_classes fileIDPattern (y_FileID value)) ||
               negb (match_classes fileLineagePattern (y_FileLineageID value)) ||
               negb (bool_decide (y_Language value ∈ ["go"; "typescript"; "javascript"; "python"])) ||
               negb (bool_decide (y_Kind value ∈ symbolKinds)) ||
               blank (y_Name value) || (512 <? len (y_Name value))%Z ||
               blank (y_QualifiedName value) || (2048 <? len (y_QualifiedName value))%Z ||
               (8192 <? len (y_Signature value))%Z ||
               negb (is_ok (validateSourceRange (y_Declaration value))))
        (bad "symbol card identity or declaration is invalid");
  _ ← fail_if match y_DocumentationHash value with
              | Some hash => negb (match_classes contentHashPattern hash)
              | None => false
              end (bad "symbol documentation hash is invalid");
  fail_if (negb (match_classes symbolIDPattern (y_SymbolID value)) ||
           negb (bool_decide (y_SymbolID value = ComputeSymbolID value)) ||
           negb (match_classes symbolLineagePattern (y_LineageID value)) ||
           negb (bool_decide (y_LineageID value = ComputeSymbolLineageID value)))
    (bad "symbol card ID does not match its identity projection").

Definition validRelationKind (value : string) : bool :=
  bool_decide (value ∈ ["contains"; "imports"; "exports"; "declares"; "references"; "calls";
    "implements"; "extends"; "reads"; "writes"; "tests"; "routes_to"; "validates"; "uses_schema"]).
Definition validEvidenceClass (value : string) : bool :=
  bool_decide (value ∈ ["candidate_static"; "confirmed_static"; "confirmed_behavioral";
                        "runtime_observed"]).

Definition validateResolution (value : RelationEvidence) : result unit :=
  if bool_decide (re_Resolution value = "resolved") then
    match re_TargetEntityID value, re_UnresolvedName value with
    | Some target, None =>
        fail_if (negb (entityIDPattern target)) (bad "resolved relation lacks an exact target")
    | _, _ => Err (bad "resolved relation lacks an exact target")
    end
  else if bool_decide (re_Resolution value = "unresolved") then
    match re_TargetEntityID value, re_UnresolvedName value with
    | None, Some name =>
        fail_if (blank name || (2048 <? len name)%Z)
          (bad "unresolved relation lacks its explicit gap")
    | _, _ => Err (bad "unresolved relation lacks its explicit gap")
    end
  else Err (bad "relation resolution is invalid").

Definition ValidateRelationEvidence (value : RelationEvidence) : result unit :=
  _ ← fail_if (negb (bool_decide (re_SchemaVersion value = "1.0")) ||
               negb (match_classes snapshotIDPattern (re_SnapshotID value)) ||
               negb (entityIDPattern (re_SourceEntityID value)) ||
               negb (match_classes fileIDPattern (re_SourceFileID value)) ||
               negb (validRelationKind (re_Kind value)) ||
               negb (validEvidenceClass (re_EvidenceClass value)) ||
               negb (match_classes contentHashPattern (re_EvidenceHash value)) ||
               negb (is_ok (validateSourceRange (re_Locator value))) ||
               negb (is_ok (validateAdapter (re_Adapter value))))
        (bad "relation identity or evidence is invalid");
  _ ← validateResolution value;
  fail_if (negb (match_classes relationIDPattern (re_RelationID value)) ||
           negb (bool_decide (re_RelationID value = ComputeRelationID value)))
    (bad "relation ID does not match its identity projection").

(** ** [ValidateBundle] *)

Record fileIndex := mkFileIndex {
  fi_files : gmap string FileCard; fi_paths : gset string; fi_diagnostics : Z }.

Definition addFile (snapshot : RepositorySnapshot) (x : fileIndex) (file : FileCard)
    : result fileIndex :=
  _ ← match ValidateFileCard file with
      | Err e => Err (Errorf (Sprintf "file %q: %w" [f_FileID file]) e)
      | Ok _ => Ok tt
      end;
  _ ← fail_if (negb (bool_decide (f_SnapshotID file = sn_SnapshotID snapshot)) ||
               negb (bool_decide (f_RepositoryID file = sn_RepositoryID snapshot)) ||
               negb (bool_decide (f_SourceCommit file = sn_SourceCommit snapshot)))
        (ErrorString (Sprintf "file %q escapes the snapshot authority" [f_FileID file]));
  _ ← fail_if (bool_decide (is_Some (fi_files x !! f_FileID file)))
        (ErrorString (Sprintf "duplicate file %q" [f_FileID file]));
  _ ← fail_if (bool_decide (f_Path file ∈ fi_paths x))
        (ErrorString (Sprintf "duplicate file path %q" [f_Path file]));
  Ok (mkFileIndex (<[f_FileID file := file]> (fi_files x)) ({[f_Path file]} ∪ fi_paths x)
        (foldl (λ n diagnostic, wrap64 (n + dg_Count diagnostic)) (fi_diagnostics x)
           (default [] (f_Diagnostics file)))).

Record symbolIndex := mkSymbolIndex {
  si_symbols : gmap string SymbolCard; si_fileSymbols : gmap string (list string) }.

Definition zeroFile : FileCard := mkFileCard "" "" "" "" "" "" "" "" "" 0 "" false None None.

Definition addSymbol (snapshot : RepositorySnapshot) (files : gmap string FileCard)
    (x : symbolIndex) (symbol : SymbolCard) : result symbolIndex :=
  let id := y_SymbolID symbol in
  _ ← match ValidateSymbolCard symbol with
      | Err e => Err (Errorf (Sprintf "symbol %q: %w" [id]) e)
      | Ok _ => Ok tt
      end;
  _ ← fail_if (negb (bool_decide (y_SnapshotID symbol = sn_SnapshotID snapshot)))
        (ErrorString (Sprintf "symbol %q escapes the snapshot authority" [id]));
  _ ← fail_if (negb (bool_decide (is_Some (files !! y_FileID symbol))))
        (ErrorString (Sprintf "symbol %q references an unknown file" [id]));
  _ ← fail_if (negb (bool_decide (f_LineageID (default zeroFile (files !! y_FileID symbol)) =
                                  y_FileLineageID symbol)))
        (ErrorString (Sprintf "symbol %q carries the wrong file lineage" [id]));
  _ ← fail_if (bool_decide (is_Some (si_symbols x !! id)))
        (ErrorString (Sprintf "duplicate symbol %q" [id]));
  Ok (mkSymbolIndex (<[id := symbol]> (si_symbols x))
        (<[y_FileID symbol := default [] (si_fileSymbols x !! y_FileID symbol) ++ [id]]>
           (si_fileSymbols x))).

(** Go visits the files in no fixed order; the error names one of those whose
    closure does not match. *)
Fixpoint checkClosures (fileSymbols : gmap string (list string)) (files : list (string * FileCard))
    : result unit :=
  match files with
  | [] => Ok tt
  | (fileID, file) :: rest =>
      let actual := merge_sort String.le (default [] (fileSymbols !! fileID)) in
      _ ← fail_if (negb (bool_decide (actual = default [] (f_SymbolIDs file))))
            (ErrorString (Sprintf "file %q symbol closure does not match" [fileID]));
      checkClosures fileSymbols rest
  end.

Definition knownLocalEntity (id : string) (files : gmap string FileCard)
    (symbols : gmap string SymbolCard) : bool :=
  bool_decide (is_Some (files !! id)) || bool_decide (is_Some (symbols !! id)).

Definition knownTargetEntity (id : string) (files : gmap string FileCard)
    (symbols : gmap string SymbolCard) : bool :=
  ((9 <? len id)%Z && HasPrefix id "external_") || knownLocalEntity id files symbols.

Definition addRelation (snapshot : RepositorySnapshot) (files : gmap string FileCard)
    (symbols : gmap string SymbolCard) (relations : gset string) (relation : RelationEvidence)
    : result (gset string) :=
  let id := re_RelationID relation in
  _ ← match ValidateRelationEvidence relation with
      | Err e => Err (Errorf (Sprintf "relation %q: %w" [id]) e)
      | Ok _ => Ok tt
      end;
  _ ← fail_if (negb (bool_decide (re_SnapshotID relation = sn_SnapshotID snapshot)))
        (ErrorString (Sprintf "relation %q escapes the snapshot authority" [id]));
  _ ← fail_if (negb (bool_decide (is_Some (files !! re_SourceFileID relation))))
        (ErrorString (Sprintf "relation %q references an unknown source file" [id]));
  _ ← fail_if (negb (knownLocalEntity (re_SourceEntityID relation) files symbols))
        (ErrorString (Sprintf "relation %q references an unknown source entity" [id]));
  _ ← fail_if match symbols !! re_SourceEntityID relation with
              | Some symbol => negb (bool_decide (y_FileID symbol = re_SourceFileID relation))
              | None => false
              end
        (ErrorString (Sprintf "relation %q source symbol belongs to another file" [id]));
  _ ← fail_if (bool_decide (is_Some (files !! re_SourceEntityID relation)) &&
               negb (bool_decide (re_SourceEntityID relation = re_SourceFileID relation)))
        (ErrorString (Sprintf "relation %q source file disagrees with its locator file" [id]));
  _ ← fail_if match re_TargetEntityID relation with
              | Some target => negb (knownTargetEntity target files symbols)
              | None => false
              end
        (ErrorString (Sprintf "relation %q references an unknown target entity" [id]));
  _ ← fail_if (bool_decide (id ∈ relations))
        (ErrorString (Sprintf "duplicate relation %q" [id]));
  Ok ({[id]} ∪ relations).

Definition ValidateBundle (bundle : IndexBundle) : result unit :=
  let snapshot := b_Snapshot bundle in
  _ ← match ValidateRepositorySnapshot snapshot with
      | Err e => Err (Errorf (Lit "snapshot: %w") e)
      | Ok _ => Ok tt
      end;
  _ ← fail_if (bool_decide (b_FileSlice bundle = None) || bool_decide (b_SymbolSlice bundle = None) ||
               bool_decide (b_RelationSlice bundle = None))
        (bad "index bundle collections must be present");
  _ ← fail_if (negb (ct_Files (sn_Counts snapshot) =? Z.of_nat (length (b_Files bundle)))%Z ||
               negb (ct_Symbols (sn_Counts snapshot) =? Z.of_nat (length (b_Symbols bundle)))%Z ||
               negb (ct_Relations (sn_Counts snapshot) =? Z.of_nat (length (b_Relations bundle)))%Z)
        (bad "snapshot counts do not match the bundle");
  x ← loop (addFile snapshot) (mkFileIndex ∅ ∅ 0) (b_Files bundle);
  _ ← fail_if (negb (fi_diagnostics x =? ct_Diagnostics (sn_Counts snapshot))%Z)
        (bad "diagnostic count does not match the bundle");
  y ← loop (addSymbol snapshot (fi_files x)) (mkSymbolIndex ∅ ∅) (b_Symbols bundle);
  _ ← checkClosures (si_fileSymbols y) (map_to_list (fi_files x));
  _ ← loop (addRelation snapshot (fi_files x) (si_symbols y)) ∅ (b_Relations bundle);
  Ok tt.
End identities.

(** ** Identities bind what they project *)

Lemma byte_chr n : (n < 256)%N → byte_of (chr n) = n.
Proof. intros Hn. by apply N_ascii_embedding. Qed.

Lemma bytes_of_inj s s' : bytes_of s = bytes_of s' → s = s'.
Proof.
  revert s'. induction s as [|c s IH]; intros [|d s'] Heq; try done.
  injection Heq as Hc Hs. f_equal; [|by apply IH].
  rewrite <-(ascii_N_embedding c), <-(ascii_N_embedding d). unfold byte_of in Hc. by rewrite Hc.
Qed.

Lemma hexText_inj d d' : hexText d = hexText d' → d = d'.
Proof.
  unfold hexText. intros Heq%string_of_inj. apply bytes_of_inj.
  pose proof (f_equal length Heq) as Hlen. rewrite !length_hex_encode in Hlen.
  apply hex_encode_inj; [lia|apply bytes_of_lt..|done].
Qed.

Lemma big_endian_inj width : ∀ n m x y,
  big_endian width n +:+ x = big_endian width m +:+ y →
  (n mod 256 ^ Z.of_nat width = m mod 256 ^ Z.of_nat width)%Z ∧ x = y.
Proof.
  induction width as [|width IH]; intros n m x y; cbn [big_endian].
  - intros Heq. by rewrite !Z.mod_1_r.
  - rewrite !string_app_cons. intros [= Hc Heq]. destruct (IH _ _ _ _ Heq) as [Hmod ->].
    split; [|done].
    assert (∀ z, 0 ≤ z mod 256 < 256)%Z as Hb by (intros; apply Z.mod_pos_bound; lia).
    assert (∀ z, Z.to_N (z mod 256) < 256)%N as Hb' by (intros z; specialize (Hb z); lia).
    apply (f_equal byte_of) in Hc. rewrite !byte_chr in Hc by apply Hb'.
    apply Z2N.inj in Hc; [|apply Hb..].
    rewrite Nat2Z.inj_succ, Z.pow_succ_r, (Z.mul_comm 256) by lia.
    rewrite !Z.rem_mul_r by lia. by rewrite Hmod, Hc.
Qed.

(** A text shorter than [2^64] bytes. *)
Definition sizeable (s : string) : Prop := (len s < 2 ^ 64)%Z.

Lemma append_length_inj (a b x y : string) :
  String.length a = String.length b → a +:+ x = b +:+ y → a = b ∧ x = y.
Proof.
  revert b. induction a as [|c a IH]; intros [|d b] Hlen Heq; try done.
  rewrite !string_app_cons in Heq. injection Heq as -> Heq. injection Hlen as Hlen.
  by destruct (IH b Hlen Heq) as [-> ->].
Qed.

Lemma sized_inj cs : ∀ ds,
  Forall sizeable cs → Forall sizeable ds → sized cs = sized ds → cs = ds.
Proof.
  induction cs as [|c cs IH]; intros [|d ds] Hcs Hds; cbn [sized]; try done.
  rewrite Forall_cons in Hcs, Hds. destruct Hcs as [Hc Hcs], Hds as [Hd Hds].
  intros [Hlen Hrest]%big_endian_inj. unfold sizeable, len in Hc, Hd.
  rewrite !Z.mod_small in Hlen by (change (256 ^ Z.of_nat 8)%Z with (2 ^ 64)%Z; lia).
  apply append_length_inj in Hrest as [-> Hrest]; [|lia]. f_equal. by apply IH.
Qed.

Section binding.
Context `{Sha256}.

(** The digest separates the two encoded identities. *)
Definition separates (prefix : string) (cs ds : list string) : Prop :=
  Sum256 (stablePreimage prefix cs) = Sum256 (stablePreimage prefix ds) →
  stablePreimage prefix cs = stablePreimage prefix ds.

Lemma append_inj_l (p x y : string) : p +:+ x = p +:+ y → x = y.
Proof. intros Heq. by apply append_length_inj in Heq as [_ ?]. Qed.

Lemma StableIndexID_inj prefix cs ds :
  separates prefix cs ds → Forall sizeable cs → Forall sizeable ds →
  StableIndexID prefix cs = StableIndexID prefix ds → cs = ds.
Proof.
  unfold StableIndexID, separates, stablePreimage. intros Hsep Hcs Hds Heq.
  apply append_inj_l, append_inj_l, hexText_inj, Hsep, append_inj_l, append_inj_l in Heq.
  by apply sized_inj.
Qed.

Lemma matches_sizeable cs s : length cs ≤ 100 → match_classes cs s = true → sizeable s.
Proof. intros Hle Hm%match_classes_length. unfold sizeable, len. lia. Qed.

Lemma authority_sizeable s prefix : validAuthority s prefix = true → sizeable s.
Proof.
  unfold validAuthority, authorityIDPattern. rewrite andb_true_iff, orb_true_iff.
  intros [_ [Hm|Hm]]; (eapply matches_sizeable; [|exact Hm]); cbn; lia.
Qed.

Lemma gitObject_sizeable s : gitObjectPattern s = true → sizeable s.
Proof.
  unfold gitObjectPattern. rewrite andb_true_iff, bool_decide_eq_true. unfold sizeable, len. lia.
Qed.

Lemma path_sizeable s : is_ok (NormalizeRepositoryPath s) = true → sizeable s.
Proof.
  unfold NormalizeRepositoryPath, sizeable, len. destruct (_ || _) eqn:Hg; [done|]. bool_prop. lia.
Qed.

(** What the first checks of a file card establish. *)
Lemma ValidateFileCard_identity f :
  ValidateFileCard f = Ok tt →
  f_FileID f = ComputeFileID f ∧ f_LineageID f = ComputeFileLineageID f ∧
  Forall sizeable [f_RepositoryID f; f_SourceCommit f; f_Path f; f_GitBlobID f; f_SourceHash f].
Proof.
  unfold ValidateFileCard. intros ([] & Hg1%fail_if_ok & Hr)%res_bind_ok.
  apply res_bind_ok in Hr as (p & Hp & Hr). apply res_bind_ok in Hr as ([] & _ & Hr).
  apply res_bind_ok in Hr as ([] & Hg2%fail_if_ok & _). bool_prop.
  destruct Hg1 as ((((((_ & _) & Hrep) & Hcommit) & Hblob) & Hhash) & _).
  split_and!; [tauto|tauto|]. repeat apply Forall_cons_2; try done.
  - by eapply authority_sizeable.
  - by apply gitObject_sizeable.
  - apply path_sizeable. by rewrite Hp.
  - by apply gitObject_sizeable.
  - eapply matches_sizeable; [|exact Hhash]. cbn. lia.
Qed.

(** A file ID binds its evidence: two validated file cards with the same ID are
    about the same repository, commit, path, Git blob and source hash, provided
    the digest separates the two encodings; no field can spill into the next
    one, since every field is encoded with its length. *)
Theorem file_id_binds f g :
  ValidateFileCard f = Ok tt → ValidateFileCard g = Ok tt →
  separates "file"
    [f_RepositoryID f; f_SourceCommit f; f_Path f; f_GitBlobID f; f_SourceHash f]
    [f_RepositoryID g; f_SourceCommit g; f_Path g; f_GitBlobID g; f_SourceHash g] →
  f_FileID f = f_FileID g →
  f_RepositoryID f = f_RepositoryID g ∧ f_SourceCommit f = f_SourceCommit g ∧
  f_Path f = f_Path g ∧ f_GitBlobID f = f_GitBlobID g ∧ f_SourceHash f = f_SourceHash g ∧
  f_LineageID f = f_LineageID g.
Proof.
  intros (Hf & Hfl & Hfs)%ValidateFileCard_identity (Hg & Hgl & Hgs)%ValidateFileCard_identity Hsep Heq.
  rewrite Hf, Hg in Heq. apply StableIndexID_inj in Heq as [= Hr Hc Hp Hb Hh]; [|done..].
  split_and!; try done. rewrite Hfl, Hgl. unfold ComputeFileLineageID. by rewrite Hr, Hp.
Qed.
End binding.

(** ** What a validated bundle guarantees *)

Section bundles.
Context `{Sha256, AdapterJson}.

(** Every identifier is unique, every reference stays inside the bundle (or is
    declared external) and the symbol lists of the files are exact. *)
Record bundle_closed (bundle : IndexBundle) : Prop := mkClosed {
  bc_snapshot : ValidateRepositorySnapshot (b_Snapshot bundle) = Ok tt;
  bc_files : Forall (λ f, ValidateFileCard f = Ok tt ∧
      f_SnapshotID f = sn_SnapshotID (b_Snapshot bundle) ∧
      f_RepositoryID f = sn_RepositoryID (b_Snapshot bundle) ∧
      f_SourceCommit f = sn_SourceCommit (b_Snapshot bundle)) (b_Files bundle);
  bc_file_ids : NoDup (f_FileID <$> b_Files bundle);
  bc_file_paths : NoDup (f_Path <$> b_Files bundle);
  bc_symbol_ids : NoDup (y_SymbolID <$> b_Symbols bundle);
  bc_symbols : Forall (λ y, ∃ f, f ∈ b_Files bundle ∧ f_FileID f = y_FileID y ∧
      f_LineageID f = y_FileLineageID y) (b_Symbols bundle);
  bc_closure : ∀ f id, f ∈ b_Files bundle →
      id ∈ default [] (f_SymbolIDs f) ↔
      ∃ y, y ∈ b_Symbols bundle ∧ y_FileID y = f_FileID f ∧ y_SymbolID y = id;
  bc_relation_ids : NoDup (re_RelationID <$> b_Relations bundle);
  bc_relations : Forall (λ r,
      (∃ f, f ∈ b_Files bundle ∧ f_FileID f = re_SourceFileID r ∧
         (re_SourceEntityID r = f_FileID f ∨
          ∃ y, y ∈ b_Symbols bundle ∧ y_SymbolID y = re_SourceEntityID r ∧
            y_FileID y = f_FileID f)) ∧
      ∀ target, re_TargetEntityID r = Some target →
        HasPrefix target "external_" = true ∨ target ∈ (f_FileID <$> b_Files bundle) ∨
        target ∈ (y_SymbolID <$> b_Symbols bundle)) (b_Relations bundle);
}.

Lemma addFile_spec snapshot x f x' :
  addFile snapshot x f = Ok x' →
  (ValidateFileCard f = Ok tt ∧ f_SnapshotID f = sn_SnapshotID snapshot ∧
   f_RepositoryID f = sn_RepositoryID snapshot ∧ f_SourceCommit f = sn_SourceCommit snapshot) ∧
  fi_files x !! f_FileID f = None ∧ (f_Path f ∉ fi_paths x) ∧
  fi_files x' = <[f_FileID f := f]> (fi_files x) ∧ fi_paths x' = {[f_Path f]} ∪ fi_paths x.
Proof.
  unfold addFile. intros ([] & Hv & Hr)%res_bind_ok.
  apply res_bind_ok in Hr as ([] & Hs%fail_if_ok & Hr).
  apply res_bind_ok in Hr as ([] & Hid%fail_if_ok & Hr).
  apply res_bind_ok in Hr as ([] & Hp%fail_if_ok & Hr). injection Hr as <-. bool_prop.
  destruct (ValidateFileCard f) as [[]|]; [|done].
  rewrite <-eq_None_not_Some in Hid. by split_and!; try tauto.
Qed.

Lemma addSymbol_spec snapshot files x y x' :
  addSymbol snapshot files x y = Ok x' →
  (∃ f, files !! y_FileID y = Some f ∧ f_LineageID f = y_FileLineageID y) ∧
  si_symbols x !! y_SymbolID y = None ∧
  si_symbols x' = <[y_SymbolID y := y]> (si_symbols x) ∧
  si_fileSymbols x' =
    <[y_FileID y := default [] (si_fileSymbols x !! y_FileID y) ++ [y_SymbolID y]]>
      (si_fileSymbols x).
Proof.
  unfold addSymbol. intros ([] & _ & Hr)%res_bind_ok.
  apply res_bind_ok in Hr as ([] & _ & Hr).
  apply res_bind_ok in Hr as ([] & Hf%fail_if_ok & Hr).
  apply res_bind_ok in Hr as ([] & Hl%fail_if_ok & Hr).
  apply res_bind_ok in Hr as ([] & Hid%fail_if_ok & Hr). injection Hr as <-. bool_prop.
  rewrite <-eq_None_not_Some in Hid. destruct Hf as [f Hf]. rewrite Hf in Hl.
  split_and!; try done. by exists f.
Qed.

Lemma addRelation_spec snapshot files symbols ids r ids' :
  addRelation snapshot files symbols ids r = Ok ids' →
  (re_RelationID r ∉ ids) ∧ ids' = {[re_RelationID r]} ∪ ids ∧
  is_Some (files !! re_SourceFileID r) ∧
  (is_Some (files !! re_SourceEntityID r) ∨ is_Some (symbols !! re_SourceEntityID r)) ∧
  (∀ y, symbols !! re_SourceEntityID r = Some y → y_FileID y = re_SourceFileID r) ∧
  (is_Some (files !! re_SourceEntityID r) → re_SourceEntityID r = re_SourceFileID r) ∧
  (∀ target, re_TargetEntityID r = Some target →
     HasPrefix target "external_" = true ∨ is_Some (files !! target) ∨ is_Some (symbols !! target)).
Proof.
  unfold addRelation. intros ([] & _ & Hr)%res_bind_ok.
  apply res_bind_ok in Hr as ([] & _ & Hr).
  apply res_bind_ok in Hr as ([] & Hf%fail_if_ok & Hr).
  apply res_bind_ok in Hr as ([] & He%fail_if_ok & Hr).
  apply res_bind_ok in Hr as ([] & Hy%fail_if_ok & Hr).
  apply res_bind_ok in Hr as ([] & Hs%fail_if_ok & Hr).
  apply res_bind_ok in Hr as ([] & Ht%fail_if_ok & Hr).
  apply res_bind_ok in Hr as ([] & Hid%fail_if_ok & Hr). injection Hr as <-.
  unfold knownTargetEntity, knownLocalEntity in *. bool_prop.
  split_and!; [done|done|done|done| | |].
  - intros y Hsy. rewrite Hsy in Hy. by bool_prop.
  - tauto.
  - intros target Hta. rewrite Hta in Ht. bool_prop. tauto.
Qed.

Lemma addFile_loop snapshot l : ∀ x x',
  loop (addFile snapshot) x l = Ok x' →
  ∀ kf : string * FileCard, fi_files x' !! kf.1 = Some kf.2 ↔
    fi_files x !! kf.1 = Some kf.2 ∨ ∃ f, f ∈ l ∧ (f_FileID f = kf.1 ∧ f = kf.2).
Proof.
  apply (loop_collects (addFile snapshot) (λ x kf, fi_files x !! kf.1 = Some kf.2)
           (λ f kf, f_FileID f = kf.1 ∧ f = kf.2)).
  intros x f x' (_ & Hnone & _ & -> & _)%addFile_spec [k g]. cbn. rewrite lookup_insert_Some.
  split; [naive_solver|]. intros [Hg|[<- <-]]; [|by left]. right. split; [|done].
  intros <-. congruence.
Qed.

Lemma addSymbol_loop snapshot files l : ∀ x x',
  loop (addSymbol snapshot files) x l = Ok x' →
  (∀ ky : string * SymbolCard, si_symbols x' !! ky.1 = Some ky.2 ↔
    si_symbols x !! ky.1 = Some ky.2 ∨ ∃ y, y ∈ l ∧ (y_SymbolID y = ky.1 ∧ y = ky.2)) ∧
  (∀ ki : string * string, ki.2 ∈ default [] (si_fileSymbols x' !! ki.1) ↔
    ki.2 ∈ default [] (si_fileSymbols x !! ki.1) ∨
    ∃ y, y ∈ l ∧ (y_FileID y = ki.1 ∧ y_SymbolID y = ki.2)).
Proof.
  intros x x' Hrun. split.
  - refine (loop_collects (addSymbol snapshot files) (λ x ky, si_symbols x !! ky.1 = Some ky.2)
             (λ y ky, y_SymbolID y = ky.1 ∧ y = ky.2) _ _ _ _ Hrun).
    clear. intros x y x' (_ & Hnone & -> & _)%addSymbol_spec [k g]. cbn. rewrite lookup_insert_Some.
    split; [naive_solver|]. intros [Hg|[<- <-]]; [|by left]. right. split; [|done].
    intros <-. congruence.
  - refine (loop_collects (addSymbol snapshot files)
             (λ x ki, ki.2 ∈ default [] (si_fileSymbols x !! ki.1))
             (λ y ki, y_FileID y = ki.1 ∧ y_SymbolID y = ki.2) _ _ _ _ Hrun).
    clear. intros x y x' (_ & _ & _ & ->)%addSymbol_spec [k i]. cbn.
    destruct (decide (y_FileID y = k)) as [<-|Hne].
    + rewrite lookup_insert_eq. cbn. rewrite elem_of_app, list_elem_of_singleton. naive_solver.
    + rewrite lookup_insert_ne by done. naive_solver.
Qed.

Lemma checkClosures_sound fileSymbols l :
  checkClosures fileSymbols l = Ok tt →
  ∀ id f, (id, f) ∈ l → merge_sort String.le (default [] (fileSymbols !! id)) = default [] (f_SymbolIDs f).
Proof.
  induction l as [|[i g] l IH]; cbn [checkClosures]; [by intros _ ? ? ?%elem_of_nil|].
  intros ([] & Hg%fail_if_ok & Hr)%res_bind_ok id f [[= -> ->]|Hin]%elem_of_cons; [|by apply IH].
  by bool_prop.
Qed.

(** The three loops of an accepted bundle. *)
Lemma ValidateBundle_loops bundle :
  ValidateBundle bundle = Ok tt →
  ValidateRepositorySnapshot (b_Snapshot bundle) = Ok tt ∧
  ∃ x y ids,
    loop (addFile (b_Snapshot bundle)) (mkFileIndex ∅ ∅ 0) (b_Files bundle) = Ok x ∧
    loop (addSymbol (b_Snapshot bundle) (fi_files x)) (mkSymbolIndex ∅ ∅) (b_Symbols bundle) = Ok y ∧
    checkClosures (si_fileSymbols y) (map_to_list (fi_files x)) = Ok tt ∧
    loop (addRelation (b_Snapshot bundle) (fi_files x) (si_symbols y)) ∅ (b_Relations bundle) = Ok ids.
Proof.
  unfold ValidateBundle. intros ([] & Hs & Hr)%res_bind_ok.
  apply res_bind_ok in Hr as ([] & _ & Hr). apply res_bind_ok in Hr as ([] & _ & Hr).
  apply res_bind_ok in Hr as (x & Hx & Hr). apply res_bind_ok in Hr as ([] & _ & Hr).
  apply res_bind_ok in Hr as (y & Hy & Hr). apply res_bind_ok in Hr as ([] & Hc & Hr).
  apply res_bind_ok in Hr as (ids & Hi & _).
  destruct (ValidateRepositorySnapshot _) as [[]|]; [|done]. split; [done|]. by exists x, y, ids.
Qed.

Lemma ValidateBundle_closed bundle : ValidateBundle bundle = Ok tt → bundle_closed bundle.
Proof.
  intros (Hsnap & x & y & ids & Hx & Hy & Hclos & Hi)%ValidateBundle_loops.
  assert (∀ k f, fi_files x !! k = Some f ↔ f ∈ b_Files bundle ∧ f_FileID f = k) as Hfiles.
  { intros k f. rewrite (addFile_loop _ _ _ _ Hx (k, f)). cbn. rewrite lookup_empty. naive_solver. }
  destruct (addSymbol_loop _ _ _ _ _ Hy) as [Hsyms Hlists].
  assert (∀ k s, si_symbols y !! k = Some s ↔ s ∈ b_Symbols bundle ∧ y_SymbolID s = k) as Hsymbols.
  { intros k s. rewrite (Hsyms (k, s)). cbn. rewrite lookup_empty. naive_solver. }
  assert (∀ k, is_Some (fi_files x !! k) → k ∈ f_FileID <$> b_Files bundle) as Hfk.
  { intros k [f Hf]. apply Hfiles in Hf as [? <-]. by apply list_elem_of_fmap_2. }
  constructor.
  - done.
  - eapply loop_checks; [|exact Hx]. intros x1 f x2 Hrun. by apply addFile_spec in Hrun as [? _].
  - eapply (loop_distinct _ (λ x k, is_Some (fi_files x !! k)) f_FileID); [|exact Hx].
    clear. intros x f x' (_ & Hnone & _ & -> & _)%addFile_spec. rewrite Hnone.
    split; [by intros [? [=]]|]. intros k. rewrite lookup_insert_is_Some'. naive_solver.
  - eapply (loop_distinct _ (λ x p, p ∈ fi_paths x) f_Path); [|exact Hx].
    clear. intros x f x' (_ & _ & Hnew & _ & ->)%addFile_spec. split; [done|]. set_solver.
  - eapply (loop_distinct _ (λ y k, is_Some (si_symbols y !! k)) y_SymbolID); [|exact Hy].
    clear. intros y s y' (_ & Hnone & -> & _)%addSymbol_spec. rewrite Hnone.
    split; [by intros [? [=]]|]. intros k. rewrite lookup_insert_is_Some'. naive_solver.
  - eapply loop_checks; [|exact Hy]. intros y1 s y2 ((f & Hf & Hl) & _)%addSymbol_spec.
    apply Hfiles in Hf as [? ?]. by exists f.
  - intros f id Hf.
    rewrite <-(checkClosures_sound _ _ Hclos (f_FileID f) f)
      by (apply elem_of_map_to_list, Hfiles; done).
    rewrite merge_sort_Permutation, (Hlists (f_FileID f, id)). cbn. rewrite lookup_empty. cbn.
    rewrite elem_of_nil. tauto.
  - eapply (loop_distinct _ (λ (ids : gset string) k, k ∈ ids) re_RelationID); [|exact Hi].
    clear. intros ids r ids' (Hnew & -> & _)%addRelation_spec. split; [done|]. set_solver.
  - eapply loop_checks; [|exact Hi].
    intros ids1 r ids2 (_ & _ & [f Hf] & Hsrc & Hsym & Hself & Htgt)%addRelation_spec. split.
    + apply Hfiles in Hf as [Hin Hfid]. exists f. split_and!; [done|done|]. rewrite Hfid.
      destruct Hsrc as [?|[s Hs]]; [left; by apply Hself|]. right. exists s.
      pose proof (Hsym s Hs). by apply Hsymbols in Hs as [? ?].
    + intros target Ht. destruct (Htgt target Ht) as [?|[?|[s Hs]]]; [by left|right; left; auto|].
      right. right. apply Hsymbols in Hs as [? <-]. by apply list_elem_of_fmap_2.
Qed.
End bundles.

(** Validation is sound: an accepted bundle has unique file, path, symbol and
    relation identities, all cards of its own snapshot, symbols in known files of
    the right lineage, file symbol lists that are exactly the symbols declared
    for the file, and relations whose ends exist or are declared external. *)
Theorem validated_bundle_closed `{Sha256, AdapterJson} bundle :
  ValidateBundle bundle = Ok tt → bundle_closed bundle.
Proof. apply ValidateBundle_closed. Qed.

(** ** A repository of four files

    [b.go] imports [a.go], a symbol of [c.go] calls one of [b.go], and [d.go]
    stands alone. The digest is a toy of 32 bytes. *)

Module Sample.
Definition checksum (s : string) : N :=
  foldl (λ h b, N.land (h * 31 + b + 7) 65535)%N 0%N (bytes_of s).
#[local] Instance demo_sha : Sha256 := λ s,
  let h := checksum s in
  string_of (mjoin (replicate 16 [chr (N.shiftr h 8); chr (N.land h 255)])).
#[local] Instance demo_json : AdapterJson := λ adapters, Ok (Join (adapter_key <$> adapters) "|").

Definition content (s : string) : string := "sha256:" +:+ hexText (Sum256 s).
Definition object (c : ascii) : string := string_of (replicate 40 c).
Definition tenant : string := "tenant_00000000-0000-4000-8000-000000000001".
Definition repository : string := "repo_00000000-0000-4000-8000-000000000002".
Definition adapter : AdapterDescriptor := mkAdapter "go" "1" (content "cfg") (content "cap").
Definition range : SourceRange := mkRange (mkPosition 1 1 0) (mkPosition 1 2 1).
Definition now : Time := mkTime 0 0.

Definition snapshot (commit : ascii) (configuration : string) (counts : SnapshotCounts)
    : RepositorySnapshot :=
  let hash := match ComputeAdapterSetHash [adapter] with Ok h => h | Err _ => "" end in
  let draft id := mkSnapshot id "1.0" tenant repository (object commit) (object "f")
    (content configuration) hash [adapter] "proposed" 1 counts None None "agent" now None in
  draft (ComputeSnapshotID (draft "")).

Definition card (snapshot : RepositorySnapshot) (path source : string) (symbols : list string)
    : FileCard :=
  let draft id lineage := mkFileCard id lineage "1.0" (sn_SnapshotID snapshot) repository
    (sn_SourceCommit snapshot) path (object "e") (content source) 1 "go" false
    (Some symbols) (Some []) in
  draft (ComputeFileID (draft "" "")) (ComputeFileLineageID (draft "" "")).

Definition symbol (snapshot : RepositorySnapshot) (name : string) (file : FileCard) : SymbolCard :=
  let draft id lineage := mkSymbolCard id lineage (f_LineageID file) "1.0" (sn_SnapshotID snapshot)
    (f_FileID file) "go" "function" name name "()" range true false false false None in
  draft (ComputeSymbolID (draft "" "")) (ComputeSymbolLineageID (draft "" "")).

Definition relation (snapshot : RepositorySnapshot) (source file kind target : string)
    : RelationEvidence :=
  let draft id := mkRelation id "1.0" (sn_SnapshotID snapshot) source kind "resolved" (Some target)
    None "confirmed_static" file range (content kind) adapter in
  draft (ComputeRelationID (draft "")).

(** The bundle of a commit in which [a.go] has the given source. *)
Definition bundle (commit : ascii) (configuration source : string) : IndexBundle :=
  let s := snapshot commit configuration (mkCounts 4 2 2 0) in
  let a := card s "a.go" source [] in
  let g := y_SymbolID (symbol s "g" (card s "b.go" "b" [])) in
  let b := card s "b.go" "b" [g] in
  let f := y_SymbolID (symbol s "f" (card s "c.go" "c" [])) in
  let c := card s "c.go" "c" [f] in
  let d := card s "d.go" "d" [] in
  mkBundle s (Some [a; b; c; d]) (Some [symbol s "g" b; symbol s "f" c])
    (Some [relation s (f_FileID b) (f_FileID b) "imports" (f_FileID a);
           relation s f (f_FileID c) "calls" g]).

Definition baseline : IndexBundle := Eval vm_compute in bundle "a" "configuration" "a1".
Definition target : IndexBundle := Eval vm_compute in bundle "b" "configuration" "a2".

Lemma baseline_valid : ValidateBundle baseline = Ok tt.
Proof. vm_compute. reflexivity. Qed.
Lemma target_valid : ValidateBundle target = Ok tt.
Proof. vm_compute. reflexivity. Qed.

Lemma validated_bundle_closed_witness : bundle_closed baseline.
Proof. apply (validated_bundle_closed baseline). exact baseline_valid. Defined.

(** One file, read as two languages. *)
Definition source_file (language : string) : FileCard :=
  let d := card (b_Snapshot baseline) "d.go" "d" [] in
  mkFileCard (f_FileID d) (f_LineageID d) "1.0" (f_SnapshotID d) repository (f_SourceCommit d)
    "d.go" (f_GitBlobID d) (f_SourceHash d) 1 language false (Some []) (Some []).
Definition d_go : FileCard := Eval vm_compute in source_file "go".
Definition d_other : FileCard := Eval vm_compute in source_file "other".

Lemma file_id_binds_witness :
  f_RepositoryID d_go = f_RepositoryID d_other ∧ f_SourceCommit d_go = f_SourceCommit d_other ∧
  f_Path d_go = f_Path d_other ∧ f_GitBlobID d_go = f_GitBlobID d_other ∧
  f_SourceHash d_go = f_SourceHash d_other ∧ f_LineageID d_go = f_LineageID d_other.
Proof.
  apply (file_id_binds d_go d_other); [vm_compute; reflexivity..| |reflexivity]. by intros _.
Defined.
End Sample.
