(* ===== verification/Invalidation.v ===== *)
(** * Package [internal/indexing]: incremental invalidation ([invalidation.go])

    Given the index of a baseline commit, the documents of a target commit and
    the changes Git reports between them, the planner computes which paths must
    be indexed again and which cards may be reused. *)

From S2P Require Import Prelude GoLib Fault LeasePaths IndexCards IndexValidation.
From Stdlib Require Import Ascii.

Record ReuseCandidate := mkReuse {
  rc_Path : string; rc_FileLineageID : string; rc_PreviousFileID : string;
  rc_SourceHash : string }.

Record EntityInvalidation := mkInvalidation {
  ei_EntityID : string; ei_LineageID : string; ei_Reason : string; ei_SourceHash : string }.

Record InvalidationPlan := mkPlan {
  ip_FullReindex : bool;
  ip_AffectedPaths : list string;
  ip_ReusableFiles : list ReuseCandidate;
  ip_Invalidations : list EntityInvalidation;
}.

Definition errorf (format : string) (args : list string) : error :=
  ErrorString (Sprintf format args).

(** ** Small helpers *)

Definition sortedKeys {A} (values : gmap string A) : list string :=
  merge_sort String.le (map_to_list values).*1.

Definition setReason (values : gmap string string) (path reason : string) : gmap string string :=
  match values !! path with Some _ => values | None => <[path := reason]> values end.

Definition appendUnique (values : list string) (value : string) : list string :=
  if bool_decide (value ∈ values) then values else values ++ [value].

Definition propagatesInvalidation (kind : string) : bool :=
  bool_decide (kind ∈ ["imports"; "references"; "calls"; "implements"; "extends"; "tests";
                       "routes_to"; "validates"; "uses_schema"]).

Definition filesByID (files : list FileCard) : gmap string FileCard :=
  foldl (λ m file, <[f_FileID file := file]> m) ∅ files.
Definition filesByPath (files : list FileCard) : gmap string FileCard :=
  foldl (λ m file, <[f_Path file := file]> m) ∅ files.
Definition symbolFiles (symbols : list SymbolCard) : gmap string string :=
  foldl (λ m symbol, <[y_SymbolID symbol := y_FileID symbol]> m) ∅ symbols.

(** The loop over [targetDocuments]. *)
Fixpoint documentsByPath (documents : list SourceDocument) (m : gmap string SourceDocument)
    : result (gmap string SourceDocument) :=
  match documents with
  | [] => mret m
  | document :: rest =>
      match NormalizeRepositoryPath (doc_Path document) with
      | Err e => Err (Errorf (Lit "target document: %w") e)
      | Ok _ =>
          match m !! doc_Path document with
          | Some _ => Err (errorf "duplicate target document %q" [doc_Path document])
          | None => documentsByPath rest (<[doc_Path document := document]> m)
          end
      end
  end.

(** ** [validateChangeSetCoverage] *)

Definition has {A} (m : gmap string A) (path : string) : bool := bool_decide (is_Some (m !! path)).

(** One change; the result is the set of mentioned paths. *)
Definition checkChange (baseline : gmap string FileCard) (target : gmap string SourceDocument)
    (mentioned : gset string) (change : GitChange) : result (gset string) :=
  let path := gc_Path change in
  match NormalizeRepositoryPath path with
  | Err e => Err (Errorf (Lit "change path: %w") e)
  | Ok _ =>
    if bool_decide (path ∈ mentioned) then Err (errorf "change set repeats path %q" [path])
    else
      let mentioned := {[path]} ∪ mentioned in
      let hadBefore := has baseline path in
      let hasAfter := has target path in
      let noFrom := bool_decide (gc_FromPath change = None) in
      if bool_decide (gc_Kind change = "added") then
        if hadBefore || negb hasAfter || negb noFrom
        then Err (errorf "added change %q contradicts repository states" [path])
        else Ok mentioned
      else if bool_decide (gc_Kind change = "modified") then
        if negb hadBefore || negb hasAfter || negb noFrom
        then Err (errorf "modified change %q contradicts repository states" [path])
        else Ok mentioned
      else if bool_decide (gc_Kind change = "deleted") then
        if negb hadBefore || hasAfter || negb noFrom
        then Err (errorf "deleted change %q contradicts repository states" [path])
        else Ok mentioned
      else if bool_decide (gc_Kind change = "renamed") then
        match gc_FromPath change with
        | None => Err (errorf "renamed change %q lacks its source path" [path])
        | Some from =>
            match NormalizeRepositoryPath from with
            | Err e => Err (Errorf (Lit "rename source path: %w") e)
            | Ok _ =>
                if bool_decide (from ∈ mentioned)
                then Err (errorf "change set repeats path %q" [from])
                else if hadBefore || negb hasAfter || negb (has baseline from) ||
                        has target from || bool_decide (from = path)
                then Err (errorf "renamed change %q contradicts repository states" [path])
                else Ok ({[from]} ∪ mentioned)
            end
        end
      else Err (errorf "change set carries unsupported kind %q" [gc_Kind change])
  end.

Definition checkChanges (baseline : gmap string FileCard) (target : gmap string SourceDocument)
    : gset string → list GitChange → result (gset string) := loop (checkChange baseline target).

Definition changedPath (baseline : gmap string FileCard) (target : gmap string SourceDocument)
    (path : string) : bool :=
  match baseline !! path, target !! path with
  | Some before, Some after => negb (bool_decide (f_SourceHash before = doc_SourceHash after))
  | None, None => false
  | _, _ => true
  end.

(** Go visits the paths in no fixed order; the error names one that is omitted,
    here the first in the order of [elements]. *)
Definition validateChangeSetCoverage (baseline : gmap string FileCard)
    (target : gmap string SourceDocument) (changes : GitChangeSet) : result unit :=
  mentioned ← checkChanges baseline target ∅ (gs_Changes changes);
  let paths := elements (dom baseline ∪ dom target) in
  match filter (λ path, changedPath baseline target path = true ∧ path ∉ mentioned) paths with
  | path :: _ => Err (errorf "change set omits changed path %q" [path])
  | [] => Ok tt
  end.

(** ** Dependencies *)

(** The source and target paths of a relation that propagates. *)
Definition dependency (files : gmap string FileCard) (symbols : gmap string string)
    (relation : RelationEvidence) : option (string * string) :=
  match re_TargetEntityID relation with
  | Some targetID =>
      if bool_decide (re_Resolution relation = "resolved") &&
         propagatesInvalidation (re_Kind relation)
      then
        let targetFileID := default targetID (symbols !! targetID) in
        match files !! re_SourceFileID relation, files !! targetFileID with
        | Some source, Some target =>
            if bool_decide (f_Path source = f_Path target) then None
            else Some (f_Path source, f_Path target)
        | _, _ => None
        end
      else None
  | None => None
  end.

Fixpoint collectDependencies (files : gmap string FileCard) (symbols : gmap string string)
    (relations : list RelationEvidence) (result : gmap string (list string))
    : gmap string (list string) :=
  match relations with
  | [] => result
  | relation :: rest =>
      collectDependencies files symbols rest
        match dependency files symbols relation with
        | Some (source, target) =>
            <[target := appendUnique (default [] (result !! target)) source]> result
        | None => result
        end
  end.

Definition reverseFileDependencies (bundle : IndexBundle) (files : gmap string FileCard)
    (symbols : gmap string string) : gmap string (list string) :=
  merge_sort String.le <$> collectDependencies files symbols (b_Relations bundle) ∅.

(** ** Reasons *)

Definition fullReasons (reason : string) (baseline : gmap string FileCard)
    (target : gmap string SourceDocument) : gmap string string :=
  set_to_map (λ path, (path, reason)) (dom baseline ∪ dom target).

Definition changeReasons (reasons : gmap string string) (change : GitChange)
    : gmap string string :=
  let reason := if bool_decide (gc_Kind change = "deleted") then "deleted" else "source_changed" in
  let reasons := <[gc_Path change := reason]> reasons in
  match gc_FromPath change with
  | Some from => <[from := "deleted"]> reasons
  | None => reasons
  end.

Definition structural (change : GitChange) : bool :=
  bool_decide (gc_Kind change ∈ ["added"; "deleted"; "renamed"]).

Definition unresolvedReasons (files : gmap string FileCard) (reasons : gmap string string)
    (relation : RelationEvidence) : gmap string string :=
  if bool_decide (re_Resolution relation = "unresolved") then
    match files !! re_SourceFileID relation with
    | Some file => setReason reasons (f_Path file) "dependency_changed"
    | None => reasons
    end
  else reasons.

(** The reasons before propagation. *)
Definition seedReasons (baseline : IndexBundle) (files : gmap string FileCard)
    (changes : GitChangeSet) : gmap string string :=
  let reasons := foldl changeReasons ∅ (gs_Changes changes) in
  if existsb structural (gs_Changes changes)
  then foldl (unresolvedReasons files) reasons (b_Relations baseline)
  else reasons.

(** The inner loop over the dependents of one path. *)
Fixpoint visit (dependents : list string) (reasons : gmap string string) (queue : list string)
    : gmap string string * list string :=
  match dependents with
  | [] => (reasons, queue)
  | dependent :: rest =>
      match reasons !! dependent with
      | Some _ => visit rest reasons queue
      | None => visit rest (<[dependent := "dependency_changed"]> reasons) (queue ++ [dependent])
      end
  end.

(** The work list; [queue] is what follows the current index. [None]: out of fuel. *)
Fixpoint propagate (fuel : nat) (reverse : gmap string (list string))
    (reasons : gmap string string) (queue : list string) : option (gmap string string) :=
  match queue, fuel with
  | [], _ => Some reasons
  | _ :: _, O => None
  | path :: rest, S fuel' =>
      let '(reasons', queue') := visit (default [] (reverse !! path)) reasons rest in
      propagate fuel' reverse reasons' (merge_sort String.le queue')
  end.

(** Every path enters the queue at most once. *)
Definition propagation_fuel (reverse : gmap string (list string)) (reasons : gmap string string)
    : nat := size reasons + length (mjoin (map_to_list reverse).*2).

(** ** The plan *)

Definition reuse_le (a b : ReuseCandidate) : Prop := String.le (rc_Path a) (rc_Path b).
#[export] Instance reuse_le_dec : RelDecision reuse_le.
Proof. unfold reuse_le. intros a b. apply _. Defined.

Definition reusableFiles (baseline : gmap string FileCard) (target : gmap string SourceDocument)
    (reasons : gmap string string) : list ReuseCandidate :=
  merge_sort reuse_le (omap (λ '(path, document),
    match baseline !! path with
    | None => None
    | Some base =>
        if negb (bool_decide (default "" (reasons !! path) = "")) ||
           negb (bool_decide (f_SourceHash base = doc_SourceHash document))
        then None
        else Some (mkReuse path (f_LineageID base) (f_FileID base) (f_SourceHash base))
    end) (map_to_list target)).

Definition invalidation_le (a b : EntityInvalidation) : Prop :=
  if bool_decide (ei_EntityID a = ei_EntityID b) then String.le (ei_Reason a) (ei_Reason b)
  else String.le (ei_EntityID a) (ei_EntityID b).
#[export] Instance invalidation_le_dec : RelDecision invalidation_le.
Proof. unfold invalidation_le. intros a b. case_match; apply _. Defined.

Definition invalidationsOf (bundle : IndexBundle) (file : FileCard) (reason : string)
    : list EntityInvalidation :=
  mkInvalidation (f_FileID file) (f_LineageID file) reason (f_SourceHash file) ::
  ((λ symbol, mkInvalidation (y_SymbolID symbol) (y_LineageID symbol) reason "") <$>
     filter (λ symbol, y_FileID symbol = f_FileID file) (b_Symbols bundle)) ++
  ((λ relation, mkInvalidation (re_RelationID relation) "" reason "") <$>
     filter (λ relation, re_SourceFileID relation = f_FileID file) (b_Relations bundle)).

Definition invalidations (bundle : IndexBundle) (baseline : gmap string FileCard)
    (reasons : gmap string string) : list EntityInvalidation :=
  merge_sort invalidation_le (mjoin ((λ path,
    match baseline !! path with
    | None => []
    | Some file => invalidationsOf bundle file (default "" (reasons !! path))
    end) <$> sortedKeys reasons)).

Definition planReasons (baseline : IndexBundle) (target : RepositorySnapshot)
    (files paths : gmap string FileCard) (documents : gmap string SourceDocument)
    (changes : GitChangeSet) : bool * option (gmap string string) :=
  let before := b_Snapshot baseline in
  let sameConfiguration := bool_decide (sn_ConfigurationHash before = sn_ConfigurationHash target) in
  let full := negb sameConfiguration ||
              negb (bool_decide (sn_AdapterSetHash before = sn_AdapterSetHash target)) in
  (full,
   if full then
     Some (fullReasons (if sameConfiguration then "adapter_changed" else "configuration_changed")
             paths documents)
   else
     let reverse := reverseFileDependencies baseline files (symbolFiles (b_Symbols baseline)) in
     let seeds := seedReasons baseline files changes in
     propagate (propagation_fuel reverse seeds) reverse seeds (sortedKeys seeds)).

(** [PlanInvalidation] after the validation of the bundle and the snapshot. *)
Definition planValidated (baseline : IndexBundle) (target : RepositorySnapshot)
    (targetDocuments : list SourceDocument) (changes : GitChangeSet)
    : option (result InvalidationPlan) :=
  let before := b_Snapshot baseline in
  if negb (bool_decide (sn_RepositoryID before = sn_RepositoryID target)) ||
     negb (bool_decide (sn_TenantID before = sn_TenantID target)) ||
     negb (bool_decide (sn_SourceCommit before = gs_BaseCommit changes)) ||
     negb (bool_decide (sn_SourceCommit target = gs_TargetCommit changes))
  then Some (Err (errorf "change set does not bind the supplied snapshots" []))
  else
    let files := filesByID (b_Files baseline) in
    let paths := filesByPath (b_Files baseline) in
    match documentsByPath targetDocuments ∅ with
    | Err e => Some (Err e)
    | Ok documents =>
        match validateChangeSetCoverage paths documents changes with
        | Err e => Some (Err e)
        | Ok _ =>
            let '(full, found) := planReasons baseline target files paths documents changes in
            reasons ← found;
            Some (Ok (mkPlan full (sortedKeys reasons) (reusableFiles paths documents reasons)
                        (invalidations baseline paths reasons)))
        end
    end.

Definition PlanInvalidation `{Sha256, AdapterJson} (baseline : IndexBundle)
    (target : RepositorySnapshot) (targetDocuments : list SourceDocument) (changes : GitChangeSet)
    : option (result InvalidationPlan) :=
  match ValidateBundle baseline with
  | Err e => Some (Err (Errorf (Lit "baseline: %w") e))
  | Ok _ =>
      match ValidateRepositorySnapshot target with
      | Err e => Some (Err (Errorf (Lit "target: %w") e))
      | Ok _ => planValidated baseline target targetDocuments changes
      end
  end.

(** ** Propagation *)

Section propagation.
Context (reverse : gmap string (list string)).

(** [b] depends on [a]. *)
Definition dependent (a b : string) : Prop := b ∈ default [] (reverse !! a).

Lemma elem_of_sortedKeys {A} (m : gmap string A) k : k ∈ sortedKeys m ↔ is_Some (m !! k).
Proof.
  unfold sortedKeys. rewrite merge_sort_Permutation, list_elem_of_fmap. split.
  - intros ([k' v] & -> & Hin). apply elem_of_map_to_list in Hin. by exists v.
  - intros [v Hv]. exists (k, v). by rewrite elem_of_map_to_list.
Qed.

Lemma length_sortedKeys {A} (m : gmap string A) : length (sortedKeys m) = size m.
Proof.
  unfold sortedKeys. rewrite (Permutation_length (merge_sort_Permutation _ _)), length_fmap.
  apply length_map_to_list.
Qed.

(** [visit] adds the new dependents to both the reasons and the queue. *)
Lemma visit_spec ds : ∀ reasons queue reasons' queue',
  visit ds reasons queue = (reasons', queue') →
  reasons ⊆ reasons' ∧
  (∀ k, is_Some (reasons' !! k) ↔ is_Some (reasons !! k) ∨ k ∈ ds) ∧
  (∀ k, k ∈ queue' ↔ k ∈ queue ∨ (k ∈ ds ∧ reasons !! k = None)) ∧
  (∀ D : gset string, list_to_set ds ⊆ D →
     length queue' + size (D ∖ dom reasons') = length queue + size (D ∖ dom reasons)).
Proof.
  induction ds as [|d ds IH]; intros reasons queue reasons' queue'; cbn [visit].
  - intros [= <- <-]. split_and!; [done|set_solver|set_solver|done].
  - destruct (reasons !! d) as [v|] eqn:Hd; intros Hrun; apply IH in Hrun as (Hsub & Hdom & Hq & Hm).
    + split_and!; [done| | |].
      * intros k. rewrite Hdom, elem_of_cons. split; [tauto|]. intros [?|[->|?]]; eauto.
      * intros k. rewrite Hq, elem_of_cons. split; [tauto|]. intros [?|[[->|?] ?]]; [auto|congruence|auto].
      * intros D HD. apply Hm. set_solver.
    + split_and!.
      * etrans; [|exact Hsub]. by apply insert_subseteq.
      * intros k. rewrite Hdom, elem_of_cons, lookup_insert_is_Some'. naive_solver.
      * intros k. rewrite Hq, elem_of_app, list_elem_of_singleton, elem_of_cons.
        destruct (decide (k = d)) as [->|Hne]; [naive_solver|]. rewrite lookup_insert_ne by done. tauto.
      * intros D HD. rewrite Hm by set_solver. rewrite length_app, dom_insert_L. cbn.
        assert (size (D ∖ dom reasons) = S (size (D ∖ ({[d]} ∪ dom reasons)))) as ->; [|lia].
        assert (D ∖ dom reasons = {[d]} ∪ (D ∖ ({[d]} ∪ dom reasons))) as ->.
        { apply set_eq. intros x. destruct (decide (x = d)) as [->|]; [|set_solver].
          assert (d ∉ dom reasons) by (by apply not_elem_of_dom). set_solver. }
        rewrite size_union by set_solver. by rewrite size_singleton.
Qed.

Lemma sort_length l : length (merge_sort String.le l) = length l.
Proof. apply Permutation_length, merge_sort_Permutation. Qed.

Lemma propagate_total (D : gset string) fuel : ∀ reasons queue,
  (∀ a b, dependent a b → b ∈ D) →
  length queue + size (D ∖ dom reasons) ≤ fuel →
  is_Some (propagate fuel reverse reasons queue).
Proof.
  induction fuel as [|fuel IH]; intros reasons [|p rest] HD Hle; cbn [propagate] in *; try by eauto.
  - cbn in Hle. lia.
  - destruct (visit _ reasons rest) as [reasons' queue'] eqn:Hv.
    apply visit_spec in Hv as (_ & _ & _ & Hm). apply IH; [done|]. rewrite sort_length.
    specialize (Hm D). cbn in Hle. rewrite Hm; [lia|]. intros x. rewrite elem_of_list_to_set.
    intros Hx. by apply (HD p).
Qed.

Lemma propagate_closed fuel : ∀ reasons queue final,
  (∀ k, k ∈ queue → is_Some (reasons !! k)) →
  (∀ a b, is_Some (reasons !! a) → a ∉ queue → dependent a b → is_Some (reasons !! b)) →
  propagate fuel reverse reasons queue = Some final →
  reasons ⊆ final ∧
  (∀ a b, is_Some (final !! a) → dependent a b → is_Some (final !! b)) ∧
  (∀ b, is_Some (final !! b) → ∃ a, is_Some (reasons !! a) ∧ rtc dependent a b).
Proof.
  induction fuel as [|fuel IH]; intros reasons [|p rest] final Hq Hcl; cbn [propagate]; try done.
  - intros [= <-]. split_and!; [done| |].
    + intros a b Ha. apply Hcl; [done|apply not_elem_of_nil].
    + intros b Hb. by exists b.
  - intros [= <-]. split_and!; [done| |].
    + intros a b Ha. apply Hcl; [done|apply not_elem_of_nil].
    + intros b Hb. by exists b.
  - destruct (visit _ reasons rest) as [reasons' queue'] eqn:Hv.
    apply visit_spec in Hv as (Hsub & Hdom & Hqs & _). intros Hrun.
    apply IH in Hrun as (Hsub' & Hcl' & Hreach).
    + split_and!; [by etrans|done|]. intros b Hb. destruct (Hreach b Hb) as (a & Ha & Hab).
      apply Hdom in Ha as [Ha|Ha]; [by exists a|].
      exists p. split; [apply Hq; by left|]. by eapply rtc_l.
    + intros k. rewrite merge_sort_Permutation, Hqs, Hdom. intros [Hk|[Hk _]]; [|by right].
      left. apply Hq. by right.
    + intros a b Ha Hna Hab. rewrite merge_sort_Permutation, Hqs in Hna. apply Hdom.
      destruct (decide (a = p)) as [->|Hne]; [by right|]. left.
      apply Hdom in Ha as [Ha|Ha].
      * apply (Hcl a b); [done| |done]. rewrite elem_of_cons. tauto.
      * destruct (reasons !! a) as [v|] eqn:Hra; [|tauto].
        apply (Hcl a b); [done| |done]. rewrite elem_of_cons. tauto.
Qed.

Lemma list_to_set_size (l : list string) : size (list_to_set l : gset string) ≤ length l.
Proof.
  induction l as [|x l IH]; [by rewrite list_to_set_nil, size_empty|].
  rewrite list_to_set_cons, size_union_alt, size_singleton. cbn.
  assert (size ((list_to_set l : gset string) ∖ {[x]}) ≤ size (list_to_set l : gset string))
    by (apply subseteq_size; set_solver). lia.
Qed.

(** Every reason on record is a non-empty text. *)
Definition spelled (reasons : gmap string string) : Prop := map_Forall (λ _ reason, reason ≠ "") reasons.

Lemma spelled_insert reasons path reason :
  spelled reasons → reason ≠ "" → spelled (<[path := reason]> reasons).
Proof. intros Hs Hr. by apply map_Forall_insert_2. Qed.

Lemma visit_spelled ds : ∀ reasons queue,
  spelled reasons → spelled (visit ds reasons queue).1.
Proof.
  induction ds as [|d ds IH]; intros reasons queue Hs; cbn [visit]; [done|].
  destruct (reasons !! d); apply IH; [done|]. by apply spelled_insert.
Qed.

Lemma propagate_spelled fuel : ∀ reasons queue final,
  spelled reasons → propagate fuel reverse reasons queue = Some final → spelled final.
Proof.
  induction fuel as [|fuel IH]; intros reasons [|p rest] final Hs; cbn [propagate]; try done.
  - by intros [= <-].
  - by intros [= <-].
  - destruct (visit _ reasons rest) as [reasons' queue'] eqn:Hv. apply IH.
    change reasons' with (reasons', queue').1. rewrite <-Hv. by apply visit_spelled.
Qed.

(** From the seeds: exactly what depends on them, directly or not. *)
Lemma propagate_seeds seeds :
  ∃ final, propagate (propagation_fuel reverse seeds) reverse seeds (sortedKeys seeds) = Some final ∧
    seeds ⊆ final ∧
    ∀ b, is_Some (final !! b) ↔ ∃ a, is_Some (seeds !! a) ∧ rtc dependent a b.
Proof.
  set (D := list_to_set (mjoin (map_to_list reverse).*2) : gset string).
  assert (∀ a b, dependent a b → b ∈ D) as HD.
  { intros a b Hab. unfold dependent in Hab. destruct (reverse !! a) as [l|] eqn:Hl; cbn in Hab;
      [|by apply elem_of_nil in Hab].
    unfold D. rewrite elem_of_list_to_set, list_elem_of_join. exists l. split; [done|].
    apply list_elem_of_fmap. exists (a, l). by rewrite elem_of_map_to_list. }
  destruct (propagate_total D (propagation_fuel reverse seeds) seeds (sortedKeys seeds) HD)
    as [final Hf].
  { rewrite length_sortedKeys. unfold propagation_fuel.
    assert (size (D ∖ dom seeds) ≤ size D) by (apply subseteq_size; set_solver).
    assert (size D ≤ length (mjoin (map_to_list reverse).*2)) by apply list_to_set_size. lia. }
  exists final. split; [done|].
  apply propagate_closed in Hf as (Hsub & Hcl & Hreach).
  - split; [done|]. intros b. split; [apply Hreach|]. intros (a & Ha & Hab).
    assert (is_Some (final !! a)) as Hfa.
    { destruct Ha as [v Hv]. exists v. by eapply lookup_weaken. }
    clear Ha. induction Hab; eauto.
  - intros k. by rewrite elem_of_sortedKeys.
  - intros a b Ha Hna. by rewrite elem_of_sortedKeys in Hna.
Qed.
End propagation.

(** ** The indexes of a bundle *)

Lemma foldl_insert_lookup {A B} (key : A → string) (val : A → B) (l : list A) :
  ∀ (m : gmap string B) k v,
  foldl (λ m a, <[key a := val a]> m) m l !! k = Some v →
  m !! k = Some v ∨ ∃ a, a ∈ l ∧ key a = k ∧ val a = v.
Proof.
  induction l as [|a l IH]; intros m k v; cbn [foldl]; [by left|].
  intros [Hm|(b & Hb & Hk & Hv)]%IH.
  - apply lookup_insert_Some in Hm as [[? ?]|[? ?]]; [right|by left].
    exists a. split; [by left|done].
  - right. exists b. split; [by right|done].
Qed.

Lemma foldl_insert_is_Some {A B} (key : A → string) (val : A → B) (l : list A) :
  ∀ (m : gmap string B) k,
  is_Some (foldl (λ m a, <[key a := val a]> m) m l !! k) ↔
  is_Some (m !! k) ∨ ∃ a, a ∈ l ∧ key a = k.
Proof.
  induction l as [|a l IH]; intros m k; cbn [foldl].
  - rewrite exists_in_nil. tauto.
  - rewrite IH, lookup_insert_is_Some', exists_in_cons. tauto.
Qed.

Lemma filesByPath_spec files p f :
  filesByPath files !! p = Some f → f ∈ files ∧ f_Path f = p.
Proof.
  intros [Hm|(a & Ha & Hk & <-)]%(foldl_insert_lookup f_Path id); [|done].
  by rewrite lookup_empty in Hm.
Qed.

Lemma filesByPath_is_Some files p :
  is_Some (filesByPath files !! p) ↔ ∃ f, f ∈ files ∧ f_Path f = p.
Proof.
  unfold filesByPath. rewrite (foldl_insert_is_Some f_Path id), lookup_empty.
  split; [|by right]. by intros [[? [=]]|?].
Qed.

Lemma documentsByPath_lookup documents : ∀ m m',
  documentsByPath documents m = Ok m' →
  ∀ p d, m' !! p = Some d ↔ m !! p = Some d ∨ (d ∈ documents ∧ doc_Path d = p).
Proof.
  induction documents as [|a documents IH]; intros m m'; cbn [documentsByPath].
  - intros [= <-] p d. rewrite elem_of_nil. tauto.
  - destruct (NormalizeRepositoryPath _); [|done].
    destruct (m !! doc_Path a) eqn:Ha; [done|]. intros Hrun p d.
    rewrite (IH _ _ Hrun), lookup_insert_Some, elem_of_cons. split.
    + intros [[[? ->]|[? ?]]|[? ?]]; tauto.
    + intros [Hm|[[->|?] Hp]]; [left; right|tauto|tauto]. split; [|done]. intros <-. congruence.
Qed.

(** ** Change sets *)

(** A change names the path, or renames it away. *)
Definition touches (change : GitChange) (path : string) : Prop :=
  gc_Path change = path ∨ gc_FromPath change = Some path.

Lemma checkChange_mentions baseline target mentioned change mentioned' :
  checkChange baseline target mentioned change = Ok mentioned' →
  ∀ p, p ∈ mentioned' ↔ p ∈ mentioned ∨ touches change p.
Proof.
  unfold checkChange, touches. intros Hrun p.
  destruct (NormalizeRepositoryPath (gc_Path change)); [|done].
  repeat (case_bool_decide; [try done|try done]);
    repeat match goal with
    | H : context [if ?b then _ else _] |- _ => destruct b eqn:?; [try done|try done]
    | H : context [match gc_FromPath change with _ => _ end] |- _ =>
        destruct (gc_FromPath change) eqn:?; [|done]
    | H : context [match NormalizeRepositoryPath ?x with _ => _ end] |- _ =>
        destruct (NormalizeRepositoryPath x); [|done]
    end; try done; bool_prop; simplify_eq; set_solver.
Qed.

Lemma checkChanges_mentions baseline target changes : ∀ mentioned mentioned',
  checkChanges baseline target mentioned changes = Ok mentioned' →
  ∀ p, p ∈ mentioned' ↔ p ∈ mentioned ∨ ∃ change, change ∈ changes ∧ touches change p.
Proof.
  intros mentioned mentioned' Hrun.
  exact (loop_collects (checkChange baseline target) (λ m p, p ∈ m) touches
           (checkChange_mentions baseline target) _ _ _ Hrun).
Qed.

(** A path no accepted change names has not changed. *)
Lemma coverage_sound baseline target changes p :
  validateChangeSetCoverage baseline target changes = Ok tt →
  (∀ change, change ∈ gs_Changes changes → ¬ touches change p) →
  changedPath baseline target p = false.
Proof.
  unfold validateChangeSetCoverage. intros (mentioned & Hrun & Hend)%res_bind_ok Hno.
  apply not_true_iff_false. intros Hch.
  destruct (filter _ _) as [|q l] eqn:Hf; [|done].
  assert (p ∈ filter (λ path, changedPath baseline target path = true ∧ path ∉ mentioned)
            (elements (dom baseline ∪ dom target))) as Hin.
  - apply list_elem_of_filter. split_and!; [done| |].
    + rewrite (checkChanges_mentions _ _ _ _ _ Hrun). intros [Hp|(c & Hc & Ht)]; [set_solver|].
      by apply (Hno c).
    + rewrite elem_of_elements, elem_of_union, !elem_of_dom. unfold changedPath in Hch.
      destruct (baseline !! p); [left; by eexists|]. destruct (target !! p); [right; by eexists|done].
  - rewrite Hf in Hin. by apply elem_of_nil in Hin.
Qed.

(** ** The seeds of an incremental plan *)

(** A path is reindexed for its own sake: a change touches it, or files came or
    went and it has a reference nothing resolved. *)
Definition dangling (files : gmap string FileCard) (path : string) (relation : RelationEvidence)
    : Prop :=
  re_Resolution relation = "unresolved" ∧
  ∃ file, files !! re_SourceFileID relation = Some file ∧ f_Path file = path.
Definition seeded (baseline : IndexBundle) (changes : GitChangeSet) (path : string) : Prop :=
  (∃ change, change ∈ gs_Changes changes ∧ touches change path) ∨
  ((∃ change, change ∈ gs_Changes changes ∧ structural change = true) ∧
   ∃ relation, relation ∈ b_Relations baseline ∧
     dangling (filesByID (b_Files baseline)) path relation).

Lemma changeReasons_domain changes : ∀ reasons p,
  is_Some (foldl changeReasons reasons changes !! p) ↔
  is_Some (reasons !! p) ∨ ∃ change, change ∈ changes ∧ touches change p.
Proof.
  induction changes as [|c changes IH]; intros reasons p; cbn [foldl].
  - rewrite exists_in_nil. tauto.
  - rewrite IH, exists_in_cons.
    assert (is_Some (changeReasons reasons c !! p) ↔ is_Some (reasons !! p) ∨ touches c p) as ->.
    { unfold changeReasons, touches. destruct (gc_FromPath c) as [from|];
        rewrite !lookup_insert_is_Some'; naive_solver. }
    tauto.
Qed.

Lemma changeReasons_spelled changes : ∀ reasons,
  spelled reasons → spelled (foldl changeReasons reasons changes).
Proof.
  induction changes as [|c changes IH]; intros reasons Hs; cbn [foldl]; [done|]. apply IH.
  unfold changeReasons. destruct (gc_FromPath c).
  - apply spelled_insert; [|done]. apply spelled_insert; [done|]. by case_bool_decide.
  - apply spelled_insert; [done|]. by case_bool_decide.
Qed.

Lemma unresolvedReasons_domain files relations : ∀ reasons p,
  is_Some (foldl (unresolvedReasons files) reasons relations !! p) ↔
  is_Some (reasons !! p) ∨ ∃ relation, relation ∈ relations ∧ dangling files p relation.
Proof.
  induction relations as [|r relations IH]; intros reasons p; cbn [foldl].
  - rewrite exists_in_nil. tauto.
  - rewrite IH, exists_in_cons.
    assert (is_Some (unresolvedReasons files reasons r !! p) ↔
            is_Some (reasons !! p) ∨ dangling files p r) as ->; [|tauto].
    unfold unresolvedReasons, setReason, dangling. case_bool_decide; [|naive_solver].
    destruct (files !! re_SourceFileID r) as [f|] eqn:Hf; [|naive_solver].
    destruct (reasons !! f_Path f) eqn:Hp; [naive_solver|].
    rewrite lookup_insert_is_Some'. naive_solver.
Qed.

Lemma unresolvedReasons_spelled files relations : ∀ reasons,
  spelled reasons → spelled (foldl (unresolvedReasons files) reasons relations).
Proof.
  induction relations as [|r relations IH]; intros reasons Hs; cbn [foldl]; [done|]. apply IH.
  unfold unresolvedReasons, setReason. case_bool_decide; [|done].
  destruct (files !! re_SourceFileID r); [|done]. case_match; [done|]. by apply spelled_insert.
Qed.

Lemma seedReasons_domain baseline changes p :
  is_Some (seedReasons baseline (filesByID (b_Files baseline)) changes !! p) ↔
  seeded baseline changes p.
Proof.
  unfold seedReasons, seeded.
  destruct (existsb structural (gs_Changes changes)) eqn:Hs.
  - rewrite unresolvedReasons_domain, changeReasons_domain, lookup_empty.
    apply existsb_exists in Hs as (c & Hc & Hs). apply list_elem_of_In in Hc. split.
    + intros [[[? [=]]|?]|?]; [by left|]. right. split; [by exists c|done].
    + intros [?|[_ ?]]; [left; by right|by right].
  - rewrite changeReasons_domain, lookup_empty. split.
    + intros [[? [=]]|?]. by left.
    + intros [?|[(c & Hc & Ht) _]]; [by right|].
      apply not_true_iff_false in Hs. destruct Hs. apply existsb_exists. exists c.
      split; [by apply list_elem_of_In|done].
Qed.

Lemma seedReasons_spelled baseline files changes : spelled (seedReasons baseline files changes).
Proof.
  assert (spelled (foldl changeReasons ∅ (gs_Changes changes))) as Hc
    by (apply changeReasons_spelled, map_Forall_empty).
  unfold seedReasons. case_match; [|done]. by apply unresolvedReasons_spelled.
Qed.

(** ** The dependency graph *)

(** The pairs of paths the code collects. *)
Definition code_depends (baseline : IndexBundle) (source target : string) : Prop :=
  ∃ relation, relation ∈ b_Relations baseline ∧
    dependency (filesByID (b_Files baseline)) (symbolFiles (b_Symbols baseline)) relation =
      Some (source, target).

Lemma collectDependencies_spec files symbols relations : ∀ result p q,
  q ∈ default [] (collectDependencies files symbols relations result !! p) ↔
  q ∈ default [] (result !! p) ∨
  ∃ relation, relation ∈ relations ∧ dependency files symbols relation = Some (q, p).
Proof.
  induction relations as [|r relations IH]; intros result p q; cbn [collectDependencies].
  - rewrite exists_in_nil. tauto.
  - rewrite IH, exists_in_cons.
    match goal with |- ?L ∨ _ ↔ _ =>
      assert (L ↔ q ∈ default [] (result !! p) ∨ dependency files symbols r = Some (q, p)) as -> end.
    { destruct (dependency files symbols r) as [[s t]|]; [|naive_solver].
      destruct (decide (t = p)) as [->|Hne].
      - rewrite lookup_insert_eq. cbn. unfold appendUnique. case_bool_decide; [naive_solver|].
        rewrite elem_of_app, list_elem_of_singleton. naive_solver.
      - rewrite lookup_insert_ne by done. naive_solver. }
    tauto.
Qed.

Lemma reverse_spec baseline p q :
  dependent (reverseFileDependencies baseline (filesByID (b_Files baseline))
               (symbolFiles (b_Symbols baseline))) p q ↔ code_depends baseline q p.
Proof.
  unfold dependent, reverseFileDependencies, code_depends. rewrite lookup_fmap.
  match goal with |- context [collectDependencies ?a ?b ?c ?d !! p] =>
    pose proof (collectDependencies_spec a b c d p q) as Hspec;
    destruct (collectDependencies a b c d !! p) as [l|] end; cbn [fmap option_fmap option_map default] in *;
    rewrite lookup_empty in Hspec; cbn [default] in Hspec.
  - unfold id. rewrite merge_sort_Permutation. cbn in Hspec. rewrite Hspec, elem_of_nil. tauto.
  - cbn in *. rewrite Hspec, elem_of_nil. tauto.
Qed.

(** The file an entity of a bundle lives in: the file that declares it as a symbol, or
    the file it is itself. *)
Definition lives_in (baseline : IndexBundle) (id : string) (file : FileCard) : Prop :=
  file ∈ b_Files baseline ∧
  ((∃ y, y ∈ b_Symbols baseline ∧ y_SymbolID y = id ∧ y_FileID y = f_FileID file) ∨
   (id ∉ y_SymbolID <$> b_Symbols baseline) ∧ id = f_FileID file).

(** [source] depends on [target]: a resolved relation of one of the dependency kinds,
    read from the file at [source], names an entity that lives in the other file at
    [target]. *)
Definition depends_on (baseline : IndexBundle) (source target : string) : Prop :=
  ∃ relation id from to, relation ∈ b_Relations baseline ∧
    re_Resolution relation = "resolved" ∧
    re_Kind relation ∈ ["imports"; "references"; "calls"; "implements"; "extends"; "tests"; "routes_to"; "validates";
                        "uses_schema"] ∧
    re_TargetEntityID relation = Some id ∧
    from ∈ b_Files baseline ∧ f_FileID from = re_SourceFileID relation ∧ f_Path from = source ∧
    lives_in baseline id to ∧ f_Path to = target ∧ source ≠ target.

Lemma filesByID_spec files id f :
  NoDup (f_FileID <$> files) → filesByID files !! id = Some f ↔ f ∈ files ∧ f_FileID f = id.
Proof.
  intros Hn. split.
  - intros [Hm|(a & Ha & Hk & <-)]%(foldl_insert_lookup f_FileID (λ x, x)); [|done]. by rewrite lookup_empty in Hm.
  - intros [Hin <-]. destruct (proj2 (foldl_insert_is_Some f_FileID (λ x, x) files ∅ (f_FileID f))) as [g Hg]; [by eauto|].
    assert (g = f) as ->; [|exact Hg]. apply (foldl_insert_lookup f_FileID (λ x, x)) in Hg as [Hg|(a & Ha & Hk & <-)];
      [by rewrite lookup_empty in Hg|]. by apply (NoDup_key_inj f_FileID files).
Qed.

Lemma symbolFiles_spec symbols id file :
  NoDup (y_SymbolID <$> symbols) →
  symbolFiles symbols !! id = Some file ↔ ∃ y, y ∈ symbols ∧ y_SymbolID y = id ∧ y_FileID y = file.
Proof.
  intros Hn. split.
  - intros [Hm|?]%(foldl_insert_lookup y_SymbolID y_FileID); [|done]. by rewrite lookup_empty in Hm.
  - intros (y & Hin & <- & <-).
    destruct (proj2 (foldl_insert_is_Some y_SymbolID y_FileID symbols ∅ (y_SymbolID y))) as [g Hg]; [by eauto|].
    assert (g = y_FileID y) as ->; [|exact Hg]. apply (foldl_insert_lookup y_SymbolID y_FileID) in Hg as [Hg|(a & Ha & Hk & <-)];
      [by rewrite lookup_empty in Hg|]. f_equal. by apply (NoDup_key_inj y_SymbolID symbols).
Qed.

(** ** What a plan says *)

Section plans.
Context `{Sha256, AdapterJson}.

Lemma lives_in_spec baseline id file :
  bundle_closed baseline →
  filesByID (b_Files baseline) !! default id (symbolFiles (b_Symbols baseline) !! id) = Some file ↔
  lives_in baseline id file.
Proof.
  intros Hb. rewrite filesByID_spec by apply (bc_file_ids _ Hb). unfold lives_in.
  pose proof (λ f, symbolFiles_spec (b_Symbols baseline) id f (bc_symbol_ids _ Hb)) as Hs.
  destruct (symbolFiles (b_Symbols baseline) !! id) as [home|] eqn:Hid; simpl.
  - destruct (proj1 (Hs home) eq_refl) as (y & Hy & Hyid & Hyf). split.
    + intros [? Hf]. split; [done|]. left. exists y. split_and!; [done..|congruence].
    + intros [? [(y' & Hy' & Hyid' & Hf)|[Hno _]]]; split; try done.
      * assert (Some home = Some (f_FileID file)) as [= ->]; [|done]. apply Hs. eauto.
      * exfalso. apply Hno, list_elem_of_fmap. eauto.
  - split.
    + intros [? Hf]. split; [done|]. right. split; [|done]. intros (y & -> & Hy)%list_elem_of_fmap.
      assert (None = Some (y_FileID y)); [|done]. apply Hs. eauto.
    + intros [? [(y & Hy & Hyid & Hf)|[_ Hf]]]; split; try done.
      assert (None = Some (y_FileID y)); [|done]. apply Hs. eauto.
Qed.

Lemma code_depends_spec baseline source target :
  bundle_closed baseline → code_depends baseline source target ↔ depends_on baseline source target.
Proof.
  intros Hb. unfold code_depends, depends_on, dependency, propagatesInvalidation. split.
  - intros (r & Hr & Hd). destruct (re_TargetEntityID r) as [id|] eqn:Hid; [|done].
    destruct (_ && _) eqn:Hk; [|done]. rewrite andb_true_iff, !bool_decide_eq_true in Hk. destruct Hk as [Hres Hkind].
    destruct (filesByID _ !! re_SourceFileID r) as [from|] eqn:Hfrom; [|done].
    destruct (filesByID _ !! default id _) as [to|] eqn:Hto; [|done]. case_bool_decide as Hne; [done|].
    injection Hd as <- <-. apply filesByID_spec in Hfrom as [? ?]; [|apply (bc_file_ids _ Hb)].
    apply lives_in_spec in Hto; [|done]. exists r, id, from, to. by split_and!.
  - intros (r & id & from & to & Hr & Hres & Hkind & Hid & Hin & Hfrom & <- & Hto & <- & Hne). exists r.
    split; [done|]. rewrite Hid, Hres, !bool_decide_eq_true_2 by done. cbn [andb].
    rewrite (proj2 (filesByID_spec _ _ from (bc_file_ids _ Hb))) by done.
    rewrite (proj2 (lives_in_spec _ _ to Hb)) by done. by rewrite bool_decide_eq_false_2.
Qed.

(** An accepted plan, taken apart: the indexes it was computed from and the
    reasons it settled on. *)
Lemma plan_parts baseline target targetDocuments changes plan :
  PlanInvalidation baseline target targetDocuments changes = Some (Ok plan) →
  ∃ documents reasons,
    bundle_closed baseline ∧
    documentsByPath targetDocuments ∅ = Ok documents ∧
    validateChangeSetCoverage (filesByPath (b_Files baseline)) documents changes = Ok tt ∧
    planReasons baseline target (filesByID (b_Files baseline)) (filesByPath (b_Files baseline))
      documents changes = (ip_FullReindex plan, Some reasons) ∧
    plan = mkPlan (ip_FullReindex plan) (sortedKeys reasons)
             (reusableFiles (filesByPath (b_Files baseline)) documents reasons)
             (invalidations baseline (filesByPath (b_Files baseline)) reasons).
Proof.
  unfold PlanInvalidation. destruct (ValidateBundle baseline) as [[]|] eqn:Hb; [|done].
  destruct (ValidateRepositorySnapshot target); [|done].
  unfold planValidated. destruct (_ || _); [done|].
  destruct (documentsByPath targetDocuments ∅) as [documents|] eqn:Hd; [|done].
  destruct (validateChangeSetCoverage _ _ _) as [[]|] eqn:Hv; [|done].
  destruct (planReasons _ _ _ _ _ _) as [full [reasons|]] eqn:Hr; [|done].
  intros [= <-]. exists documents, reasons. by split; [apply ValidateBundle_closed|].
Qed.

Lemma fullReasons_lookup reason baseline target p :
  fullReasons reason baseline target !! p =
  if bool_decide (p ∈ dom baseline ∪ dom target) then Some reason else None.
Proof.
  unfold fullReasons. apply option_eq. intros r. rewrite lookup_set_to_map by done.
  case_bool_decide; naive_solver.
Qed.

(** The reasons of an incremental plan. *)
Lemma incremental_reasons baseline target files paths documents changes reasons :
  files = filesByID (b_Files baseline) →
  planReasons baseline target files paths documents changes = (false, Some reasons) →
  spelled reasons ∧
  ∀ p, is_Some (reasons !! p) ↔
       ∃ s, seeded baseline changes s ∧ rtc (flip (code_depends baseline)) s p.
Proof.
  intros ->. unfold planReasons. intros [= Hfull Hrun]. rewrite Hfull in Hrun. split.
  - eapply propagate_spelled; [|exact Hrun]. apply seedReasons_spelled.
  - match type of Hrun with propagate _ ?rev ?seeds _ = _ =>
      destruct (propagate_seeds rev seeds) as (final & Hfinal & _ & Hspec) end.
    rewrite Hfinal in Hrun. injection Hrun as ->. intros p. rewrite Hspec.
    setoid_rewrite seedReasons_domain.
    assert (∀ a b, rtc (dependent (reverseFileDependencies baseline
              (filesByID (b_Files baseline)) (symbolFiles (b_Symbols baseline)))) a b ↔
            rtc (flip (code_depends baseline)) a b) as Heq.
    { intros a b. split; apply rtc_subrel; intros x y; apply reverse_spec. }
    by setoid_rewrite Heq.
Qed.

Lemma reasons_spelled baseline target files paths documents changes full reasons :
  files = filesByID (b_Files baseline) →
  planReasons baseline target files paths documents changes = (full, Some reasons) →
  spelled reasons.
Proof.
  destruct full; intros Hf Hrun; [|by eapply incremental_reasons].
  unfold planReasons in Hrun. injection Hrun as Hfull Hrun. rewrite Hfull in Hrun.
  injection Hrun as <-. intros p r. rewrite fullReasons_lookup.
  repeat case_bool_decide; try done; by intros [= <-].
Qed.

Lemma elem_of_reusableFiles baseline target reasons c :
  spelled reasons →
  c ∈ reusableFiles baseline target reasons ↔
  ∃ base document,
    target !! rc_Path c = Some document ∧ baseline !! rc_Path c = Some base ∧
    reasons !! rc_Path c = None ∧ f_SourceHash base = doc_SourceHash document ∧
    c = mkReuse (rc_Path c) (f_LineageID base) (f_FileID base) (f_SourceHash base).
Proof.
  intros Hs. unfold reusableFiles. rewrite merge_sort_Permutation, list_elem_of_omap.
  setoid_rewrite elem_of_map_to_list'. split.
  - intros ([path document] & Ht & Hc). cbn in Ht.
    destruct (baseline !! path) as [base|] eqn:Hb; [|done].
    destruct (_ || _) eqn:Hg; [done|]. injection Hc as <-. cbn.
    apply orb_false_iff in Hg as [Hg1 Hg2]. apply negb_false_iff, bool_decide_eq_true in Hg1, Hg2.
    exists base, document. split_and!; try done.
    destruct (reasons !! path) as [r|] eqn:Hr; [|done]. cbn in Hg1. by apply Hs in Hr.
  - intros (base & document & Ht & Hb & Hr & Hh & Hc). exists (rc_Path c, document).
    split; [done|]. rewrite Hb, Hr, (bool_decide_eq_true_2 (f_SourceHash _ = _) Hh). cbn.
    f_equal. symmetry. exact Hc.
Qed.

(** The documents an accepted plan indexed. *)
Lemma documents_lookup targetDocuments documents p d :
  documentsByPath targetDocuments ∅ = Ok documents →
  documents !! p = Some d ↔ d ∈ targetDocuments ∧ doc_Path d = p.
Proof.
  intros Hd. rewrite (documentsByPath_lookup _ _ _ Hd), lookup_empty.
  split; [by intros [[=]|?]|by right].
Qed.

(** A path without a reason is the same file before and after. *)
Lemma unaffected_unchanged baseline target documents changes full reasons p :
  validateChangeSetCoverage (filesByPath (b_Files baseline)) documents changes = Ok tt →
  planReasons baseline target (filesByID (b_Files baseline)) (filesByPath (b_Files baseline))
    documents changes = (full, Some reasons) →
  reasons !! p = None →
  is_Some (filesByPath (b_Files baseline) !! p) ∨ is_Some (documents !! p) →
  ∃ base document, filesByPath (b_Files baseline) !! p = Some base ∧
    documents !! p = Some document ∧ f_SourceHash base = doc_SourceHash document ∧ full = false.
Proof.
  intros Hcov Hreasons Hp Hin. destruct full.
  - unfold planReasons in Hreasons. injection Hreasons as Hfull Hrun. rewrite Hfull in Hrun.
    injection Hrun as <-. rewrite fullReasons_lookup in Hp. case_bool_decide as Hd; [done|].
    rewrite elem_of_union, !elem_of_dom in Hd. tauto.
  - apply incremental_reasons in Hreasons as [_ Hspec]; [|done].
    assert (changedPath (filesByPath (b_Files baseline)) documents p = false) as Hsame.
    { eapply coverage_sound; [exact Hcov|]. intros c Hc Ht. rewrite eq_None_not_Some in Hp.
      apply Hp, Hspec. exists p. split; [left; by exists c|done]. }
    unfold changedPath in Hsame.
    destruct (filesByPath _ !! p) as [base|], (documents !! p) as [document|]; try done.
    + apply negb_false_iff, bool_decide_eq_true in Hsame. by exists base, document.
    + destruct Hin as [[? [=]]|[? [=]]].
Qed.

(** C39. Planning always ends: the work list never runs out of the fuel the
    model gives it, whatever the bundle, the documents and the changes. *)
Theorem plan_total baseline target targetDocuments changes :
  is_Some (PlanInvalidation baseline target targetDocuments changes).
Proof.
  unfold PlanInvalidation. destruct (ValidateBundle baseline); [|by eexists].
  destruct (ValidateRepositorySnapshot target); [|by eexists].
  unfold planValidated. destruct (_ || _); [by eexists|].
  destruct (documentsByPath _ _) as [documents|]; [|by eexists].
  destruct (validateChangeSetCoverage _ _ _); [|by eexists].
  unfold planReasons. case_match; [by eexists|].
  match goal with |- context [propagate _ ?rev ?seeds _] =>
    destruct (propagate_seeds rev seeds) as (final & -> & _) end.
  by eexists.
Qed.

Lemma code_depends_rtc baseline : bundle_closed baseline →
  ∀ a b, rtc (flip (code_depends baseline)) a b ↔ rtc (flip (depends_on baseline)) a b.
Proof. intros Hb a b. split; apply rtc_subrel; intros x y; by apply code_depends_spec. Qed.

(** The affected paths of an incremental plan are exactly those that depend,
    directly or through other files, on a path a change touches or, when files
    came or went, on a path with an unresolved reference. *)
Theorem affected_exact baseline target targetDocuments changes plan :
  PlanInvalidation baseline target targetDocuments changes = Some (Ok plan) →
  ip_FullReindex plan = false →
  ∀ p, p ∈ ip_AffectedPaths plan ↔
       ∃ s, seeded baseline changes s ∧ rtc (flip (depends_on baseline)) s p.
Proof.
  intros (documents & reasons & Hb & _ & _ & Hreasons & ->)%plan_parts Hfull p. cbn in *.
  rewrite Hfull in Hreasons. apply incremental_reasons in Hreasons as [_ Hspec]; [|done].
  rewrite elem_of_sortedKeys, Hspec. by setoid_rewrite (code_depends_rtc baseline Hb).
Qed.

(** Every target document is either reindexed or reused, never both and never
    neither; a full reindex reuses nothing. *)
Theorem reuse_partition baseline target targetDocuments changes plan :
  PlanInvalidation baseline target targetDocuments changes = Some (Ok plan) →
  (∀ p, (∃ c, c ∈ ip_ReusableFiles plan ∧ rc_Path c = p) ↔
        (∃ d, d ∈ targetDocuments ∧ doc_Path d = p) ∧ (p ∉ ip_AffectedPaths plan)) ∧
  (ip_FullReindex plan = true → ip_ReusableFiles plan = []).
Proof.
  intros (documents & reasons & _ & Hd & Hcov & Hreasons & Hplan)%plan_parts.
  assert (spelled reasons) as Hs by (by eapply reasons_spelled).
  assert (∀ p, (∃ c, c ∈ ip_ReusableFiles plan ∧ rc_Path c = p) →
               ip_FullReindex plan = false ∧ is_Some (documents !! p) ∧ reasons !! p = None) as Hone.
  { intros p (c & Hc & <-). rewrite Hplan in Hc. cbn in Hc.
    apply elem_of_reusableFiles in Hc as (base & document & Ht & Hb & Hr & _); [|done].
    split_and!; [|by eexists|done].
    by destruct (unaffected_unchanged _ _ _ _ _ _ (rc_Path c) Hcov Hreasons Hr)
      as (? & ? & _ & _ & _ & ->); [right; eexists|]. }
  split.
  - intros p. split.
    + intros Hc. apply Hone in Hc as (_ & [d Hp] & Hr). split.
      * exists d. by eapply documents_lookup.
      * rewrite Hplan. cbn. rewrite elem_of_sortedKeys, Hr. by intros [? [=]].
    + intros [(d & Hin & Hpath) Hna]. rewrite Hplan in Hna. cbn in Hna.
      rewrite elem_of_sortedKeys, <-eq_None_not_Some in Hna.
      assert (documents !! p = Some d) as Hp by (by eapply documents_lookup).
      destruct (unaffected_unchanged _ _ _ _ _ _ p Hcov Hreasons Hna)
        as (base & document & Hb & Hdoc & Hh & _); [right; by eexists|].
      exists (mkReuse p (f_LineageID base) (f_FileID base) (f_SourceHash base)).
      split; [|done]. rewrite Hplan. cbn. apply elem_of_reusableFiles; [done|]. cbn.
      by exists base, document.
  - intros Hfull. destruct (ip_ReusableFiles plan) as [|c l] eqn:Hc; [done|].
    destruct (Hone (rc_Path c)) as [Hf _]; [exists c; by repeat constructor|congruence].
Qed.

(** What a path depends on, through any number of files, was a file of the
    baseline. *)
Lemma depends_on_file baseline q p :
  depends_on baseline q p → ∃ file, file ∈ b_Files baseline ∧ f_Path file = p.
Proof. intros (_ & _ & _ & to & _ & _ & _ & _ & _ & _ & _ & [Hin _] & Hp & _). by exists to. Qed.

(** C38. Reuse is safe: a reused file, and every file it depends on through any
    number of relations, is unaffected and has the same source hash in the
    baseline and in the target. *)
Theorem reuse_closed baseline target targetDocuments changes plan c q :
  PlanInvalidation baseline target targetDocuments changes = Some (Ok plan) →
  c ∈ ip_ReusableFiles plan →
  rtc (depends_on baseline) (rc_Path c) q →
  (q ∉ ip_AffectedPaths plan) ∧
  ∃ base document, base ∈ b_Files baseline ∧ f_Path base = q ∧
    document ∈ targetDocuments ∧ doc_Path document = q ∧
    f_SourceHash base = doc_SourceHash document.
Proof.
  intros (documents & reasons & Hbc & Hd & Hcov & Hreasons & Hplan)%plan_parts Hc Hdep.
  rewrite Hplan in *. cbn [ip_ReusableFiles ip_AffectedPaths ip_FullReindex] in *.
  apply elem_of_reusableFiles in Hc as (base & document & Ht & Hb & Hr & _);
    [|by eapply reasons_spelled].
  assert (∃ b, filesByPath (b_Files baseline) !! q = Some b) as [b Hq].
  { apply rtc_inv_r in Hdep as [<-|(z & _ & Hz)]; [by exists base|].
    apply filesByPath_is_Some. by eapply depends_on_file. }
  assert (reasons !! q = None) as Hnone.
  { destruct (unaffected_unchanged _ _ _ _ _ _ (rc_Path c) Hcov Hreasons Hr)
      as (_ & _ & _ & _ & _ & Hfull); [right; by eexists|].
    rewrite Hfull in Hreasons. apply incremental_reasons in Hreasons as [_ Hspec]; [|done].
    rewrite eq_None_not_Some. intros (s & Hs & Hsq)%Hspec.
    rewrite eq_None_not_Some in Hr. apply Hr, Hspec. exists s. split; [done|].
    etrans; [exact Hsq|]. by apply code_depends_rtc, rtc_reverse. }
  rewrite elem_of_sortedKeys, <-eq_None_not_Some. split; [done|].
  destruct (unaffected_unchanged _ _ _ _ _ _ q Hcov Hreasons Hnone)
    as (b' & d & Hb' & Hdoc & Hh & _); [left; by exists b|].
  apply filesByPath_spec in Hb' as [? ?]. apply (documents_lookup _ _ _ _ Hd) in Hdoc as [? ?].
  by exists b', d.
Qed.

(** The entities that live in a file: its card, its symbols and the relations
    read from it. *)
Definition entity_of (baseline : IndexBundle) (file : FileCard) (id : string) : Prop :=
  id = f_FileID file ∨
  (∃ symbol, symbol ∈ b_Symbols baseline ∧ y_FileID symbol = f_FileID file ∧
     y_SymbolID symbol = id) ∨
  (∃ relation, relation ∈ b_Relations baseline ∧ re_SourceFileID relation = f_FileID file ∧
     re_RelationID relation = id).

Lemma invalidationsOf_entities baseline file reason id :
  (∃ e, e ∈ invalidationsOf baseline file reason ∧ ei_EntityID e = id) ↔
  entity_of baseline file id.
Proof.
  unfold invalidationsOf, entity_of. rewrite exists_in_cons.
  setoid_rewrite elem_of_app. setoid_rewrite list_elem_of_fmap. setoid_rewrite list_elem_of_filter.
  split.
  - intros [<-|(e & [(s & -> & ? & ?)|(r & -> & ? & ?)] & <-)]; [by left| |].
    + right. left. by exists s.
    + right. right. by exists r.
  - intros [->|[(s & ? & ? & <-)|(r & ? & ? & <-)]]; [by left| |]; right.
    + eexists. split; [left; by exists s|done].
    + eexists. split; [right; by exists r|done].
Qed.

Lemma elem_of_invalidations baseline paths reasons e :
  e ∈ invalidations baseline paths reasons ↔
  ∃ path file, path ∈ sortedKeys reasons ∧ paths !! path = Some file ∧
    e ∈ invalidationsOf baseline file (default "" (reasons !! path)).
Proof.
  unfold invalidations. rewrite merge_sort_Permutation, list_elem_of_join. split.
  - intros (l & He & (path & -> & Hpath)%list_elem_of_fmap).
    destruct (paths !! path) as [file|] eqn:Hf; [|by apply elem_of_nil in He]. by exists path, file.
  - intros (path & file & Hpath & Hf & He). eexists. split; [exact He|].
    apply list_elem_of_fmap. exists path. by rewrite Hf.
Qed.

(** The entities a plan invalidates are exactly those of the baseline files
    whose path is affected: nothing stale survives and nothing else is lost. *)
Theorem invalidations_exact baseline target targetDocuments changes plan :
  PlanInvalidation baseline target targetDocuments changes = Some (Ok plan) →
  ∀ id, (∃ e, e ∈ ip_Invalidations plan ∧ ei_EntityID e = id) ↔
        ∃ file, file ∈ b_Files baseline ∧ f_Path file ∈ ip_AffectedPaths plan ∧
          entity_of baseline file id.
Proof.
  intros (documents & reasons & Hbc & _ & _ & _ & ->)%plan_parts id.
  pose proof (bc_file_paths _ Hbc) as Hnd.
  cbn [ip_Invalidations ip_AffectedPaths]. split.
  - intros (e & (path & file & Hpath & Hf & He)%elem_of_invalidations & Hid).
    apply filesByPath_spec in Hf as [Hin <-]. exists file. split; [done|]. split; [done|].
    eapply invalidationsOf_entities. by exists e.
  - intros (file & Hin & Hpath & Hent).
    apply (invalidationsOf_entities _ _ (default "" (reasons !! f_Path file)))
      in Hent as (e & He & Hid).
    exists e. split; [|done]. apply elem_of_invalidations.
    destruct (proj2 (filesByPath_is_Some (b_Files baseline) (f_Path file))) as [f Hf];
      [by exists file|].
    exists (f_Path file), f. split_and!; [done|done|]. apply filesByPath_spec in Hf as [Hfin Hfp].
    by rewrite (NoDup_key_inj f_Path (b_Files baseline) f file Hnd Hfin Hin Hfp).
Qed.

End plans.

(** ** A repository of four files

    The baseline of [IndexValidation.Sample], in which [a.go] is modified. *)

Module Repository.
Export Sample.
#[local] Existing Instance demo_sha.
#[local] Existing Instance demo_json.

Definition document (path source : string) : SourceDocument :=
  mkDocument path "100644" (object "e"%char) 1 "go" false (content source) "".
Definition documents : list SourceDocument := Eval vm_compute in
  [document "a.go" "a2"; document "b.go" "b"; document "c.go" "c"; document "d.go" "d"].
Definition changes : GitChangeSet :=
  mkChangeSet (object "a"%char) (object "b"%char) [mkChange "modified" "a.go" None].

Definition plan : InvalidationPlan := Eval vm_compute in
  match PlanInvalidation baseline (b_Snapshot target) documents changes with
  | Some (Ok plan) => plan
  | _ => mkPlan true [] [] []
  end.

Lemma plan_computed :
  PlanInvalidation baseline (b_Snapshot target) documents changes = Some (Ok plan).
Proof. vm_compute. reflexivity. Qed.

Example plan_shape :
  ip_FullReindex plan = false ∧ ip_AffectedPaths plan = ["a.go"; "b.go"; "c.go"] ∧
  rc_Path <$> ip_ReusableFiles plan = ["d.go"] ∧ length (ip_Invalidations plan) = 7.
Proof. vm_compute. done. Qed.

Lemma affected_exact_witness :
  "c.go" ∈ ip_AffectedPaths plan ↔
  ∃ s, seeded baseline changes s ∧ rtc (flip (depends_on baseline)) s "c.go".
Proof.
  apply (affected_exact baseline (b_Snapshot target) documents changes plan);
    [exact plan_computed|reflexivity].
Defined.

Lemma reuse_partition_witness :
  (∀ p, (∃ c, c ∈ ip_ReusableFiles plan ∧ rc_Path c = p) ↔
        (∃ d, d ∈ documents ∧ doc_Path d = p) ∧ (p ∉ ip_AffectedPaths plan)) ∧
  (ip_FullReindex plan = true → ip_ReusableFiles plan = []).
Proof.
  apply (reuse_partition baseline (b_Snapshot target) documents changes plan).
  exact plan_computed.
Defined.

Definition reused : ReuseCandidate := Eval vm_compute in
  default (mkReuse "" "" "" "") (head (ip_ReusableFiles plan)).

Lemma reuse_closed_witness :
  ("d.go" ∉ ip_AffectedPaths plan) ∧
  ∃ base document, base ∈ b_Files baseline ∧ f_Path base = "d.go" ∧
    document ∈ documents ∧ doc_Path document = "d.go" ∧
    f_SourceHash base = doc_SourceHash document.
Proof.
  apply (reuse_closed baseline (b_Snapshot target) documents changes plan reused "d.go");
    [exact plan_computed|left|apply rtc_refl].
Defined.

(** The relation read from [c.go]. *)
Definition call : string := Eval vm_compute in
  default "" (last (re_RelationID <$> b_Relations baseline)).

Lemma invalidations_exact_witness :
  (∃ e, e ∈ ip_Invalidations plan ∧ ei_EntityID e = call) ↔
  ∃ file, file ∈ b_Files baseline ∧ f_Path file ∈ ip_AffectedPaths plan ∧
    entity_of baseline file call.
Proof.
  apply (invalidations_exact baseline (b_Snapshot target) documents changes plan).
  exact plan_computed.
Defined.
End Repository.
