(* ===== verification/Deltas.v ===== *)
(** * Package [internal/indexing]: deltas between two bundles ([invalidation.go])

    [ComputeBundleDeltas] explains a target bundle in terms of a baseline: which
    entities were reused, modified, added, deleted or renamed. It ranges over
    four Go maps, whose order is unspecified; the model takes the orders as an
    argument and the theorems hold for all of them. *)

From S2P Require Import Prelude GoLib Fault IndexCards IndexValidation.

Record EntityDelta := mkDelta {
  ed_Ordinal : Z; ed_ChangeKind : string; ed_EntityKind : string; ed_EntityID : string;
  ed_PreviousEntityID : option string }.

Record lineageVersion := mkVersion { lv_ID : string; lv_Fingerprint : string }.

#[export] Instance EntityDelta_eq_dec : EqDecision EntityDelta.
Proof. solve_decision. Defined.
#[export] Instance lineageVersion_eq_dec : EqDecision lineageVersion.
Proof. solve_decision. Defined.

Abbreviation lineageVersions := (gmap string (list lineageVersion)) (only parsing).

(** [result[lineage] = append(result[lineage], version)]. *)
Definition addVersion (m : lineageVersions) (entry : string * lineageVersion) : lineageVersions :=
  <[entry.1 := default [] (m !! entry.1) ++ [entry.2]]> m.
Definition collectVersions (entries : list (string * lineageVersion)) : lineageVersions :=
  foldl addVersion ∅ entries.

Section lineages.
Context `{Sha256}.

Definition fileEntry (file : FileCard) : string * lineageVersion :=
  (f_LineageID file, mkVersion (f_FileID file) (f_SourceHash file)).
Definition fileLineages (files : list FileCard) : lineageVersions :=
  collectVersions (fileEntry <$> files).

(** [fmt.Sprintf("%v", position)], [("%v", range)] and [("%t", b)]. *)
Definition position_text (p : SourcePosition) : string :=
  "{" +:+ pretty (ps_Line p) +:+ " " +:+ pretty (ps_Column p) +:+ " " +:+ pretty (ps_Offset p) +:+ "}".
Definition range_text (r : SourceRange) : string :=
  "{" +:+ position_text (rg_Start r) +:+ " " +:+ position_text (rg_End r) +:+ "}".
Definition bool_text (b : bool) : string := if b then "true" else "false".

Definition symbolEntry (symbol : SymbolCard) : string * lineageVersion :=
  let documentation := default "" (y_DocumentationHash symbol) in
  let fingerprint := StableIndexID "symbol_fingerprint"
    [y_Signature symbol; range_text (y_Declaration symbol); bool_text (y_Exported symbol);
     bool_text (y_Test symbol); bool_text (y_Route symbol); bool_text (y_Schema symbol);
     documentation] in
  (y_LineageID symbol, mkVersion (y_SymbolID symbol) fingerprint).
Definition symbolLineages (symbols : list SymbolCard) : lineageVersions :=
  collectVersions (symbolEntry <$> symbols).

(** The lineage of every file and symbol of the bundle. *)
Definition entityLineages (bundle : IndexBundle) : gmap string string :=
  foldl (λ m symbol, <[y_SymbolID symbol := y_LineageID symbol]> m)
    (foldl (λ m file, <[f_FileID file := f_LineageID file]> m) ∅ (b_Files bundle))
    (b_Symbols bundle).

(** [entities[id]], or [id] where that is empty. *)
Definition lineageOr (entities : gmap string string) (id : string) : string :=
  let lineage := default "" (entities !! id) in
  if bool_decide (lineage = "") then id else lineage.

Definition relationEntry (entities : gmap string string) (relation : RelationEvidence)
    : string * lineageVersion :=
  let source := lineageOr entities (re_SourceEntityID relation) in
  let target :=
    match re_TargetEntityID relation, re_UnresolvedName relation with
    | Some target, _ => lineageOr entities target
    | None, Some name => "unresolved:" +:+ name
    | None, None => ""
    end in
  let sourceFile := default "" (entities !! re_SourceFileID relation) in
  let lineage := StableIndexID "relation_lineage"
    [source; re_Kind relation; re_Resolution relation; target; sourceFile;
     range_text (re_Locator relation)] in
  let fingerprint := StableIndexID "relation_fingerprint"
    [re_EvidenceClass relation; re_EvidenceHash relation; ad_Name (re_Adapter relation);
     ad_Version (re_Adapter relation); ad_ConfigurationHash (re_Adapter relation);
     ad_CapabilityHash (re_Adapter relation)] in
  (lineage, mkVersion (re_RelationID relation) fingerprint).
Definition relationLineages (bundle : IndexBundle) : lineageVersions :=
  collectVersions (relationEntry (entityLineages bundle) <$> b_Relations bundle).
End lineages.

(** ** [compareLineages] *)

Definition version_le (a b : lineageVersion) : Prop :=
  if bool_decide (lv_Fingerprint a = lv_Fingerprint b) then String.le (lv_ID a) (lv_ID b)
  else String.le (lv_Fingerprint a) (lv_Fingerprint b).
#[export] Instance version_le_dec : RelDecision version_le.
Proof. unfold version_le. intros a b. case_match; apply _. Defined.
Definition version_id_le (a b : lineageVersion) : Prop := String.le (lv_ID a) (lv_ID b).
#[export] Instance version_id_le_dec : RelDecision version_id_le.
Proof. unfold version_id_le. intros a b. apply _. Defined.

Definition sortLineageVersions (values : list lineageVersion) : list lineageVersion :=
  merge_sort version_le values.

(** The pairs with equal fingerprints and what is left over on either side. *)
Record matching := mkMatching {
  mt_pairs : list (lineageVersion * lineageVersion);
  mt_before : list lineageVersion; mt_after : list lineageVersion }.

Fixpoint matchVersions (before : list lineageVersion) : list lineageVersion → matching :=
  fix go after :=
    match before, after with
    | b :: before', a :: after' =>
        if bool_decide (lv_Fingerprint b = lv_Fingerprint a) then
          let m := matchVersions before' after' in
          mkMatching ((b, a) :: mt_pairs m) (mt_before m) (mt_after m)
        else if negb (bool_decide (String.le (lv_Fingerprint a) (lv_Fingerprint b))) then
          let m := matchVersions before' after in
          mkMatching (mt_pairs m) (b :: mt_before m) (mt_after m)
        else
          let m := go after' in
          mkMatching (mt_pairs m) (mt_before m) (a :: mt_after m)
    | _, _ => mkMatching [] before after
    end.

Definition pairDelta (change kind : string) (pair : lineageVersion * lineageVersion) : EntityDelta :=
  mkDelta 0 change kind (lv_ID pair.2) (Some (lv_ID pair.1)).
Definition soleDelta (change kind : string) (version : lineageVersion) : EntityDelta :=
  mkDelta 0 change kind (lv_ID version) None.

Definition lineageDeltas (kind : string) (before after : list lineageVersion) : list EntityDelta :=
  let m := matchVersions (sortLineageVersions before) (sortLineageVersions after) in
  let unmatchedBefore := merge_sort version_id_le (mt_before m) in
  let unmatchedAfter := merge_sort version_id_le (mt_after m) in
  let paired := length unmatchedBefore `min` length unmatchedAfter in
  (pairDelta "reused" kind <$> mt_pairs m) ++
  (pairDelta "modified" kind <$> zip (take paired unmatchedBefore) (take paired unmatchedAfter)) ++
  (soleDelta "added" kind <$> drop paired unmatchedAfter) ++
  (soleDelta "deleted" kind <$> drop paired unmatchedBefore).

Definition compareLineages (kind : string) (baseline target : lineageVersions)
    (lineages : list string) : list EntityDelta :=
  mjoin ((λ lineage, lineageDeltas kind (default [] (baseline !! lineage))
                       (default [] (target !! lineage))) <$> lineages).

(** ** [inferExactFileRenames] *)

(** [baselineByHash[hash]]. *)
Definition withHash (hash : string) (files : list FileCard) : list FileCard :=
  filter (λ file, f_SourceHash file = hash) files.

(** The IDs of the file deltas of one kind of change. *)
Definition changedIDs (change : string) (deltas : list EntityDelta) : list string :=
  ed_EntityID <$> filter (λ delta, ed_EntityKind delta = "file" ∧ ed_ChangeKind delta = change) deltas.

(** The rename a source hash witnesses: the new ID with the old one. *)
Definition renameOf (deltas : list EntityDelta) (baseline target : list FileCard) (hash : string)
    : option (string * string) :=
  match withHash hash baseline, withHash hash target with
  | [before], [after] =>
      if bool_decide (f_Path before = f_Path after) then None
      else if negb (bool_decide (f_FileID before ∈ changedIDs "deleted" deltas)) then None
      else if negb (bool_decide (f_FileID after ∈ changedIDs "added" deltas)) then None
      else Some (f_FileID after, f_FileID before)
  | _, _ => None
  end.

Definition renames (deltas : list EntityDelta) (baseline target : list FileCard)
    (hashes : list string) : list (string * string) := omap (renameOf deltas baseline target) hashes.

Definition applyRename (renamedAdded : gmap string string) (renamedDeleted : gset string)
    (delta : EntityDelta) : list EntityDelta :=
  if bool_decide (ed_EntityKind delta = "file") && bool_decide (ed_ChangeKind delta = "deleted") &&
     bool_decide (ed_EntityID delta ∈ renamedDeleted)
  then []
  else if bool_decide (ed_EntityKind delta = "file") && bool_decide (ed_ChangeKind delta = "added")
  then match renamedAdded !! ed_EntityID delta with
       | Some previous => [mkDelta 0 "renamed" "file" (ed_EntityID delta) (Some previous)]
       | None => [delta]
       end
  else [delta].

(** A later assignment to [renamedAdded] replaces an earlier one. *)
Definition inferExactFileRenames (deltas : list EntityDelta) (baseline target : list FileCard)
    (hashes : list string) : list EntityDelta :=
  let found := renames deltas baseline target hashes in
  mjoin (applyRename (list_to_map (reverse found)) (list_to_set found.*2) <$> deltas).

(** ** [ComputeBundleDeltas] *)

Definition deltaKey (delta : EntityDelta) : string :=
  ed_EntityKind delta +:+ NUL +:+ ed_EntityID delta +:+ NUL +:+ ed_ChangeKind delta.
Definition delta_le (a b : EntityDelta) : Prop := String.le (deltaKey a) (deltaKey b).
#[export] Instance delta_le_dec : RelDecision delta_le.
Proof. unfold delta_le. intros a b. apply _. Defined.

Definition number (index : nat) (delta : EntityDelta) : EntityDelta :=
  mkDelta (Z.of_nat index) (ed_ChangeKind delta) (ed_EntityKind delta) (ed_EntityID delta)
    (ed_PreviousEntityID delta).

(** The orders in which the maps are visited. *)
Record visits := mkVisits {
  v_files : list string; v_symbols : list string; v_relations : list string; v_hashes : list string }.

Section deltas.
Context `{Sha256, AdapterJson}.

Definition unsortedDeltas (order : visits) (baseline target : IndexBundle) : list EntityDelta :=
  inferExactFileRenames
    (compareLineages "file" (fileLineages (b_Files baseline)) (fileLineages (b_Files target))
       (v_files order))
    (b_Files baseline) (b_Files target) (v_hashes order) ++
  compareLineages "symbol" (symbolLineages (b_Symbols baseline)) (symbolLineages (b_Symbols target))
    (v_symbols order) ++
  compareLineages "relation" (relationLineages baseline) (relationLineages target)
    (v_relations order).

Definition ComputeBundleDeltas (order : visits) (baseline target : IndexBundle)
    : result (list EntityDelta) :=
  match ValidateBundle baseline with
  | Err e => Err (Errorf (Lit "baseline: %w") e)
  | Ok _ =>
      match ValidateBundle target with
      | Err e => Err (Errorf (Lit "target: %w") e)
      | Ok _ => Ok (imap number (merge_sort delta_le (unsortedDeltas order baseline target)))
      end
  end.

Definition ComputeBundleDeltasWithChanges (order : visits) (baseline target : IndexBundle)
    (changes : GitChangeSet) : result (list EntityDelta) :=
  if negb (bool_decide (sn_SourceCommit (b_Snapshot baseline) = gs_BaseCommit changes)) ||
     negb (bool_decide (sn_SourceCommit (b_Snapshot target) = gs_TargetCommit changes))
  then Err (bad "change set does not bind the supplied bundles")
  else ComputeBundleDeltas order baseline target.

(** A list visits the keys of two maps: each once, in some order. *)
Definition visits_keys (keys : list string) (m n : lineageVersions) : Prop :=
  NoDup keys ∧ ∀ k, k ∈ keys ↔ k ∈ dom m ∨ k ∈ dom n.

Record possible_order (order : visits) (baseline target : IndexBundle) : Prop := mkPossible {
  po_files : visits_keys (v_files order) (fileLineages (b_Files baseline))
               (fileLineages (b_Files target));
  po_symbols : visits_keys (v_symbols order) (symbolLineages (b_Symbols baseline))
                 (symbolLineages (b_Symbols target));
  po_relations : visits_keys (v_relations order) (relationLineages baseline)
                   (relationLineages target);
  po_hashes : NoDup (v_hashes order) ∧
    ∀ h, h ∈ v_hashes order ↔ h ∈ (f_SourceHash <$> b_Files baseline);
}.
End deltas.

(** ** What a delta says

    A delta accounts for a target entity unless it is a deletion, and for a
    baseline entity unless it is an addition. *)

Definition new_of (delta : EntityDelta) : list string :=
  if bool_decide (ed_ChangeKind delta = "deleted") then [] else [ed_EntityID delta].
Definition old_of (delta : EntityDelta) : list string :=
  if bool_decide (ed_ChangeKind delta = "deleted") then [ed_EntityID delta]
  else if bool_decide (ed_ChangeKind delta = "added") then []
  else option_list (ed_PreviousEntityID delta).

Definition news (deltas : list EntityDelta) : list string := mjoin (new_of <$> deltas).
Definition olds (deltas : list EntityDelta) : list string := mjoin (old_of <$> deltas).

Lemma mjoin_fmap_cons {A B} (f : A → list B) (a : A) (l : list A) :
  mjoin (f <$> a :: l) = f a ++ mjoin (f <$> l).
Proof. done. Qed.
Lemma mjoin_fmap_app {A B} (f : A → list B) (l k : list A) :
  mjoin (f <$> l ++ k) = mjoin (f <$> l) ++ mjoin (f <$> k).
Proof. by rewrite fmap_app, join_app. Qed.

Lemma mjoin_fmap_perm {A B} (f : A → list B) (l k : list A) :
  l ≡ₚ k → mjoin (f <$> l) ≡ₚ mjoin (f <$> k).
Proof.
  induction 1 as [|x l k _ IH|x y l|l k j _ IH1 _ IH2]; cbn; [done| | |by etrans].
  - by apply Permutation_app_head.
  - rewrite !app_assoc. apply Permutation_app_tail, Permutation_app_comm.
Qed.

#[export] Instance news_perm : Proper ((≡ₚ) ==> (≡ₚ)) news.
Proof. intros l k. apply mjoin_fmap_perm. Qed.
#[export] Instance olds_perm : Proper ((≡ₚ) ==> (≡ₚ)) olds.
Proof. intros l k. apply mjoin_fmap_perm. Qed.

Lemma news_cons d l : news (d :: l) = new_of d ++ news l.
Proof. done. Qed.
Lemma olds_cons d l : olds (d :: l) = old_of d ++ olds l.
Proof. done. Qed.
Lemma news_app l k : news (l ++ k) = news l ++ news k.
Proof. apply mjoin_fmap_app. Qed.
Lemma olds_app l k : olds (l ++ k) = olds l ++ olds k.
Proof. apply mjoin_fmap_app. Qed.

(** *** One lineage *)

Section lineage.
Context (kind : string).

Lemma news_pairs change l : change ≠ "deleted" →
  news (pairDelta change kind <$> l) = lv_ID <$> l.*2.
Proof.
  intros Hc. induction l as [|p l IH]; [done|].
  rewrite fmap_cons, news_cons, IH. unfold new_of. cbn. by rewrite bool_decide_eq_false_2.
Qed.
Lemma olds_pairs change l : change ≠ "deleted" → change ≠ "added" →
  olds (pairDelta change kind <$> l) = lv_ID <$> l.*1.
Proof.
  intros Hd Ha. induction l as [|p l IH]; [done|].
  rewrite fmap_cons, olds_cons, IH. unfold old_of. cbn. by rewrite !bool_decide_eq_false_2.
Qed.
Lemma soles change l :
  news (soleDelta change kind <$> l) = (if bool_decide (change = "deleted") then [] else lv_ID <$> l) ∧
  olds (soleDelta change kind <$> l) = (if bool_decide (change = "deleted") then lv_ID <$> l else []).
Proof.
  induction l as [|v l [IH1 IH2]]; [by case_bool_decide|].
  rewrite fmap_cons, news_cons, olds_cons, IH1, IH2. unfold new_of, old_of. cbn. case_bool_decide; [done|]. by case_bool_decide.
Qed.

Lemma matchVersions_perm before : ∀ after,
  (mt_pairs (matchVersions before after)).*1 ++ mt_before (matchVersions before after) ≡ₚ before ∧
  (mt_pairs (matchVersions before after)).*2 ++ mt_after (matchVersions before after) ≡ₚ after.
Proof.
  induction before as [|b before IHb]; intros after; [by destruct after|].
  induction after as [|a after IHa]; [done|].
  cbn [matchVersions]. case_bool_decide; cbn.
  - destruct (IHb after) as [H1 H2]. by rewrite H1, H2.
  - destruct (negb _); cbn.
    + destruct (IHb (a :: after)) as [H1 H2]. by rewrite <-Permutation_middle, H1.
    + destruct IHa as [H1 H2]. split; [exact H1|].
      rewrite <-Permutation_middle. by apply perm_skip.
Qed.

Lemma fst_zip_take (l k : list lineageVersion) n :
  n ≤ length l → n ≤ length k → (zip (take n l) (take n k)).*1 = take n l.
Proof. intros Hl Hk. apply fst_zip. rewrite !length_take. lia. Qed.
Lemma snd_zip_take (l k : list lineageVersion) n :
  n ≤ length l → n ≤ length k → (zip (take n l) (take n k)).*2 = take n k.
Proof. intros Hl Hk. apply snd_zip. rewrite !length_take. lia. Qed.

(** The deltas of a lineage account for each of its versions once. *)
Lemma lineageDeltas_account before after :
  olds (lineageDeltas kind before after) ≡ₚ lv_ID <$> before ∧
  news (lineageDeltas kind before after) ≡ₚ lv_ID <$> after.
Proof.
  unfold lineageDeltas, sortLineageVersions.
  destruct (matchVersions_perm (merge_sort version_le before) (merge_sort version_le after)) as [Hb Ha].
  set (m := matchVersions _ _) in *.
  set (ub := merge_sort version_id_le (mt_before m)). set (ua := merge_sort version_id_le (mt_after m)).
  assert (ub ≡ₚ mt_before m) as Hub by apply merge_sort_Permutation.
  assert (ua ≡ₚ mt_after m) as Hua by apply merge_sort_Permutation.
  rewrite !olds_app, !news_app, !news_pairs, !olds_pairs by discriminate.
  rewrite fst_zip_take, snd_zip_take by lia.
  destruct (soles "added" (drop (length ub `min` length ua) ua)) as [-> ->].
  destruct (soles "deleted" (drop (length ub `min` length ua) ub)) as [-> ->].
  rewrite bool_decide_eq_false_2, bool_decide_eq_true_2 by done. cbn [app].
  rewrite app_nil_r, <-!fmap_app, !take_drop, Hub, Hua, Hb, Ha.
  by rewrite !merge_sort_Permutation.
Qed.
End lineage.

(** *** All lineages *)

Lemma mjoin_update {B} (f g : string → list B) (k : string) (b : B) (keys : list string) :
  NoDup keys → k ∈ keys → g k = f k ++ [b] → (∀ i, i ≠ k → g i = f i) →
  mjoin (g <$> keys) ≡ₚ mjoin (f <$> keys) ++ [b].
Proof.
  intros Hnd Hk Hgk Hne. apply elem_of_Permutation in Hk as [rest Hrest].
  rewrite (mjoin_fmap_perm g _ _ Hrest), (mjoin_fmap_perm f _ _ Hrest). cbn.
  rewrite Hrest in Hnd. apply NoDup_cons in Hnd as [Hnk _].
  assert (g <$> rest = f <$> rest) as ->.
  { apply list_fmap_ext. intros i x Hx. apply Hne. intros ->.
    by apply list_elem_of_lookup_2 in Hx. }
  rewrite Hgk, <-!app_assoc. apply Permutation_app_head, Permutation_app_comm.
Qed.

(** Grouping by lineage neither loses nor repeats a version. *)
Lemma collectVersions_account keys entries :
  NoDup keys → (∀ e, e ∈ entries → e.1 ∈ keys) →
  mjoin ((λ k, default [] (collectVersions entries !! k)) <$> keys) ≡ₚ entries.*2.
Proof.
  intros Hnd. unfold collectVersions.
  induction entries as [|e entries IH] using rev_ind; intros Hin.
  - cbn. clear. induction keys as [|k keys IH]; [done|]. cbn. by rewrite lookup_empty.
  - rewrite foldl_app. cbn [foldl]. set (m := foldl addVersion ∅ entries) in *.
    rewrite (mjoin_update (λ k, default [] (m !! k)) _ e.1 e.2).
    + rewrite fmap_app. apply Permutation_app_tail, IH. intros e' He'. apply Hin, elem_of_app. by left.
    + done.
    + apply Hin, elem_of_app. right. by left.
    + unfold addVersion. by rewrite lookup_insert_eq.
    + intros i Hi. unfold addVersion. by rewrite lookup_insert_ne.
Qed.

Lemma collectVersions_dom entries k :
  k ∈ dom (collectVersions entries) ↔ k ∈ entries.*1.
Proof.
  unfold collectVersions. induction entries as [|e entries IH] using rev_ind.
  - cbn. rewrite dom_empty. set_solver.
  - rewrite foldl_app, fmap_app, elem_of_app. cbn [foldl]. unfold addVersion at 1.
    rewrite dom_insert. set_solver.
Qed.

Lemma compareLineages_account kind (before after : list (string * lineageVersion)) keys :
  visits_keys keys (collectVersions before) (collectVersions after) →
  olds (compareLineages kind (collectVersions before) (collectVersions after) keys) ≡ₚ
    lv_ID <$> before.*2 ∧
  news (compareLineages kind (collectVersions before) (collectVersions after) keys) ≡ₚ
    lv_ID <$> after.*2.
Proof.
  intros [Hnd Hkeys].
  assert (∀ e, e ∈ before → e.1 ∈ keys) as Hb.
  { intros e He. apply Hkeys. left. by apply collectVersions_dom, list_elem_of_fmap_2. }
  assert (∀ e, e ∈ after → e.1 ∈ keys) as Ha.
  { intros e He. apply Hkeys. right. by apply collectVersions_dom, list_elem_of_fmap_2. }
  rewrite <-(collectVersions_account keys before Hnd Hb), <-(collectVersions_account keys after Hnd Ha).
  unfold compareLineages. clear. induction keys as [|k keys [IH1 IH2]]; [done|].
  rewrite !mjoin_fmap_cons, olds_app, news_app, !fmap_app, IH1, IH2.
  by destruct (lineageDeltas_account kind (default [] (collectVersions before !! k))
    (default [] (collectVersions after !! k))) as [-> ->].
Qed.

(** *** Renames *)

Lemma NoDup_omap_key {A B C} (f : A → option B) (key : B → C) (l : list A) :
  NoDup l →
  (∀ x y p q, x ∈ l → y ∈ l → f x = Some p → f y = Some q → key p = key q → x = y) →
  NoDup (key <$> omap f l).
Proof.
  induction l as [|a l IH]; [constructor|]. intros [Ha Hnd]%NoDup_cons Hinj.
  assert (NoDup (key <$> omap f l)) as Hl.
  { apply IH; [done|]. intros x y p q Hx Hy. apply Hinj; by right. }
  cbn. destruct (f a) as [p|] eqn:Hp; [|done]. cbn. apply NoDup_cons. split; [|done].
  intros (q & Hq & (y & Hy & Hfy)%list_elem_of_omap)%list_elem_of_fmap.
  apply Ha. rewrite (Hinj a y p q); [done|by left|by right|done..].
Qed.

Lemma renameOf_spec deltas baseline target hash a b :
  renameOf deltas baseline target hash = Some (a, b) →
  a ∈ changedIDs "added" deltas ∧ b ∈ changedIDs "deleted" deltas ∧
  ∃ before after, before ∈ baseline ∧ after ∈ target ∧
    f_SourceHash before = hash ∧ f_SourceHash after = hash ∧
    f_Path before ≠ f_Path after ∧ f_FileID after = a ∧ f_FileID before = b.
Proof.
  unfold renameOf. destruct (withHash hash baseline) as [|before [|]] eqn:Hb; try done.
  destruct (withHash hash target) as [|after [|]] eqn:Ha; try done.
  case_bool_decide; [done|]. destruct (negb _) eqn:Hd; [done|]. destruct (negb _) eqn:Hn in |- *; [done|].
  intros [= <- <-]. bool_prop. split_and!; [done|done|].
  assert (before ∈ withHash hash baseline) as Hbin by (rewrite Hb; by left).
  assert (after ∈ withHash hash target) as Hain by (rewrite Ha; by left).
  apply list_elem_of_filter in Hbin as [? ?], Hain as [? ?]. by exists before, after.
Qed.

(** The baseline IDs a delta no longer accounts for, and those it newly does. *)
Definition lost (R : gset string) (delta : EntityDelta) : list string :=
  if bool_decide (ed_EntityKind delta = "file") && bool_decide (ed_ChangeKind delta = "deleted") &&
     bool_decide (ed_EntityID delta ∈ R) then [ed_EntityID delta] else [].
Definition gained (M : gmap string string) (delta : EntityDelta) : list string :=
  if bool_decide (ed_EntityKind delta = "file") && bool_decide (ed_ChangeKind delta = "added")
  then option_list (M !! ed_EntityID delta) else [].

Lemma applyRename_account M R d :
  news (applyRename M R d) = new_of d ∧
  olds (applyRename M R d) ++ lost R d ≡ₚ old_of d ++ gained M d.
Proof.
  unfold applyRename, lost, gained, news, olds, new_of, old_of.
  destruct (bool_decide (ed_EntityKind d = "file")) eqn:Hk,
    (bool_decide (ed_ChangeKind d = "deleted")) eqn:Hd,
    (bool_decide (ed_ChangeKind d = "added")) eqn:Ha; bool_prop; try congruence; cbn.
  - case_bool_decide; cbn; [done|]. by rewrite (bool_decide_eq_true_2 _ Hd).
  - destruct (M !! ed_EntityID d) as [prev|]; cbn; [done|].
    by rewrite (bool_decide_eq_false_2 _ Hd), (bool_decide_eq_true_2 _ Ha).
  - rewrite (bool_decide_eq_false_2 _ Hd), (bool_decide_eq_false_2 _ Ha). by rewrite !app_nil_r.
  - by rewrite (bool_decide_eq_true_2 _ Hd).
  - by rewrite (bool_decide_eq_false_2 _ Hd), (bool_decide_eq_true_2 _ Ha).
  - rewrite (bool_decide_eq_false_2 _ Hd), (bool_decide_eq_false_2 _ Ha). by rewrite !app_nil_r.
Qed.

Lemma applyRenames_account M R ds :
  news (mjoin (applyRename M R <$> ds)) = news ds ∧
  olds (mjoin (applyRename M R <$> ds)) ++ mjoin (lost R <$> ds) ≡ₚ olds ds ++ mjoin (gained M <$> ds).
Proof.
  induction ds as [|d ds [IH1 IH2]]; [done|].
  rewrite !mjoin_fmap_cons, news_app, olds_app, news_cons, olds_cons, IH1.
  destruct (applyRename_account M R d) as [-> Hd]. split; [done|].
  transitivity ((olds (applyRename M R d) ++ lost R d) ++
                (olds (mjoin (applyRename M R <$> ds)) ++ mjoin (lost R <$> ds))).
  { rewrite <-!app_assoc. apply Permutation_app_head. rewrite !app_assoc.
    apply Permutation_app_tail, Permutation_app_comm. }
  rewrite Hd, IH2. rewrite <-!app_assoc. apply Permutation_app_head. rewrite !app_assoc.
  apply Permutation_app_tail, Permutation_app_comm.
Qed.

Lemma changedIDs_cons change d ds :
  changedIDs change (d :: ds) =
  (if bool_decide (ed_EntityKind d = "file" ∧ ed_ChangeKind d = change) then [ed_EntityID d] else []) ++
  changedIDs change ds.
Proof. unfold changedIDs. rewrite filter_cons. case_decide; by case_bool_decide. Qed.

Lemma losts R ds : mjoin (lost R <$> ds) = filter (.∈ R) (changedIDs "deleted" ds).
Proof.
  induction ds as [|d ds IH]; [done|]. rewrite mjoin_fmap_cons, changedIDs_cons, filter_app, IH. f_equal. unfold lost.
  rewrite <-bool_decide_and. case_bool_decide; [|done]. rewrite andb_true_l, filter_cons.
  case_bool_decide; by case_decide.
Qed.
Lemma gaineds M ds : mjoin (gained M <$> ds) = omap (M !!.) (changedIDs "added" ds).
Proof.
  induction ds as [|d ds IH]; [done|]. rewrite mjoin_fmap_cons, changedIDs_cons, omap_app, IH. f_equal. unfold gained.
  rewrite <-bool_decide_and. case_bool_decide; [|done]. cbn. by destruct (M !! _).
Qed.

Lemma deleted_sublist ds : changedIDs "deleted" ds `sublist_of` olds ds.
Proof.
  induction ds as [|d ds IH]; [done|]. rewrite changedIDs_cons, olds_cons.
  apply sublist_app; [|done]. unfold old_of. case_bool_decide as Hd; [|apply sublist_nil_l].
  by rewrite bool_decide_eq_true_2 by apply Hd.
Qed.
Lemma added_sublist ds : changedIDs "added" ds `sublist_of` news ds.
Proof.
  induction ds as [|d ds IH]; [done|]. rewrite changedIDs_cons, news_cons.
  apply sublist_app; [|done]. unfold new_of. case_bool_decide as Ha; [|apply sublist_nil_l].
  destruct Ha as [_ Ha]. rewrite Ha. by rewrite bool_decide_eq_false_2.
Qed.

(** No file is renamed twice. *)
Lemma renames_distinct deltas baseline target hashes :
  NoDup hashes → NoDup (f_FileID <$> baseline) → NoDup (f_FileID <$> target) →
  NoDup (renames deltas baseline target hashes).*1 ∧ NoDup (renames deltas baseline target hashes).*2.
Proof.
  intros Hh Hb Ht. split; (apply NoDup_omap_key; [done|]); intros x y [a b] [a' b'] _ _ Hx Hy Heq;
    cbn in Heq; subst;
    apply renameOf_spec in Hx as (_ & _ & f & f' & Hf & Hf' & Hfx & Hfx' & _ & Hfa & Hfb);
    apply renameOf_spec in Hy as (_ & _ & g & g' & Hg & Hg' & Hgy & Hgy' & _ & Hga & Hgb).
  - rewrite <-Hfx', <-Hgy'. by rewrite (NoDup_key_inj f_FileID target f' g') by congruence.
  - rewrite <-Hfx, <-Hgy. by rewrite (NoDup_key_inj f_FileID baseline f g) by congruence.
Qed.

(** Renames trade a deletion and an addition for a rename: both sides are still
    accounted for once. *)
Lemma inferExactFileRenames_account deltas baseline target hashes :
  NoDup hashes → NoDup (f_FileID <$> baseline) → NoDup (f_FileID <$> target) →
  NoDup (olds deltas) → NoDup (news deltas) →
  news (inferExactFileRenames deltas baseline target hashes) = news deltas ∧
  olds (inferExactFileRenames deltas baseline target hashes) ≡ₚ olds deltas.
Proof.
  intros Hh Hb Ht Holds Hnews. unfold inferExactFileRenames.
  set (found := renames deltas baseline target hashes).
  destruct (applyRenames_account (list_to_map (reverse found)) (list_to_set found.*2) deltas)
    as [Hn Ho]. split; [exact Hn|].
  assert (∀ a b, (a, b) ∈ found → a ∈ changedIDs "added" deltas ∧ b ∈ changedIDs "deleted" deltas) as Hin.
  { intros a b (h & _ & Hr)%list_elem_of_omap. by apply renameOf_spec in Hr as (? & ? & _). }
  destruct (renames_distinct deltas baseline target hashes Hh Hb Ht) as [Hnd1 Hnd2].
  fold found in Hnd1, Hnd2.
  assert (∀ a b, (list_to_map (reverse found) : gmap string string) !! a = Some b ↔ (a, b) ∈ found) as HM.
  { intros a b. rewrite <-elem_of_list_to_map; [by rewrite elem_of_reverse|].
    rewrite fmap_reverse. by rewrite reverse_Permutation. }
  rewrite losts, gaineds in Ho. eapply Permutation_app_inv_r.
  rewrite Ho. apply Permutation_app_head.
  transitivity found.*2; [|symmetry]; (apply NoDup_Permutation; [|exact Hnd2|]).
  - rewrite <-(list_fmap_id (omap _ _)). apply NoDup_omap_key.
    + eapply sublist_NoDup; [exact Hnews|apply added_sublist].
    + intros x y p q _ _ Hx Hy Heq. cbn in Heq. subst q. apply HM in Hx, Hy.
      pose proof (NoDup_key_inj snd found (x, p) (y, p) Hnd2 Hx Hy eq_refl) as Hpair. congruence.
  - intros b. rewrite list_elem_of_omap, list_elem_of_fmap. split.
    + intros (a & _ & Hab%HM). by exists (a, b).
    + intros ([a b'] & -> & Hab). exists a. split; [by apply (Hin a b')|by apply HM].
  - apply NoDup_filter. eapply sublist_NoDup; [exact Holds|apply deleted_sublist].
  - intros b. rewrite list_elem_of_filter, elem_of_list_to_set. split; [by intros [? _]|].
    intros Hb'. split; [done|]. apply list_elem_of_fmap in Hb' as ([a b'] & -> & Hab).
    by apply (Hin a b').
Qed.

(** *** The three kinds *)

Definition entityIDs (kind : string) (bundle : IndexBundle) : list string :=
  if bool_decide (kind = "file") then f_FileID <$> b_Files bundle
  else if bool_decide (kind = "symbol") then y_SymbolID <$> b_Symbols bundle
  else if bool_decide (kind = "relation") then re_RelationID <$> b_Relations bundle
  else [].

Definition of_kind (kind : string) (deltas : list EntityDelta) : list EntityDelta :=
  filter (λ delta, ed_EntityKind delta = kind) deltas.

Lemma of_kind_all kind deltas :
  Forall (λ d, ed_EntityKind d = kind) deltas → ∀ k,
  of_kind k deltas = if bool_decide (kind = k) then deltas else [].
Proof.
  unfold of_kind. induction 1 as [|d ds Hd _ IH]; intros k; [by case_bool_decide|].
  rewrite filter_cons, IH, Hd. by case_bool_decide; case_decide.
Qed.

Lemma compareLineages_kind kind before after keys :
  Forall (λ d, ed_EntityKind d = kind) (compareLineages kind before after keys).
Proof.
  unfold compareLineages. apply Forall_join, Forall_fmap, Forall_true. intros k.
  unfold compose, lineageDeltas. repeat apply Forall_app_2; by apply Forall_fmap, Forall_true.
Qed.

Lemma inferExactFileRenames_kind deltas baseline target hashes :
  Forall (λ d, ed_EntityKind d = "file") deltas →
  Forall (λ d, ed_EntityKind d = "file") (inferExactFileRenames deltas baseline target hashes).
Proof.
  intros Hd. unfold inferExactFileRenames. apply Forall_join, Forall_fmap.
  eapply Forall_impl; [exact Hd|]. intros d Hk. unfold compose, applyRename.
  repeat case_match; by repeat constructor.
Qed.

Section accounts.
Context `{Sha256, AdapterJson}.

Lemma entries_IDs {A} (entry : A → string * lineageVersion) (id : A → string) (l : list A) :
  (∀ a, lv_ID (entry a).2 = id a) → lv_ID <$> (entry <$> l).*2 = id <$> l.
Proof. intros He. rewrite <-!list_fmap_compose. apply list_fmap_ext. intros i a _. apply He. Qed.

(** The deltas of the files, before and after renames are recognised. *)
Lemma file_deltas_account order baseline target :
  bundle_closed baseline → bundle_closed target → possible_order order baseline target →
  let compared := compareLineages "file" (fileLineages (b_Files baseline))
                    (fileLineages (b_Files target)) (v_files order) in
  let deltas := inferExactFileRenames compared (b_Files baseline) (b_Files target) (v_hashes order) in
  (olds compared ≡ₚ f_FileID <$> b_Files baseline ∧ news compared ≡ₚ f_FileID <$> b_Files target) ∧
  olds deltas ≡ₚ f_FileID <$> b_Files baseline ∧ news deltas ≡ₚ f_FileID <$> b_Files target.
Proof.
  intros Hb Ht [Hf _ _ [Hh _]]. cbv zeta.
  destruct (compareLineages_account "file" _ _ _ Hf) as [Ho Hn].
  rewrite (entries_IDs fileEntry f_FileID) in Ho, Hn by done.
  split; [done|].
  destruct (inferExactFileRenames_account
    (compareLineages "file" (fileLineages (b_Files baseline)) (fileLineages (b_Files target))
       (v_files order)) (b_Files baseline) (b_Files target) (v_hashes order)) as [Hn' Ho'].
  - done.
  - apply Hb.
  - apply Ht.
  - unfold fileLineages. rewrite Ho. apply Hb.
  - unfold fileLineages. rewrite Hn. apply Ht.
  - rewrite Hn', Ho'. done.
Qed.

Lemma unsortedDeltas_account order baseline target kind :
  bundle_closed baseline → bundle_closed target → possible_order order baseline target →
  olds (of_kind kind (unsortedDeltas order baseline target)) ≡ₚ entityIDs kind baseline ∧
  news (of_kind kind (unsortedDeltas order baseline target)) ≡ₚ entityIDs kind target.
Proof.
  intros Hb Ht Hpo. destruct (file_deltas_account order baseline target Hb Ht Hpo) as [_ [Hfo Hfn]].
  destruct Hpo as [_ Hs Hr _].
  destruct (compareLineages_account "symbol" _ _ _ Hs) as [Hso Hsn].
  destruct (compareLineages_account "relation" _ _ _ Hr) as [Hro Hrn].
  rewrite (entries_IDs symbolEntry y_SymbolID) in Hso, Hsn by done.
  rewrite (entries_IDs (relationEntry _) re_RelationID) in Hro by done.
  rewrite (entries_IDs (relationEntry _) re_RelationID) in Hrn by done.
  unfold unsortedDeltas, of_kind. rewrite !filter_app. fold (of_kind kind).
  change (filter (λ d, ed_EntityKind d = kind)) with (of_kind kind).
  rewrite (of_kind_all "file") by apply inferExactFileRenames_kind, compareLineages_kind.
  rewrite (of_kind_all "symbol") by apply compareLineages_kind.
  rewrite (of_kind_all "relation") by apply compareLineages_kind.
  unfold entityIDs. rewrite !(bool_decide_ext (kind = _) (_ = kind)) by done.
  destruct (decide ("file" = kind)) as [<-|Hnf]; [cbn; by rewrite !app_nil_r|].
  destruct (decide ("symbol" = kind)) as [<-|Hns]; [cbn; by rewrite !app_nil_r|].
  rewrite !(bool_decide_eq_false_2 _ Hnf), !(bool_decide_eq_false_2 _ Hns).
  destruct (decide ("relation" = kind)) as [<-|Hnr]; [done|].
  by rewrite !(bool_decide_eq_false_2 _ Hnr).
Qed.
End accounts.

(** *** Distinct keys *)

(** What the sort key spells out. *)
Definition triple (d : EntityDelta) : string * string * string :=
  (ed_EntityKind d, ed_EntityID d, ed_ChangeKind d).

Lemma pairs_distinct ds :
  NoDup (olds ds) → NoDup (news ds) → NoDup ((λ d, (ed_EntityID d, ed_ChangeKind d)) <$> ds).
Proof.
  induction ds as [|d ds IH]; [constructor|]. rewrite olds_cons, news_cons.
  intros (_ & Ho & Hod)%NoDup_app (_ & Hn & Hnd)%NoDup_app. cbn. apply NoDup_cons.
  split; [|by apply IH]. intros (d' & Heq & Hd')%list_elem_of_fmap. injection Heq as Hid Hch.
  unfold old_of in Ho. unfold new_of in Hn. rewrite Hid in *.
  destruct (bool_decide (ed_ChangeKind d = "deleted")) eqn:Hdel; bool_prop.
  - apply (Ho (ed_EntityID d')); [by left|]. apply list_elem_of_join. exists (old_of d').
    split; [|by apply list_elem_of_fmap_2]. unfold old_of.
    rewrite bool_decide_eq_true_2 by congruence. by left.
  - apply (Hn (ed_EntityID d')); [by left|]. apply list_elem_of_join. exists (new_of d').
    split; [|by apply list_elem_of_fmap_2]. unfold new_of.
    rewrite bool_decide_eq_false_2 by congruence. by left.
Qed.

Lemma triples_distinct ds :
  (∀ kind, NoDup ((λ d, (ed_EntityID d, ed_ChangeKind d)) <$> of_kind kind ds)) →
  NoDup (triple <$> ds).
Proof.
  induction ds as [|d ds IH]; intros Hkinds; [constructor|]. cbn. apply NoDup_cons. split.
  - intros (d' & Heq & Hd')%list_elem_of_fmap. injection Heq as Hk Hid Hch.
    specialize (Hkinds (ed_EntityKind d)). unfold of_kind in Hkinds.
    rewrite filter_cons_True in Hkinds by done. apply NoDup_cons_1_1 in Hkinds. apply Hkinds.
    apply list_elem_of_fmap. exists d'. rewrite Hid, Hch. split; [done|].
    by apply list_elem_of_filter.
  - apply IH. intros kind. specialize (Hkinds kind). unfold of_kind in *. rewrite filter_cons in Hkinds.
    case_decide; [|done]. by apply NoDup_cons_1_2 in Hkinds.
Qed.

(** Kinds of entities and of changes are names without NUL. *)
Definition named (d : EntityDelta) : Prop :=
  nul_free (ed_EntityKind d) = true ∧ nul_free (ed_ChangeKind d) = true.

Lemma deltaKey_triple d d' : named d → named d' → deltaKey d = deltaKey d' → triple d = triple d'.
Proof.
  unfold named, deltaKey, triple. intros [Hk Hc] [Hk' Hc'] [-> Heq]%nul_split_inj; [|done..].
  by apply nul_split_inj_r in Heq as [-> ->].
Qed.

Lemma compareLineages_named kind before after keys :
  nul_free kind = true → Forall named (compareLineages kind before after keys).
Proof.
  intros Hk. unfold compareLineages. apply Forall_join, Forall_fmap, Forall_true. intros k.
  unfold compose, lineageDeltas. repeat apply Forall_app_2; by apply Forall_fmap, Forall_true.
Qed.

Lemma inferExactFileRenames_named deltas baseline target hashes :
  Forall named deltas → Forall named (inferExactFileRenames deltas baseline target hashes).
Proof.
  intros Hd. unfold inferExactFileRenames. apply Forall_join, Forall_fmap.
  eapply Forall_impl; [exact Hd|]. intros d Hk. unfold compose, applyRename.
  repeat case_match; rewrite ?Forall_singleton; try apply Forall_nil_2; done.
Qed.

(** *** Visiting orders *)

Lemma visits_keys_perm keys keys' m n :
  visits_keys keys m n → visits_keys keys' m n → keys ≡ₚ keys'.
Proof.
  intros [Hnd Hk] [Hnd' Hk']. apply NoDup_Permutation; [done..|]. intros k. by rewrite Hk, Hk'.
Qed.

Lemma changedIDs_perm change l k : l ≡ₚ k → changedIDs change l ≡ₚ changedIDs change k.
Proof. intros Hlk. unfold changedIDs. by rewrite Hlk. Qed.

Lemma renameOf_perm deltas deltas' baseline target hash :
  deltas ≡ₚ deltas' → renameOf deltas baseline target hash = renameOf deltas' baseline target hash.
Proof.
  intros Hd. unfold renameOf.
  destruct (withHash hash baseline) as [|b [|]], (withHash hash target) as [|a [|]]; try done.
  rewrite (bool_decide_ext (f_FileID b ∈ changedIDs "deleted" deltas)
             (f_FileID b ∈ changedIDs "deleted" deltas')) by (by rewrite (changedIDs_perm _ _ _ Hd)).
  by rewrite (bool_decide_ext (f_FileID a ∈ changedIDs "added" deltas)
             (f_FileID a ∈ changedIDs "added" deltas')) by (by rewrite (changedIDs_perm _ _ _ Hd)).
Qed.

Lemma inferExactFileRenames_perm deltas deltas' baseline target hashes hashes' :
  deltas ≡ₚ deltas' → hashes ≡ₚ hashes' → NoDup hashes →
  NoDup (f_FileID <$> baseline) → NoDup (f_FileID <$> target) →
  inferExactFileRenames deltas baseline target hashes ≡ₚ
  inferExactFileRenames deltas' baseline target hashes'.
Proof.
  intros Hd Hh Hnd Hb Ht. unfold inferExactFileRenames.
  assert (renames deltas baseline target hashes ≡ₚ renames deltas' baseline target hashes') as Hr.
  { unfold renames. rewrite Hh. clear Hh. induction hashes' as [|h hashes' IH]; [done|].
    cbn. rewrite (renameOf_perm deltas deltas') by done. destruct (renameOf _ _ _ h); [|exact IH].
    by apply perm_skip. }
  destruct (renames_distinct deltas baseline target hashes Hnd Hb Ht) as [Hnd1 _].
  rewrite (list_to_map_proper (reverse (renames deltas baseline target hashes))
             (reverse (renames deltas' baseline target hashes'))).
  - assert (list_to_set (renames deltas baseline target hashes).*2 =
            (list_to_set (renames deltas' baseline target hashes').*2 : gset string)) as ->.
    { apply set_eq. intros x. rewrite !elem_of_list_to_set. by rewrite Hr. }
    by apply mjoin_fmap_perm.
  - by rewrite fmap_reverse, reverse_Permutation.
  - by rewrite !reverse_Permutation.
Qed.

(** ** The result *)

Lemma of_kind_number kind (f : nat → EntityDelta → EntityDelta) :
  (∀ i d, ed_EntityKind (f i d) = ed_EntityKind d ∧ new_of (f i d) = new_of d ∧
          old_of (f i d) = old_of d) → ∀ ds,
  news (of_kind kind (imap f ds)) = news (of_kind kind ds) ∧
  olds (of_kind kind (imap f ds)) = olds (of_kind kind ds).
Proof.
  intros Hf ds. revert f Hf. induction ds as [|d ds IH]; intros f Hf; [done|].
  rewrite imap_cons. unfold of_kind in *. rewrite !filter_cons.
  destruct (Hf 0 d) as (Hk & Hn & Ho). rewrite Hk.
  destruct (IH (f ∘ S)) as [IHn IHo]; [intros i e; apply (Hf (S i) e)|].
  case_decide; [|done]. by rewrite !news_cons, !olds_cons, Hn, Ho, IHn, IHo.
Qed.

#[export] Instance of_kind_perm kind : Proper ((≡ₚ) ==> (≡ₚ)) (of_kind kind).
Proof. intros l k Hlk. unfold of_kind. by rewrite Hlk. Qed.

#[export] Instance delta_le_trans : Transitive delta_le.
Proof. intros a b c. unfold delta_le. apply (transitivity (R := String.le)). Qed.
#[export] Instance delta_le_total : Total delta_le.
Proof. intros a b. apply (total String.le). Qed.

Section results.
Context `{Sha256, AdapterJson}.

Lemma ComputeBundleDeltas_ok order baseline target deltas :
  ComputeBundleDeltas order baseline target = Ok deltas →
  bundle_closed baseline ∧ bundle_closed target ∧
  deltas = imap number (merge_sort delta_le (unsortedDeltas order baseline target)).
Proof.
  unfold ComputeBundleDeltas. destruct (ValidateBundle baseline) as [[]|] eqn:Hb; [|done].
  destruct (ValidateBundle target) as [[]|] eqn:Ht; [|done]. intros [= <-].
  split_and!; [by apply ValidateBundle_closed..|done].
Qed.

Lemma entityIDs_distinct kind bundle : bundle_closed bundle → NoDup (entityIDs kind bundle).
Proof. intros Hb. unfold entityIDs. repeat case_bool_decide; try apply Hb. constructor. Qed.

Lemma deltaKeys_distinct order baseline target :
  bundle_closed baseline → bundle_closed target → possible_order order baseline target →
  NoDup (deltaKey <$> unsortedDeltas order baseline target).
Proof.
  intros Hb Ht Hpo. set (ds := unsortedDeltas order baseline target).
  assert (NoDup (triple <$> ds)) as Htr.
  { apply triples_distinct. intros kind.
    destruct (unsortedDeltas_account order baseline target kind Hb Ht Hpo) as [Ho Hn].
    fold ds in Ho, Hn. apply pairs_distinct; [rewrite Ho|rewrite Hn]; by apply entityIDs_distinct. }
  assert (Forall named ds) as Hnamed.
  { unfold ds, unsortedDeltas. repeat apply Forall_app_2; try by apply compareLineages_named.
    by apply inferExactFileRenames_named, compareLineages_named. }
  rewrite Forall_forall in Hnamed. apply NoDup_fmap_2_strong; [|by eapply NoDup_fmap_1].
  intros x y Hx Hy Heq. apply (NoDup_key_inj triple ds); [done..|].
  apply deltaKey_triple; auto.
Qed.

(** Nothing is lost between two bundles: whatever order Go visits its maps in,
    for each kind of entity the deltas that are not deletions name every target
    entity exactly once, and the deletions and the predecessors of the others
    name every baseline entity exactly once; ordinals count from zero. *)
Theorem deltas_account order baseline target deltas :
  ComputeBundleDeltas order baseline target = Ok deltas →
  possible_order order baseline target →
  (∀ kind, news (of_kind kind deltas) ≡ₚ entityIDs kind target ∧
           olds (of_kind kind deltas) ≡ₚ entityIDs kind baseline) ∧
  ed_Ordinal <$> deltas = Z.of_nat <$> seq 0 (length deltas).
Proof.
  intros (Hb & Ht & ->)%ComputeBundleDeltas_ok Hpo. split.
  - intros kind.
    destruct (unsortedDeltas_account order baseline target kind Hb Ht Hpo) as [Ho Hn].
    destruct (of_kind_number kind number) with (merge_sort delta_le (unsortedDeltas order baseline target))
      as [-> ->]; [done|].
    by rewrite merge_sort_Permutation, Ho, Hn.
  - set (l := merge_sort _ _). clearbody l. apply list_eq. intros i.
    rewrite !list_lookup_fmap, list_lookup_imap, length_imap.
    destruct (l !! i) as [d|] eqn:Hi; cbn.
    + rewrite lookup_seq_lt by (by eapply lookup_lt_Some). done.
    + rewrite lookup_seq_ge by (by apply lookup_ge_None). done.
Qed.

(** The result is deterministic: all orders in which Go may visit its maps
    give the same deltas, in the same order, with the same ordinals. *)
Theorem deltas_deterministic order order' baseline target :
  possible_order order baseline target → possible_order order' baseline target →
  ComputeBundleDeltas order baseline target = ComputeBundleDeltas order' baseline target.
Proof.
  intros Hpo Hpo'. unfold ComputeBundleDeltas.
  destruct (ValidateBundle baseline) as [[]|] eqn:Hb; [|done].
  destruct (ValidateBundle target) as [[]|] eqn:Ht; [|done]. do 2 f_equal.
  apply ValidateBundle_closed in Hb, Ht.
  assert (unsortedDeltas order baseline target ≡ₚ unsortedDeltas order' baseline target) as Hp.
  { destruct Hpo as [Hf Hs Hr [Hh Hhk]], Hpo' as [Hf' Hs' Hr' [Hh' Hhk']]. unfold unsortedDeltas.
    repeat apply Permutation_app;
      [apply inferExactFileRenames_perm; [| |done|apply Hb|apply Ht]| |];
      try (apply mjoin_fmap_perm; by eapply visits_keys_perm).
    apply NoDup_Permutation; [done..|]. intros h. by rewrite Hhk, Hhk'. }
  apply (StronglySorted_unique_strong delta_le).
  - intros d d'. rewrite !merge_sort_Permutation, <-Hp. intros Hd Hd' Hle Hle'.
    apply (NoDup_key_inj deltaKey (unsortedDeltas order baseline target));
      [by apply deltaKeys_distinct|done|done|]. by apply (anti_symm String.le).
  - apply StronglySorted_merge_sort; apply _.
  - apply StronglySorted_merge_sort; apply _.
  - by rewrite !merge_sort_Permutation.
Qed.
End results.

(** ** Two commits of the sample repository

    [a.go] changed, the other files are the same; every ID differs, since IDs
    contain the commit. *)

Module Commits.
Export Sample.
#[local] Existing Instance demo_sha.
#[local] Existing Instance demo_json.

(** The keys of the four maps in byte order, and in the reverse order. *)
Definition keys {A} (m : gmap string A) : list string := (map_to_list m).*1.
Definition forward : visits := Eval vm_compute in
  mkVisits
    (keys (fileLineages (b_Files baseline) ∪ fileLineages (b_Files target)))
    (keys (symbolLineages (b_Symbols baseline) ∪ symbolLineages (b_Symbols target)))
    (keys (relationLineages baseline ∪ relationLineages target))
    (remove_dups (f_SourceHash <$> b_Files baseline)).
Definition backward : visits :=
  mkVisits (reverse (v_files forward)) (reverse (v_symbols forward))
    (reverse (v_relations forward)) (reverse (v_hashes forward)).

(** A decidable form of [possible_order]. *)
Lemma visits_by_computation keys (m n : gmap string (list lineageVersion)) :
  bool_decide (NoDup keys) && bool_decide ((list_to_set keys : gset string) = dom m ∪ dom n) = true →
  visits_keys keys m n.
Proof.
  rewrite andb_true_iff, !bool_decide_eq_true. intros [Hnd Heq]. split; [done|].
  intros k. rewrite <-(elem_of_list_to_set (C := gset string)), Heq. apply elem_of_union.
Qed.
Lemma hashes_by_computation hashes (files : list FileCard) :
  bool_decide (NoDup hashes) &&
  bool_decide ((list_to_set hashes : gset string) = list_to_set (f_SourceHash <$> files)) = true →
  NoDup hashes ∧ ∀ h, h ∈ hashes ↔ h ∈ (f_SourceHash <$> files).
Proof.
  rewrite andb_true_iff, !bool_decide_eq_true. intros [Hnd Heq]. split; [done|].
  intros h. by rewrite <-(elem_of_list_to_set (C := gset string)), Heq, elem_of_list_to_set.
Qed.

Lemma forward_possible : possible_order forward baseline target.
Proof.
  constructor; [apply visits_by_computation..|apply hashes_by_computation]; vm_compute; reflexivity.
Qed.
Lemma backward_possible : possible_order backward baseline target.
Proof.
  constructor; [apply visits_by_computation..|apply hashes_by_computation]; vm_compute; reflexivity.
Qed.

Definition deltas : list EntityDelta := Eval vm_compute in
  match ComputeBundleDeltas forward baseline target with Ok ds => ds | Err _ => [] end.

Lemma deltas_computed : ComputeBundleDeltas forward baseline target = Ok deltas.
Proof. vm_compute. reflexivity. Qed.

Example deltas_shape :
  length deltas = 8 ∧
  length (filter (λ d, ed_ChangeKind d = "reused") deltas) = 7 ∧
  length (filter (λ d, ed_ChangeKind d = "modified") deltas) = 1.
Proof. vm_compute. done. Qed.

Lemma deltas_account_witness :
  (∀ kind, news (of_kind kind deltas) ≡ₚ entityIDs kind target ∧
           olds (of_kind kind deltas) ≡ₚ entityIDs kind baseline) ∧
  ed_Ordinal <$> deltas = Z.of_nat <$> seq 0 (length deltas).
Proof.
  apply (deltas_account forward baseline target deltas); [exact deltas_computed|exact forward_possible].
Defined.

Lemma deltas_deterministic_witness :
  ComputeBundleDeltas forward baseline target = ComputeBundleDeltas backward baseline target.
Proof.
  apply (deltas_deterministic forward backward baseline target);
    [exact forward_possible|exact backward_possible].
Defined.
End Commits.
