(* ===== verification/RetrievalContracts.v ===== *)
(** * Package [internal/contracts]: retrieval ([retrieval.go])

    Points, queries and results of the governed retrieval, with their validators
    and the fusion of two rank lists. [float64] is the executable IEEE 754
    specification of the Standard Library with the parameters of binary64. *)

From Stdlib Require Import SpecFloat.
From S2P Require Import Prelude GoLib Fault Identity LeasePaths DeliveryContracts IndexCards IndexValidation.

(** ** Floating point *)

Definition float64 : Type := spec_float.
Definition f64_add : float64 → float64 → float64 := SFadd 53 1024.
Definition f64_div : float64 → float64 → float64 := SFdiv 53 1024.
(** [float64(n)] of an [int]. *)
Definition f64_of_int (n : Z) : float64 := binary_normalize 53 1024 n 0 false.
Definition f64_zero : float64 := S754_zero false.

(** [math.IsNaN] and [math.IsInf(_, 0)]. *)
Definition IsNaN (x : float64) : bool := match x with S754_nan => true | _ => false end.
Definition IsInf (x : float64) : bool := match x with S754_infinity _ => true | _ => false end.

(** ** Data *)

Definition RetrievalSchemaVersion : string := "1.0".

(** Indices are [uint32]. *)
Record SparseVector := mkSparse { sv_Indices : list Z; sv_Values : list float64 }.

Record EmbeddingDescriptor := mkDescriptor {
  em_Model : string;
  em_Version : string;
  em_Dimensions : Z;
  em_SparseEncoderVersion : string;
  em_EmbeddedAt : Time;
}.

Record RetrievalPoint := mkPoint {
  pt_PointID : string;
  pt_SchemaVersion : string;
  pt_CollectionGeneration : string;
  pt_TenantID : string;
  pt_RepositoryID : string;
  pt_EntityID : string;
  pt_ArtifactFamily : string;
  pt_SourceCommit : option string;
  pt_SourceHash : string;
  pt_CardText : string;
  pt_CardTextHash : string;
  pt_Status : string;
  pt_AuthorityClass : string;
  pt_Stale : bool;
  pt_Language : option string;
  pt_SymbolKind : option string;
  pt_RepositoryPath : option string;
  pt_ProofRefs : list string;
  pt_GraphNodeIDs : list string;
  pt_Dense : list float64;
  pt_Sparse : SparseVector;
  pt_Embedding : EmbeddingDescriptor;
}.

Record RetrievalScope := mkScope {
  sc_SourceCommit : string;
  sc_AllowedPaths : list string;
  sc_DeniedPaths : list string;
}.

Record RetrievalFilters := mkFilters {
  fl_ArtifactFamilies : list string;
  fl_AuthorityClasses : list string;
  fl_Languages : list string;
  fl_SymbolKinds : list string;
}.

Record RetrievalPolicy := mkPolicy {
  po_Limit : Z;
  po_DenseLimit : Z;
  po_SparseLimit : Z;
  po_DenseWeight : float64;
  po_SparseWeight : float64;
  po_RRFK : Z;
}.

Record RetrievalQuery := mkQuery {
  qy_RequestID : string;
  qy_SchemaVersion : string;
  qy_TenantID : string;
  qy_RepositoryID : string;
  qy_Query : string;
  qy_Scope : RetrievalScope;
  qy_Filters : RetrievalFilters;
  qy_Policy : RetrievalPolicy;
  qy_ExpectedGeneration : option string;
}.

Record RetrievalCandidate := mkCandidate {
  cd_PointID : string;
  cd_EntityID : string;
  cd_ArtifactFamily : string;
  cd_SourceCommit : option string;
  cd_SourceHash : string;
  cd_AuthorityClass : string;
  cd_RepositoryPath : option string;
  cd_DenseRank : option Z;
  cd_SparseRank : option Z;
  cd_FusedScore : float64;
  cd_ProofRefs : list string;
}.

Record RetrievalRejection := mkRejection { rj_PointID : string; rj_Reason : string }.
Record RetrievalAmbiguity := mkAmbiguity { am_PointID : string; am_AlternativeEntityIDs : list string }.

Record RetrievalReceipt := mkRetrievalReceipt {
  re_DenseCandidates : Z;
  re_SparseCandidates : Z;
  re_FusedCandidates : Z;
  re_ResolvedCandidates : Z;
  re_RejectedCandidates : Z;
  re_PolicyHash : string;
}.

Record RetrievalResult := mkResult {
  rl_RequestID : string;
  rl_SchemaVersion : string;
  rl_Status : string;
  rl_ProjectionFreshness : string;
  rl_ProjectionLagEvents : Z;
  rl_CollectionGeneration : option string;
  rl_Accepted : list RetrievalCandidate;
  rl_Rejections : list RetrievalRejection;
  rl_Ambiguities : list RetrievalAmbiguity;
  rl_Gaps : list string;
  rl_Receipt : RetrievalReceipt;
}.

(** ** Patterns *)

Definition retrievalPointIDPattern : list class := cl_lit "retrieval_" ++ hex64.
Definition retrievalGenerationIDPattern : list class := cl_lit "retrieval_generation_" ++ hex64.
Definition retrievalTenantIDPattern : list class := cl_lit "tenant_" ++ uuid_pattern.
Definition retrievalRepositoryIDPattern : list class := cl_lit "repo_" ++ uuid_pattern.
Definition retrievalContentHashPattern : list class := cl_lit "sha256:" ++ hex64.

(** [^<prefix>[A-Za-z0-9_-]{1,200}$]. *)
Definition word_after (prefix s : string) : bool :=
  match strip_prefix prefix s with
  | Some rest => bool_decide (1 ≤ String.length rest ≤ 200) && forallb cl_word (String.list_ascii_of_string rest)
  | None => false
  end.
Definition retrievalRequestIDPattern (s : string) : bool := word_after "retrieval_request_" s.
Definition retrievalEntityIDPattern (s : string) : bool :=
  existsb (λ prefix, word_after prefix s)
    ["symbol_"; "file_"; "artifact_"; "memory_"; "decision_"; "test_"; "incident_"].
(** [^[a-f0-9]{40,64}$]. *)
Definition retrievalSourceCommitPattern (s : string) : bool := gitObjectPattern s.

Definition retrievalAuthorityClasses : list string := ["canonical"; "supporting"; "candidate"].
Definition retrievalArtifactFamilies : list string := ["symbol"; "decision"; "test"; "memory"; "incident"].
Definition retrievalProjectionFreshness : list string := ["fresh"; "stale"; "unknown"].
Definition retrievalResultStatuses : list string := ["complete"; "degraded"; "blocked"].
Definition retrievalPointStatuses : list string := ["active"; "superseded"; "tombstoned"].
Definition known (allowed : list string) (value : string) : bool := bool_decide (value ∈ allowed).

Definition IsRetrievalGenerationID (value : string) : bool := match_classes retrievalGenerationIDPattern value.
Definition IsRetrievalPointID (value : string) : bool := match_classes retrievalPointIDPattern value.
Definition IsRetrievalEntityID (value : string) : bool := retrievalEntityIDPattern value.

Definition RetrievalFamilyRequiresSourceCommit (family : string) : bool :=
  bool_decide (family = "symbol") || bool_decide (family = "test").

Definition RetrievalScopeCoversRepository (scope : RetrievalScope) : bool :=
  bool_decide ("**" ∈ sc_AllowedPaths scope) && bool_decide (sc_DeniedPaths scope = []).

(** ** Helpers *)

Definition count {A} (l : list A) : Z := Z.of_nat (length l).
Definition blank (s : string) : bool := bool_decide (TrimSpace s = "").

(** A loop over values that were not seen before: [bad] refuses a value, [again] a
    repeated one. *)
Definition distinct (bad : string → bool) (badErr againErr : error) (values : list string) : result (gset string) :=
  loop (λ seen value,
    _ ← fail_if (bad value) badErr;
    _ ← fail_if (bool_decide (value ∈ seen)) againErr;
    Ok ({[value]} ∪ seen)) ∅ values.

Definition validateUniqueBoundedStrings (values : list string) (maximumCount maximumLength : Z) (label : string)
    : result unit :=
  _ ← fail_if (maximumCount <? count values)%Z (ErrorString (Sprintf "%s exceed the maximum count" [label]));
  _ ← distinct (λ value, blank value || (maximumLength <? len value)%Z)
        (ErrorString (Sprintf "%s contain an invalid value" [label]))
        (ErrorString (Sprintf "%s contain duplicates" [label])) values;
  Ok tt.

Definition allKnownUnique (values allowed : list string) : bool :=
  is_ok (distinct (λ value, negb (known allowed value)) (plain_error "") (plain_error "") values).

Definition uniqueRetrievalEntityIDs (values : list string) : bool :=
  is_ok (distinct (λ value, negb (retrievalEntityIDPattern value)) (plain_error "") (plain_error "") values).

Definition validateOptionalBoundedString (value : option string) (maximum : Z) (label : string) : result unit :=
  match value with
  | None => Ok tt
  | Some value =>
      fail_if (blank value || (maximum <? len value)%Z) (ErrorString (Sprintf "retrieval %s is invalid" [label]))
  end.

Definition validRetrievalPath (value : string) : bool :=
  if bool_decide (value = "**") then true
  else if blank value || (4096 <? len value)%Z || HasPrefix value "/" || contains_byte (chr 92) value then false
  else
    let clean := Clean value in
    bool_decide (clean = value) && negb (bool_decide (clean = ".")) && negb (bool_decide (clean = "..")) &&
    negb (HasPrefix clean "../").

Definition validateOptionalRepositoryPath (value : option string) : result unit :=
  match value with
  | None => Ok tt
  | Some value =>
      fail_if (negb (validRetrievalPath value) || bool_decide (value = "**"))
        (plain_error "retrieval repository path is invalid")
  end.

Definition validRejectionReason (reason : string) : bool :=
  known ["unauthorized_scope"; "missing_canonical_entity"; "ambiguous_identity"; "source_hash_mismatch";
         "source_commit_mismatch"; "inactive_source"; "stale_projection"; "malformed_candidate"; "duplicate_entity"]
    reason.

(** ** Policies, filters and scopes *)

Definition validateRetrievalPolicy (policy : RetrievalPolicy) : result unit :=
  let ten := f64_of_int 10 in
  let dense := po_DenseWeight policy in
  let sparse := po_SparseWeight policy in
  fail_if ((po_Limit policy <? 1)%Z || (100 <? po_Limit policy)%Z ||
           (po_DenseLimit policy <? po_Limit policy)%Z || (200 <? po_DenseLimit policy)%Z ||
           (po_SparseLimit policy <? po_Limit policy)%Z || (200 <? po_SparseLimit policy)%Z ||
           (po_RRFK policy <? 1)%Z || (1000 <? po_RRFK policy)%Z ||
           SFltb dense f64_zero || SFltb ten dense || SFltb sparse f64_zero || SFltb ten sparse ||
           IsNaN dense || IsInf dense || IsNaN sparse || IsInf sparse ||
           (SFeqb dense f64_zero && SFeqb sparse f64_zero))
    (plain_error "retrieval policy is invalid").

Definition validateRetrievalFilters (filters : RetrievalFilters) : result unit :=
  _ ← fail_if (bool_decide (fl_ArtifactFamilies filters = []) || (5 <? count (fl_ArtifactFamilies filters))%Z ||
               bool_decide (fl_AuthorityClasses filters = []) || (3 <? count (fl_AuthorityClasses filters))%Z ||
               (32 <? count (fl_Languages filters))%Z || (64 <? count (fl_SymbolKinds filters))%Z)
        (plain_error "retrieval filters are out of bounds");
  _ ← fail_if (negb (allKnownUnique (fl_ArtifactFamilies filters) retrievalArtifactFamilies) ||
               negb (allKnownUnique (fl_AuthorityClasses filters) retrievalAuthorityClasses))
        (plain_error "retrieval filters contain invalid values");
  _ ← validateUniqueBoundedStrings (fl_Languages filters) 32 80 "retrieval languages";
  validateUniqueBoundedStrings (fl_SymbolKinds filters) 64 80 "retrieval symbol kinds".

Definition retrievalFiltersIncludeRepositoryGlobalFamily (filters : RetrievalFilters) : bool :=
  existsb (λ family, negb (RetrievalFamilyRequiresSourceCommit family)) (fl_ArtifactFamilies filters).

Definition validateScopePaths (scope : RetrievalScope) : result unit :=
  _ ← fail_if (bool_decide (sc_AllowedPaths scope = []) || (256 <? count (sc_AllowedPaths scope))%Z ||
               (256 <? count (sc_DeniedPaths scope))%Z)
        (plain_error "retrieval scope paths are out of bounds");
  _ ← distinct (λ item, negb (validRetrievalPath item)) (plain_error "retrieval scope contains an invalid path")
        (plain_error "retrieval scope contains duplicate paths") (sc_AllowedPaths scope ++ sc_DeniedPaths scope);
  Ok tt.

Definition ValidateRetrievalQuery (query : RetrievalQuery) : result unit :=
  _ ← fail_if (negb (bool_decide (qy_SchemaVersion query = RetrievalSchemaVersion)) ||
               negb (retrievalRequestIDPattern (qy_RequestID query)))
        (plain_error "retrieval query identity is invalid");
  _ ← fail_if (negb (match_classes retrievalTenantIDPattern (qy_TenantID query)) ||
               negb (match_classes retrievalRepositoryIDPattern (qy_RepositoryID query)) ||
               blank (qy_Query query) || (16384 <? len (qy_Query query))%Z)
        (plain_error "retrieval query scope or text is invalid");
  _ ← fail_if (negb (retrievalSourceCommitPattern (sc_SourceCommit (qy_Scope query))))
        (plain_error "retrieval query source commit is invalid");
  _ ← validateScopePaths (qy_Scope query);
  _ ← validateRetrievalFilters (qy_Filters query);
  _ ← fail_if (retrievalFiltersIncludeRepositoryGlobalFamily (qy_Filters query) &&
               negb (RetrievalScopeCoversRepository (qy_Scope query)))
        (plain_error "repository-global retrieval requires an unrestricted repository scope");
  _ ← validateRetrievalPolicy (qy_Policy query);
  fail_if (match qy_ExpectedGeneration query with
           | Some generation => negb (match_classes retrievalGenerationIDPattern generation)
           | None => false
           end)
    (plain_error "retrieval query expected generation is invalid").

(** ** Points and candidates *)

Definition validateEmbedding (dense : list float64) (sparse : SparseVector) (descriptor : EmbeddingDescriptor)
    : result unit :=
  _ ← fail_if (blank (em_Model descriptor) || (200 <? len (em_Model descriptor))%Z ||
               blank (em_Version descriptor) || (160 <? len (em_Version descriptor))%Z ||
               blank (em_SparseEncoderVersion descriptor) || (160 <? len (em_SparseEncoderVersion descriptor))%Z ||
               (em_Dimensions descriptor <? 1)%Z || (4096 <? em_Dimensions descriptor)%Z ||
               IsZero (em_EmbeddedAt descriptor))
        (plain_error "embedding descriptor is invalid");
  _ ← fail_if (negb (count dense =? em_Dimensions descriptor)%Z)
        (plain_error "dense vector dimensions do not match descriptor");
  _ ← fail_if (existsb (λ value, IsNaN value || IsInf value) dense)
        (plain_error "dense vector contains a non-finite value");
  _ ← fail_if (bool_decide (sv_Indices sparse = []) || negb (count (sv_Indices sparse) =? count (sv_Values sparse))%Z ||
               (8192 <? count (sv_Indices sparse))%Z)
        (plain_error "sparse vector shape is invalid");
  _ ← loop (λ previous '(index, value),
        _ ← fail_if (SFleb value f64_zero || IsNaN value || IsInf value)
              (plain_error "sparse vector contains an invalid value");
        _ ← fail_if (match previous with Some previous => (index <=? previous)%Z | None => false end)
              (plain_error "sparse vector indices must be strictly ascending");
        Ok (Some index)) None (combine (sv_Indices sparse) (sv_Values sparse));
  Ok tt.

(** A family either belongs to a commit or to the whole repository. *)
Definition commit_of_family (family : string) (commit : option string) (missing surplus : string) : result unit :=
  _ ← fail_if (RetrievalFamilyRequiresSourceCommit family && bool_decide (commit = None)) (plain_error missing);
  fail_if (negb (RetrievalFamilyRequiresSourceCommit family) && bool_decide (is_Some commit)) (plain_error surplus).
Definition commit_valid (commit : option string) (m : string) : result unit :=
  fail_if (match commit with Some commit => negb (retrievalSourceCommitPattern commit) | None => false end)
    (plain_error m).

Definition rank_valid (rank : option Z) (m : string) : result unit :=
  fail_if (match rank with Some rank => (rank <? 1)%Z || (200 <? rank)%Z | None => false end) (plain_error m).

Definition validateRetrievalCandidate (candidate : RetrievalCandidate) : result unit :=
  let score := cd_FusedScore candidate in
  _ ← fail_if (negb (match_classes retrievalPointIDPattern (cd_PointID candidate)) ||
               negb (retrievalEntityIDPattern (cd_EntityID candidate)) ||
               negb (match_classes retrievalContentHashPattern (cd_SourceHash candidate)) ||
               SFleb score f64_zero || IsNaN score || IsInf score)
        (plain_error "retrieval candidate is invalid");
  _ ← fail_if (negb (known retrievalArtifactFamilies (cd_ArtifactFamily candidate)))
        (plain_error "retrieval candidate artifact family is invalid");
  _ ← fail_if (negb (known retrievalAuthorityClasses (cd_AuthorityClass candidate)))
        (plain_error "retrieval candidate authority class is invalid");
  _ ← commit_valid (cd_SourceCommit candidate) "retrieval candidate source commit is invalid";
  _ ← commit_of_family (cd_ArtifactFamily candidate) (cd_SourceCommit candidate)
        "source-bound retrieval candidate requires a source commit"
        "repository-global retrieval candidate must not carry a source commit";
  _ ← rank_valid (cd_DenseRank candidate) "retrieval candidate dense rank is invalid";
  _ ← rank_valid (cd_SparseRank candidate) "retrieval candidate sparse rank is invalid";
  _ ← fail_if (bool_decide (cd_DenseRank candidate = None) && bool_decide (cd_SparseRank candidate = None))
        (plain_error "retrieval candidate has no rank evidence");
  _ ← validateOptionalRepositoryPath (cd_RepositoryPath candidate);
  validateUniqueBoundedStrings (cd_ProofRefs candidate) 256 512 "candidate proof references".

(** The JSON of a policy. *)
Class RetrievalJson := { policy_json : RetrievalPolicy → result string }.

Section identities.
Context `{Sha256}.

Definition StableRetrievalID (prefix : string) (components : list string) : string :=
  prefix +:+ "_" +:+ hexText (Sum256 ("forja-retrieval-id-v1" +:+ NUL +:+ prefix +:+
    foldr (λ component rest, NUL +:+ component +:+ rest) "" components)).

Definition RetrievalGenerationID (model version : string) (dimensions : Z) (sparseVersion : string) : string :=
  StableRetrievalID "retrieval_generation"
    [RetrievalSchemaVersion; TrimSpace model; TrimSpace version; pretty dimensions; TrimSpace sparseVersion].

Definition RetrievalPointID (generation entityID sourceHash : string) : string :=
  StableRetrievalID "retrieval" [generation; entityID; sourceHash].

Definition CardTextHash (text : string) : string := "sha256:" +:+ hexText (Sum256 text).

Definition RetrievalPolicyHash `{RetrievalJson} (policy : RetrievalPolicy) : result string :=
  _ ← validateRetrievalPolicy policy;
  encoded ← wrapped "marshal retrieval policy: %w" (policy_json policy);
  Ok ("sha256:" +:+ hexText (Sum256 encoded)).

Definition ValidateRetrievalPoint (point : RetrievalPoint) : result unit :=
  _ ← fail_if (negb (bool_decide (pt_SchemaVersion point = RetrievalSchemaVersion)))
        (ErrorString (Sprintf "retrieval point schema version must be %q" [RetrievalSchemaVersion]));
  _ ← fail_if (negb (match_classes retrievalPointIDPattern (pt_PointID point)) ||
               negb (match_classes retrievalGenerationIDPattern (pt_CollectionGeneration point)) ||
               negb (match_classes retrievalTenantIDPattern (pt_TenantID point)) ||
               negb (match_classes retrievalRepositoryIDPattern (pt_RepositoryID point)))
        (plain_error "retrieval point has invalid stable identifiers");
  _ ← fail_if (negb (retrievalEntityIDPattern (pt_EntityID point))) (plain_error "retrieval point identity is invalid");
  _ ← fail_if (negb (known retrievalArtifactFamilies (pt_ArtifactFamily point)))
        (plain_error "retrieval point artifact family is invalid");
  _ ← commit_of_family (pt_ArtifactFamily point) (pt_SourceCommit point)
        "source-bound retrieval point requires a source commit"
        "repository-global retrieval point must not carry a source commit";
  _ ← commit_valid (pt_SourceCommit point) "retrieval point source commit is invalid";
  _ ← fail_if (negb (match_classes retrievalContentHashPattern (pt_SourceHash point)) ||
               negb (match_classes retrievalContentHashPattern (pt_CardTextHash point)) ||
               negb (bool_decide (pt_CardTextHash point = CardTextHash (pt_CardText point))))
        (plain_error "retrieval point card hash is invalid");
  _ ← fail_if (bool_decide (pt_CardText point = "") || (32768 <? len (pt_CardText point))%Z)
        (plain_error "retrieval point card text is out of bounds");
  _ ← fail_if (negb (known retrievalPointStatuses (pt_Status point))) (plain_error "retrieval point status is invalid");
  _ ← fail_if (negb (known retrievalAuthorityClasses (pt_AuthorityClass point)))
        (plain_error "retrieval point authority class is invalid");
  _ ← validateOptionalBoundedString (pt_Language point) 80 "language";
  _ ← validateOptionalBoundedString (pt_SymbolKind point) 80 "symbol kind";
  _ ← validateOptionalRepositoryPath (pt_RepositoryPath point);
  _ ← validateUniqueBoundedStrings (pt_ProofRefs point) 256 512 "proof references";
  _ ← validateUniqueBoundedStrings (pt_GraphNodeIDs point) 256 256 "graph node IDs";
  _ ← validateEmbedding (pt_Dense point) (pt_Sparse point) (pt_Embedding point);
  fail_if (negb (bool_decide (pt_PointID point =
             RetrievalPointID (pt_CollectionGeneration point) (pt_EntityID point) (pt_SourceHash point))))
    (plain_error "retrieval point ID does not bind generation, entity, and source hash").

(** ** Results *)

Definition accepted_entities (accepted : list RetrievalCandidate) : result (gset string) :=
  loop (λ seenEntities candidate,
    _ ← validateRetrievalCandidate candidate;
    _ ← fail_if (bool_decide (cd_EntityID candidate ∈ seenEntities))
          (ErrorString (Sprintf "retrieval result contains duplicate entity %q" [cd_EntityID candidate]));
    Ok ({[cd_EntityID candidate]} ∪ seenEntities)) ∅ accepted.

Definition ambiguous_rejections (rejections : list RetrievalRejection) : result (gset string) :=
  loop (λ ambiguous rejection,
    _ ← fail_if (negb (match_classes retrievalPointIDPattern (rj_PointID rejection)) ||
                 negb (validRejectionReason (rj_Reason rejection)))
          (plain_error "retrieval rejection is invalid");
    Ok (if bool_decide (rj_Reason rejection = "ambiguous_identity") then {[rj_PointID rejection]} ∪ ambiguous
        else ambiguous)) ∅ rejections.

Definition validateAmbiguities (ambiguous : gset string) (ambiguities : list RetrievalAmbiguity) : result (gset string) :=
  loop (λ seen ambiguity,
    let alternatives := am_AlternativeEntityIDs ambiguity in
    _ ← fail_if (negb (match_classes retrievalPointIDPattern (am_PointID ambiguity)) ||
                 (count alternatives <? 2)%Z || (16 <? count alternatives)%Z || negb (IsSorted alternatives) ||
                 negb (uniqueRetrievalEntityIDs alternatives))
          (plain_error "retrieval ambiguity is invalid");
    _ ← fail_if (negb (bool_decide (am_PointID ambiguity ∈ ambiguous)))
          (plain_error "retrieval ambiguity lacks an ambiguous rejection");
    _ ← fail_if (bool_decide (am_PointID ambiguity ∈ seen)) (plain_error "retrieval ambiguity duplicates a point");
    Ok ({[am_PointID ambiguity]} ∪ seen)) ∅ ambiguities.

Definition ValidateRetrievalResult `{RetrievalJson} (query : RetrievalQuery) (result : RetrievalResult)
    : Fault.result unit :=
  let policy := qy_Policy query in
  let receipt := rl_Receipt result in
  let lag := rl_ProjectionLagEvents result in
  _ ← wrapped "validate retrieval query: %w" (ValidateRetrievalQuery query);
  _ ← fail_if (negb (bool_decide (rl_SchemaVersion result = RetrievalSchemaVersion)) ||
               negb (bool_decide (rl_RequestID result = qy_RequestID query)))
        (plain_error "retrieval result does not bind the request");
  _ ← fail_if (negb (known retrievalResultStatuses (rl_Status result))) (plain_error "retrieval result status is invalid");
  _ ← fail_if (negb (known retrievalProjectionFreshness (rl_ProjectionFreshness result)))
        (plain_error "retrieval projection freshness is invalid");
  _ ← fail_if ((lag <? 0)%Z || (1000000 <? lag)%Z ||
               (bool_decide (rl_ProjectionFreshness result = "fresh") && negb (lag =? 0)%Z) ||
               (bool_decide (rl_ProjectionFreshness result = "stale") && (lag =? 0)%Z))
        (plain_error "retrieval projection lag is invalid");
  _ ← fail_if (match rl_CollectionGeneration result with
               | Some generation => negb (match_classes retrievalGenerationIDPattern generation)
               | None => false
               end)
        (plain_error "retrieval result collection generation is invalid");
  _ ← fail_if ((po_Limit policy <? count (rl_Accepted result))%Z || (400 <? count (rl_Rejections result))%Z ||
               (400 <? count (rl_Ambiguities result))%Z || (64 <? count (rl_Gaps result))%Z)
        (plain_error "retrieval result exceeds bounded output");
  _ ← fail_if ((po_DenseLimit policy <? re_DenseCandidates receipt)%Z ||
               (po_SparseLimit policy <? re_SparseCandidates receipt)%Z ||
               (wrap64 (po_DenseLimit policy + po_SparseLimit policy) <? re_FusedCandidates receipt)%Z ||
               negb (re_ResolvedCandidates receipt =? count (rl_Accepted result))%Z ||
               negb (re_RejectedCandidates receipt =? count (rl_Rejections result))%Z)
        (plain_error "retrieval receipt counts are inconsistent");
  _ ← fail_if (match RetrievalPolicyHash policy with
               | Ok policyHash => negb (bool_decide (re_PolicyHash receipt = policyHash))
               | Err _ => true
               end)
        (plain_error "retrieval receipt policy hash is invalid");
  _ ← accepted_entities (rl_Accepted result);
  ambiguous ← ambiguous_rejections (rl_Rejections result);
  _ ← validateAmbiguities ambiguous (rl_Ambiguities result);
  validateUniqueBoundedStrings (rl_Gaps result) 64 512 "retrieval gaps".
End identities.
