(* ===== verification/Retrieval.v ===== *)
(** * Package [internal/retrieval]: governed search ([query.go], [resolver.go])

    A search asks a vector store for candidates, fuses two rank lists, and lets the
    canonical records decide which candidate may be used. The rank fusion of
    [contracts/retrieval.go] and the prefilter of [qdrant.go] are here as well. *)

From Stdlib Require Import Ascii SpecFloat.
From S2P Require Import Prelude GoLib Fault Identity LeasePaths Postgres DeliveryContracts IndexCards IndexValidation.
From S2P Require Import RetrievalContracts.

(** ** Rank fusion *)

(** The order in which Go visits a map of candidates. *)
Class CandidateVisits := visit_candidates : list RetrievalCandidate → list RetrievalCandidate.
Class CandidateVisitsAll `{CandidateVisits} := visit_candidates_perm : ∀ l, visit_candidates l ≡ₚ l.

(** One entry of a rank list: the score grows by [weight / float64(RRFK+rank)]. *)
Definition ranked (weight : float64) (rrfk : Z) (isDense : bool) (rank : Z) (c : RetrievalCandidate)
    : RetrievalCandidate :=
  mkCandidate (cd_PointID c) (cd_EntityID c) (cd_ArtifactFamily c) (cd_SourceCommit c) (cd_SourceHash c)
    (cd_AuthorityClass c) (cd_RepositoryPath c)
    (if isDense then Some rank else cd_DenseRank c) (if isDense then cd_SparseRank c else Some rank)
    (f64_add (cd_FusedScore c) (f64_div weight (f64_of_int (wrap64 (rrfk + rank))))) (cd_ProofRefs c).

(** [sort.Slice] by descending score; [ties] decides between equal scores. *)
Definition before (ties : RetrievalCandidate → RetrievalCandidate → bool) (left right : RetrievalCandidate) : bool :=
  if negb (SFeqb (cd_FusedScore left) (cd_FusedScore right))
  then SFltb (cd_FusedScore right) (cd_FusedScore left)
  else ties left right.
Definition not_after (ties : RetrievalCandidate → RetrievalCandidate → bool) (left right : RetrievalCandidate) : Prop :=
  before ties right left = false.
#[export] Instance not_after_dec ties left right : base.Decision (not_after ties left right).
Proof. unfold not_after. apply _. Defined.

Definition string_lt (s t : string) : bool := bool_decide (s ≠ t) && bool_decide (String.le s t).
Definition by_point (left right : RetrievalCandidate) : bool := string_lt (cd_PointID left) (cd_PointID right).
Definition by_entity (left right : RetrievalCandidate) : bool :=
  if negb (bool_decide (cd_EntityID left = cd_EntityID right)) then string_lt (cd_EntityID left) (cd_EntityID right)
  else by_point left right.

(** The candidates of a map, sorted and cut off. *)
Definition best `{CandidateVisits} (ties : RetrievalCandidate → RetrievalCandidate → bool) (limit : Z)
    (entries : gmap string RetrievalCandidate) : list RetrievalCandidate :=
  take (Z.to_nat limit) (merge_sort (not_after ties) (visit_candidates (map_to_list entries).*2)).

(** The variables of [fuseCandidateRanks] and of its inner loop. *)
Record fusing := mkFusing {
  fu_entries : gmap string RetrievalCandidate;
  fu_rejections : list RetrievalRejection;
}.

Definition conflicting (entry candidate : RetrievalCandidate) : bool :=
  negb (bool_decide (cd_EntityID entry = cd_EntityID candidate)) ||
  negb (bool_decide (cd_SourceHash entry = cd_SourceHash candidate)) ||
  negb (bool_decide (cd_ArtifactFamily entry = cd_ArtifactFamily candidate)).

Definition fuse_candidate (weight : float64) (rrfk : Z) (isDense : bool) (st : gset string * fusing)
    (item : nat * RetrievalCandidate) : gset string * fusing :=
  let '(seen, f) := st in
  let '(index, candidate) := item in
  let id := cd_PointID candidate in
  let malformed := fu_rejections f ++ [mkRejection id "malformed_candidate"] in
  if bool_decide (id = "") then (seen, f)
  else if bool_decide (id ∈ seen) then (seen, mkFusing (fu_entries f) malformed)
  else
    let seen := {[id]} ∪ seen in
    let rank := Z.of_nat (S index) in
    let store entry := mkFusing (<[id := ranked weight rrfk isDense rank entry]> (fu_entries f)) (fu_rejections f) in
    match fu_entries f !! id with
    | None => (seen, store candidate)
    | Some entry =>
        if conflicting entry candidate then (seen, mkFusing (delete id (fu_entries f)) malformed)
        else (seen, store entry)
    end.

Definition apply_ranks (weight : float64) (rrfk : Z) (isDense : bool) (values : list RetrievalCandidate) (f : fusing)
    : fusing :=
  if SFeqb weight f64_zero then f
  else (foldl (fuse_candidate weight rrfk isDense) (∅, f) (imap pair values)).2.

Definition fuseCandidateRanks `{CandidateVisits} (dense sparse : list RetrievalCandidate) (policy : RetrievalPolicy)
    : list RetrievalCandidate * list RetrievalRejection :=
  let f := apply_ranks (po_SparseWeight policy) (po_RRFK policy) false sparse
             (apply_ranks (po_DenseWeight policy) (po_RRFK policy) true dense (mkFusing ∅ [])) in
  (best by_point (po_Limit policy) (fu_entries f), fu_rejections f).

Section points.
Context `{Sha256}.

Definition candidate_of_point (point : RetrievalPoint) : RetrievalCandidate :=
  mkCandidate (pt_PointID point) (pt_EntityID point) (pt_ArtifactFamily point) (pt_SourceCommit point)
    (pt_SourceHash point) (pt_AuthorityClass point) (pt_RepositoryPath point) None None f64_zero (pt_ProofRefs point).

Definition fuse_point (weight : float64) (rrfk : Z) (isDense : bool)
    (st : gset string * gmap string RetrievalCandidate) (item : nat * RetrievalPoint)
    : result (gset string * gmap string RetrievalCandidate) :=
  let '(seen, scores) := st in
  let '(index, point) := item in
  let id := pt_PointID point in
  _ ← ValidateRetrievalPoint point;
  _ ← fail_if (bool_decide (id ∈ seen))
        (ErrorString (Sprintf "retrieval rank list contains duplicate point %q" [id]));
  entry ← match scores !! id with
          | None => Ok (candidate_of_point point)
          | Some entry =>
              _ ← fail_if (negb (bool_decide (cd_EntityID entry = pt_EntityID point)) ||
                           negb (bool_decide (cd_SourceHash entry = pt_SourceHash point)))
                    (plain_error "retrieval point identity conflicts across rank lists");
              Ok entry
          end;
  Ok ({[id]} ∪ seen, <[id := ranked weight rrfk isDense (Z.of_nat (S index)) entry]> scores).

Definition apply_points (weight : float64) (rrfk : Z) (isDense : bool) (points : list RetrievalPoint)
    (scores : gmap string RetrievalCandidate) : result (gmap string RetrievalCandidate) :=
  if SFeqb weight f64_zero then Ok scores
  else st ← loop (fuse_point weight rrfk isDense) (∅, scores) (imap pair points); Ok st.2.

Definition FuseRetrievalRanks `{CandidateVisits} (dense sparse : list RetrievalPoint) (policy : RetrievalPolicy)
    : result (list RetrievalCandidate) :=
  _ ← validateRetrievalPolicy policy;
  _ ← fail_if ((po_DenseLimit policy <? count dense)%Z || (po_SparseLimit policy <? count sparse)%Z)
        (plain_error "retrieval rank list exceeds policy limit");
  scores ← apply_points (po_DenseWeight policy) (po_RRFK policy) true dense ∅;
  scores ← apply_points (po_SparseWeight policy) (po_RRFK policy) false sparse scores;
  Ok (best by_entity (po_Limit policy) scores).
End points.

(** ** Canonical resolution *)

Record CanonicalCandidate := mkCanonical {
  cn_PointID : string;
  cn_CollectionGeneration : string;
  cn_TenantID : string;
  cn_RepositoryID : string;
  cn_EntityID : string;
  cn_ArtifactFamily : string;
  cn_SourceCommit : option string;
  cn_SourceHash : string;
  cn_Status : string;
  cn_AuthorityClass : string;
  cn_Stale : bool;
  cn_Language : option string;
  cn_SymbolKind : option string;
  cn_RepositoryPath : option string;
  cn_ProofRefs : list string;
}.

Definition contains (values : list string) (expected : string) : bool := bool_decide (expected ∈ values).

(** [strings.TrimSuffix]. *)
Fixpoint TrimSuffix (s suffix : string) : string :=
  if bool_decide (s = suffix) then ""
  else match s with "" => "" | String c s' => String c (TrimSuffix s' suffix) end.

Definition pathMatchesScope (repositoryPath scope : string) : bool :=
  if bool_decide (scope = "**") then true
  else
    let prefix := TrimSuffix scope "/**" in
    bool_decide (repositoryPath = prefix) || HasPrefix repositoryPath (prefix +:+ "/").

Definition pathInScope (repositoryPath : option string) (scope : RetrievalScope) : bool :=
  match repositoryPath with
  | None => RetrievalScopeCoversRepository scope
  | Some repositoryPath =>
      let value := Clean repositoryPath in
      existsb (pathMatchesScope value) (sc_AllowedPaths scope) &&
      negb (existsb (pathMatchesScope value) (sc_DeniedPaths scope))
  end.

Definition matchesSourceScope (query : RetrievalQuery) (candidate : CanonicalCandidate) : bool :=
  if RetrievalFamilyRequiresSourceCommit (cn_ArtifactFamily candidate)
  then bool_decide (cn_SourceCommit candidate = Some (sc_SourceCommit (qy_Scope query)))
  else bool_decide (cn_SourceCommit candidate = None) && RetrievalScopeCoversRepository (qy_Scope query).

(** An optional filter: no values, or one of them. *)
Definition passes (values : list string) (value : option string) : bool :=
  bool_decide (values = []) || match value with Some value => contains values value | None => false end.

Definition generation_differs (query : RetrievalQuery) (canonical : CanonicalCandidate) : bool :=
  match qy_ExpectedGeneration query with
  | Some generation => negb (bool_decide (cn_CollectionGeneration canonical = generation))
  | None => false
  end.

(** The empty string is no reason. *)
Definition authorizeCanonicalCandidate (query : RetrievalQuery) (ranked : RetrievalCandidate)
    (canonical : CanonicalCandidate) : string :=
  let filters := qy_Filters query in
  if negb (bool_decide (cn_PointID canonical = cd_PointID ranked)) ||
     negb (bool_decide (cn_EntityID canonical = cd_EntityID ranked)) ||
     negb (bool_decide (cn_SourceHash canonical = cd_SourceHash ranked)) ||
     negb (bool_decide (cn_ArtifactFamily canonical = cd_ArtifactFamily ranked)) ||
     negb (bool_decide (cn_AuthorityClass canonical = cd_AuthorityClass ranked))
  then "source_hash_mismatch"
  else if negb (bool_decide (cn_TenantID canonical = qy_TenantID query)) ||
          negb (bool_decide (cn_RepositoryID canonical = qy_RepositoryID query)) then "unauthorized_scope"
  else if generation_differs query canonical then "stale_projection"
  else if negb (bool_decide (cn_Status canonical = "active")) then "inactive_source"
  else if cn_Stale canonical then "stale_projection"
  else if negb (matchesSourceScope query canonical) then "source_commit_mismatch"
  else if negb (contains (fl_ArtifactFamilies filters) (cn_ArtifactFamily canonical)) ||
          negb (contains (fl_AuthorityClasses filters) (cn_AuthorityClass canonical)) then "unauthorized_scope"
  else if negb (passes (fl_Languages filters) (cn_Language canonical)) then "unauthorized_scope"
  else if negb (passes (fl_SymbolKinds filters) (cn_SymbolKind canonical)) then "unauthorized_scope"
  else if negb (pathInScope (cn_RepositoryPath canonical) (qy_Scope query)) then "unauthorized_scope"
  else "".

Definition is_alternative (query : RetrievalQuery) (pointID : string) (candidate : CanonicalCandidate) : bool :=
  let filters := qy_Filters query in
  bool_decide (cn_PointID candidate = pointID) && bool_decide (cn_TenantID candidate = qy_TenantID query) &&
  bool_decide (cn_RepositoryID candidate = qy_RepositoryID query) && negb (generation_differs query candidate) &&
  bool_decide (cn_Status candidate = "active") && negb (cn_Stale candidate) && matchesSourceScope query candidate &&
  contains (fl_ArtifactFamilies filters) (cn_ArtifactFamily candidate) &&
  contains (fl_AuthorityClasses filters) (cn_AuthorityClass candidate) &&
  passes (fl_Languages filters) (cn_Language candidate) && passes (fl_SymbolKinds filters) (cn_SymbolKind candidate) &&
  pathInScope (cn_RepositoryPath candidate) (qy_Scope query) && IsRetrievalEntityID (cn_EntityID candidate).

(** The identities are collected in a map and sorted, so the order of the map is lost. *)
Definition authorizedAlternatives (query : RetrievalQuery) (pointID : string) (candidates : list CanonicalCandidate)
    : list string :=
  let seen : gset string := list_to_set (cn_EntityID <$> filter (λ c, is_alternative query pointID c = true) candidates) in
  take 16 (Sort (elements seen)).

(** The variables of [ResolveRankedCandidates]. *)
Record resolving := mkResolving {
  rv_accepted : list RetrievalCandidate;
  rv_rejections : list RetrievalRejection;
  rv_ambiguities : list RetrievalAmbiguity;
  rv_seenEntity : gset string;
}.
Definition rejected (candidate : RetrievalCandidate) (reason : string) (r : resolving) : resolving :=
  mkResolving (rv_accepted r) (rv_rejections r ++ [mkRejection (cd_PointID candidate) reason]) (rv_ambiguities r)
    (rv_seenEntity r).
Definition accepted (candidate : RetrievalCandidate) (canonical : CanonicalCandidate) (r : resolving) : resolving :=
  mkResolving (rv_accepted r ++ [mkCandidate (cd_PointID candidate) (cn_EntityID canonical)
      (cn_ArtifactFamily canonical) (cn_SourceCommit canonical) (cn_SourceHash canonical) (cn_AuthorityClass canonical)
      (cn_RepositoryPath canonical) (cd_DenseRank candidate) (cd_SparseRank candidate) (cd_FusedScore candidate)
      (cn_ProofRefs canonical)])
    (rv_rejections r) (rv_ambiguities r) ({[cn_EntityID canonical]} ∪ rv_seenEntity r).
Definition ambiguous (ambiguity : RetrievalAmbiguity) (r : resolving) : resolving :=
  mkResolving (rv_accepted r) (rv_rejections r) (rv_ambiguities r ++ [ambiguity]) (rv_seenEntity r).

Section search.
Context `{Sha256, RetrievalJson}.

(** A one-candidate result invokes the checks of the contract. *)
Definition validateRankedCandidate (candidate : RetrievalCandidate) : result unit :=
  let one := f64_of_int 1 in
  let policy := mkPolicy 1 1 1 one one 1 in
  let query := mkQuery "retrieval_request_validation" RetrievalSchemaVersion
    "tenant_00000000-0000-4000-8000-000000000001" "repo_00000000-0000-4000-8000-000000000002" "validation"
    (mkScope (string_of (replicate 40 "a"%char)) ["**"] []) (mkFilters ["symbol"] ["canonical"] [] []) policy None in
  policyHash ← RetrievalPolicyHash policy;
  ValidateRetrievalResult query
    (mkResult (qy_RequestID query) RetrievalSchemaVersion "complete" "fresh" 0 None [candidate] [] [] []
       (mkRetrievalReceipt 0 0 0 1 0 policyHash)).

(** What one ranked candidate does, given the answer of the resolver. *)
Definition resolve_with (query : RetrievalQuery) (candidate : RetrievalCandidate) (resolved : list CanonicalCandidate)
    (r : resolving) : resolving :=
  match resolved with
  | [] => rejected candidate "missing_canonical_entity" r
  | [canonical] =>
      let reason := authorizeCanonicalCandidate query candidate canonical in
      if negb (bool_decide (reason = "")) then rejected candidate reason r
      else if bool_decide (cn_EntityID canonical ∈ rv_seenEntity r) then rejected candidate "duplicate_entity" r
      else accepted candidate canonical r
  | _ =>
      let alternatives := authorizedAlternatives query (cd_PointID candidate) resolved in
      let r := if (1 <? count alternatives)%Z then ambiguous (mkAmbiguity (cd_PointID candidate) alternatives) r else r in
      rejected candidate "ambiguous_identity" r
  end.

(** The loop ends early once the limit is reached; an accepted candidate is the only
    way to reach it. *)
Fixpoint resolve_each (query : RetrievalQuery) (resolver : string → result (list CanonicalCandidate))
    (ranked : list RetrievalCandidate) (r : resolving) : result resolving :=
  match ranked with
  | [] => Ok r
  | candidate :: ranked =>
      if negb (is_ok (validateRankedCandidate candidate))
      then resolve_each query resolver ranked (rejected candidate "malformed_candidate" r)
      else
        match resolver (cd_PointID candidate) with
        | Err err => Err (Errorf (Sprintf "resolve retrieval point %s: %w" [cd_PointID candidate]) err)
        | Ok resolved =>
            let r' := resolve_with query candidate resolved r in
            if (count (rv_accepted r') =? po_Limit (qy_Policy query))%Z &&
               negb (length (rv_accepted r') =? length (rv_accepted r))%nat
            then Ok r'
            else resolve_each query resolver ranked r'
        end
  end.

Definition ResolveRankedCandidates (query : RetrievalQuery) (ranked : list RetrievalCandidate)
    (resolver : option (string → result (list CanonicalCandidate))) : result resolving :=
  _ ← ValidateRetrievalQuery query;
  match resolver with
  | None => Err (plain_error "canonical retrieval resolver is required")
  | Some resolver =>
      _ ← fail_if (wrap64 (po_DenseLimit (qy_Policy query) + po_SparseLimit (qy_Policy query)) <? count ranked)%Z
            (plain_error "ranked candidate list exceeds retrieval policy");
      resolve_each query resolver ranked (mkResolving [] [] [] ∅)
  end.
End search.

(** ** The request to the vector store ([qdrant.go])

    [fmt.Errorf] prints [%!w(<nil>)] where a wrapped error is missing. *)

Definition DenseVectorName : string := "dense".
Definition SparseVectorName : string := "sparse".

(** [^[a-z][a-z0-9_-]{0,119}$]. *)
Definition qdrantCollectionNamePattern (s : string) : bool :=
  match s with
  | "" => false
  | String c rest => in_range 97 122 c && bool_decide (String.length rest ≤ 119) &&
      forallb (λ c, in_range 97 122 c || in_range 48 57 c || bool_decide (c = "_"%char) || bool_decide (c = "-"%char))
        (String.list_ascii_of_string rest)
  end.

(** The conditions the client library builds. *)
#[warnings="-register-all"]
Inductive Condition :=
| MatchKeyword (key value : string)
| MatchKeywords (key : string) (values : list string)
| MatchBool (key : string) (value : bool)
| IsNull (key : string)
| AllOf (conditions : list Condition).
Record Filter := mkFilter { ft_Must : list Condition; ft_Should : list Condition; ft_MustNot : list Condition }.

Definition normalizeScopePaths (paths : list string) : list string :=
  let normal value := let value := TrimSuffix value "/**" in if bool_decide (value = "") then "**" else value in
  Sort (elements (list_to_set (normal <$> paths) : gset string)).

Definition retrievalFamilyGroups (families : list string) : list string * list string :=
  (filter (λ f, RetrievalFamilyRequiresSourceCommit f = true) families,
   filter (λ f, RetrievalFamilyRequiresSourceCommit f = false) families).

(** What every query requires; the families and their commits come on top. *)
Definition access_conditions (query : RetrievalQuery) : list Condition :=
  let filters := qy_Filters query in
  [MatchKeyword "tenant_id" (qy_TenantID query); MatchKeyword "repository_id" (qy_RepositoryID query);
   MatchKeyword "status" "active"; MatchBool "stale" false;
   MatchKeywords "artifact_family" (fl_ArtifactFamilies filters);
   MatchKeywords "authority_class" (fl_AuthorityClasses filters);
   MatchKeywords "path_scope" (normalizeScopePaths (sc_AllowedPaths (qy_Scope query)))] ++
  match qy_ExpectedGeneration query with Some g => [MatchKeyword "collection_generation" g] | None => [] end ++
  (if bool_decide (fl_Languages filters = []) then [] else [MatchKeywords "language" (fl_Languages filters)]) ++
  (if bool_decide (fl_SymbolKinds filters = []) then [] else [MatchKeywords "symbol_kind" (fl_SymbolKinds filters)]).

Definition qdrantFilter (query : RetrievalQuery) : result Filter :=
  let filters := qy_Filters query in
  let scope := qy_Scope query in
  let must := access_conditions query in
  let '(sourceBound, repositoryGlobal) := retrievalFamilyGroups (fl_ArtifactFamilies filters) in
  let commit := MatchKeyword "source_commit" (sc_SourceCommit scope) in
  '(must, should) ←
    match sourceBound, repositoryGlobal with
    | _ :: _, _ :: _ =>
        Ok (must, [AllOf [MatchKeywords "artifact_family" sourceBound; commit];
                   AllOf [MatchKeywords "artifact_family" repositoryGlobal; IsNull "source_commit"]])
    | _ :: _, [] => Ok (must ++ [commit], [])
    | [], _ :: _ => Ok (must ++ [IsNull "source_commit"], [])
    | [], [] => Err (plain_error "retrieval query has no supported artifact families")
    end;
  let mustNot := if bool_decide (sc_DeniedPaths scope = []) then []
                 else [MatchKeywords "path_scope" (normalizeScopePaths (sc_DeniedPaths scope))] in
  Ok (mkFilter must should mustNot).

(** [float32(value)] and [math.MaxFloat32]. *)
Definition float32 (x : float64) : float64 :=
  match x with
  | S754_finite s m e => binary_normalize 24 128 (cond_Zopp s (Zpos m)) e s
  | x => x
  end.
Definition MaxFloat32 : float64 := S754_finite false (16777215 * 2 ^ 29) 75.

Definition float32Values (values : list float64) : result (list float64) :=
  loop (λ converted '(index, value),
    _ ← fail_if (IsNaN value || IsInf value || SFltb MaxFloat32 value || SFltb value (SFopp MaxFloat32))
          (ErrorString (Sprintf "vector value at index %d cannot be represented as float32" [pretty (Z.of_nat index)]));
    Ok (converted ++ [float32 value])) [] (imap pair values).

Fixpoint strictAscending (values : list Z) : bool :=
  match values with
  | a :: (b :: _) as rest => (a <? b)%Z && strictAscending rest
  | _ => true
  end.

Record QueryPoints := mkQueryPoints {
  qp_CollectionName : string;
  qp_Indices : list Z;
  qp_Values : list float64;
  qp_Using : string;
  qp_Filter : Filter;
  qp_Limit : Z;
  qp_WithPayload : list string;
}.

Definition payload_fields : list string :=
  ["point_id"; "entity_id"; "artifact_family"; "source_commit"; "source_hash"; "status"; "authority_class"; "stale";
   "language"; "symbol_kind"; "repository_path"; "proof_refs"; "collection_generation"].

Definition BuildQdrantQueryRequest (collectionName : string) (query : RetrievalQuery) (dense : list float64)
    (sparse : SparseVector) (mode : string) : result QueryPoints :=
  _ ← fail_if (negb (qdrantCollectionNamePattern collectionName)) (plain_error "invalid Qdrant collection name");
  _ ← ValidateRetrievalQuery query;
  filter ← qdrantFilter query;
  let invalid m r := match r with
                     | Ok [] => Err (plain_error (m +:+ "%!w(<nil>)"))
                     | Ok values => Ok values
                     | Err err => Err (Errorf (Lit (m +:+ "%w")) err)
                     end in
  if bool_decide (mode = DenseVectorName) then
    values ← invalid "invalid dense retrieval query: " (float32Values dense);
    Ok (mkQueryPoints collectionName [] values DenseVectorName filter (po_DenseLimit (qy_Policy query)) payload_fields)
  else if bool_decide (mode = SparseVectorName) then
    values ← invalid "invalid sparse retrieval query: " (float32Values (sv_Values sparse));
    _ ← fail_if (negb (length values =? length (sv_Indices sparse))%nat)
          (plain_error "invalid sparse retrieval query: %!w(<nil>)");
    _ ← fail_if (negb (strictAscending (sv_Indices sparse)))
          (plain_error "sparse retrieval indices must be strictly ascending");
    Ok (mkQueryPoints collectionName (sv_Indices sparse) values SparseVectorName filter (po_SparseLimit (qy_Policy query))
          payload_fields)
  else Err (ErrorString (Sprintf "unsupported retrieval mode %q" [mode])).

(** ** Payloads *)

(** The values of a payload; an item of a list by its [GetStringValue]. *)
Inductive Value :=
| NullValue
| BoolValue (b : bool)
| StringValue (s : string)
| ListValue (values : list string)
| OtherValue.
Definition Payload : Type := gmap string (option Value).

Definition pathScopes (repositoryPath : option string) : list string :=
  match repositoryPath with
  | None => ["**"]
  | Some repositoryPath =>
      let clean := Clean repositoryPath in
      if bool_decide (clean = ".") || HasPrefix clean "../" || HasPrefix clean "/" then ["**"]
      else "**" :: leaseScopeAndAncestors clean
  end.

Definition stringInterfaces (values : list string) : Value := ListValue values.
Definition optional (key : string) (value : option string) (payload : Payload) : Payload :=
  match value with Some value => <[key := Some (StringValue value)]> payload | None => payload end.

Definition pointPayload (point : RetrievalPoint) : Payload :=
  optional "repository_path" (pt_RepositoryPath point)
    (optional "symbol_kind" (pt_SymbolKind point)
      (optional "language" (pt_Language point)
        (optional "source_commit" (pt_SourceCommit point)
          (list_to_map (prod_map id Some <$>
            [("point_id", StringValue (pt_PointID point)); ("entity_id", StringValue (pt_EntityID point));
             ("artifact_family", StringValue (pt_ArtifactFamily point)); ("source_hash", StringValue (pt_SourceHash point));
             ("card_text_hash", StringValue (pt_CardTextHash point)); ("status", StringValue (pt_Status point));
             ("authority_class", StringValue (pt_AuthorityClass point)); ("stale", BoolValue (pt_Stale point));
             ("tenant_id", StringValue (pt_TenantID point)); ("repository_id", StringValue (pt_RepositoryID point));
             ("collection_generation", StringValue (pt_CollectionGeneration point));
             ("proof_refs", stringInterfaces (pt_ProofRefs point));
             ("path_scope", stringInterfaces (pathScopes (pt_RepositoryPath point)))]))))).

(** [GetStringValue]: empty for any other kind of value. *)
Definition GetStringValue (value : option Value) : string :=
  match value with Some (StringValue s) => s | _ => "" end.

Definition optionalPayloadString (payload : Payload) (field : string) : option string :=
  match payload !! field with
  | Some value => if bool_decide (GetStringValue value = "") then None else Some (GetStringValue value)
  | None => None
  end.
Definition payloadString (payload : Payload) (field : string) : string :=
  default "" (optionalPayloadString payload field).

Definition payloadStrings (payload : Payload) (field : string) : list string :=
  match payload !! field with
  | Some (Some (ListValue values)) =>
      if existsb (λ s, bool_decide (s = "")) values then [] else values
  | _ => []
  end.

(** [nil] points are skipped; the list is cut off at [limit] candidates. *)
Definition qdrantCandidates (points : list (option Payload)) (limit : Z) : list RetrievalCandidate :=
  take (Z.to_nat limit) ((λ payload,
    mkCandidate (payloadString payload "point_id") (payloadString payload "entity_id")
      (payloadString payload "artifact_family") (optionalPayloadString payload "source_commit")
      (payloadString payload "source_hash") (payloadString payload "authority_class")
      (optionalPayloadString payload "repository_path") None None f64_zero (payloadStrings payload "proof_refs"))
    <$> omap id points).

(** ** The query service ([query.go])

    Every service is a function of its arguments: within one search each is asked at
    most once with the same ones. *)

Record Embedder := mkEmbedder {
  eb_Descriptor : EmbeddingDescriptor;
  eb_Embed : string → result (list float64);
}.
Record SparseEncoder := mkEncoder {
  en_Version : string;
  en_Encode : string → result SparseVector;
}.

Record QueryService := mkService {
  qs_Client : option (QueryPoints → result (list (option Payload)));
  qs_CollectionName : string;
  qs_Embedder : option Embedder;
  qs_Sparse : option SparseEncoder;
  qs_Resolver : option (string → result (list CanonicalCandidate));
  (** The reader of the projection lag, and its answer. *)
  qs_Freshness : option (result Z);
  qs_QueryTimeout : Z;
}.

Definition validDenseQuery (values : list float64) (dimensions : Z) : bool :=
  negb (dimensions <? 1)%Z && (count values =? dimensions)%Z &&
  negb (existsb (λ value, IsNaN value || IsInf value) values).

(** A search returns an error, a degraded result, or goes on. *)
Inductive progress (A : Type) :=
| Failed (err : error)
| Degraded (result : RetrievalResult)
| Continue (a : A).
Arguments Failed {A} err.
Arguments Degraded {A} result.
Arguments Continue {A} a.
#[export] Instance progress_ret : MRet progress := @Continue.
#[export] Instance progress_bind : MBind progress := λ A B k m,
  match m with Failed err => Failed err | Degraded result => Degraded result | Continue a => k a end.
Definition check {A} (r : result A) : progress A := match r with Ok a => Continue a | Err err => Failed err end.

Section service.
Context `{Sha256, RetrievalJson, CandidateVisits}.

Definition receipt (query : RetrievalQuery) (dense sparse fused resolved rejected : Z) : RetrievalReceipt :=
  mkRetrievalReceipt dense sparse fused resolved rejected
    (match RetrievalPolicyHash (qy_Policy query) with Ok hash => hash | Err _ => "" end).

Definition degradedResult (query : RetrievalQuery) (gap freshness : string) (projectionLag : Z) : RetrievalResult :=
  mkResult (qy_RequestID query) RetrievalSchemaVersion "degraded" freshness projectionLag (qy_ExpectedGeneration query)
    [] [] [] [gap] (receipt query 0 0 0 0 0).

(** The services a search needs; the sparse encoder only where it has weight. *)
Definition configured (service : QueryService) (query : RetrievalQuery)
    : result ((QueryPoints → result (list (option Payload))) * Embedder) :=
  let sparse := SFltb f64_zero (po_SparseWeight (qy_Policy query)) in
  match qs_Client service, qs_Embedder service, qs_Resolver service with
  | Some client, Some embedder, Some _ =>
      _ ← fail_if ((sparse && bool_decide (qs_Sparse service = None)) ||
                   negb (qdrantCollectionNamePattern (qs_CollectionName service)))
            (plain_error "governed retrieval service is not configured");
      Ok (client, embedder)
  | _, _, _ => Err (plain_error "governed retrieval service is not configured")
  end.

Definition freshness (service : QueryService) (query : RetrievalQuery) : progress Z :=
  match qs_Freshness service with
  | None => Continue 0%Z
  | Some (Err _) => Degraded (degradedResult query "projection_freshness_unavailable" "unknown" 0)
  | Some (Ok projectionLag) =>
      if (0 <? projectionLag)%Z then Degraded (degradedResult query "projection_lag" "stale" projectionLag)
      else Continue projectionLag
  end.

(** One request to the vector store. *)
Definition ask (client : QueryPoints → result (list (option Payload))) (query : RetrievalQuery) (request : QueryPoints)
    (gap : string) (projectionLag limit : Z) : progress (list RetrievalCandidate) :=
  match client request with
  | Err _ => Degraded (degradedResult query gap "unknown" projectionLag)
  | Ok points => Continue (qdrantCandidates points limit)
  end.

Definition search_dense (service : QueryService) (client : QueryPoints → result (list (option Payload)))
    (embedder : Embedder) (query : RetrievalQuery) (projectionLag : Z) : progress (list RetrievalCandidate) :=
  if negb (SFltb f64_zero (po_DenseWeight (qy_Policy query))) then Continue [] else
  dense ← check (wrapped "embed retrieval query: %w"
    (match eb_Embed embedder (qy_Query query) with
     | Ok dense => if validDenseQuery dense (em_Dimensions (eb_Descriptor embedder)) then Ok dense
                   else Err (plain_error "embedding dimensions or values are invalid")
     | Err err => Err err
     end));
  request ← check (BuildQdrantQueryRequest (qs_CollectionName service) query dense (mkSparse [] []) DenseVectorName);
  ask client query request "qdrant_dense_unavailable" projectionLag (po_DenseLimit (qy_Policy query)).

Definition search_sparse (service : QueryService) (client : QueryPoints → result (list (option Payload)))
    (query : RetrievalQuery) (projectionLag : Z) : progress (list RetrievalCandidate) :=
  match qs_Sparse service with
  | Some encoder =>
      if negb (SFltb f64_zero (po_SparseWeight (qy_Policy query))) then Continue [] else
      sparse ← check (wrapped "encode sparse retrieval query: %w" (en_Encode encoder (qy_Query query)));
      request ← check (BuildQdrantQueryRequest (qs_CollectionName service) query [] sparse SparseVectorName);
      ask client query request "qdrant_sparse_unavailable" projectionLag (po_SparseLimit (qy_Policy query))
  | None => Continue []
  end.

(** The generation a service answers for. *)
Definition bound_generation (service : QueryService) (embedder : Embedder) (query : RetrievalQuery) : bool :=
  let descriptor := eb_Descriptor embedder in
  let sparse := SFltb f64_zero (po_SparseWeight (qy_Policy query)) in
  negb (sparse && match qs_Sparse service with
                  | Some encoder => negb (bool_decide (em_SparseEncoderVersion descriptor = en_Version encoder))
                  | None => false
                  end) &&
  bool_decide (qy_ExpectedGeneration query =
    Some (RetrievalGenerationID (em_Model descriptor) (em_Version descriptor) (em_Dimensions descriptor)
            (em_SparseEncoderVersion descriptor))).

Definition searching (service : QueryService) (query : RetrievalQuery) : progress RetrievalResult :=
  _ ← check (ValidateRetrievalQuery query);
  '(client, embedder) ← check (configured service query);
  _ ← check (fail_if ((qs_QueryTimeout service <? 0)%Z || (30 * Second <? qs_QueryTimeout service)%Z)
               (plain_error "governed retrieval query timeout is invalid"));
  _ ← check (fail_if (negb (bound_generation service embedder query))
               (plain_error "retrieval query does not bind the configured embedding generation"));
  projectionLag ← freshness service query;
  denseCandidates ← search_dense service client embedder query projectionLag;
  sparseCandidates ← search_sparse service client query projectionLag;
  let '(fused, malformed) := fuseCandidateRanks denseCandidates sparseCandidates (qy_Policy query) in
  match ResolveRankedCandidates query fused (qs_Resolver service) with
  | Err _ => Degraded (degradedResult query "canonical_resolver_unavailable" "unknown" projectionLag)
  | Ok r =>
      let rejected := rv_rejections r ++ malformed in
      let result := mkResult (qy_RequestID query) RetrievalSchemaVersion "complete" "fresh" projectionLag
        (qy_ExpectedGeneration query) (rv_accepted r) rejected (rv_ambiguities r) []
        (receipt query (count denseCandidates) (count sparseCandidates) (count fused) (count (rv_accepted r))
           (count rejected)) in
      _ ← check (wrapped "validate governed retrieval result: %w" (ValidateRetrievalResult query result));
      Continue result
  end.

Definition Search (service : QueryService) (query : RetrievalQuery) : result RetrievalResult :=
  match searching service query with
  | Failed err => Err err
  | Degraded result | Continue result => Ok result
  end.
End service.
