(* ===== verification/RetrievalProperties.v ===== *)
(** * Package [internal/retrieval]: what a governed search guarantees

    Scores are ordered and the fusion is deterministic; only authorised canonical
    records are accepted; the prefilter of the vector store agrees with the
    authorisation where a point belongs to a commit. *)

From Stdlib Require Import Ascii SpecFloat.
From S2P Require Import Prelude GoLib Fault Identity LeasePaths Postgres DeliveryContracts IndexCards IndexValidation.
From S2P Require Import RetrievalContracts Retrieval.

(** ** Scores *)

(** A score is a number that is not negative; an overflow to infinity is one too. *)
Definition score_ok (x : float64) : bool :=
  match x with
  | S754_zero false | S754_finite false _ _ | S754_infinity false => true
  | _ => false
  end.

(** Scores are ordered like triples. *)
Definition score_key (x : float64) : Z * Z * Z :=
  match x with
  | S754_finite _ m e => (1, e, Zpos m)%Z
  | S754_infinity _ => (2, 0, 0)%Z
  | _ => (0, 0, 0)%Z
  end.
Definition key_lt (k l : Z * Z * Z) : Prop :=
  (k.1.1 < l.1.1 ∨ k.1.1 = l.1.1 ∧ (k.1.2 < l.1.2 ∨ k.1.2 = l.1.2 ∧ k.2 < l.2))%Z.

Lemma compare_scores x y :
  score_ok x = true → score_ok y = true →
  (SFltb x y = true ↔ key_lt (score_key x) (score_key y)) ∧ (SFeqb x y = true ↔ score_key x = score_key y).
Proof.
  unfold SFltb, SFeqb, key_lt.
  destruct x as [[]|[]| |[] m e], y as [[]|[]| |[] m' e']; intros Hx Hy; try discriminate; cbn;
    try (split; split; intros; simplify_eq; try done; lia).
  fold Pos.compare. destruct (Z.compare_spec e e') as [->|He|He].
  - destruct (Pos.compare_spec m m') as [->|Hm|Hm]; split; split; intros; simplify_eq; try done; lia.
  - split; split; intros; simplify_eq; try done; lia.
  - split; split; intros; simplify_eq; try done; lia.
Qed.

Lemma shr_1_nonneg r : (0 ≤ shr_m r → 0 ≤ shr_m (shr_1 r))%Z.
Proof. destruct r as [[|[]|] ? ?]; cbn; lia. Qed.
Lemma shr_nonneg r e n : (0 ≤ shr_m r → 0 ≤ shr_m (shr r e n).1)%Z.
Proof.
  intros Hr. destruct n as [|p|p]; cbn; try done. revert r Hr. induction p as [p IH|p IH|]; intros r Hr; cbn;
    auto using shr_1_nonneg.
Qed.
Lemma shr_fexp_nonneg prec emax m e l : (0 ≤ m → 0 ≤ shr_m (shr_fexp prec emax m e l).1)%Z.
Proof. intros ?. apply shr_nonneg. by destruct l as [|[]]. Qed.
Lemma round_nonneg m l : (0 ≤ m → 0 ≤ round_nearest_even m l)%Z.
Proof. intros ?. unfold round_nearest_even. repeat case_match; lia. Qed.

Lemma round_aux_score prec emax m e l : (0 ≤ m)%Z → score_ok (binary_round_aux prec emax false m e l) = true.
Proof.
  intros Hm. unfold binary_round_aux. destruct (shr_fexp prec emax m e l) as [r e'] eqn:H1.
  destruct (shr_fexp prec emax (round_nearest_even _ _) _ _) as [r' e''] eqn:H2.
  assert (0 ≤ shr_m r')%Z as Hr.
  { replace r' with (shr_fexp prec emax (round_nearest_even (shr_m r) (loc_of_shr_record r)) e' loc_Exact).1
      by by rewrite H2. apply shr_fexp_nonneg, round_nonneg.
    replace r with (shr_fexp prec emax m e l).1 by by rewrite H1. by apply shr_fexp_nonneg. }
  destruct (shr_m r'); cbn; [done|by case_match|lia].
Qed.
Lemma normalize_score prec emax m e : (0 ≤ m)%Z → score_ok (binary_normalize prec emax m e false) = true.
Proof.
  intros Hm. destruct m as [|m|m]; cbn; [done| |lia]. unfold binary_round. case_match. by apply round_aux_score.
Qed.

(** A weight that is added to scores: a positive finite number. *)
Definition weight_ok (x : float64) : Prop := ∃ m e, x = S754_finite false m e.

Lemma add_score x y : score_ok x = true → score_ok y = true → score_ok (f64_add x y) = true.
Proof.
  intros Hx Hy. unfold f64_add.
  destruct x as [[]|[]| |[] m e], y as [[]|[]| |[] m' e']; try discriminate; try done.
  cbn [SFadd]. cbv zeta. apply normalize_score. cbn. lia.
Qed.
Lemma div_score w y : weight_ok w → score_ok y = true → score_ok (f64_div w y) = true.
Proof.
  intros (m & e & ->) Hy. unfold f64_div. destruct y as [[]|[]| |[] m' e']; try discriminate; try done.
  cbn [SFdiv]. destruct (SFdiv_core_binary _ _ _ _ _ _) as [[q e''] l] eqn:Hq. apply round_aux_score.
  unfold SFdiv_core_binary in Hq. destruct (Z.div_eucl _ _) as [q' r] eqn:Hd.
  assert (q = q') as -> by (cbv zeta in Hq; congruence).
  pose proof (f_equal fst Hd) as Hq'. cbn in Hq'. rewrite <- Hq'. apply Z.div_pos; [|lia].
  case_match; [lia| |lia]. apply Z.shiftl_nonneg. lia.
Qed.

(** The weights of a valid policy are zero or positive and finite. *)
Lemma policy_weights policy :
  validateRetrievalPolicy policy = Ok tt →
  (∀ w, w = po_DenseWeight policy ∨ w = po_SparseWeight policy → SFeqb w f64_zero = true ∨ weight_ok w) ∧
  (1 ≤ po_Limit policy ≤ 100 ∧ po_Limit policy ≤ po_DenseLimit policy ≤ 200 ∧
   po_Limit policy ≤ po_SparseLimit policy ≤ 200 ∧ 1 ≤ po_RRFK policy ≤ 1000)%Z.
Proof.
  intros Hv%fail_if_ok. bool_prop. split; [|lia].
  assert (∀ w, SFltb w f64_zero = false → IsNaN w = false → IsInf w = false →
    SFeqb w f64_zero = true ∨ weight_ok w) as Hw.
  { intros [[]|[]| |[] m e] Hlt Hn Hi; try discriminate; [by left..|]. right. by do 2 eexists. }
  intros w [-> | ->]; apply Hw; naive_solver.
Qed.

(** ** The order of candidates *)

Definition scored (c : RetrievalCandidate) : Prop := score_ok (cd_FusedScore c) = true.

Lemma eqb_sym x y : SFeqb x y = SFeqb y x.
Proof.
  unfold SFeqb. destruct x as [[]|[]| |[] m e], y as [[]|[]| |[] m' e']; cbn; try done;
    fold Pos.compare; rewrite (Z.compare_antisym e' e); destruct (e' ?= e)%Z; cbn; try done;
    rewrite (Pos.compare_antisym m' m); by destruct (m' ?= m)%positive.
Qed.
Lemma ltb_asym x y : SFltb x y = true → SFltb y x = false.
Proof.
  unfold SFltb. destruct x as [[]|[]| |[] m e], y as [[]|[]| |[] m' e']; cbn; try done;
    fold Pos.compare; rewrite (Z.compare_antisym e' e); destruct (e' ?= e)%Z; cbn; try done;
    rewrite (Pos.compare_antisym m' m); by destruct (m' ?= m)%positive.
Qed.

(** What the sorting needs of the rule that breaks ties. *)
Class TieBreak (ties : RetrievalCandidate → RetrievalCandidate → bool) : Prop := {
  tie_asym a b : ties a b = true → ties b a = false;
  tie_trans a b c : ties b a = false → ties c b = false → ties c a = false;
  tie_ids a b : ties a b = false → ties b a = false → cd_PointID a = cd_PointID b;
}.

Lemma string_lt_false s t : string_lt s t = false ↔ String.le t s.
Proof.
  unfold string_lt. rewrite andb_false_iff, !bool_decide_eq_false. split.
  - intros [Hs|Hs]; [|by destruct (total String.le s t)]. by rewrite (dec_stable Hs).
  - intros Hle. destruct (decide (s = t)) as [->|Hne]; [left; by intros ?|]. right. intros Hle'.
    apply Hne. by apply (anti_symm String.le).
Qed.

#[export] Instance by_point_ties : TieBreak by_point.
Proof.
  unfold by_point. split.
  - intros a b Hab. apply string_lt_false. unfold string_lt in Hab. bool_prop. tauto.
  - intros a b c Hba Hcb. apply string_lt_false in Hba, Hcb. apply string_lt_false. by transitivity (cd_PointID b).
  - intros a b Hab Hba. apply string_lt_false in Hab, Hba. by apply (anti_symm String.le).
Qed.

Lemma by_entity_false a b :
  by_entity a b = false ↔
  String.le (cd_EntityID b) (cd_EntityID a) ∧
  (cd_EntityID a = cd_EntityID b → String.le (cd_PointID b) (cd_PointID a)).
Proof.
  unfold by_entity, by_point. case_bool_decide as He; cbn; rewrite string_lt_false; [|naive_solver].
  rewrite He. naive_solver.
Qed.

#[export] Instance by_entity_ties : TieBreak by_entity.
Proof.
  split.
  - intros a b. unfold by_entity. destruct (decide (cd_EntityID a = cd_EntityID b)) as [He|He].
    + rewrite !bool_decide_eq_true_2 by done. apply tie_asym.
    + rewrite !bool_decide_eq_false_2 by congruence. cbn. intros Hab. apply string_lt_false.
      unfold string_lt in Hab. bool_prop. tauto.
  - intros a b c. rewrite !by_entity_false. intros [Hba Hba'] [Hcb Hcb'].
    split; [by transitivity (cd_EntityID b)|]. intros Hca.
    assert (cd_EntityID b = cd_EntityID a) as Hb by (apply (anti_symm String.le); [by rewrite <- Hca|done]).
    transitivity (cd_PointID b); [apply Hba'; congruence|apply Hcb'; congruence].
  - intros a b. rewrite !by_entity_false. intros [Hab Hab'] [Hba Hba'].
    assert (cd_EntityID a = cd_EntityID b) as He by by apply (anti_symm String.le).
    apply (anti_symm String.le); auto.
Qed.

Section sorting.
Context (ties : RetrievalCandidate → RetrievalCandidate → bool) `{!TieBreak ties}.

#[local] Instance not_after_total : Total (not_after ties).
Proof.
  intros a b. unfold not_after, before. rewrite (eqb_sym (cd_FusedScore b)).
  destruct (SFeqb _ _); cbn.
  - destruct (ties b a) eqn:Hba; [|by left]. right. by apply tie_asym.
  - destruct (SFltb (cd_FusedScore a) _) eqn:Hab; [|by left]. right. by apply ltb_asym.
Qed.

Lemma not_after_spec a b :
  scored a → scored b →
  (not_after ties a b ↔ key_lt (score_key (cd_FusedScore b)) (score_key (cd_FusedScore a)) ∨
    score_key (cd_FusedScore a) = score_key (cd_FusedScore b) ∧ ties b a = false).
Proof.
  intros Ha Hb. unfold not_after, before. destruct (compare_scores _ _ Hb Ha) as [_ He].
  destruct (compare_scores _ _ Ha Hb) as [Hlt _]. destruct (SFeqb _ _) eqn:Heq; cbn.
  - destruct He as [He _]. rewrite (He eq_refl). unfold key_lt. split; [by right|]. intros [?|[? ?]]; [lia|done].
  - rewrite <- not_true_iff_false, Hlt. split.
    + intros Hn. left. assert (score_key (cd_FusedScore b) ≠ score_key (cd_FusedScore a)) as Hne by (intros Hx; apply He in Hx; congruence).
      destruct (score_key _) as [[? ?] ?], (score_key _) as [[? ?] ?]. unfold key_lt in *. cbn in *.
      destruct (decide (z = z2)); [subst|lia]. destruct (decide (z0 = z3)); [subst|lia].
      destruct (decide (z1 = z4)); [subst; done|lia].
    + unfold key_lt. intros [?|[Hx _]]; [lia|]. symmetry in Hx. apply He in Hx. congruence.
Qed.

Lemma not_after_trans a b c :
  scored a → scored b → scored c → not_after ties a b → not_after ties b c → not_after ties a c.
Proof.
  intros Ha Hb Hc. rewrite !not_after_spec by done. unfold key_lt. intros [Hab|[Hab Ht]] [Hbc|[Hbc Ht']].
  - left. lia.
  - left. by rewrite <- Hbc.
  - left. by rewrite Hab.
  - right. split; [congruence|]. by eapply tie_trans.
Qed.

Lemma not_after_ids a b :
  scored a → scored b → not_after ties a b → not_after ties b a → cd_PointID a = cd_PointID b.
Proof.
  intros Ha Hb. rewrite !not_after_spec by done. unfold key_lt. intros [Hab|[Hab Ht]] [Hba|[Hba Ht']]; try lia.
  - rewrite Hba in Hab. lia.
  - rewrite Hab in Hba. lia.
  - by apply (tie_ids a b).
Qed.

Lemma sorted_strongly (l : list RetrievalCandidate) :
  Forall scored l → Sorted (not_after ties) l → StronglySorted (not_after ties) l.
Proof.
  intros Hl Hs. induction Hs as [|a l Hs IH Hhd]; [constructor|]. apply Forall_cons in Hl as [Ha Hl].
  specialize (IH Hl). constructor; [done|]. inversion Hhd as [|b l' Hab]; subst; [done|].
  apply Forall_cons in Hl as [Hb Hl]. apply StronglySorted_inv in IH as [_ Hbl]. constructor; [done|].
  rewrite Forall_forall in Hbl, Hl |- *. intros c Hc. apply (not_after_trans a b c); auto.
Qed.

(** However a map of scored candidates is visited, sorting it gives the same list. *)
Lemma sorting_unique (l1 l2 : list RetrievalCandidate) :
  Forall scored l1 → NoDup (cd_PointID <$> l1) → l1 ≡ₚ l2 →
  merge_sort (not_after ties) l1 = merge_sort (not_after ties) l2.
Proof.
  intros Hs Hn Hp. assert (Forall scored l2) as Hs2 by by rewrite <- Hp.
  assert (∀ l, Forall scored l → StronglySorted (not_after ties) (merge_sort (not_after ties) l)) as Hss.
  { intros l Hl. apply sorted_strongly; [by rewrite merge_sort_Permutation|]. apply Sorted_merge_sort, _. }
  apply (StronglySorted_unique_strong (not_after ties)); [|by apply Hss..|by rewrite !merge_sort_Permutation].
  intros a b. rewrite !merge_sort_Permutation, <- Hp. intros Ha Hb Hab Hba.
  rewrite Forall_forall in Hs. apply (NoDup_key_inj cd_PointID l1); [done..|]. apply not_after_ids; auto.
Qed.
End sorting.

(** ** Fusion *)

(** A map of candidates under their own identities, with proper scores. *)
Definition keyed (entries : gmap string RetrievalCandidate) : Prop :=
  map_Forall (λ id c, cd_PointID c = id ∧ scored c) entries.

Lemma best_visits (v1 v2 : CandidateVisits) ties limit entries :
  TieBreak ties → @CandidateVisitsAll v1 → @CandidateVisitsAll v2 → keyed entries →
  @best v1 ties limit entries = @best v2 ties limit entries.
Proof.
  intros Ht H1 H2 Hk. unfold best. f_equal.
  assert (∀ c, c ∈ (map_to_list entries).*2 → scored c) as Hs.
  { intros c ([id ?] & -> & Hc%elem_of_map_to_list)%list_elem_of_fmap. by apply (Hk id). }
  assert (cd_PointID <$> (map_to_list entries).*2 = (map_to_list entries).*1) as Hid.
  { rewrite <- list_fmap_compose. apply list_fmap_ext. intros i [id c] Hc%list_elem_of_lookup_2.
    apply elem_of_map_to_list in Hc. by apply (Hk id). }
  apply sorting_unique; [done| | |].
  - rewrite (H1 _). by apply Forall_forall.
  - rewrite (H1 _), Hid. apply NoDup_fst_map_to_list.
  - by rewrite (H1 _), (H2 _).
Qed.

Lemma ranked_scored weight rrfk isDense rank c :
  weight_ok weight → (0 ≤ rrfk ≤ 1000 → 0 ≤ rank ≤ 1000 → scored c → scored (ranked weight rrfk isDense rank c))%Z.
Proof.
  intros Hw Hk Hr Hc. apply add_score; [done|]. apply div_score; [done|]. apply normalize_score.
  rewrite wrap64_id by lia. lia.
Qed.

Section fusing.
Context (weight : float64) (rrfk : Z) (isDense : bool).
Hypothesis weight_positive : weight_ok weight.
Hypothesis rrfk_bounded : (0 ≤ rrfk ≤ 1000)%Z.

Lemma fuse_candidate_keyed st item :
  (Z.of_nat item.1 < 200)%Z → scored item.2 → keyed (fu_entries st.2) →
  keyed (fu_entries (fuse_candidate weight rrfk isDense st item).2).
Proof.
  destruct st as [seen f], item as [index c]. cbn. intros Hi Hc Hk.
  assert (∀ entry, cd_PointID entry = cd_PointID c → scored entry →
    keyed (<[cd_PointID c := ranked weight rrfk isDense (Z.of_nat (S index)) entry]> (fu_entries f))) as Hins.
  { intros entry He Hs. apply map_Forall_insert_2; [|done]. split; [done|]. apply ranked_scored; [done..|lia|done]. }
  do 2 (case_bool_decide; [done|]). destruct (fu_entries f !! cd_PointID c) as [entry|] eqn:He; [|by apply Hins].
  destruct (Hk _ _ He). case_match; [by apply map_Forall_delete|by apply Hins].
Qed.

Lemma fuse_fold_keyed items st :
  Forall (λ item, (Z.of_nat item.1 < 200)%Z ∧ scored item.2) items → keyed (fu_entries st.2) →
  keyed (fu_entries (foldl (fuse_candidate weight rrfk isDense) st items).2).
Proof.
  intros Hi. revert st. induction Hi as [|item items [? ?] _ IH]; intros st Hk; [done|].
  apply IH. by apply fuse_candidate_keyed.
Qed.
End fusing.

Lemma imap_pair_items {A} (P : A → Prop) (l : list A) :
  Forall P l → (Z.of_nat (length l) ≤ 200)%Z → Forall (λ item, (Z.of_nat item.1 < 200)%Z ∧ P item.2) (imap pair l).
Proof.
  intros Hl Hn. apply Forall_forall. intros [i a] (j & b & Hx & Hb)%elem_of_lookup_imap.
  injection Hx as -> ->. cbn. split; [apply lookup_lt_Some in Hb; lia|]. by eapply Forall_lookup_1.
Qed.

Lemma apply_ranks_keyed policy weight isDense values f :
  validateRetrievalPolicy policy = Ok tt → weight = po_DenseWeight policy ∨ weight = po_SparseWeight policy →
  Forall scored values → (Z.of_nat (length values) ≤ 200)%Z → keyed (fu_entries f) →
  keyed (fu_entries (apply_ranks weight (po_RRFK policy) isDense values f)).
Proof.
  intros [Hw Hb]%policy_weights Hin Hv Hn Hk. unfold apply_ranks. destruct (Hw _ Hin) as [->|Hok]; [done|].
  case_match; [done|]. apply fuse_fold_keyed; [done|lia|by apply imap_pair_items|done].
Qed.

(** The fusion of two rank lists without scores does not depend on the order of maps. *)
Lemma fuse_visits (v1 v2 : CandidateVisits) dense sparse policy :
  @CandidateVisitsAll v1 → @CandidateVisitsAll v2 → validateRetrievalPolicy policy = Ok tt →
  Forall scored dense → Forall scored sparse →
  (Z.of_nat (length dense) ≤ 200 → Z.of_nat (length sparse) ≤ 200 →
   @fuseCandidateRanks v1 dense sparse policy = @fuseCandidateRanks v2 dense sparse policy)%Z.
Proof.
  intros H1 H2 Hp Hd Hs Hnd Hns. unfold fuseCandidateRanks. cbv zeta. f_equal. apply best_visits; [apply _|done..|].
  apply (apply_ranks_keyed _ _ _ _ _ Hp); auto. apply (apply_ranks_keyed _ _ _ _ _ Hp); auto. apply map_Forall_empty.
Qed.

Lemma fuse_point_keyed `{Sha256} weight rrfk isDense items : weight_ok weight → (0 ≤ rrfk ≤ 1000)%Z →
  Forall (λ item, (Z.of_nat item.1 < 200)%Z ∧ True) items → ∀ st st',
  loop (fuse_point weight rrfk isDense) st items = Ok st' → keyed st.2 → keyed st'.2.
Proof.
  intros Hw Hk Hi. induction Hi as [|[index p] items [Hi _] _ IH]; intros [seen scores] st'; cbn [loop].
  { by intros [= <-]. }
  intros (st1 & Hstep & Hrest)%res_bind_ok Hkeyed. apply (IH _ _ Hrest). unfold fuse_point in Hstep.
  apply res_bind_ok in Hstep as ([] & _ & ([] & _ & (entry & He & [= <-])%res_bind_ok)%res_bind_ok).
  assert (cd_PointID entry = pt_PointID p ∧ scored entry) as [Hid Hs].
  { destruct (scores !! pt_PointID p) as [old|] eqn:Hold; [|by injection He as <-].
    apply res_bind_ok in He as ([] & _ & [= <-]). by apply Hkeyed. }
  apply map_Forall_insert_2; [|done]. split; [done|]. apply ranked_scored; [done..|cbn in Hi; lia|done].
Qed.

Lemma apply_points_keyed `{Sha256} policy weight isDense points scores scores' :
  validateRetrievalPolicy policy = Ok tt → weight = po_DenseWeight policy ∨ weight = po_SparseWeight policy →
  (count points ≤ 200)%Z → apply_points weight (po_RRFK policy) isDense points scores = Ok scores' →
  keyed scores → keyed scores'.
Proof.
  intros [Hw Hb]%policy_weights Hin Hn. unfold apply_points. destruct (Hw _ Hin) as [->|Hok]; [by intros [= <-]|].
  case_match; [by intros [= <-]|]. intros (st & Hst & [= <-])%res_bind_ok.
  intros Hkeyed. refine (fuse_point_keyed _ _ _ _ Hok _ _ _ _ Hst Hkeyed); [lia|].
  apply (imap_pair_items (λ _, True)); [by apply Forall_true|exact Hn].
Qed.

(** The fusion of points, too, does not depend on the order of maps, and stays within
    the limit. *)
Lemma fuse_points_visits `{Sha256} (v1 v2 : CandidateVisits) dense sparse policy :
  @CandidateVisitsAll v1 → @CandidateVisitsAll v2 →
  @FuseRetrievalRanks _ v1 dense sparse policy = @FuseRetrievalRanks _ v2 dense sparse policy ∧
  ∀ l, @FuseRetrievalRanks _ v1 dense sparse policy = Ok l → (count l ≤ po_Limit policy)%Z.
Proof.
  intros H1 H2. unfold FuseRetrievalRanks. destruct (validateRetrievalPolicy policy) as [[]|] eqn:Hp; [|done].
  pose proof (policy_weights policy Hp) as [_ Hb]. cbn. destruct (fail_if _ _) as [[]|] eqn:Hn; [|done]. cbn.
  apply fail_if_ok in Hn. bool_prop.
  destruct (apply_points _ _ true dense ∅) as [scores|] eqn:Hd; [|done]. cbn.
  destruct (apply_points _ _ false sparse scores) as [scores'|] eqn:Hs; [|done]. cbn. split.
  - f_equal. apply best_visits; [apply _|done..|]. apply (apply_points_keyed _ _ _ _ _ _ Hp) in Hs; auto; [lia|].
    apply (apply_points_keyed _ _ _ _ _ _ Hp) in Hd; auto; [lia|apply map_Forall_empty].
  - intros l [= <-]. unfold best, count. rewrite length_take. lia.
Qed.

(** ** Determinism of a search *)

Lemma qdrantCandidates_ok points limit :
  Forall scored (qdrantCandidates points limit) ∧ (Z.of_nat (length (qdrantCandidates points limit)) ≤ Z.max 0 limit)%Z.
Proof.
  unfold qdrantCandidates. split; [|rewrite length_take; lia].
  apply Forall_take, Forall_forall. intros c (payload & -> & _)%list_elem_of_fmap. done.
Qed.

Section search.
Context `{Sha256, RetrievalJson}.

Lemma query_policy query : ValidateRetrievalQuery query = Ok tt → validateRetrievalPolicy (qy_Policy query) = Ok tt.
Proof. unfold ValidateRetrievalQuery. intros Hq. repeat (apply res_bind_ok in Hq as ([] & ? & Hq)). done. Qed.

(** The candidates of a rank list are fresh from the store, and within the limit. *)
Definition fresh_ranks (l : list RetrievalCandidate) : Prop := Forall scored l ∧ (Z.of_nat (length l) ≤ 200)%Z.

Lemma ask_fresh client query request gap lag limit l :
  (0 ≤ limit ≤ 200)%Z → ask client query request gap lag limit = Continue l → fresh_ranks l.
Proof.
  intros Hl. unfold ask. destruct (client request) as [points|]; [|done]. intros [= <-].
  destruct (qdrantCandidates_ok points limit). split; [done|lia].
Qed.

Lemma search_fresh service client embedder query lag l :
  validateRetrievalPolicy (qy_Policy query) = Ok tt →
  search_dense service client embedder query lag = Continue l ∨ search_sparse service client query lag = Continue l →
  fresh_ranks l.
Proof.
  intros [_ Hb]%policy_weights [Hd|Hs].
  - unfold search_dense in Hd. case_match; [injection Hd as <-; by split|].
    destruct (check (wrapped _ _)); try done. cbn in Hd. destruct (check _); try done. cbn in Hd.
    eapply ask_fresh; [|exact Hd]. lia.
  - unfold search_sparse in Hs. destruct (qs_Sparse service); [|injection Hs as <-; by split].
    case_match; [injection Hs as <-; by split|].
    destruct (check (wrapped _ _)); try done. cbn in Hs. destruct (check _); try done. cbn in Hs.
    eapply ask_fresh; [|exact Hs]. lia.
Qed.

Lemma progress_bind_ext {A B} (m : progress A) (k k' : A → progress B) :
  (∀ a, m = Continue a → k a = k' a) → m ≫= k = m ≫= k'.
Proof. intros Hk. destruct m as [| |a]; [done..|]. by apply Hk. Qed.
Lemma check_ok {A} (r : result A) a : check r = Continue a → r = Ok a.
Proof. destruct r; cbn; congruence. Qed.

(** C18. The answer of a search does not depend on the order in which Go visits the map of
    fused candidates, although [sort.Slice] is not stable: scores are never NaN, and
    point identities break every tie. *)
Theorem search_deterministic (v1 v2 : CandidateVisits) service query :
  @CandidateVisitsAll v1 → @CandidateVisitsAll v2 →
  @Search _ _ v1 service query = @Search _ _ v2 service query.
Proof.
  intros H1 H2. enough (@searching _ _ v1 service query = @searching _ _ v2 service query) as Hs.
  { unfold Search. by rewrite Hs. }
  unfold searching. apply progress_bind_ext. intros [] Hq%check_ok%query_policy.
  apply progress_bind_ext. intros [client embedder] _.
  do 2 (apply progress_bind_ext; intros _ _). apply progress_bind_ext. intros lag _.
  apply progress_bind_ext. intros dense Hd. apply progress_bind_ext. intros sparse Hs.
  destruct (search_fresh service client embedder query lag dense Hq (or_introl Hd)) as [Hd1 Hd2].
  destruct (search_fresh service client embedder query lag sparse Hq (or_intror Hs)) as [Hs1 Hs2].
  rewrite (fuse_visits v1 v2 dense sparse _ H1 H2 Hq Hd1 Hs1 Hd2 Hs2). reflexivity.
Qed.

(** ** What a search may return *)

(** The part of a repository a scope entry names: everything, or a path and what is
    below it. *)
Definition names (scope path : string) : Prop :=
  scope = "**" ∨ path = TrimSuffix scope "/**" ∨ ∃ rest, path = TrimSuffix scope "/**" +:+ "/" +:+ rest.

Definition whole_repository (scope : RetrievalScope) : Prop :=
  "**" ∈ sc_AllowedPaths scope ∧ sc_DeniedPaths scope = [].

(** A canonical record the query may see. *)
Record authorized (query : RetrievalQuery) (c : CanonicalCandidate) : Prop := {
  au_tenant : cn_TenantID c = qy_TenantID query;
  au_repository : cn_RepositoryID c = qy_RepositoryID query;
  au_generation : ∀ generation, qy_ExpectedGeneration query = Some generation → cn_CollectionGeneration c = generation;
  au_active : cn_Status c = "active";
  au_fresh : cn_Stale c = false;
  au_family : cn_ArtifactFamily c ∈ fl_ArtifactFamilies (qy_Filters query);
  au_class : cn_AuthorityClass c ∈ fl_AuthorityClasses (qy_Filters query);
  au_language : fl_Languages (qy_Filters query) ≠ [] →
    ∃ language, cn_Language c = Some language ∧ language ∈ fl_Languages (qy_Filters query);
  au_kind : fl_SymbolKinds (qy_Filters query) ≠ [] →
    ∃ kind, cn_SymbolKind c = Some kind ∧ kind ∈ fl_SymbolKinds (qy_Filters query);
  au_commit : if RetrievalFamilyRequiresSourceCommit (cn_ArtifactFamily c)
    then cn_SourceCommit c = Some (sc_SourceCommit (qy_Scope query))
    else cn_SourceCommit c = None ∧ whole_repository (qy_Scope query);
  au_path : match cn_RepositoryPath c with
    | None => whole_repository (qy_Scope query)
    | Some path => (∃ scope, scope ∈ sc_AllowedPaths (qy_Scope query) ∧ names scope (Clean path)) ∧
        ∀ scope, scope ∈ sc_DeniedPaths (qy_Scope query) → ¬ names scope (Clean path)
    end;
}.

(** A candidate that says what the canonical record says. *)
Record restates (candidate : RetrievalCandidate) (c : CanonicalCandidate) : Prop := {
  rt_point : cd_PointID candidate = cn_PointID c;
  rt_entity : cd_EntityID candidate = cn_EntityID c;
  rt_family : cd_ArtifactFamily candidate = cn_ArtifactFamily c;
  rt_commit : cd_SourceCommit candidate = cn_SourceCommit c;
  rt_hash : cd_SourceHash candidate = cn_SourceHash c;
  rt_class : cd_AuthorityClass candidate = cn_AuthorityClass c;
  rt_path : cd_RepositoryPath candidate = cn_RepositoryPath c;
  rt_proofs : cd_ProofRefs candidate = cn_ProofRefs c;
}.

Lemma matches_names path scope : pathMatchesScope path scope = true ↔ names scope path.
Proof.
  unfold pathMatchesScope, names. case_bool_decide as Hs; [naive_solver|].
  rewrite orb_true_iff, bool_decide_eq_true, HasPrefix_spec. setoid_rewrite <- string_app_assoc. naive_solver.
Qed.

Lemma covers_whole scope : RetrievalScopeCoversRepository scope = true ↔ whole_repository scope.
Proof. unfold RetrievalScopeCoversRepository. by rewrite andb_true_iff, !bool_decide_eq_true. Qed.

Lemma path_in_scope path scope :
  pathInScope path scope = true ↔
  match path with
  | None => whole_repository scope
  | Some path => (∃ s, s ∈ sc_AllowedPaths scope ∧ names s (Clean path)) ∧
      ∀ s, s ∈ sc_DeniedPaths scope → ¬ names s (Clean path)
  end.
Proof.
  destruct path as [path|]; cbn; [|apply covers_whole].
  rewrite andb_true_iff, negb_true_iff, existsb_exists, <- not_true_iff_false, existsb_exists.
  setoid_rewrite matches_names. setoid_rewrite <- list_elem_of_In. naive_solver.
Qed.

Lemma passes_spec values value :
  passes values value = true ↔ (values ≠ [] → ∃ v, value = Some v ∧ v ∈ values).
Proof.
  unfold passes, contains. rewrite orb_true_iff, bool_decide_eq_true. destruct value as [v|].
  - rewrite bool_decide_eq_true. destruct values; [naive_solver|]. split; [|naive_solver]. intros [?|?]; [done|eauto].
  - destruct values; naive_solver.
Qed.

(** What the vector store said of a point is what the canonical record says. *)
Definition same_identity (candidate : RetrievalCandidate) (c : CanonicalCandidate) : Prop :=
  cn_PointID c = cd_PointID candidate ∧ cn_EntityID c = cd_EntityID candidate ∧
  cn_SourceHash c = cd_SourceHash candidate ∧ cn_ArtifactFamily c = cd_ArtifactFamily candidate ∧
  cn_AuthorityClass c = cd_AuthorityClass candidate.

Lemma source_scope query c :
  matchesSourceScope query c = true ↔
  if RetrievalFamilyRequiresSourceCommit (cn_ArtifactFamily c)
  then cn_SourceCommit c = Some (sc_SourceCommit (qy_Scope query))
  else cn_SourceCommit c = None ∧ whole_repository (qy_Scope query).
Proof.
  unfold matchesSourceScope. case_match; [apply bool_decide_eq_true|].
  by rewrite andb_true_iff, bool_decide_eq_true, covers_whole.
Qed.
Lemma same_generation query c :
  generation_differs query c = false ↔
  ∀ generation, qy_ExpectedGeneration query = Some generation → cn_CollectionGeneration c = generation.
Proof.
  unfold generation_differs. destruct (qy_ExpectedGeneration query); [|naive_solver].
  rewrite negb_false_iff, bool_decide_eq_true. naive_solver.
Qed.

(** The authorisation is exactly the promised one. *)
Lemma authorize_spec query candidate c :
  authorizeCanonicalCandidate query candidate c = "" ↔ same_identity candidate c ∧ authorized query c.
Proof.
  split.
  - unfold authorizeCanonicalCandidate. cbv zeta. repeat (case_match; [done|]). intros _.
    bool_prop. rewrite passes_spec, path_in_scope, source_scope, same_generation in *. unfold contains in *. bool_prop.
    destruct_and!. by repeat split.
  - intros [(?&?&?&?&?) []]. unfold authorizeCanonicalCandidate, contains. cbv zeta.
    rewrite !bool_decide_eq_true_2 by done. cbn.
    rewrite (proj2 (same_generation _ _)) by done. rewrite au_fresh0.
    rewrite (proj2 (source_scope _ _)), !(proj2 (passes_spec _ _)), (proj2 (path_in_scope _ _)) by done. done.
Qed.
(** ** The loop over ranked candidates *)

Section resolving.
Context (query : RetrievalQuery) (resolver : string → result (list CanonicalCandidate)).

(** What is accepted or named as an alternative so far is authorised. *)
Record governed (r : resolving) : Prop := {
  go_accepted candidate : candidate ∈ rv_accepted r →
    ∃ c, resolver (cd_PointID candidate) = Ok [c] ∧ authorized query c ∧ restates candidate c;
  go_alternatives a e : a ∈ rv_ambiguities r → e ∈ am_AlternativeEntityIDs a →
    ∃ cs c, resolver (am_PointID a) = Ok cs ∧ c ∈ cs ∧ authorized query c ∧ cn_EntityID c = e;
  go_distinct : NoDup (cd_EntityID <$> rv_accepted r);
  go_seen : rv_seenEntity r = list_to_set (cd_EntityID <$> rv_accepted r);
}.

Lemma alternative_spec pointID c : is_alternative query pointID c = true → authorized query c.
Proof.
  unfold is_alternative, contains. cbv zeta. intros Ha. bool_prop.
  rewrite !passes_spec, path_in_scope, source_scope, same_generation in *. destruct_and!. by split.
Qed.
Lemma alternatives_authorized pointID cs e :
  e ∈ authorizedAlternatives query pointID cs → ∃ c, c ∈ cs ∧ authorized query c ∧ cn_EntityID c = e.
Proof.
  unfold authorizedAlternatives. cbv zeta. intros (i & He%list_elem_of_lookup_2 & _)%elem_of_take. unfold Sort in He.
  rewrite merge_sort_Permutation, elem_of_elements, elem_of_list_to_set in He.
  apply list_elem_of_fmap in He as (c & -> & [Hc Hin]%list_elem_of_filter).
  exists c. eauto using alternative_spec.
Qed.

Lemma rejected_governed candidate reason r : governed r → governed (rejected candidate reason r).
Proof. by intros []. Qed.
Lemma ambiguous_governed candidate cs r :
  resolver (cd_PointID candidate) = Ok cs → governed r →
  governed (ambiguous (mkAmbiguity (cd_PointID candidate) (authorizedAlternatives query (cd_PointID candidate) cs)) r).
Proof.
  intros Hr []. split; [done| |done..]. intros a e [?| ->%list_elem_of_singleton]%elem_of_app He; [eauto|].
  apply alternatives_authorized in He as (c & ? & ? & ?). eauto 10.
Qed.
Lemma accepted_governed candidate c r :
  resolver (cd_PointID candidate) = Ok [c] → authorizeCanonicalCandidate query candidate c = "" →
  cn_EntityID c ∉ rv_seenEntity r → governed r → governed (accepted candidate c r).
Proof.
  intros Hr [Hid Ha]%authorize_spec Hnew [Hacc ? Hn Hseen]. destruct Hid as (Hp & _).
  rewrite Hseen, elem_of_list_to_set in Hnew. split; cbn; [|done| |].
  - intros x [?| ->%list_elem_of_singleton]%elem_of_app; [eauto|]. exists c. split_and!; [done..|by split].
  - rewrite fmap_app. apply NoDup_app. split; [done|]. split; [|apply NoDup_singleton].
    intros e He ->%list_elem_of_singleton. done.
  - rewrite fmap_app, list_to_set_app_L, Hseen. cbn. set_solver.
Qed.

Lemma resolve_with_governed candidate cs r :
  resolver (cd_PointID candidate) = Ok cs → governed r → governed (resolve_with query candidate cs r).
Proof.
  intros Hr Hg. unfold resolve_with. destruct cs as [|c [|c' cs]]; cbv zeta.
  - by apply rejected_governed.
  - case_bool_decide; cbn [negb]; [|by apply rejected_governed].
    case_bool_decide; [by apply rejected_governed|by apply accepted_governed].
  - apply rejected_governed. case_match; [by apply ambiguous_governed|done].
Qed.

(** One candidate accepts at most one record, and only while there is room. *)
Lemma resolve_with_count candidate cs r :
  length (rv_accepted (resolve_with query candidate cs r)) = length (rv_accepted r) ∨
  length (rv_accepted (resolve_with query candidate cs r)) = S (length (rv_accepted r)).
Proof.
  unfold resolve_with. destruct cs as [|c [|c' cs]]; cbn; [auto| |destruct (1 <? _)%Z; auto].
  repeat case_match; cbn; rewrite ?length_app; cbn; auto; lia.
Qed.

Context `{Sha256, RetrievalJson}.

Lemma resolve_each_governed ranked r r' :
  resolve_each query resolver ranked r = Ok r' →
  governed r → (count (rv_accepted r) < po_Limit (qy_Policy query))%Z →
  governed r' ∧ (count (rv_accepted r') ≤ po_Limit (qy_Policy query))%Z.
Proof.
  revert r. induction ranked as [|candidate ranked IH]; intros r; cbn [resolve_each].
  { intros [= <-]. split; [done|lia]. }
  case_match. { intros Hr Hg Hl. apply (IH _ Hr); [by apply rejected_governed|done]. }
  destruct (resolver _) as [cs|] eqn:Hcs; [|done]. intros Hr Hg Hl.
  pose proof (resolve_with_governed _ _ _ Hcs Hg) as Hg'. pose proof (resolve_with_count candidate cs r) as Hc.
  revert Hr. cbv zeta. unfold count in *. destruct (_ && _) eqn:Hfull.
  - intros [= <-]. split; [done|lia].
  - intros Hr. apply (IH _ Hr); [done|]. rewrite andb_false_iff, negb_false_iff, Z.eqb_neq, Nat.eqb_eq in Hfull. lia.
Qed.
End resolving.
(** ** The answer of a search *)

Lemma bind_continue {A B} (m : progress A) (k : A → progress B) b :
  m ≫= k = Continue b → ∃ a, m = Continue a ∧ k a = Continue b.
Proof. destruct m; cbn; [done..|eauto]. Qed.
Lemma bind_degraded {A B} (m : progress A) (k : A → progress B) r :
  m ≫= k = Degraded r → m = Degraded r ∨ ∃ a, m = Continue a ∧ k a = Degraded r.
Proof. destruct m; cbn; [done|by left; congruence|]. intros Hk. right. eauto. Qed.
Lemma check_degraded {A} (x : result A) r : check x ≠ Degraded r.
Proof. by destruct x. Qed.

(** The answers that say why nothing was found. *)
Definition degraded_gaps : list string :=
  ["projection_freshness_unavailable"; "projection_lag"; "qdrant_dense_unavailable"; "qdrant_sparse_unavailable";
   "canonical_resolver_unavailable"].
Definition degraded_answer (service : QueryService) (query : RetrievalQuery) (result : RetrievalResult) : Prop :=
  ∃ gap freshness lag, result = degradedResult query gap freshness lag ∧ gap ∈ degraded_gaps ∧
    (freshness = "stale" ∧ (0 < lag)%Z ∧ qs_Freshness service = Some (Ok lag) ∨
     freshness = "unknown" ∧ (lag = 0%Z ∨ qs_Freshness service = Some (Ok lag))).

(** The lag a search goes on with. *)
Definition no_lag (service : QueryService) (lag : Z) : Prop :=
  (lag ≤ 0)%Z ∧ (lag = 0%Z ∧ qs_Freshness service = None ∨ qs_Freshness service = Some (Ok lag)).

Lemma freshness_continue service query lag : freshness service query = Continue lag → no_lag service lag.
Proof.
  unfold freshness, no_lag. destruct (qs_Freshness service) as [[lag'|]|]; [|done|].
  - destruct (0 <? lag')%Z eqn:Hl; [done|]. intros [= ->]. split; [lia|auto].
  - intros [= <-]. split; [lia|auto].
Qed.
Lemma unknown_degraded service query gap lag :
  no_lag service lag → gap ∈ degraded_gaps → degraded_answer service query (degradedResult query gap "unknown" lag).
Proof. intros [_ Hl] Hg. exists gap, "unknown", lag. split_and!; [done..|]. right. naive_solver. Qed.
Lemma freshness_degraded service query result :
  freshness service query = Degraded result → degraded_answer service query result.
Proof.
  unfold freshness. destruct (qs_Freshness service) as [[lag|]|] eqn:Hf; [| |done].
  - destruct (0 <? lag)%Z eqn:Hl; [|done]. intros [= <-]. exists "projection_lag", "stale", lag.
    split_and!; [done|set_solver|]. left. split_and!; [done|lia|done].
  - intros [= <-]. exists "projection_freshness_unavailable", "unknown", 0%Z. split_and!; [done|set_solver|auto].
Qed.
Lemma ask_degraded service client query request gap lag limit result :
  no_lag service lag → gap ∈ degraded_gaps → ask client query request gap lag limit = Degraded result →
  degraded_answer service query result.
Proof.
  intros Hl Hg. unfold ask. destruct (client request); [done|]. intros [= <-]. by apply unknown_degraded.
Qed.
Lemma search_one_degraded service client embedder query lag result :
  no_lag service lag →
  search_dense service client embedder query lag = Degraded result ∨
  search_sparse service client query lag = Degraded result → degraded_answer service query result.
Proof.
  intros Hl [Hd|Hs].
  - unfold search_dense in Hd. case_match; [done|].
    apply bind_degraded in Hd as [Hd|(? & _ & Hd)]; [by apply check_degraded in Hd|].
    apply bind_degraded in Hd as [Hd|(? & _ & Hd)]; [by apply check_degraded in Hd|].
    eapply ask_degraded; [done| |done]. set_solver.
  - unfold search_sparse in Hs. destruct (qs_Sparse service); [|done]. case_match; [done|].
    apply bind_degraded in Hs as [Hs|(? & _ & Hs)]; [by apply check_degraded in Hs|].
    apply bind_degraded in Hs as [Hs|(? & _ & Hs)]; [by apply check_degraded in Hs|].
    eapply ask_degraded; [done| |done]. set_solver.
Qed.

Section answers.
Context `{CandidateVisits}.

(** A complete answer: what was resolved, accepted by the contract. *)
Record complete_answer (service : QueryService) (query : RetrievalQuery) (result : RetrievalResult) : Prop := {
  ca_valid : ValidateRetrievalResult query result = Ok tt;
  ca_lag : no_lag service (rl_ProjectionLagEvents result);
  ca_fresh : rl_ProjectionFreshness result = "fresh";
  ca_resolved : ∃ resolver ranked r, qs_Resolver service = Some resolver ∧
    resolve_each query resolver ranked (mkResolving [] [] [] ∅) = Ok r ∧
    rl_Accepted result = rv_accepted r ∧ rl_Ambiguities result = rv_ambiguities r;
}.

Lemma resolve_ok query ranked resolver r :
  ResolveRankedCandidates query ranked resolver = Ok r →
  ∃ resolver', resolver = Some resolver' ∧ resolve_each query resolver' ranked (mkResolving [] [] [] ∅) = Ok r.
Proof.
  unfold ResolveRankedCandidates. intros (? & _ & Hr)%res_bind_ok. destruct resolver as [resolver|]; [|done].
  apply res_bind_ok in Hr as (? & _ & Hr). eauto.
Qed.

(** Rules for the answers of a search. *)
Definition answers (D C : RetrievalResult → Prop) (p : progress RetrievalResult) : Prop :=
  match p with Failed _ => True | Degraded result => D result | Continue result => C result end.
Lemma answers_bind {A} D C (m : progress A) k :
  (∀ r, m = Degraded r → D r) → (∀ a, m = Continue a → answers D C (k a)) → answers D C (m ≫= k).
Proof. destruct m; cbn; auto. Qed.
Lemma answers_check {A} D C (x : result A) k :
  (∀ a, x = Ok a → answers D C (k a)) → answers D C (check x ≫= k).
Proof. destruct x; cbn; auto. Qed.

Lemma searching_answers service query :
  answers (λ result, ValidateRetrievalQuery query = Ok tt ∧ degraded_answer service query result)
    (complete_answer service query) (searching service query).
Proof.
  unfold searching. apply answers_check. intros [] Hq. apply answers_check. intros [client embedder] _.
  do 2 (apply answers_check; intros _ _).
  apply answers_bind; [by eauto using freshness_degraded|]. intros lag Hl%freshness_continue.
  apply answers_bind; [by eauto using search_one_degraded|]. intros dense _.
  apply answers_bind; [intros r Hr; split; [done|]; by eapply (search_one_degraded _ client embedder); [|right]|].
  intros sparse _. destruct (fuseCandidateRanks _ _ _) as [fused malformed].
  destruct (ResolveRankedCandidates _ _ _) as [r|] eqn:Hr.
  2: { split; [done|]. apply unknown_degraded; [done|]. set_solver. }
  apply resolve_ok in Hr as (resolver & Hres & Hr). apply answers_check. intros [] Hv%wrapped_ok.
  split; [done..|]. by exists resolver, fused, r.
Qed.

Lemma Search_answers service query result :
  Search service query = Ok result →
  (ValidateRetrievalQuery query = Ok tt ∧ degraded_answer service query result) ∨ complete_answer service query result.
Proof.
  unfold Search. pose proof (searching_answers service query) as Ha. destruct (searching service query); [done|..];
    intros [= <-]; auto.
Qed.

Lemma complete_governed service query result :
  complete_answer service query result →
  (∃ resolver r, qs_Resolver service = Some resolver ∧ governed query resolver r ∧
    rl_Accepted result = rv_accepted r ∧ rl_Ambiguities result = rv_ambiguities r) ∧
  (count (rl_Accepted result) ≤ po_Limit (qy_Policy query))%Z ∧ rl_ProjectionLagEvents result = 0%Z.
Proof.
  intros [Hv [Hl _] Hf (resolver & ranked & r & Hres & Hr & -> & ->)].
  unfold ValidateRetrievalResult in Hv. cbv zeta in Hv.
  apply res_bind_ok in Hv as ([] & Hq%wrapped_ok%query_policy & Hv).
  do 3 (apply res_bind_ok in Hv as ([] & _ & Hv)).
  apply res_bind_ok in Hv as ([] & Hlag%fail_if_ok & _). rewrite Hf in Hlag.
  apply policy_weights in Hq as [_ Hlim].
  apply resolve_each_governed in Hr as [Hg Hc]; [|by split; [set_solver..|constructor|]|unfold count; cbn; lia].
  split; [by exists resolver, r|]. split; [done|]. bool_prop. lia.
Qed.

(** C16. A search returns nothing the canonical records do not grant. Every accepted
    candidate restates the only record the resolver has for its point, and that record
    belongs to the tenant and the repository of the query, to its generation, commit,
    families, classes, languages and kinds, is active and not stale, and lies in an
    allowed path and in no denied one. The alternatives of an ambiguity are authorised
    records too. No entity is returned twice, the limit is kept, and nothing is accepted
    while the reader of the projection lag, where the service has one, reports a lag or
    fails; a service without a reader accepts without knowing the lag. *)
Theorem search_only_authorized service query result :
  Search service query = Ok result →
  (∀ candidate, candidate ∈ rl_Accepted result →
    ∃ resolver c, qs_Resolver service = Some resolver ∧ resolver (cd_PointID candidate) = Ok [c] ∧
      authorized query c ∧ restates candidate c) ∧
  (∀ a e, a ∈ rl_Ambiguities result → e ∈ am_AlternativeEntityIDs a →
    ∃ resolver cs c, qs_Resolver service = Some resolver ∧ resolver (am_PointID a) = Ok cs ∧ c ∈ cs ∧
      authorized query c ∧ cn_EntityID c = e) ∧
  NoDup (cd_EntityID <$> rl_Accepted result) ∧
  (count (rl_Accepted result) ≤ po_Limit (qy_Policy query))%Z ∧
  (rl_Accepted result ≠ [] → qs_Freshness service = None ∨ qs_Freshness service = Some (Ok 0%Z)).
Proof.
  intros [[Hq (gap & f & lag & -> & _)]|Hc]%Search_answers.
  { apply query_policy, policy_weights in Hq as [_ Hlim]. split_and!; [set_solver..|constructor| |done].
    unfold count. cbn. lia. }
  pose proof (complete_governed _ _ _ Hc) as ((resolver & r & Hres & Hg & -> & ->) & Hcount & Hlag).
  split_and!; [| |apply (go_distinct _ _ _ Hg)|done|].
  - intros candidate (c & ? & ? & ?)%(go_accepted _ _ _ Hg). by exists resolver, c.
  - intros a e Ha He. destruct (go_alternatives _ _ _ Hg _ _ Ha He) as (cs & c & ? & ? & ? & ?). by exists resolver, cs, c.
  - intros _. destruct (ca_lag _ _ _ Hc) as [_ [[_ ?]|Hf]]; [by left|]. rewrite Hlag in Hf. by right.
Qed.

Lemma pass_check {B} cond e (k : unit → Fault.result B) r :
  cond = false → k tt = r → (fail_if cond e ≫= k) = r.
Proof. by intros -> <-. Qed.

Lemma degraded_meets_contract query gap f lag encoded :
  ValidateRetrievalQuery query = Ok tt → policy_json (qy_Policy query) = Ok encoded → gap ∈ degraded_gaps →
  (0 ≤ lag ≤ 1000000)%Z → f = "stale" ∧ lag ≠ 0%Z ∨ f = "unknown" →
  ValidateRetrievalResult query (degradedResult query gap f lag) = Ok tt.
Proof.
  intros Hq Hjson Hg Hlag Hf. pose proof (query_policy _ Hq) as Hp. pose proof (policy_weights _ Hp) as [_ Hlim].
  assert (∃ hash, RetrievalPolicyHash (qy_Policy query) = Ok hash) as [hash Hhash].
  { unfold RetrievalPolicyHash. rewrite Hp, Hjson. cbn. eauto. }
  unfold ValidateRetrievalResult, degradedResult, receipt. rewrite Hq, Hhash.
  cbn -[fail_if known validateUniqueBoundedStrings wrap64 Z.ltb Z.eqb count].
  apply pass_check; [by rewrite !bool_decide_eq_true_2|]. apply pass_check; [done|].
  apply pass_check; [by destruct Hf as [[-> _]| ->]|].
  apply pass_check.
  { destruct Hf as [[-> Hl]| ->]; rewrite (bool_decide_eq_false_2 (_ = "fresh")) by done; [lia|].
    rewrite (bool_decide_eq_false_2 (_ = "stale")) by done. lia. }
  apply pass_check.
  { unfold ValidateRetrievalQuery in Hq. repeat (apply res_bind_ok in Hq as ([] & ? & Hq)). by apply fail_if_ok in Hq. }
  apply pass_check; [unfold count; cbn [length]; rewrite !orb_false_iff, !Z.ltb_ge; lia|].
  apply pass_check; [rewrite wrap64_id by lia; unfold count; cbn [length]; rewrite !orb_false_iff, !negb_false_iff, !Z.ltb_ge, !Z.eqb_eq; lia|].
  apply pass_check; [by rewrite bool_decide_eq_true_2|].
  repeat (apply elem_of_cons in Hg as [->|Hg]; [by vm_compute|]). by apply elem_of_nil in Hg.
Qed.

(** C19. Every answer of a search meets the contract of a result, the answers that report an
    outage included, provided the reported lag is one the contract knows and the policy
    has a JSON form. *)
Theorem search_answers_meet_contract service query result encoded :
  (∀ lag, qs_Freshness service = Some (Ok lag) → (0 ≤ lag ≤ 1000000)%Z) → policy_json (qy_Policy query) = Ok encoded →
  Search service query = Ok result → ValidateRetrievalResult query result = Ok tt.
Proof.
  intros Hlag Hjson [[Hq (gap & f & lag & -> & Hg & Hf)]|Hc]%Search_answers; [|by apply ca_valid in Hc].
  eapply degraded_meets_contract; [done..| |].
  - destruct Hf as [(_ & _ & ?)|[_ [->|?]]]; [by apply Hlag|lia|by apply Hlag].
  - destruct Hf as [(-> & ? & _)|[-> _]]; [left; split; [done|lia]|by right].
Qed.
End answers.
End search.

(** ** The prefilter of the vector store *)

Definition has_keyword (payload : Payload) (key value : string) : Prop :=
  payload !! key = Some (Some (StringValue value)) ∨
  ∃ values, payload !! key = Some (Some (ListValue values)) ∧ value ∈ values.

(** The vector store: which payloads meet a condition, and which a filter selects. *)
Class Qdrant := {
  holds : Condition → Payload → bool;
  selects : Filter → Payload → bool;
}.

(** Its documented behaviour: a keyword matches the value of a field or one item of a
    list, a null condition matches a field that is there and is null, all of [must], one
    of [should] where there are any and none of [must_not] have to hold. *)
Class QdrantLaws `{Qdrant} : Prop := {
  holds_keyword key value payload : holds (MatchKeyword key value) payload = true ↔ has_keyword payload key value;
  holds_keywords key values payload :
    holds (MatchKeywords key values) payload = true ↔ ∃ value, value ∈ values ∧ has_keyword payload key value;
  holds_bool key b payload : holds (MatchBool key b) payload = true ↔ payload !! key = Some (Some (BoolValue b));
  holds_null key payload : holds (IsNull key) payload = true ↔ payload !! key = Some (Some NullValue);
  holds_all conditions payload :
    holds (AllOf conditions) payload = true ↔ Forall (λ c, holds c payload = true) conditions;
  selects_spec filter payload : selects filter payload = true ↔
    Forall (λ c, holds c payload = true) (ft_Must filter) ∧
    (ft_Should filter = [] ∨ Exists (λ c, holds c payload = true) (ft_Should filter)) ∧
    ¬ Exists (λ c, holds c payload = true) (ft_MustNot filter);
}.

(** The canonical record a point was made from. *)
Definition record_of (point : RetrievalPoint) : CanonicalCandidate :=
  mkCanonical (pt_PointID point) (pt_CollectionGeneration point) (pt_TenantID point) (pt_RepositoryID point)
    (pt_EntityID point) (pt_ArtifactFamily point) (pt_SourceCommit point) (pt_SourceHash point) (pt_Status point)
    (pt_AuthorityClass point) (pt_Stale point) (pt_Language point) (pt_SymbolKind point) (pt_RepositoryPath point)
    (pt_ProofRefs point).

(** *** Payloads *)

Lemma optional_other key key' value payload : key ≠ key' → optional key value payload !! key' = payload !! key'.
Proof. intros Hk. destruct value; cbn; [by apply lookup_insert_ne|done]. Qed.
Lemma optional_same key value payload :
  payload !! key = None → optional key value payload !! key = Some ∘ StringValue <$> value.
Proof. intros Hk. destruct value; cbn; [by apply lookup_insert_eq|done]. Qed.

Lemma payload_commit point : pointPayload point !! "source_commit" = Some ∘ StringValue <$> pt_SourceCommit point.
Proof. unfold pointPayload. rewrite !optional_other by done. by rewrite optional_same. Qed.
Lemma payload_language point : pointPayload point !! "language" = Some ∘ StringValue <$> pt_Language point.
Proof. unfold pointPayload. rewrite !optional_other by done. rewrite optional_same; [done|]. by rewrite !optional_other by done. Qed.
Lemma payload_kind point : pointPayload point !! "symbol_kind" = Some ∘ StringValue <$> pt_SymbolKind point.
Proof. unfold pointPayload. rewrite !optional_other by done. rewrite optional_same; [done|]. by rewrite !optional_other by done. Qed.
Lemma payload_required point key :
  key ∉ ["repository_path"; "symbol_kind"; "language"; "source_commit"] →
  pointPayload point !! key = (list_to_map (prod_map id Some <$>
    [("point_id", StringValue (pt_PointID point)); ("entity_id", StringValue (pt_EntityID point));
     ("artifact_family", StringValue (pt_ArtifactFamily point)); ("source_hash", StringValue (pt_SourceHash point));
     ("card_text_hash", StringValue (pt_CardTextHash point)); ("status", StringValue (pt_Status point));
     ("authority_class", StringValue (pt_AuthorityClass point)); ("stale", BoolValue (pt_Stale point));
     ("tenant_id", StringValue (pt_TenantID point)); ("repository_id", StringValue (pt_RepositoryID point));
     ("collection_generation", StringValue (pt_CollectionGeneration point));
     ("proof_refs", stringInterfaces (pt_ProofRefs point));
     ("path_scope", stringInterfaces (pathScopes (pt_RepositoryPath point)))]) : Payload) !! key.
Proof. intros Hk. unfold pointPayload. rewrite !optional_other by set_solver. done. Qed.

Lemma keyword_string payload key s value :
  payload !! key = Some (Some (StringValue s)) → has_keyword payload key value ↔ s = value.
Proof. intros Hk. unfold has_keyword. rewrite Hk. naive_solver. Qed.
Lemma keyword_list payload key values value :
  payload !! key = Some (Some (ListValue values)) → has_keyword payload key value ↔ value ∈ values.
Proof. intros Hk. unfold has_keyword. rewrite Hk. naive_solver. Qed.
Lemma keyword_optional payload key s value :
  payload !! key = Some ∘ StringValue <$> s → has_keyword payload key value ↔ s = Some value.
Proof. intros Hk. unfold has_keyword. rewrite Hk. destruct s; naive_solver. Qed.

(** *** Paths *)

Lemma normalized_elem paths v :
  v ∈ normalizeScopePaths paths ↔
  ∃ p, p ∈ paths ∧ v = (if bool_decide (TrimSuffix p "/**" = "") then "**" else TrimSuffix p "/**").
Proof.
  unfold normalizeScopePaths, Sort. cbv zeta.
  rewrite merge_sort_Permutation, elem_of_elements, elem_of_list_to_set, list_elem_of_fmap. naive_solver.
Qed.

Lemma below_ancestor path v :
  v ∈ leaseScopeAndAncestors path ↔ path = v ∨ HasPrefix path (v +:+ "/") = true.
Proof.
  rewrite ancestors_spec, below_spec. split.
  - intros [[|x l] Hl]; [left|right; by exists (x :: l)]. rewrite app_nil_r in Hl. by apply Split_slash_inj.
  - intros [->|(l & _ & Hl)]; [done|]. by exists l.
Qed.

Lemma trim_suffix v w : TrimSuffix v "/**" = w → v = w ∨ v = w +:+ "/**".
Proof.
  revert w. induction v as [|c v IH]; intros w; cbn [TrimSuffix].
  { case_bool_decide; intros <-; by left. }
  case_bool_decide as Hd; [intros <-; by right|]. destruct w as [|c' w]; [done|].
  intros [= -> Hw]. destruct (IH _ Hw) as [-> | ->]; [by left|by right].
Qed.

Lemma valid_path v :
  validRetrievalPath v = true → v ≠ "**" →
  Clean v = v ∧ v ≠ "" ∧ v ≠ "." ∧ HasPrefix v "../" = false ∧ HasPrefix v "/" = false.
Proof.
  intros Hv Hs. unfold validRetrievalPath in Hv. rewrite bool_decide_eq_false_2 in Hv by done.
  destruct (blank v || _ || _ || _) eqn:Hb; [done|]. cbv zeta in Hv. apply orb_false_iff in Hb as [Hb _].
  bool_prop. destruct Hv as [[[Hc ?] ?] ?]. rewrite Hc in *. destruct Hb as [[Hb ?] ?]. split_and!; try done.
  by intros ->.
Qed.

(** A path is below one of the entries of a scope exactly when it carries one of the
    keywords of these entries. *)
Lemma scopes_match path paths :
  validRetrievalPath path = true → path ≠ "**" → Forall (λ p, validRetrievalPath p = true) paths → "**/**" ∉ paths →
  (∃ v, v ∈ normalizeScopePaths paths ∧ v ∈ pathScopes (Some path)) ↔ ∃ p, p ∈ paths ∧ names p (Clean path).
Proof.
  intros Hp Hs Hv Hx. pose proof (valid_path _ Hp Hs) as (Hc & _ & Hdot & Hup & Hroot).
  assert (∀ p, p ∈ paths → TrimSuffix p "/**" ≠ "") as Htrim.
  { intros p Hin [-> | ->]%trim_suffix; rewrite Forall_forall in Hv; by apply Hv in Hin. }
  assert (∀ v, v ∈ pathScopes (Some path) ↔ v = "**" ∨ path = v ∨ HasPrefix path (v +:+ "/") = true) as Hscopes.
  { intros v. unfold pathScopes. cbv zeta. rewrite Hc, Hup, Hroot, bool_decide_eq_false_2 by done. cbn [orb].
    by rewrite elem_of_cons, below_ancestor. }
  setoid_rewrite Hscopes. rewrite Hc. split.
  - intros (v & (p & Hin & ->)%normalized_elem & Hm). rewrite bool_decide_eq_false_2 in Hm by auto.
    exists p. split; [done|]. apply matches_names. unfold pathMatchesScope. case_bool_decide as Hstar; [done|].
    cbv zeta. apply orb_true_iff. rewrite bool_decide_eq_true.
    destruct Hm as [[-> | ->]%trim_suffix|Hm]; [done..|done].
  - intros (p & Hin & Hm%matches_names). exists (TrimSuffix p "/**"). split.
    { apply normalized_elem. exists p. split; [done|]. by rewrite bool_decide_eq_false_2 by auto. }
    unfold pathMatchesScope in Hm. case_bool_decide as Hstar; [subst; by left|]. right.
    by rewrite orb_true_iff, bool_decide_eq_true in Hm.
Qed.

Section prefilter.
Context `{Qdrant, !QdrantLaws}.

Definition carried (point : RetrievalPoint) (paths : list string) : Prop :=
  ∃ v, v ∈ normalizeScopePaths paths ∧ v ∈ pathScopes (pt_RepositoryPath point).

Lemma keyword_holds point key value s :
  pointPayload point !! key = Some (Some (StringValue s)) →
  holds (MatchKeyword key value) (pointPayload point) = true ↔ s = value.
Proof. intros Hk. by rewrite holds_keyword, keyword_string. Qed.
Lemma keywords_hold point key values s :
  pointPayload point !! key = Some (Some (StringValue s)) →
  holds (MatchKeywords key values) (pointPayload point) = true ↔ s ∈ values.
Proof. intros Hk. rewrite holds_keywords. setoid_rewrite (keyword_string _ _ _ _ Hk). naive_solver. Qed.
Lemma paths_hold point paths :
  holds (MatchKeywords "path_scope" (normalizeScopePaths paths)) (pointPayload point) = true ↔ carried point paths.
Proof.
  rewrite holds_keywords. unfold carried. setoid_rewrite keyword_list; [done|]. by rewrite payload_required by set_solver.
Qed.
Lemma optional_holds point key values (value : option string) :
  pointPayload point !! key = Some ∘ StringValue <$> value →
  Forall (λ c, holds c (pointPayload point) = true)
    (if bool_decide (values = []) then [] else [MatchKeywords key values]) ↔ passes values value = true.
Proof.
  intros Hk. rewrite passes_spec. case_bool_decide as Hv; [by rewrite Hv, Forall_nil; naive_solver|].
  rewrite Forall_singleton, holds_keywords. setoid_rewrite (keyword_optional _ _ _ _ Hk). naive_solver.
Qed.
Lemma generation_holds point generation :
  Forall (λ c, holds c (pointPayload point) = true)
    (match generation with Some g => [MatchKeyword "collection_generation" g] | None => [] end) ↔
  ∀ g, generation = Some g → pt_CollectionGeneration point = g.
Proof.
  destruct generation as [g|]; [|by rewrite Forall_nil; naive_solver]. rewrite Forall_singleton, keyword_holds.
  - naive_solver.
  - by rewrite payload_required by set_solver.
Qed.

Lemma stale_holds point b : holds (MatchBool "stale" b) (pointPayload point) = true ↔ pt_Stale point = b.
Proof.
  assert (pointPayload point !! "stale" = Some (Some (BoolValue (pt_Stale point)))) as Hs
    by by rewrite payload_required by set_solver.
  rewrite holds_bool, Hs. naive_solver.
Qed.

(** What the conditions common to all queries say of the payload of a point. *)
Lemma access_holds point query :
  Forall (λ c, holds c (pointPayload point) = true) (access_conditions query) ↔
  (pt_TenantID point = qy_TenantID query ∧ pt_RepositoryID point = qy_RepositoryID query ∧
   pt_Status point = "active" ∧ pt_Stale point = false ∧
   pt_ArtifactFamily point ∈ fl_ArtifactFamilies (qy_Filters query) ∧
   pt_AuthorityClass point ∈ fl_AuthorityClasses (qy_Filters query) ∧
   carried point (sc_AllowedPaths (qy_Scope query))) ∧
  (∀ g, qy_ExpectedGeneration query = Some g → pt_CollectionGeneration point = g) ∧
  passes (fl_Languages (qy_Filters query)) (pt_Language point) = true ∧
  passes (fl_SymbolKinds (qy_Filters query)) (pt_SymbolKind point) = true.
Proof.
  unfold access_conditions. cbv zeta. rewrite !Forall_app, generation_holds.
  rewrite (optional_holds _ _ _ _ (payload_language point)), (optional_holds _ _ _ _ (payload_kind point)).
  rewrite !Forall_cons, Forall_nil, paths_hold, stale_holds.
  rewrite (keyword_holds _ "tenant_id" _ (pt_TenantID point)), (keyword_holds _ "repository_id" _ (pt_RepositoryID point)),
    (keyword_holds _ "status" _ (pt_Status point)), (keywords_hold _ "artifact_family" _ (pt_ArtifactFamily point)),
    (keywords_hold _ "authority_class" _ (pt_AuthorityClass point)) by (by rewrite payload_required by set_solver).
  tauto.
Qed.

Lemma groups_spec families bound global f :
  retrievalFamilyGroups families = (bound, global) →
  (f ∈ bound ↔ RetrievalFamilyRequiresSourceCommit f = true ∧ f ∈ families) ∧
  (f ∈ global ↔ RetrievalFamilyRequiresSourceCommit f = false ∧ f ∈ families).
Proof. unfold retrievalFamilyGroups. intros [= <- <-]. by rewrite !list_elem_of_filter. Qed.

Lemma commit_holds point commit :
  holds (MatchKeyword "source_commit" commit) (pointPayload point) = true ↔ pt_SourceCommit point = Some commit.
Proof. rewrite holds_keyword. apply keyword_optional, payload_commit. Qed.
Lemma null_never_holds point : holds (IsNull "source_commit") (pointPayload point) = true ↔ False.
Proof. rewrite holds_null, payload_commit. by destruct (pt_SourceCommit point). Qed.
Lemma family_holds point families :
  holds (MatchKeywords "artifact_family" families) (pointPayload point) = true ↔ pt_ArtifactFamily point ∈ families.
Proof. apply keywords_hold. by rewrite payload_required by set_solver. Qed.
Lemma denied_holds point denied :
  Exists (λ c, holds c (pointPayload point) = true)
    (if bool_decide (denied = []) then [] else [MatchKeywords "path_scope" (normalizeScopePaths denied)]) ↔
  carried point denied.
Proof.
  case_bool_decide as Hd; [|by rewrite Exists_cons, Exists_nil, paths_hold; tauto].
  rewrite Hd, Exists_nil. split; [done|]. intros (v & (? & []%elem_of_nil & _)%normalized_elem & _).
Qed.

(** The part about families: the commit of a source-bound point decides, and a point
    without a commit has no field that could be null. *)
Lemma families_hold point query prefilter :
  qdrantFilter query = Ok prefilter →
  (RetrievalFamilyRequiresSourceCommit (pt_ArtifactFamily point) = false → pt_SourceCommit point = None) →
  selects prefilter (pointPayload point) = true ↔
  Forall (λ c, holds c (pointPayload point) = true) (access_conditions query) ∧
  (RetrievalFamilyRequiresSourceCommit (pt_ArtifactFamily point) = true ∧
   pt_SourceCommit point = Some (sc_SourceCommit (qy_Scope query))) ∧
  ¬ carried point (sc_DeniedPaths (qy_Scope query)).
Proof.
  intros Hf Hcommit. pose proof (proj1 (access_holds point query)) as Hin. unfold qdrantFilter in Hf. cbv zeta in Hf.
  generalize dependent (access_conditions query). intros must Hf Hin.
  destruct (retrievalFamilyGroups _) as [bound global] eqn:Hg.
  destruct (groups_spec _ _ _ (pt_ArtifactFamily point) Hg) as [Hb Hgl].
  destruct bound as [|f1 bound], global as [|g1 global]; cbn [mbind res_bind] in Hf; [done|..]; injection Hf as <-;
    rewrite selects_spec; cbn [ft_Must ft_Should ft_MustNot]; rewrite denied_holds;
    rewrite ?Forall_app, ?Forall_singleton, ?null_never_holds, ?commit_holds, ?Exists_cons, ?Exists_nil, ?holds_all.
  - rewrite elem_of_nil in Hb. tauto.
  - rewrite elem_of_nil in Hgl. destruct (RetrievalFamilyRequiresSourceCommit _); intuition congruence.
  - rewrite !Forall_cons, Forall_nil, !family_holds, null_never_holds, commit_holds.
    destruct (RetrievalFamilyRequiresSourceCommit _); intuition congruence.
Qed.
End prefilter.

Lemma distinct_valid bad e1 e2 values seen : distinct bad e1 e2 values = Ok seen → Forall (λ v, bad v = false) values.
Proof.
  unfold distinct. apply loop_checks. intros x v x' ([] & Hb%fail_if_ok & _)%res_bind_ok. done.
Qed.
Lemma query_paths query :
  ValidateRetrievalQuery query = Ok tt →
  Forall (λ p, validRetrievalPath p = true) (sc_AllowedPaths (qy_Scope query)) ∧
  Forall (λ p, validRetrievalPath p = true) (sc_DeniedPaths (qy_Scope query)).
Proof.
  unfold ValidateRetrievalQuery. intros Hq. do 3 (apply res_bind_ok in Hq as ([] & _ & Hq)).
  apply res_bind_ok in Hq as ([] & Hs & _). unfold validateScopePaths in Hs.
  apply res_bind_ok in Hs as ([] & _ & (seen & Hd%distinct_valid & _)%res_bind_ok).
  rewrite <- Forall_app. eapply Forall_impl; [exact Hd|]. intros p. by rewrite negb_false_iff.
Qed.
Lemma query_families query : ValidateRetrievalQuery query = Ok tt → fl_ArtifactFamilies (qy_Filters query) ≠ [].
Proof.
  unfold ValidateRetrievalQuery. intros Hq. do 4 (apply res_bind_ok in Hq as ([] & _ & Hq)).
  apply res_bind_ok in Hq as ([] & ([] & Hb%fail_if_ok & _)%res_bind_ok & _). bool_prop. tauto.
Qed.

Section prefiltered.
Context `{Sha256}.

Lemma point_shape point :
  ValidateRetrievalPoint point = Ok tt →
  (RetrievalFamilyRequiresSourceCommit (pt_ArtifactFamily point) = false → pt_SourceCommit point = None) ∧
  ∀ path, pt_RepositoryPath point = Some path → validRetrievalPath path = true ∧ path ≠ "**".
Proof.
  unfold ValidateRetrievalPoint. intros Hp. do 4 (apply res_bind_ok in Hp as ([] & _ & Hp)).
  apply res_bind_ok in Hp as ([] & Hc & Hp). do 7 (apply res_bind_ok in Hp as ([] & _ & Hp)).
  apply res_bind_ok in Hp as ([] & Hpath & _). split.
  - intros Hf. apply res_bind_ok in Hc as ([] & _ & Hc%fail_if_ok). rewrite Hf in Hc. cbn in Hc.
    apply bool_decide_eq_false in Hc. by apply eq_None_not_Some.
  - intros path Hpt. rewrite Hpt in Hpath. apply fail_if_ok in Hpath. bool_prop. tauto.
Qed.

Lemma filter_exists query : ValidateRetrievalQuery query = Ok tt → ∃ prefilter, qdrantFilter query = Ok prefilter.
Proof.
  intros Hq%query_families. unfold qdrantFilter. cbv zeta.
  destruct (retrievalFamilyGroups _) as [bound global] eqn:Hg.
  destruct (fl_ArtifactFamilies (qy_Filters query)) as [|f fs]; [done|].
  destruct (groups_spec _ _ _ f Hg) as [Hb Hgl]. destruct bound, global; cbn; [|by eexists..].
  exfalso. rewrite elem_of_nil in Hb, Hgl. destruct (RetrievalFamilyRequiresSourceCommit f); set_solver.
Qed.

Context `{Qdrant, !QdrantLaws}.

(** C17. Before ranking, the vector store selects exactly what the canonical records grant: a
    valid query has a prefilter, and it selects the payload of a valid source-bound point
    with a path if and only if the query may see the record of that point. Scope entries
    and payload keywords are written differently, so this includes that a path is below a
    scope exactly when it carries its keyword; the entry [**/**] is the exception. *)
Theorem prefilter_agrees point query path :
  ValidateRetrievalQuery query = Ok tt → ValidateRetrievalPoint point = Ok tt →
  RetrievalFamilyRequiresSourceCommit (pt_ArtifactFamily point) = true → pt_RepositoryPath point = Some path →
  "**/**" ∉ sc_AllowedPaths (qy_Scope query) ++ sc_DeniedPaths (qy_Scope query) →
  ∃ prefilter, qdrantFilter query = Ok prefilter ∧
    (selects prefilter (pointPayload point) = true ↔ authorized query (record_of point)).
Proof.
  intros Hq Hp Hbound Hpath Hx. destruct (filter_exists query Hq) as [prefilter Hf]. exists prefilter. split; [done|].
  destruct (query_paths query Hq) as [Ha Hd]. destruct (point_shape point Hp) as [Hcommit Hvalid].
  destruct (Hvalid _ Hpath) as [Hv Hstar]. rewrite not_elem_of_app in Hx. destruct Hx as [Hxa Hxd].
  assert (∀ paths, Forall (λ p, validRetrievalPath p = true) paths → "**/**" ∉ paths →
    carried point paths ↔ ∃ p, p ∈ paths ∧ names p (Clean path)) as Hm.
  { intros paths. unfold carried. rewrite Hpath. by apply scopes_match. }
  rewrite (families_hold _ _ _ Hf Hcommit), access_holds, !passes_spec, !Hm by done. split.
  - intros ((? & ? & ? & ?) & [_ ?] & Hno). split; cbn; rewrite ?Hbound, ?Hpath; try tauto.
    split; [tauto|]. intros s Hs Hn. apply Hno. eauto.
  - intros []. cbn in *. rewrite Hbound in *. rewrite Hpath in *. split_and!; try tauto. naive_solver.
Qed.

(** A point of a family that belongs to the whole repository is never found: its payload
    has no commit, the prefilter asks for a commit that is null, and the vector store
    matches null only where the field is there. *)
Theorem global_points_never_found point query prefilter :
  ValidateRetrievalPoint point = Ok tt → RetrievalFamilyRequiresSourceCommit (pt_ArtifactFamily point) = false →
  qdrantFilter query = Ok prefilter → selects prefilter (pointPayload point) = false.
Proof.
  intros Hp Hglobal Hf. destruct (point_shape point Hp) as [Hcommit _]. apply not_true_iff_false.
  rewrite (families_hold _ _ _ Hf Hcommit), Hglobal. intuition congruence.
Qed.
End prefiltered.

(** ** The way through the vector store *)

Lemma payload_string point key s :
  pointPayload point !! key = Some (Some (StringValue s)) → s ≠ "" → payloadString (pointPayload point) key = s.
Proof.
  intros Hk Hs. unfold payloadString, optionalPayloadString. rewrite Hk. cbn. by rewrite bool_decide_eq_false_2.
Qed.
Lemma payload_optional point key (value : option string) :
  pointPayload point !! key = Some ∘ StringValue <$> value → value ≠ Some "" →
  optionalPayloadString (pointPayload point) key = value.
Proof.
  intros Hk Hs. unfold optionalPayloadString. rewrite Hk. destruct value as [s|]; cbn; [|done].
  rewrite bool_decide_eq_false_2 by congruence. done.
Qed.
Lemma payload_path point : pointPayload point !! "repository_path" = Some ∘ StringValue <$> pt_RepositoryPath point.
Proof. unfold pointPayload. rewrite optional_same; [done|]. by rewrite !optional_other by done. Qed.
Lemma payload_proofs point :
  Forall (λ s, s ≠ "") (pt_ProofRefs point) → payloadStrings (pointPayload point) "proof_refs" = pt_ProofRefs point.
Proof.
  intros Hs. unfold payloadStrings.
  assert (pointPayload point !! "proof_refs" = Some (Some (ListValue (pt_ProofRefs point)))) as ->
    by by rewrite payload_required by set_solver.
  destruct (existsb _ (pt_ProofRefs point)) eqn:He; [|done]. exfalso. apply existsb_exists in He as (s & Hin & ->%bool_decide_eq_true).
  rewrite Forall_forall in Hs. by apply (Hs "" (proj2 (list_elem_of_In _ _) Hin)).
Qed.

Section roundtrip.
Context `{Sha256}.

(** No text a valid point hands to its payload is empty. *)
Record filled (point : RetrievalPoint) : Prop := {
  fi_point : pt_PointID point ≠ "";
  fi_entity : pt_EntityID point ≠ "";
  fi_family : pt_ArtifactFamily point ≠ "";
  fi_hash : pt_SourceHash point ≠ "";
  fi_class : pt_AuthorityClass point ≠ "";
  fi_commit : pt_SourceCommit point ≠ Some "";
  fi_path : pt_RepositoryPath point ≠ Some "";
  fi_proofs : Forall (λ s, s ≠ "") (pt_ProofRefs point);
}.

Lemma bounded_filled values maximum bound label :
  validateUniqueBoundedStrings values maximum bound label = Ok tt → Forall (λ s, s ≠ "") values.
Proof.
  unfold validateUniqueBoundedStrings. intros ([] & _ & (? & Hd%distinct_valid & _)%res_bind_ok)%res_bind_ok.
  eapply Forall_impl; [exact Hd|]. intros s [Hb _]%orb_false_iff ->. discriminate Hb.
Qed.

Lemma valid_point_filled point : ValidateRetrievalPoint point = Ok tt → filled point.
Proof.
  unfold ValidateRetrievalPoint. intros Hp. apply res_bind_ok in Hp as ([] & _ & Hp).
  apply res_bind_ok in Hp as ([] & Hid%fail_if_ok & Hp). apply res_bind_ok in Hp as ([] & He%fail_if_ok & Hp).
  apply res_bind_ok in Hp as ([] & Hf%fail_if_ok & Hp). apply res_bind_ok in Hp as ([] & _ & Hp).
  apply res_bind_ok in Hp as ([] & Hc%fail_if_ok & Hp). apply res_bind_ok in Hp as ([] & Hh%fail_if_ok & Hp).
  do 2 (apply res_bind_ok in Hp as ([] & _ & Hp)). apply res_bind_ok in Hp as ([] & Hcl%fail_if_ok & Hp).
  do 2 (apply res_bind_ok in Hp as ([] & _ & Hp)). apply res_bind_ok in Hp as ([] & Hpath & Hp).
  apply res_bind_ok in Hp as ([] & Hproofs%bounded_filled & _). split; [..|done].
  all: intros Hx; rewrite Hx in *; try discriminate.
Qed.

(** What the vector store gives back for a valid point is that point: the candidate read
    from the payload written for it has its identity, family, commit, hash, class, path and
    proofs, without ranks. *)
Theorem payload_roundtrip point limit :
  ValidateRetrievalPoint point = Ok tt → (1 ≤ limit)%Z →
  qdrantCandidates [Some (pointPayload point)] limit = [candidate_of_point point].
Proof.
  intros []%valid_point_filled Hl. unfold qdrantCandidates. cbn [omap list_omap id fmap list_fmap].
  rewrite (payload_string _ "point_id" (pt_PointID point)), (payload_string _ "entity_id" (pt_EntityID point)),
    (payload_string _ "artifact_family" (pt_ArtifactFamily point)), (payload_string _ "source_hash" (pt_SourceHash point)),
    (payload_string _ "authority_class" (pt_AuthorityClass point)) by (done || by rewrite payload_required by set_solver).
  rewrite (payload_optional _ _ _ (payload_commit point)), (payload_optional _ _ _ (payload_path point)),
    payload_proofs by done.
  destruct (Z.to_nat limit) eqn:Hn; [lia|]. cbn. by rewrite take_nil.
Qed.
End roundtrip.

(** ** A repository with one symbol

    The store holds one active symbol card and one memory card; the digest is a toy of 32
    bytes, and the JSON of a policy its limits. *)

Module Sample.
#[local] Instance sample_sha : Sha256 := IndexValidation.Sample.demo_sha.
#[local] Instance sample_json : RetrievalJson := {| policy_json policy := Ok (pretty (po_Limit policy)) |}.
#[local] Instance in_order : CandidateVisits := λ l, l.
#[local] Instance backwards : CandidateVisits | 10 := λ l, reverse l.

#[local] Fixpoint condition_holds (c : Condition) (payload : Payload) : bool :=
  let has key value := match payload !! key with
                       | Some (Some (StringValue s)) => bool_decide (s = value)
                       | Some (Some (ListValue values)) => bool_decide (value ∈ values)
                       | _ => false
                       end in
  match c with
  | MatchKeyword key value => has key value
  | MatchKeywords key values => existsb (has key) values
  | MatchBool key b => match payload !! key with Some (Some (BoolValue b')) => Bool.eqb b' b | _ => false end
  | IsNull key => match payload !! key with Some (Some NullValue) => true | _ => false end
  | AllOf conditions => forallb (λ c, condition_holds c payload) conditions
  end.
#[local] Instance sample_qdrant : Qdrant := {|
  holds := condition_holds;
  selects f payload :=
    forallb (λ c, condition_holds c payload) (ft_Must f) &&
    (bool_decide (length (ft_Should f) = 0) || existsb (λ c, condition_holds c payload) (ft_Should f)) &&
    negb (existsb (λ c, condition_holds c payload) (ft_MustNot f));
|}.
Lemma keyword_decided payload key value :
  match payload !! key with
  | Some (Some (StringValue s)) => bool_decide (s = value)
  | Some (Some (ListValue values)) => bool_decide (value ∈ values)
  | _ => false
  end = true ↔ has_keyword payload key value.
Proof.
  unfold has_keyword. destruct (payload !! key) as [[[]|]|]; rewrite ?bool_decide_eq_true; naive_solver.
Qed.
#[local] Instance sample_laws : QdrantLaws.
Proof.
  split; cbn.
  - intros. apply keyword_decided.
  - intros key values payload. rewrite existsb_exists. setoid_rewrite keyword_decided.
    by setoid_rewrite <- list_elem_of_In.
  - intros key b payload. destruct (payload !! key) as [[[]|]|]; try (split; congruence).
    rewrite Bool.eqb_true_iff. split; congruence.
  - intros key payload. destruct (payload !! key) as [[[]|]|]; split; congruence.
  - intros conditions payload. rewrite forallb_forall, Forall_forall. by setoid_rewrite <- list_elem_of_In.
  - intros f payload. rewrite !andb_true_iff, orb_true_iff, bool_decide_eq_true, negb_true_iff, <- not_true_iff_false.
    rewrite !existsb_exists, forallb_forall, !Exists_exists, Forall_forall, length_zero_iff_nil.
    setoid_rewrite <- list_elem_of_In. tauto.
Qed.

Definition one : float64 := f64_of_int 1.
Definition commit : string := string_of (replicate 40 "a"%char).
Definition descriptor : EmbeddingDescriptor := mkDescriptor "m" "1" 1 "s" (mkTime 1 0).
Definition generation : string := RetrievalGenerationID "m" "1" 1 "s".
Definition point (entity family : string) (commit path : option string) : RetrievalPoint :=
  let hash := CardTextHash entity in
  mkPoint (RetrievalPointID generation entity hash) RetrievalSchemaVersion generation
    "tenant_00000000-0000-4000-8000-000000000001" "repo_00000000-0000-4000-8000-000000000002"
    entity family commit hash entity hash "active" "canonical" false (Some "go") None path ["proof"] []
    [one] (mkSparse [1%Z] [one]) descriptor.
Definition symbol : RetrievalPoint := point "symbol_a" "symbol" (Some commit) (Some "pkg/a.go").
Definition memory : RetrievalPoint := point "memory_b" "memory" None None.
Definition query_of (families allowed denied : list string) : RetrievalQuery :=
  mkQuery "retrieval_request_1" RetrievalSchemaVersion "tenant_00000000-0000-4000-8000-000000000001"
    "repo_00000000-0000-4000-8000-000000000002" "where is a" (mkScope commit allowed denied)
    (mkFilters families ["canonical"] ["go"] []) (mkPolicy 2 3 3 one one 60) (Some generation).
Definition query : RetrievalQuery := query_of ["symbol"] ["pkg/**"] ["pkg/internal"].

(** The store answers what its filter selects; the resolver knows both cards. *)
Definition service (extra : list (option Payload)) : QueryService :=
  mkService (Some (λ request, Ok ((Some <$> filter (λ payload, selects (qp_Filter request) payload = true)
      [pointPayload symbol; pointPayload memory]) ++ extra)))
    "cards" (Some (mkEmbedder descriptor (λ _, Ok [one]))) (Some (mkEncoder "s" (λ _, Ok (mkSparse [1%Z] [one]))))
    (Some (λ id, Ok (filter (λ c, cn_PointID c = id) [record_of symbol; record_of memory]))) (Some (Ok 0%Z)) 0.

Definition found (r : Fault.result RetrievalResult) : option (list string * list RetrievalRejection) :=
  match r with Ok result => Some (cd_EntityID <$> rl_Accepted result, rl_Rejections result) | Err _ => None end.

(** The symbol is found; a denied path hides it. *)
Example search_finds_symbol :
  found (Search (service []) query) = Some (["symbol_a"], []) ∧
  found (Search (service []) (query_of ["symbol"] ["pkg/**"] ["pkg/a.go"])) = Some ([], []).
Proof. vm_compute. by split. Qed.

(** The memory card is not found, although the query may see it and the resolver knows it. *)
Example search_misses_memory :
  ValidateRetrievalPoint memory = Ok tt ∧
  authorizeCanonicalCandidate (query_of ["memory"] ["**"] []) (candidate_of_point memory) (record_of memory) = "" ∧
  found (Search (service []) (query_of ["memory"] ["**"] [])) = Some ([], []).
Proof. vm_compute. by repeat split. Qed.

(** One payload with a malformed point identity makes the whole search fail: the rejection
    that reports it is refused by the contract of results. *)
Example malformed_point_fails_search :
  let stray : Payload := {["point_id" := Some (StringValue "stray")]} in
  Search (service [Some stray]) query =
    Err (Errorf (Lit "validate governed retrieval result: %w") (plain_error "retrieval rejection is invalid")).
Proof. vm_compute. reflexivity. Qed.

(** A lag beyond a million events is answered with a result the contract refuses. *)
Example large_lag_breaks_contract :
  let lagging := let s := service [] in
    mkService (qs_Client s) (qs_CollectionName s) (qs_Embedder s) (qs_Sparse s) (qs_Resolver s) (Some (Ok 1000001%Z)) 0 in
  match Search lagging query with
  | Ok result => ValidateRetrievalResult query result = Err (plain_error "retrieval projection lag is invalid")
  | Err _ => False
  end.
Proof. vm_compute. reflexivity. Qed.

(** *** Witnesses *)

#[local] Instance in_order_all : @CandidateVisitsAll in_order.
Proof. by intros l. Qed.
#[local] Instance backwards_all : @CandidateVisitsAll backwards.
Proof. intros l. apply reverse_Permutation. Qed.

Lemma search_deterministic_witness :
  @Search _ _ in_order (service []) query = @Search _ _ backwards (service []) query.
Proof. apply search_deterministic; apply _. Defined.

Lemma search_only_authorized_witness :
  ∃ result, Search (service []) query = Ok result ∧ (cd_EntityID <$> rl_Accepted result) = ["symbol_a"] ∧
    ∀ candidate, candidate ∈ rl_Accepted result →
      ∃ resolver c, qs_Resolver (service []) = Some resolver ∧ resolver (cd_PointID candidate) = Ok [c] ∧
        authorized query c ∧ restates candidate c.
Proof.
  assert (found (Search (service []) query) = Some (["symbol_a"], [])) as Hf by (vm_compute; reflexivity).
  destruct (Search (service []) query) as [result|] eqn:Hs; [|discriminate Hf].
  exists result. split; [reflexivity|]. split; [injection Hf; intros; assumption|].
  exact (proj1 (search_only_authorized _ _ _ Hs)).
Defined.

Lemma search_answers_meet_contract_witness :
  ∃ result, Search (service []) query = Ok result ∧ ValidateRetrievalResult query result = Ok tt.
Proof.
  assert (found (Search (service []) query) = Some (["symbol_a"], [])) as Hf by (vm_compute; reflexivity).
  destruct (Search (service []) query) as [result|] eqn:Hs; [|discriminate Hf].
  exists result. split; [reflexivity|].
  refine (search_answers_meet_contract (service []) query result _ _ eq_refl Hs). intros lag [= <-]. lia.
Defined.

Lemma prefilter_agrees_witness :
  ∃ prefilter, qdrantFilter query = Ok prefilter ∧
    (selects prefilter (pointPayload symbol) = true ↔ authorized query (record_of symbol)).
Proof.
  apply (prefilter_agrees symbol query "pkg/a.go"); [vm_compute; reflexivity..|].
  apply (bool_decide_unpack _). vm_compute. exact I.
Defined.

Lemma payload_roundtrip_witness :
  qdrantCandidates [Some (pointPayload symbol)] 1 = [candidate_of_point symbol].
Proof. apply (payload_roundtrip symbol 1); [vm_compute; reflexivity|lia]. Defined.

Lemma global_points_never_found_witness :
  ∃ prefilter, qdrantFilter (query_of ["memory"] ["**"] []) = Ok prefilter ∧
    selects prefilter (pointPayload memory) = false.
Proof.
  destruct (qdrantFilter (query_of ["memory"] ["**"] [])) as [prefilter|] eqn:Hf; [|vm_compute in Hf; discriminate Hf].
  exists prefilter. split; [reflexivity|].
  apply (global_points_never_found memory (query_of ["memory"] ["**"] [])); [vm_compute; reflexivity..|exact Hf].
Defined.
End Sample.
