(* ===== verification/PgTables.v ===== *)
(** * Package [internal/postgres]: the canonical tables

    The tables of the migrations that the run, control, event and projection
    repositories use, with the constraints their statements can violate. Rows
    are the columns the code reads or writes. Tenant and repository identities
    are compared as text, as the lease tables do: a store is opened with
    canonical UUID texts. A [json] document stands for what a [jsonb] column
    holds, so storing changes nothing but may be refused ([jsonb_ok]: an
    escaped NUL). A [timestamptz] column holds whole microseconds and is read
    in UTC ([timestamptz]). *)

From S2P Require Import Prelude GoLib Fault Contracts Identity RunState.
From S2P Require Import ControlMemory Postgres Leases.

(** ** Parameters of the server and the driver *)

(** The [::uuid] cast: the canonical text, or none for a malformed argument. *)
Class UuidText := uuid_in : string → option string.

(** What [crypto/rand] delivers before the n-th statement. *)
Class Entropy := entropy_source : nat → string.

(** How many identity values other transactions took before the n-th statement. *)
Class Sequences := sequence_gap : nat → nat.

(** Whether a document can be stored as [jsonb]. *)
Class Jsonb `{Json} := jsonb_ok : json → bool.

(** ** Rows *)

(** Tenant and repository. *)
Definition Scope : Type := string * string.

Record RunRow := mkRunRow {
  run_scope : Scope;
  run_sprint : option string;
  run_objective : string;
  run_state : string;
  run_version : Z;
  run_created : Time;
  run_updated : Time;
}.

Record SprintRow := mkSprintRow {
  sp_scope : Scope;
  sp_sequence : Z;
  sp_title : string;
  sp_objective : string;
  sp_status : string;
  sp_version : Z;
  sp_run : string;
  sp_created : Time;
  sp_updated : Time;
}.

Record DecisionRow := mkDecisionRow {
  de_scope : Scope;
  de_sprint : string;
  de_run : string;
  de_action : string;
  de_risk : string;
  de_status : string;
  de_version : Z;
  de_requested : string;
  de_decided : option string;
  de_reason : option string;
  de_created : Time;
  de_updated : Time;
  de_decided_at : option Time;
}.

Record ReceiptRow `{Json} := mkReceiptRow {
  rc_hash : string;
  rc_status : Z;
  rc_body : json;
}.

Record EventRow `{Json} := mkEventRow {
  ev_id : string;
  ev_scope : Scope;
  ev_aggregate_type : string;
  ev_aggregate : string;
  ev_version : Z;
  ev_type : string;
  ev_occurred : Time;
  ev_actor_type : string;
  ev_actor : string;
  ev_correlation : string;
  ev_causation : option string;
  ev_key : string;
  ev_payload : json;
}.

(** The delivery state that [outbox] and [projection_deliveries] rows share. *)
Record Delivery := mkDelivery {
  dl_state : string;
  dl_available : Time;
  dl_locked_by : option string;
  dl_locked_until : option Time;
  dl_token : Z;
  dl_attempts : Z;
  dl_error : option string;
  dl_published : option Time;
}.

Record OutboxRow := mkOutboxRow {
  ob_id : Z;
  ob_scope : Scope;
  ob_event : string;
  ob_delivery : Delivery;
}.

Record DeadLetterRow `{Json} := mkDeadLetterRow {
  dd_scope : Scope;
  dd_projector : string;
  dd_outbox : Z;
  dd_event : string;
  dd_class : string;
  dd_message : string;
  dd_payload : json;
}.

Record ProjectionRow := mkProjectionRow {
  pj_objective : string;
  pj_state : string;
  pj_version : Z;
  pj_event : string;
  pj_updated : Time;
}.

Record ConsumerRow := mkConsumerRow { cs_status : string; cs_hash : string }.

Record AttemptRow := mkAttemptRow {
  at_tenant : string;
  at_run : string;
  at_ordinal : Z;
  at_status : string;
  at_lease_type : string;
  at_lease_id : string;
  at_worker : string;
  at_token : Z;
  at_started : option Time;
  at_finished : option Time;
  at_version : Z;
  at_created : Time;
  at_updated : Time;
}.

(** The columns of [delivery_publications] beside its key. *)
Record PublicationRow := mkPublicationRow {
  pb_lease_set : string;
  pb_ttl_ms : Z;
  pb_ref : string;
  pb_previous : option string;
  pb_result : string;
  pb_authority_sha : string;
  pb_receipt_sha : string;
  pb_intent_sha : string;
  pb_receipt : string;
  pb_state : string;
  pb_observed : option string;
  pb_prepared : Time;
  pb_published : option Time;
  pb_updated : Time;
}.

(** Scope, delivery and attempt: the primary key. *)
Abbreviation PublicationKey := (Scope * string * string)%type.
Abbreviation Journal := (gmap PublicationKey PublicationRow).

(** ** Tables *)

(** Scope and projector name. *)
Abbreviation ProjectorKey := (Scope * string)%type.

Record Canonical `{Json} := mkCanonical {
  repositories : gset Scope;
  runs : gmap RunID RunRow;
  sprints : gmap string SprintRow;
  decisions : gmap DecisionID DecisionRow;
  (** tenant, scope, key *)
  idempotency_keys : gmap (string * string * string) ReceiptRow;
}.

Record Stream `{Json} := mkStream {
  events : list EventRow;
  outbox : list OutboxRow;
  outbox_last : Z;
  consumers : gmap ProjectorKey ConsumerRow;
  deliveries : gmap (ProjectorKey * Z) Delivery;
  checkpoints : gmap ProjectorKey Z;
  dead_letters : list DeadLetterRow;
  run_projections : gmap (ProjectorKey * RunID) ProjectionRow;
}.

Record Work := mkWork {
  attempts : gmap string AttemptRow;
  (** [None] before the migration that creates the table. *)
  delivery_publications : option Journal;
  lease_tables : Tables;
}.

Record Forja `{Json} := mkForja { canonical : Canonical; stream : Stream; work : Work }.

Section setters.
Context `{Json}.

Definition with_canonical (f : Canonical → Canonical) (t : Forja) : Forja :=
  mkForja _ (f (canonical t)) (stream t) (work t).
Definition with_stream (f : Stream → Stream) (t : Forja) : Forja :=
  mkForja _ (canonical t) (f (stream t)) (work t).
Definition with_work (f : Work → Work) (t : Forja) : Forja :=
  mkForja _ (canonical t) (stream t) (f (work t)).

Definition set_lease_tables (l : Tables) : Forja → Forja :=
  with_work (λ w, mkWork (attempts w) (delivery_publications w) l).
Definition set_journal (f : Journal → Journal) : Forja → Forja :=
  with_work (λ w, mkWork (attempts w) (f <$> delivery_publications w) (lease_tables w)).

Definition set_runs (f : gmap RunID RunRow → gmap RunID RunRow) : Forja → Forja :=
  with_canonical (λ c, mkCanonical _ (repositories c) (f (runs c)) (sprints c) (decisions c)
                         (idempotency_keys c)).
Definition set_sprints (f : gmap string SprintRow → gmap string SprintRow) : Forja → Forja :=
  with_canonical (λ c, mkCanonical _ (repositories c) (runs c) (f (sprints c)) (decisions c)
                         (idempotency_keys c)).
Definition set_decisions (f : gmap DecisionID DecisionRow → gmap DecisionID DecisionRow)
    : Forja → Forja :=
  with_canonical (λ c, mkCanonical _ (repositories c) (runs c) (sprints c) (f (decisions c))
                         (idempotency_keys c)).
Definition set_receipts
    (f : gmap (string * string * string) ReceiptRow → gmap (string * string * string) ReceiptRow)
    : Forja → Forja :=
  with_canonical (λ c, mkCanonical _ (repositories c) (runs c) (sprints c) (decisions c)
                         (f (idempotency_keys c))).
End setters.

(** A transaction on the lease tables. *)
Definition on_leases `{Json} {A} (m : M error (DB Tables) A) : M error (DB Forja) A := λ s,
  let '(r, s') := m (mkDB (lease_tables (work (tables s))) (readings s) (statements s)) in
  (r, mkDB (set_lease_tables (tables s') (tables s)) (readings s') (statements s')).

(** ** Constraints *)

Definition first_fault (l : list (option pgfault)) : option pgfault := head (omap id l).

Definition violated (code : string) (b : bool) : option pgfault :=
  if b then Some (PgError code) else None.

Definition CheckViolation := "23514".
Definition UniqueViolation := "23505".
Definition ForeignKeyViolation := "23503".

(** A Go [int] bound to an [integer] column: the driver refuses to encode it. *)
Definition int4_fault (z : Z) : option pgfault :=
  if ((z <? - 2 ^ 31) || (2 ^ 31 - 1 <? z))%Z
  then Some (DriverError "value is out of range for int4") else None.

(** [char_length(s) BETWEEN lo AND hi] fails. *)
Definition bad_length (lo hi : Z) (s : string) : bool := outside lo hi s.

(** The regular expression [^<prefix>_[A-Za-z0-9_-]+$]. *)
Definition word_byte (c : Ascii.ascii) : bool :=
  in_range 48 57 c || in_range 65 90 c || in_range 97 122 c || in_range 95 95 c ||
  in_range 45 45 c.
Definition prefixed_word (prefix s : string) : bool :=
  match strip_prefix (prefix +:+ "_") s with
  | Some r => negb (bool_decide (r = "")) && forallb word_byte (String.list_ascii_of_string r)
  | None => false
  end.

(** [time.Time.Truncate], counted from the zero time. *)
Definition Truncate (t : Time) (d : Z) : Time :=
  mkTime (instant t - (instant t - instant zero_time) `mod` d) (zone_offset t).

Definition timestamptz (t : Time) : Time := Truncate (UTC t) Microsecond.

(** [run_id ~ '^run_...$'], the length and version checks, [updated_at >= created_at]. *)
Definition run_check (id : RunID) (row : RunRow) : bool :=
  negb (match_classes runIDPattern id) || bad_length 3 8000 (run_objective row) ||
  (run_version row <? 1)%Z || Before (run_updated row) (run_created row).

Definition sprint_check (row : SprintRow) : bool :=
  (sp_sequence row <? 0)%Z || bad_length 1 500 (sp_title row) ||
  bad_length 3 8000 (sp_objective row) || (sp_version row <? 1)%Z ||
  negb (bool_decide (sp_status row ∈
    ["proposed"; "awaiting_approval"; "approved"; "rejected"; "cancelling"])).

Definition decision_check (id : DecisionID) (row : DecisionRow) : bool :=
  negb (match_classes decisionIDPattern id) ||
  negb (bool_decide (de_action row = "submit_sprint")) ||
  negb (bool_decide (de_risk row ∈ ["low"; "medium"; "high"; "critical"])) ||
  (de_version row <? 1)%Z || bad_length 1 160 (de_requested row) ||
  match de_decided row with Some d => bad_length 1 160 d | None => false end ||
  match de_reason row with Some r => bad_length 3 2000 r | None => false end ||
  Before (de_updated row) (de_created row) ||
  match de_decided_at row with Some t => Before t (de_created row) | None => false end ||
  negb ((bool_decide (de_status row = "pending") && bool_decide (de_decided row = None) &&
         bool_decide (de_reason row = None) && bool_decide (de_decided_at row = None)) ||
        (bool_decide (de_status row ∈ ["approved"; "rejected"]) &&
         bool_decide (is_Some (de_decided row)) && bool_decide (is_Some (de_reason row)) &&
         bool_decide (is_Some (de_decided_at row)))).

(** As migration 000008 leaves the constraint. *)
Definition eventAggregateTypes : list string :=
  ["sprint"; "task"; "run"; "attempt"; "approval"; "decision"; "audit"; "artifact"; "artifact_operation";
   "artifact_manifest"; "conversation"; "message"; "memory_candidate"; "memory"; "index_snapshot"; "projection"].

Definition event_check `{Json} (row : EventRow) : bool :=
  negb (prefixed_word "event" (ev_id row)) ||
  negb (bool_decide (ev_aggregate_type row ∈ eventAggregateTypes)) ||
  bad_length 3 160 (ev_aggregate row) || (ev_version row <? 1)%Z ||
  bad_length 3 120 (ev_type row) ||
  negb (bool_decide (ev_actor_type row ∈ ["human"; "agent"; "worker"; "system"])) ||
  bad_length 1 160 (ev_actor row) || bad_length 3 160 (ev_correlation row) ||
  match ev_causation row with Some c => (160 <? RuneCountInString c)%Z | None => false end ||
  bad_length 8 200 (ev_key row).

(** Equal under [UNIQUE (tenant_id, repository_id, aggregate_type, aggregate_id,
    aggregate_version)]. *)
Definition same_version `{Json} (a b : EventRow) : bool :=
  bool_decide (ev_scope a = ev_scope b) &&
  bool_decide (ev_aggregate_type a = ev_aggregate_type b) &&
  bool_decide (ev_aggregate a = ev_aggregate b) && (ev_version a =? ev_version b)%Z.

Section constraints.
Context `{Json, !Jsonb}.

Definition run_insert_fault (id : RunID) (row : RunRow) (c : Canonical) : option pgfault :=
  first_fault
    [int4_fault (run_version row); violated CheckViolation (run_check id row);
     violated UniqueViolation (bool_decide (is_Some (runs c !! id)));
     violated ForeignKeyViolation (negb (bool_decide (run_scope row ∈ repositories c)));
     violated ForeignKeyViolation
       (match run_sprint row with
        | Some u => negb (match sprints c !! u with
                          | Some sp => bool_decide (sp_scope sp = run_scope row)
                          | None => false
                          end)
        | None => false
        end)].

(** The sprint's reference to its run is deferred to the end of the transaction. *)
Definition sprint_insert_fault (u : string) (row : SprintRow) (c : Canonical) : option pgfault :=
  first_fault
    [int4_fault (sp_version row); int4_fault (sp_sequence row);
     violated CheckViolation (sprint_check row);
     violated UniqueViolation
       (bool_decide (is_Some (sprints c !! u)) ||
        bool_decide (map_Exists (λ _ sp,
          (sp_scope sp = sp_scope row ∧ sp_run sp = sp_run row) ∨
          ((sp_scope sp).2 = (sp_scope row).2 ∧ sp_sequence sp = sp_sequence row)) (sprints c)));
     violated ForeignKeyViolation (negb (bool_decide (sp_scope row ∈ repositories c)))].

Definition sprint_run_fault (row : SprintRow) (c : Canonical) : option pgfault :=
  violated ForeignKeyViolation
    (negb (match runs c !! sp_run row with
           | Some r => bool_decide (run_scope r = sp_scope row)
           | None => false
           end)).

Definition decision_insert_fault (id : DecisionID) (row : DecisionRow) (c : Canonical)
    : option pgfault :=
  first_fault
    [int4_fault (de_version row); violated CheckViolation (decision_check id row);
     violated UniqueViolation
       (bool_decide (is_Some (decisions c !! id)) ||
        (bool_decide (de_status row = "pending") &&
         bool_decide (map_Exists (λ _ d, de_scope d = de_scope row ∧ de_sprint d = de_sprint row ∧
           de_action d = de_action row ∧ de_status d = "pending") (decisions c))));
     violated ForeignKeyViolation
       (negb (match sprints c !! de_sprint row with
              | Some sp => bool_decide (sp_scope sp = de_scope row)
              | None => false
              end));
     violated ForeignKeyViolation
       (negb (match runs c !! de_run row with
              | Some r => bool_decide (run_scope r = de_scope row)
              | None => false
              end))].

Definition receipt_insert_fault (k : string * string * string) (row : ReceiptRow) (c : Canonical)
    : option pgfault :=
  first_fault
    [violated "22P05" (negb (jsonb_ok (rc_body row)));
     violated UniqueViolation (bool_decide (is_Some (idempotency_keys c !! k)));
     violated ForeignKeyViolation
       (negb (bool_decide (set_Exists (λ sc : Scope, sc.1 = k.1.1) (repositories c))))].

Definition event_insert_fault (row : EventRow) (t : Forja) : option pgfault :=
  first_fault
    [int4_fault (ev_version row); violated "22P05" (negb (jsonb_ok (ev_payload row)));
     violated CheckViolation (event_check row);
     violated UniqueViolation
       (existsb (λ e, bool_decide (ev_id e = ev_id row) || same_version e row)
          (events (stream t)));
     violated ForeignKeyViolation (negb (bool_decide (ev_scope row ∈ repositories (canonical t))))].
End constraints.
