(* ===== verification/PgEvents.v ===== *)
(** * Package [internal/postgres]: receipts, events and audits

    What every command of [store.go] and [control.go] is made of: the request
    hash and its receipt, the event with its outbox message, the audit event,
    the row readers and the publication fence. *)

From S2P Require Import Prelude GoLib Fault Contracts Identity RunState.
From S2P Require Import ControlMemory Postgres Leases PgTables.

Definition postgresTimestamp (value : Time) : Time := Truncate (UTC value) Microsecond.

Definition validateObjective (objective : string) : result unit :=
  fail_if (runes_outside 3 8000 objective)
    (fault CodeInvalidArgument "postgres.validateObjective"
       "objective length must be between 3 and 8000 characters").

Definition store_scope (st : PgStore) : Scope := (tenantID st, repositoryID st).

(** The text parameters of a statement of the store. *)
Definition own (st : PgStore) (params : list string) : list string :=
  tenantID st :: repositoryID st :: params.

(** ** Rows as the code sees them *)

Definition scanRun (id : RunID) (row : RunRow) : Run :=
  mkRun id "1.0" (run_objective row) (run_state row) (run_version row)
    (timestamptz (run_created row)) (timestamptz (run_updated row)).

Definition scanSprint (u : string) (row : SprintRow) (pending : option string) : Sprint :=
  mkSprint ("sprint_" +:+ u) "1.0" (sp_sequence row) (sp_title row) (sp_objective row)
    (sp_status row) (sp_version row) (sp_run row) pending
    (timestamptz (sp_created row)) (timestamptz (sp_updated row)).

Definition scanDecision (id : DecisionID) (row : DecisionRow) : Decision :=
  mkDecision id "1.0" ("sprint_" +:+ de_sprint row) (de_run row) (de_action row) (de_risk row)
    (de_status row) (de_version row) (de_requested row) (de_decided row) (de_reason row)
    (timestamptz (de_created row)) (timestamptz (de_updated row))
    (timestamptz <$> de_decided_at row).

(** A row of the store's tenant and repository. *)
Definition in_scope {A} (scope_of : A → Scope) (sc : Scope) (o : option A) : option A :=
  match o with
  | Some row => if bool_decide (scope_of row = sc) then Some row else None
  | None => None
  end.

Section receipts.
Context `{Sha256}.

Definition hashRequest (parts : list string) : string := Sum256 (Join parts NUL).

Definition hashCommand (metadata : CommandMetadata) (parts : list string) : string :=
  let causation := default "" (CausationID metadata) in
  let parts := parts ++ [ActorType metadata; ActorID metadata; causation] in
  hashRequest (if bool_decide (AuditToolName metadata = "") then parts
               else parts ++ [AuditToolName metadata]).
End receipts.

Section events.
Context `{Clock, Database, Json, !Jsonb, Entropy, Sequences}.

Abbreviation Tx := (M error (DB Forja)).

(** [s.clock.Now()]. *)
Definition storeNow : Tx Time := clock_timestamp.

Definition clocked {A} (m : M error nat A) : Tx A := λ s,
  let '(r, n) := m (readings s) in (r, mkDB (tables s) n (statements s)).

(** [fault.Wrap] of the error of a computation. *)
Definition wrapping {A} (code : Code) (op msg : string) (m : Tx A) : Tx A := λ s,
  match m s with
  | (Ok a, s') => (Ok a, s')
  | (Err e, s') => (Err (FaultError code op (Lit msg) (Some e)), s')
  end.

Definition newPrefixedID (prefix : string) : Tx string := λ s,
  match NewRunIDFrom (entropy_source (statements s)) with
  | (Ok id, _) => (Ok (prefix +:+ "_" +:+ TrimPrefix id "run_"), s)
  | (Err e, _) => (Err e, s)
  end.

(** The migration barrier and the advisory lock of the key. *)
Definition lockIdempotency : Tx unit :=
  _ ← statement "postgres.lockIdempotency.lockMigrationBarrier" [];
  statement "postgres.lockIdempotency" [].

(** ** Receipts *)

Definition receipt (st : PgStore) (op scope key : string) : Tx (option ReceiptRow) :=
  _ ← statement op [tenantID st; scope; key];
  select (λ t, idempotency_keys (canonical t) !! (tenantID st, scope, key)).

Definition decodeStoredRun `{!JsonCodec Run} (data : json) : result Run :=
  let stored m := ErrorString (Lit m) in
  run ← Decode data;
  _ ← match ParseRunID (r_RunID run) with
      | Ok _ => Ok tt
      | Err _ => Err (stored "invalid stored run ID")
      end;
  _ ← fail_if (negb (bool_decide (r_SchemaVersion run = "1.0")))
        (stored "invalid stored schema version");
  _ ← validateObjective (r_Objective run);
  _ ← ParseState (r_State run);
  _ ← fail_if ((r_Version run <? 1)%Z || negb (ValidTimestamp (r_CreatedAt run)) ||
               negb (ValidTimestamp (r_UpdatedAt run)) ||
               Before (r_UpdatedAt run) (r_CreatedAt run))
        (stored "invalid stored run version or timestamps");
  Ok run.

Definition loadRunReplay `{!JsonCodec Run} (st : PgStore) (scope key hash : string)
    : Tx (option Run) :=
  stored ← receipt st "postgres.loadRunReplay" scope key;
  match stored with
  | None => mret None
  | Some row =>
      if negb (bool_decide (rc_hash row = hash))
      then throw (fault CodeConflict "postgres.loadRunReplay"
                    "idempotency key was already used for a different command")
      else
        match decodeStoredRun (rc_body row) with
        | Ok run => mret (Some run)
        | Err e => throw (FaultError CodeInternal "postgres.loadRunReplay"
                            (Lit "decode stored command response") (Some e))
        end
  end.

Definition loadControlReplay {A} `{!JsonCodec A} (st : PgStore) (scope key hash : string)
    : Tx (option A) :=
  stored ← receipt st "postgres.loadControlReplay" scope key;
  match stored with
  | None => mret None
  | Some row =>
      if negb (bool_decide (rc_hash row = hash))
      then throw (fault CodeConflict "postgres.loadControlReplay"
                    "idempotency key was already used for a different command")
      else
        match Decode (rc_body row) with
        | Ok a => mret (Some a)
        | Err e => throw (FaultError CodeInternal "postgres.loadControlReplay"
                            (Lit "decode stored response") (Some e))
        end
  end.

(** The encoding of a value, or the error of the caller. *)
Definition encode {A} `{!JsonCodec A} (op msg : string) (a : A) : Tx json :=
  match Marshal a with
  | Ok data => mret data
  | Err e => throw (FaultError CodeInternal op (Lit msg) (Some e))
  end.

Definition insert_receipt (st : PgStore) (op scope key hash : string) (status : Z) (body : json)
    : Tx unit :=
  _ ← statement op [tenantID st; scope; key];
  let k := (tenantID st, scope, key) in
  let row := mkReceiptRow _ hash status body in
  bad ← select (λ t, receipt_insert_fault k row (canonical t));
  _ ← checked op bad;
  write (set_receipts <[k := row]>).

Definition saveRunReplay `{!JsonCodec Run} (st : PgStore) (scope key hash : string) (status : Z)
    (run : Run) : Tx unit :=
  response ← encode "postgres.saveRunReplay" "encode command response" run;
  insert_receipt st "postgres.saveRunReplay" scope key hash status response.

Definition saveControlReplay {A} `{!JsonCodec A} (st : PgStore) (scope key hash : string)
    (status : Z) (response : A) : Tx unit :=
  data ← encode "postgres.saveControlReplay" "encode response" response;
  insert_receipt st "postgres.saveControlReplay" scope key hash status data.

(** ** Events and their outbox messages *)

(** A new row of the outbox or of a projector's ledger. *)
Definition pendingDelivery (available : Time) : Delivery :=
  mkDelivery "pending" available None None 0 0 None None.

(** The projectors the trigger on [outbox] fans a message out to. *)
Definition activeProjectors (sc : Scope) (m : gmap ProjectorKey ConsumerRow) : list string :=
  omap (λ '((sc', name), row),
    if bool_decide (sc' = sc) && bool_decide (cs_status row = "active") then Some name else None)
    (map_to_list m).

Definition fanout_projection_delivery (sc : Scope) (id : Z) (available : Time) (x : Stream)
    : gmap (ProjectorKey * Z) Delivery :=
  foldr (λ name, <[((sc, name), id) := pendingDelivery available]>) (deliveries x)
    (activeProjectors sc (consumers x)).

Definition add_event (row : EventRow) (id : Z) (available : Time) (x : Stream) : Stream :=
  mkStream _ (events x ++ [row])
    (outbox x ++ [mkOutboxRow id (ev_scope row) (ev_id row) (pendingDelivery available)])
    id (consumers x) (fanout_projection_delivery (ev_scope row) id available x)
    (checkpoints x) (dead_letters x) (run_projections x).

(** The next value of the outbox's identity column. *)
Definition next_outbox_id (op : string) : Tx Z := λ s,
  let id := (outbox_last (stream (tables s)) + 1 + Z.of_nat (sequence_gap (statements s)))%Z in
  if (int_max <? id)%Z then (Err (databaseError op (PgError "2200H")), s) else (Ok id, s).

(** The insert of an event and of its message; the number of messages. *)
Definition insert_event (op : string) (row : EventRow) : Tx Z :=
  bad ← select (event_insert_fault row);
  _ ← checked op bad;
  id ← next_outbox_id op;
  available ← clock_timestamp;
  taken ← select (λ t, existsb (λ name,
            bool_decide (is_Some (deliveries (stream t) !! ((ev_scope row, name), id))))
            (activeProjectors (ev_scope row) (consumers (stream t))));
  _ ← checked op (violated UniqueViolation taken);
  _ ← write (with_stream (add_event row id available));
  mret 1%Z.

Definition appendEvent (st : PgStore) (aggregateType aggregateID : string) (aggregateVersion : Z)
    (eventType : string) (occurredAt : Time) (payload : json) (metadata : CommandMetadata)
    : Tx unit :=
  _ ← statement "postgres.appendEvent.lockWatermark" [];
  eventID ← wrapping CodeInternal "postgres.appendEvent" "generate event ID"
              (newPrefixedID "event");
  _ ← statement "postgres.appendEvent"
        (own st ([eventID; aggregateType; aggregateID; eventType; ActorType metadata;
                  ActorID metadata; CorrelationID metadata; IdempotencyKey metadata] ++
                 option_list (CausationID metadata)));
  affected ← insert_event "postgres.appendEvent"
    (mkEventRow _ eventID (store_scope st) aggregateType aggregateID aggregateVersion eventType
       occurredAt (ActorType metadata) (ActorID metadata) (CorrelationID metadata)
       (CausationID metadata) (IdempotencyKey metadata) payload);
  if negb (affected =? 1)%Z
  then throw (fault CodeInternal "postgres.appendEvent"
                "event/outbox insert did not create exactly one message")
  else mret tt.

Definition appendRunEvent `{!JsonCodec Run} (st : PgStore) (eventType : string) (run : Run)
    (metadata : CommandMetadata) : Tx unit :=
  payload ← encode "postgres.appendRunEvent" "encode event payload" run;
  appendEvent st "run" (r_RunID run) (r_Version run) eventType (r_UpdatedAt run) payload metadata.

Definition appendControlEvent {A} `{!JsonCodec A} (st : PgStore) (aggregateType aggregateID : string)
    (version : Z) (eventType : string) (occurredAt : Time) (payload : A)
    (metadata : CommandMetadata) : Tx unit :=
  data ← encode "postgres.appendControlEvent" "encode event" payload;
  appendEvent st aggregateType aggregateID version eventType occurredAt data metadata.

(** ** Audits *)

Definition appendToolAudit `{!JsonCodec AuditRecord} (st : PgStore) (record : AuditRecord)
    (metadata : CommandMetadata) : Tx unit :=
  if bool_decide (TrimSpace (au_ToolName record) = "") ||
     bool_decide (TrimSpace (au_Outcome record) = "") ||
     bool_decide (TrimSpace (au_CorrelationID record) = "") ||
     bool_decide (TrimSpace (au_IdempotencyKey record) = "") ||
     bool_decide (TrimSpace (au_ActorID record) = "")
  then throw (fault CodeInvalidArgument "postgres.appendToolAudit"
                "tool, outcome, actor, correlation, and idempotency key are required")
  else
    occurred ← (if IsZero (au_OccurredAt record) then storeNow else mret (au_OccurredAt record));
    let occurredAt := postgresTimestamp occurred in
    let record := mkAudit (au_ToolName record) (au_Outcome record) (au_ActorType record)
      (au_ActorID record) (au_CorrelationID record) (au_CausationID record)
      (au_IdempotencyKey record) (au_CommandScope record) (au_ErrorCode record)
      (au_Replay record) occurredAt in
    payload ← encode "postgres.appendToolAudit" "encode audit" record;
    auditID ← wrapping CodeInternal "postgres.appendToolAudit" "generate audit ID"
                (newPrefixedID "audit");
    appendEvent st "audit" auditID 1 ("mcp.tool." +:+ au_Outcome record) occurredAt payload
      metadata.

Definition appendSuccessToolAudit `{!JsonCodec AuditRecord} (st : PgStore)
    (metadata : CommandMetadata) (commandScope : string) (occurredAt : Time) (replay : bool)
    : Tx unit :=
  if bool_decide (AuditToolName metadata = "") then mret tt
  else appendToolAudit st
    (mkAudit (AuditToolName metadata) "succeeded" (ActorType metadata) (ActorID metadata)
       (CorrelationID metadata) (CausationID metadata) (IdempotencyKey metadata) commandScope ""
       replay occurredAt) metadata.

(** ** Reads *)

Definition select_run (st : PgStore) (op : string) (id : RunID) : Tx (option Run) :=
  _ ← statement op (own st [id]);
  row ← select (λ t, in_scope run_scope (store_scope st) (runs (canonical t) !! id));
  mret (scanRun id <$> row).

(** A publication in the state for an attempt of the run. *)
Definition has_publication (sc : Scope) (runID state : string) (pubs : Journal) (w : Work) : bool :=
  existsb (λ '((sc', _, attemptID), dp),
    bool_decide (sc' = sc) && bool_decide (pb_state dp = state) &&
    match attempts w !! attemptID with
    | Some a => bool_decide (at_tenant a = sc.1) && bool_decide (at_run a = runID)
    | None => false
    end) (map_to_list pubs).

Definition requireRunPublicationTransition (st : PgStore) (runID : string) (target : State)
    (operation : string) : Tx unit :=
  _ ← statement (operation +:+ ".publicationSchema") [];
  table ← select (λ t, delivery_publications (work t));
  match table with
  | None => mret tt
  | Some pubs =>
      _ ← statement (operation +:+ ".publicationFence") (own st [runID]);
      w ← select work;
      let publicationPrepared := has_publication (store_scope st) runID "prepared" pubs w in
      let publicationPublished := has_publication (store_scope st) runID "published" pubs w in
      if publicationPrepared ||
         (publicationPublished && negb (bool_decide (target = StateCompleted)))
      then throw (fault CodeConflict operation
             "a prepared or published delivery has committed this Run to publication")
      else mret tt
  end.
End events.
