(* ===== verification/Publications.v ===== *)
(** * Package [internal/postgres]: the publication journal ([delivery_publications.go])

    A delivery is published by moving one Git reference. The journal records the
    intent first ([prepared]), then the transaction that holds every lease of the
    delivery lets the caller move the reference and marks the row [published]. A
    crash in between leaves a prepared row, which a later observer of the
    reference recovers, abandons or marks as a conflict.

    Git is not part of the database and is not rolled back with it: the callbacks
    act on a state of their own next to the tables ([World]). *)

From stdpp Require Import pretty.
From S2P Require Import Prelude GoLib Fault Contracts Identity RunState LeasePaths Postgres DeliveryContracts.
From S2P Require Import ControlMemory Leases LeaseSets PgTables PgEvents.

(** ** Data ([internal/persistence/model.go]) *)

Record DeliveryPublicationIntent := mkIntent {
  pi_DeliveryID : string;
  pi_TenantID : string;
  pi_RepositoryID : string;
  pi_AttemptID : string;
  pi_LeaseSetID : string;
  pi_LeaseTTLMS : Z;
  pi_PublicationRef : string;
  pi_PublicationPreviousCommit : option string;
  pi_ResultCommit : string;
  pi_AuthoritySHA256 : string;
  pi_ReceiptSHA256 : string;
  pi_IntentSHA256 : string;
  pi_ReceiptJSON : string;
}.

Record DeliveryPublication := mkPublication {
  dp_Intent : DeliveryPublicationIntent;
  dp_State : string;
  dp_ObservedCommit : option string;
  dp_PreparedAt : Time;
  dp_PublishedAt : option Time;
  dp_UpdatedAt : Time;
}.

(** ** Texts *)

Definition maximumDeliveryReceiptBytes : Z := 4 * 2 ^ 20.
Definition minimumPublicationAuthorityTimeRemaining : Z := 40 * Second.

Definition publicationCommitPattern : list class := replicate 40 cl_hex.
Definition publicationDigestPattern : list class := replicate 64 cl_hex.

Definition invalidPublicationError (message : string) : error :=
  fault CodeInvalidArgument "postgres.deliveryPublication" message.

Definition optionalStringEqual (left right : option string) : bool := bool_decide (left = right).

(** The byte of a double quote. *)
Definition QUOTE : string := String (chr 34) "".

(** [hex.DecodeString], with the error dropped: the bytes before the first
    invalid pair. *)
Definition hex_value (c : Ascii.ascii) : N :=
  let n := Ascii.N_of_ascii c in
  if (n <? 58)%N then (n - 48)%N else if (n <? 71)%N then (n - 55)%N else (n - 87)%N.

Fixpoint DecodeString (s : string) : string :=
  match s with
  | String a (String b s') =>
      if hex_char a && hex_char b
      then String (chr (16 * hex_value a + hex_value b)) (DecodeString s') else ""
  | _ => ""
  end.

(** ** Validation *)

Section validation.
Context `{Sha256, DeliveryJson}.

(** The JSON of the identity document. Every text in it has passed a pattern of
    bytes that JSON does not escape. *)
Definition identityJSON (intent : DeliveryPublicationIntent) : string :=
  let field name value := QUOTE +:+ name +:+ QUOTE +:+ ":" +:+ value in
  let text name value := field name (QUOTE +:+ value +:+ QUOTE) in
  "{" +:+ Join
    [text "delivery_id" (pi_DeliveryID intent); text "tenant_id" (pi_TenantID intent);
     text "repository_id" (pi_RepositoryID intent); text "attempt_id" (pi_AttemptID intent);
     text "lease_set_id" (pi_LeaseSetID intent); field "lease_ttl_ms" (pretty (pi_LeaseTTLMS intent));
     text "authority_sha256" (pi_AuthoritySHA256 intent);
     text "receipt_sha256" (pi_ReceiptSHA256 intent)] "," +:+ "}".

Definition renamed {A} (message : string) (r : result A) : result A :=
  match r with Ok a => Ok a | Err _ => Err (invalidPublicationError message) end.

Definition validatePublicationIntent (intent : DeliveryPublicationIntent) : result unit :=
  _ ← renamed "publication intent has an invalid repository identity"
        (ValidateRepositoryStorageIdentity (pi_TenantID intent) (pi_RepositoryID intent));
  _ ← renamed "publication intent has an invalid delivery ID" (ValidateDeliveryID (pi_DeliveryID intent));
  _ ← renamed "publication intent has an invalid attempt ID"
        (ValidateDeliveryAttemptID (pi_AttemptID intent));
  _ ← fail_if
        (negb (bool_decide (pi_LeaseSetID intent = pi_AttemptID intent)) ||
         bool_decide (pi_DeliveryID intent = "") || bool_decide (pi_AttemptID intent = "") ||
         (pi_LeaseTTLMS intent <? MinimumPublicationLeaseTTLMS)%Z ||
         (86400000 <? pi_LeaseTTLMS intent)%Z ||
         negb (bool_decide (pi_PublicationRef intent =
                 "refs/forja/deliveries/" +:+ pi_DeliveryID intent)) ||
         negb (match_classes publicationCommitPattern (pi_ResultCommit intent)) ||
         match pi_PublicationPreviousCommit intent with
         | Some commit => negb (match_classes publicationCommitPattern commit)
         | None => false
         end ||
         negb (match_classes publicationDigestPattern (pi_AuthoritySHA256 intent)) ||
         negb (match_classes publicationDigestPattern (pi_ReceiptSHA256 intent)) ||
         negb (match_classes publicationDigestPattern (pi_IntentSHA256 intent)) ||
         (Z.of_nat (String.length (pi_ReceiptJSON intent)) <? 2)%Z ||
         (maximumDeliveryReceiptBytes <? Z.of_nat (String.length (pi_ReceiptJSON intent)))%Z)
        (invalidPublicationError "publication intent is not canonical");
  _ ← fail_if (negb (bool_decide (pi_ReceiptSHA256 intent = hexText (Sum256 (pi_ReceiptJSON intent)))))
        (invalidPublicationError "receipt digest disagrees with receipt bytes");
  receipt ← renamed "receipt bytes are not valid JSON" (receipt_of_json (pi_ReceiptJSON intent));
  _ ← fail_if (negb (bool_decide (rt_SchemaVersion receipt = DeliverySchemaVersion)) ||
               negb (bool_decide (rt_Status receipt = "published")))
        (invalidPublicationError "receipt contract version or state is unsupported");
  '(receiptTenantID, receiptRepositoryID) ← renamed "receipt repository identity is not canonical"
        (RepositoryStorageIdentity (rt_TenantID receipt) (rt_RepositoryID receipt));
  canonical ← renamed "receipt bytes are not canonical" (receipt_json receipt);
  _ ← fail_if (negb (bool_decide (canonical = pi_ReceiptJSON intent)))
        (invalidPublicationError "receipt bytes are not canonical");
  _ ← fail_if (negb (bool_decide (rt_DeliveryID receipt = pi_DeliveryID intent)) ||
               negb (bool_decide (receiptTenantID = pi_TenantID intent)) ||
               negb (bool_decide (receiptRepositoryID = pi_RepositoryID intent)) ||
               negb (bool_decide (rt_PublicationRef receipt = pi_PublicationRef intent)) ||
               negb (bool_decide (rt_ResultCommit receipt = pi_ResultCommit intent)) ||
               negb (optionalStringEqual (rt_PublicationPreviousCommit receipt)
                       (pi_PublicationPreviousCommit intent)))
        (invalidPublicationError "receipt identity disagrees with publication intent");
  fail_if (negb (bool_decide (pi_IntentSHA256 intent = hexText (Sum256 (identityJSON intent)))))
    (invalidPublicationError "intent digest disagrees with publication identity").

Definition publicationReceiptTime (intent : DeliveryPublicationIntent) : result Time :=
  receipt ← renamed "receipt bytes are not valid JSON" (receipt_of_json (pi_ReceiptJSON intent));
  _ ← fail_if (IsZero (rt_CreatedAt receipt) || IsZero (rt_PublishedAt receipt) ||
               Before (rt_PublishedAt receipt) (rt_CreatedAt receipt))
        (invalidPublicationError "receipt operation timestamps are inconsistent");
  Ok (rt_PublishedAt receipt).

Definition validatePublicationScope (st : PgStore) (intent : DeliveryPublicationIntent) : result unit :=
  fail_if (negb (bool_decide (pi_TenantID intent = tenantID st)) ||
           negb (bool_decide (pi_RepositoryID intent = repositoryID st)))
    (invalidPublicationError "publication intent is outside the store repository scope").

(** One iteration of the loop over the proofs. *)
Definition fence_matches (fence : DeliveryLeaseFence) (proof : Lease) : bool :=
  bool_decide (fn_ResourceType fence = k_ResourceType (l_LeaseKey proof)) &&
  bool_decide (fn_ResourceID fence = k_ResourceID (l_LeaseKey proof)) &&
  bool_decide (fn_OwnerID fence = l_OwnerID proof) &&
  (fn_FencingToken fence =? l_FencingToken proof)%Z.

Definition validatePublicationAuthority (st : PgStore) (intent : DeliveryPublicationIntent)
    (leaseSet : LeaseSet) : result (list LeaseKey * list Lease * string * Z) :=
  _ ← validatePublicationIntent intent;
  _ ← validatePublicationScope st intent;
  _ ← fail_if (negb (bool_decide (ls_LeaseSetID leaseSet = pi_LeaseSetID intent)))
        (invalidPublicationError "lease set ID disagrees with publication intent");
  '(keys, proofs, digest) ← validateLeaseSetProof st leaseSet Millisecond;
  receipt ← renamed "receipt bytes are not valid JSON" (receipt_of_json (pi_ReceiptJSON intent));
  _ ← fail_if (negb (Nat.eqb (length (rt_LeaseFences receipt)) (length proofs)))
        (invalidPublicationError "receipt lease fences disagree with lease set");
  _ ← fail_if (negb (forallb (λ '(fence, proof), fence_matches fence proof)
                       (zip (rt_LeaseFences receipt) proofs)))
        (invalidPublicationError "receipt lease fences disagree with lease set");
  Ok (keys, proofs, digest, wrap64 (pi_LeaseTTLMS intent * Millisecond)).

Definition exactPublicationIntent (stored supplied : DeliveryPublicationIntent) : result unit :=
  fail_if
    (negb (bool_decide (pi_DeliveryID stored = pi_DeliveryID supplied)) ||
     negb (bool_decide (pi_TenantID stored = pi_TenantID supplied)) ||
     negb (bool_decide (pi_RepositoryID stored = pi_RepositoryID supplied)) ||
     negb (bool_decide (pi_AttemptID stored = pi_AttemptID supplied)) ||
     negb (bool_decide (pi_LeaseSetID stored = pi_LeaseSetID supplied)) ||
     negb (pi_LeaseTTLMS stored =? pi_LeaseTTLMS supplied)%Z ||
     negb (bool_decide (pi_PublicationRef stored = pi_PublicationRef supplied)) ||
     negb (optionalStringEqual (pi_PublicationPreviousCommit stored)
             (pi_PublicationPreviousCommit supplied)) ||
     negb (bool_decide (pi_ResultCommit stored = pi_ResultCommit supplied)) ||
     negb (bool_decide (pi_AuthoritySHA256 stored = pi_AuthoritySHA256 supplied)) ||
     negb (bool_decide (pi_ReceiptSHA256 stored = pi_ReceiptSHA256 supplied)) ||
     negb (bool_decide (pi_IntentSHA256 stored = pi_IntentSHA256 supplied)) ||
     negb (bool_decide (pi_ReceiptJSON stored = pi_ReceiptJSON supplied)))
    (conflictError "postgres.exactPublicationIntent"
       "publication attempt was replayed with different authority").
End validation.

(** ** Rows *)

Definition publication_key (st : PgStore) (deliveryID attemptID : string) : PublicationKey :=
  (store_scope st, deliveryID, attemptID).

(** The row of the [INSERT]; both timestamps are read by the server. *)
Definition prepared_row (intent : DeliveryPublicationIntent) (prepared updated : Time) : PublicationRow :=
  mkPublicationRow (pi_LeaseSetID intent) (pi_LeaseTTLMS intent) (pi_PublicationRef intent)
    (pi_PublicationPreviousCommit intent) (pi_ResultCommit intent)
    (DecodeString (pi_AuthoritySHA256 intent)) (DecodeString (pi_ReceiptSHA256 intent))
    (DecodeString (pi_IntentSHA256 intent)) (pi_ReceiptJSON intent) "prepared" None prepared None updated.

Definition moved_publication (row : PublicationRow) (state : string) (observed : option string)
    (published : option Time) (updated : Time) : PublicationRow :=
  mkPublicationRow (pb_lease_set row) (pb_ttl_ms row) (pb_ref row) (pb_previous row) (pb_result row)
    (pb_authority_sha row) (pb_receipt_sha row) (pb_intent_sha row) (pb_receipt row) state observed
    (pb_prepared row) published updated.

(** The intent the row was written from. *)
Definition scanIntent (key : PublicationKey) (row : PublicationRow) : DeliveryPublicationIntent :=
  let '(sc, deliveryID, attemptID) := key in
  mkIntent deliveryID sc.1 sc.2 attemptID (pb_lease_set row) (pb_ttl_ms row) (pb_ref row)
    (pb_previous row) (pb_result row) (hexText (pb_authority_sha row)) (hexText (pb_receipt_sha row))
    (hexText (pb_intent_sha row)) (pb_receipt row).

(** A pattern on a nullable column: NULL passes a CHECK. *)
Definition bad_commit (o : option string) : bool :=
  match o with Some c => negb (match_classes publicationCommitPattern c) | None => false end.

Definition publication_check (key : PublicationKey) (row : PublicationRow) : bool :=
  let '(_, deliveryID, attemptID) := key in
  negb (match_classes deliveryIDPattern deliveryID) ||
  negb (match_classes attemptIDPattern attemptID) ||
  bad_length 1 500 (pb_lease_set row) ||
  (pb_ttl_ms row <? 60000)%Z || (86400000 <? pb_ttl_ms row)%Z ||
  negb (bool_decide (pb_ref row = "refs/forja/deliveries/" +:+ deliveryID)) ||
  bad_commit (pb_previous row) || bad_commit (Some (pb_result row)) ||
  negb (Nat.eqb (String.length (pb_authority_sha row)) 32) ||
  negb (Nat.eqb (String.length (pb_receipt_sha row)) 32) ||
  negb (Nat.eqb (String.length (pb_intent_sha row)) 32) ||
  (Z.of_nat (String.length (pb_receipt row)) <? 2)%Z ||
  (4194304 <? Z.of_nat (String.length (pb_receipt row)))%Z ||
  negb (bool_decide (pb_state row ∈ ["prepared"; "published"; "conflict"; "abandoned"])) ||
  bad_commit (pb_observed row) ||
  negb (bool_decide (pb_lease_set row = attemptID)) ||
  negb (if bool_decide (pb_state row = "published")
        then bool_decide (is_Some (pb_published row)) && bool_decide (pb_observed row = Some (pb_result row))
        else bool_decide (pb_published row = None)).

(** [delivery_publications_active_ref_idx]. *)
Definition active (row : PublicationRow) : bool :=
  bool_decide (pb_state row ∈ ["prepared"; "published"]).
Definition active_ref (sc : Scope) (ref : string) (journal : Journal) : bool :=
  existsb (λ '((sc', _, _), row),
    bool_decide (sc' = sc) && bool_decide (pb_ref row = ref) && active row) (map_to_list journal).

Section rows.
Context `{Json}.

Definition publication_insert_fault (key : PublicationKey) (row : PublicationRow) (journal : Journal)
    (t : Forja) : option pgfault :=
  let sc := key.1.1 in
  first_fault
    [int4_fault (pb_ttl_ms row); violated CheckViolation (publication_check key row);
     violated UniqueViolation (bool_decide (is_Some (journal !! key)) ||
                               (active row && active_ref sc (pb_ref row) journal));
     violated ForeignKeyViolation (negb (bool_decide (sc ∈ repositories (canonical t))));
     violated ForeignKeyViolation
       (negb (bool_decide (is_Some (lease_sets (lease_tables (work t)) !! (sc.1, sc.2, pb_lease_set row)))))].
End rows.

(** ** Statements *)

(** What [Scan] reports for an empty result. *)
Definition ErrNoRows : pgfault := DriverError "no rows in result set".

Section statements.
Context `{Clock, Database, TimeText, Sha256, Collation, Json, DeliveryJson}.
Abbreviation Tx := (M error (DB Forja)).

(** A statement on the journal, which an old schema does not have. *)
Definition journal (op : string) (params : list string) : Tx Journal :=
  _ ← statement op params;
  table ← select (λ t, delivery_publications (work t));
  match table with
  | Some pubs => mret pubs
  | None => throw (databaseError op (PgError "42P01"))
  end.

Definition loadDeliveryPublication (st : PgStore) (deliveryID attemptID : string)
    : Tx (option DeliveryPublication) :=
  pubs ← journal "postgres.loadDeliveryPublication" (own st [deliveryID; attemptID]);
  let key := publication_key st deliveryID attemptID in
  match pubs !! key with
  | None => mret None
  | Some row =>
      let intent := scanIntent key row in
      publishedAt ← match pb_published row with
                    | None => mret None
                    | Some _ => value ← lift (publicationReceiptTime intent); mret (Some value)
                    end;
      mret (Some (mkPublication intent (pb_state row) (pb_observed row) (UTC (pb_prepared row))
                    publishedAt (UTC (pb_updated row))))
  end.

Definition lockPublicationAdvisory : Tx unit := statement "postgres.lockPublicationAdvisory" [].

Definition lockPublication : Tx unit :=
  _ ← statement "postgres.lockPublication.migration_barrier" [];
  lockPublicationAdvisory.

Definition lockPublicationAndLeaseSet (st : PgStore) (intent : DeliveryPublicationIntent)
    (keys : list LeaseKey) : Tx unit :=
  _ ← on_leases (lockLeaseSetAndMembers st (pi_LeaseSetID intent) keys);
  lockPublicationAdvisory.

Definition requirePublicationLifecycleFence (st : PgStore) (attemptID operation : string) : Tx unit :=
  _ ← statement (operation +:+ ".run_fence") (own st [attemptID]);
  found ← select (λ t,
    a ← attempts (work t) !! attemptID;
    r ← in_scope run_scope (store_scope st) (runs (canonical t) !! at_run a);
    if bool_decide (at_tenant a = tenantID st) then Some (run_state r, at_status a) else None);
  match found with
  | None => throw (fault CodeNotFound operation "publication attempt or Run was not found")
  | Some (runState, attemptStatus) =>
      if negb (bool_decide (runState = "validating")) || negb (bool_decide (attemptStatus = "succeeded"))
      then throw (conflictError operation "publication requires a validating Run and succeeded attempt")
      else mret tt
  end.

(** [INSERT ... RETURNING prepared_at]. *)
Definition insert_publication (st : PgStore) (intent : DeliveryPublicationIntent) : Tx Time :=
  let op := "postgres.PrepareDeliveryPublication.insert" in
  let key := publication_key st (pi_DeliveryID intent) (pi_AttemptID intent) in
  pubs ← journal op (own st ([pi_DeliveryID intent; pi_AttemptID intent; pi_LeaseSetID intent;
           pi_PublicationRef intent; pi_ResultCommit intent] ++
           option_list (pi_PublicationPreviousCommit intent)));
  prepared ← clock_timestamp;
  updated ← clock_timestamp;
  let row := prepared_row intent prepared updated in
  t ← select id;
  _ ← checked op (publication_insert_fault key row pubs t);
  _ ← write (set_journal <[key := row]>);
  mret prepared.

(** [UPDATE ... WHERE ... AND state='prepared' RETURNING ...]. *)
Definition update_publication (st : PgStore) (op : string) (intent : DeliveryPublicationIntent)
    (state : string) (observed : PublicationRow → option string) (published : option Time) : Tx Time :=
  let key := publication_key st (pi_DeliveryID intent) (pi_AttemptID intent) in
  pubs ← journal op (own st [pi_DeliveryID intent; pi_AttemptID intent]);
  match pubs !! key with
  | Some row =>
      if bool_decide (pb_state row = "prepared") then
        updated ← clock_timestamp;
        let row' := moved_publication row state (observed row) published updated in
        _ ← checked op (violated CheckViolation (publication_check key row'));
        _ ← write (set_journal <[key := row']>);
        mret updated
      else throw (databaseError op ErrNoRows)
  | None => throw (databaseError op ErrNoRows)
  end.

(** ** Operations on the journal alone *)

Definition GetDeliveryPublication (st : PgStore) (deliveryID attemptID : string)
    : Tx (option DeliveryPublication) := loadDeliveryPublication st deliveryID attemptID.

(** What follows the lease check of [PrepareDeliveryPublication]. *)
Definition insertPrepared (st : PgStore) (intent : DeliveryPublicationIntent) : Tx DeliveryPublication :=
  preparedAt ← insert_publication st intent;
  _ ← statement "postgres.PrepareDeliveryPublication.commit" [];
  mret (mkPublication intent "prepared" None (UTC preparedAt) None (UTC preparedAt)).

Definition PrepareDeliveryPublication (st : PgStore) (intent : DeliveryPublicationIntent)
    (leaseSet : LeaseSet) : Tx DeliveryPublication :=
  '(keys, proofs, digest, approvedTTL) ← lift (validatePublicationAuthority st intent leaseSet);
  atomically (
    _ ← statement "postgres.PrepareDeliveryPublication.begin" [];
    _ ← lockPublicationAndLeaseSet st intent keys;
    found ← loadDeliveryPublication st (pi_DeliveryID intent) (pi_AttemptID intent);
    _ ← match found with
        | Some existing => lift (exactPublicationIntent (dp_Intent existing) intent)
        | None => mret tt
        end;
    let fenced : Tx unit :=
      _ ← requirePublicationLifecycleFence st (pi_AttemptID intent) "postgres.PrepareDeliveryPublication";
      _ ← on_leases (verifyLeaseSetAuthorityWithMinimum st leaseSet keys proofs digest 0 approvedTTL);
      mret tt in
    match found with
    | Some existing =>
        if bool_decide (dp_State existing = "published") then
          _ ← statement "postgres.PrepareDeliveryPublication.published_replay_commit" [];
          mret existing
        else
          _ ← fenced;
          _ ← statement "postgres.PrepareDeliveryPublication.replay_commit" [];
          mret existing
    | None =>
        _ ← fenced;
        insertPrepared st intent
    end).

Definition transitionPublicationWithoutLease (st : PgStore) (intent : DeliveryPublicationIntent)
    (state : string) (observedCommit : option string) : Tx DeliveryPublication :=
  let op := "postgres.transitionPublicationWithoutLease" in
  atomically (
    _ ← statement (op +:+ ".begin") [];
    _ ← lockPublication;
    found ← loadDeliveryPublication st (pi_DeliveryID intent) (pi_AttemptID intent);
    match found with
    | None => throw (fault CodeNotFound op "publication intent was not prepared")
    | Some record =>
        _ ← lift (exactPublicationIntent (dp_Intent record) intent);
        if bool_decide (dp_State record = state) &&
           optionalStringEqual (dp_ObservedCommit record) observedCommit then
          _ ← statement (op +:+ ".replay_commit") [];
          mret record
        else if negb (bool_decide (dp_State record = "prepared")) then
          throw (conflictError op "publication is no longer prepared")
        else if bool_decide (state = "published") then
          publishedAt ← lift (publicationReceiptTime intent);
          changedAt ← update_publication st (op +:+ ".update") intent "published" (λ _, observedCommit)
                        (Some (timestamptz (Truncate publishedAt Microsecond)));
          _ ← statement (op +:+ ".commit") [];
          mret (mkPublication (dp_Intent record) state observedCommit (dp_PreparedAt record)
                  (Some publishedAt) (UTC changedAt))
        else
          changedAt ← update_publication st (op +:+ ".update") intent "conflict" (λ _, observedCommit) None;
          _ ← statement (op +:+ ".commit") [];
          mret (mkPublication (dp_Intent record) state observedCommit (dp_PreparedAt record)
                  (dp_PublishedAt record) (UTC changedAt))
    end).

Definition RecoverDeliveryPublication (st : PgStore) (intent : DeliveryPublicationIntent)
    (observedCommit : string) : Tx DeliveryPublication :=
  _ ← lift (validatePublicationIntent intent);
  _ ← lift (validatePublicationScope st intent);
  _ ← lift (fail_if (negb (bool_decide (observedCommit = pi_ResultCommit intent)))
        (fault CodeConflict "postgres.RecoverDeliveryPublication"
           "observed ref does not equal the prepared result commit"));
  transitionPublicationWithoutLease st intent "published" (Some observedCommit).

Definition ConflictDeliveryPublication (st : PgStore) (intent : DeliveryPublicationIntent)
    (observedCommit : option string) : Tx DeliveryPublication :=
  _ ← lift (validatePublicationIntent intent);
  _ ← lift (validatePublicationScope st intent);
  _ ← lift (fail_if (bad_commit observedCommit)
        (fault CodeInvalidArgument "postgres.ConflictDeliveryPublication"
           "observed commit is not canonical"));
  transitionPublicationWithoutLease st intent "conflict" observedCommit.
End statements.

(** ** Operations that act on Git in the middle of a transaction *)

Section world.
Context `{Clock, Database, TimeText, Sha256, Collation, Json, DeliveryJson}.
Context {G : Type}.

Record World := mkWorld { db : DB Forja; git : G }.
Abbreviation Act := (M error World).

Definition on_db {A} (m : M error (DB Forja) A) : Act A := λ w,
  let '(r, s) := m (db w) in (r, mkWorld s (git w)).
Definition on_git {A} (m : M error G A) : Act A := λ w,
  let '(r, g) := m (git w) in (r, mkWorld (db w) g).

(** [defer tx.Rollback]: a failure takes back the tables, never Git. *)
Definition transaction {A} (m : Act A) : Act A := λ w,
  match m w with
  | (Ok a, w') => (Ok a, w')
  | (Err e, w') =>
      (Err e, mkWorld (mkDB (tables (db w)) (readings (db w')) (statements (db w'))) (git w'))
  end.

(** [CompleteDeliveryPublication] once the intent is known to be prepared. *)
Definition publishPrepared (st : PgStore) (intent : DeliveryPublicationIntent)
    (verify : M error (DB Forja) unit) (publicationAt : Time) (record : DeliveryPublication)
    (revalidate apply : M error G unit) : Act DeliveryPublication :=
  let op := "postgres.CompleteDeliveryPublication" in
  _ ← on_git revalidate;
  _ ← on_db verify;
  _ ← on_git apply;
  let publishedAt := timestamptz (Truncate publicationAt Microsecond) in
  updatedAt ← on_db (update_publication st (op +:+ ".update") intent "published"
                (λ row, Some (pb_result row)) (Some publishedAt));
  if negb (Equal (UTC publishedAt) (Truncate publicationAt Microsecond))
  then throw (invalidPublicationError "database publication timestamp disagrees with receipt")
  else
    _ ← on_db (statement (op +:+ ".commit") []);
    mret (mkPublication (dp_Intent record) "published" (Some (pi_ResultCommit intent))
            (dp_PreparedAt record) (Some publicationAt) (UTC updatedAt)).

Definition CompleteDeliveryPublication (st : PgStore) (intent : DeliveryPublicationIntent)
    (leaseSet : LeaseSet) (revalidate apply : option (M error G unit)) : Act DeliveryPublication :=
  let op := "postgres.CompleteDeliveryPublication" in
  match revalidate, apply with
  | Some revalidate, Some apply =>
      '(keys, proofs, digest, approvedTTL) ← lift (validatePublicationAuthority st intent leaseSet);
      publicationAt ← lift (publicationReceiptTime intent);
      let verify : M error (DB Forja) unit :=
        _ ← on_leases (verifyLeaseSetAuthorityWithMinimum st leaseSet keys proofs digest
                         minimumPublicationAuthorityTimeRemaining approvedTTL);
        mret tt in
      transaction (
        _ ← on_db (statement (op +:+ ".begin") []);
        _ ← on_db (lockPublicationAndLeaseSet st intent keys);
        found ← on_db (loadDeliveryPublication st (pi_DeliveryID intent) (pi_AttemptID intent));
        match found with
        | None =>
            _ ← on_db verify;
            throw (fault CodeNotFound op "publication intent was not prepared")
        | Some record =>
            _ ← lift (exactPublicationIntent (dp_Intent record) intent);
            if bool_decide (dp_State record = "published") then
              _ ← on_db (statement (op +:+ ".replay_commit") []);
              mret record
            else
              _ ← on_db (requirePublicationLifecycleFence st (pi_AttemptID intent) op);
              _ ← on_db verify;
              if negb (bool_decide (dp_State record = "prepared"))
              then throw (conflictError op "publication intent is not prepared")
              else publishPrepared st intent verify publicationAt record revalidate apply
        end)
  | _, _ => throw (invalidPublicationError "publication revalidation and apply callbacks are required")
  end.

Definition AbandonDeliveryPublication (st : PgStore) (intent : DeliveryPublicationIntent)
    (observe : option (M error G (option string))) : Act DeliveryPublication :=
  let op := "postgres.AbandonDeliveryPublication" in
  match observe with
  | None => throw (invalidPublicationError "publication observation callback is required")
  | Some observe =>
      _ ← lift (validatePublicationIntent intent);
      _ ← lift (validatePublicationScope st intent);
      transaction (
        _ ← on_db (statement (op +:+ ".begin") []);
        _ ← on_db lockPublication;
        found ← on_db (loadDeliveryPublication st (pi_DeliveryID intent) (pi_AttemptID intent));
        match found with
        | None => throw (fault CodeNotFound op "publication intent was not prepared")
        | Some record =>
            _ ← lift (exactPublicationIntent (dp_Intent record) intent);
            if bool_decide (dp_State record = "published") || bool_decide (dp_State record = "abandoned") then
              _ ← on_db (statement (op +:+ ".replay_commit") []);
              mret record
            else if negb (bool_decide (dp_State record = "prepared")) then
              throw (conflictError op "publication is no longer prepared")
            else
              observed ← on_git observe;
              if negb (optionalStringEqual observed (pi_PublicationPreviousCommit intent)) then
                throw (conflictError op "Git no longer has the approved pre-publication state")
              else
                changedAt ← on_db (update_publication st (op +:+ ".update") intent "abandoned"
                              (λ _, observed) None);
                _ ← on_db (statement (op +:+ ".commit") []);
                mret (mkPublication (dp_Intent record) "abandoned" observed (dp_PreparedAt record)
                        (dp_PublishedAt record) (UTC changedAt))
        end)
  end.
End world.
Arguments World {_} _.
