(* ===== verification/PgLogic.v ===== *)
(** * What a successful transaction did

    [wp t m Q]: whenever [m], started on the tables [t], succeeds with [a] on
    tables [t'], [Q a t'] holds. The rules run a body forwards, statement by
    statement; failures, the clock and the statement counter are abstracted. *)

From S2P Require Import Prelude GoLib Fault Contracts RunState Postgres PgTables PgEvents.

Section wp.
Context `{Clock, Database} {T : Type}.
Abbreviation Tx := (M error (DB T)).

Definition wp {A} (t : T) (m : Tx A) (Q : A → T → Prop) : Prop :=
  ∀ s a s', tables s = t → m s = (Ok a, s') → Q a (tables s').

Lemma wp_intro {A} t (m : Tx A) (Q : A → T → Prop) :
  (∀ s a s', tables s = t → m s = (Ok a, s') → Q a (tables s')) → wp t m Q.
Proof. done. Qed.

Lemma wp_run {A} (m : Tx A) Q s a s' : wp (tables s) m Q → m s = (Ok a, s') → Q a (tables s').
Proof. intros Hwp Hrun. by eapply Hwp. Qed.

Lemma wp_mono {A} t (m : Tx A) (Q Q' : A → T → Prop) :
  wp t m Q → (∀ a t', Q a t' → Q' a t') → wp t m Q'.
Proof. intros Hm HQ s a s' Ht Hrun. eapply HQ, Hm; eauto. Qed.

Lemma wp_bind {A B} t (m : Tx A) (k : A → Tx B) Q :
  wp t m (λ a t', wp t' (k a) Q) → wp t (m ≫= k) Q.
Proof.
  intros Hm s b s' Ht (a & s1 & Hrun1 & Hrun2)%M_bind_ok.
  by apply (Hm _ _ _ Ht Hrun1 s1 b s' eq_refl).
Qed.

Lemma wp_ret {A} t (a : A) Q : Q a t → wp t (mret a) Q.
Proof. intros HQ s b s' <- [= <- <-]. done. Qed.

Lemma wp_throw {A} t e (Q : A → T → Prop) : wp t (throw e) Q.
Proof. by intros s b s' _ [=]. Qed.

Lemma wp_lift {A} t (r : result A) Q : (∀ a, r = Ok a → Q a t) → wp t (lift r) Q.
Proof. intros HQ s b s' <- [= -> <-]. by apply HQ. Qed.

(** A computation that writes nothing. *)
Lemma wp_reader {A} t (m : Tx A) (Q : A → T → Prop) :
  reader m → (∀ a, Q a t) → wp t m Q.
Proof. intros Hm HQ s a s' <- Hrun. destruct (Hm _ _ _ Hrun) as [-> _]. done. Qed.

(** A statement that succeeds had valid text parameters. *)
Lemma wp_statement t op params Q :
  (forallb pg_text params = true → Q tt t) → wp t (statement op params) Q.
Proof.
  intros HQ s a s' <-. unfold statement. destruct (db_fault _); [done|].
  destruct (forallb _ _) eqn:Hp; [|done]. intros [= <- <-]. by apply HQ.
Qed.

Lemma wp_clock t Q : (∀ n, Q (clock_reading n) t) → wp t clock_timestamp Q.
Proof. intros HQ s a s' <- [= <- <-]. apply HQ. Qed.

Lemma wp_select {A} t (f : T → A) Q : Q (f t) t → wp t (select f) Q.
Proof. intros HQ s a s' <- [= <- <-]. done. Qed.

Lemma wp_write t (f : T → T) Q : Q tt (f t) → wp t (write f) Q.
Proof. intros HQ s a s' <- [= <- <-]. done. Qed.

Lemma wp_checked t op bad Q : (bad = None → Q tt t) → wp t (checked op bad) Q.
Proof. unfold checked. destruct bad; intros HQ; [apply wp_throw|by apply wp_ret, HQ]. Qed.

Lemma wp_atomically {A} t (m : Tx A) Q : wp t m Q → wp t (atomically m) Q.
Proof. intros Hm s a s' Ht Hrun%atomically_ok. by eapply Hm. Qed.

(** An atomic operation that fails leaves the tables as they were. *)
Lemma wp_outcome {A} (m : Tx A) Q s r s' :
  (∀ e s', m s = (Err e, s') → tables s' = tables s) →
  wp (tables s) m Q → m s = (r, s') →
  match r with Ok a => Q a (tables s') | Err _ => tables s' = tables s end.
Proof. intros Herr Hwp Hrun. destruct r; [by eapply Hwp|by eapply Herr]. Qed.

(** [m] leaves the tables alone when it fails. *)
Definition safe {A} (m : Tx A) : Prop := ∀ s e s', m s = (Err e, s') → tables s' = tables s.

Lemma safe_atomically {A} (m : Tx A) : safe (atomically m).
Proof. intros s e s'. apply atomically_err. Qed.

Lemma safe_reader {A} (m : Tx A) : reader m → safe m.
Proof. intros Hm s e s' Hrun. by destruct (Hm _ _ _ Hrun). Qed.

Lemma safe_bind {A B} (m : Tx A) (k : A → Tx B) :
  reader m → (∀ a, safe (k a)) → safe (m ≫= k).
Proof.
  intros Hm Hk s e s'. rewrite M_bind_run. destruct (m s) as [[a|e'] s1] eqn:Hms;
    destruct (Hm _ _ _ Hms) as [Ht _].
  - intros ->%Hk. done.
  - by intros [= _ <-].
Qed.

Lemma safe_run {A} (m : Tx A) Q s r s' :
  safe m → wp (tables s) m Q → m s = (r, s') →
  tables s' = tables s ∨ ∃ a, r = Ok a ∧ Q a (tables s').
Proof.
  intros Hsafe Hwp Hrun. destruct r as [a|e]; [|left; by eapply Hsafe].
  right. exists a. split; [done|]. by eapply Hwp.
Qed.
End wp.

#[export] Hint Resolve safe_atomically : forja_parts.

Global Opaque wp.

(** One rule per construct of the language of transactions. *)
Ltac wp_prim :=
  lazymatch goal with
  | |- wp _ (mbind _ _) _ => apply wp_bind
  | |- wp _ (mret _) _ => apply wp_ret
  | |- wp _ (throw _) _ => apply wp_throw
  | |- wp _ (statement _ []) _ => apply wp_statement; intros _
  | |- wp _ (statement _ _) _ => apply wp_statement; intros ?
  | |- wp _ (select _) _ => apply wp_select
  | |- wp _ (write _) _ => apply wp_write
  | |- wp _ (checked _ _) _ => apply wp_checked; intros ?
  | |- wp _ clock_timestamp _ => apply wp_clock; intros ?
  | |- wp _ (lift _) _ => apply wp_lift; intros ? ?
  | |- wp _ (atomically _) _ => apply wp_atomically
  end; cbn beta iota zeta.

(** Runs a body up to the next helper or branch. *)
Ltac wp_seq := repeat wp_prim.

(** Runs up to a helper and applies its rule. *)
Tactic Notation "wp_apply" uconstr(rule) := wp_seq; apply rule.

Lemma pg_text_elem (l : list string) x : forallb pg_text l = true → x ∈ l → pg_text x = true.
Proof. intros Hl Hx. rewrite forallb_forall in Hl. by apply Hl, list_elem_of_In. Qed.

(** A text that was a parameter of a successful statement. *)
Ltac param_text :=
  match goal with
  | H : forallb pg_text ?l = true |- pg_text ?x = true =>
      apply (pg_text_elem l x H); unfold own;
      solve [repeat first [apply list_elem_of_here | apply list_elem_of_further]]
  end.

(** ** Total correctness, on a server that does not fail *)

Class Reliable `{Database} := reliable : ∀ n, db_fault n = None.

Section twp.
Context `{Clock, Database, !Reliable} {T : Type}.
Abbreviation Tx := (M error (DB T)).

(** [m], started on the tables [t], succeeds and establishes [Q]. *)
Definition twp {A} (t : T) (m : Tx A) (Q : A → T → Prop) : Prop :=
  ∀ s, tables s = t → ∃ a s', m s = (Ok a, s') ∧ Q a (tables s').

Lemma twp_intro {A} t (m : Tx A) (Q : A → T → Prop) :
  (∀ s, tables s = t → ∃ a s', m s = (Ok a, s') ∧ Q a (tables s')) → twp t m Q.
Proof. done. Qed.

Lemma twp_run {A} (m : Tx A) Q s :
  twp (tables s) m Q → ∃ a s', m s = (Ok a, s') ∧ Q a (tables s').
Proof. intros Hm. by apply Hm. Qed.

Lemma twp_bind {A B} t (m : Tx A) (k : A → Tx B) Q :
  twp t m (λ a t', twp t' (k a) Q) → twp t (m ≫= k) Q.
Proof.
  intros Hm s Ht. destruct (Hm s Ht) as (a & s1 & Hrun & Hk).
  destruct (Hk s1 eq_refl) as (b & s2 & Hrun2 & HQ). exists b, s2. split; [|done].
  by rewrite M_bind_run, Hrun.
Qed.

Lemma twp_ret {A} t (a : A) Q : Q a t → twp t (mret a) Q.
Proof. intros HQ s <-. by exists a, s. Qed.

Lemma twp_lift {A} t (r : result A) a Q : r = Ok a → Q a t → twp t (lift r) Q.
Proof. intros -> HQ s <-. by exists a, s. Qed.

Lemma twp_statement t op params Q :
  forallb pg_text params = true → Q tt t → twp t (statement op params) Q.
Proof.
  intros Hp HQ s <-. unfold statement. rewrite reliable, Hp.
  by exists tt, (mkDB (tables s) (readings s) (S (statements s))).
Qed.

Lemma twp_clock t Q : (∀ n, Q (clock_reading n) t) → twp t clock_timestamp Q.
Proof.
  intros HQ s <-. eexists _, _. split; [done|]. apply HQ.
Qed.

Lemma twp_select {A} t (f : T → A) Q : Q (f t) t → twp t (select f) Q.
Proof. intros HQ s <-. by eexists _, _. Qed.

Lemma twp_write t (f : T → T) Q : Q tt (f t) → twp t (write f) Q.
Proof. intros HQ s <-. by eexists _, _. Qed.

Lemma twp_checked t op bad Q : bad = None → Q tt t → twp t (checked op bad) Q.
Proof. intros -> HQ s <-. by exists tt, s. Qed.

Lemma twp_atomically {A} t (m : Tx A) Q : twp t m Q → twp t (atomically m) Q.
Proof.
  intros Hm s Ht. destruct (Hm s Ht) as (a & s' & Hrun & HQ). exists a, s'.
  unfold atomically. by rewrite Hrun.
Qed.

Lemma twp_mono {A} t (m : Tx A) (Q Q' : A → T → Prop) :
  twp t m Q → (∀ a t', Q a t' → Q' a t') → twp t m Q'.
Proof. intros Hm HQ s Ht. destruct (Hm s Ht) as (a & s' & ? & ?). exists a, s'. eauto. Qed.
End twp.

Global Opaque twp.

Ltac twp_prim :=
  lazymatch goal with
  | |- twp _ (mbind _ _) _ => apply twp_bind
  | |- twp _ (mret _) _ => apply twp_ret
  | |- twp _ (statement _ []) _ => apply twp_statement; [reflexivity|]
  | |- twp _ (select _) _ => apply twp_select
  | |- twp _ (write _) _ => apply twp_write
  | |- twp _ clock_timestamp _ => apply twp_clock; intros ?
  | |- twp _ (atomically _) _ => apply twp_atomically
  end; cbn beta iota zeta.
Ltac twp_seq := repeat twp_prim.

(** ** Exact execution: the clock and the state are followed *)

Section swp.
Context `{Clock, Database} {T : Type}.
Abbreviation Tx := (M error (DB T)).

(** If [m] succeeds from [s], [Q] holds of the answer and the state it ends in. *)
Definition swp {A} (s : DB T) (m : Tx A) (Q : A → DB T → Prop) : Prop :=
  ∀ a s', m s = (Ok a, s') → Q a s'.

Lemma swp_intro {A} s (m : Tx A) (Q : A → DB T → Prop) :
  (∀ a s', m s = (Ok a, s') → Q a s') → swp s m Q.
Proof. done. Qed.

Lemma swp_run {A} (m : Tx A) Q s a s' : swp s m Q → m s = (Ok a, s') → Q a s'.
Proof. intros Hm. apply Hm. Qed.

Lemma swp_mono {A} s (m : Tx A) (Q Q' : A → DB T → Prop) :
  swp s m Q → (∀ a s', Q a s' → Q' a s') → swp s m Q'.
Proof. intros Hm HQ a s' Hrun. by apply HQ, Hm. Qed.

Lemma swp_bind {A B} s (m : Tx A) (k : A → Tx B) Q :
  swp s m (λ a s1, swp s1 (k a) Q) → swp s (m ≫= k) Q.
Proof. intros Hm b s' (a & s1 & Hrun1 & Hrun2)%M_bind_ok. by eapply Hm. Qed.

Lemma swp_ret {A} s (a : A) Q : Q a s → swp s (mret a) Q.
Proof. by intros HQ b s' [= <- <-]. Qed.
Lemma swp_throw {A} s e (Q : A → DB T → Prop) : swp s (throw e) Q.
Proof. by intros b s' [=]. Qed.

Lemma swp_statement s op params Q :
  (forallb pg_text params = true → Q tt (mkDB (tables s) (readings s) (S (statements s)))) →
  swp s (statement op params) Q.
Proof.
  intros HQ a s'. unfold statement. destruct (db_fault _); [done|].
  destruct (forallb _ _) eqn:Hp; [|done]. intros [= <- <-]. by apply HQ.
Qed.

Lemma swp_clock s Q :
  Q (clock_reading (readings s)) (mkDB (tables s) (S (readings s)) (statements s)) →
  swp s clock_timestamp Q.
Proof. by intros HQ a s' [= <- <-]. Qed.
Lemma swp_select {A} s (f : T → A) Q : Q (f (tables s)) s → swp s (select f) Q.
Proof. by intros HQ a s' [= <- <-]. Qed.
Lemma swp_write s (f : T → T) Q :
  Q tt (mkDB (f (tables s)) (readings s) (statements s)) → swp s (write f) Q.
Proof. by intros HQ a s' [= <- <-]. Qed.
Lemma swp_checked s op bad Q : (bad = None → Q tt s) → swp s (checked op bad) Q.
Proof. unfold checked. destruct bad; intros HQ; [apply swp_throw|by apply swp_ret, HQ]. Qed.
Lemma swp_atomically {A} s (m : Tx A) Q : swp s m Q → swp s (atomically m) Q.
Proof. intros Hm a s' Hrun%atomically_ok. by apply Hm. Qed.

Lemma swp_reader {A} (m : Tx A) s (Q : A → DB T → Prop) :
  reader m → (∀ a s', m s = (Ok a, s') → tables s' = tables s → readings s ≤ readings s' → Q a s') →
  swp s m Q.
Proof. intros Hm HQ a s' Hrun. destruct (Hm _ _ _ Hrun). by apply HQ. Qed.

Lemma swp_lift {A} s (r : result A) Q : (∀ a, r = Ok a → Q a s) → swp s (lift (S := DB T) r) Q.
Proof. intros HQ a s' [= -> <-]. by apply HQ. Qed.
End swp.

Global Opaque swp.

Ltac swp_prim :=
  lazymatch goal with
  | |- swp _ (mbind _ _) _ => apply swp_bind
  | |- swp _ (mret _) _ => apply swp_ret
  | |- swp _ (throw _) _ => apply swp_throw
  | |- swp _ (statement _ []) _ => apply swp_statement; intros _
  | |- swp _ (statement _ _) _ => apply swp_statement; intros ?
  | |- swp _ (select _) _ => apply swp_select
  | |- swp _ (write _) _ => apply swp_write
  | |- swp _ (checked _ _) _ => apply swp_checked; intros ?
  | |- swp _ clock_timestamp _ => apply swp_clock
  | |- swp _ (atomically _) _ => apply swp_atomically
  end; cbn beta iota zeta delta [tables readings statements].
Ltac swp_seq := repeat swp_prim.
