(* ===== verification/PublicationEffects.v ===== *)
(** * What an operation on the publication journal did

    Every operation, whatever its callbacks and however it ends, does one of
    three things to the database: nothing, the entry of one prepared row, or the
    move of one prepared row to a final state. *)

From stdpp Require Import pretty.
From S2P Require Import Prelude GoLib Fault Contracts Identity RunState LeasePaths Postgres DeliveryContracts.
From S2P Require Import ControlMemory Leases LeaseSets LeaseSafety PgTables PgEvents Publications PgLogic.
From S2P Require Import LeaseExpansion.

(** ** What a verified lease set proves

    A lease set that [verifyLeaseSetAuthorityWithMinimum] accepts is active, and
    every lease it names is stored with the presented token, held by the owner of
    the set, and lasts at least the required time beyond a reading of the clock
    taken during the check. *)

Section authority.
Context `{Clock, Database, TimeText, Sha256, Collation}.

(** The stored lease a proof stands for. *)
Definition proved (t : Tables) (owner : string) (expires : Z) (proof : Lease) : Prop :=
  ∃ row, leases t !! l_LeaseKey proof = Some row ∧ row_owner row = owner ∧
    row_token row = l_FencingToken proof ∧ instant (row_expires row) = expires.

Definition authority (st : PgStore) (ls : LeaseSet) (proofs : list Lease) (minimum : Z) (t : Tables)
    (i : nat) : Prop :=
  ∃ row, lease_sets t !! setKey st (ls_LeaseSetID ls) = Some row ∧ set_state row = "active" ∧
    set_owner row = ls_OwnerID ls ∧
    (instant (clock_reading i) + minimum < instant (set_expires row))%Z ∧
    Forall (proved t (ls_OwnerID ls) (instant (set_expires row))) proofs.

(** A member read from the table, before it is compared with the proof. *)
Definition member_of (st : PgStore) (owner : string) (t : Tables) (m : storedLeaseSetMember) : Prop :=
  ∃ key row, leases t !! key = Some row ∧ sm_lease m = lease_of key row ∧ row_owner row = owner.

Lemma scanMembers_of st owner rows members s a s' :
  scanMembers st owner rows members s = (Ok a, s') →
  Forall (member_of st owner (tables s)) members → Forall (member_of st owner (tables s)) a.
Proof.
  revert members s. induction rows as [|[res token] rows IH]; intros members s; cbn [scanMembers].
  { by intros [= <- _]. }
  intros Hrun Hall. apply M_bind_ok in Hrun as (live & s1 & [= <- <-] & Hrun).
  destruct (leases (tables s) !! _) as [row|] eqn:Hrow; [|by eapply IH].
  apply M_bind_ok in Hrun as (now & s2 & [= <- <-] & Hrun).
  destruct (negb _ || _ || _) eqn:Hg; [done|]. apply orb_false_iff in Hg as [Hg _].
  apply orb_false_iff in Hg as [_ Ho]. apply negb_false_iff, bool_decide_eq_true in Ho.
  apply IH in Hrun; [done|]. apply Forall_app. split; [done|]. apply Forall_singleton.
  by eexists _, row.
Qed.

Lemma matchMembers_Forall3 keys members proofs :
  matchMembers keys members (Some proofs) = Ok tt → length members = length keys →
  length proofs = length keys →
  Forall3 (λ key m proof, l_LeaseKey (sm_lease m) = key ∧
    l_FencingToken (sm_lease m) = l_FencingToken proof) keys members proofs.
Proof.
  revert members proofs. induction keys as [|key keys IH]; intros [|m members] [|proof proofs]; try done.
  { intros _ _ _. constructor. }
  cbn [matchMembers head tail length option_map default]. intros Hok Hm Hp.
  apply res_bind_ok in Hok as ([] & Hk%fail_if_ok & Hok). apply res_bind_ok in Hok as ([] & Ht%fail_if_ok & Hok).
  apply negb_false_iff in Hk, Ht. apply bool_decide_eq_true in Hk. apply Z.eqb_eq in Ht.
  constructor; [done|]. apply IH; [done|lia|lia].
Qed.

Lemma durations_match stored leases0 updated l :
  leaseSetDurationsMatch stored leases0 updated = true → l ∈ leases0 →
  instant (l_ExpiresAt l) = instant (set_expires (st_row stored)).
Proof.
  unfold leaseSetDurationsMatch. intros Hm Hl.
  apply andb_true_iff in Hm as [Hm Hall]. apply andb_true_iff in Hm as [Hlen%Nat.eqb_eq _].
  rewrite forallb_forall in Hall. apply list_elem_of_lookup in Hl as [i Hi].
  destruct (updated !! i) as [u|] eqn:Hu; [|apply lookup_ge_None in Hu; apply lookup_lt_Some in Hi; lia].
  assert (In (l, u) (zip leases0 updated)) as Hin.
  { apply list_elem_of_In, list_elem_of_lookup. exists i. by rewrite lookup_zip_with, Hi, Hu. }
  specialize (Hall _ Hin). cbn in Hall. apply andb_true_iff in Hall as [Hall _].
  apply andb_true_iff in Hall as [Hall _]. apply andb_true_iff in Hall as [_ He]. by apply Z.eqb_eq in He.
Qed.

Lemma members_proved st owner t members keys proofs expires :
  Forall (member_of st owner t) members →
  Forall3 (λ key m proof, l_LeaseKey (sm_lease m) = key ∧
    l_FencingToken (sm_lease m) = l_FencingToken proof) keys members proofs →
  keys = l_LeaseKey <$> proofs →
  (∀ l, l ∈ sm_lease <$> members → instant (l_ExpiresAt l) = expires) →
  Forall (proved t owner expires) proofs.
Proof.
  intros Hm Hall. revert Hm. induction Hall as [|key m proof keys members proofs [Hk Ht] _ IH]; intros Hm Hkeys He.
  { constructor. }
  apply Forall_cons in Hm as [(k & row & Hrow & Hl & Ho) Hm]. rewrite fmap_cons in Hkeys.
  injection Hkeys as -> Hkeys. constructor.
  - exists row. rewrite Hl in Hk, Ht. cbn in Hk, Ht. subst k. split_and!; [done..|].
    rewrite <-(He (sm_lease m)) by (rewrite fmap_cons; by left). by rewrite Hl.
  - apply IH; [done..|]. intros l Hl'. apply He. rewrite fmap_cons. by right.
Qed.

Lemma loadAndVerify_proved st id owner keys proofs s ls0 updated s' expires :
  loadAndVerifyLeaseSetMembers st id owner keys (Some proofs) s = (Ok (ls0, updated), s') →
  keys = l_LeaseKey <$> proofs → (∀ l, l ∈ ls0 → instant (l_ExpiresAt l) = expires) →
  Forall (proved (tables s) owner expires) proofs.
Proof.
  unfold loadAndVerifyLeaseSetMembers. intros Hrun Hkeys He.
  apply M_bind_ok in Hrun as (u & s1 & Hst & Hrun). apply reader_statement in Hst as [Ht1 _].
  apply M_bind_ok in Hrun as (rows & s2 & [= <- <-] & Hrun).
  apply M_bind_ok in Hrun as (members & s3 & Hscan & Hrun).
  apply scanMembers_of in Hscan; [|constructor]. rewrite Ht1 in Hscan.
  apply M_bind_ok in Hrun as (u1 & s4 & Hlen & Hrun). injection Hlen as Hlen _. destruct u1.
  apply fail_if_ok, negb_false_iff, Nat.eqb_eq in Hlen.
  apply M_bind_ok in Hrun as (u2 & s5 & Hmatch & Hrun). injection Hmatch as Hmatch _. destruct u2.
  injection Hrun as <- _ _.
  apply matchMembers_Forall3 in Hmatch.
  - eapply members_proved; [|exact Hmatch|done|done].
    apply Forall_forall. intros m. rewrite SortBy_Permutation. by apply Forall_forall.
  - by rewrite SortBy_Permutation.
  - by rewrite Hkeys, length_fmap.
Qed.

Lemma verified_authority st ls keys proofs digest minimum ttl s a s' :
  verifyLeaseSetAuthorityWithMinimum st ls keys proofs digest minimum ttl s = (Ok a, s') →
  keys = l_LeaseKey <$> proofs →
  ∃ i, readings s ≤ i < readings s' ∧ authority st ls proofs minimum (tables s) i.
Proof.
  unfold verifyLeaseSetAuthorityWithMinimum. intros Hrun Hkeys.
  apply M_bind_ok in Hrun as (found & s1 & Hload & Hrun).
  apply loadLeaseSetForUpdate_run in Hload as (Ht1 & Hset & Hnow).
  apply M_bind_ok in Hrun as (u1 & s2 & [= _ <-] & Hrun).
  apply M_bind_ok in Hrun as (u2 & s3 & [= _ <-] & Hrun).
  destruct found as [stored|]; [|done]. destruct (Hnow stored eq_refl) as (Hr1 & Hn & _).
  destruct (negb _ || _ || _ || _ || _ || _ || _ || _) eqn:Hg; [done|].
  do 4 (apply orb_false_iff in Hg as [Hg _]). apply orb_false_iff in Hg as [Hg Hexp].
  apply orb_false_iff in Hg as [Hg _]. apply orb_false_iff in Hg as [Hst Ho].
  apply negb_false_iff in Hexp. apply negb_false_iff, bool_decide_eq_true in Hst, Ho.
  unfold After in Hexp. apply Z.ltb_lt in Hexp. rewrite Hn in Hexp. cbn in Hexp.
  apply M_bind_ok in Hrun as ([ls0 updated] & s4 & Hload & Hrun).
  destruct (negb (leaseSetDurationsMatch _ _ _)) eqn:Hd; [done|]. apply negb_false_iff in Hd.
  injection Hrun as _ <-. pose proof (loadAndVerify_reader _ _ _ _ _ _ _ _ Hload) as [_ Hn4].
  exists (readings s). split; [lia|]. exists (st_row stored). split_and!; [done|done|done|lia|].
  rewrite <-Ht1. eapply loadAndVerify_proved; [exact Hload|done|].
  intros l Hl. by eapply durations_match.
Qed.
End authority.

(** ** Digests survive their storage *)

Lemma hex_pair (a b : Ascii.ascii) :
  cl_hex a = true → cl_hex b = true →
  (hex_char a && hex_char b = true) ∧
  hex_byte (Ascii.N_of_ascii (chr (16 * hex_value a + hex_value b))) = [a; b].
Proof.
  assert (∀ c, cl_hex c = true → hex_char c = true ∧ (hex_value c < 16)%N ∧ hex_digit (hex_value c) = c) as Hc.
  { intros [[] [] [] [] [] [] [] []]; intros Hx; try discriminate Hx; repeat split. }
  intros Ha Hb. destruct (Hc a Ha) as (-> & Ha1 & Ha2), (Hc b Hb) as (-> & Hb1 & Hb2). split; [done|].
  unfold chr. rewrite Ascii.N_ascii_embedding by lia. unfold hex_byte.
  replace ((16 * hex_value a + hex_value b) / 16)%N with (hex_value a).
  2: { apply (N.div_unique _ _ _ (hex_value b)); lia. }
  replace ((16 * hex_value a + hex_value b) mod 16)%N with (hex_value b).
  2: { apply (N.mod_unique _ _ (hex_value a)); lia. }
  by rewrite Ha2, Hb2.
Qed.

Lemma hex_roundtrip n s :
  match_classes (replicate (n + n) cl_hex) s = true → hexText (DecodeString s) = s.
Proof.
  revert s. induction n as [|n IH]; intros s.
  { destruct s; [done|by intros [=]]. }
  replace (S n + S n) with (S (S (n + n))) by lia. cbn [replicate].
  destruct s as [|a [|b s]]; cbn [match_classes]; try done.
  { by intros [_ Hx]%andb_true_iff. }
  intros [Ha Hs]%andb_true_iff. apply andb_true_iff in Hs as [Hb Hs].
  destruct (hex_pair a b Ha Hb) as [Hc Hp]. cbn [DecodeString]. rewrite Hc.
  specialize (IH s Hs). unfold hexText in *. cbn [bytes_of].
  change (hex_encode (byte_of ?c :: ?l)) with (hex_byte (byte_of c) ++ hex_encode l). unfold byte_of at 1.
  rewrite Hp. cbn [app string_of]. by rewrite IH.
Qed.


(** ** Reading *)

Section readers.
Context `{Clock, Database, TimeText, Sha256, Collation, Json, DeliveryJson}.

Lemma set_lease_tables_id t : set_lease_tables (lease_tables (work t)) t = t.
Proof. by destruct t as [c x []]. Qed.

Lemma on_leases_reader {A} (m : M error (DB Tables) A) : reader m → reader (on_leases m).
Proof.
  intros Hm s r s'. unfold on_leases. destruct (m _) as [r0 s0] eqn:Hrun. intros [= _ <-].
  apply Hm in Hrun as [Ht Hn]. cbn in *. by rewrite Ht, set_lease_tables_id.
Qed.

Lemma journal_reader op params : reader (journal op params).
Proof. unfold journal. reading. Qed.

Lemma loadDeliveryPublication_reader st d a : reader (loadDeliveryPublication st d a).
Proof. unfold loadDeliveryPublication. apply reader_bind; [apply journal_reader|]. reading. Qed.

Lemma lockPublicationAndLeaseSet_reader st intent keys : reader (lockPublicationAndLeaseSet st intent keys).
Proof.
  unfold lockPublicationAndLeaseSet, lockPublicationAdvisory. apply reader_bind; [|reading].
  apply on_leases_reader, lockLeaseSetAndMembers_reader.
Qed.

Lemma lifecycle_reader st a op : reader (requirePublicationLifecycleFence st a op).
Proof. unfold requirePublicationLifecycleFence. reading. Qed.

Lemma verify_reader st ls keys proofs digest minimum ttl :
  reader (on_leases (verifyLeaseSetAuthorityWithMinimum st ls keys proofs digest minimum ttl)).
Proof. apply on_leases_reader, verifyAuthority_reader. Qed.
End readers.

#[export] Hint Resolve on_leases_reader journal_reader loadDeliveryPublication_reader
  lockPublicationAndLeaseSet_reader lifecycle_reader verify_reader : forja_parts.

(** ** Effects *)

Section effects.
Context `{Clock, Database, TimeText, Sha256, Collation, Json, DeliveryJson}.

(** The attempt is stored, succeeded, and its run is being validated. *)
Definition publishable (st : PgStore) (attemptID : string) (t : Forja) : Prop :=
  ∃ a r, attempts (work t) !! attemptID = Some a ∧ at_tenant a = tenantID st ∧
    at_status a = "succeeded" ∧ runs (canonical t) !! at_run a = Some r ∧
    run_scope r = store_scope st ∧ run_state r = StateValidating.

Definition intent_key (st : PgStore) (intent : DeliveryPublicationIntent) : PublicationKey :=
  publication_key st (pi_DeliveryID intent) (pi_AttemptID intent).

(** The states a prepared row can be moved to, with what was observed. *)
Definition final (row : PublicationRow) (state : string) (observed : option string) : Prop :=
  state = "published" ∧ observed = Some (pb_result row) ∨
  state = "abandoned" ∧ observed = pb_previous row ∨ state = "conflict".

Inductive journal_effect (st : PgStore) (intent : DeliveryPublicationIntent) (t : Forja) : Forja → Prop :=
| je_none : journal_effect st intent t t
| je_prepared pubs prepared updated :
    validatePublicationIntent intent = Ok tt → validatePublicationScope st intent = Ok tt →
    delivery_publications (work t) = Some pubs → publishable st (pi_AttemptID intent) t →
    publication_insert_fault (intent_key st intent) (prepared_row intent prepared updated) pubs t = None →
    journal_effect st intent t
      (set_journal <[intent_key st intent := prepared_row intent prepared updated]> t)
| je_moved pubs row state observed published updated :
    delivery_publications (work t) = Some pubs → pubs !! intent_key st intent = Some row →
    scanIntent (intent_key st intent) row = intent → pb_state row = "prepared" →
    final row state observed →
    publication_check (intent_key st intent) (moved_publication row state observed published updated) = false →
    journal_effect st intent t
      (set_journal <[intent_key st intent := moved_publication row state observed published updated]> t).

(** The prepared row of the intent became [state]; nothing else changed. *)
Definition settled (st : PgStore) (intent : DeliveryPublicationIntent) (state : string)
    (observed : option string) (t t' : Forja) : Prop :=
  ∃ pubs row published updated,
    delivery_publications (work t) = Some pubs ∧ pubs !! intent_key st intent = Some row ∧
    pb_state row = "prepared" ∧ scanIntent (intent_key st intent) row = intent ∧
    final row state observed ∧
    publication_check (intent_key st intent) (moved_publication row state observed published updated) = false ∧
    t' = set_journal <[intent_key st intent := moved_publication row state observed published updated]> t.

Lemma settled_effect st intent state observed t t' :
  settled st intent state observed t t' → journal_effect st intent t t'.
Proof. intros (pubs & row & p & u & ? & ? & ? & ? & ? & ? & ->). by eapply je_moved. Qed.

(** The row of the intent already was in the state. *)
Definition already (st : PgStore) (intent : DeliveryPublicationIntent) (states : list string) (t : Forja) : Prop :=
  ∃ pubs row, delivery_publications (work t) = Some pubs ∧ pubs !! intent_key st intent = Some row ∧
    scanIntent (intent_key st intent) row = intent ∧ pb_state row ∈ states.

Lemma exact_intent stored supplied : exactPublicationIntent stored supplied = Ok tt → stored = supplied.
Proof.
  unfold exactPublicationIntent, optionalStringEqual. intros Hok%fail_if_ok.
  repeat (apply orb_false_iff in Hok as [Hok ?Hx]).
  repeat match goal with H : negb _ = false |- _ => apply negb_false_iff in H end.
  repeat match goal with
  | H : bool_decide _ = true |- _ => apply bool_decide_eq_true in H
  | H : (_ =? _)%Z = true |- _ => apply Z.eqb_eq in H
  end.
  destruct stored, supplied. cbn in *. by subst.
Qed.

(** Rules of [swp] for the statements on the journal. *)
Lemma swp_journal op params s Q :
  (∀ pubs s', delivery_publications (work (tables s)) = Some pubs → tables s' = tables s →
     readings s' = readings s → Q pubs s') → swp s (journal op params) Q.
Proof.
  intros HQ. unfold journal. swp_seq. destruct (delivery_publications _) as [pubs|] eqn:Hp; swp_seq.
  by apply HQ.
Qed.

Lemma swp_load st d a s (Q : option DeliveryPublication → DB Forja → Prop) :
  (∀ pubs s', delivery_publications (work (tables s)) = Some pubs → tables s' = tables s →
     readings s' = readings s →
     match pubs !! publication_key st d a with
     | None => Q None s'
     | Some row => ∀ published,
         Q (Some (mkPublication (scanIntent (publication_key st d a) row) (pb_state row) (pb_observed row)
                    (UTC (pb_prepared row)) published (UTC (pb_updated row)))) s'
     end) → swp s (loadDeliveryPublication st d a) Q.
Proof.
  intros HQ. unfold loadDeliveryPublication. apply swp_bind, swp_journal. intros pubs s' Hp Ht Hr.
  specialize (HQ pubs s' Hp Ht Hr). destruct (pubs !! _) as [row|]; [|by apply swp_ret].
  apply swp_bind, swp_intro. intros published s1 Hrun.
  assert (s1 = s') as ->.
  { destruct (pb_published row); [|by injection Hrun]. apply M_bind_ok in Hrun as (v & s2 & Hl & Hrun).
    injection Hrun as _ <-. by injection Hl as _ <-. }
  by apply swp_ret.
Qed.

Lemma swp_lifecycle st attemptID op s Q :
  (∀ s', publishable st attemptID (tables s) → tables s' = tables s → readings s' = readings s → Q tt s') →
  swp s (requirePublicationLifecycleFence st attemptID op) Q.
Proof.
  intros HQ. unfold requirePublicationLifecycleFence. swp_seq.
  destruct (attempts (work (tables s)) !! attemptID) as [a|] eqn:Ha; cbn; [|swp_seq].
  destruct (in_scope _ _ _) as [r|] eqn:Hr; cbn; [|swp_seq].
  unfold in_scope in Hr. destruct (runs _ !! _) as [r0|] eqn:Hrow; [|done].
  destruct (bool_decide (run_scope r0 = _)) eqn:Hsc; [|done]. injection Hr as ->.
  apply bool_decide_eq_true in Hsc. destruct (bool_decide (at_tenant a = _)) eqn:Ht; [|swp_seq].
  apply bool_decide_eq_true in Ht. cbn. destruct (negb _ || negb _) eqn:Hst; swp_seq.
  apply orb_false_iff in Hst as [Hs1 Hs2]. apply negb_false_iff, bool_decide_eq_true in Hs1, Hs2.
  apply HQ; [|done..]. by exists a, r.
Qed.
Lemma swp_insert_publication st intent s Q :
  (∀ pubs prepared updated s', delivery_publications (work (tables s)) = Some pubs →
     publication_insert_fault (intent_key st intent) (prepared_row intent prepared updated) pubs (tables s) = None →
     tables s' = set_journal <[intent_key st intent := prepared_row intent prepared updated]> (tables s) →
     Q prepared s') → swp s (insert_publication st intent) Q.
Proof.
  intros HQ. unfold insert_publication. apply swp_bind, swp_journal. intros pubs s1 Hp Ht Hr.
  swp_seq. apply (HQ pubs _ (clock_reading (S (readings s1)))); [done| |].
  - by rewrite <-Ht.
  - cbn. by rewrite Ht.
Qed.

Lemma swp_update_publication st op intent state observed published s Q :
  (∀ pubs row updated s', delivery_publications (work (tables s)) = Some pubs →
     pubs !! intent_key st intent = Some row → pb_state row = "prepared" →
     publication_check (intent_key st intent)
       (moved_publication row state (observed row) published updated) = false →
     tables s' = set_journal <[intent_key st intent :=
       moved_publication row state (observed row) published updated]> (tables s) →
     readings s ≤ readings s' → Q updated s') → swp s (update_publication st op intent state observed published) Q.
Proof.
  intros HQ. unfold update_publication. apply swp_bind, swp_journal. intros pubs s1 Hp Ht Hr.
  fold (intent_key st intent). destruct (pubs !! _) as [row|] eqn:Hrow; [|swp_seq].
  destruct (bool_decide (pb_state row = _)) eqn:Hst; [|swp_seq]. apply bool_decide_eq_true in Hst. swp_seq.
  match goal with H : violated _ _ = None |- _ => unfold violated in H; destruct (publication_check _ _) eqn:Hc; [done|] end.
  apply (HQ pubs row _ _ Hp Hrow Hst Hc); cbn; [by rewrite Ht|lia].
Qed.

(** ** The operations on the journal alone *)

Lemma Prepare_effect st intent leaseSet s :
  swp s (PrepareDeliveryPublication st intent leaseSet) (λ record s',
    dp_Intent record = intent ∧ journal_effect st intent (tables s) (tables s')).
Proof.
  unfold PrepareDeliveryPublication. apply swp_bind, swp_lift. intros [[[keys proofs] digest] ttl] Hauth.
  swp_seq. apply swp_reader; [apply lockPublicationAndLeaseSet_reader|]. intros _ s1 _ Ht1 _. cbn in Ht1.
  apply swp_bind, swp_load. intros pubs s2 Hp Ht2 _. fold (intent_key st intent).
  destruct (pubs !! intent_key st intent) as [row|] eqn:Hrow.
  - intros published. apply swp_bind, swp_lift. intros [] Hex%exact_intent. cbn in Hex.
    cbn [dp_State]. destruct (bool_decide (pb_state row = _)).
    + swp_seq. cbn [dp_Intent]. rewrite Ht2, Ht1. by split; [|constructor].
    + swp_seq. apply swp_reader; [apply lifecycle_reader|]. intros _ s3 _ Ht3 _.
      swp_seq. apply swp_reader; [apply verify_reader|]. intros _ s4 _ Ht4 _. swp_seq.
      cbn [dp_Intent]. rewrite Ht4, Ht3, Ht2, Ht1. by split; [|constructor].
  - swp_seq. apply swp_lifecycle. intros s3 Hpub Ht3 _.
    swp_seq. apply swp_reader; [apply verify_reader|]. intros _ s4 _ Ht4 _. swp_seq.
    unfold insertPrepared. apply swp_bind, swp_insert_publication.
    intros pubs' prepared updated s5 Hp' Hf Ht5. swp_seq. split; [done|].
    rewrite Ht5, Ht4, Ht3, Ht2, Ht1. rewrite Ht4, Ht3, Ht2, Ht1 in Hp', Hf. rewrite Ht2, Ht1 in Hpub.
    unfold validatePublicationAuthority in Hauth. apply res_bind_ok in Hauth as ([] & Hv & Hauth).
    apply res_bind_ok in Hauth as ([] & Hs & _). by eapply je_prepared.
Qed.

Lemma transition_outcome st intent state observed s :
  (state = "published" ∧ observed = Some (pi_ResultCommit intent)) ∨ state = "conflict" →
  swp s (transitionPublicationWithoutLease st intent state observed) (λ record s',
    dp_Intent record = intent ∧ dp_State record = state ∧ dp_ObservedCommit record = observed ∧
    (already st intent [state] (tables s) ∧ tables s' = tables s ∨
     settled st intent state observed (tables s) (tables s'))).
Proof.
  intros Hstate. unfold transitionPublicationWithoutLease, lockPublication, lockPublicationAdvisory. swp_seq.
  apply swp_load. cbn. intros pubs s2 Hp Ht2 _. fold (intent_key st intent).
  destruct (pubs !! intent_key st intent) as [row|] eqn:Hrow; [|swp_seq].
  intros published. apply swp_bind, swp_lift. intros [] Hex%exact_intent. cbn in Hex. cbn [dp_State dp_ObservedCommit].
  destruct (bool_decide (pb_state row = state) && _) eqn:Hsame.
  { swp_seq. apply andb_true_iff in Hsame as [Hs Ho]. unfold optionalStringEqual in Ho.
    apply bool_decide_eq_true in Hs, Ho. cbn. rewrite Ht2. split_and!; [done..|]. left. split; [|done].
    exists pubs, row. split_and!; [done..|set_solver]. }
  destruct (negb (bool_decide (pb_state row = "prepared"))) eqn:Hpr; [swp_seq|].
  destruct (bool_decide (state = "published")) eqn:Hpub.
  - apply bool_decide_eq_true in Hpub as ->. destruct Hstate as [[_ ->]|[=]].
    apply swp_bind, swp_lift. intros at_ _. apply swp_bind, swp_update_publication.
    intros pubs' row' updated s3 Hp' Hrow' Hst Hc Ht3 _. swp_seq. cbn. rewrite Ht2 in *.
    split_and!; [done..|]. rewrite Ht3. assert (row' = row) as -> by congruence. right.
    eexists pubs, row, _, _. split_and!; [done..| |done|done]. left. split; [done|]. by rewrite <-Hex.
  - apply bool_decide_eq_false in Hpub. destruct Hstate as [[-> _]| ->]; [done|].
    apply swp_bind, swp_update_publication.
    intros pubs' row' updated s3 Hp' Hrow' Hst Hc Ht3 _. swp_seq. cbn. rewrite Ht2 in *.
    split_and!; [done..|]. rewrite Ht3. assert (row' = row) as -> by congruence. right.
    eexists pubs, row, _, _. split_and!; [done..|by right; right|done|done].
Qed.

Lemma transition_effect st intent state observed s :
  (state = "published" ∧ observed = Some (pi_ResultCommit intent)) ∨ state = "conflict" →
  swp s (transitionPublicationWithoutLease st intent state observed) (λ record s',
    journal_effect st intent (tables s) (tables s')).
Proof.
  intros Hstate. apply swp_intro. intros record s' Hrun.
  destruct (swp_run _ _ _ _ _ (transition_outcome _ _ _ _ _ Hstate) Hrun) as (_ & _ & _ & [[_ ->]|Hset]);
    [constructor|by eapply settled_effect].
Qed.

Lemma scan_prepared st intent p u :
  validatePublicationIntent intent = Ok tt → validatePublicationScope st intent = Ok tt →
  scanIntent (intent_key st intent) (prepared_row intent p u) = intent.
Proof.
  unfold validatePublicationIntent, validatePublicationScope. intros Hv Hs.
  apply fail_if_ok, orb_false_iff in Hs as [Ht Hr]. apply negb_false_iff, bool_decide_eq_true in Ht, Hr.
  do 3 (apply res_bind_ok in Hv as ([] & _ & Hv)). apply res_bind_ok in Hv as ([] & Hc%fail_if_ok & _).
  apply orb_false_iff in Hc as [Hc _]. apply orb_false_iff in Hc as [Hc _].
  apply orb_false_iff in Hc as [Hc Hd3]. apply orb_false_iff in Hc as [Hc Hd2]. apply orb_false_iff in Hc as [_ Hd1].
  apply negb_false_iff in Hd1, Hd2, Hd3.
  unfold scanIntent, intent_key, publication_key, prepared_row. cbn -[hexText DecodeString].
  rewrite !(hex_roundtrip 32) by done. rewrite <-Ht, <-Hr. by destruct intent.
Qed.

Lemma safe_lifted {A B} (x : result A) (k : A → M error (DB Forja) B) :
  (∀ a, safe (k a)) → safe (lift x ≫= k).
Proof. apply safe_bind, reader_lift. Qed.
End effects.
