(* ===== verification/PublicationWorld.v ===== *)
(** * What an operation did to the journal and to Git

    The operations whose callbacks act on Git in the middle of a transaction, and
    the effect of every operation on the journal, whatever its outcome. *)

From stdpp Require Import pretty.
From S2P Require Import Prelude GoLib Fault Contracts Identity RunState LeasePaths Postgres DeliveryContracts.
From S2P Require Import ControlMemory Leases LeaseSets LeaseSafety PgTables PgEvents Publications PgLogic.
From S2P Require Import PublicationEffects.

(** ** Execution on the database and Git *)

Section wwp.
Context `{Clock, Database, TimeText, Sha256, Collation, Json, DeliveryJson}.
Context {G : Type}.
Implicit Types (w : World G).

(** If [m] succeeds from [w], [Q] holds of the answer and the world it ends in. *)
Definition wwp {A} w (m : M error (World G) A) (Q : A → World G → Prop) : Prop :=
  ∀ a w', m w = (Ok a, w') → Q a w'.

Lemma wwp_run {A} w (m : M error (World G) A) Q a w' : wwp w m Q → m w = (Ok a, w') → Q a w'.
Proof. intros Hm. apply Hm. Qed.
Lemma wwp_mono {A} w (m : M error (World G) A) (Q Q' : A → World G → Prop) :
  wwp w m Q → (∀ a w', Q a w' → Q' a w') → wwp w m Q'.
Proof. intros Hm HQ a w' Hrun. by apply HQ, Hm. Qed.
Lemma wwp_bind {A B} w (m : M error (World G) A) (k : A → M error (World G) B) Q :
  wwp w m (λ a w1, wwp w1 (k a) Q) → wwp w (m ≫= k) Q.
Proof. intros Hm b w' (a & w1 & Hm1 & Hm2)%M_bind_ok. by eapply Hm. Qed.
Lemma wwp_ret {A} w (a : A) Q : Q a w → wwp w (mret a) Q.
Proof. by intros HQ b w' [= <- <-]. Qed.
Lemma wwp_throw {A} w e (Q : A → World G → Prop) : wwp w (throw e) Q.
Proof. by intros b w' [=]. Qed.
Lemma wwp_lift {A} w (r : result A) Q : (∀ a, r = Ok a → Q a w) → wwp w (lift r) Q.
Proof. intros HQ a w' [= -> <-]. by apply HQ. Qed.
Lemma wwp_db {A} w (m : M error (DB Forja) A) Q :
  swp (db w) m (λ a s, Q a (mkWorld s (git w))) → wwp w (on_db m) Q.
Proof.
  intros Hm a w'. unfold on_db. destruct (m (db w)) as [r s] eqn:Hrun. intros [= -> <-].
  exact (swp_run _ _ _ _ _ Hm Hrun).
Qed.
Lemma wwp_git {A} w (m : M error G A) (Q : A → World G → Prop) :
  (∀ a g, m (git w) = (Ok a, g) → Q a (mkWorld (db w) g)) → wwp w (on_git m) Q.
Proof.
  intros HQ a w'. unfold on_git. destruct (m (git w)) as [r g] eqn:Hrun. intros [= -> <-]. by apply HQ.
Qed.
Lemma wwp_transaction {A} w (m : M error (World G) A) Q : wwp w m Q → wwp w (transaction m) Q.
Proof.
  intros Hm a w'. unfold transaction. destruct (m w) as [[b|e] w1] eqn:Hrun; [|done].
  intros [= -> ->]. by apply Hm.
Qed.

(** A failed transaction takes the tables back. *)
Lemma transaction_err {A} (m : M error (World G) A) w e w' :
  transaction m w = (Err e, w') → tables (db w') = tables (db w).
Proof. unfold transaction. destruct (m w) as [[b|e'] w1]; [done|]. by intros [= _ <-]. Qed.

Lemma wwp_statement w op params Q :
  (∀ s, tables s = tables (db w) → readings s = readings (db w) → Q tt (mkWorld s (git w))) →
  wwp w (on_db (statement op params)) Q.
Proof. intros HQ. apply wwp_db, swp_statement. intros _. by apply HQ. Qed.

Lemma wwp_reading {A} w (m : M error (DB Forja) A) (Q : A → World G → Prop) :
  reader m → (∀ a s, m (db w) = (Ok a, s) → tables s = tables (db w) → readings (db w) ≤ readings s →
    Q a (mkWorld s (git w))) → wwp w (on_db m) Q.
Proof. intros Hm HQ. apply wwp_db, swp_reader; [done|]. intros a s Hrun Ht Hr. by apply HQ. Qed.
End wwp.

Global Opaque wwp.

Ltac wwp_prim :=
  lazymatch goal with
  | |- wwp _ (mbind _ _) _ => apply wwp_bind
  | |- wwp _ (mret _) _ => apply wwp_ret
  | |- wwp _ (throw _) _ => apply wwp_throw
  | |- wwp _ (transaction _) _ => apply wwp_transaction
  end; cbn beta iota zeta delta [db git].
Ltac wwp_seq := repeat wwp_prim.

(** ** The authority of a publication *)

Section authority.
Context `{Clock, Database, TimeText, Sha256, Collation, Json, DeliveryJson}.

Lemma orderProofs_keys m keys proofs : orderProofs m keys = Ok proofs → keys = l_LeaseKey <$> proofs.
Proof.
  revert proofs. induction keys as [|key keys IH]; intros proofs; cbn [orderProofs].
  { by intros [= <-]. }
  intros Hok. apply res_bind_ok in Hok as ([] & _ & Hok). apply res_bind_ok in Hok as (ps & Hps & Hok).
  injection Hok as <-. rewrite fmap_cons, <-(IH _ Hps). done.
Qed.

Record authorised (st : PgStore) (intent : DeliveryPublicationIntent) (ls : LeaseSet)
    (keys : list LeaseKey) (proofs : list Lease) : Prop := {
  ad_intent : validatePublicationIntent intent = Ok tt;
  ad_scope : validatePublicationScope st intent = Ok tt;
  ad_set : ls_LeaseSetID ls = pi_LeaseSetID intent;
  ad_keys : keys = l_LeaseKey <$> proofs;
  ad_fences : ∃ receipt, receipt_of_json (pi_ReceiptJSON intent) = Ok receipt ∧
    Forall2 (λ fence proof, fence_matches fence proof = true) (rt_LeaseFences receipt) proofs;
}.

Lemma validatePublicationAuthority_ok st intent ls keys proofs digest ttl :
  validatePublicationAuthority st intent ls = Ok (keys, proofs, digest, ttl) →
  authorised st intent ls keys proofs.
Proof.
  unfold validatePublicationAuthority. intros Hok. apply res_bind_ok in Hok as ([] & Hi & Hok).
  apply res_bind_ok in Hok as ([] & Hs & Hok). apply res_bind_ok in Hok as ([] & Hid%fail_if_ok & Hok).
  apply res_bind_ok in Hok as ([[ks ps] dg] & Hproof & Hok).
  apply res_bind_ok in Hok as (receipt & Hr & Hok). apply res_bind_ok in Hok as ([] & Hlen%fail_if_ok & Hok).
  apply res_bind_ok in Hok as ([] & Hf%fail_if_ok & Hok). injection Hok as -> -> _ _.
  apply negb_false_iff in Hid, Hlen, Hf. apply bool_decide_eq_true in Hid. apply Nat.eqb_eq in Hlen.
  apply Build_authorised; [done..| |].
  - unfold validateLeaseSetProof in Hproof. do 4 (apply res_bind_ok in Hproof as ([] & _ & Hproof)).
    apply res_bind_ok in Hproof as ([[ks0 m] n] & _ & Hproof). apply res_bind_ok in Hproof as ([] & _ & Hproof).
    apply res_bind_ok in Hproof as (ps0 & Hps & Hproof). injection Hproof as <- <- _.
    by eapply orderProofs_keys.
  - exists receipt. split.
    + unfold renamed in Hr. destruct (receipt_of_json _); [|done]. by injection Hr as ->.
    + clear -Hlen Hf. revert Hlen Hf. generalize (rt_LeaseFences receipt). intros l. revert proofs.
      induction l as [|f l IH]; intros [|p ps]; try done; cbn. intros Hlen Hf.
      apply andb_true_iff in Hf as [Hfp Hf]. constructor; [done|]. apply IH; [lia|done].
Qed.

(** The lease set was in force, with [minimum] to spare, at the reading [i]. *)
Definition in_force (st : PgStore) (intent : DeliveryPublicationIntent) (ls : LeaseSet) (minimum : Z)
    (t : Forja) (i : nat) : Prop :=
  ∃ receipt proofs, receipt_of_json (pi_ReceiptJSON intent) = Ok receipt ∧
    Forall2 (λ fence proof, fence_matches fence proof = true) (rt_LeaseFences receipt) proofs ∧
    authority st ls proofs minimum (lease_tables (work t)) i.

Lemma verified_in_force st intent ls keys proofs digest minimum ttl s a s' :
  authorised st intent ls keys proofs →
  on_leases (verifyLeaseSetAuthorityWithMinimum st ls keys proofs digest minimum ttl) s = (Ok a, s') →
  ∃ i, readings s ≤ i < readings s' ∧ in_force st intent ls minimum (tables s) i.
Proof.
  intros [_ _ _ Hk (receipt & Hr & Hf)]. unfold on_leases.
  destruct (verifyLeaseSetAuthorityWithMinimum _ _ _ _ _ _ _ _) as [r s0] eqn:Hrun. intros [= -> <-].
  apply verified_authority in Hrun as (i & Hi & Ha); [|done]. exists i. split; [done|]. by exists receipt, proofs.
Qed.
End authority.

(** ** The operations *)

Section operations.
Context `{Clock, Database, TimeText, Sha256, Collation, Json, DeliveryJson}.
Context {G : Type}.
Implicit Types (w : World G).

(** A publication that took place: the callbacks succeeded one after the other,
    the run and the attempt were ready, and between the callbacks the leases were
    in force for at least another [minimumPublicationAuthorityTimeRemaining]. *)
Record published_now (st : PgStore) (intent : DeliveryPublicationIntent) (ls : LeaseSet)
    (revalidate apply : M error G unit) w w' : Prop := {
  pn_git : ∃ g, revalidate (git w) = (Ok tt, g) ∧ apply g = (Ok tt, git w');
  pn_ready : publishable st (pi_AttemptID intent) (tables (db w));
  pn_leases : ∃ i, readings (db w) ≤ i < readings (db w') ∧
    in_force st intent ls minimumPublicationAuthorityTimeRemaining (tables (db w)) i;
  pn_row : settled st intent "published" (Some (pi_ResultCommit intent)) (tables (db w)) (tables (db w'));
}.

Lemma publishPrepared_outcome st intent ls keys proofs digest ttl at_ record revalidate apply w pubs row :
  authorised st intent ls keys proofs →
  delivery_publications (work (tables (db w))) = Some pubs → pubs !! intent_key st intent = Some row →
  scanIntent (intent_key st intent) row = intent →
  wwp w (publishPrepared st intent
    (_ ← on_leases (verifyLeaseSetAuthorityWithMinimum st ls keys proofs digest
                      minimumPublicationAuthorityTimeRemaining ttl); mret tt)
    at_ record revalidate apply) (λ record' w',
    dp_Intent record' = dp_Intent record ∧ dp_State record' = "published" ∧
    (∃ g, revalidate (git w) = (Ok tt, g) ∧ apply g = (Ok tt, git w')) ∧
    (∃ i, readings (db w) ≤ i < readings (db w') ∧
       in_force st intent ls minimumPublicationAuthorityTimeRemaining (tables (db w)) i) ∧
    settled st intent "published" (Some (pi_ResultCommit intent)) (tables (db w)) (tables (db w'))).
Proof.
  intros Hauth Hp Hrow Hscan. unfold publishPrepared. wwp_seq. apply wwp_git. intros [] g1 Hg1. wwp_seq.
  apply wwp_db. cbn [db git]. apply swp_bind, swp_intro. intros x s1 Hv.
  pose proof (verify_reader _ _ _ _ _ _ _ _ _ _ Hv) as [Ht1 _].
  apply (verified_in_force _ _ _ _ _ _ _ _ _ _ _ Hauth) in Hv as (i & Hi & Hf). swp_seq. wwp_seq.
  apply wwp_git. intros [] g2 Hg2. wwp_seq. apply wwp_db. cbn [db git]. apply swp_update_publication.
  intros pubs' row' updated s2 Hp' Hrow' Hst Hc Ht2 Hr2. rewrite Ht1 in Hp'.
  assert (row' = row) as -> by congruence.
  destruct (negb _); [wwp_seq|]. wwp_seq. apply wwp_statement. intros s3 Ht3 Hr3. wwp_seq.
  cbn [db git] in *. split_and!; [done..|by exists g1|exists i; split; [lia|done]|].
  eexists pubs, row, _, updated. rewrite Ht3, Ht2, Ht1.
  assert (pb_result row = pi_ResultCommit intent) as <- by (by rewrite <-Hscan).
  split_and!; [done..|by left|done|done].
Qed.
Lemma Complete_outcome st intent ls revalidate apply w :
  wwp w (CompleteDeliveryPublication st intent ls (Some revalidate) (Some apply)) (λ record w',
    dp_Intent record = intent ∧ dp_State record = "published" ∧
    (already st intent ["published"] (tables (db w)) ∧ tables (db w') = tables (db w) ∧ git w' = git w ∨
     published_now st intent ls revalidate apply w w')).
Proof.
  unfold CompleteDeliveryPublication. wwp_seq. apply wwp_lift. intros [[[keys proofs] digest] ttl] Hauth.
  apply validatePublicationAuthority_ok in Hauth. wwp_seq. apply wwp_lift. intros at_ _. wwp_seq.
  apply wwp_statement. intros s1 Ht1 Hr1. wwp_seq.
  apply wwp_reading; [apply lockPublicationAndLeaseSet_reader|]. cbn [db git]. intros _ s2 _ Ht2 Hr2. wwp_seq.
  apply wwp_db, swp_load. cbn [db git]. intros pubs s3 Hp Ht3 Hr3. fold (intent_key st intent).
  rewrite Ht2, Ht1 in Hp. rewrite Ht2, Ht1 in Ht3.
  destruct (pubs !! intent_key st intent) as [row|] eqn:Hrow.
  2: { wwp_seq. apply wwp_reading; [|intros; wwp_seq]. apply reader_bind; [apply verify_reader|]. reading. }
  intros published. wwp_seq. apply wwp_lift. intros [] Hex%exact_intent. cbn [dp_Intent dp_State] in *.
  fold (intent_key st intent) in Hex. destruct (bool_decide (pb_state row = "published")) eqn:Hpub.
  { apply bool_decide_eq_true in Hpub. wwp_seq. apply wwp_statement. intros s4 Ht4 Hr4. wwp_seq.
    cbn [db git dp_Intent dp_State] in *. split_and!; [done..|]. left. split_and!; [|by rewrite Ht4, Ht3|done].
    exists pubs, row. split_and!; [done..|]. rewrite Hpub. by left. }
  wwp_seq. apply wwp_db, swp_lifecycle. cbn [db git]. intros s4 Hready Ht4 Hr4. wwp_seq.
  rewrite Ht3 in Hready. apply wwp_reading.
  { apply reader_bind; [apply verify_reader|]. reading. }
  cbn [db git]. intros _ s5 _ Ht5 Hr5. wwp_seq. destruct (negb _); [wwp_seq|].
  assert (tables s5 = tables (db w)) as Ht by (by rewrite Ht5, Ht4, Ht3).
  assert (readings (db w) ≤ readings s5) as Hr by lia. clear Ht1 Ht2 Ht3 Ht4 Ht5 Hr1 Hr2 Hr3 Hr4 Hr5.
  eapply wwp_mono; [eapply (publishPrepared_outcome _ _ _ _ _ _ _ _ _ _ _ _ pubs row); cbn [db]; [done|by rewrite Ht|done..]|].
  cbn beta. intros record w' (Hi & Hst & Hg & (i & Hi1 & Hf) & Hset).
  cbn [db git dp_Intent] in *. rewrite Ht in *. split_and!; [by rewrite Hi|done|right].
  apply Build_published_now; [done|done| |done]. exists i. split; [lia|done].
Qed.

Lemma Abandon_outcome st intent observe w :
  wwp w (AbandonDeliveryPublication st intent (Some observe)) (λ record w',
    dp_Intent record = intent ∧
    (already st intent [dp_State record] (tables (db w)) ∧ tables (db w') = tables (db w) ∧ git w' = git w ∨
     dp_State record = "abandoned" ∧ observe (git w) = (Ok (pi_PublicationPreviousCommit intent), git w') ∧
     settled st intent "abandoned" (pi_PublicationPreviousCommit intent) (tables (db w)) (tables (db w')))).
Proof.
  unfold AbandonDeliveryPublication. wwp_seq. apply wwp_lift. intros [] Hv. wwp_seq. apply wwp_lift. intros [] _.
  wwp_seq. apply wwp_statement. intros s1 Ht1 _. wwp_seq. apply wwp_reading.
  { unfold lockPublication, lockPublicationAdvisory. reading. }
  cbn [db git]. intros _ s2 _ Ht2 _. wwp_seq. apply wwp_db, swp_load. cbn [db git].
  intros pubs s3 Hp Ht3 _. fold (intent_key st intent). rewrite Ht2, Ht1 in Hp, Ht3.
  destruct (pubs !! intent_key st intent) as [row|] eqn:Hrow; [|wwp_seq].
  intros published. wwp_seq. apply wwp_lift. intros [] Hex%exact_intent. cbn [dp_Intent dp_State] in *.
  fold (intent_key st intent) in Hex. destruct (_ || _) eqn:Hdone.
  { wwp_seq. apply wwp_statement. intros s4 Ht4 _. wwp_seq. cbn [db git dp_Intent] in *. split; [done|left].
    split_and!; [|by rewrite Ht4, Ht3|done]. exists pubs, row. split_and!; [done..|set_solver]. }
  destruct (negb _); [wwp_seq|]. wwp_seq. apply wwp_git. cbn [db git]. intros observed g Hob. wwp_seq.
  destruct (negb (optionalStringEqual _ _)) eqn:Heq; [wwp_seq|]. apply negb_false_iff in Heq.
  unfold optionalStringEqual in Heq. apply bool_decide_eq_true in Heq as ->. wwp_seq.
  apply wwp_db, swp_update_publication. cbn [db git]. intros pubs' row' updated s4 Hp' Hrow' Hst Hc Ht4 _.
  rewrite Ht3 in Hp', Ht4. assert (row' = row) as -> by congruence. wwp_seq.
  apply wwp_statement. intros s5 Ht5 _. wwp_seq. cbn [db git dp_Intent] in *. split; [done|right].
  split; [done|]. split; [done|]. exists pubs, row, None, updated. rewrite Ht5, Ht4. split_and!; [done..| |done|done].
  right. left. split; [done|]. by rewrite <-Hex.
Qed.

(** A failure of an operation with callbacks leaves the tables alone. *)
Lemma Complete_err st intent ls revalidate apply w e w' :
  CompleteDeliveryPublication st intent ls revalidate apply w = (Err e, w') →
  tables (db w') = tables (db w).
Proof.
  unfold CompleteDeliveryPublication. destruct revalidate, apply; try by intros [= _ <-].
  rewrite M_bind_run. cbn. destruct (validatePublicationAuthority _ _ _) as [[[[keys proofs] digest] ttl]|];
    [|by intros [= _ <-]].
  rewrite M_bind_run. cbn. destruct (publicationReceiptTime _); [|by intros [= _ <-]]. apply transaction_err.
Qed.

Lemma Abandon_err st intent observe w e w' :
  AbandonDeliveryPublication st intent observe w = (Err e, w') → tables (db w') = tables (db w).
Proof.
  unfold AbandonDeliveryPublication. destruct observe; [|by intros [= _ <-]].
  rewrite M_bind_run. cbn. destruct (validatePublicationIntent _); [|by intros [= _ <-]].
  rewrite M_bind_run. cbn. destruct (validatePublicationScope _ _); [|by intros [= _ <-]]. apply transaction_err.
Qed.
End operations.
