(* ===== verification/PgControl.v ===== *)
(** * Package [internal/postgres]: runs and governed commands

    The PostgreSQL [control.Repository] ([store.go], [control.go]), statement
    by statement: one definition per operation, each a transaction over the
    canonical tables. Tenant and repository come from the store. *)

From S2P Require Import Prelude GoLib Fault Contracts Identity RunState.
From S2P Require Import ControlMemory Postgres Leases PgTables PgEvents.

(** ** Queries over sprints and decisions *)

(** [ORDER BY d.created_at, d.decision_id]; the table admits identifiers of one shape only,
    which collations compare byte by byte. *)
Definition created_le (a b : DecisionID * DecisionRow) : Prop :=
  (instant (de_created a.2) < instant (de_created b.2))%Z ∨
  instant (de_created a.2) = instant (de_created b.2) ∧ String.le a.1 b.1.
#[export] Instance created_le_dec : RelDecision created_le.
Proof. intros a b. unfold created_le. apply _. Defined.

Section queries.
Context `{Json}.

Definition pending_rows (sc : Scope) (u : string) (ds : gmap DecisionID DecisionRow)
    : gmap DecisionID DecisionRow :=
  filter (λ kd, de_scope kd.2 = sc ∧ de_sprint kd.2 = u ∧ de_status kd.2 = "pending") ds.

(** The [LIMIT 1] subquery for the pending decision of a sprint. *)
Definition pending_of (sc : Scope) (u : string) (ds : gmap DecisionID DecisionRow)
    : option DecisionID :=
  fst <$> head (map_to_list (pending_rows sc u ds)).

(** The same with [ORDER BY d.created_at, d.decision_id]. *)
Definition first_pending_of (sc : Scope) (u : string) (ds : gmap DecisionID DecisionRow)
    : option DecisionID :=
  fst <$> head (merge_sort created_le (map_to_list (pending_rows sc u ds))).

Definition sprint_of_run (sc : Scope) (id : RunID) (c : Canonical) : option (string * SprintRow) :=
  head (map_to_list (filter (λ ks, sp_scope ks.2 = sc ∧ sp_run ks.2 = id) (sprints c))).

(** [COALESCE(MAX(sequence_number), 0) + 1] over the sprints of the store. *)
Definition next_sequence (sc : Scope) (c : Canonical) : Z :=
  (foldr Z.max 0 (sp_sequence ∘ snd <$>
    map_to_list (filter (λ ks, sp_scope ks.2 = sc) (sprints c))) + 1)%Z.
End queries.

Definition resumeTarget (run : Run) : result State :=
  if bool_decide (r_State run = StateFailedRetryable) then Ok StateQueued
  else if bool_decide (r_State run = StateAwaitingDecision) then Ok StateQueued
  else Err (fault CodeConflict "postgres.resumeTarget"
              "only failed_retryable or awaiting_decision runs can resume").

(** [updated.UpdatedAt = postgresTimestamp(updated.UpdatedAt)]. *)
Definition stamped (run : Run) : Run :=
  mkRun (r_RunID run) (r_SchemaVersion run) (r_Objective run) (r_State run) (r_Version run)
    (r_CreatedAt run) (postgresTimestamp (r_UpdatedAt run)).

(** [sprint] with another status, the next version and the time of the change. *)
Definition restated (sprint : Sprint) (status : string) (pending : option string) (now : Time)
    : Sprint :=
  mkSprint (s_SprintID sprint) (s_SchemaVersion sprint) (s_SequenceNumber sprint)
    (s_Title sprint) (s_Objective sprint) status (incr (s_Version sprint)) (s_RunID sprint)
    pending (s_CreatedAt sprint) now.

(** The rows the [UPDATE] statements leave. *)
Definition moved_run (row : RunRow) (updated : Run) : RunRow :=
  mkRunRow (run_scope row) (run_sprint row) (run_objective row) (r_State updated)
    (r_Version updated) (run_created row) (r_UpdatedAt updated).
Definition moved_sprint (row : SprintRow) (status : string) (version : Z) (updated : Time)
    : SprintRow :=
  mkSprintRow (sp_scope row) (sp_sequence row) (sp_title row) (sp_objective row) status version
    (sp_run row) (sp_created row) updated.
Definition moved_decision (row : DecisionRow) (status : string) (version : Z)
    (actor reason : string) (now : Time) : DecisionRow :=
  mkDecisionRow (de_scope row) (de_sprint row) (de_run row) (de_action row) (de_risk row) status
    version (de_requested row) (Some actor) (Some reason) (de_created row) now (Some now).

Section control.
Context `{Clock, Database, Sha256, Json, !Jsonb, Entropy, Sequences, UuidText}.
Context `{!JsonCodec Run, !JsonCodec Sprint, !JsonCodec Decision, !JsonCodec AuditRecord,
          !JsonCodec PlanResult, !JsonCodec SubmissionResult, !JsonCodec DecisionResult}.

Abbreviation Tx := (M error (DB Forja)).

(** ** Statements *)

Definition uuid_cast (op text : string) : Tx string :=
  match uuid_in text with
  | Some u => mret u
  | None => throw (databaseError op (PgError "22P02"))
  end.

Definition one_row (affected : Z) (op msg : string) : Tx unit :=
  if negb (affected =? 1)%Z then throw (fault CodeConflict op msg) else mret tt.

(** Inserts check the constraints of the table, then write the row. *)
Definition insert_run (op : string) (id : RunID) (row : RunRow) : Tx unit :=
  bad ← select (λ t, run_insert_fault id row (canonical t));
  _ ← checked op bad;
  write (set_runs <[id := row]>).

Definition insert_sprint (op u : string) (row : SprintRow) : Tx unit :=
  bad ← select (λ t, sprint_insert_fault u row (canonical t));
  _ ← checked op bad;
  write (set_sprints <[u := row]>).

Definition insert_decision (op : string) (id : DecisionID) (row : DecisionRow) : Tx unit :=
  bad ← select (λ t, decision_insert_fault id row (canonical t));
  _ ← checked op bad;
  write (set_decisions <[id := row]>).

(** [UPDATE forja.runs SET state, version, updated_at WHERE ... AND version=$7];
    the number of rows. *)
Definition update_run (st : PgStore) (op : string) (updated : Run) (expected : Z) : Tx Z :=
  let id := r_RunID updated in
  _ ← statement op (own st [r_State updated; id]);
  _ ← checked op (first_fault [int4_fault (r_Version updated); int4_fault expected]);
  found ← select (λ t, in_scope run_scope (store_scope st) (runs (canonical t) !! id));
  match found with
  | Some row =>
      if (run_version row =? expected)%Z then
        let row' := moved_run row updated in
        _ ← checked op (violated CheckViolation (run_check id row'));
        _ ← write (set_runs <[id := row']>);
        mret 1%Z
      else mret 0%Z
  | None => mret 0%Z
  end.

Definition update_sprint (st : PgStore) (op uuid : string) (status : string) (version : Z)
    (updated : Time) (expected : Z) : Tx Z :=
  _ ← statement op (own st [status; uuid]);
  _ ← checked op (first_fault [int4_fault version; int4_fault expected]);
  u ← uuid_cast op uuid;
  found ← select (λ t, in_scope sp_scope (store_scope st) (sprints (canonical t) !! u));
  match found with
  | Some row =>
      if (sp_version row =? expected)%Z then
        let row' := moved_sprint row status version updated in
        _ ← checked op (violated CheckViolation (sprint_check row'));
        _ ← write (set_sprints <[u := row']>);
        mret 1%Z
      else mret 0%Z
  | None => mret 0%Z
  end.

Definition update_decision (st : PgStore) (op : string) (decision : Decision) (actor reason : string)
    (now : Time) (expected : Z) : Tx Z :=
  let id := d_DecisionID decision in
  _ ← statement op (own st [d_Status decision; actor; reason; id]);
  _ ← checked op (first_fault [int4_fault (d_Version decision); int4_fault expected]);
  found ← select (λ t, in_scope de_scope (store_scope st) (decisions (canonical t) !! id));
  match found with
  | Some row =>
      if (de_version row =? expected)%Z then
        let row' := moved_decision row (d_Status decision) (d_Version decision) actor reason now in
        _ ← checked op (violated CheckViolation (decision_check id row'));
        _ ← write (set_decisions <[id := row']>);
        mret 1%Z
      else mret 0%Z
  | None => mret 0%Z
  end.

(** ** The frame of a command

    Begin, lock the idempotency key, look for a receipt. A replay is answered
    from it, with an audit event where the command is audited; otherwise the
    body runs and its response is audited, stored and committed. [deferred]
    are the constraints checked at commit. *)
Definition commandTx {A} (st : PgStore) (op scope : string) (metadata : CommandMetadata)
    (audited : bool) (load : Tx (option A)) (save : A → Tx unit)
    (deferred : A → Canonical → option pgfault) (body : Tx (Time * A)) : Tx A :=
  atomically (
    _ ← statement (op +:+ ".begin") [];
    _ ← lockIdempotency;
    replay ← load;
    match replay with
    | Some response =>
        if audited then
          now ← storeNow;
          _ ← appendSuccessToolAudit st metadata scope (postgresTimestamp now) true;
          _ ← statement (op +:+ ".commitReplayAudit") [];
          mret response
        else mret response
    | None =>
        done ← body;
        _ ← (if audited then appendSuccessToolAudit st metadata scope done.1 false else mret tt);
        _ ← save done.2;
        _ ← statement (op +:+ ".commit") [];
        bad ← select (λ t, deferred done.2 (canonical t));
        _ ← checked (op +:+ ".commit") bad;
        mret done.2
    end).

Definition no_deferred {A} (response : A) (c : Canonical) : option pgfault := None.

(** ** Runs *)

Definition createBody (st : PgStore) (id : RunID) (objective : string)
    (metadata : CommandMetadata) : Tx (Time * Run) :=
  now0 ← storeNow;
  let now := postgresTimestamp now0 in
  let run := mkRun id "1.0" objective StateDraft 1 now now in
  _ ← statement "postgres.CreateRun.insert"
        (own st [r_RunID run; r_Objective run; r_State run]);
  _ ← insert_run "postgres.CreateRun.insert" (r_RunID run)
        (mkRunRow (store_scope st) None (r_Objective run) (r_State run) (r_Version run)
           (r_CreatedAt run) (r_UpdatedAt run));
  _ ← appendRunEvent st "run.created" run metadata;
  mret (now, run).

Definition CreateRun (st : PgStore) (id : RunID) (objective : string)
    (metadata : CommandMetadata) : Tx Run :=
  _ ← lift (validateObjective objective);
  _ ← lift (ValidateCommandMetadata metadata);
  let scope := "create_run:" +:+ repositoryID st in
  let hash := hashCommand metadata ["create_run"; repositoryID st; objective] in
  let key := IdempotencyKey metadata in
  commandTx st "postgres.CreateRun" scope metadata false
    (loadRunReplay st scope key hash) (saveRunReplay st scope key hash 201) no_deferred
    (createBody st id objective metadata).

Definition GetRun (st : PgStore) (id : RunID) : Tx Run :=
  found ← select_run st "postgres.GetRun" id;
  match found with
  | Some run => mret run
  | None => throw (New CodeNotFound "postgres.GetRun" (Sprintf "run %s was not found" [id]))
  end.

(** The sprint of a run with its pending decision, as [TransitionRun] reads it. *)
Definition select_linked (st : PgStore) (op : string) (id : RunID) : Tx (option Sprint) :=
  _ ← statement op (own st [id]);
  select (λ t, match sprint_of_run (store_scope st) id (canonical t) with
               | Some (u, row) =>
                   Some (scanSprint u row (pending_of (store_scope st) u (decisions (canonical t))))
               | None => None
               end).

(** An error kept as a value. *)
Definition caught {A} (m : Tx A) : Tx (result A) := λ s, let '(r, s') := m s in (Ok r, s').

(** A statement after a failed one: the transaction is aborted. *)
Definition unless_aborted {A B} (op : string) (earlier : result A) (m : Tx B) : Tx B :=
  match earlier with
  | Ok _ => m
  | Err _ => _ ← statement op []; throw (databaseError op (PgError "25P02"))
  end.

(** The [switch] of [TransitionRun]: the sprint to cancel with the run. *)
Definition gateSprint (sprint : result (option Sprint)) (target : State)
    : result (option Sprint) :=
  match sprint with
  | Ok None => Ok None
  | Err e => Err e
  | Ok (Some sprint) =>
      if bool_decide (s_Status sprint = SprintAwaitingApproval) ||
         bool_decide (is_Some (s_PendingDecisionID sprint))
      then Err (fault CodeConflict "postgres.TransitionRun"
                  "resolve the pending decision before transitioning its run")
      else if bool_decide (s_Status sprint = SprintProposed) &&
              negb (bool_decide (target = StateCancelling))
      then Err (fault CodeConflict "postgres.TransitionRun"
                  "submit the proposed Sprint before transitioning its run")
      else if bool_decide (target = StateCancelling) then Ok (Some sprint)
      else Ok None
  end.

Definition cancelSprint (st : PgStore) (cancelling : option Sprint) (now : Time)
    (metadata : CommandMetadata) : Tx unit :=
  match cancelling with
  | Some sprint =>
      if bool_decide (s_Status sprint = SprintProposed) ||
         bool_decide (s_Status sprint = SprintApproved)
      then
        let previousVersion := s_Version sprint in
        let sprint := restated sprint SprintCancelling (s_PendingDecisionID sprint) now in
        affected ← update_sprint st "postgres.TransitionRun.updateSprint"
          (TrimPrefix (s_SprintID sprint) "sprint_") (s_Status sprint) (s_Version sprint)
          (s_UpdatedAt sprint) previousVersion;
        _ ← one_row affected "postgres.TransitionRun.updateSprint"
              "sprint version changed concurrently";
        appendControlEvent st "sprint" (s_SprintID sprint) (s_Version sprint)
          "sprint.cancellation_requested" (s_UpdatedAt sprint) sprint metadata
      else mret tt
  | None => mret tt
  end.

Definition transitionBody (st : PgStore) (id : RunID) (expectedVersion : Z) (target : State)
    (metadata : CommandMetadata) : Tx (Time * Run) :=
  sprint ← caught (select_linked st "postgres.TransitionRun.selectSprint" id);
  found ← unless_aborted "postgres.TransitionRun.select" sprint
            (select_run st "postgres.TransitionRun.select" id);
  match found with
  | None => throw (New CodeNotFound "postgres.TransitionRun"
                     (Sprintf "run %s was not found" [id]))
  | Some run =>
      if negb (r_Version run =? expectedVersion)%Z
      then throw (New CodeConflict "postgres.TransitionRun"
             (Sprintf "run %s version mismatch: expected %d, current %d"
                [id; pretty expectedVersion; pretty (r_Version run)]))
      else if isPrivilegedResumeTransition (r_State run) target
      then throw (fault CodePermissionDenied "postgres.TransitionRun"
             "resume transitions require the governed ResumeRun command")
      else
        cancelling ← lift (gateSprint sprint target);
        _ ← requireRunPublicationTransition st id target "postgres.TransitionRun";
        moved ← clocked (Transition run target);
        let updated := stamped moved in
        affected ← update_run st "postgres.TransitionRun.update" updated expectedVersion;
        _ ← one_row affected "postgres.TransitionRun" "run version changed concurrently";
        _ ← cancelSprint st cancelling (r_UpdatedAt updated) metadata;
        _ ← appendRunEvent st "run.transitioned" updated metadata;
        mret (r_UpdatedAt updated, updated)
  end.

Definition TransitionRun (st : PgStore) (id : RunID) (expectedVersion : Z) (target : State)
    (metadata : CommandMetadata) : Tx Run :=
  _ ← lift (fail_if (expectedVersion <? 1)%Z
        (fault CodeInvalidArgument "postgres.TransitionRun"
           "expected version must be at least 1"));
  _ ← lift (ValidateCommandMetadata metadata);
  let hash := hashCommand metadata ["transition_run"; id; pretty expectedVersion; target] in
  let scope := "transition_run:" +:+ repositoryID st +:+ ":" +:+ id in
  let key := IdempotencyKey metadata in
  commandTx st "postgres.TransitionRun" scope metadata true
    (loadRunReplay st scope key hash) (saveRunReplay st scope key hash 200) no_deferred
    (transitionBody st id expectedVersion target metadata).

Definition resumeBody (st : PgStore) (id : RunID) (expectedVersion : Z)
    (metadata : CommandMetadata) : Tx (Time * Run) :=
  found ← select_run st "postgres.ResumeRun.select" id;
  match found with
  | None => throw (New CodeNotFound "postgres.ResumeRun" (Sprintf "run %s was not found" [id]))
  | Some run =>
      if negb (r_Version run =? expectedVersion)%Z
      then throw (New CodeConflict "postgres.ResumeRun"
             (Sprintf "run %s version mismatch: expected %d, current %d"
                [id; pretty expectedVersion; pretty (r_Version run)]))
      else
        _ ← statement "postgres.ResumeRun.pendingDecision" (own st [id]);
        pending ← select (λ t, bool_decide (map_Exists (λ _ d,
          de_scope d = store_scope st ∧ de_run d = id ∧ de_status d = "pending")
          (decisions (canonical t))));
        if pending : bool
        then throw (fault CodeConflict "postgres.ResumeRun"
               "resolve the pending decision before resuming its run")
        else
          target ← lift (resumeTarget run);
          _ ← requireRunPublicationTransition st id target "postgres.ResumeRun";
          moved ← clocked (Transition run target);
          let updated := stamped moved in
          affected ← update_run st "postgres.ResumeRun.update" updated expectedVersion;
          _ ← one_row affected "postgres.ResumeRun" "run version changed concurrently";
          _ ← appendRunEvent st "run.transitioned" updated metadata;
          mret (r_UpdatedAt updated, updated)
  end.

Definition ResumeRun (st : PgStore) (id : RunID) (expectedVersion : Z)
    (metadata : CommandMetadata) : Tx Run :=
  _ ← lift (fail_if (expectedVersion <? 1)%Z
        (fault CodeInvalidArgument "postgres.ResumeRun" "expected version must be at least 1"));
  _ ← lift (ValidateCommandMetadata metadata);
  let hash := hashCommand metadata ["resume_run"; id; pretty expectedVersion] in
  let scope := "resume_run:" +:+ repositoryID st +:+ ":" +:+ id in
  let key := IdempotencyKey metadata in
  commandTx st "postgres.ResumeRun" scope metadata true
    (loadRunReplay st scope key hash) (saveRunReplay st scope key hash 200) no_deferred
    (resumeBody st id expectedVersion metadata).

(** ** Sprints and decisions *)

Definition StoreAuthority (st : PgStore) : Authority :=
  mkAuthority (tenantID st) (repositoryID st).

Definition GetDecision (st : PgStore) (decisionID : string) : Tx (option Decision) :=
  _ ← statement "postgres.GetDecision" (own st [decisionID]);
  row ← select (λ t, in_scope de_scope (store_scope st) (decisions (canonical t) !! decisionID));
  mret (scanDecision decisionID <$> row).

Definition GetSprint (st : PgStore) (id : SprintID) : Tx Sprint :=
  _ ← statement "postgres.GetSprint" (own st [UUID id]);
  u ← uuid_cast "postgres.GetSprint" (UUID id);
  found ← select (λ t, in_scope sp_scope (store_scope st) (sprints (canonical t) !! u));
  pending ← select (λ t, first_pending_of (store_scope st) u (decisions (canonical t)));
  match found with
  | Some row => mret (scanSprint u row pending)
  | None => throw (New CodeNotFound "postgres.GetSprint"
                     (Sprintf "sprint %s was not found" [id]))
  end.

Definition planBody (st : PgStore) (command : PlanCommand) (metadata : CommandMetadata)
    : Tx (Time * PlanResult) :=
  let sc := store_scope st in
  _ ← statement "postgres.PlanSprint.lockSequence" [];
  _ ← statement "postgres.PlanSprint.sequence" (own st []);
  sequence ← select (λ t, next_sequence sc (canonical t));
  _ ← checked "postgres.PlanSprint.sequence" (violated "22003" (2 ^ 31 - 1 <? sequence)%Z);
  now0 ← storeNow;
  let now := postgresTimestamp now0 in
  _ ← statement "postgres.PlanSprint.insertSprint"
        (own st [UUID (pc_SprintID command); pc_Title command; pc_Objective command;
                 SprintProposed; pc_RunID command]);
  u ← uuid_cast "postgres.PlanSprint.insertSprint" (UUID (pc_SprintID command));
  _ ← insert_sprint "postgres.PlanSprint.insertSprint" u
        (mkSprintRow sc sequence (pc_Title command) (pc_Objective command) SprintProposed 1
           (pc_RunID command) now now);
  let run := mkRun (pc_RunID command) "1.0" (pc_Objective command) StateDraft 1 now now in
  _ ← statement "postgres.PlanSprint.insertRun"
        (own st [r_RunID run; UUID (pc_SprintID command); r_Objective run; r_State run]);
  u' ← uuid_cast "postgres.PlanSprint.insertRun" (UUID (pc_SprintID command));
  _ ← insert_run "postgres.PlanSprint.insertRun" (r_RunID run)
        (mkRunRow sc (Some u') (r_Objective run) (r_State run) 1 now now);
  let sprint := mkSprint (pc_SprintID command) "1.0" sequence (pc_Title command)
    (pc_Objective command) SprintProposed 1 (r_RunID run) None now now in
  _ ← appendControlEvent st "sprint" (s_SprintID sprint) (s_Version sprint) "sprint.planned" now
        sprint metadata;
  _ ← appendRunEvent st "run.created" run metadata;
  mret (now, mkPlanResult sprint run).

(** The reference of the new sprint to its run, checked at commit. *)
Definition plan_deferred (st : PgStore) (result : PlanResult) (c : Canonical) : option pgfault :=
  violated ForeignKeyViolation
    (negb (match runs c !! s_RunID (pr_Sprint result) with
           | Some r => bool_decide (run_scope r = store_scope st)
           | None => false
           end)).

Definition PlanSprint (st : PgStore) (cmd : PlanCommand) (metadata : CommandMetadata)
    : Tx PlanResult :=
  _ ← lift (ValidateCommandMetadata metadata);
  let scope := "plan_sprint:" +:+ repositoryID st in
  let hash := hashCommand metadata ["plan_sprint"; repositoryID st; pc_Title cmd; pc_Objective cmd] in
  let key := IdempotencyKey metadata in
  commandTx st "postgres.PlanSprint" scope metadata true
    (loadControlReplay st scope key hash) (saveControlReplay st scope key hash 201)
    (plan_deferred st) (planBody st cmd metadata).

Definition submitBody (st : PgStore) (command : SubmitCommand) (metadata : CommandMetadata)
    : Tx (Time * SubmissionResult) :=
  let uuid := UUID (sc_SprintID command) in
  _ ← statement "postgres.SubmitSprint.selectSprint" (own st [uuid]);
  u ← uuid_cast "postgres.SubmitSprint.selectSprint" uuid;
  found ← select (λ t, in_scope sp_scope (store_scope st) (sprints (canonical t) !! u));
  match scanSprint u <$> found with
  | None => throw (fault CodeNotFound "postgres.SubmitSprint" "sprint was not found")
  | Some sprint_of =>
      let sprint := sprint_of None in
      if negb (s_Version sprint =? sc_ExpectedVersion command)%Z ||
         negb (bool_decide (s_Status sprint = SprintProposed))
      then throw (fault CodeConflict "postgres.SubmitSprint"
                    "sprint is not a matching proposed version")
      else
        stored ← select_run st "postgres.SubmitSprint.selectRun" (s_RunID sprint);
        match stored with
        | None => throw (databaseError "postgres.SubmitSprint.selectRun"
                           (DriverError "no rows in result set"))
        | Some run =>
            moved ← clocked (Transition run StateAwaitingApproval);
            let updatedRun := stamped moved in
            let decisionID := sc_DecisionID command in
            let sprint := restated sprint SprintAwaitingApproval (Some decisionID)
              (r_UpdatedAt updatedRun) in
            let decision := mkDecision decisionID "1.0" (s_SprintID sprint) (s_RunID sprint)
              DecisionActionSubmitSprint (sc_RiskClass command) DecisionPending 1
              (ActorID metadata) None None (s_UpdatedAt sprint) (s_UpdatedAt sprint) None in
            affected ← update_sprint st "postgres.SubmitSprint.updateSprint" uuid
              (s_Status sprint) (s_Version sprint) (s_UpdatedAt sprint)
              (sc_ExpectedVersion command);
            _ ← one_row affected "postgres.SubmitSprint.updateSprint"
                  "sprint version changed concurrently";
            affected ← update_run st "postgres.SubmitSprint.updateRun" updatedRun (r_Version run);
            _ ← one_row affected "postgres.SubmitSprint.updateRun"
                  "run version changed concurrently";
            _ ← statement "postgres.SubmitSprint.insertDecision"
                  (own st [d_DecisionID decision; uuid; d_RunID decision; d_Action decision;
                           d_RiskClass decision; d_Status decision; d_RequestedBy decision]);
            u' ← uuid_cast "postgres.SubmitSprint.insertDecision" uuid;
            _ ← insert_decision "postgres.SubmitSprint.insertDecision" (d_DecisionID decision)
                  (mkDecisionRow (store_scope st) u' (d_RunID decision) (d_Action decision)
                     (d_RiskClass decision) (d_Status decision) 1 (d_RequestedBy decision)
                     None None (d_CreatedAt decision) (d_CreatedAt decision) None);
            _ ← appendControlEvent st "sprint" (s_SprintID sprint) (s_Version sprint)
                  "sprint.submitted" (s_UpdatedAt sprint) sprint metadata;
            _ ← appendRunEvent st "run.transitioned" updatedRun metadata;
            _ ← appendControlEvent st "decision" (d_DecisionID decision) (d_Version decision)
                  "decision.requested" (d_UpdatedAt decision) decision metadata;
            mret (s_UpdatedAt sprint, mkSubmissionResult sprint decision updatedRun)
        end
  end.

Definition SubmitSprint (st : PgStore) (cmd : SubmitCommand) (metadata : CommandMetadata)
    : Tx SubmissionResult :=
  _ ← lift (ValidateCommandMetadata metadata);
  let scope := "submit_sprint:" +:+ repositoryID st +:+ ":" +:+ sc_SprintID cmd in
  let hash := hashCommand metadata ["submit_sprint"; sc_SprintID cmd;
                pretty (sc_ExpectedVersion cmd); sc_RiskClass cmd] in
  let key := IdempotencyKey metadata in
  commandTx st "postgres.SubmitSprint" scope metadata true
    (loadControlReplay st scope key hash) (saveControlReplay st scope key hash 200)
    no_deferred (submitBody st cmd metadata).

(** The sprint joined with the decision, as [ResolveDecision] locks it. *)
Definition select_decided_sprint (st : PgStore) (op uuid : string) (decisionID : DecisionID)
    : Tx (option Sprint) :=
  _ ← statement op (own st [uuid; decisionID]);
  u ← uuid_cast op uuid;
  select (λ t,
    match in_scope sp_scope (store_scope st) (sprints (canonical t) !! u),
          in_scope de_scope (store_scope st) (decisions (canonical t) !! decisionID) with
    | Some row, Some d =>
        if bool_decide (de_sprint d = u) then Some (scanSprint u row (Some decisionID)) else None
    | _, _ => None
    end).

(** [decision] resolved by [actor]. *)
Definition resolved (decision : Decision) (status actor reason : string) (now : Time) : Decision :=
  mkDecision (d_DecisionID decision) (d_SchemaVersion decision) (d_SprintID decision)
    (d_RunID decision) (d_Action decision) (d_RiskClass decision) status
    (incr (d_Version decision)) (d_RequestedBy decision) (Some actor) (Some reason)
    (d_CreatedAt decision) now (Some now).

Definition resolveBody (st : PgStore) (command : DecideCommand) (metadata : CommandMetadata)
    : Tx (Time * DecisionResult) :=
  _ ← statement "postgres.ResolveDecision.selectDecision" (own st [dc_DecisionID command]);
  found ← select (λ t, in_scope de_scope (store_scope st)
                         (decisions (canonical t) !! dc_DecisionID command));
  match scanDecision (dc_DecisionID command) <$> found with
  | None => throw (fault CodeNotFound "postgres.ResolveDecision" "decision was not found")
  | Some decision =>
      if negb (d_Version decision =? dc_ExpectedVersion command)%Z ||
         negb (bool_decide (d_Status decision = DecisionPending))
      then throw (fault CodeConflict "postgres.ResolveDecision"
                    "decision is not a matching pending version")
      else
        sprintID ← wrapping CodeInternal "postgres.ResolveDecision"
                     "stored Sprint ID violates the public contract"
                     (lift (ParseSprintID (d_SprintID decision)));
        joined ← select_decided_sprint st "postgres.ResolveDecision.selectSprint" (UUID sprintID)
                   (d_DecisionID decision);
        match joined with
        | None => throw (databaseError "postgres.ResolveDecision.selectSprint"
                           (DriverError "no rows in result set"))
        | Some sprint =>
            stored ← select_run st "postgres.ResolveDecision.selectRun" (d_RunID decision);
            match stored with
            | None => throw (databaseError "postgres.ResolveDecision.selectRun"
                               (DriverError "no rows in result set"))
            | Some run =>
                let target := if dc_Approve command then StateQueued else StateCancelling in
                let decisionStatus :=
                  if dc_Approve command then DecisionApproved else DecisionRejected in
                let sprintStatus :=
                  if dc_Approve command then SprintApproved else SprintRejected in
                let eventType :=
                  if dc_Approve command then "decision.approved" else "decision.rejected" in
                moved ← clocked (Transition run target);
                let updatedRun := stamped moved in
                let now := r_UpdatedAt updatedRun in
                let decision' := resolved decision decisionStatus (ActorID metadata)
                  (dc_Reason command) now in
                let sprint' := restated sprint sprintStatus None now in
                affected ← update_decision st "postgres.ResolveDecision.updateDecision" decision'
                  (ActorID metadata) (dc_Reason command) now (dc_ExpectedVersion command);
                _ ← one_row affected "postgres.ResolveDecision.updateDecision"
                      "decision version changed concurrently";
                affected ← update_sprint st "postgres.ResolveDecision.updateSprint" (UUID sprintID)
                  (s_Status sprint') (s_Version sprint') now (wrap64 (s_Version sprint' - 1));
                _ ← one_row affected "postgres.ResolveDecision.updateSprint"
                      "sprint version changed concurrently";
                affected ← update_run st "postgres.ResolveDecision.updateRun" updatedRun
                  (r_Version run);
                _ ← one_row affected "postgres.ResolveDecision.updateRun"
                      "run version changed concurrently";
                _ ← appendControlEvent st "decision" (d_DecisionID decision')
                      (d_Version decision') eventType now decision' metadata;
                _ ← appendControlEvent st "sprint" (s_SprintID sprint') (s_Version sprint')
                      "sprint.decision_resolved" now sprint' metadata;
                _ ← appendRunEvent st "run.transitioned" updatedRun metadata;
                mret (now, mkDecisionResult sprint' decision' updatedRun)
            end
        end
  end.

Definition ResolveDecision (st : PgStore) (cmd : DecideCommand) (metadata : CommandMetadata)
    : Tx DecisionResult :=
  _ ← lift (ValidateCommandMetadata metadata);
  let scope := "resolve_decision:" +:+ repositoryID st +:+ ":" +:+ dc_DecisionID cmd in
  let hash := hashCommand metadata ["resolve_decision"; dc_DecisionID cmd;
                pretty (dc_ExpectedVersion cmd); Sprint_bool (dc_Approve cmd); dc_Reason cmd] in
  let key := IdempotencyKey metadata in
  commandTx st "postgres.ResolveDecision" scope metadata true
    (loadControlReplay st scope key hash) (saveControlReplay st scope key hash 200)
    no_deferred (resolveBody st cmd metadata).

Definition RecordToolAudit (st : PgStore) (record : AuditRecord) : Tx unit :=
  atomically (
    _ ← statement "postgres.RecordToolAudit.begin" [];
    let metadata := mkMetadata (au_IdempotencyKey record) (au_ActorType record)
      (au_ActorID record) (au_CorrelationID record) (au_CausationID record) "" in
    _ ← lift (ValidateCommandMetadata metadata);
    _ ← appendToolAudit st record metadata;
    statement "postgres.RecordToolAudit.commit" []).
End control.
