(* ===== verification/PgEffects.v ===== *)
(** * The effects of the persistent commands

    For every command of [PgControl], what the tables are after it succeeded:
    which rows it wrote, which events it emitted and which receipt it left. All
    later properties of the repository are read off these effects. *)

From S2P Require Import Prelude GoLib Fault Contracts Identity RunState.
From S2P Require Import ControlMemory ControlRefinement Postgres Leases.
From S2P Require Import PgTables PgEvents PgLogic PgControl.

(** ** Emitted events *)

Record Emission `{Json} := mkEmission {
  em_aggregate_type : string;
  em_aggregate : string;
  em_version : Z;
  em_type : string;
  em_occurred : Time;
  em_payload : json;
}.

Section emissions.
Context `{Clock, Database, Json, !Jsonb, Entropy, Sequences}.

Definition event_row (st : PgStore) (md : CommandMetadata) (e : Emission) (eventID : string)
    : EventRow :=
  mkEventRow _ eventID (store_scope st) (em_aggregate_type e) (em_aggregate e) (em_version e)
    (em_type e) (em_occurred e) (ActorType md) (ActorID md) (CorrelationID md) (CausationID md)
    (IdempotencyKey md) (em_payload e).

(** [t'] is [t] after the events [es] were appended, each with its message. *)
Inductive grown (st : PgStore) (md : CommandMetadata) : list Emission → Forja → Forja → Prop :=
| grown_nil t : grown st md [] t t
| grown_cons e es eventID id available t t' :
    event_insert_fault (event_row st md e eventID) t = None →
    (outbox_last (stream t) < id ≤ int_max)%Z →
    grown st md es (with_stream (add_event (event_row st md e eventID) id available) t) t' →
    grown st md (e :: es) t t'.

Lemma grown_app st md es1 es2 t t1 t2 :
  grown st md es1 t t1 → grown st md es2 t1 t2 → grown st md (es1 ++ es2) t t2.
Proof. intros Hg1 Hg2. induction Hg1; [done|]. cbn. econstructor; eauto. Qed.

Lemma grown_canonical st md es t t' :
  grown st md es t t' → canonical t' = canonical t ∧ work t' = work t.
Proof. by induction 1. Qed.

(** The events that were appended, in order. *)
Lemma grown_events st md es t t' :
  grown st md es t t' → ∃ ids, length ids = length es ∧
    events (stream t') = events (stream t) ++ zip_with (event_row st md) es ids.
Proof.
  induction 1 as [t|e es eventID id available t t' _ _ _ (ids & Hlen & Hev)].
  - exists []. by rewrite app_nil_r.
  - exists (eventID :: ids). cbn in *. split; [lia|].
    by rewrite Hev, <-app_assoc.
Qed.

Lemma wp_newPrefixedID t prefix (Q : string → Forja → Prop) :
  (∀ id, Q id t) → wp t (newPrefixedID prefix) Q.
Proof.
  intros HQ. apply wp_intro. intros s a s' <-. unfold newPrefixedID. destruct (NewRunIDFrom _) as [[?|?] ?]; [|done].
  intros [= <- <-]. apply HQ.
Qed.

Lemma wp_wrapping {A} t code op msg (m : M error (DB Forja) A) Q :
  wp t m Q → wp t (wrapping code op msg m) Q.
Proof.
  intros Hm. apply wp_intro. intros s a s' <-. unfold wrapping. destruct (m s) as [[b|e] s1] eqn:Hrun; [|done].
  intros [= <- <-]. by eapply wp_run.
Qed.

Lemma wp_next_outbox_id t op Q :
  (∀ id, (outbox_last (stream t) < id ≤ int_max)%Z → Q id t) → wp t (next_outbox_id op) Q.
Proof.
  intros HQ. apply wp_intro. intros s a s' <-. unfold next_outbox_id. destruct (_ <? _)%Z eqn:Hlt; [done|].
  intros [= <- <-]. apply HQ. bool_prop. lia.
Qed.

Lemma wp_encode {A} `{!JsonCodec A} t op msg (a : A) Q :
  (∀ data, Marshal a = Ok data → Q data t) → wp t (encode op msg a) Q.
Proof.
  intros HQ. unfold encode. destruct (Marshal a); [apply wp_ret; by apply HQ|apply wp_throw].
Qed.

Lemma wp_appendEvent st md t ty agg v et occ payload Q :
  (∀ t', grown st md [mkEmission _ ty agg v et occ payload] t t' → Q tt t') →
  wp t (appendEvent st ty agg v et occ payload md) Q.
Proof.
  intros HQ. unfold appendEvent, insert_event. wp_seq.
  apply wp_wrapping, wp_newPrefixedID. intros eventID. wp_seq.
  apply wp_next_outbox_id. intros id Hid. wp_seq. cbn. wp_seq. apply HQ.
  eapply grown_cons; [|done|constructor]. done.
Qed.

Lemma wp_appendRunEvent `{!JsonCodec Run} st md t et run Q :
  (∀ payload t', Marshal run = Ok payload →
     grown st md [mkEmission _ "run" (r_RunID run) (r_Version run) et (r_UpdatedAt run) payload]
       t t' → Q tt t') →
  wp t (appendRunEvent st et run md) Q.
Proof.
  intros HQ. unfold appendRunEvent. apply wp_bind, wp_encode. intros data Hdata.
  apply wp_appendEvent. eauto.
Qed.

Lemma wp_appendControlEvent {A} `{!JsonCodec A} st md t ty agg v et occ (a : A) Q :
  (∀ payload t', Marshal a = Ok payload →
     grown st md [mkEmission _ ty agg v et occ payload] t t' → Q tt t') →
  wp t (appendControlEvent st ty agg v et occ a md) Q.
Proof.
  intros HQ. unfold appendControlEvent. apply wp_bind, wp_encode. intros data Hdata.
  apply wp_appendEvent. eauto.
Qed.

(** An audit is an event of its own aggregate. *)
Definition audits (es : list Emission) : Prop := Forall (λ e, em_aggregate_type e = "audit") es.

Lemma wp_appendToolAudit `{!JsonCodec AuditRecord} st md t record Q :
  (∀ es t', audits es → length es = 1 → grown st md es t t' → Q tt t') →
  wp t (appendToolAudit st record md) Q.
Proof.
  intros HQ. unfold appendToolAudit. case_match; [apply wp_throw|]. apply wp_bind.
  assert (∀ (m : M error (DB Forja) Time) R, reader m → (∀ a, R a t) → wp t m R) as Hrd
    by (intros; by apply wp_reader).
  apply Hrd; [case_match; [apply reader_clock|apply reader_ret]|]. intros occ. cbn beta zeta.
  apply wp_bind, wp_encode. intros data _. apply wp_bind, wp_wrapping, wp_newPrefixedID.
  intros id. apply wp_appendEvent. intros t' Hg. eapply HQ; [| |exact Hg]; [|done].
  by constructor.
Qed.

Lemma wp_appendSuccessToolAudit `{!JsonCodec AuditRecord} st md t scope occ replay Q :
  (∀ es t', audits es → grown st md es t t' →
     length es = (if bool_decide (AuditToolName md = "") then 0 else 1) → Q tt t') →
  wp t (appendSuccessToolAudit st md scope occ replay) Q.
Proof.
  intros HQ. unfold appendSuccessToolAudit. case_bool_decide.
  - apply wp_ret, (HQ []); [constructor|constructor|done].
  - apply wp_appendToolAudit. eauto.
Qed.

(** ** Clock, reads, fences *)

Lemma wp_clocked_Transition t run target Q :
  (∀ n, CanTransition (r_State run) target = true →
     Q (advance run target (clock_reading n)) t) →
  wp t (clocked (Transition run target)) Q.
Proof.
  intros HQ. apply wp_intro. intros s a s' <-. unfold clocked. rewrite Transition_run.
  destruct (ParseState _) as [c|] eqn:Hp; [|done]. apply ParseState_ok in Hp as [-> _].
  destruct (CanTransition _ _) eqn:Hct; [|done]. intros [= <- <-]. by apply HQ.
Qed.

Lemma wp_lockIdempotency t Q : Q tt t → wp t lockIdempotency Q.
Proof. intros HQ. unfold lockIdempotency. by wp_seq. Qed.

Lemma in_scope_Some {A} (f : A → Scope) sc o row :
  in_scope f sc o = Some row ↔ o = Some row ∧ f row = sc.
Proof. unfold in_scope. destruct o; [|naive_solver]. case_bool_decide; naive_solver. Qed.

Lemma wp_select_run st op id t Q :
  (∀ row, runs (canonical t) !! id = Some row → run_scope row = store_scope st →
     Q (Some (scanRun id row)) t) →
  (in_scope run_scope (store_scope st) (runs (canonical t) !! id) = None → Q None t) →
  wp t (select_run st op id) Q.
Proof.
  intros HS HN. unfold select_run. wp_seq.
  destruct (in_scope _ _ _) as [row|] eqn:Hrow; [|by apply HN].
  apply in_scope_Some in Hrow as []. by apply HS.
Qed.

Lemma reader_requireRunPublicationTransition st id target op :
  reader (requireRunPublicationTransition st id target op).
Proof. unfold requireRunPublicationTransition. reading. Qed.
End emissions.

#[export] Hint Resolve reader_requireRunPublicationTransition : forja_parts.

Lemma first_fault_None l : first_fault l = None ↔ Forall (λ o, o = None) l.
Proof.
  unfold first_fault. induction l as [|[f|] l IH]; cbn.
  - split; [constructor|done].
  - split; [done|]. by intros [? _]%Forall_cons.
  - rewrite Forall_cons, IH. tauto.
Qed.

Lemma violated_None code b : violated code b = None ↔ b = false.
Proof. by destruct b. Qed.

Lemma int4_fault_None z : int4_fault z = None ↔ (- 2 ^ 31 ≤ z ≤ 2 ^ 31 - 1)%Z.
Proof.
  unfold int4_fault. destruct (_ || _) eqn:Hb; bool_prop.
  - split; [done|lia].
  - split; [lia|done].
Qed.

(** Turns satisfied constraints into facts. *)
Ltac constraints :=
  repeat match goal with
  | H : first_fault _ = None |- _ => rewrite first_fault_None in H
  | H : Forall _ (_ :: _) |- _ => apply Forall_cons in H as [? H]
  | H : Forall _ [] |- _ => clear H
  | H : violated _ _ = None |- _ => rewrite violated_None in H
  | H : int4_fault _ = None |- _ => rewrite int4_fault_None in H
  end.

Section statements.
Context `{Clock, Database, Sha256, Json, !Jsonb, Entropy, Sequences, UuidText}.
Context `{!JsonCodec Run, !JsonCodec Sprint, !JsonCodec Decision, !JsonCodec AuditRecord,
          !JsonCodec PlanResult, !JsonCodec SubmissionResult, !JsonCodec DecisionResult}.
Abbreviation Tx := (M error (DB Forja)).

Lemma wp_uuid_cast t op text Q : (∀ u, uuid_in text = Some u → Q u t) → wp t (uuid_cast op text) Q.
Proof.
  intros HQ. unfold uuid_cast. destruct (uuid_in text); [wp_prim; by apply HQ|apply wp_throw].
Qed.

Lemma wp_one_row t affected op msg Q : (affected = 1%Z → Q tt t) → wp t (one_row affected op msg) Q.
Proof.
  intros HQ. unfold one_row. destruct (affected =? 1)%Z eqn:Ha; cbn; wp_seq. bool_prop.
  by apply HQ.
Qed.

(** An update that must change one row. *)
Lemma wp_update_run {B} st op updated expected op' msg t (k : Tx B) Q :
  (∀ row, runs (canonical t) !! r_RunID updated = Some row → run_scope row = store_scope st →
     run_version row = expected → run_check (r_RunID updated) (moved_run row updated) = false →
     (r_Version updated ≤ 2 ^ 31 - 1)%Z →
     wp (set_runs <[r_RunID updated := moved_run row updated]> t) k Q) →
  wp t (affected ← update_run st op updated expected; _ ← one_row affected op' msg; k) Q.
Proof.
  intros HQ. unfold update_run. wp_seq.
  destruct (in_scope _ _ _) as [row|] eqn:Hrow; [|by wp_seq; apply wp_one_row].
  apply in_scope_Some in Hrow as [Hrow Hsc]. destruct (_ =? _)%Z eqn:Hv; [|by wp_seq; apply wp_one_row].
  wp_seq. apply wp_one_row. intros _. constraints. bool_prop. apply HQ; [done..|lia].
Qed.

Lemma wp_update_sprint {B} st op uuid status version now expected op' msg t (k : Tx B) Q :
  (∀ u row, uuid_in uuid = Some u → sprints (canonical t) !! u = Some row →
     sp_scope row = store_scope st → sp_version row = expected →
     sprint_check (moved_sprint row status version now) = false → (version ≤ 2 ^ 31 - 1)%Z →
     wp (set_sprints <[u := moved_sprint row status version now]> t) k Q) →
  wp t (affected ← update_sprint st op uuid status version now expected;
        _ ← one_row affected op' msg; k) Q.
Proof.
  intros HQ. unfold update_sprint. wp_seq. apply wp_uuid_cast. intros u Hu. wp_seq.
  destruct (in_scope _ _ _) as [row|] eqn:Hrow; [|by wp_seq; apply wp_one_row].
  apply in_scope_Some in Hrow as [Hrow Hsc]. destruct (_ =? _)%Z eqn:Hv; [|by wp_seq; apply wp_one_row].
  wp_seq. apply wp_one_row. intros _. constraints. bool_prop. apply HQ; [done..|lia].
Qed.

Lemma wp_update_decision {B} st op d actor reason now expected op' msg t (k : Tx B) Q :
  (∀ row, decisions (canonical t) !! d_DecisionID d = Some row → de_scope row = store_scope st →
     de_version row = expected → (d_Version d ≤ 2 ^ 31 - 1)%Z →
     wp (set_decisions <[d_DecisionID d :=
           moved_decision row (d_Status d) (d_Version d) actor reason now]> t) k Q) →
  wp t (affected ← update_decision st op d actor reason now expected;
        _ ← one_row affected op' msg; k) Q.
Proof.
  intros HQ. unfold update_decision. wp_seq.
  destruct (in_scope _ _ _) as [row|] eqn:Hrow; [|by wp_seq; apply wp_one_row].
  apply in_scope_Some in Hrow as [Hrow Hsc]. destruct (_ =? _)%Z eqn:Hv; [|by wp_seq; apply wp_one_row].
  wp_seq. apply wp_one_row. intros _. constraints. bool_prop. apply HQ; [done..|lia].
Qed.

Lemma wp_insert_run t op id row Q :
  (runs (canonical t) !! id = None → run_check id row = false →
   (run_version row ≤ 2 ^ 31 - 1)%Z → Q tt (set_runs <[id := row]> t)) →
  wp t (insert_run op id row) Q.
Proof.
  intros HQ. unfold insert_run. wp_seq. unfold run_insert_fault in *. constraints. bool_prop.
  apply HQ; [by apply eq_None_not_Some|done|lia].
Qed.

Lemma wp_insert_sprint t op u row Q :
  (sprints (canonical t) !! u = None →
   (∀ v sp, sprints (canonical t) !! v = Some sp → sp_scope sp = sp_scope row →
      sp_run sp ≠ sp_run row) →
   sprint_check row = false → Q tt (set_sprints <[u := row]> t)) →
  wp t (insert_sprint op u row) Q.
Proof.
  intros HQ. unfold insert_sprint. wp_seq. unfold sprint_insert_fault in *. constraints. bool_prop.
  destruct_and!. apply HQ; [by apply eq_None_not_Some| |done].
  intros v sp Hsp Hs Hr. match goal with H : ¬ map_Exists _ _ |- _ => apply H end.
  exists v, sp. auto.
Qed.

Lemma wp_insert_decision t op id row Q :
  (decisions (canonical t) !! id = None → Q tt (set_decisions <[id := row]> t)) →
  wp t (insert_decision op id row) Q.
Proof.
  intros HQ. unfold insert_decision. wp_seq. unfold decision_insert_fault in *. constraints.
  bool_prop. destruct_and!. apply HQ. by apply eq_None_not_Some.
Qed.
End statements.

(** ** What a command performs *)

Section performed.
Context `{Clock, Json, !Jsonb, UuidText}.
Context `{!JsonCodec Run, !JsonCodec Sprint, !JsonCodec Decision}.

Definition run_emission (et : string) (run : Run) (payload : json) : Emission :=
  mkEmission _ "run" (r_RunID run) (r_Version run) et (r_UpdatedAt run) payload.
Definition sprint_emission (et : string) (sprint : Sprint) (payload : json) : Emission :=
  mkEmission _ "sprint" (s_SprintID sprint) (s_Version sprint) et (s_UpdatedAt sprint) payload.
Definition decision_emission (et : string) (d : Decision) (payload : json) : Emission :=
  mkEmission _ "decision" (d_DecisionID d) (d_Version d) et (d_UpdatedAt d) payload.

Definition new_run (st : PgStore) (sprint : option string) (run : Run) : RunRow :=
  mkRunRow (store_scope st) sprint (r_Objective run) (r_State run) (r_Version run)
    (r_CreatedAt run) (r_UpdatedAt run).
Definition new_sprint (st : PgStore) (sprint : Sprint) : SprintRow :=
  mkSprintRow (store_scope st) (s_SequenceNumber sprint) (s_Title sprint) (s_Objective sprint)
    (s_Status sprint) (s_Version sprint) (s_RunID sprint) (s_CreatedAt sprint)
    (s_UpdatedAt sprint).
Definition new_decision (st : PgStore) (u : string) (d : Decision) : DecisionRow :=
  mkDecisionRow (store_scope st) u (d_RunID d) (d_Action d) (d_RiskClass d) (d_Status d)
    (d_Version d) (d_RequestedBy d) (d_DecidedBy d) (d_Reason d) (d_CreatedAt d) (d_UpdatedAt d)
    (d_DecidedAt d).

(** A draft run of the store that did not exist. *)
Definition drafted (t : Forja) (run : Run) : Prop :=
  runs (canonical t) !! r_RunID run = None ∧ r_SchemaVersion run = "1.0" ∧
  r_State run = StateDraft ∧ r_Version run = 1%Z ∧
  (∃ n, r_CreatedAt run = postgresTimestamp (clock_reading n)) ∧
  r_UpdatedAt run = r_CreatedAt run ∧
  pg_text (r_RunID run) = true ∧ pg_text (r_Objective run) = true.

(** [run'] is the stored run moved to [target] and stamped. *)
Record run_step (st : PgStore) (t : Forja) (id : RunID) (row : RunRow) (target : State)
    (run' : Run) : Prop := {
  rs_row : runs (canonical t) !! id = Some row;
  rs_scope : run_scope row = store_scope st;
  rs_allowed : CanTransition (run_state row) target = true;
  rs_moved : ∃ n, run' = stamped (advance (scanRun id row) target (clock_reading n));
  rs_check : run_check id (moved_run row run') = false;
  rs_version : (r_Version run' ≤ 2 ^ 31 - 1)%Z;
}.

(** No publication of the run's attempts forbids the target. *)
Definition unpublished (st : PgStore) (id : RunID) (target : State) (t : Forja) : Prop :=
  ∀ pubs, delivery_publications (work t) = Some pubs →
    has_publication (store_scope st) id "prepared" pubs (work t) = false ∧
    (has_publication (store_scope st) id "published" pubs (work t) = true → target = StateCompleted).

Inductive performed (st : PgStore) (md : CommandMetadata) (t : Forja)
    : list Emission → Forja → Prop :=
| did_create run p :
    drafted t run → run_check (r_RunID run) (new_run st None run) = false → Marshal run = Ok p →
    performed st md t [run_emission "run.created" run p]
      (set_runs <[r_RunID run := new_run st None run]> t)
| did_plan u sprint run p q :
    uuid_in (UUID (s_SprintID sprint)) = Some u → sprints (canonical t) !! u = None →
    (∀ v sp, sprints (canonical t) !! v = Some sp → sp_scope sp = store_scope st →
       sp_run sp ≠ r_RunID run) →
    s_Status sprint = SprintProposed → s_Version sprint = 1%Z → s_PendingDecisionID sprint = None →
    s_RunID sprint = r_RunID run →
    drafted t run → run_check (r_RunID run) (new_run st (Some u) run) = false →
    Marshal sprint = Ok p → Marshal run = Ok q →
    performed st md t
      [sprint_emission "sprint.planned" sprint p; run_emission "run.created" run q]
      (set_runs <[r_RunID run := new_run st (Some u) run]>
         (set_sprints <[u := new_sprint st sprint]> t))
| did_submit uuid u srow row run' d p q r :
    uuid_in uuid = Some u → sprints (canonical t) !! u = Some srow →
    sp_scope srow = store_scope st → sp_status srow = SprintProposed →
    run_step st t (sp_run srow) row StateAwaitingApproval run' →
    decisions (canonical t) !! d_DecisionID d = None →
    d_SprintID d = "sprint_" +:+ u → d_RunID d = sp_run srow → d_Status d = DecisionPending →
    d_Version d = 1%Z → d_DecidedBy d = None → d_Reason d = None → d_DecidedAt d = None →
    d_CreatedAt d = r_UpdatedAt run' → d_UpdatedAt d = d_CreatedAt d →
    let sprint := restated (scanSprint u srow None) SprintAwaitingApproval
      (Some (d_DecisionID d)) (r_UpdatedAt run') in
    Marshal sprint = Ok p → Marshal run' = Ok q → Marshal d = Ok r →
    performed st md t
      [sprint_emission "sprint.submitted" sprint p; run_emission "run.transitioned" run' q;
       decision_emission "decision.requested" d r]
      (set_decisions <[d_DecisionID d := new_decision st u d]>
         (set_runs <[sp_run srow := moved_run row run']>
            (set_sprints <[u := moved_sprint srow (s_Status sprint) (s_Version sprint)
                                  (s_UpdatedAt sprint)]> t)))
| did_decide (approve : bool) reason did drow u srow row run' p q r :
    decisions (canonical t) !! did = Some drow → de_scope drow = store_scope st →
    de_status drow = DecisionPending → uuid_in (de_sprint drow) = Some u →
    de_sprint drow = u → sprints (canonical t) !! u = Some srow →
    sp_scope srow = store_scope st →
    run_step st t (de_run drow) row (if approve then StateQueued else StateCancelling) run' →
    let now := r_UpdatedAt run' in
    let d := resolved (scanDecision did drow)
      (if approve then DecisionApproved else DecisionRejected) (ActorID md) reason now in
    let sprint := restated (scanSprint u srow (Some did))
      (if approve then SprintApproved else SprintRejected) None now in
    Marshal d = Ok p → Marshal sprint = Ok q → Marshal run' = Ok r →
    performed st md t
      [decision_emission (if approve then "decision.approved" else "decision.rejected") d p;
       sprint_emission "sprint.decision_resolved" sprint q;
       run_emission "run.transitioned" run' r]
      (set_runs <[de_run drow := moved_run row run']>
         (set_sprints <[u := moved_sprint srow (s_Status sprint) (s_Version sprint) now]>
            (set_decisions <[did := moved_decision drow (d_Status d) (d_Version d) (ActorID md)
                                      reason now]> t)))
| did_transition id row target run' q :
    run_step st t id row target run' →
    isPrivilegedResumeTransition (run_state row) target = false →
    (∀ u srow, sprint_of_run (store_scope st) id (canonical t) = Some (u, srow) →
       sp_status srow ≠ SprintAwaitingApproval ∧
       pending_of (store_scope st) u (decisions (canonical t)) = None ∧
       (sp_status srow = SprintProposed → target = StateCancelling) ∧
       (target = StateCancelling →
        sp_status srow ≠ SprintProposed ∧ sp_status srow ≠ SprintApproved)) →
    Marshal run' = Ok q → unpublished st id target t →
    performed st md t [run_emission "run.transitioned" run' q]
      (set_runs <[id := moved_run row run']> t)
| did_cancel id row run' u srow u' srow' p q :
    run_step st t id row StateCancelling run' →
    isPrivilegedResumeTransition (run_state row) StateCancelling = false →
    sprint_of_run (store_scope st) id (canonical t) = Some (u, srow) →
    pending_of (store_scope st) u (decisions (canonical t)) = None →
    sp_status srow = SprintProposed ∨ sp_status srow = SprintApproved →
    uuid_in u = Some u' → sprints (canonical t) !! u' = Some srow' →
    sp_scope srow' = store_scope st →
    let sprint := restated (scanSprint u srow None) SprintCancelling None (r_UpdatedAt run') in
    Marshal sprint = Ok p → Marshal run' = Ok q → unpublished st id StateCancelling t →
    performed st md t
      [sprint_emission "sprint.cancellation_requested" sprint p;
       run_emission "run.transitioned" run' q]
      (set_sprints <[u' := moved_sprint srow' (s_Status sprint) (s_Version sprint)
                             (s_UpdatedAt sprint)]>
         (set_runs <[id := moved_run row run']> t))
| did_resume id row run' q :
    run_step st t id row StateQueued run' →
    run_state row = StateFailedRetryable ∨ run_state row = StateAwaitingDecision →
    Marshal run' = Ok q → unpublished st id StateQueued t →
    performed st md t [run_emission "run.transitioned" run' q]
      (set_runs <[id := moved_run row run']> t).

(** The command took effect: rows and events, the audit and the receipt. *)
Definition executed (st : PgStore) (md : CommandMetadata) (key : string * string * string)
    (row : ReceiptRow) (t t' : Forja) : Prop :=
  ∃ es es' t1 t2, performed st md t es t1 ∧ audits es' ∧ grown st md (es ++ es') t1 t2 ∧
    idempotency_keys (canonical t) !! key = None ∧ t' = set_receipts <[key := row]> t2.
End performed.

(** ** The bodies perform what they should *)

Section bodies.
Context `{Clock, Database, Sha256, Json, !Jsonb, Entropy, Sequences, UuidText}.
Context `{!JsonCodec Run, !JsonCodec Sprint, !JsonCodec Decision, !JsonCodec AuditRecord,
          !JsonCodec PlanResult, !JsonCodec SubmissionResult, !JsonCodec DecisionResult}.
Abbreviation Tx := (M error (DB Forja)).

Definition performs (st : PgStore) (md : CommandMetadata) (t : Forja) {A} (m : Tx A) : Prop :=
  wp t m (λ _ t', ∃ es t1, performed st md t es t1 ∧ grown st md es t1 t').

Lemma createBody_performs st id objective md t : performs st md t (createBody st id objective md).
Proof.
  unfold performs, createBody. wp_apply wp_clock. intros now.
  wp_apply wp_insert_run. intros Hnew Hcheck _.
  wp_apply wp_appendRunEvent. intros payload t' Hm Hg. wp_seq.
  eexists _, _. split; [|exact Hg].
  eapply (did_create _ _ _ (mkRun id "1.0" objective StateDraft 1 _ _)); [|done|done].
  split_and!; eauto; param_text.
Qed.

Lemma planBody_performs st cmd md t : performs st md t (planBody st cmd md).
Proof.
  unfold performs, planBody. wp_apply wp_clock. intros now.
  wp_apply wp_uuid_cast. intros u Hu. wp_apply wp_insert_sprint. intros Hnew Huniq _.
  wp_apply wp_uuid_cast. rewrite Hu. intros ? [= <-].
  wp_apply wp_insert_run. intros Hnewr Hcheck _.
  wp_apply wp_appendControlEvent. intros p t1 Hp Hg1.
  wp_apply wp_appendRunEvent. intros q t2 Hq Hg2. wp_seq.
  eexists _, _. split; [|exact (grown_app _ _ _ _ _ _ _ Hg1 Hg2)].
  eapply (did_plan _ _ _ u (mkSprint _ _ _ _ _ _ _ _ _ _ _) (mkRun _ _ _ _ _ _ _)); try done.
  split_and!; eauto; param_text.
Qed.

(** A stored run that the machine moved and the update wrote. *)
Lemma run_step_intro st t id row target n :
  let run' := stamped (advance (scanRun id row) target (clock_reading n)) in
  runs (canonical t) !! id = Some row → run_scope row = store_scope st →
  CanTransition (run_state row) target = true →
  run_check id (moved_run row run') = false → (r_Version run' ≤ 2 ^ 31 - 1)%Z →
  run_step st t id row target run'.
Proof. intros. split; eauto. Qed.

Lemma submitBody_performs st cmd md t : performs st md t (submitBody st cmd md).
Proof.
  unfold performs, submitBody. wp_apply wp_uuid_cast. intros u Hu. wp_seq.
  destruct (in_scope _ _ _) as [srow|] eqn:Hs; cbn [fmap option_fmap option_map]; [|wp_seq].
  apply in_scope_Some in Hs as [Hs Hsc]. destruct (negb _ || negb _) eqn:Hguard; [wp_seq|].
  bool_prop. destruct Hguard as [_ Hst]. cbn [s_Status s_RunID scanSprint] in *.
  wp_apply wp_select_run; [|by intros _; wp_seq]. intros row Hrow Hrsc.
  wp_apply wp_clocked_Transition. intros now Hct.
  apply wp_update_sprint. rewrite Hu. intros ? srow0 [= <-] Hs0 _ _ _ _.
  assert (srow0 = srow) as -> by congruence.
  apply wp_update_run. cbn [r_RunID stamped advance scanRun]. intros row0 Hrow0 _ _ Hcheck Hv.
  assert (row0 = row) as -> by (cbn in Hrow0; congruence).
  wp_apply wp_uuid_cast. rewrite Hu. intros ? [= <-].
  wp_apply wp_insert_decision. intros Hnew.
  wp_apply wp_appendControlEvent. intros p t1 Hp Hg1.
  wp_apply wp_appendRunEvent. intros q t2 Hq Hg2.
  wp_apply wp_appendControlEvent. intros r t3 Hr Hg3. wp_seq.
  eexists _, _.
  split; [|exact (grown_app _ _ _ _ _ _ _ Hg1 (grown_app _ _ _ _ _ _ _ Hg2 Hg3))].
  eapply (did_submit _ _ _ _ u srow row _ (mkDecision _ _ _ _ _ _ _ _ _ _ _ _ _ _)); try done.
  by apply run_step_intro.
Qed.

Lemma resumeTarget_ok run target :
  resumeTarget run = Ok target →
  target = StateQueued ∧
  (r_State run = StateFailedRetryable ∨ r_State run = StateAwaitingDecision).
Proof. unfold resumeTarget. repeat case_bool_decide; naive_solver. Qed.

Lemma wp_require st id target op t (Q : unit → Forja → Prop) :
  (unpublished st id target t → Q tt t) → wp t (requireRunPublicationTransition st id target op) Q.
Proof.
  intros HQ. unfold requireRunPublicationTransition. wp_seq.
  destruct (delivery_publications (work t)) as [pubs|] eqn:Hp; wp_seq.
  2: { apply HQ. intros pubs. by rewrite Hp. }
  destruct (_ || _) eqn:Hg; wp_seq. apply orb_false_iff in Hg as [Hprep Hpub]. apply HQ.
  intros pubs' Hp'. rewrite Hp in Hp'. injection Hp' as <-. split; [done|]. intros Hx. rewrite Hx in Hpub.
  cbn [andb] in Hpub. by apply negb_false_iff, bool_decide_eq_true in Hpub.
Qed.

Lemma resumeBody_performs st id v md t : performs st md t (resumeBody st id v md).
Proof.
  unfold performs, resumeBody. wp_apply wp_select_run; [|by intros _; wp_seq].
  intros row Hrow Hsc. destruct (negb _); [wp_seq|]. wp_seq. case_bool_decide; [wp_seq|].
  wp_seq. match goal with H : resumeTarget _ = _ |- _ => apply resumeTarget_ok in H as [-> Hst] end.
  apply wp_require. intros Hun. wp_apply wp_clocked_Transition. intros now Hct.
  apply wp_update_run. cbn [r_RunID stamped advance scanRun]. intros row0 Hrow0 _ _ Hcheck Hv.
  assert (row0 = row) as -> by congruence.
  wp_apply wp_appendRunEvent. intros q t1 Hq Hg. wp_seq.
  eexists _, _. split; [|exact Hg].
  eapply (did_resume _ _ _ id row); [by apply run_step_intro|done..].
Qed.

Lemma wp_caught {A} t (m : Tx A) (Q : result A → Forja → Prop) :
  reader m → (∀ e, Q (Err e) t) → wp t m (λ a t', Q (Ok a) t') → wp t (caught m) Q.
Proof.
  intros Hrd He Hm. apply wp_intro. intros s r s' <-. unfold caught.
  destruct (m s) as [[a|e] s1] eqn:Hrun; intros [= <- <-]; [by eapply (wp_run m (λ a, Q (Ok a)))|].
  destruct (Hrd _ _ _ Hrun) as [-> _]. apply He.
Qed.

Lemma gateSprint_ok u srow pending target cancelling :
  gateSprint (Ok (Some (scanSprint u srow pending))) target = Ok cancelling →
  sp_status srow ≠ SprintAwaitingApproval ∧ pending = None ∧
  (sp_status srow = SprintProposed → target = StateCancelling) ∧
  cancelling = (if bool_decide (target = StateCancelling)
                then Some (scanSprint u srow None) else None).
Proof.
  cbn [gateSprint scanSprint s_Status s_PendingDecisionID].
  destruct (_ || _) eqn:Haw; [done|]. destruct (_ && _) eqn:Hp; [done|]. bool_prop.
  destruct Haw as [Haw Hpd]. apply eq_None_not_Some in Hpd as ->. intros Hif.
  split_and!; [done|done| |].
  - intros Hs. destruct Hp as [?|Hp]; [done|]. by bool_prop.
  - case_bool_decide; by injection Hif as <-.
Qed.

(** The sprint part of [TransitionRun]. *)
Lemma wp_cancelSprint st id target cancelling now md t o Q :
  sprint_of_run (store_scope st) id (canonical t) = o →
  gateSprint (Ok (match o with
     | Some (u, row) =>
         Some (scanSprint u row (pending_of (store_scope st) u (decisions (canonical t))))
     | None => None end)) target = Ok cancelling →
  ((∀ u srow, o = Some (u, srow) →
      sp_status srow ≠ SprintAwaitingApproval ∧
      pending_of (store_scope st) u (decisions (canonical t)) = None ∧
      (sp_status srow = SprintProposed → target = StateCancelling) ∧
      (target = StateCancelling →
       sp_status srow ≠ SprintProposed ∧ sp_status srow ≠ SprintApproved)) → Q tt t) →
  (∀ u srow u' srow' p t',
     target = StateCancelling → o = Some (u, srow) →
     pending_of (store_scope st) u (decisions (canonical t)) = None →
     sp_status srow = SprintProposed ∨ sp_status srow = SprintApproved →
     uuid_in u = Some u' → sprints (canonical t) !! u' = Some srow' →
     sp_scope srow' = store_scope st →
     let sprint := restated (scanSprint u srow None) SprintCancelling None now in
     Marshal sprint = Ok p →
     grown st md [sprint_emission "sprint.cancellation_requested" sprint p]
       (set_sprints <[u' := moved_sprint srow' (s_Status sprint) (s_Version sprint)
                              (s_UpdatedAt sprint)]> t) t' → Q tt t') →
  wp t (cancelSprint st cancelling now md) Q.
Proof.
  intros Ho Hgate HQ1 HQ2. destruct o as [[u srow]|]; cycle 1.
  { cbn in Hgate. injection Hgate as <-. cbn. apply wp_ret, HQ1. by intros ? ? [=]. }
  apply gateSprint_ok in Hgate as (Haw & Hpd & Hprop & ->). case_bool_decide as Ht; cycle 1.
  { cbn. apply wp_ret, HQ1. intros ? ? [= <- <-]. by split_and!. }
  cbn [cancelSprint s_Status scanSprint]. destruct (_ || _) eqn:Hst; cycle 1.
  { apply wp_ret, HQ1. intros ? ? [= <- <-]. bool_prop. tauto. }
  bool_prop. apply wp_update_sprint. cbn [s_SprintID restated scanSprint].
  rewrite TrimPrefix_app. intros u' srow' Hu' Hs' Hsc' _ _ _.
  apply wp_appendControlEvent. intros p t' Hp Hg.
  by eapply (HQ2 u srow u' srow').
Qed.

Lemma transitionBody_performs st id v target md t :
  performs st md t (transitionBody st id v target md).
Proof.
  unfold performs, transitionBody, select_linked. wp_apply wp_caught; [reading| |].
  { intros e. cbn [unless_aborted]. wp_seq. }
  cbn [unless_aborted]. wp_apply wp_select_run; [|by intros _; wp_seq]. intros row Hrow Hsc.
  destruct (negb _); [wp_seq|]. destruct (isPrivilegedResumeTransition _ _) eqn:Hpriv; [wp_seq|].
  wp_seq. rename select (gateSprint _ _ = _) into Hgate.
  wp_apply wp_require. intros Hun. wp_apply wp_clocked_Transition. intros now Hct.
  apply wp_update_run. cbn [r_RunID stamped advance scanRun]. intros row0 Hrow0 _ _ Hcheck Hv.
  assert (row0 = row) as -> by congruence.
  assert (run_step st t id row target (stamped (advance (scanRun id row) target (clock_reading now))))
    by (by apply run_step_intro).
  wp_seq. eapply wp_cancelSprint; [reflexivity|exact Hgate| |].
  - intros Hok. wp_apply wp_appendRunEvent. intros q t1 Hq Hg. wp_seq.
    eexists _, _. split; [|exact Hg]. by eapply did_transition.
  - intros u srow u' srow' p t1 -> Hlink Hpd Hst Hu' Hs' Hsc' sprint Hp Hg.
    wp_apply wp_appendRunEvent. intros q t2 Hq Hg2. wp_seq.
    eexists _, _. split; [|exact (grown_app _ _ _ _ _ _ _ Hg Hg2)].
    by eapply (did_cancel _ _ _ id row _ u srow u' srow').
Qed.

Lemma resolveBody_performs st cmd md t : performs st md t (resolveBody st cmd md).
Proof.
  unfold performs, resolveBody. wp_seq.
  destruct (in_scope _ _ _) as [drow|] eqn:Hd; cbn [fmap option_fmap option_map]; [|wp_seq].
  apply in_scope_Some in Hd as [Hd Hdsc]. destruct (negb _ || negb _) eqn:Hguard; [wp_seq|].
  bool_prop. destruct Hguard as [_ Hst]. cbn [d_Status scanDecision] in Hst.
  wp_seq. apply wp_wrapping. wp_seq. rename select (ParseSprintID _ = _) into Hparse.
  assert (a = "sprint_" +:+ de_sprint drow) as ->.
  { unfold ParseSprintID in Hparse. cbn in Hparse. case_match; by simplify_eq. }
  unfold select_decided_sprint, UUID. rewrite TrimPrefix_app.
  wp_apply wp_uuid_cast. intros u Hu. wp_seq.
  destruct (in_scope sp_scope _ _) as [srow|] eqn:Hs; [|wp_seq].
  apply in_scope_Some in Hs as [Hs Hssc]. cbn [d_DecisionID scanDecision]. rewrite Hd.
  cbn [in_scope]. rewrite (bool_decide_eq_true_2 _ Hdsc). case_bool_decide as Hdu; [|wp_seq].
  wp_apply wp_select_run; [|by intros _; wp_seq]. intros row Hrow Hrsc.
  cbn [d_RunID scanDecision] in Hrow.
  wp_apply wp_clocked_Transition. intros now Hct.
  apply wp_update_decision. cbn [d_DecisionID resolved scanDecision]. rewrite Hd.
  intros ? [= <-] _ _ _.
  apply wp_update_sprint. rewrite Hu. intros ? srow0 [= <-] Hs0 _ _ _ _.
  assert (srow0 = srow) as -> by (cbn in Hs0; congruence).
  apply wp_update_run. cbn [r_RunID stamped advance scanRun canonical set_decisions set_sprints
    with_canonical runs d_RunID scanDecision]. rewrite Hrow. intros ? [= <-] _ _ Hcheck Hv.
  wp_apply wp_appendControlEvent. intros p t1 Hp Hg1.
  wp_apply wp_appendControlEvent. intros q t2 Hq Hg2.
  wp_apply wp_appendRunEvent. intros r t3 Hr Hg3. wp_seq.
  eexists _, _.
  split; [|exact (grown_app _ _ _ _ _ _ _ Hg1 (grown_app _ _ _ _ _ _ _ Hg2 Hg3))].
  eapply (did_decide _ _ _ (dc_Approve cmd) (dc_Reason cmd) _ drow u srow row); try done.
  by apply run_step_intro.
Qed.
End bodies.

(** ** Whole operations *)

(** A call on the repository. *)
Inductive operation :=
| OpCreateRun (id : RunID) (objective : string) (md : CommandMetadata)
| OpCommand (c : command).

Section operations.
Context `{Clock, Database, Sha256, Json, !Jsonb, Entropy, Sequences, UuidText}.
Context `{!JsonCodec Run, !JsonCodec Sprint, !JsonCodec Decision, !JsonCodec AuditRecord,
          !JsonCodec PlanResult, !JsonCodec SubmissionResult, !JsonCodec DecisionResult}.
Abbreviation Tx := (M error (DB Forja)).

Definition perform (st : PgStore) (op : operation) : Tx reply :=
  match op with
  | OpCreateRun id objective md => r ← CreateRun st id objective md; mret (ReplyRun r)
  | OpCommand (CmdPlan c md) => r ← PlanSprint st c md; mret (ReplyPlan r)
  | OpCommand (CmdSubmit c md) => r ← SubmitSprint st c md; mret (ReplySubmission r)
  | OpCommand (CmdResolve c md) => r ← ResolveDecision st c md; mret (ReplyDecision r)
  | OpCommand (CmdTransition id v target md) => r ← TransitionRun st id v target md; mret (ReplyRun r)
  | OpCommand (CmdResume id v md) => r ← ResumeRun st id v md; mret (ReplyRun r)
  | OpCommand (CmdAudit record) => _ ← RecordToolAudit st record; mret ReplyDone
  end.

(** How a command with receipt key [k] and request hash [hash] can end well. *)
Inductive outcome {A} `{!JsonCodec A} (st : PgStore) (md : CommandMetadata)
    (k : string * string * string) (hash : string) (decode : json → result A)
    (t : Forja) (a : A) (t' : Forja) : Prop :=
| replayed row es :
    idempotency_keys (canonical t) !! k = Some row → rc_hash row = hash →
    decode (rc_body row) = Ok a → audits es → grown st md es t t' → length es ≤ 1 →
    outcome st md k hash decode t a t'
| applied status body :
    Marshal a = Ok body → executed st md k (mkReceiptRow _ hash status body) t t' →
    outcome st md k hash decode t a t'.

Lemma wp_receipt st op scope key t Q :
  Q (idempotency_keys (canonical t) !! (tenantID st, scope, key)) t →
  wp t (receipt st op scope key) Q.
Proof. intros HQ. unfold receipt. by wp_seq. Qed.

Lemma wp_insert_receipt st op scope key hash status body t Q :
  (idempotency_keys (canonical t) !! (tenantID st, scope, key) = None →
   Q tt (set_receipts <[(tenantID st, scope, key) := mkReceiptRow _ hash status body]> t)) →
  wp t (insert_receipt st op scope key hash status body) Q.
Proof.
  intros HQ. unfold insert_receipt. wp_seq. unfold receipt_insert_fault in *. constraints.
  bool_prop. apply HQ. by apply eq_None_not_Some.
Qed.

(** The frame: a replay, or the body's effect with its receipt. *)
Lemma commandTx_outcome {A} `{!JsonCodec A} st op scope md audited load save deferred
    (body : Tx (Time * A)) hash status decode t :
  let k := (tenantID st, scope, IdempotencyKey md) in
  (∀ Q : option A → Forja → Prop,
     (idempotency_keys (canonical t) !! k = None → Q None t) →
     (∀ row a, idempotency_keys (canonical t) !! k = Some row → rc_hash row = hash →
        decode (rc_body row) = Ok a → Q (Some a) t) → wp t load Q) →
  (∀ t a Q, (∀ data, Marshal a = Ok data → idempotency_keys (canonical t) !! k = None →
        Q tt (set_receipts <[k := mkReceiptRow _ hash status data]> t)) → wp t (save a) Q) →
  performs st md t body →
  wp t (commandTx st op scope md audited load save deferred body) (outcome st md k hash decode t).
Proof.
  intros k Hload Hsave Hbody. unfold commandTx. wp_apply wp_lockIdempotency. wp_seq. apply Hload.
  - intros Hnone. wp_seq. eapply wp_mono; [exact Hbody|].
    intros [now a] t2 (es & t1 & Hperf & Hg). cbn. wp_seq.
    eapply (wp_mono _ _ (λ _ t3, ∃ es', audits es' ∧ grown st md (es ++ es') t1 t3)).
    { destruct audited.
      - apply wp_appendSuccessToolAudit. intros es' t3 Haud Hg' _.
        exists es'. split; [done|]. by eapply grown_app.
      - wp_seq. exists []. rewrite app_nil_r. by split; [constructor|]. }
    intros _ t3 (es' & Haud & Hg'). wp_seq. apply Hsave. intros data Hdata _. wp_seq.
    apply applied with status data; [done|]. by exists es, es', t1, t3.
  - intros row a Hrow Hhash Hdec. destruct audited; wp_seq.
    + apply wp_clock. intros now. wp_apply wp_appendSuccessToolAudit.
      intros es t' Haud Hg Hlen. wp_seq. eapply (replayed _ _ _ _ _ _ _ _ row es); try done.
      case_bool_decide; lia.
    + eapply (replayed _ _ _ _ _ _ _ _ row []); try done; [constructor|constructor|cbn; lia].
Qed.

Lemma wp_loadRunReplay st scope key hash t Q :
  (idempotency_keys (canonical t) !! (tenantID st, scope, key) = None → Q None t) →
  (∀ row a, idempotency_keys (canonical t) !! (tenantID st, scope, key) = Some row →
     rc_hash row = hash → decodeStoredRun (rc_body row) = Ok a → Q (Some a) t) →
  wp t (loadRunReplay st scope key hash) Q.
Proof.
  intros HN HS. unfold loadRunReplay. wp_apply wp_receipt.
  destruct (_ !! _) as [row|] eqn:Hrow; [|wp_seq; by apply HN].
  case_bool_decide; cbn; [|wp_seq].
  destruct (decodeStoredRun _) eqn:Hd; wp_seq. by eapply HS.
Qed.

Lemma wp_loadControlReplay {A} `{!JsonCodec A} st scope key hash t (Q : option A → Forja → Prop) :
  (idempotency_keys (canonical t) !! (tenantID st, scope, key) = None → Q None t) →
  (∀ row a, idempotency_keys (canonical t) !! (tenantID st, scope, key) = Some row →
     rc_hash row = hash → Decode (rc_body row) = Ok a → Q (Some a) t) →
  wp t (loadControlReplay st scope key hash) Q.
Proof.
  intros HN HS. unfold loadControlReplay. wp_apply wp_receipt.
  destruct (_ !! _) as [row|] eqn:Hrow; [|wp_seq; by apply HN].
  case_bool_decide; cbn; [|wp_seq].
  destruct (Decode _) eqn:Hd; wp_seq. by eapply HS.
Qed.

Lemma commandTx_run st op scope md audited deferred (body : Tx (Time * Run)) hash status t :
  performs st md t body →
  wp t (commandTx st op scope md audited (loadRunReplay st scope (IdempotencyKey md) hash)
          (saveRunReplay st scope (IdempotencyKey md) hash status) deferred body)
    (outcome st md (tenantID st, scope, IdempotencyKey md) hash decodeStoredRun t).
Proof.
  intros Hbody. eapply commandTx_outcome; [| |done].
  - intros Q. apply wp_loadRunReplay.
  - intros t0 a Q HQ. unfold saveRunReplay. wp_apply wp_encode. intros data Hdata.
    apply wp_insert_receipt. by apply HQ.
Qed.

Lemma commandTx_control {A} `{!JsonCodec A} st op scope md audited deferred
    (body : Tx (Time * A)) hash status t :
  performs st md t body →
  wp t (commandTx st op scope md audited (loadControlReplay st scope (IdempotencyKey md) hash)
          (saveControlReplay st scope (IdempotencyKey md) hash status) deferred body)
    (outcome st md (tenantID st, scope, IdempotencyKey md) hash Decode t).
Proof.
  intros Hbody. eapply commandTx_outcome; [| |done].
  - intros Q. apply wp_loadControlReplay.
  - intros t0 a Q HQ. unfold saveControlReplay. wp_apply wp_encode. intros data Hdata.
    apply wp_insert_receipt. by apply HQ.
Qed.

(** What an operation of the store does to the tables. *)
Inductive pg_effect (st : PgStore) (t t' : Forja) : Prop :=
| eff_none : t' = t → pg_effect st t t'
| eff_audit md es : audits es → grown st md es t t' → pg_effect st t t'
| eff_command md key row : executed st md (tenantID st, key.1, key.2) row t t' → pg_effect st t t'.

Lemma outcome_effect {A} `{!JsonCodec A} st md scope key hash decode t (a : A) t' :
  outcome st md (tenantID st, scope, key) hash decode t a t' → pg_effect st t t'.
Proof.
  destruct 1 as [row es _ _ _ Haud Hg|status body _ Hex].
  - by eapply eff_audit.
  - by eapply (eff_command _ _ _ md (scope, key)).
Qed.

(** Guards, then a transaction with the given outcomes. *)
Lemma guarded_effect {A} `{!JsonCodec A} st md scope key hash decode (m : Tx A) t :
  wp t m (outcome st md (tenantID st, scope, key) hash decode t) →
  wp t m (λ _, pg_effect st t).
Proof. intros Hm. eapply wp_mono; [done|]. intros a t'. apply outcome_effect. Qed.

Lemma safe_then {A B} (m : Tx A) (f : A → B) : safe m → safe (a ← m; mret (f a)).
Proof.
  intros Hm s e s'. rewrite M_bind_run. destruct (m s) as [[a|e'] s1] eqn:Hrun; [done|].
  intros [= -> <-]. by eapply Hm.
Qed.

Lemma perform_safe st op : safe (perform st op).
Proof.
  destruct op as [id obj md|[c md|c md|c md|id v target md|id v md|record]]; cbn [perform];
    apply safe_then; unfold CreateRun, PlanSprint, SubmitSprint, ResolveDecision, TransitionRun,
      ResumeRun, RecordToolAudit, commandTx;
    repeat (apply safe_bind; [apply reader_lift|intros _]); apply safe_atomically.
Qed.

(** ** Operation by operation *)

Lemma CreateRun_outcome st id objective md t :
  wp t (CreateRun st id objective md)
    (outcome st md (tenantID st, "create_run:" +:+ repositoryID st, IdempotencyKey md)
       (hashCommand md ["create_run"; repositoryID st; objective]) decodeStoredRun t).
Proof. unfold CreateRun. wp_apply commandTx_run. apply createBody_performs. Qed.

Lemma PlanSprint_outcome st cmd md t :
  wp t (PlanSprint st cmd md)
    (outcome st md (tenantID st, "plan_sprint:" +:+ repositoryID st, IdempotencyKey md)
       (hashCommand md ["plan_sprint"; repositoryID st; pc_Title cmd; pc_Objective cmd]) Decode t).
Proof. unfold PlanSprint. wp_apply commandTx_control. apply planBody_performs. Qed.

Lemma SubmitSprint_outcome st cmd md t :
  wp t (SubmitSprint st cmd md)
    (outcome st md (tenantID st, "submit_sprint:" +:+ repositoryID st +:+ ":" +:+ sc_SprintID cmd,
       IdempotencyKey md)
       (hashCommand md ["submit_sprint"; sc_SprintID cmd; pretty (sc_ExpectedVersion cmd);
          sc_RiskClass cmd]) Decode t).
Proof. unfold SubmitSprint. wp_apply commandTx_control. apply submitBody_performs. Qed.

Lemma ResolveDecision_outcome st cmd md t :
  wp t (ResolveDecision st cmd md)
    (outcome st md (tenantID st,
         "resolve_decision:" +:+ repositoryID st +:+ ":" +:+ dc_DecisionID cmd, IdempotencyKey md)
       (hashCommand md ["resolve_decision"; dc_DecisionID cmd; pretty (dc_ExpectedVersion cmd);
          Sprint_bool (dc_Approve cmd); dc_Reason cmd]) Decode t).
Proof. unfold ResolveDecision. wp_apply commandTx_control. apply resolveBody_performs. Qed.

Lemma TransitionRun_outcome st id v target md t :
  wp t (TransitionRun st id v target md)
    (outcome st md (tenantID st, "transition_run:" +:+ repositoryID st +:+ ":" +:+ id,
         IdempotencyKey md)
       (hashCommand md ["transition_run"; id; pretty v; target]) decodeStoredRun t).
Proof. unfold TransitionRun. wp_apply commandTx_run. apply transitionBody_performs. Qed.

Lemma ResumeRun_outcome st id v md t :
  wp t (ResumeRun st id v md)
    (outcome st md (tenantID st, "resume_run:" +:+ repositoryID st +:+ ":" +:+ id,
         IdempotencyKey md)
       (hashCommand md ["resume_run"; id; pretty v]) decodeStoredRun t).
Proof. unfold ResumeRun. wp_apply commandTx_run. apply resumeBody_performs. Qed.

Lemma RecordToolAudit_outcome st record t :
  wp t (RecordToolAudit st record) (λ _, pg_effect st t).
Proof.
  unfold RecordToolAudit. wp_apply wp_appendToolAudit. intros es t' Haud _ Hg. wp_seq.
  by eapply eff_audit.
Qed.

Lemma then_effect {A B} st (m : Tx A) (f : A → B) t :
  wp t m (λ _, pg_effect st t) → wp t (a ← m; mret (f a)) (λ _, pg_effect st t).
Proof. intros Hm. wp_prim. eapply wp_mono; [done|]. intros a t' Heff. by wp_seq. Qed.

Lemma perform_wp st op t : wp t (perform st op) (λ _, pg_effect st t).
Proof.
  destruct op as [id obj md|[c md|c md|c md|id v target md|id v md|record]]; cbn [perform];
    apply then_effect;
    first [apply RecordToolAudit_outcome | eapply guarded_effect].
  - apply CreateRun_outcome.
  - apply PlanSprint_outcome.
  - apply SubmitSprint_outcome.
  - apply ResolveDecision_outcome.
  - apply TransitionRun_outcome.
  - apply ResumeRun_outcome.
Qed.

(** Whatever it returns, an operation has one of the effects. *)
Lemma perform_effect st op s r s' :
  perform st op s = (r, s') → pg_effect st (tables s) (tables s').
Proof.
  intros Hrun. destruct (safe_run _ _ _ _ _ (perform_safe st op) (perform_wp st op _) Hrun)
    as [Heq|(a & _ & Heff)]; [by apply eff_none|done].
Qed.
End operations.
