(* ===== verification/AttemptRecords.v ===== *)
(** * Package [internal/persistence]: attempts, as records

    The attempt ([model.go]) and the documents the attempt commands store and
    emit ([attempts.go], [attempt_lifecycle.go]). *)

From S2P Require Import Prelude GoLib Contracts ControlMemory.

Record Attempt := mkAttempt {
  a_AttemptID : string;
  a_RunID : string;
  a_Ordinal : Z;
  a_Status : string;
  a_LeaseResourceType : string;
  a_LeaseResourceID : string;
  a_WorkerID : string;
  a_FencingToken : Z;
  a_StartedAt : option Time;
  a_FinishedAt : option Time;
  a_Version : Z;
  a_CreatedAt : Time;
  a_UpdatedAt : Time;
}.

Record createdAttemptEvent := mkCreatedAttempt {
  ca_AttemptID : string;
  ca_RunID : string;
  ca_Ordinal : Z;
  ca_Status : string;
  ca_LeaseResourceType : string;
  ca_LeaseResourceID : string;
  ca_WorkerID : string;
  ca_FencingToken : Z;
  ca_Version : Z;
  ca_CreatedAt : Time;
}.

Definition createdAttemptSnapshot (attempt : Attempt) : createdAttemptEvent :=
  mkCreatedAttempt (a_AttemptID attempt) (a_RunID attempt) (a_Ordinal attempt) (a_Status attempt)
    (a_LeaseResourceType attempt) (a_LeaseResourceID attempt) (a_WorkerID attempt)
    (a_FencingToken attempt) (a_Version attempt) (a_CreatedAt attempt).

(** The map [payload["result"]]: the result without its raw outputs. *)
Record resultSummary := mkResultSummary {
  rs_task_id : string;
  rs_adapter : string;
  rs_status : string;
  rs_retryable : bool;
  rs_termination_reason : string;
  rs_started_at : Time;
  rs_finished_at : Time;
  rs_duration_ms : Z;
  rs_exit_code : option Z;
  rs_stdout_sha256 : string;
  rs_stderr_sha256 : string;
  rs_report_sha256 : string;
  rs_usage : WorkerUsage;
  rs_evidence_refs : option (list string);
}.

(** The payload of [attempt.started] and [attempt.finished]. *)
Record attemptEvent := mkAttemptEvent {
  ae_attempt : Attempt;
  ae_result : option resultSummary;
}.

Record attemptReconciliationAuthority := mkAuthorityOf {
  aa_TenantID : string;
  aa_RepositoryID : string;
  aa_ResourceType : string;
  aa_ResourceID : string;
  aa_OwnerID : string;
  aa_FencingToken : Z;
}.
#[export] Instance authority_eq_dec : EqDecision attemptReconciliationAuthority.
Proof. solve_decision. Defined.

(** The payload of [attempt.reconciled]. *)
Record reconciledEvent := mkReconciledEvent {
  re_attempt : Attempt;
  re_reconciled_by : attemptReconciliationAuthority;
}.

Record attemptReconciliationCommand := mkReconciliationCommand {
  ac_TenantID : string;
  ac_RepositoryID : string;
  ac_IdempotencyKey : string;
  ac_ActorType : string;
  ac_ActorID : string;
  ac_CorrelationID : string;
  ac_CausationID : string;
}.

(** [Attempts] is [None] when it is [nil]. *)
Record attemptReconciliationReplay := mkReconciliationReplay {
  ar_Attempts : option (list Attempt);
  ar_Authority : attemptReconciliationAuthority;
  ar_Command : attemptReconciliationCommand;
}.

(** [encoding/json] at the types of this file. *)
Class AttemptCodecs `{Json} := {
  attempt_codec :: JsonCodec Attempt;
  created_codec :: JsonCodec createdAttemptEvent;
  attempt_event_codec :: JsonCodec attemptEvent;
  reconciled_codec :: JsonCodec reconciledEvent;
  reconciliation_codec :: JsonCodec attemptReconciliationReplay;
}.
