(* ===== verification/PgSample.v ===== *)
(** * A concrete database session

    A clock that counts milliseconds, a server without failures, and a store
    that plans a sprint, submits it and has it approved. The witnesses of the
    repository's properties evaluate on it. *)

From S2P Require Import Prelude GoLib Fault Contracts Identity RunState.
From S2P Require Import ControlMemory ControlRefinement AttemptRecords Postgres Leases.
From S2P Require Import PgTables PgEvents PgLogic PgControl PgEffects.

Module Sample.
#[export] Instance clock : Clock := λ n, mkTime (Z.of_nat n * Millisecond) 0.
#[export] Instance server : Database := λ _, None.
#[export] Instance sha : Sha256 := λ s, s.
#[export] Instance uuid : UuidText := Some.
#[export] Instance sequence : Sequences := λ _, 0.
(** Sixteen bytes that spell the number of the statement. *)
#[export] Instance entropy : Entropy := λ n,
  string_of (replicate 15 (chr 0) ++ [chr (N.of_nat n)]).

Inductive document :=
| DocRun (r : Run)
| DocSprint (s : Sprint)
| DocDecision (d : Decision)
| DocAudit (a : AuditRecord)
| DocPlan (r : PlanResult)
| DocSubmission (r : SubmissionResult)
| DocResolution (r : DecisionResult)
| DocAttempt (a : Attempt)
| DocCreated (a : createdAttemptEvent)
| DocAttemptEvent (e : attemptEvent)
| DocReconciled (e : reconciledEvent)
| DocReconciliation (r : attemptReconciliationReplay)
| DocResult (r : WorkerResult)
| DocAuthorization (request : DeliveryRequest) (digest by_ : string) (at_ : Time).

Definition mismatch : error := ErrorString (Lit "json: cannot unmarshal").

#[export] Instance documents : Json := { json := document; json_strings l := Join l NUL }.
#[export] Instance run_codec : JsonCodec Run := {
  Marshal r := Ok (DocRun r);
  Decode j := match j with DocRun r => Ok r | _ => Err mismatch end }.
#[export] Instance sprint_codec : JsonCodec Sprint := {
  Marshal r := Ok (DocSprint r);
  Decode j := match j with DocSprint r => Ok r | _ => Err mismatch end }.
#[export] Instance decision_codec : JsonCodec Decision := {
  Marshal r := Ok (DocDecision r);
  Decode j := match j with DocDecision r => Ok r | _ => Err mismatch end }.
#[export] Instance audit_codec : JsonCodec AuditRecord := {
  Marshal r := Ok (DocAudit r);
  Decode j := match j with DocAudit r => Ok r | _ => Err mismatch end }.
#[export] Instance plan_codec : JsonCodec PlanResult := {
  Marshal r := Ok (DocPlan r);
  Decode j := match j with DocPlan r => Ok r | _ => Err mismatch end }.
#[export] Instance submission_codec : JsonCodec SubmissionResult := {
  Marshal r := Ok (DocSubmission r);
  Decode j := match j with DocSubmission r => Ok r | _ => Err mismatch end }.
#[export] Instance resolution_codec : JsonCodec DecisionResult := {
  Marshal r := Ok (DocResolution r);
  Decode j := match j with DocResolution r => Ok r | _ => Err mismatch end }.
(** A created attempt is read back as one that was never updated. *)
Definition attempt_of_created (a : createdAttemptEvent) : Attempt :=
  mkAttempt (ca_AttemptID a) (ca_RunID a) (ca_Ordinal a) (ca_Status a) (ca_LeaseResourceType a)
    (ca_LeaseResourceID a) (ca_WorkerID a) (ca_FencingToken a) None None (ca_Version a)
    (ca_CreatedAt a) zero_time.
#[export] Instance attempt_codecs : AttemptCodecs := {
  attempt_codec := {|
    Marshal a := Ok (DocAttempt a);
    Decode j := match j with
                | DocAttempt a => Ok a
                | DocCreated a => Ok (attempt_of_created a)
                | _ => Err mismatch
                end |};
  created_codec := {|
    Marshal a := Ok (DocCreated a);
    Decode j := match j with DocCreated a => Ok a | _ => Err mismatch end |};
  attempt_event_codec := {|
    Marshal e := Ok (DocAttemptEvent e);
    Decode j := match j with DocAttemptEvent e => Ok e | _ => Err mismatch end |};
  reconciled_codec := {|
    Marshal e := Ok (DocReconciled e);
    Decode j := match j with DocReconciled e => Ok e | _ => Err mismatch end |};
  reconciliation_codec := {|
    Marshal r := Ok (DocReconciliation r);
    Decode j := match j with DocReconciliation r => Ok r | _ => Err mismatch end |} }.
#[export] Instance result_codec : JsonCodec WorkerResult := {
  Marshal r := Ok (DocResult r);
  Decode j := match j with DocResult r => Ok r | _ => Err mismatch end }.
#[export] Instance storage : Jsonb := λ _, true.

Definition store : PgStore := mkPgStore "t1" "r1".
Definition other : Scope := ("t2", "r2").

Definition sid : SprintID := "sprint_00010203-0405-4607-8809-0a0b0c0d0e0f".
Definition rid : RunID := "run_00010203-0405-4607-8809-0a0b0c0d0e0f".
Definition did : DecisionID := "decision_00010203-0405-4607-8809-0a0b0c0d0e0f".
Definition md (key : string) : CommandMetadata :=
  mkMetadata key "human" "alice" "corr" None "".

Definition plan : operation :=
  OpCommand (CmdPlan (mkPlanCommand sid rid "title" "objective") (md "key-0001")).
Definition submit : operation :=
  OpCommand (CmdSubmit (mkSubmitCommand sid did 1 "high") (md "key-0002")).
Definition approve : operation :=
  OpCommand (CmdResolve (mkDecideCommand did 1 true "looks right") (md "key-0003")).

(** Two repositories and nothing in them. *)
Definition empty : Forja :=
  mkForja _ (mkCanonical _ {[store_scope store; other]} ∅ ∅ ∅ ∅)
    (mkStream _ [] [] 0 ∅ ∅ ∅ [] ∅) (mkWork ∅ None (mkTables ∅ ∅ ∅)).

Definition s0 : DB Forja := mkDB empty 0 0.
Definition run (op : operation) (s : DB Forja) : DB Forja := (perform store op s).2.
Definition s1 : DB Forja := run plan s0.
Definition s2 : DB Forja := run submit s1.
Definition s3 : DB Forja := run approve s2.

Lemma plan_done : is_ok (perform store plan s0).1 = true.
Proof. vm_compute. reflexivity. Qed.
Lemma submit_done : is_ok (perform store submit s1).1 = true.
Proof. vm_compute. reflexivity. Qed.
Lemma approve_done : is_ok (perform store approve s2).1 = true.
Proof. vm_compute. reflexivity. Qed.

Lemma ran op s : perform store op s = ((perform store op s).1, run op s).
Proof. unfold run. by destruct (perform store op s). Qed.
End Sample.
