(* ===== verification/PgRefinement.v ===== *)
(** * The PostgreSQL repository implements the governance contract

    The rows of one tenant and repository are a state of the abstract machine
    of [Governance] ([view]); every operation of a store is one step of it, and
    no step at all for the other stores of the database. Unlike the in-memory
    repository no assumption on identifiers is needed: the primary keys refuse
    used ones. *)

From S2P Require Import Prelude GoLib Fault Contracts Identity RunState.
From S2P Require Import ControlMemory Governance ControlRefinement Postgres Leases.
From S2P Require Import PgTables PgEvents PgLogic PgControl PgEffects PgSample.

(** The [uuid] type has one canonical text per value. *)
Class UuidLaws `{UuidText} :=
  uuid_in_canonical : ∀ s u, uuid_in s = Some u → uuid_in u = Some u.

(** ** The view of a store *)

Definition view_runs (sc : Scope) (m : gmap RunID RunRow) : gmap RunID Run :=
  map_imap (λ id row, if bool_decide (run_scope row = sc) then Some (scanRun id row) else None) m.

Definition view_decisions (sc : Scope) (m : gmap DecisionID DecisionRow)
    : gmap DecisionID Decision :=
  map_imap (λ id row, if bool_decide (de_scope row = sc) then Some (scanDecision id row) else None)
    m.

Definition view_sprints (sc : Scope) (m : gmap string SprintRow)
    (ds : gmap DecisionID DecisionRow) : gmap SprintID Sprint :=
  kmap (String.app "sprint_")
    (map_imap (λ u row, if bool_decide (sp_scope row = sc)
                        then Some (scanSprint u row (pending_of sc u ds)) else None) m).

Definition view `{Json} (sc : Scope) (t : Forja) : Gov :=
  mkGov (view_sprints sc (sprints (canonical t)) (decisions (canonical t)))
    (view_decisions sc (decisions (canonical t))) (view_runs sc (runs (canonical t))).

(** ** Lookups and writes *)

Lemma lookup_view_runs sc m id run :
  view_runs sc m !! id = Some run ↔
  ∃ row, m !! id = Some row ∧ run_scope row = sc ∧ run = scanRun id row.
Proof.
  unfold view_runs. rewrite map_lookup_imap. destruct (m !! id) as [row|]; cbn; [|naive_solver].
  case_bool_decide; naive_solver.
Qed.

Lemma lookup_view_decisions sc m id d :
  view_decisions sc m !! id = Some d ↔
  ∃ row, m !! id = Some row ∧ de_scope row = sc ∧ d = scanDecision id row.
Proof.
  unfold view_decisions. rewrite map_lookup_imap.
  destruct (m !! id) as [row|]; cbn; [|naive_solver]. case_bool_decide; naive_solver.
Qed.

Lemma lookup_view_sprints sc m ds sid sp :
  view_sprints sc m ds !! sid = Some sp ↔
  ∃ u row, sid = "sprint_" +:+ u ∧ m !! u = Some row ∧ sp_scope row = sc ∧
    sp = scanSprint u row (pending_of sc u ds).
Proof.
  unfold view_sprints. rewrite lookup_kmap_Some by apply _. split.
  - intros (u & -> & Hu). rewrite map_lookup_imap in Hu.
    destruct (m !! u) as [row|] eqn:Hrow; [|done]. cbn in Hu.
    case_bool_decide; [|done]. injection Hu as <-. by exists u, row.
  - intros (u & row & -> & Hrow & Hsc & ->). exists u. split; [done|].
    rewrite map_lookup_imap, Hrow. cbn. by rewrite bool_decide_eq_true_2.
Qed.

Lemma view_sprint_row sc m ds u row :
  m !! u = Some row → sp_scope row = sc →
  view_sprints sc m ds !! ("sprint_" +:+ u) = Some (scanSprint u row (pending_of sc u ds)).
Proof. intros Hrow Hsc. apply lookup_view_sprints. eauto 10. Qed.

Lemma view_runs_None sc m id : m !! id = None → view_runs sc m !! id = None.
Proof.
  intros Hn. apply eq_None_not_Some. intros [run (row & Hrow & _)%lookup_view_runs]. congruence.
Qed.
Lemma view_decisions_None sc m id : m !! id = None → view_decisions sc m !! id = None.
Proof.
  intros Hn. apply eq_None_not_Some. intros [d (row & Hrow & _)%lookup_view_decisions].
  congruence.
Qed.
Lemma view_sprints_None sc m ds u :
  m !! u = None → view_sprints sc m ds !! ("sprint_" +:+ u) = None.
Proof.
  intros Hn. apply eq_None_not_Some.
  intros [sp (u' & row & Heq & Hrow & _)%lookup_view_sprints].
  apply (inj (String.app "sprint_")) in Heq as <-. congruence.
Qed.

Lemma view_runs_insert sc m id row :
  run_scope row = sc → view_runs sc (<[id := row]> m) = <[id := scanRun id row]> (view_runs sc m).
Proof.
  intros Hsc. unfold view_runs. apply map_imap_insert_Some. by rewrite bool_decide_eq_true_2.
Qed.

Lemma view_decisions_insert sc m id row :
  de_scope row = sc →
  view_decisions sc (<[id := row]> m) = <[id := scanDecision id row]> (view_decisions sc m).
Proof.
  intros Hsc. unfold view_decisions. apply map_imap_insert_Some.
  by rewrite bool_decide_eq_true_2.
Qed.

(** A write of the sprint [u], with decisions that changed for [u] only. *)
Lemma view_sprints_insert sc m u row ds ds' :
  sp_scope row = sc → (∀ v, v ≠ u → pending_of sc v ds' = pending_of sc v ds) →
  view_sprints sc (<[u := row]> m) ds' =
    <["sprint_" +:+ u := scanSprint u row (pending_of sc u ds')]> (view_sprints sc m ds).
Proof.
  intros Hsc Hds. unfold view_sprints. rewrite <-kmap_insert by apply _. f_equal.
  apply map_eq. intros v. rewrite map_lookup_imap, !lookup_insert. case_decide as Hv.
  - subst v. cbn. by rewrite bool_decide_eq_true_2.
  - rewrite map_lookup_imap. destruct (m !! v); cbn; [|done]. by rewrite Hds by done.
Qed.

(** Rows of another tenant or repository are not seen. *)
Lemma view_runs_foreign sc m id row :
  run_scope row ≠ sc → (∀ old, m !! id = Some old → run_scope old ≠ sc) →
  view_runs sc (<[id := row]> m) = view_runs sc m.
Proof.
  intros Hsc Hold. unfold view_runs. apply map_eq. intros id'.
  rewrite !map_lookup_imap, lookup_insert. case_decide; [subst id'|done].
  cbn. rewrite bool_decide_eq_false_2 by done. destruct (m !! id) as [old|] eqn:Ho; [|done].
  cbn. by rewrite bool_decide_eq_false_2 by eauto.
Qed.

Lemma view_decisions_foreign sc m id row :
  de_scope row ≠ sc → (∀ old, m !! id = Some old → de_scope old ≠ sc) →
  view_decisions sc (<[id := row]> m) = view_decisions sc m.
Proof.
  intros Hsc Hold. unfold view_decisions. apply map_eq. intros id'.
  rewrite !map_lookup_imap, lookup_insert. case_decide; [subst id'|done].
  cbn. rewrite bool_decide_eq_false_2 by done. destruct (m !! id) as [old|] eqn:Ho; [|done].
  cbn. by rewrite bool_decide_eq_false_2 by eauto.
Qed.

Lemma pending_rows_insert sc v ds id row :
  ¬ (de_scope row = sc ∧ de_sprint row = v) →
  (∀ old, ds !! id = Some old → ¬ (de_scope old = sc ∧ de_sprint old = v)) →
  pending_of sc v (<[id := row]> ds) = pending_of sc v ds.
Proof.
  intros Hrow Hold. unfold pending_of, pending_rows. do 3 f_equal.
  rewrite map_filter_insert_False by (cbn; tauto). apply map_eq. intros i.
  rewrite !map_lookup_filter. destruct (decide (i = id)) as [->|Hi].
  - rewrite lookup_delete_eq. cbn. destruct (ds !! id) as [old|] eqn:Ho; [|done]. cbn.
    rewrite option_guard_False; [done|]. intros (? & ? & _). by eapply Hold.
  - by rewrite lookup_delete_ne.
Qed.

Lemma view_sprints_foreign sc m u row ds ds' :
  sp_scope row ≠ sc → (∀ old, m !! u = Some old → sp_scope old ≠ sc) →
  (∀ v, pending_of sc v ds' = pending_of sc v ds) →
  view_sprints sc (<[u := row]> m) ds' = view_sprints sc m ds.
Proof.
  intros Hsc Hold Hds. unfold view_sprints. f_equal. apply map_eq. intros v.
  rewrite !map_lookup_imap, lookup_insert. case_decide; [subst v|by rewrite Hds].
  cbn. rewrite bool_decide_eq_false_2 by done. destruct (m !! u) as [old|] eqn:Ho; [|done].
  cbn. by rewrite bool_decide_eq_false_2 by eauto.
Qed.

(** ** Timestamps *)

Lemma Truncate_floor t d :
  (0 < d)%Z →
  instant (Truncate t d) = (instant zero_time + d * ((instant t - instant zero_time) / d))%Z.
Proof.
  intros Hd. cbn [Truncate instant]. rewrite Z.mod_eq by lia. lia.
Qed.

Lemma Time_eq t u : instant t = instant u → zone_offset t = zone_offset u → t = u.
Proof. destruct t, u. cbn. by intros -> ->. Qed.

Lemma timestamptz_idem t : timestamptz (timestamptz t) = timestamptz t.
Proof.
  unfold timestamptz. set (u := Truncate (UTC t) Microsecond).
  assert (instant (Truncate (UTC u) Microsecond) = instant u) as Hi.
  { rewrite Truncate_floor by done. cbn [UTC instant]. subst u. rewrite Truncate_floor by done.
    set (q := ((instant (UTC t) - instant zero_time) / Microsecond)%Z).
    replace (instant zero_time + Microsecond * q - instant zero_time)%Z
      with (q * Microsecond)%Z by lia. rewrite Z.div_mul by done. lia. }
  by apply Time_eq.
Qed.

Lemma timestamptz_mono t u :
  (instant t ≤ instant u)%Z → (instant (timestamptz t) ≤ instant (timestamptz u))%Z.
Proof.
  intros Htu. unfold timestamptz. rewrite !Truncate_floor by done. cbn [UTC instant].
  pose proof (Z.div_le_mono (instant t - instant zero_time) (instant u - instant zero_time)
    Microsecond). unfold Microsecond in *. lia.
Qed.

(** The stored row reads back as the run the machine returned, at some time. *)
Lemma scan_moved id row target now :
  ∃ now', scanRun id (moved_run row (stamped (advance (scanRun id row) target now))) =
          advance (scanRun id row) target now'.
Proof.
  set (u := if Before now (timestamptz (run_updated row)) then timestamptz (run_updated row)
            else now).
  assert (Before (timestamptz u) (timestamptz (run_updated row)) = false) as Hb.
  { unfold Before. apply Z.ltb_ge. rewrite <-(timestamptz_idem (run_updated row)).
    apply timestamptz_mono. unfold u, Before.
    destruct (_ <? _)%Z eqn:Hlt; [done|]. by apply Z.ltb_ge in Hlt. }
  exists (timestamptz u). unfold scanRun, advance, stamped, moved_run.
  cbn [r_RunID r_SchemaVersion r_Objective r_State r_Version r_CreatedAt r_UpdatedAt
       run_objective run_state run_version run_created run_updated].
  rewrite Hb. f_equal. change (postgresTimestamp ?x) with (timestamptz x).
  apply timestamptz_idem.
Qed.

(** ** Pending decisions *)

Lemma pending_of_None sc u ds :
  (∀ did row, ds !! did = Some row → de_scope row = sc → de_sprint row = u →
     de_status row ≠ "pending") → pending_of sc u ds = None.
Proof.
  intros Hno. unfold pending_of, pending_rows.
  rewrite map_empty_filter_2; [by rewrite map_to_list_empty|].
  intros did row Hd (? & ? & ?). by eapply Hno.
Qed.

Lemma pending_of_new sc u ds did row :
  (∀ did' row', ds !! did' = Some row' → de_scope row' = sc → de_sprint row' ≠ u) →
  de_scope row = sc → de_sprint row = u → de_status row = "pending" →
  pending_of sc u (<[did := row]> ds) = Some did.
Proof.
  intros Hno Hsc Hu Hst. unfold pending_of, pending_rows.
  rewrite map_filter_insert_True by (cbn; done).
  rewrite map_empty_filter_2; [by rewrite insert_empty, map_to_list_singleton|].
  intros did' row' Hd (? & ? & _). by eapply Hno.
Qed.

Lemma sprint_of_run_Some `{Json} sc id c u row :
  sprint_of_run sc id c = Some (u, row) →
  sprints c !! u = Some row ∧ sp_scope row = sc ∧ sp_run row = id.
Proof.
  unfold sprint_of_run. intros Hh.
  assert ((u, row) ∈ map_to_list (filter (λ ks, sp_scope ks.2 = sc ∧ sp_run ks.2 = id)
    (sprints c))) as Hin by (destruct (map_to_list _); simplify_eq/=; left).
  by apply elem_of_map_to_list, map_lookup_filter_Some in Hin as (? & ? & ?).
Qed.

Lemma sprint_of_run_None `{Json} sc id c u row :
  sprint_of_run sc id c = None → sprints c !! u = Some row → sp_scope row = sc →
  sp_run row ≠ id.
Proof.
  unfold sprint_of_run. intros Hh Hu Hsc Hr.
  assert ((u, row) ∈ map_to_list (filter (λ ks, sp_scope ks.2 = sc ∧ sp_run ks.2 = id)
    (sprints c))) as Hin.
  { apply elem_of_map_to_list, map_lookup_filter_Some. done. }
  destruct (map_to_list _); [by apply elem_of_nil in Hin|done].
Qed.

(** ** Every effect is a step *)

Section refinement.
Context `{Clock, Json, !Jsonb, UuidText, !UuidLaws}.
Context `{!JsonCodec Run, !JsonCodec Sprint, !JsonCodec Decision}.
Context (st : PgStore).
Abbreviation sc := (store_scope st).

(** The keys of the sprint table are canonical texts. *)
Definition uuid_keys (t : Forja) : Prop :=
  ∀ u, is_Some (sprints (canonical t) !! u) → uuid_in u = Some u.

Lemma view_run_step t id row target run' :
  run_step st t id row target run' →
  ∃ now, view_runs sc (<[id := moved_run row run']> (runs (canonical t))) =
           <[id := advance (scanRun id row) target now]> (view_runs sc (runs (canonical t))) ∧
         view_runs sc (runs (canonical t)) !! id = Some (scanRun id row).
Proof.
  intros [Hrow Hsc _ [n ->] _ _]. destruct (scan_moved id row target (clock_reading n)) as [now' Heq].
  exists now'. split.
  - rewrite view_runs_insert by done. by rewrite Heq.
  - apply lookup_view_runs. eauto.
Qed.

(** A decision of the store about a sprint of the store. *)
Lemma decision_sprint t did row :
  gov_ok (view sc t) → decisions (canonical t) !! did = Some row → de_scope row = sc →
  ∃ srow, sprints (canonical t) !! de_sprint row = Some srow ∧ sp_scope srow = sc.
Proof.
  intros Hok Hd Hsc.
  destruct (go_decisions _ Hok did (scanDecision did row)) as (_ & sp & Hsp & _).
  { apply lookup_view_decisions. eauto. }
  apply lookup_view_sprints in Hsp as (u & srow & Heq & Hs & Hss & _).
  cbn in Heq. apply (inj (String.app "sprint_")) in Heq as ->. eauto.
Qed.

Lemma create_gstep t run :
  drafted t run →
  gstep (view sc t) (view sc (set_runs <[r_RunID run := new_run st None run]> t)).
Proof.
  intros (Hnew & _ & Hst & _). unfold view at 2. cbn. rewrite view_runs_insert by done.
  apply (g_create (view sc t)); [by apply view_runs_None|done|done].
Qed.

Lemma plan_gstep t u sprint run :
  gov_ok (view sc t) → sprints (canonical t) !! u = None → s_Status sprint = SprintProposed →
  s_RunID sprint = r_RunID run → drafted t run →
  gstep (view sc t) (view sc (set_runs <[r_RunID run := new_run st (Some u) run]>
                                (set_sprints <[u := new_sprint st sprint]> t))).
Proof.
  intros Hok Hnew Hst Hrid (Hnewr & _ & Hrst & _). unfold view at 2. cbn.
  rewrite view_runs_insert, (view_sprints_insert _ _ _ _ (decisions (canonical t))) by done.
  rewrite <-Hrid.
  eapply (g_plan (view sc t) ("sprint_" +:+ u) (scanSprint u (new_sprint st sprint) _)); try done.
  - by apply view_sprints_None.
  - cbn. rewrite Hrid. by apply view_runs_None.
  - cbn. apply pending_of_None. intros did row Hd Hdsc Hu.
    destruct (decision_sprint t did row Hok Hd Hdsc) as (srow & Hs & _). congruence.
Qed.

(** The sprint of a view, by its row. *)
Lemma sprint_row t u srow :
  gov_ok (view sc t) → sprints (canonical t) !! u = Some srow → sp_scope srow = sc →
  sprint_ok (view sc t) ("sprint_" +:+ u)
    (scanSprint u srow (pending_of sc u (decisions (canonical t)))).
Proof. intros Hok Hs Hsc. apply (go_sprints _ Hok). by apply view_sprint_row. Qed.

Lemma proposed_undecided t u srow did row :
  gov_ok (view sc t) → sprints (canonical t) !! u = Some srow → sp_scope srow = sc →
  sp_status srow = SprintProposed → decisions (canonical t) !! did = Some row →
  de_scope row = sc → de_sprint row ≠ u.
Proof.
  intros Hok Hs Hsc Hst Hd Hdsc <-.
  destruct (sprint_row _ _ _ Hok Hs Hsc) as (_ & _ & run & _ & _ & Hstat).
  assert (view_decisions sc (decisions (canonical t)) !! did = Some (scanDecision did row)) as Hv.
  { apply lookup_view_decisions. eauto. }
  destruct Hstat as [? ? ? Hno|? Hx|? ? Hx|? ? Hx|Hx]; cbn in *;
    try (rewrite Hst in Hx; discriminate Hx). by apply (Hno _ _ Hv).
Qed.

Lemma submit_gstep t u srow row run' d :
  gov_ok (view sc t) → sprints (canonical t) !! u = Some srow → sp_scope srow = sc →
  sp_status srow = SprintProposed →
  run_step st t (sp_run srow) row StateAwaitingApproval run' →
  decisions (canonical t) !! d_DecisionID d = None →
  d_RunID d = sp_run srow → d_Status d = DecisionPending →
  d_DecidedBy d = None →
  let sprint := restated (scanSprint u srow None) SprintAwaitingApproval
    (Some (d_DecisionID d)) (r_UpdatedAt run') in
  gstep (view sc t)
    (view sc (set_decisions <[d_DecisionID d := new_decision st u d]>
       (set_runs <[sp_run srow := moved_run row run']>
          (set_sprints <[u := moved_sprint srow (s_Status sprint) (s_Version sprint)
                                (s_UpdatedAt sprint)]> t)))).
Proof.
  intros Hok Hs Hsc Hst Hstep Hnew Hdr Hds Hdb sprint.
  destruct (view_run_step _ _ _ _ _ Hstep) as (now & Hvr & Hvl).
  pose proof (proposed_undecided t u srow) as Hund.
  unfold view at 2. cbn. rewrite Hvr, view_decisions_insert by done.
  rewrite (view_sprints_insert _ _ _ _ (decisions (canonical t))); [|done|].
  - rewrite pending_of_new; [|by intros; eapply Hund|done..].
    eapply (g_submit (view sc t) ("sprint_" +:+ u)
      (scanSprint u srow (pending_of sc u (decisions (canonical t))))
      (scanSprint u (moved_sprint srow _ _ _) _)
      (d_DecisionID d) (scanDecision (d_DecisionID d) (new_decision st u d))); try done.
    + by apply view_sprint_row.
    + by apply view_decisions_None.
    + apply Hstep.
  - intros v Hv. apply pending_rows_insert; [cbn; naive_solver|].
    intros old Hold. congruence.
Qed.

Lemma decide_gstep t (approve : bool) did drow u srow row run' actor reason :
  gov_ok (view sc t) → decisions (canonical t) !! did = Some drow → de_scope drow = sc →
  de_status drow = DecisionPending → de_sprint drow = u →
  sprints (canonical t) !! u = Some srow → sp_scope srow = sc →
  run_step st t (de_run drow) row (if approve then StateQueued else StateCancelling) run' →
  let now := r_UpdatedAt run' in
  let d := resolved (scanDecision did drow)
    (if approve then DecisionApproved else DecisionRejected) actor reason now in
  let sprint := restated (scanSprint u srow (Some did))
    (if approve then SprintApproved else SprintRejected) None now in
  gstep (view sc t)
    (view sc (set_runs <[de_run drow := moved_run row run']>
       (set_sprints <[u := moved_sprint srow (s_Status sprint) (s_Version sprint) now]>
          (set_decisions <[did := moved_decision drow (d_Status d) (d_Version d) actor reason now]>
             t)))).
Proof.
  intros Hok Hd Hdsc Hds <- Hs Hsc Hstep now d sprint.
  destruct (view_run_step _ _ _ _ _ Hstep) as (now' & Hvr & Hvl).
  assert (view_decisions sc (decisions (canonical t)) !! did = Some (scanDecision did drow)) as Hv.
  { apply lookup_view_decisions. eauto. }
  unfold view at 2. cbn. rewrite Hvr, view_decisions_insert by done.
  rewrite (view_sprints_insert _ _ _ _ (decisions (canonical t))); [|done|].
  - rewrite (pending_of_None _ (de_sprint drow)).
    + eapply (g_decide (view sc t) approve actor did (scanDecision did drow)
        (scanDecision did (moved_decision drow _ _ _ _ _)) (scanSprint (de_sprint drow) srow _)
        (scanSprint (de_sprint drow) (moved_sprint srow _ _ _) _)); try done.
      * by apply view_sprint_row.
      * apply Hstep.
    + intros did' row'. rewrite lookup_insert. case_decide as Heq.
      * intros [= <-] _ _. by destruct approve.
      * intros Hd' Hsc' Hu' _. apply Heq. eapply (go_single _ Hok did did'); [exact Hv| |].
        -- apply lookup_view_decisions. eauto.
        -- cbn. by rewrite Hu'.
  - intros v Hv'. apply pending_rows_insert; [cbn; naive_solver|]. intros old Hold.
    assert (old = drow) as -> by congruence. naive_solver.
Qed.

(** ** The sprint of a run that moves *)

Lemma linked_view t id u srow :
  gov_ok (view sc t) → sprint_of_run sc id (canonical t) = Some (u, srow) →
  ∀ sid sp, g_sprints (view sc t) !! sid = Some sp → s_RunID sp = id →
  sid = "sprint_" +:+ u ∧ sp = scanSprint u srow (pending_of sc u (decisions (canonical t))).
Proof.
  intros Hok (Hs & Hsc & Hr)%sprint_of_run_Some sid sp Hsp Hsr.
  pose proof (view_sprint_row sc _ (decisions (canonical t)) u srow Hs Hsc) as Hv.
  assert (sid = "sprint_" +:+ u) as ->.
  { eapply (go_runs _ Hok); [exact Hsp|exact Hv|cbn; congruence]. }
  split; [done|]. cbn in Hsp. congruence.
Qed.

Lemma unlinked_view t id :
  sprint_of_run sc id (canonical t) = None →
  ∀ sid sp, g_sprints (view sc t) !! sid = Some sp → s_RunID sp ≠ id.
Proof.
  intros Hno sid sp (u & row & _ & Hs & Hsc & ->)%lookup_view_sprints. cbn.
  by eapply sprint_of_run_None.
Qed.

Lemma transition_gstep t id row target run' :
  gov_ok (view sc t) → run_step st t id row target run' →
  isPrivilegedResumeTransition (run_state row) target = false →
  (∀ u srow, sprint_of_run sc id (canonical t) = Some (u, srow) →
     sp_status srow ≠ SprintAwaitingApproval ∧
     pending_of sc u (decisions (canonical t)) = None ∧
     (sp_status srow = SprintProposed → target = StateCancelling) ∧
     (target = StateCancelling →
      sp_status srow ≠ SprintProposed ∧ sp_status srow ≠ SprintApproved)) →
  gstep (view sc t) (view sc (set_runs <[id := moved_run row run']> t)).
Proof.
  intros Hok Hstep Hpriv Hlink.
  destruct (view_run_step _ _ _ _ _ Hstep) as (now & Hvr & Hvl).
  unfold view at 2. cbn. rewrite Hvr.
  apply (g_transition (view sc t)); [done|apply Hstep|done| |done].
  intros sid sp Hsp Hsr.
  destruct (sprint_of_run sc id (canonical t)) as [[u srow]|] eqn:Ho.
  - destruct (linked_view t id u srow Hok Ho _ _ Hsp Hsr) as [-> ->].
    destruct (Hlink u srow eq_refl) as (Haw & Hpd & Hprop & Hcanc). cbn.
    split_and!; [done..|]. case_bool_decide as Ht; [|done]. cbn.
    destruct (Hcanc Ht). by rewrite !bool_decide_eq_false_2.
  - by destruct (unlinked_view t id Ho _ _ Hsp).
Qed.

Lemma cancel_gstep t id row run' u srow :
  gov_ok (view sc t) → run_step st t id row StateCancelling run' →
  isPrivilegedResumeTransition (run_state row) StateCancelling = false →
  sprint_of_run sc id (canonical t) = Some (u, srow) →
  pending_of sc u (decisions (canonical t)) = None →
  sp_status srow = SprintProposed ∨ sp_status srow = SprintApproved →
  let sprint := restated (scanSprint u srow None) SprintCancelling None (r_UpdatedAt run') in
  gstep (view sc t)
    (view sc (set_sprints <[u := moved_sprint srow (s_Status sprint) (s_Version sprint)
                                   (s_UpdatedAt sprint)]>
       (set_runs <[id := moved_run row run']> t))).
Proof.
  intros Hok Hstep Hpriv Ho Hpd Hst sprint.
  destruct (sprint_of_run_Some _ _ _ _ _ Ho) as (Hs & Hsc & Hr).
  destruct (view_run_step _ _ _ _ _ Hstep) as (now & Hvr & Hvl).
  unfold view at 2. cbn. rewrite Hvr.
  rewrite (view_sprints_insert _ _ _ _ (decisions (canonical t))) by done. rewrite Hpd.
  apply (g_transition (view sc t)); [done|apply Hstep|done| |].
  - intros sid sp Hsp Hsr. destruct (linked_view t id u srow Hok Ho _ _ Hsp Hsr) as [-> ->].
    cbn. rewrite Hpd. split_and!; [destruct Hst as [->| ->]; discriminate|done|done|].
    rewrite (proj2 (orb_true_iff _ _)).
    + eexists. split; [|done]. by split_and!.
    + destruct Hst; [left|right]; by apply bool_decide_eq_true.
  - intros Hno. pose proof (view_sprint_row sc _ (decisions (canonical t)) u srow Hs Hsc) as Hv.
    by destruct (Hno _ _ Hv).
Qed.

Lemma performed_gstep md t es t1 :
  gov_ok (view sc t) → uuid_keys t → performed st md t es t1 →
  gstep (view sc t) (view sc t1).
Proof.
  intros Hok Hkeys [run p Hdr|u sprint run p q Hu Hnew _ Hst _ _ Hrid Hdr
    |uuid u srow row run' d p q r Hu Hs Hsc Hst Hstep Hnew _ Hdr Hds _ Hdb
    |approve reason did drow u srow row run' p q r Hd Hdsc Hds Hu Heq Hs Hsc Hstep
    |id row target run' q Hstep Hpriv Hlink
    |id row run' u srow u' srow' p q Hstep Hpriv Ho Hpd Hst Hu Hs' Hsc'
    |id row run' q Hstep Hst].
  - by apply create_gstep.
  - by apply plan_gstep.
  - by apply submit_gstep.
  - by apply decide_gstep.
  - by eapply transition_gstep.
  - destruct (sprint_of_run_Some _ _ _ _ _ Ho) as (Hs & Hsc & Hr).
    assert (u' = u) as -> by (rewrite (Hkeys u) in Hu; [congruence|eauto]).
    assert (srow' = srow) as -> by congruence. by apply cancel_gstep.
  - destruct (view_run_step _ _ _ _ _ Hstep) as (now & Hvr & Hvl).
    unfold view at 2. cbn. rewrite Hvr. by apply (g_resume (view sc t)).
Qed.
End refinement.

(** ** Isolation of tenants and repositories *)

Section isolation.
Context `{Clock, Json, !Jsonb, UuidText, !UuidLaws}.
Context `{!JsonCodec Run, !JsonCodec Sprint, !JsonCodec Decision}.
Context (st : PgStore) (sc : Scope) (Hne : sc ≠ store_scope st).

Lemma foreign_run t id row :
  run_scope row = store_scope st →
  (∀ old, runs (canonical t) !! id = Some old → run_scope old = store_scope st) →
  view sc (set_runs <[id := row]> t) = view sc t.
Proof.
  intros Hr Hold. unfold view. cbn. rewrite view_runs_foreign; [done|congruence|].
  intros old Ho. specialize (Hold old Ho). congruence.
Qed.

Lemma foreign_sprint t u row :
  sp_scope row = store_scope st →
  (∀ old, sprints (canonical t) !! u = Some old → sp_scope old = store_scope st) →
  view sc (set_sprints <[u := row]> t) = view sc t.
Proof.
  intros Hr Hold. unfold view. cbn.
  rewrite (view_sprints_foreign _ _ _ _ (decisions (canonical t))); [done|congruence| |done].
  intros old Ho. specialize (Hold old Ho). congruence.
Qed.

Lemma foreign_decision t did row :
  de_scope row = store_scope st →
  (∀ old, decisions (canonical t) !! did = Some old → de_scope old = store_scope st) →
  view sc (set_decisions <[did := row]> t) = view sc t.
Proof.
  intros Hr Hold. unfold view. cbn. rewrite view_decisions_foreign; [|congruence|].
  - f_equal. unfold view_sprints. f_equal. apply map_eq. intros u.
    rewrite !map_lookup_imap. destruct (_ !! u); [|done]. cbn. case_bool_decide; [|done].
    do 2 f_equal. apply pending_rows_insert; [intros []; congruence|].
    intros old Ho [? _]. specialize (Hold old Ho). congruence.
  - intros old Ho. specialize (Hold old Ho). congruence.
Qed.

Lemma performed_foreign md t es t1 : performed st md t es t1 → view sc t1 = view sc t.
Proof.
  destruct 1 as [run p (Hnew & _)|u sprint run p q Hu Hnew _ _ _ _ _ (Hnewr & _)
    |uuid u srow row run' d p q r Hu Hs Hsc _ Hstep Hnew
    |approve reason did drow u srow row run' p q r Hd Hdsc _ _ _ Hs Hsc Hstep
    |id row target run' q Hstep _ _
    |id row run' u srow u' srow' p q Hstep _ _ _ _ _ Hs Hsc
    |id row run' q Hstep _].
  - apply foreign_run; [done|]. congruence.
  - rewrite foreign_run; [|done|cbn; congruence]. apply foreign_sprint; [done|congruence].
  - destruct Hstep. rewrite foreign_decision; [|done|cbn; congruence].
    rewrite foreign_run; [|done|cbn; congruence]. apply foreign_sprint; [done|congruence].
  - destruct Hstep. rewrite foreign_run; [|done|cbn; congruence].
    rewrite foreign_sprint; [|done|cbn; congruence]. apply foreign_decision; [done|congruence].
  - destruct Hstep. apply foreign_run; [done|congruence].
  - destruct Hstep. rewrite foreign_sprint; [|done|cbn; congruence].
    apply foreign_run; [done|congruence].
  - destruct Hstep. apply foreign_run; [done|congruence].
Qed.

(** Events, messages and projector ledgers of the other scope stay as they are. *)
Lemma grown_foreign md es t t' :
  grown st md es t t' →
  filter (λ e, ev_scope e = sc) (events (stream t')) =
    filter (λ e, ev_scope e = sc) (events (stream t)) ∧
  filter (λ o, ob_scope o = sc) (outbox (stream t')) =
    filter (λ o, ob_scope o = sc) (outbox (stream t)) ∧
  ∀ name id, deliveries (stream t') !! ((sc, name), id) = deliveries (stream t) !! ((sc, name), id).
Proof.
  induction 1 as [|e es eventID id available t t' _ _ _ (He & Ho & Hd)]; [done|].
  rewrite He, Ho. cbn [with_stream stream add_event events outbox].
  rewrite !filter_app, !filter_cons_False, !filter_nil, !app_nil_r by (cbn; congruence).
  split_and!; [done..|]. intros name id'. rewrite Hd.
  cbn [with_stream stream add_event deliveries]. unfold fanout_projection_delivery.
  induction (activeProjectors _ _) as [|n l IH]; [done|]. cbn [foldr].
  rewrite lookup_insert_ne; [done|]. cbn. congruence.
Qed.
End isolation.

(** ** Histories of a database *)

Section histories.
Context `{Clock, Database, Sha256, Json, !Jsonb, Entropy, Sequences, UuidText, !UuidLaws}.
Context `{!JsonCodec Run, !JsonCodec Sprint, !JsonCodec Decision, !JsonCodec AuditRecord,
          !JsonCodec PlanResult, !JsonCodec SubmissionResult, !JsonCodec DecisionResult}.

(** Any store performs any operation, whatever comes of it. *)
Definition dbstep (s s' : DB Forja) : Prop := ∃ st op r, perform st op s = (r, s').

(** A database with repositories and nothing in them. *)
Definition unused (t : Forja) : Prop :=
  runs (canonical t) = ∅ ∧ sprints (canonical t) = ∅ ∧ decisions (canonical t) = ∅.

Definition pg_ok (t : Forja) : Prop := uuid_keys t ∧ ∀ sc, gov_ok (view sc t).

Lemma unused_ok t : unused t → pg_ok t.
Proof.
  intros (Hr & Hs & Hd). split.
  - intros u. rewrite Hs, lookup_empty. by intros [? ?].
  - intros sc. unfold view. rewrite Hr, Hs, Hd.
    split; cbn; intros *; rewrite ?lookup_empty; (done || by intros (? & ? & _)%lookup_view_sprints).
Qed.

Lemma performed_uuid_keys st md t es t1 : uuid_keys t → performed st md t es t1 → uuid_keys t1.
Proof.
  intros Hk Hp u.
  assert (∀ v row, uuid_in v = Some v →
    is_Some (<[v := row]> (sprints (canonical t)) !! u) → uuid_in u = Some u) as Hins.
  { intros v row Hv. rewrite lookup_insert. case_decide; [by subst|apply Hk]. }
  destruct Hp as [?|v sprint run p q Hv|uuid v srow row run' d p q r _ Hs
    |approve reason did drow v srow row run' p q r _ _ _ _ _ Hs|?|id row run' v srow v' srow' p q
      _ _ _ _ _ _ Hs|?]; cbn;
    [apply Hk|apply Hins; by eapply uuid_in_canonical
    |apply Hins; apply Hk; eauto|apply Hins; apply Hk; eauto|apply Hk
    |apply Hins; apply Hk; eauto|apply Hk].
Qed.

Lemma executed_canonical st md key row t t' :
  executed st md key row t t' → ∃ es t1, performed st md t es t1 ∧
    (∀ sc, view sc t' = view sc t1) ∧ (uuid_keys t1 → uuid_keys t').
Proof.
  intros (es & es' & t1 & t2 & Hp & _ & [Hc _]%grown_canonical & _ & ->).
  exists es, t1. split; [done|]. unfold view, uuid_keys. cbn. rewrite Hc. done.
Qed.

Lemma effect_step st t t' sc :
  pg_ok t → pg_effect st t t' →
  gstep (view sc t) (view sc t') ∧ (sc ≠ store_scope st → view sc t' = view sc t) ∧ uuid_keys t'.
Proof.
  intros [Hk Hok] [->|md es _ [Hc _]%grown_canonical|md key row Hex].
  - split_and!; [constructor|done..].
  - unfold view, uuid_keys. rewrite Hc. split_and!; [constructor|done..].
  - destruct (executed_canonical _ _ _ _ _ _ Hex) as (es & t1 & Hp & Hv & Hk').
    rewrite Hv. split_and!; [|by intros; eapply performed_foreign|
      by eapply Hk', performed_uuid_keys].
    destruct (decide (sc = store_scope st)) as [->|Hne].
    + by eapply performed_gstep.
    + rewrite (performed_foreign _ _ Hne _ _ _ _ Hp). constructor.
Qed.

Lemma pg_effect_ok st t t' : pg_ok t → pg_effect st t t' → pg_ok t'.
Proof.
  intros Hok Heff. split; [by apply (effect_step st t t' (store_scope st))|].
  intros sc. eapply gstep_ok; [apply Hok|]. by eapply effect_step.
Qed.

Lemma history_ok s s' : pg_ok (tables s) → rtc dbstep s s' → pg_ok (tables s').
Proof.
  apply (rtc_invariant _ (λ s, pg_ok (tables s))).
  intros a b Ha (st & op & r & Hrun%perform_effect). by eapply pg_effect_ok.
Qed.

(** ** Properties *)

(** C2. Every operation of a PostgreSQL store, whether it succeeds, fails or is a
    replay, is at most one step of the governance machine on the rows of any
    tenant and repository, keeps the database consistent, and is no step at all
    for a tenant or repository other than the store's own. *)
Theorem pg_refines_gstep st op s r s' sc :
  pg_ok (tables s) → perform st op s = (r, s') →
  gstep (view sc (tables s)) (view sc (tables s')) ∧ pg_ok (tables s') ∧
  (sc ≠ store_scope st → view sc (tables s') = view sc (tables s)).
Proof.
  intros Hok Heff%perform_effect. destruct (effect_step _ _ _ sc Hok Heff) as (Hg & Hf & _).
  split_and!; [done|by eapply pg_effect_ok|done].
Qed.

(** Isolation: an operation of one store changes nothing that another tenant or
    repository can read: no run, sprint or decision, no event or outbox message,
    no delivery of its projectors, and no receipt of another tenant. *)
Theorem pg_isolation st op s r s' sc :
  perform st op s = (r, s') → sc ≠ store_scope st →
  let t := tables s in let t' := tables s' in
  view sc t' = view sc t ∧
  filter (λ e, ev_scope e = sc) (events (stream t')) =
    filter (λ e, ev_scope e = sc) (events (stream t)) ∧
  filter (λ o, ob_scope o = sc) (outbox (stream t')) =
    filter (λ o, ob_scope o = sc) (outbox (stream t)) ∧
  (∀ name id, deliveries (stream t') !! ((sc, name), id) =
              deliveries (stream t) !! ((sc, name), id)) ∧
  (∀ k, k.1.1 ≠ tenantID st →
     idempotency_keys (canonical t') !! k = idempotency_keys (canonical t) !! k).
Proof.
  intros Heff%perform_effect Hne t t'.
  destruct Heff as [Heq|md es _ Hg|md key row Hex].
  - subst t t'. by rewrite Heq.
  - destruct (grown_foreign st sc Hne _ _ _ _ Hg) as (? & ? & ?).
    apply grown_canonical in Hg as [Hc _]. unfold view. subst t t'. rewrite Hc. done.
  - destruct (executed_canonical _ _ _ _ _ _ Hex) as (es & t1 & Hp & Hv & _).
    split; [subst t t'; rewrite Hv; by eapply performed_foreign|].
    destruct Hex as (es1 & es' & t1' & t2 & Hp' & _ & Hg & _ & Heq).
    destruct (grown_foreign st sc Hne _ _ _ _ Hg) as (He & Ho & Hd).
    assert (stream t1' = stream t ∧
      idempotency_keys (canonical t1') = idempotency_keys (canonical t)) as [Hs Hi].
    { by destruct Hp'. }
    rewrite Hs in He, Ho, Hd. apply grown_canonical in Hg as [Hc _].
    subst t t'. rewrite Heq. cbn. split_and!; [done..|].
    intros k Hk. rewrite Hc, Hi, lookup_insert_ne; [done|]. intros <-. by apply Hk.
Qed.

(** C3. In every state a fresh database can reach, through whatever interleaving of
    operations of whatever stores, a run of a sprint that is queued, executing or
    done has exactly one decision, approved, by a recorded actor. *)
Theorem pg_work_requires_approval s0 s sc sid sp run :
  unused (tables s0) → rtc dbstep s0 s →
  let g := view sc (tables s) in
  g_sprints g !! sid = Some sp → g_runs g !! s_RunID sp = Some run → working (r_State run) →
  ∃ did d actor, g_decisions g !! did = Some d ∧ d_SprintID d = sid ∧
    d_Status d = DecisionApproved ∧ d_DecidedBy d = Some actor ∧
    ∀ did' d', g_decisions g !! did' = Some d' → d_SprintID d' = sid → did' = did.
Proof.
  intros Hun Hreach g Hsp Hrun Hw.
  assert (gov_ok g) as Hok by (apply (history_ok s0 s); [by apply unused_ok|done]).
  destruct (approved_sprint g sid sp run Hok Hsp Hrun Hw) as (did & d & actor & Hd & Hds & ? & ?).
  exists did, d, actor. split_and!; [done..|]. intros did' d' Hd' Hds'.
  eapply (go_single _ Hok); [exact Hd'|exact Hd|congruence].
Qed.

(** A decision that was approved or rejected stays as it is, for ever. *)
Theorem pg_decision_final s s' sc did d :
  pg_ok (tables s) → rtc dbstep s s' →
  g_decisions (view sc (tables s)) !! did = Some d → d_Status d ≠ DecisionPending →
  g_decisions (view sc (tables s')) !! did = Some d.
Proof.
  intros Hok Hs Hd Hnp. revert Hok Hd.
  induction Hs as [|s s1 s' (st & op & r & Heff%perform_effect) _ IH]; [done|]. intros Hok Hd.
  apply IH; [by eapply pg_effect_ok|].
  destruct (effect_step _ _ _ sc Hok Heff) as (Hg & _). by eapply gstep_decided.
Qed.
End histories.

(** ** Witnesses *)

Module Witness.
Import Sample.

#[export] Instance uuid_laws : UuidLaws.
Proof. by intros s u [= ->]. Qed.

Lemma empty_ok : pg_ok (tables s0).
Proof. by apply unused_ok. Qed.

Lemma pg_step1 : dbstep s0 s1.
Proof. exists store, plan. eexists. apply ran. Qed.
Lemma pg_step2 : dbstep s1 s2.
Proof. exists store, submit. eexists. apply ran. Qed.
Lemma pg_step3 : dbstep s2 s3.
Proof. exists store, approve. eexists. apply ran. Qed.
Lemma pg_reach3 : rtc dbstep s0 s3.
Proof. eapply rtc_l; [exact pg_step1|]. eapply rtc_l; [exact pg_step2|]. by eapply rtc_once, pg_step3. Qed.

Lemma pg_refines_gstep_witness :
  gstep (view (store_scope store) (tables s0)) (view (store_scope store) (tables s1)) ∧
  view other (tables s1) = view other (tables s0).
Proof.
  split.
  - apply (pg_refines_gstep store plan s0 (perform store plan s0).1 s1); [exact empty_ok|apply ran].
  - apply (pg_refines_gstep store plan s0 (perform store plan s0).1 s1 other); [exact empty_ok|apply ran|discriminate].
Defined.

Lemma pg_isolation_witness :
  filter (λ e, ev_scope e = other) (events (stream (tables s1))) = [] ∧
  length (events (stream (tables s1))) = 2.
Proof.
  split; [|vm_compute; reflexivity].
  destruct (pg_isolation store plan s0 _ s1 other (ran _ _)) as (_ & He & _); [discriminate|].
  exact He.
Defined.

Lemma pg_work_requires_approval_witness :
  ∃ did d actor, g_decisions (view (store_scope store) (tables s3)) !! did = Some d ∧
    d_SprintID d = sid ∧ d_Status d = DecisionApproved ∧ d_DecidedBy d = Some actor.
Proof.
  edestruct (pg_work_requires_approval s0 s3 (store_scope store) sid)
    as (did & d & actor & Hd & Hs & Hst & Hby & _);
    [done|exact pg_reach3|vm_compute; reflexivity|vm_compute; reflexivity|exact queued_working|].
  exists did, d, actor. exact (conj Hd (conj Hs (conj Hst Hby))).
Defined.

Lemma pg_decision_final_witness :
  let reject := OpCommand (CmdResolve (mkDecideCommand did 2 false "changed my mind")
                             (md "key-0004")) in
  g_decisions (view (store_scope store) (tables (run reject s3))) !! did =
  g_decisions (view (store_scope store) (tables s3)) !! did.
Proof.
  intros reject.
  assert (∃ d, g_decisions (view (store_scope store) (tables s3)) !! did = Some d ∧
    d_Status d = DecisionApproved) as (d & Hd & Hst) by (eexists; split; vm_compute; reflexivity).
  rewrite Hd. apply (pg_decision_final s3); [| |exact Hd|by rewrite Hst].
  - apply (history_ok s0); [exact empty_ok|exact pg_reach3].
  - apply rtc_once. exists store, reject. eexists. apply ran.
Defined.
End Witness.
