(* ===== verification/PgReplay.v ===== *)
(** * Commands of the PostgreSQL repository are applied once

    The receipts of [forja.idempotency_keys]: which receipt a command looks for,
    that receipts are never changed, and what follows for repetitions. *)

From S2P Require Import Prelude GoLib Fault Contracts Identity RunState.
From S2P Require Import ControlMemory Governance ControlRefinement Postgres Leases.
From S2P Require Import PgTables PgEvents PgLogic PgControl PgEffects PgSample PgRefinement.

Section replay.
Context `{Clock, Database, Sha256, Json, !Jsonb, Entropy, Sequences, UuidText}.
Context `{!JsonCodec Run, !JsonCodec Sprint, !JsonCodec Decision, !JsonCodec AuditRecord,
          !JsonCodec PlanResult, !JsonCodec SubmissionResult, !JsonCodec DecisionResult}.
Abbreviation Tx := (M error (DB Forja)).

Definition op_metadata (op : operation) : option CommandMetadata :=
  match op with
  | OpCreateRun _ _ md => Some md
  | OpCommand c => command_metadata c
  end.

(** The scope and the request hash of a command. *)
Definition op_request (st : PgStore) (op : operation) : string * string :=
  match op with
  | OpCreateRun id objective md =>
      ("create_run:" +:+ repositoryID st,
       hashCommand md ["create_run"; repositoryID st; objective])
  | OpCommand (CmdPlan c md) =>
      ("plan_sprint:" +:+ repositoryID st,
       hashCommand md ["plan_sprint"; repositoryID st; pc_Title c; pc_Objective c])
  | OpCommand (CmdSubmit c md) =>
      ("submit_sprint:" +:+ repositoryID st +:+ ":" +:+ sc_SprintID c,
       hashCommand md ["submit_sprint"; sc_SprintID c; pretty (sc_ExpectedVersion c);
         sc_RiskClass c])
  | OpCommand (CmdResolve c md) =>
      ("resolve_decision:" +:+ repositoryID st +:+ ":" +:+ dc_DecisionID c,
       hashCommand md ["resolve_decision"; dc_DecisionID c; pretty (dc_ExpectedVersion c);
         Sprint_bool (dc_Approve c); dc_Reason c])
  | OpCommand (CmdTransition id v target md) =>
      ("transition_run:" +:+ repositoryID st +:+ ":" +:+ id,
       hashCommand md ["transition_run"; id; pretty v; target])
  | OpCommand (CmdResume id v md) =>
      ("resume_run:" +:+ repositoryID st +:+ ":" +:+ id,
       hashCommand md ["resume_run"; id; pretty v])
  | OpCommand (CmdAudit _) => ("", "")
  end.

Definition receipt_key (st : PgStore) (op : operation) (md : CommandMetadata)
    : string * string * string := (tenantID st, (op_request st op).1, IdempotencyKey md).

(** A stored response, read the way the command reads it. *)
Definition decode_reply (op : operation) (j : json) : result reply :=
  match op with
  | OpCommand (CmdPlan _ _) => r ← Decode j; Ok (ReplyPlan r)
  | OpCommand (CmdSubmit _ _) => r ← Decode j; Ok (ReplySubmission r)
  | OpCommand (CmdResolve _ _) => r ← Decode j; Ok (ReplyDecision r)
  | _ => r ← decodeStoredRun j; Ok (ReplyRun r)
  end.

Definition encode_reply (r : reply) : result json :=
  match r with
  | ReplyPlan r => Marshal r
  | ReplySubmission r => Marshal r
  | ReplyDecision r => Marshal r
  | ReplyRun r => Marshal r
  | ReplyDone => Err (ErrorString (Lit "no response"))
  end.

(** The response survives being stored. *)
Definition storable (op : operation) (r : reply) : Prop :=
  ∀ j, encode_reply r = Ok j → decode_reply op j = Ok r.

(** The receipt answers the command with [r]. *)
Definition answers (st : PgStore) (op : operation) (md : CommandMetadata) (r : reply) (t : Forja)
    : Prop :=
  ∃ row, idempotency_keys (canonical t) !! receipt_key st op md = Some row ∧
    rc_hash row = (op_request st op).2 ∧ decode_reply op (rc_body row) = Ok r.

(** Only an audit event was added. *)
Definition audited_only (st : PgStore) (md : CommandMetadata) (t t' : Forja) : Prop :=
  ∃ es, audits es ∧ length es ≤ 1 ∧ grown st md es t t'.

(** A command ends with its receipt answering it; if the receipt was there
    before, that is all that happened, and without a receipt it took effect. *)
Definition settled_by (st : PgStore) (op : operation) (md : CommandMetadata)
    (t : Forja) (r : reply) (t' : Forja) : Prop :=
  (answers st op md r t ∧ audited_only st md t t') ∨
  (∃ status body, encode_reply r = Ok body ∧
     executed st md (receipt_key st op md)
       (mkReceiptRow _ (op_request st op).2 status body) t t').

Lemma outcome_settled {A} `{!JsonCodec A} st op md decode (f : A → reply) t (m : Tx A) :
  (∀ j, decode_reply op j = r ← decode j; Ok (f r)) →
  (∀ a, encode_reply (f a) = Marshal a) →
  wp t m (outcome st md (receipt_key st op md) (op_request st op).2 decode t) →
  wp t (r ← m; mret (f r)) (settled_by st op md t).
Proof.
  intros Hdec Henc Hm. wp_prim. eapply wp_mono; [exact Hm|]. intros a t' Hout. wp_seq.
  destruct Hout as [row es Hrow Hh Hd Haud Hg Hlen|status body Hb Hex].
  - left. split; [|by exists es]. exists row. rewrite Hdec, Hd. done.
  - right. exists status, body. by rewrite Henc.
Qed.

Lemma perform_settled st op md t :
  op_metadata op = Some md → wp t (perform st op) (settled_by st op md t).
Proof.
  destruct op as [id obj md'|[c md'|c md'|c md'|id v target md'|id v md'|record]];
    cbn [op_metadata command_metadata perform]; try discriminate; intros [= ->].
  - eapply outcome_settled; [done|done|apply CreateRun_outcome].
  - eapply outcome_settled; [done|done|apply PlanSprint_outcome].
  - eapply outcome_settled; [done|done|apply SubmitSprint_outcome].
  - eapply outcome_settled; [done|done|apply ResolveDecision_outcome].
  - eapply outcome_settled; [done|done|apply TransitionRun_outcome].
  - eapply outcome_settled; [done|done|apply ResumeRun_outcome].
Qed.

(** ** Receipts are kept *)

Lemma effect_receipts st t t' k row :
  pg_effect st t t' → idempotency_keys (canonical t) !! k = Some row →
  idempotency_keys (canonical t') !! k = Some row.
Proof.
  intros [->|md es _ [-> _]%grown_canonical|md key row' Hex] Hk; [done..|].
  destruct Hex as (es & es' & t1 & t2 & Hp & _ & [Hc _]%grown_canonical & Hnew & ->). cbn.
  rewrite Hc. assert (idempotency_keys (canonical t1) = idempotency_keys (canonical t)) as ->
    by (by destruct Hp).
  rewrite lookup_insert_ne; [done|]. intros <-. congruence.
Qed.

Lemma history_receipts s s' k row :
  rtc dbstep s s' → idempotency_keys (canonical (tables s)) !! k = Some row →
  idempotency_keys (canonical (tables s')) !! k = Some row.
Proof.
  intros Hs. induction Hs as [|s s1 s' (st & op & r & Heff%perform_effect) _ IH]; [done|].
  intros Hk. by eapply IH, effect_receipts.
Qed.

Lemma settled_answers st op md t r t' :
  storable op r → settled_by st op md t r t' → answers st op md r t'.
Proof.
  intros Hst [[(row & Hrow & Hh & Hd) (es & _ & _ & Hg)]|(status & body & Hb & Hex)].
  - exists row. apply grown_canonical in Hg as [-> _]. done.
  - exists (mkReceiptRow _ (op_request st op).2 status body). cbn. split_and!; [|done|by apply Hst].
    destruct Hex as (es & es' & t1 & t2 & _ & _ & _ & _ & ->). cbn. by rewrite lookup_insert_eq.
Qed.

(** ** Properties *)

(** C35. Exactly once: after a command succeeded, and whatever happened since, sending
    it again under its key (with the same request, though perhaps with freshly
    generated identifiers) can only return the first response; it changes no
    aggregate and no receipt, and appends at most one audit event. *)
Theorem pg_exactly_once st op md s r s1 s2 op' r' s3 :
  op_metadata op = Some md → perform st op s = (Ok r, s1) → storable op r →
  rtc dbstep s1 s2 →
  op_metadata op' = Some md → op_request st op' = op_request st op →
  decode_reply op' = decode_reply op → perform st op' s2 = (r', s3) →
  (r' = Ok r ∨ is_ok r' = false) ∧
  canonical (tables s3) = canonical (tables s2) ∧ audited_only st md (tables s2) (tables s3).
Proof.
  intros Hmd Hrun Hst Hs Hmd' Hreq Hdec Hrun'.
  pose proof (wp_run _ _ _ _ _ (perform_settled st op md _ Hmd) Hrun) as Hset.
  destruct (settled_answers _ _ _ _ _ _ Hst Hset) as (row & Hrow & Hh & Hd).
  apply (history_receipts _ _ _ _ Hs) in Hrow.
  assert (receipt_key st op' md = receipt_key st op md) as Hk
    by (unfold receipt_key; by rewrite Hreq).
  destruct (safe_run _ _ _ _ _ (perform_safe st op') (perform_settled st op' md _ Hmd') Hrun')
    as [Heq|(a & -> & [[(row' & Hrow' & _ & Hd') Haud]|(status & body & _ & Hex)])].
  - rewrite Heq. split_and!; [|done|exists []; split_and!; [constructor|cbn; lia|constructor]].
    destruct r' as [a|e]; [|by right]. left.
    destruct (wp_run _ _ _ _ _ (perform_settled st op' md _ Hmd') Hrun')
      as [[(row' & Hrow' & _ & Hd') _]|(status & body & _ & Hex)].
    + rewrite Hk in Hrow'. rewrite Hdec in Hd'. congruence.
    + destruct Hex as (es & es' & t1 & t2 & _ & _ & _ & Hnew & _). congruence.
  - rewrite Hk in Hrow'. rewrite Hdec in Hd'. destruct Haud as (es & Haud & Hlen & Hg).
    split_and!; [left; congruence|by apply grown_canonical in Hg as []|by exists es].
  - destruct Hex as (es & es' & t1 & t2 & _ & _ & _ & Hnew & _). congruence.
Qed.

(** A key protects its request: after a command succeeded, a command with the
    same scope and key but another request hash is always refused, and changes
    nothing. *)
Theorem pg_key_protects st op md s r s1 s2 op' md' r' s3 :
  op_metadata op = Some md → perform st op s = (Ok r, s1) → storable op r →
  rtc dbstep s1 s2 →
  op_metadata op' = Some md' → receipt_key st op' md' = receipt_key st op md →
  (op_request st op').2 ≠ (op_request st op).2 → perform st op' s2 = (r', s3) →
  is_ok r' = false ∧ tables s3 = tables s2.
Proof.
  intros Hmd Hrun Hst Hs Hmd' Hk Hne Hrun'.
  pose proof (wp_run _ _ _ _ _ (perform_settled st op md _ Hmd) Hrun) as Hset.
  destruct (settled_answers _ _ _ _ _ _ Hst Hset) as (row & Hrow & Hh & _).
  apply (history_receipts _ _ _ _ Hs) in Hrow.
  destruct r' as [a|e]; [|split; [done|by eapply perform_safe]].
  destruct (wp_run _ _ _ _ _ (perform_settled st op' md' _ Hmd') Hrun')
    as [[(row' & Hrow' & Hh' & _) _]|(status & body & _ & Hex)].
  - rewrite Hk in Hrow'. congruence.
  - destruct Hex as (es & es' & t1 & t2 & _ & _ & _ & Hnew & _). congruence.
Qed.
End replay.

(** ** Witnesses *)

Module ReplayWitness.
Import Sample Witness.

(** The repetition of [plan] brings other identifiers. *)
Definition again : operation :=
  OpCommand (CmdPlan (mkPlanCommand "sprint_ffffffff-0405-4607-8809-0a0b0c0d0e0f"
    "run_ffffffff-0405-4607-8809-0a0b0c0d0e0f" "title" "objective") (md "key-0001")).
(** Another request under the same key. *)
Definition clash : operation :=
  OpCommand (CmdPlan (mkPlanCommand "sprint_ffffffff-0405-4607-8809-0a0b0c0d0e0f"
    "run_ffffffff-0405-4607-8809-0a0b0c0d0e0f" "title" "another objective") (md "key-0001")).

Lemma receipt_planned : ∃ r, perform store plan s0 = (Ok (ReplyPlan r), s1).
Proof. eexists. vm_compute. reflexivity. Qed.

Lemma pg_exactly_once_witness :
  canonical (tables (run again s2)) = canonical (tables s2) ∧
  (perform store again s2).1 = (perform store plan s0).1.
Proof.
  destruct receipt_planned as [r Hr].
  destruct (pg_exactly_once store plan (md "key-0001") s0 (ReplyPlan r) s1 s2 again
    (perform store again s2).1 (run again s2)) as (Hres & Hc & _);
    [reflexivity|exact Hr|by intros j [= <-]|by eapply rtc_once, pg_step2|reflexivity..|apply ran|].
  split; [exact Hc|]. rewrite Hr. destruct Hres as [->|Hres]; [done|].
  vm_compute in Hres. discriminate Hres.
Defined.

Lemma pg_key_protects_witness :
  is_ok (perform store clash s2).1 = false ∧ tables (run clash s2) = tables s2.
Proof.
  destruct receipt_planned as [r Hr].
  apply (pg_key_protects store plan (md "key-0001") s0 (ReplyPlan r) s1 s2 clash (md "key-0001"));
    [reflexivity|exact Hr|by intros j [= <-]|by eapply rtc_once, pg_step2|reflexivity|reflexivity
    |discriminate|apply ran].
Defined.
End ReplayWitness.
