(* ===== verification/PgStreams.v ===== *)
(** * The event stream and the canonical state agree

    For every run the events of its aggregate are its history: they start with
    its creation, their versions are contiguous, every step is an allowed
    transition and the last payload is the stored row. Every event has exactly
    one outbox message, in the same order. *)

From S2P Require Import Prelude GoLib Fault Contracts Identity RunState.
From S2P Require Import ControlMemory Governance ControlRefinement Postgres Leases.
From S2P Require Import PgTables PgEvents PgLogic PgControl PgEffects PgSample PgRefinement.

(** [encoding/json] on a run whose texts are valid and whose times are in UTC. *)
Class RunCodecLaws `{Json} `{!JsonCodec Run} :=
  run_roundtrip : ∀ run j,
    forallb pg_text [r_RunID run; r_SchemaVersion run; r_Objective run; r_State run] = true →
    zone_offset (r_CreatedAt run) = 0%Z → zone_offset (r_UpdatedAt run) = 0%Z →
    Marshal run = Ok j → Decode j = Ok run.

(** The clock is past the first microsecond of year 1. *)
Class ClockStarted `{Clock} :=
  clock_started : ∀ n, (instant zero_time + Microsecond ≤ instant (clock_reading n))%Z.

Section histories.
Context `{Json} `{!JsonCodec Run}.

Definition run_events (sc : Scope) (id : RunID) (l : list EventRow) : list EventRow :=
  filter (λ e, ev_scope e = sc ∧ ev_aggregate e = id)
    (filter (λ e, ev_aggregate_type e = "run") l).

(** The events of one run, and the run they lead to. *)
Inductive run_history (id : RunID) : list EventRow → Run → Prop :=
| rh_created e run :
    decodeStoredRun (ev_payload e) = Ok run → r_RunID run = id →
    ev_type e = "run.created" → ev_version e = 1%Z → r_Version run = 1%Z →
    r_State run = StateDraft → r_CreatedAt run = r_UpdatedAt run →
    timestamptz (ev_occurred e) = r_UpdatedAt run →
    run_history id [e] run
| rh_moved es run e run' :
    run_history id es run →
    decodeStoredRun (ev_payload e) = Ok run' → r_RunID run' = id →
    ev_type e = "run.transitioned" → ev_version e = r_Version run' →
    r_Version run' = (r_Version run + 1)%Z → r_Objective run' = r_Objective run →
    r_CreatedAt run' = r_CreatedAt run →
    (instant (r_UpdatedAt run) ≤ instant (r_UpdatedAt run'))%Z →
    CanTransition (r_State run) (r_State run') = true →
    timestamptz (ev_occurred e) = r_UpdatedAt run' →
    run_history id (es ++ [e]) run'.

(** What a stored run has to satisfy to be read back. *)
Record valid_run (run : Run) : Prop := {
  vr_id : match_classes runIDPattern (r_RunID run) = true;
  vr_schema : r_SchemaVersion run = "1.0";
  vr_objective : runes_outside 3 8000 (r_Objective run) = false;
  vr_state : ∃ p, phase_state p = r_State run;
  vr_version : (1 ≤ r_Version run ≤ 2 ^ 31 - 1)%Z;
  vr_created : ValidTimestamp (r_CreatedAt run) = true;
  vr_updated : ValidTimestamp (r_UpdatedAt run) = true;
  vr_order : Before (r_UpdatedAt run) (r_CreatedAt run) = false;
  vr_texts : pg_text (r_RunID run) = true ∧ pg_text (r_Objective run) = true;
}.

Lemma phase_text p : pg_text (phase_state p) = true.
Proof. by destruct p. Qed.

Lemma decode_valid `{!RunCodecLaws} run j :
  valid_run run → Marshal run = Ok j → decodeStoredRun j = Ok run.
Proof.
  intros [Hid Hsch Hobj [p Hp] Hv Hc Hu Ho [Ht1 Ht2]] Hm. unfold decodeStoredRun.
  unfold ValidTimestamp in Hc, Hu. bool_prop. destruct Hc as [Hc1 Hc2], Hu as [Hu1 Hu2].
  rewrite (run_roundtrip run j); [|cbn; rewrite Ht1, Ht2, Hsch, <-Hp, phase_text; done|done..].
  cbn [mbind res_bind]. unfold ParseRunID, validateObjective. rewrite Hid. cbn.
  rewrite bool_decide_eq_true_2 by done. cbn. rewrite Hobj. cbn.
  rewrite <-Hp, ParseState_phase. cbn. unfold ValidTimestamp. rewrite Hc1, Hc2, Hu1, Hu2, Ho.
  cbn. rewrite !orb_false_r. destruct (r_Version run <? 1)%Z eqn:Hlt; [|done]. bool_prop. lia.
Qed.
End histories.

(** ** The rows that commands write *)

Section writes.
Context `{Clock, Database, Sha256, Json, !Jsonb, Entropy, Sequences, UuidText}.
Context `{!JsonCodec Run, !JsonCodec Sprint, !JsonCodec Decision}.

(** A command writes one run and emits one run event. *)
Inductive run_write (st : PgStore) (t : Forja) : Emission → RunID → RunRow → Prop :=
| rw_created run u p :
    drafted t run → run_check (r_RunID run) (new_run st u run) = false → Marshal run = Ok p →
    run_write st t (run_emission "run.created" run p) (r_RunID run) (new_run st u run)
| rw_moved id row target run' p :
    run_step st t id row target run' → Marshal run' = Ok p →
    run_write st t (run_emission "run.transitioned" run' p) id (moved_run row run').

Lemma performed_run_write st md t es t1 :
  performed st md t es t1 → ∃ e id row,
    run_write st t e id row ∧ filter (λ e, em_aggregate_type e = "run") es = [e] ∧
    runs (canonical t1) = <[id := row]> (runs (canonical t)) ∧ stream t1 = stream t ∧
    work t1 = work t ∧ repositories (canonical t1) = repositories (canonical t).
Proof.
  destruct 1; eexists _, _, _; (split; [first [by eapply rw_created | by eapply rw_moved]|]);
    split_and!; try reflexivity.
Qed.

Lemma run_write_scope st t e id row : run_write st t e id row → run_scope row = store_scope st.
Proof. destruct 1 as [|? ? ? ? ? []]; done. Qed.

Lemma scan_new st u t run : drafted t run → scanRun (r_RunID run) (new_run st u run) = run.
Proof.
  intros (_ & Hsch & _ & _ & [n Hc] & Hu & _). destruct run. cbn in *. subst.
  unfold scanRun. cbn. by rewrite !(timestamptz_idem (clock_reading n)).
Qed.

Lemma scan_step st t id row target run' :
  run_step st t id row target run' → scanRun id (moved_run row run') = run'.
Proof.
  intros [_ _ _ [n ->] _ _]. unfold scanRun, stamped, moved_run, advance. cbn. f_equal.
  apply timestamptz_idem.
Qed.
End writes.

Section validity.
Context `{Clock, !ClockStarted, Json, !Jsonb, UuidText}.
Context `{!JsonCodec Run, !JsonCodec Sprint, !JsonCodec Decision}.

Lemma timestamptz_late t :
  (instant zero_time + Microsecond ≤ instant t)%Z → ValidTimestamp (timestamptz t) = true.
Proof.
  intros Hlate. unfold ValidTimestamp, timestamptz, IsZero.
  assert (instant zero_time + Microsecond ≤ instant (Truncate (UTC t) Microsecond))%Z as Hl.
  { rewrite Truncate_floor by done. cbn [UTC instant].
    pose proof (Z.div_le_lower_bound (instant t - instant zero_time) Microsecond 1).
    unfold Microsecond in *. lia. }
  rewrite (proj2 (Z.eqb_neq _ _)); [done|]. unfold Microsecond in *. lia.
Qed.

Lemma new_valid st u t run :
  drafted t run → run_check (r_RunID run) (new_run st u run) = false → valid_run run.
Proof.
  intros (_ & Hsch & Hst & Hv & [n Hc] & Hu & Ht1 & Ht2) Hchk. unfold run_check in Hchk.
  cbn in Hchk. bool_prop. destruct Hchk as [[[Hid Hobj] _] Hord].
  assert (ValidTimestamp (r_CreatedAt run) = true) as Hval
    by (rewrite Hc; apply timestamptz_late, clock_started).
  split; try done.
  - rewrite Hst. by exists Draft.
  - rewrite Hv. lia.
  - by rewrite Hu.
Qed.

(** The time of a change: not before the clock, not before the last change. *)
Lemma step_time st t id row target run' :
  run_step st t id row target run' →
  ValidTimestamp (r_UpdatedAt run') = true ∧
  (instant (timestamptz (run_updated row)) ≤ instant (r_UpdatedAt run'))%Z ∧
  timestamptz (r_UpdatedAt run') = r_UpdatedAt run'.
Proof.
  intros [_ _ _ [n ->] _ _]. cbn [stamped advance r_UpdatedAt scanRun].
  change (postgresTimestamp ?x) with (timestamptz x).
  pose proof (clock_started n) as Hcl. split_and!; [| |apply timestamptz_idem].
  - apply timestamptz_late. unfold Before. destruct (_ <? _)%Z eqn:Hlt; bool_prop; lia.
  - rewrite <-(timestamptz_idem (run_updated row)) at 1. apply timestamptz_mono.
    unfold Before. destruct (_ <? _)%Z eqn:Hlt; bool_prop; lia.
Qed.

Lemma run_step_version st t id row target run' :
  run_step st t id row target run' → (1 ≤ run_version row ≤ 2 ^ 31 - 1)%Z →
  r_Version run' = (run_version row + 1)%Z.
Proof.
  intros [_ _ _ [n ->] _ _] Hv. cbn [stamped advance r_Version scanRun].
  apply incr_lt. unfold int_max. lia.
Qed.

Lemma step_valid st t id row target run' :
  run_step st t id row target run' → valid_run (scanRun id row) → valid_run run'.
Proof.
  intros Hstep [Hid Hsch Hobj [p Hp] Hv Hc Hu Ho [Ht1 Ht2]].
  destruct (step_time _ _ _ _ _ _ Hstep) as (Hval & Hle & _).
  pose proof (run_step_version _ _ _ _ _ _ Hstep Hv) as Hver.
  destruct Hstep as [Hrow Hsc Hct [n ->] Hchk Hmax]. cbn in *. split; cbn; try done.
  - destruct (CanTransition_phases _ _ Hct) as (_ & q & _ & Hq). by exists q.
  - lia.
  - unfold Before in *. bool_prop. cbn in *. lia.
Qed.

Lemma new_history `{!RunCodecLaws} st md u t run p eventID :
  drafted t run → run_check (r_RunID run) (new_run st u run) = false → Marshal run = Ok p →
  run_history (r_RunID run)
    [event_row st md (run_emission "run.created" run p) eventID] run.
Proof.
  intros Hdr Hchk Hm. pose proof (new_valid st u t run Hdr Hchk) as Hval.
  destruct Hdr as (_ & _ & Hst & Hv & [n Hc] & Hu & _).
  apply rh_created; try done; cbn.
  - by apply decode_valid.
  - rewrite Hu, Hc. apply timestamptz_idem.
Qed.

Lemma step_history `{!RunCodecLaws} st md t id row target run' p es eventID :
  run_step st t id row target run' → valid_run (scanRun id row) → Marshal run' = Ok p →
  run_history id es (scanRun id row) →
  run_history id (es ++ [event_row st md (run_emission "run.transitioned" run' p) eventID]) run'.
Proof.
  intros Hstep Hval Hm Hes. pose proof (step_valid _ _ _ _ _ _ Hstep Hval) as Hval'.
  destruct (step_time _ _ _ _ _ _ Hstep) as (_ & Hle & Hocc).
  pose proof (run_step_version _ _ _ _ _ _ Hstep (vr_version _ Hval)) as Hver.
  pose proof Hstep as [_ _ Hct [n Heq] _ _].
  eapply rh_moved; [exact Hes|by apply decode_valid|by rewrite Heq|done|done|done
    |by rewrite Heq|by rewrite Heq|done|by rewrite Heq|exact Hocc].
Qed.
End validity.

(** ** Event identifiers are texts *)

Lemma ascii_text s :
  forallb (in_range 1 0x7F) (String.list_ascii_of_string s) = true → pg_text s = true.
Proof.
  unfold pg_text, ValidString. induction s as [|c s IH]; [done|]. cbn [String.list_ascii_of_string forallb].
  intros [Hc Hs]%andb_true_iff. apply IH in Hs. apply andb_true_iff in Hs as [Hn Hv].
  apply andb_true_iff. split.
  - apply nul_free_cons. split; [|done]. intros ->. discriminate Hc.
  - assert (in_range 0 0x7F c = true ∧ pred (rune_width (String c s)) = 0) as [H1 H2].
    { destruct c as [[] [] [] [] [] [] [] []]; try discriminate Hc; split; reflexivity. }
    cbn [valid_runes]. by rewrite H1, H2.
Qed.

Lemma word_byte_ascii c : word_byte c = true → in_range 1 0x7F c = true.
Proof. destruct c as [[] [] [] [] [] [] [] []]; (reflexivity || discriminate). Qed.

Lemma list_ascii_app a b :
  String.list_ascii_of_string (a +:+ b) =
  String.list_ascii_of_string a ++ String.list_ascii_of_string b.
Proof. induction a; [done|]. rewrite string_app_cons. cbn. by f_equal. Qed.

Lemma prefixed_word_text s : prefixed_word "event" s = true → pg_text s = true.
Proof.
  unfold prefixed_word. destruct (strip_prefix _ s) as [r|] eqn:Hs; [|done].
  apply strip_prefix_Some in Hs as ->. intros [_ Hr]%andb_true_iff. apply ascii_text.
  rewrite list_ascii_app, forallb_app. apply andb_true_iff. split; [reflexivity|].
  rewrite forallb_forall in *. intros c Hc. by apply word_byte_ascii, Hr.
Qed.

(** ** The invariant *)

Section invariant.
Context `{Clock, !ClockStarted, Json, !Jsonb, UuidText}.
Context `{!JsonCodec Run, !JsonCodec Sprint, !JsonCodec Decision}.

(** Every event has its message; identities are unique and messages ordered. *)
Record messages_ok (x : Stream) : Prop := {
  mo_pairs : (λ o, (ob_scope o, ob_event o)) <$> outbox x =
             (λ e, (ev_scope e, ev_id e)) <$> events x;
  mo_events : NoDup (ev_id <$> events x);
  mo_texts : Forall (λ e, pg_text (ev_id e) = true) (events x);
  mo_sorted : StronglySorted Z.lt (ob_id <$> outbox x);
  mo_bounds : Forall (λ o, 0 < ob_id o ≤ outbox_last x)%Z (outbox x) ∧
              (0 ≤ outbox_last x ≤ int_max)%Z;
}.

Record stream_ok (t : Forja) : Prop := {
  so_rows : ∀ id row, runs (canonical t) !! id = Some row → valid_run (scanRun id row);
  so_runs : ∀ sc id,
    match in_scope run_scope sc (runs (canonical t) !! id) with
    | Some row => run_history id (run_events sc id (events (stream t))) (scanRun id row)
    | None => run_events sc id (events (stream t)) = []
    end;
  so_messages : messages_ok (stream t);
}.

Lemma add_event_messages row id available t :
  event_insert_fault row t = None → (outbox_last (stream t) < id ≤ int_max)%Z →
  messages_ok (stream t) → messages_ok (add_event row id available (stream t)).
Proof.
  intros Hf Hid [Hpairs Hev Htext Hsort [Hb Hlast]]. unfold event_insert_fault in Hf. constraints.
  rename select (event_check _ = false) into Hchk.
  assert (pg_text (ev_id row) = true) as Hword.
  { apply prefixed_word_text. unfold event_check in Hchk. bool_prop. by destruct_and!. }
  rename select (existsb _ _ = false) into Hex.
  assert (ev_id row ∉ (ev_id <$> events (stream t))) as Hnew.
  { intros (e & Heq & Hin)%list_elem_of_fmap. apply not_true_iff_false in Hex. apply Hex.
    apply existsb_exists. exists e. split; [by apply list_elem_of_In|].
    by rewrite (bool_decide_eq_true_2 (ev_id e = ev_id row)) by done. }
  split; cbn.
  - by rewrite !fmap_app, Hpairs.
  - rewrite fmap_app. apply NoDup_app. split_and!; [done| |apply NoDup_singleton].
    intros x Hx ->%list_elem_of_singleton. by apply Hnew.
  - apply Forall_app. split; [done|]. by constructor.
  - rewrite fmap_app. apply StronglySorted_app. split_and!; [|done|by repeat constructor].
    intros x y (o & -> & Ho)%list_elem_of_fmap ->%list_elem_of_singleton.
    rewrite Forall_forall in Hb. specialize (Hb o). cbn in *. apply Hb in Ho. lia.
  - split; [|lia]. apply Forall_app. split.
    + eapply Forall_impl; [exact Hb|]. cbn. lia.
    + constructor; [cbn; lia|constructor].
Qed.

Lemma grown_messages st md es t t' :
  grown st md es t t' → messages_ok (stream t) → messages_ok (stream t').
Proof.
  induction 1 as [|e es eventID id available t t' Hf Hid _ IH]; [done|].
  intros Hm. by apply IH, add_event_messages.
Qed.

(** The run events among the appended ones. *)
Lemma grown_run_events st md es t t' l :
  grown st md es t t' → filter (λ e, em_aggregate_type e = "run") es = l →
  ∃ ids, length ids = length l ∧
    filter (λ e, ev_aggregate_type e = "run") (events (stream t')) =
    filter (λ e, ev_aggregate_type e = "run") (events (stream t)) ++
    zip_with (event_row st md) l ids.
Proof.
  intros Hg <-.
  induction Hg as [|e es eventID id available t t' _ _ _ (ids & Hlen & IH)].
  - exists []. cbn. by rewrite app_nil_r.
  - rewrite IH. cbn [with_stream stream add_event events]. rewrite filter_app.
    destruct (decide (em_aggregate_type e = "run")) as [He|He].
    + exists (eventID :: ids). rewrite !filter_cons_True by done. cbn. rewrite Hlen.
      by rewrite <-app_assoc.
    + exists ids. rewrite !filter_cons_False by done. split; [done|]. cbn.
      by rewrite app_nil_r.
Qed.

Lemma run_events_snoc st md sc id l e eventID :
  filter (λ e, ev_scope e = sc ∧ ev_aggregate e = id) (l ++ [event_row st md e eventID]) =
  filter (λ e, ev_scope e = sc ∧ ev_aggregate e = id) l ++
  (if decide (store_scope st = sc ∧ em_aggregate e = id)
   then [event_row st md e eventID] else []).
Proof.
  by rewrite filter_app.
Qed.

Lemma audits_no_run es : audits es → filter (λ e, em_aggregate_type e = "run") es = [].
Proof.
  induction 1 as [|e es He _ IH]; [done|]. rewrite filter_cons_False; [done|].
  rewrite He. discriminate.
Qed.

(** Writing a run and its event keeps the histories. *)
Lemma write_runs `{!RunCodecLaws} st md t e id row eventID sc id' :
  stream_ok t → run_write st t e id row →
  match in_scope run_scope sc (<[id := row]> (runs (canonical t)) !! id') with
  | Some row' => run_history id'
      (filter (λ e, ev_scope e = sc ∧ ev_aggregate e = id')
         (filter (λ e, ev_aggregate_type e = "run") (events (stream t)) ++
          [event_row st md e eventID])) (scanRun id' row')
  | None => filter (λ e, ev_scope e = sc ∧ ev_aggregate e = id')
         (filter (λ e, ev_aggregate_type e = "run") (events (stream t)) ++
          [event_row st md e eventID]) = []
  end.
Proof.
  intros [Hrows Hruns _] Hw. pose proof (run_write_scope _ _ _ _ _ Hw) as Hsc.
  rewrite run_events_snoc. specialize (Hruns sc id'). unfold run_events in Hruns.
  assert (em_aggregate e = id) as Hagg by (by destruct Hw as [|? ? ? ? ? [_ _ _ [n ->] _ _]]).
  rewrite Hagg, lookup_insert. case_decide as Hid; cycle 1.
  { rewrite decide_False by naive_solver. by rewrite app_nil_r. }
  subst id'. cbn. case_bool_decide as Hs; cycle 1.
  { rewrite decide_False by naive_solver. rewrite app_nil_r.
    assert (in_scope run_scope sc (runs (canonical t) !! id) = None) as Hn; [|by rewrite Hn in Hruns].
    destruct Hw as [run u p (Hnew & _)|id row target run' p [Hrow Hrsc _ _ _ _]].
    - by rewrite Hnew.
    - rewrite Hrow. cbn. by rewrite bool_decide_eq_false_2 by congruence. }
  rewrite decide_True by (split; congruence).
  destruct Hw as [run u p Hdr Hchk Hm|id row target run' p Hstep Hm].
  - rewrite (scan_new st u t run Hdr). destruct (Hdr) as (Hnew & _). rewrite Hnew in Hruns.
    cbn in Hruns. rewrite Hruns. by eapply new_history.
  - rewrite (scan_step _ _ _ _ _ _ Hstep). pose proof (rs_row _ _ _ _ _ _ Hstep) as Hrow.
    rewrite Hrow in Hruns. cbn in Hruns.
    rewrite bool_decide_eq_true_2 in Hruns by (rewrite (rs_scope _ _ _ _ _ _ Hstep); congruence).
    eapply step_history; [done|by apply Hrows|done|done].
Qed.

Lemma write_rows st t e id row id' row' :
  stream_ok t → run_write st t e id row →
  <[id := row]> (runs (canonical t)) !! id' = Some row' → valid_run (scanRun id' row').
Proof.
  intros [Hrows _ _] Hw. rewrite lookup_insert. case_decide as Hid; [|by apply Hrows].
  subst id'. intros [= <-]. destruct Hw as [run u p Hdr Hchk Hm|id row target run' p Hstep Hm].
  - rewrite (scan_new st u t run Hdr). by eapply new_valid.
  - rewrite (scan_step _ _ _ _ _ _ Hstep). eapply step_valid; [done|]. apply Hrows, Hstep.
Qed.

Lemma effect_stream_ok `{!RunCodecLaws} st t t' :
  stream_ok t → pg_effect st t t' → stream_ok t'.
Proof.
  intros Hok [->|md es Haud Hg|md key row Hex]; [done| |].
  - destruct (grown_run_events _ _ _ _ _ [] Hg (audits_no_run _ Haud)) as (ids & _ & Hev).
    rewrite app_nil_r in Hev. destruct (grown_canonical _ _ _ _ _ Hg) as [Hc _].
    destruct Hok as [Hrows Hruns Hm]. split; [by rewrite Hc| |by eapply grown_messages].
    intros sc id. unfold run_events. rewrite Hc, Hev. apply Hruns.
  - destruct Hex as (es & es' & t1 & t2 & Hp & Haud & Hg & _ & ->).
    destruct (performed_run_write _ _ _ _ _ Hp) as (e & id & row' & Hw & Hes & Hrs & Hst & _).
    destruct (grown_run_events _ _ _ _ _ [e] Hg) as (ids & Hlen & Hev).
    { rewrite filter_app, Hes, audits_no_run by done. done. }
    destruct ids as [|eventID [|]]; try done. cbn in Hev. rewrite Hst in Hev.
    destruct (grown_canonical _ _ _ _ _ Hg) as [Hc _].
    split; cbn.
    + rewrite Hc, Hrs. intros id' row''. by eapply write_rows.
    + intros sc id'. unfold run_events. rewrite Hc, Hrs, Hev. by apply write_runs.
    + eapply grown_messages; [exact Hg|]. rewrite Hst. apply Hok.
Qed.
End invariant.
