(* ===== verification/Queue.v ===== *)
(** * Package [internal/postgres]: leased message queues

    [outbox.go] and [projection_deliveries.go] run the same protocol over two
    tables: rows are claimed for a bounded time under a growing fencing token,
    and only the exact live claim may publish, reschedule or bury a row. The
    protocol is stated once, over a [Queue]: a view of the table as a map from
    outbox identities to delivery states, with what the two tables differ in. *)

From S2P Require Import Prelude GoLib Fault Contracts Identity RunState.
From S2P Require Import ControlMemory Postgres Leases PgTables PgEvents PgLogic PgEffects.
From Stdlib Require Import Ascii.

(** ** Error texts *)

(** The encoding of U+FFFD. *)
Definition RuneError : string := string_of (chr <$> [0xEF; 0xBF; 0xBD]%N).

(** [string([]rune(s)[:n])] for [n] at most the number of runes: an invalid byte
    becomes U+FFFD. [skip] bytes belong to the rune already copied. *)
Fixpoint take_runes (n skip : nat) (s : string) : string :=
  match s with
  | "" => ""
  | String c s' =>
      match skip with
      | S k => String c (take_runes n k s')
      | 0 =>
          match n with
          | 0 => ""
          | S n' =>
              if in_range 0x80 0xFF c && Nat.eqb (rune_width s) 1
              then RuneError +:+ take_runes n' 0 s'
              else String c (take_runes n' (pred (rune_width s)) s')
          end
      end
  end.

(** An [error] as the queue sees it: its dynamic type ([%T]) and its text. *)
Record Cause := mkCause { cause_type : string; cause_text : string }.

Definition truncateError (err : Cause) : string :=
  if (RuneCountInString (cause_text err) <=? 4000)%Z then cause_text err
  else take_runes 4000 0 (cause_text err).

(** The first [k] bytes of both texts are the same. *)
Fixpoint same_bytes (k : nat) (s t : string) : Prop :=
  match k, s, t with
  | 0, _, _ => True
  | S k', String c s', String d t' => c = d ∧ same_bytes k' s' t'
  | S _, _, _ => False
  end.

Ltac split_width H :=
  repeat match type of H with
  | context [if ?b then _ else _] => destruct b eqn:?; cbn in H; try discriminate H
  | context [match ?t with "" => _ | String _ _ => _ end] => destruct t; cbn in H; try discriminate H
  end.

(** A multi-byte rune is determined by its own bytes. *)
Lemma rune_width_same c s t w :
  rune_width (String c s) = S (S w) → same_bytes (S w) s t → rune_width (String c t) = S (S w).
Proof.
  unfold rune_width. intros Hw Hs.
  repeat (destruct (in_range _ _ c);
    [split_width Hw; injection Hw as <-; destruct t as [|? [|? [|? ?]]]; cbn in Hs;
     try tauto; destruct_and!; subst; cbn; rewrite ?Heqb; congruence|]).
  discriminate Hw.
Qed.

Lemma rune_width_ascii c s : in_range 0 0x7F c = true → rune_width (String c s) = 1.
Proof. by destruct c as [[] [] [] [] [] [] [] []]. Qed.

Lemma not_high_ascii c : in_range 0x80 0xFF c = false → in_range 0 0x7F c = true.
Proof. by destruct c as [[] [] [] [] [] [] [] []]. Qed.

Lemma rune_width_pos c s : ∃ w, rune_width (String c s) = S w.
Proof.
  destruct (rune_width (String c s)) eqn:Hw; [|by eexists]. exfalso. unfold rune_width in Hw.
  split_width Hw.
Qed.

#[local] Arguments rune_width : simpl never.

Lemma rune_width_length c s : pred (rune_width (String c s)) ≤ String.length s.
Proof.
  destruct (rune_width (String c s)) as [|[|w]] eqn:Hw; [cbn; lia..|]. unfold rune_width in Hw.
  split_width Hw; injection Hw as <-; cbn; lia.
Qed.

Lemma take_runes_same n k s : k ≤ String.length s → same_bytes k s (take_runes n k s).
Proof.
  revert n k. induction s as [|c s IH]; intros n [|k] Hk; cbn in *; try done; [lia|].
  split; [done|]. apply IH. lia.
Qed.

(** A copied rune is decoded as the rune it was. *)
Lemma take_runes_width n c s :
  in_range 0x80 0xFF c && Nat.eqb (rune_width (String c s)) 1 = false →
  rune_width (String c (take_runes n (pred (rune_width (String c s))) s)) =
  rune_width (String c s).
Proof.
  intros Hvalid. pose proof (rune_width_length c s) as Hlen.
  destruct (rune_width_pos c s) as [[|w] Hw]; rewrite Hw in *; cbn [pred] in *.
  - apply rune_width_ascii, not_high_ascii. by rewrite andb_true_r in Hvalid.
  - eapply rune_width_same; [exact Hw|]. by apply take_runes_same.
Qed.

Lemma take_runes_count n k s : count_runes k (take_runes n k s) ≤ n.
Proof.
  revert n k. induction s as [|c s IH]; intros n k; [cbn; lia|]. destruct k as [|k]; [|apply IH].
  destruct n as [|n]; [cbn; lia|]. cbn [take_runes]. destruct (_ && _) eqn:Hinv.
  - change (S (count_runes 0 (take_runes n 0 s)) ≤ S n). specialize (IH n 0). lia.
  - cbn [count_runes]. rewrite take_runes_width by done. specialize (IH n (pred (rune_width (String c s)))).
    lia.
Qed.

Lemma take_runes_valid n k s : valid_runes k (take_runes n k s) = true.
Proof.
  revert n k. induction s as [|c s IH]; intros n k; [done|]. destruct k as [|k]; [|apply IH].
  destruct n as [|n]; [done|]. cbn [take_runes]. destruct (_ && _) eqn:Hinv.
  - change (valid_runes 0 (take_runes n 0 s) = true). apply IH.
  - cbn [valid_runes]. rewrite take_runes_width by done. rewrite IH, andb_true_r.
    destruct (in_range 0x80 0xFF c) eqn:Hc.
    + cbn in Hinv. by rewrite Hinv, orb_true_r.
    + by rewrite not_high_ascii.
Qed.

(** A text of at most [n] runes that is valid is not changed. *)
Lemma take_runes_id n k s :
  count_runes k s ≤ n → valid_runes k s = true → take_runes n k s = s.
Proof.
  revert n k. induction s as [|c s IH]; intros n k; [done|]. destruct k as [|k].
  - cbn [count_runes valid_runes take_runes]. destruct n as [|n]; [lia|]. intros Hc [Hv Hs]%andb_true_iff.
    destruct (_ && _) eqn:Hinv; [|f_equal; apply IH; [lia|done]].
    apply andb_true_iff in Hinv as [Hhigh Hone]. rewrite Hone, orb_false_r in Hv.
    by destruct c as [[] [] [] [] [] [] [] []].
  - cbn [count_runes valid_runes take_runes]. intros. f_equal. by apply IH.
Qed.

Lemma take_runes_length n k s : count_runes k (take_runes n k s) = Nat.min n (count_runes k s).
Proof.
  revert n k. induction s as [|c s IH]; intros n k; [by destruct n|]. destruct k as [|k]; [|apply IH].
  destruct n as [|n]; [done|]. cbn [take_runes]. destruct (_ && _) eqn:Hinv.
  - change (S (count_runes 0 (take_runes n 0 s)) = Nat.min (S n) (S (count_runes (pred (rune_width (String c s))) s))).
    apply andb_true_iff in Hinv as [_ ->%Nat.eqb_eq]. by rewrite IH.
  - cbn [count_runes]. rewrite take_runes_width, IH by done. done.
Qed.

(** Of a valid text, whole runes are kept from the front. *)
Lemma take_runes_prefix n k s :
  valid_runes k s = true → ∃ rest, s = take_runes n k s +:+ rest.
Proof.
  revert n k. induction s as [|c s IH]; intros n k Hv; [by exists ""|]. destruct k as [|k].
  - destruct n as [|n]; [by exists (String c s)|]. cbn [valid_runes take_runes] in *.
    apply andb_true_iff in Hv as [Hc Hs]. destruct (_ && _) eqn:Hinv.
    + apply andb_true_iff in Hinv as [Hhigh Hone]. rewrite Hone, orb_false_r in Hc.
      by destruct c as [[] [] [] [] [] [] [] []].
    + destruct (IH n _ Hs) as [rest Hr]. exists rest. rewrite string_app_cons. by f_equal.
  - destruct (IH n k Hv) as [rest Hr]. exists rest. cbn [take_runes]. rewrite string_app_cons. by f_equal.
Qed.

(** The error text that is stored has at most 4000 characters: a shorter text is
    stored as it is; of a longer one exactly 4000 characters are stored, as valid
    UTF-8, and they are the beginning of the text if the text was valid. *)
Theorem truncateError_bounded cause :
  let text := cause_text cause in
  (RuneCountInString (truncateError cause) = Z.min 4000 (RuneCountInString text))%Z ∧
  ((RuneCountInString text ≤ 4000)%Z → truncateError cause = text) ∧
  ((4000 < RuneCountInString text)%Z → ValidString (truncateError cause) = true) ∧
  (ValidString text = true → ∃ rest, text = truncateError cause +:+ rest).
Proof.
  intros text. unfold truncateError, RuneCountInString. fold text.
  destruct (Z.of_nat (count_runes 0 text) <=? 4000)%Z eqn:Hle; bool_prop; split_and!.
  - lia.
  - done.
  - lia.
  - intros _. exists "". by rewrite string_app_nil_r.
  - rewrite take_runes_length. lia.
  - lia.
  - intros _. apply take_runes_valid.
  - apply take_runes_prefix.
Qed.

(** ** Queues *)

(** Which rows other transactions hold locked at the n-th statement
    ([FOR UPDATE SKIP LOCKED] passes over them). *)
Class RowLocks := row_locked : nat → Z → bool.

Record Queue `{Json} := mkQueue {
  q_map : Stream → gmap Z Delivery;
  (** replaces the state of a row *)
  q_put : Z → Delivery → Stream → Stream;
  (** the row violates the CHECK of the table *)
  q_check : Delivery → bool;
  (** the table has the trigger that requires a live claim at commit *)
  q_guarded : bool;
}.

Class QueueLaws `{Json} (q : Queue) :=
  q_put_map : ∀ id d x, is_Some (q_map q x !! id) →
    q_map q (q_put q id d x) = <[id := d]> (q_map q x).

Definition row_le (a b : Z * Delivery) : Prop := (a.1 ≤ b.1)%Z.
#[export] Instance row_le_dec : RelDecision row_le.
Proof. intros a b. unfold row_le. apply _. Defined.
#[export] Instance row_le_total : Total row_le.
Proof. intros a b. unfold row_le. lia. Qed.
#[export] Instance row_le_trans : Transitive row_le.
Proof. intros a b c. unfold row_le. lia. Qed.

(** [ORDER BY outbox_id]. *)
Definition ordered (m : gmap Z Delivery) : list (Z * Delivery) := merge_sort row_le (map_to_list m).

(** The row a claim leaves. *)
Definition claimedDelivery (worker : string) (until : Time) (d : Delivery) : Delivery :=
  mkDelivery "inflight" (dl_available d) (Some worker) (Some until) (dl_token d + 1)
    (dl_attempts d + 1) (dl_error d) (dl_published d).
Definition publishedDelivery (now : Time) (d : Delivery) : Delivery :=
  mkDelivery "published" (dl_available d) None None (dl_token d) (dl_attempts d) None (Some now).
Definition failedDelivery (state : string) (retryAt : Time) (message : string) (d : Delivery)
    : Delivery :=
  mkDelivery state (timestamptz retryAt) None None (dl_token d) (dl_attempts d) (Some message)
    (dl_published d).

(** Overflow of the [bigint] and [integer] columns. *)
Definition counters_fault (d : Delivery) : option pgfault :=
  violated "22003" ((int_max <? dl_token d) || (2 ^ 31 - 1 <? dl_attempts d))%Z.

Section protocol.
Context `{Clock, Database, Json, RowLocks}.
Abbreviation Tx := (M error (DB Forja)).

(** [available_at <= clock_timestamp() AND (state='pending' OR (state='inflight'
    AND locked_until <= clock_timestamp()))]. *)
Definition claimable (d : Delivery) : Tx bool :=
  now ← clock_timestamp;
  if After (dl_available d) now then mret false
  else if bool_decide (dl_state d = "pending") then mret true
  else if bool_decide (dl_state d = "inflight") then
    match dl_locked_until d with
    | Some until => now ← clock_timestamp; mret (negb (After until now))
    | None => mret false
    end
  else mret false.

(** The rows to claim, in order, at most [limit] of them. *)
Fixpoint candidates (locked : Z → bool) (rows : list (Z * Delivery)) (limit : nat)
    : Tx (list (Z * Delivery)) :=
  match rows, limit with
  | [], _ | _, 0 => mret []
  | row :: rows', S limit' =>
      ok ← claimable row.2;
      if ok && negb (locked row.1) then
        rest ← candidates locked rows' limit';
        mret (row :: rest)
      else candidates locked rows' limit
  end.

Definition claim_row (q : Queue) (op worker : string) (ttl : Z * Z) (row : Z * Delivery)
    : Tx (Z * Delivery) :=
  now ← clock_timestamp;
  let d' := claimedDelivery worker (AddInterval now (interval ttl)) row.2 in
  _ ← checked op (first_fault [counters_fault d'; violated CheckViolation (q_check q d')]);
  _ ← write (with_stream (q_put q row.1 d'));
  mret (row.1, d').

Fixpoint claim_rows (q : Queue) (op worker : string) (ttl : Z * Z) (rows : list (Z * Delivery))
    : Tx (list (Z * Delivery)) :=
  match rows with
  | [] => mret []
  | row :: rows' =>
      claimed ← claim_row q op worker ttl row;
      rest ← claim_rows q op worker ttl rows';
      mret (claimed :: rest)
  end.

(** The statement [WITH candidates AS (...), claimed AS (UPDATE ...)]. *)
Definition claim (q : Queue) (op : string) (params : list string) (worker : string) (limit : Z)
    (ttl : Z * Z) : Tx (list (Z * Delivery)) :=
  atomically (
    locked ← (λ s, (Ok (row_locked (statements s)), s));
    _ ← statement op params;
    rows ← select (λ t, ordered (q_map q (stream t)));
    picked ← candidates locked rows (Z.to_nat limit);
    claim_rows q op worker ttl picked).

(** [outbox_id=$ AND state='inflight' AND locked_by=$ AND fencing_token=$ AND
    locked_until > clock_timestamp()]. *)
Definition held_claim (q : Queue) (id : Z) (worker : string) (token : Z) : Tx (option Delivery) :=
  found ← select (λ t, q_map q (stream t) !! id);
  match found with
  | Some d =>
      if bool_decide (dl_state d = "inflight") && bool_decide (dl_locked_by d = Some worker) &&
         (dl_token d =? token)%Z then
        match dl_locked_until d with
        | Some until =>
            now ← clock_timestamp;
            mret (if After until now then Some d else None)
        | None => mret None
        end
      else mret None
  | None => mret None
  end.

(** The update of the held claim: the row it replaced, if there was one. *)
Definition settle (q : Queue) (op : string) (id : Z) (worker : string) (token : Z)
    (next : Delivery → Tx Delivery) : Tx (option Delivery) :=
  held ← held_claim q id worker token;
  match held with
  | Some d =>
      d' ← next d;
      _ ← checked op (violated CheckViolation (q_check q d'));
      _ ← write (with_stream (q_put q id d'));
      mret (Some d)
  | None => mret None
  end.

(** The deferred trigger, on the row the transaction replaced. *)
Definition claim_at_commit (q : Queue) (op : string) (old : Delivery) : Tx unit :=
  if q_guarded q then
    now ← clock_timestamp;
    checked op (violated "40001"
      (match dl_locked_by old, dl_locked_until old with
       | Some _, Some until => negb (After until now)
       | _, _ => true
       end))
  else mret tt.

(** The event of a message of the scope. *)
Definition message_event (sc : Scope) (id : Z) (x : Stream) : option EventRow :=
  o ← head (filter (λ o, ob_scope o = sc ∧ ob_id o = id) (outbox x));
  head (filter (λ e, ev_id e = ob_event o) (events x)).

(** The payload was read from a [jsonb] column, so it can be stored in one. *)
Definition dead_letter_fault (row : DeadLetterRow) (t : Forja) : option pgfault :=
  first_fault
    [violated ForeignKeyViolation (negb (bool_decide (dd_scope row ∈ repositories (canonical t))));
     violated ForeignKeyViolation
       (negb (existsb (λ o, bool_decide (ob_scope o = dd_scope row) && (ob_id o =? dd_outbox row)%Z)
                (outbox (stream t))));
     violated ForeignKeyViolation
       (negb (existsb (λ e, bool_decide (ev_scope e = dd_scope row) &&
                bool_decide (ev_id e = dd_event row)) (events (stream t))))].
End protocol.

(** ** The life of a row *)

Section rows.
Context `{Clock}.

(** Some reading between the [n]-th and the [n']-th satisfies [P]. *)
Definition sometime (n n' : nat) (P : Time → Prop) : Prop :=
  ∃ i, n ≤ i < n' ∧ P (clock_reading i).

Lemma sometime_mono n n' m m' P : m ≤ n → n' ≤ m' → sometime n n' P → sometime m m' P.
Proof. intros Hn Hm (i & Hi & HP). exists i. split; [lia|done]. Qed.

(** The row may be claimed. *)
Record ripe (n n' : nat) (d : Delivery) : Prop := {
  ripe_available : sometime n n' (λ now, (instant (dl_available d) ≤ instant now)%Z);
  ripe_free : dl_state d = "pending" ∨
    dl_state d = "inflight" ∧ ∃ until, dl_locked_until d = Some until ∧
      sometime n n' (λ now, (instant until ≤ instant now)%Z);
}.

(** The row is claimed by the worker under the token, and the claim is live. *)
Record held (n n' : nat) (worker : string) (token : Z) (d : Delivery) : Prop := {
  held_state : dl_state d = "inflight";
  held_by : dl_locked_by d = Some worker;
  held_token : dl_token d = token;
  held_live : ∃ until, dl_locked_until d = Some until ∧
    sometime n n' (λ now, (instant now < instant until)%Z);
}.

(** Who acts on a row: a worker that claims, the holder of a claim, the operator. *)
Inductive party :=
| Claimant (worker : string)
| Holder (worker : string) (token : Z)
| Operator
| Nobody.

(** One change of a row by [a] during the readings [n] to [n']. *)
Inductive row_step (a : party) (n n' : nat) (d : Delivery) : Delivery → Prop :=
| row_claimed worker ttl i :
    a = Claimant worker → ripe n n' d → n ≤ i < n' → (dl_token d < int_max)%Z → (dl_attempts d < 2 ^ 31 - 1)%Z →
    row_step a n n' d (claimedDelivery worker (AddInterval (clock_reading i) (interval ttl)) d)
| row_published worker token i :
    a = Holder worker token → held n n' worker token d → n ≤ i < n' →
    row_step a n n' d (publishedDelivery (clock_reading i) d)
| row_failed worker token state retryAt cause :
    a = Holder worker token → held n n' worker token d → state = "pending" ∨ state = "dead" →
    row_step a n n' d (failedDelivery state retryAt (truncateError cause) d)
| row_requeued i :
    a = Operator → dl_state d = "dead" →
    row_step a n n' d
      (mkDelivery "pending" (clock_reading i) None None (dl_token d) 0 None (dl_published d)).

Lemma ripe_mono n n' m m' d : m ≤ n → n' ≤ m' → ripe n n' d → ripe m m' d.
Proof.
  intros Hn Hm [Ha Hf]. split; [by eapply sometime_mono|]. destruct Hf as [|(? & u & ? & ?)]; [by left|].
  right. split; [done|]. exists u. split; [done|]. by eapply sometime_mono.
Qed.

Lemma held_mono n n' m m' w k d : m ≤ n → n' ≤ m' → held n n' w k d → held m m' w k d.
Proof.
  intros Hn Hm [? ? ? (u & ? & ?)]. split; [done..|]. exists u. split; [done|].
  by eapply sometime_mono.
Qed.

Lemma row_step_token a n n' d d' :
  row_step a n n' d d' → dl_token d' = dl_token d ∨ dl_token d' = (dl_token d + 1)%Z ∧ dl_state d' = "inflight".
Proof. destruct 1; cbn; auto. Qed.
End rows.

(** ** What the statements of the protocol do *)

Section specs.
Context `{Clock, Database, Json, RowLocks}.
Abbreviation Tx := (M error (DB Forja)).

Definition puts (q : Queue) (cs : list (Z * Delivery)) (x : Stream) : Stream :=
  foldl (λ x c, q_put q c.1 c.2 x) x cs.

Lemma puts_map q `{!QueueLaws q} cs x :
  NoDup cs.*1 → (∀ c, c ∈ cs → is_Some (q_map q x !! c.1)) →
  q_map q (puts q cs x) = list_to_map cs ∪ q_map q x.
Proof.
  revert x. induction cs as [|[id d] cs IH]; intros x Hnd Hin.
  { cbn. by rewrite (left_id_L ∅ (∪)). }
  change (puts q ((id, d) :: cs) x) with (puts q cs (q_put q id d x)).
  change (list_to_map ((id, d) :: cs)) with (<[id:=d]> (list_to_map cs : gmap Z Delivery)).
  apply NoDup_cons in Hnd as [Hid Hnd].
  assert (is_Some (q_map q x !! id)) as Hsome by (apply (Hin (id, d)); left).
  assert (q_map q (q_put q id d x) = <[id:=d]> (q_map q x)) as Hput by by apply q_put_map.
  rewrite IH, Hput; [|done|].
  - rewrite <-insert_union_r by (by apply not_elem_of_list_to_map_1).
    by rewrite insert_union_l.
  - intros c Hc. rewrite Hput. apply lookup_insert_is_Some'. right. apply Hin. by right.
Qed.

(** What every update of a row keeps, a batch keeps. *)
Lemma puts_keeps {A} (f : Stream → A) q cs x :
  (∀ id d x, f (q_put q id d x) = f x) → f (puts q cs x) = f x.
Proof.
  intros Hf. revert x. induction cs as [|c cs IH]; intros x; [done|].
  change (puts q (c :: cs) x) with (puts q cs (q_put q c.1 c.2 x)). by rewrite IH, Hf.
Qed.

Lemma elem_of_ordered m r : r ∈ ordered m ↔ m !! r.1 = Some r.2.
Proof.
  unfold ordered. rewrite merge_sort_Permutation. destruct r. apply elem_of_map_to_list.
Qed.

Lemma NoDup_ordered m : NoDup (ordered m).*1.
Proof. unfold ordered. rewrite merge_sort_Permutation. apply NoDup_fst_map_to_list. Qed.

Lemma swp_claimable s d (Q : bool → DB Forja → Prop) :
  (∀ b s', tables s' = tables s → readings s ≤ readings s' → statements s' = statements s →
     (b = true → ripe (readings s) (readings s') d) → Q b s') →
  swp s (claimable d) Q.
Proof.
  intros HQ. unfold claimable. swp_seq. unfold After.
  assert (∀ n k, n ≤ readings s → readings s < k → (instant (clock_reading (readings s)) <? instant (dl_available d))%Z = false →
    sometime n k (λ now, (instant (dl_available d) ≤ instant now)%Z)) as Hav.
  { intros n k Hn Hk Hlt. exists (readings s). bool_prop. split; [lia|done]. }
  destruct (_ <? _)%Z eqn:Hlt; [|case_bool_decide as Hp; [|case_bool_decide as Hi]].
  - swp_seq. apply HQ; cbn; [done|lia|done|done].
  - swp_seq. apply HQ; cbn; [done|lia|done|]. intros _. split; [apply Hav; (lia || done)|by left].
  - destruct (dl_locked_until d) as [u|] eqn:Hu; swp_seq; apply HQ; cbn; try done; try lia.
    intros Hle. split; [apply Hav; (lia || done)|]. right. split; [done|]. exists u.
    split; [done|]. exists (S (readings s)). bool_prop. split; [lia|done].
  - swp_seq. apply HQ; cbn; [done|lia|done|done].
Qed.

Lemma swp_candidates s locked rows limit (Q : list (Z * Delivery) → DB Forja → Prop) :
  (∀ picked s', tables s' = tables s → readings s ≤ readings s' → statements s' = statements s →
     sublist picked rows → length picked ≤ limit →
     Forall (λ r, ripe (readings s) (readings s') r.2) picked → Q picked s') →
  swp s (candidates locked rows limit) Q.
Proof.
  revert s limit Q. induction rows as [|r rows IH]; intros s limit Q HQ.
  { cbn. swp_seq. apply HQ; (done || constructor || cbn; lia). }
  destruct limit as [|limit]; cbn [candidates].
  { swp_seq. apply HQ; (done || apply sublist_nil_l). }
  swp_seq. apply swp_claimable. intros b s1 Ht1 Hr1 Hs1 Hripe.
  destruct (b && _) eqn:Hb.
  - swp_seq. apply IH. intros picked s2 Ht2 Hr2 Hs2 Hsub Hlen Hall. swp_seq.
    apply andb_true_iff in Hb as [-> _].
    apply HQ; [congruence|lia|congruence|by apply sublist_skip|cbn; lia|]. constructor.
    + eapply ripe_mono; [| |by apply Hripe]; lia.
    + eapply Forall_impl; [exact Hall|]. intros r' Hr'. eapply ripe_mono; [| |exact Hr']; lia.
  - apply IH. intros picked s2 Ht2 Hr2 Hs2 Hsub Hlen Hall.
    apply HQ; [congruence|lia|congruence|by apply sublist_cons|done|].
    eapply Forall_impl; [exact Hall|]. intros r' Hr'. eapply ripe_mono; [| |exact Hr']; lia.
Qed.
(** [c] is the row claimed at a reading between [n] and [n']. *)
Definition new_claim (q : Queue) (worker : string) (ttl : Z * Z) (n n' : nat)
    (row c : Z * Delivery) : Prop :=
  c.1 = row.1 ∧ ∃ i, n ≤ i < n' ∧
    c.2 = claimedDelivery worker (AddInterval (clock_reading i) (interval ttl)) row.2 ∧
    (dl_token row.2 < int_max)%Z ∧ (dl_attempts row.2 < 2 ^ 31 - 1)%Z ∧ q_check q c.2 = false.

Lemma swp_claim_rows s q op worker ttl rows (Q : list (Z * Delivery) → DB Forja → Prop) :
  (∀ cs s', tables s' = with_stream (puts q cs) (tables s) → readings s ≤ readings s' →
     statements s' = statements s →
     Forall2 (new_claim q worker ttl (readings s) (readings s')) rows cs → Q cs s') →
  swp s (claim_rows q op worker ttl rows) Q.
Proof.
  revert s Q. induction rows as [|row rows IH]; intros s Q HQ; cbn [claim_rows].
  { swp_seq. apply HQ; [by destruct s as [[]]|lia|done|constructor]. }
  unfold claim_row. swp_seq. apply IH. intros cs s' Ht Hr Hs Hall. cbn in Ht, Hr, Hs. swp_seq.
  unfold counters_fault in *. constraints. bool_prop. cbn in *.
  apply HQ; [done|lia|congruence|]. constructor.
  - split; [done|]. exists (readings s). cbn. split_and!; (done || lia).
  - eapply Forall2_impl; [exact Hall|]. intros r c (Hid & i & Hi & Hc). split; [done|].
    exists i. split; [cbn in Hi; lia|done].
Qed.

(** What a claim statement hands out. *)
Record batch (q : Queue) (worker : string) (limit : Z) (ttl : Z * Z) (n n' : nat) (x : Stream)
    (cs : list (Z * Delivery)) : Prop := {
  batch_distinct : NoDup cs.*1;
  batch_sorted : StronglySorted Z.le cs.*1;
  batch_limit : (Z.of_nat (length cs) ≤ Z.max 0 limit)%Z;
  batch_rows : ∀ c, c ∈ cs → ∃ d, q_map q x !! c.1 = Some d ∧ ripe n n' d ∧
                 new_claim q worker ttl n n' (c.1, d) c;
}.

Lemma new_claims_keys q worker ttl n n' rows cs :
  Forall2 (new_claim q worker ttl n n') rows cs → cs.*1 = rows.*1.
Proof. induction 1 as [|r c rows cs [Heq _] _ IH]; [done|]. cbn. by rewrite Heq, IH. Qed.

Lemma ordered_sorted m : StronglySorted Z.le (ordered m).*1.
Proof.
  pose proof (StronglySorted_merge_sort row_le (map_to_list m)) as Hs. fold (ordered m) in Hs.
  induction Hs as [|a l _ IH Hall]; [constructor|]. cbn. constructor; [done|].
  by apply Forall_fmap.
Qed.

Lemma sublist_sorted {A} (R : relation A) l k : sublist l k → StronglySorted R k → StronglySorted R l.
Proof.
  induction 1 as [|x l k Hsub IH|x l k Hsub IH]; [done| |];
    intros [Hs Hall]%StronglySorted_inv; [|by apply IH].
  constructor; [by apply IH|]. rewrite Forall_forall in *. intros y Hy.
  apply Hall. by eapply elem_of_sublist.
Qed.

Lemma Forall2_source {A B} (R : A → B → Prop) l k y :
  Forall2 R l k → y ∈ k → ∃ x, x ∈ l ∧ R x y.
Proof.
  induction 1 as [|a b l k Hab _ IH]; [by intros ?%elem_of_nil|].
  intros [->|Hy]%elem_of_cons; [exists a; split; [left|done]|].
  destruct (IH Hy) as (x & Hx & HR). exists x. split; [by right|done].
Qed.

Lemma sublist_keys (l k : list (Z * Delivery)) : sublist l k → sublist l.*1 k.*1.
Proof. induction 1; by constructor. Qed.

Lemma swp_claim s q op params worker limit ttl (Q : list (Z * Delivery) → DB Forja → Prop) :
  (∀ cs s', tables s' = with_stream (puts q cs) (tables s) → readings s ≤ readings s' →
     forallb pg_text params = true →
     batch q worker limit ttl (readings s) (readings s') (stream (tables s)) cs → Q cs s') →
  swp s (claim q op params worker limit ttl) Q.
Proof.
  intros HQ. unfold claim. swp_seq. apply swp_intro. intros locked s0 [= <- <-]. swp_seq.
  apply swp_candidates. intros picked s1 Ht1 Hr1 _ Hsub Hlen Hripe.
  apply swp_claim_rows. intros cs s2 Ht2 Hr2 _ Hnew. cbn in Ht1, Hr1.
  pose proof (new_claims_keys _ _ _ _ _ _ _ Hnew) as Hkeys.
  apply HQ; [congruence|cbn in *; lia|done|]. split.
  - rewrite Hkeys. eapply sublist_NoDup; [apply NoDup_ordered|by apply sublist_keys].
  - rewrite Hkeys. eapply sublist_sorted; [by apply sublist_keys|apply ordered_sorted].
  - rewrite <-(Forall2_length _ _ _ Hnew). lia.
  - intros c Hc. destruct (Forall2_source _ _ _ c Hnew Hc) as ([id d] & Hrow & Heq & i & Hi & Hd).
    cbn in Heq. exists d. rewrite Heq. pose proof (elem_of_sublist _ _ _ Hrow Hsub) as Hin.
    split; [by apply elem_of_ordered in Hin|]. split.
    + rewrite Forall_forall in Hripe. specialize (Hripe _ Hrow). cbn in *.
      eapply ripe_mono; [| |exact Hripe]; cbn; lia.
    + split; [done|]. exists i. split; [lia|done].
Qed.

(** Every row after a batch: claimed, or as it was. *)
Lemma batch_map q `{!QueueLaws q} worker limit ttl n n' x cs :
  batch q worker limit ttl n n' x cs → q_map q (puts q cs x) = list_to_map cs ∪ q_map q x.
Proof.
  intros [Hnd _ _ Hrows]. apply (puts_map q); [done|]. intros c Hc.
  destruct (Hrows c Hc) as (d & Hd & _). by exists d.
Qed.

Lemma batch_row q `{!QueueLaws q} worker limit ttl n n' x cs id :
  batch q worker limit ttl n n' x cs →
  match q_map q x !! id with
  | Some d => ∃ d', q_map q (puts q cs x) !! id = Some d' ∧ (d' = d ∨ row_step (Claimant worker) n n' d d')
  | None => q_map q (puts q cs x) !! id = None
  end.
Proof.
  intros Hb. rewrite (batch_map q worker limit ttl n n') by done.
  destruct ((list_to_map cs : gmap Z Delivery) !! id) as [d'|] eqn:Hc.
  - rewrite (lookup_union_Some_l _ _ _ _ Hc).
    apply elem_of_list_to_map_2, (batch_rows _ _ _ _ _ _ _ _ Hb) in Hc
      as (d & Hd & Hripe & _ & i & Hi & Heq & Ht & Ha & _). cbn in Hd, Heq. rewrite Hd, Heq.
    eexists. split; [done|]. right. by constructor.
  - rewrite lookup_union_r by done. destruct (q_map q x !! id) eqn:?; [|done]. eauto.
Qed.
Lemma swp_held_claim s q id worker token (Q : option Delivery → DB Forja → Prop) :
  (∀ s', tables s' = tables s → readings s ≤ readings s' → Q None s') →
  (∀ d s', tables s' = tables s → readings s ≤ readings s' →
     q_map q (stream (tables s)) !! id = Some d →
     held (readings s) (readings s') worker token d → Q (Some d) s') →
  swp s (held_claim q id worker token) Q.
Proof.
  intros HN HS. unfold held_claim. swp_seq.
  destruct (q_map q _ !! id) as [d|] eqn:Hd; [|swp_seq; by apply HN].
  destruct (_ && _ && _) eqn:Hb; [|swp_seq; by apply HN].
  destruct (dl_locked_until d) as [u|] eqn:Hu; [|swp_seq; by apply HN]. swp_seq. unfold After.
  destruct (_ <? _)%Z eqn:Hlt; [|apply HN; cbn; [done|lia]]. bool_prop. destruct_and!.
  apply HS; cbn; [done|lia|done|]. split; [done..|]. exists u. split; [done|].
  exists (readings s). split; [lia|done].
Qed.

(** A settlement writes the next state of a live claim. *)
Lemma swp_settle s q op id worker token next (Q : option Delivery → DB Forja → Prop) :
  (∀ s', tables s' = tables s → readings s ≤ readings s' → Q None s') →
  (∀ d s1, tables s1 = tables s → readings s ≤ readings s1 →
     q_map q (stream (tables s)) !! id = Some d →
     held (readings s) (readings s1) worker token d →
     swp s1 (next d) (λ d' s', q_check q d' = false →
       Q (Some d) (mkDB (with_stream (q_put q id d') (tables s')) (readings s') (statements s')))) →
  swp s (settle q op id worker token next) Q.
Proof.
  intros HN HS. unfold settle. swp_seq. apply swp_held_claim.
  - intros s' Ht Hr. swp_seq. by apply HN.
  - intros d s1 Ht Hr Hd Hheld. swp_seq. eapply swp_mono; [by apply HS|].
    intros d' s' HQ. swp_seq. apply HQ. by constraints.
Qed.

Lemma swp_claim_at_commit s q op old (Q : unit → DB Forja → Prop) :
  (∀ s', tables s' = tables s → readings s ≤ readings s' →
     (q_guarded q = true → ∃ until, dl_locked_until old = Some until ∧
        sometime (readings s) (readings s') (λ now, (instant now < instant until)%Z)) →
     Q tt s') →
  swp s (claim_at_commit q op old) Q.
Proof.
  intros HQ. unfold claim_at_commit. destruct (q_guarded q); swp_seq; apply HQ; cbn; try done; [lia|].
  intros _. constraints. destruct (dl_locked_by old), (dl_locked_until old) as [u|]; try done.
  exists u. split; [done|]. exists (readings s). unfold After in *. bool_prop. split; [lia|done].
Qed.
End specs.
