(* ===== verification/Outbox.v ===== *)
(** * Package [internal/postgres]: the outbox ([outbox.go])

    Every event leaves one message in the outbox. Competing dispatchers claim
    messages, publish them, or give them back with an error; a message that used
    up its attempts is buried together with its event. The outbox is a [Queue]
    per tenant and repository whose settlements are checked again at commit. *)

From S2P Require Import Prelude GoLib Fault Contracts Identity RunState.
From S2P Require Import ControlMemory Postgres Leases PgTables PgEvents PgLogic PgEffects Queue.

Record OutboxMessage `{Json} := mkOutboxMessage {
  om_OutboxID : Z;
  om_EventID : string;
  om_AggregateType : string;
  om_AggregateID : string;
  om_AggregateVersion : Z;
  om_EventType : string;
  om_Payload : json;
  om_Attempts : Z;
  om_FencingToken : Z;
}.

Section outbox.
Context `{Clock, Database, Json, RowLocks}.
Abbreviation Tx := (M error (DB Forja)).

Definition set_outbox (f : OutboxRow → OutboxRow) (x : Stream) : Stream :=
  mkStream _ (events x) (f <$> outbox x) (outbox_last x) (consumers x) (deliveries x)
    (checkpoints x) (dead_letters x) (run_projections x).

(** The messages of a tenant and repository. *)
Definition outbox_queue (sc : Scope) : Queue := {|
  q_map x := list_to_map (omap (λ o,
    if bool_decide (ob_scope o = sc) then Some (ob_id o, ob_delivery o) else None) (outbox x));
  q_put id d := set_outbox (λ o,
    if bool_decide (ob_scope o = sc) && (ob_id o =? id)%Z
    then mkOutboxRow (ob_id o) (ob_scope o) (ob_event o) d else o);
  q_check _ := false;
  q_guarded := true;
|}.

(** The claimed row joined with its event. *)
Definition message_of (sc : Scope) (x : Stream) (c : Z * Delivery) : option OutboxMessage :=
  e ← message_event sc c.1 x;
  Some (mkOutboxMessage _ c.1 (ev_id e) (ev_aggregate_type e) (ev_aggregate e) (ev_version e)
          (ev_type e) (ev_payload e) (dl_attempts c.2) (dl_token c.2)).

(** The rows are fetched after the statement took effect. *)
Definition ClaimOutbox (st : PgStore) (workerID : string) (limit ttl : Z)
    : Tx (list OutboxMessage) :=
  if runes_outside 1 500 workerID || (limit <? 1)%Z || (1000 <? limit)%Z
  then throw (fault CodeInvalidArgument "postgres.ClaimOutbox"
    "worker ID of at most 500 characters and a limit between 1 and 1000 are required")
  else if (ttl <? Millisecond)%Z || (Hour <? ttl)%Z
  then throw (fault CodeInvalidArgument "postgres.ClaimOutbox"
    "claim TTL must be between one millisecond and one hour")
  else
    claimed ← claim (outbox_queue (store_scope st)) "postgres.ClaimOutbox" (own st [workerID])
                workerID limit (intervalString ttl);
    messages ← select (λ t, omap (message_of (store_scope st) (stream t)) claimed);
    _ ← statement "postgres.ClaimOutbox.rows" [];
    mret messages.

Definition CompleteOutbox (st : PgStore) (outboxID : Z) (workerID : string) (fencingToken : Z)
    : Tx unit :=
  let q := outbox_queue (store_scope st) in
  updated ← atomically (
    _ ← statement "postgres.CompleteOutbox" (own st [workerID]);
    old ← settle q "postgres.CompleteOutbox" outboxID workerID fencingToken
            (λ d, now ← clock_timestamp; mret (publishedDelivery now d));
    _ ← (match old with
         | Some d => claim_at_commit q "postgres.CompleteOutbox" d
         | None => mret tt
         end);
    mret old);
  match updated with
  | Some _ => mret tt
  | None => throw (fault CodeConflict "postgres.CompleteOutbox"
                     "outbox claim is stale or owned by another worker")
  end.

(** [INSERT INTO forja.projection_dead_letters]. *)
Definition bury (st : PgStore) (op projector : string) (outboxID : Z) (event : EventRow)
    (cause : Cause) : Tx unit :=
  _ ← statement op (own st [projector; ev_id event; cause_type cause; truncateError cause]);
  let row := mkDeadLetterRow _ (store_scope st) projector outboxID (ev_id event)
    (cause_type cause) (truncateError cause) (ev_payload event) in
  bad ← select (dead_letter_fault row);
  _ ← checked op bad;
  write (with_stream (λ x, mkStream _ (events x) (outbox x) (outbox_last x) (consumers x)
    (deliveries x) (checkpoints x) (dead_letters x ++ [row]) (run_projections x))).

(** The claim with its event, as the [SELECT ... FOR UPDATE] joins them. *)
Definition held_event (q : Queue) (sc : Scope) (id : Z) (worker : string) (token : Z)
    : Tx (option (Delivery * EventRow)) :=
  held ← held_claim q id worker token;
  event ← select (λ t, message_event sc id (stream t));
  mret (match held, event with Some d, Some e => Some (d, e) | _, _ => None end).

Definition FailOutbox (st : PgStore) (outboxID : Z) (workerID : string) (fencingToken : Z)
    (cause : option Cause) (retryAt : Time) (maxAttempts : Z) : Tx unit :=
  let q := outbox_queue (store_scope st) in
  let invalid := fault CodeInvalidArgument "postgres.FailOutbox"
    "cause, retry time, and positive max attempts are required" in
  match cause with
  | None => throw invalid
  | Some cause =>
      if (maxAttempts <? 1)%Z || IsZero retryAt then throw invalid
      else atomically (
        _ ← statement "postgres.FailOutbox.begin" [];
        _ ← statement "postgres.FailOutbox.select" (own st [workerID]);
        found ← held_event q (store_scope st) outboxID workerID fencingToken;
        match found with
        | None => throw (fault CodeConflict "postgres.FailOutbox"
                           "outbox claim is stale or owned by another worker")
        | Some (d, event) =>
            let nextState := if (maxAttempts <=? dl_attempts d)%Z then "dead" else "pending" in
            _ ← (if bool_decide (nextState = "dead")
                 then bury st "postgres.FailOutbox.deadLetter" workerID outboxID event cause
                 else mret tt);
            _ ← statement "postgres.FailOutbox.update"
                  (own st [nextState; truncateError cause; workerID]);
            updated ← settle q "postgres.FailOutbox.update" outboxID workerID fencingToken
              (λ d, mret (failedDelivery nextState retryAt (truncateError cause) d));
            match updated with
            | None => throw (fault CodeConflict "postgres.FailOutbox"
                               "outbox claim expired before the final write")
            | Some old =>
                _ ← statement "postgres.FailOutbox.commit" [];
                claim_at_commit q "postgres.FailOutbox.commit" old
            end
        end)
  end.
End outbox.
