(* ===== verification/ProjectionDeliveries.v ===== *)
(** * Package [internal/postgres]: independent projectors ([projection_deliveries.go])

    Every registered consumer has a ledger of its own over the same outbox: a
    [Queue] per projector, and a checkpoint that passes only what the projector
    published. *)

From S2P Require Import Prelude GoLib Fault Contracts Identity RunState.
From S2P Require Import ControlMemory Postgres Leases PgTables PgEvents PgLogic PgControl PgEffects.
From S2P Require Import Queue Outbox.

(** Every accepted rune is a single byte, so the bytes can be tested. *)
Definition validProjectorName (value : string) : bool :=
  let letter := in_range 97 122 in
  let later c := letter c || in_range 48 57 c || in_range 95 95 c || in_range 46 46 c ||
                 in_range 45 45 c in
  negb (runes_outside 1 120 value) &&
  match value with
  | "" => true
  | String c rest => letter c && forallb later (String.list_ascii_of_string rest)
  end.

Definition DefaultQdrantProjectorName : string := "qdrant.retrieval".

(** The CHECK that ties the lock columns to the state. *)
Definition delivery_check (d : Delivery) : bool :=
  let null {A} (o : option A) := match o with None => true | Some _ => false end in
  let unlocked := null (dl_locked_by d) && null (dl_locked_until d) in
  let locked := negb (null (dl_locked_by d)) && negb (null (dl_locked_until d)) in
  negb ((bool_decide (dl_state d = "pending") && unlocked && null (dl_published d)) ||
        (bool_decide (dl_state d = "inflight") && locked && null (dl_published d)) ||
        (bool_decide (dl_state d = "published") && unlocked && negb (null (dl_published d))) ||
        (bool_decide (dl_state d = "dead") && unlocked && null (dl_published d))).

Section deliveries.
Context `{Clock, Database, Json, RowLocks}.
Abbreviation Tx := (M error (DB Forja)).

Definition set_deliveries (f : gmap (ProjectorKey * Z) Delivery → gmap (ProjectorKey * Z) Delivery)
    (x : Stream) : Stream :=
  mkStream _ (events x) (outbox x) (outbox_last x) (consumers x) (f (deliveries x))
    (checkpoints x) (dead_letters x) (run_projections x).
Definition set_checkpoints (f : gmap ProjectorKey Z → gmap ProjectorKey Z) (x : Stream) : Stream :=
  mkStream _ (events x) (outbox x) (outbox_last x) (consumers x) (deliveries x)
    (f (checkpoints x)) (dead_letters x) (run_projections x).
Definition set_consumers (f : gmap ProjectorKey ConsumerRow → gmap ProjectorKey ConsumerRow)
    (x : Stream) : Stream :=
  mkStream _ (events x) (outbox x) (outbox_last x) (f (consumers x)) (deliveries x)
    (checkpoints x) (dead_letters x) (run_projections x).

(** The rows of one projector. *)
Definition ledger_rows (key : ProjectorKey) (x : Stream) : list (Z * Delivery) :=
  omap (λ '((k, id), d), if bool_decide (k = key) then Some (id, d) else None)
    (map_to_list (deliveries x)).

Definition ledger (key : ProjectorKey) : Queue := {|
  q_map x := list_to_map (ledger_rows key x);
  q_put id d := set_deliveries <[(key, id) := d]>;
  q_check := delivery_check;
  q_guarded := false;
|}.

(** ** Registration *)

(** [INSERT ... SELECT ... ON CONFLICT DO NOTHING] over the scope's outbox. *)
Definition backfill (key : ProjectorKey) (x : Stream) : Stream :=
  set_deliveries (λ m, foldr (λ o m,
    if bool_decide (ob_scope o = key.1) then
      match m !! (key, ob_id o) with
      | Some _ => m
      | None => <[(key, ob_id o) := pendingDelivery (dl_available (ob_delivery o))]> m
      end
    else m) m (outbox x)) x.

Definition EnsureProjectionConsumer (st : PgStore) (projectorName configurationHash : string)
    : Tx unit :=
  if negb (validProjectorName projectorName)
  then throw (fault CodeInvalidArgument "postgres.EnsureProjectionConsumer"
                "projector name is invalid")
  else
    let key := (store_scope st, projectorName) in
    atomically (
      _ ← statement "postgres.EnsureProjectionConsumer.begin" [];
      _ ← statement "postgres.EnsureProjectionConsumer.lockWatermark" [];
      _ ← statement "postgres.EnsureProjectionConsumer.load" (own st [projectorName]);
      existing ← select (λ t, consumers (stream t) !! key);
      _ ← (match existing with
           | None =>
               _ ← statement "postgres.EnsureProjectionConsumer.insert" (own st [projectorName]);
               bad ← select (λ t, first_fault
                 [violated CheckViolation (negb (String.length configurationHash =? 32)%nat);
                  violated ForeignKeyViolation
                    (negb (bool_decide (store_scope st ∈ repositories (canonical t))))]);
               _ ← checked "postgres.EnsureProjectionConsumer.insert" bad;
               write (with_stream
                 (set_consumers <[key := mkConsumerRow "active" configurationHash]>))
           | Some row =>
               if negb (bool_decide (cs_hash row = configurationHash))
               then throw (fault CodeConflict "postgres.EnsureProjectionConsumer"
                      "projector configuration hash differs from registered consumer")
               else mret tt
           end);
      _ ← statement "postgres.EnsureProjectionConsumer.backfill" (own st [projectorName]);
      _ ← write (with_stream (backfill key));
      _ ← statement "postgres.EnsureProjectionConsumer.checkpoint" (own st [projectorName]);
      _ ← write (with_stream (set_checkpoints (λ m,
            match m !! key with Some _ => m | None => <[key := 0%Z]> m end)));
      statement "postgres.EnsureProjectionConsumer.commit" []).

(** ** Claims *)

Definition ClaimProjectionDeliveries (st : PgStore) (projectorName workerID : string)
    (limit ttl : Z) : Tx (list (OutboxMessage * string)) :=
  if negb (validProjectorName projectorName) || runes_outside 1 500 workerID ||
     (limit <? 1)%Z || (1000 <? limit)%Z
  then throw (fault CodeInvalidArgument "postgres.ClaimProjectionDeliveries"
                "projector, worker ID, and limit are invalid")
  else if (ttl <? Millisecond)%Z || (Hour <? ttl)%Z
  then throw (fault CodeInvalidArgument "postgres.ClaimProjectionDeliveries"
    "claim TTL must be between one millisecond and one hour")
  else
    claimed ← claim (ledger (store_scope st, projectorName)) "postgres.ClaimProjectionDeliveries"
                (own st [projectorName; workerID]) workerID limit (intervalString ttl);
    messages ← select (λ t, omap (message_of (store_scope st) (stream t)) claimed);
    _ ← statement "postgres.ClaimProjectionDeliveries.rows" [];
    mret ((λ m, (m, projectorName)) <$> messages).

(** ** The checkpoint *)

Definition min_id (l : list Z) : option Z :=
  match l with [] => None | z :: l' => Some (foldr Z.min z l') end.
Definition max_id (l : list Z) : option Z :=
  match l with [] => None | z :: l' => Some (foldr Z.max z l') end.

(** [min(outbox_id)] of the unpublished rows after the checkpoint. *)
Definition next_pending (key : ProjectorKey) (last : Z) (x : Stream) : option Z :=
  min_id (fst <$> filter (λ r : Z * Delivery, (last < r.1)%Z ∧ dl_state r.2 ≠ "published")
                    (ledger_rows key x)).
Definition latest_delivery (key : ProjectorKey) (x : Stream) : option Z :=
  max_id (fst <$> ledger_rows key x).

Definition advanced (key : ProjectorKey) (last : Z) (x : Stream) : Z :=
  Z.max last
    (match next_pending key last x, latest_delivery key x with
     | Some id, _ => id - 1
     | None, Some id => id
     | None, None => last
     end)%Z.

Definition advanceProjectionCheckpoint (st : PgStore) (projectorName : string) : Tx unit :=
  let key := (store_scope st, projectorName) in
  _ ← statement "postgres.advanceProjectionCheckpoint" (own st [projectorName]);
  last ← select (λ t, checkpoints (stream t) !! key);
  match last with
  | None => throw (fault CodeConflict "postgres.advanceProjectionCheckpoint"
                     "projection checkpoint is missing")
  | Some last =>
      write (with_stream (λ x, set_checkpoints <[key := advanced key last x]> x))
  end.

(** ** Settlements *)

Definition CompleteProjectionDelivery (st : PgStore) (projectorName : string) (outboxID : Z)
    (workerID : string) (fencingToken : Z) : Tx unit :=
  if negb (validProjectorName projectorName) || (outboxID <? 1)%Z ||
     bool_decide (workerID = "") || (fencingToken <? 1)%Z
  then throw (fault CodeInvalidArgument "postgres.CompleteProjectionDelivery"
                "projection completion arguments are invalid")
  else atomically (
    _ ← statement "postgres.CompleteProjectionDelivery.begin" [];
    _ ← statement "postgres.CompleteProjectionDelivery.update" (own st [projectorName; workerID]);
    updated ← settle (ledger (store_scope st, projectorName))
                "postgres.CompleteProjectionDelivery.update" outboxID workerID fencingToken
                (λ d, now ← clock_timestamp; mret (publishedDelivery now d));
    match updated with
    | None => throw (fault CodeConflict "postgres.CompleteProjectionDelivery"
                "projection delivery claim is stale or owned by another worker")
    | Some _ =>
        _ ← advanceProjectionCheckpoint st projectorName;
        statement "postgres.CompleteProjectionDelivery.commit" []
    end).

Definition FailProjectionDelivery (st : PgStore) (projectorName : string) (outboxID : Z)
    (workerID : string) (fencingToken : Z) (cause : option Cause) (retryAt : Time)
    (maxAttempts : Z) : Tx unit :=
  let q := ledger (store_scope st, projectorName) in
  let invalid := fault CodeInvalidArgument "postgres.FailProjectionDelivery"
    "projection failure arguments are invalid" in
  match cause with
  | None => throw invalid
  | Some cause =>
      if negb (validProjectorName projectorName) || (outboxID <? 1)%Z ||
         bool_decide (workerID = "") || (fencingToken <? 1)%Z || IsZero retryAt ||
         (maxAttempts <? 1)%Z then throw invalid
      else atomically (
        _ ← statement "postgres.FailProjectionDelivery.begin" [];
        _ ← statement "postgres.FailProjectionDelivery.select" (own st [projectorName; workerID]);
        found ← held_event q (store_scope st) outboxID workerID fencingToken;
        match found with
        | None => throw (fault CodeConflict "postgres.FailProjectionDelivery"
                           "projection delivery claim is stale or owned by another worker")
        | Some (d, event) =>
            let nextState := if (maxAttempts <=? dl_attempts d)%Z then "dead" else "pending" in
            _ ← (if bool_decide (nextState = "dead")
                 then bury st "postgres.FailProjectionDelivery.deadLetter" projectorName outboxID
                        event cause
                 else mret tt);
            _ ← statement "postgres.FailProjectionDelivery.update"
                  (own st [nextState; truncateError cause; projectorName; workerID]);
            updated ← settle q "postgres.FailProjectionDelivery.update" outboxID workerID
              fencingToken
              (λ d, mret (failedDelivery nextState retryAt (truncateError cause) d));
            match updated with
            | None => throw (fault CodeConflict "postgres.FailProjectionDelivery"
                               "projection delivery claim expired before final write")
            | Some _ => statement "postgres.FailProjectionDelivery.commit" []
            end
        end)
  end.

Definition RequeueProjectionDelivery (st : PgStore) (projectorName : string) (outboxID : Z)
    : Tx unit :=
  let q := ledger (store_scope st, projectorName) in
  if negb (validProjectorName projectorName) || (outboxID <? 1)%Z
  then throw (fault CodeInvalidArgument "postgres.RequeueProjectionDelivery"
                "projector name or outbox ID is invalid")
  else
    affected ← atomically (
      _ ← statement "postgres.RequeueProjectionDelivery" (own st [projectorName]);
      found ← select (λ t, q_map q (stream t) !! outboxID);
      match found with
      | Some d =>
          if bool_decide (dl_state d = "dead") then
            now ← clock_timestamp;
            let d' := mkDelivery "pending" now None None (dl_token d) 0 None (dl_published d) in
            _ ← checked "postgres.RequeueProjectionDelivery"
                  (violated CheckViolation (q_check q d'));
            _ ← write (with_stream (q_put q outboxID d'));
            mret 1%Z
          else mret 0%Z
      | None => mret 0%Z
      end);
    one_row affected "postgres.RequeueProjectionDelivery" "projection delivery is not dead".

Definition RetrievalProjectionLag (st : PgStore) : Tx Z :=
  let key := (store_scope st, DefaultQdrantProjectorName) in
  _ ← statement "postgres.RetrievalProjectionLag" (own st [DefaultQdrantProjectorName]);
  active ← select (λ t, match consumers (stream t) !! key with
                        | Some row => bool_decide (cs_status row = "active")
                        | None => false
                        end);
  lag ← select (λ t, Z.of_nat (length
          (filter (λ r, dl_state r.2 ≠ "published") (ledger_rows key (stream t)))));
  if active : bool then mret lag
  else throw (fault CodeUnavailable "postgres.RetrievalProjectionLag"
                "retrieval projection consumer is not active").
End deliveries.
