(* ===== verification/RunProjection.v ===== *)
(** * Package [internal/postgres]: the run read model ([projection.go])

    [RebuildRunProjection] replays the immutable run events of a repository,
    checks their continuity and meaning, compares the result with the canonical
    runs and replaces the projector's read model. *)

From S2P Require Import Prelude GoLib Fault Contracts Identity RunState.
From S2P Require Import ControlMemory Postgres Leases PgTables PgEvents PgLogic PgEffects.
From S2P Require Import Queue Outbox ProjectionDeliveries.

(** [ORDER BY] on texts: the collation of the database. *)
Class TextOrder := text_le : string → string → bool.

(** A deterministic collation: texts that compare equal are the same. *)
Class TextOrderLaws `{TextOrder} := {
  text_le_total : ∀ a b, text_le a b = true ∨ text_le b a = true;
  text_le_trans : ∀ a b c, text_le a b = true → text_le b c = true → text_le a c = true;
  text_le_anti : ∀ a b, text_le a b = true → text_le b a = true → a = b;
}.

Record replayedRun := mkReplayedRun { rp_eventID : string; rp_run : Run }.

(** The order in which Go visits the replayed runs. *)
Class Visits := visit : list (string * replayedRun) → list (string * replayedRun).
Class VisitsAll `{Visits} := visit_perm : ∀ l, visit l ≡ₚ l.

Definition corruptRunStream (runID format : string) (args : list string) : error :=
  New CodeConflict "postgres.RebuildRunProjection"
    (Sprintf ("event stream for run %s is corrupt: " +:+ format) (runID :: args)).

Definition canReplayRunTransition (from to : State) : bool :=
  if bool_decide (from = StateAwaitingDecision) && bool_decide (to = StateRunning) then true
  else CanTransition from to.

Definition TimeEqual (t u : Time) : bool := (instant t =? instant u)%Z.

(** [previous] is [None] where [hasPrevious] is false. *)
Definition validateReplayedRunEvent (aggregateID : string) (aggregateVersion : Z)
    (eventID eventType : string) (occurredAt : Time) (run : Run) (previous : option Run)
    : result unit :=
  if negb (bool_decide (r_RunID run = aggregateID)) || negb (r_Version run =? aggregateVersion)%Z
  then Err (corruptRunStream aggregateID
              "event %s payload identity/version disagrees with its envelope" [eventID])
  else if negb (TimeEqual (r_UpdatedAt run) occurredAt)
  then Err (corruptRunStream aggregateID
              "event %s occurrence time disagrees with payload" [eventID])
  else
    match previous with
    | None =>
        fail_if (negb (aggregateVersion =? 1)%Z || negb (bool_decide (eventType = "run.created")) ||
                 negb (bool_decide (r_State run = StateDraft)) ||
                 negb (TimeEqual (r_CreatedAt run) (r_UpdatedAt run)))
          (corruptRunStream aggregateID "first event is not a valid run creation" [])
    | Some previous =>
        if negb (aggregateVersion =? incr (r_Version previous))%Z
        then Err (corruptRunStream aggregateID
               "event stream is not contiguous: got version %d after %d"
               [pretty aggregateVersion; pretty (r_Version previous)])
        else if negb (bool_decide (eventType = "run.transitioned")) ||
                negb (bool_decide (r_Objective run = r_Objective previous)) ||
                negb (TimeEqual (r_CreatedAt run) (r_CreatedAt previous)) ||
                Before (r_UpdatedAt run) (r_UpdatedAt previous)
        then Err (corruptRunStream aggregateID
                    "event %s changes immutable fields or time ordering" [eventID])
        else
          match ParseState (r_State previous), ParseState (r_State run) with
          | Err _, _ => Err (corruptRunStream aggregateID "previous event has an invalid state" [])
          | Ok from, Ok to =>
              fail_if (negb (canReplayRunTransition from to))
                (corruptRunStream aggregateID
                   "event %s contains an illegal state transition" [eventID])
          | Ok _, Err _ =>
              Err (corruptRunStream aggregateID
                     "event %s contains an illegal state transition" [eventID])
          end
    end.

Section order.
Context `{Json, TextOrder}.

(** [ORDER BY aggregate_id, aggregate_version]. *)
Definition event_le (a b : EventRow) : Prop :=
  if decide (ev_aggregate a = ev_aggregate b) then (ev_version a ≤ ev_version b)%Z
  else text_le (ev_aggregate a) (ev_aggregate b) = true.
#[export] Instance event_le_dec : RelDecision event_le.
Proof. intros a b. unfold event_le. case_decide; apply _. Defined.

(** [ORDER BY run_id]. *)
Definition run_id_le (a b : string * RunRow) : Prop := text_le a.1 b.1 = true.
#[export] Instance run_id_le_dec : RelDecision run_id_le.
Proof. intros a b. unfold run_id_le. apply _. Defined.
End order.

Section rebuild.
Context `{Clock, Database, Json, TextOrder, Visits} `{!JsonCodec Run}.
Abbreviation Tx := (M error (DB Forja)).

(** One iteration of [replayRunEvents]; the text of the decoder's error is left
    out of the message. *)
Definition replay_event (latest : gmap string replayedRun) (e : EventRow)
    : result (gmap string replayedRun) :=
  match decodeStoredRun (ev_payload e) with
  | Err _ => Err (corruptRunStream (ev_aggregate e) "event %s has invalid payload: %v" [ev_id e])
  | Ok run =>
      _ ← validateReplayedRunEvent (ev_aggregate e) (ev_version e) (ev_id e) (ev_type e)
            (timestamptz (ev_occurred e)) run (rp_run <$> latest !! ev_aggregate e);
      Ok (<[ev_aggregate e := mkReplayedRun (ev_id e) run]> latest)
  end.

Definition replayRunEvents (st : PgStore) : Tx (gmap string replayedRun) :=
  _ ← statement "postgres.replayRunEvents.query" (own st []);
  rows ← select (λ t, merge_sort event_le
           (filter (λ e, ev_scope e = store_scope st ∧ ev_aggregate_type e = "run")
              (events (stream t))));
  lift (loop replay_event ∅ rows).

(** One iteration of [reconcileCanonicalRuns]. *)
Definition reconcile_row (replayed : gmap string replayedRun) (seen : gset string)
    (row : string * RunRow) : result (gset string) :=
  let run := scanRun row.1 row.2 in
  match replayed !! r_RunID run with
  | Some candidate =>
      if bool_decide (rp_run candidate = run) then Ok ({[r_RunID run]} ∪ seen)
      else Err (corruptRunStream (r_RunID run)
                  "canonical aggregate differs from immutable event replay" [])
  | None => Err (corruptRunStream (r_RunID run)
                   "canonical aggregate differs from immutable event replay" [])
  end.

Definition scope_runs (sc : Scope) (t : Forja) : gmap string RunRow :=
  filter (λ kr, run_scope kr.2 = sc) (runs (canonical t)).

Definition reconcileCanonicalRuns (st : PgStore) (replayed : gmap string replayedRun) : Tx unit :=
  _ ← statement "postgres.reconcileCanonicalRuns.query" (own st []);
  rows ← select (λ t, merge_sort run_id_le (map_to_list (scope_runs (store_scope st) t)));
  seen ← lift (loop (reconcile_row replayed) ∅ rows);
  if negb (Nat.eqb (size (seen : gset string)) (size replayed))
  then throw (corruptRunStream "*"
                "immutable event replay contains a run missing from canonical state" [])
  else mret tt.

Definition set_projections
    (f : gmap (ProjectorKey * RunID) ProjectionRow → gmap (ProjectorKey * RunID) ProjectionRow)
    (x : Stream) : Stream :=
  mkStream _ (events x) (outbox x) (outbox_last x) (consumers x) (deliveries x) (checkpoints x)
    (dead_letters x) (f (run_projections x)).

Definition projection_fault (key : ProjectorKey) (runID : string) (row : ProjectionRow) (t : Forja)
    : option pgfault :=
  first_fault
    [int4_fault (pj_version row); violated CheckViolation (pj_version row <? 1)%Z;
     violated UniqueViolation (bool_decide (is_Some (run_projections (stream t) !! (key, runID))));
     violated ForeignKeyViolation (negb (bool_decide (key.1 ∈ repositories (canonical t))));
     violated ForeignKeyViolation
       (negb (existsb (λ e, bool_decide (ev_scope e = key.1) && bool_decide (ev_id e = pj_event row))
                (events (stream t))))].

(** The loop over [latest]. *)
Fixpoint insert_projections (st : PgStore) (key : ProjectorKey)
    (l : list (string * replayedRun)) : Tx unit :=
  match l with
  | [] => mret tt
  | (runID, projection) :: l' =>
      let run := rp_run projection in
      let row := mkProjectionRow (r_Objective run) (r_State run) (r_Version run)
        (rp_eventID projection) (r_UpdatedAt run) in
      _ ← statement "postgres.RebuildRunProjection.insert"
            (own st [key.2; runID; r_Objective run; r_State run; rp_eventID projection]);
      bad ← select (projection_fault key runID row);
      _ ← checked "postgres.RebuildRunProjection.insert" bad;
      _ ← write (with_stream (set_projections <[(key, runID) := row]>));
      insert_projections st key l'
  end.

(** [COALESCE(max(outbox_id), 0)] over the scope. *)
Definition watermark (sc : Scope) (x : Stream) : Z :=
  default 0%Z (max_id (ob_id <$> filter (λ o, ob_scope o = sc) (outbox x))).

Definition RebuildRunProjection (st : PgStore) (projectorName : string) : Tx unit :=
  if bool_decide (projectorName = "")
  then throw (fault CodeInvalidArgument "postgres.RebuildRunProjection"
                "projector name is required")
  else
    let key := (store_scope st, projectorName) in
    atomically (
      _ ← statement "postgres.RebuildRunProjection.begin" [];
      _ ← statement "postgres.RebuildRunProjection.lockWatermark" [];
      _ ← statement "postgres.RebuildRunProjection.lockProjector" [];
      latest ← replayRunEvents st;
      _ ← reconcileCanonicalRuns st latest;
      _ ← statement "postgres.RebuildRunProjection.clear" (own st [projectorName]);
      _ ← write (with_stream (set_projections (filter (λ kr, kr.1.1 ≠ key))));
      _ ← insert_projections st key (visit (map_to_list latest));
      _ ← statement "postgres.RebuildRunProjection.checkpoint" (own st [projectorName]);
      bad ← select (λ t, violated ForeignKeyViolation
              (negb (bool_decide (store_scope st ∈ repositories (canonical t)))));
      _ ← checked "postgres.RebuildRunProjection.checkpoint" bad;
      _ ← write (with_stream (λ x,
            set_checkpoints <[key := watermark (store_scope st) x]> x));
      statement "postgres.RebuildRunProjection.commit" []).
End rebuild.
