(* ===== verification/RunReplay.v ===== *)
(** * Replaying run events

    [RebuildRunProjection] accepts every database whose run events are the
    histories of its runs, and projects exactly the canonical runs. *)

From S2P Require Import Prelude GoLib Fault Contracts Identity RunState.
From S2P Require Import ControlMemory Governance ControlRefinement Postgres Leases.
From S2P Require Import PgTables PgEvents PgLogic PgControl PgEffects PgRefinement PgStreams.
From S2P Require Import Queue Outbox ProjectionDeliveries RunProjection.

(** ** One aggregate at a time *)

Section replay.
Context `{Json, TextOrder} `{!JsonCodec Run}.

(** The events of one run, replayed after [prev]. *)
Inductive replays (id : string) : option replayedRun → list EventRow → option replayedRun → Prop :=
| replays_nil prev : replays id prev [] prev
| replays_cons prev e es run last :
    decodeStoredRun (ev_payload e) = Ok run →
    validateReplayedRunEvent id (ev_version e) (ev_id e) (ev_type e) (timestamptz (ev_occurred e))
      run (rp_run <$> prev) = Ok tt →
    replays id (Some (mkReplayedRun (ev_id e) run)) es last →
    replays id prev (e :: es) last.

Lemma replays_app id prev es mid es' last :
  replays id prev es mid → replays id mid es' last → replays id prev (es ++ es') last.
Proof. induction 1; [done|]. intros. cbn. econstructor; eauto. Qed.

(** Aggregates do not interfere: a loop over any interleaving ends where the
    replay of each of them ends. *)
Lemma loop_replays l (m : gmap string replayedRun) (res : string → option replayedRun) :
  (∀ id, replays id (m !! id) (filter (λ e, ev_aggregate e = id) l) (res id)) →
  ∃ m', loop replay_event m l = Ok m' ∧ ∀ id, m' !! id = res id.
Proof.
  revert m. induction l as [|e l IH]; intros m Hall.
  { exists m. split; [done|]. intros id. specialize (Hall id). by inversion Hall. }
  pose proof (Hall (ev_aggregate e)) as He. rewrite filter_cons_True in He by done.
  inversion He as [|prev e' es run last Hdec Hval Hrest]; subst.
  assert (replay_event m e = Ok (<[ev_aggregate e := mkReplayedRun (ev_id e) run]> m)) as Hstep.
  { unfold replay_event. rewrite Hdec, Hval. done. }
  cbn [loop]. rewrite Hstep. apply IH. intros id.
  rewrite lookup_insert. case_decide as Hid; [by subst|].
  specialize (Hall id). by rewrite filter_cons_False in Hall.
Qed.

Lemma run_history_versions id es run :
  run_history id es run →
  ev_version <$> es = seqZ 1 (Z.of_nat (length es)) ∧ r_Version run = Z.of_nat (length es) ∧
  r_RunID run = id.
Proof.
  induction 1 as [e run _ Hid _ Hev Hv|es run e run' _ (IHv & IHr & _) _ Hid _ Hev Hv _ _ _ _ _].
  - cbn. by rewrite Hev.
  - rewrite length_app, fmap_app, IHv, Nat2Z.inj_add. change (Z.of_nat (length [e])) with 1%Z.
    split_and!; [|lia|done]. rewrite seqZ_app by lia. f_equal.
    rewrite seqZ_cons by lia. cbn. rewrite Hev. f_equal. lia.
Qed.

Lemma history_replays id es run :
  run_history id es run → (r_Version run ≤ 2 ^ 31 - 1)%Z →
  ∃ e, last es = Some e ∧ replays id None es (Some (mkReplayedRun (ev_id e) run)).
Proof.
  induction 1 as [e run Hdec Hid Het Hev Hv Hst Hct Hocc
                 |es run e run' Hh IH Hdec Hid Het Hev Hv Hobj Hc Hle Htr Hocc]; intros Hmax.
  - exists e. split; [done|]. econstructor; [done| |constructor].
    unfold validateReplayedRunEvent, TimeEqual. rewrite Hid, Hev, Hv, Het, Hst, Hct, Hocc.
    rewrite !Z.eqb_refl, !bool_decide_eq_true_2 by done. done.
  - destruct IH as (e0 & _ & IH); [lia|]. exists e. rewrite last_snoc. split; [done|].
    eapply replays_app; [exact IH|]. econstructor; [done| |constructor].
    destruct (run_history_versions _ _ _ Hh) as (_ & Hlen & _).
    destruct (CanTransition_phases _ _ Htr) as (p & q & Hp & Hq).
    unfold validateReplayedRunEvent, TimeEqual, canReplayRunTransition. cbn [rp_run fmap option_fmap option_map].
    rewrite Hid, Hev, Hv, Het, Hobj, Hc, Hocc, incr_lt by (unfold int_max; lia).
    rewrite !Z.eqb_refl, !bool_decide_eq_true_2 by done. cbn. unfold Before.
    rewrite (proj2 (Z.ltb_ge _ _)) by done. rewrite <-Hp, <-Hq, !ParseState_phase, Hp, Hq, Htr.
    by destruct (_ && _).
Qed.
End replay.

(** ** The order of the query *)

Section sorting.
Context `{Json, TextOrder, !TextOrderLaws}.

#[export] Instance event_le_total : Total event_le.
Proof.
  intros a b. unfold event_le. destruct (decide (ev_aggregate a = ev_aggregate b)) as [Heq|Hne].
  - rewrite decide_True by done. lia.
  - rewrite decide_False by done. apply text_le_total.
Qed.

#[export] Instance event_le_trans : Transitive event_le.
Proof.
  intros a b c. unfold event_le.
  destruct (decide (ev_aggregate a = ev_aggregate b)) as [Hab|Hab],
    (decide (ev_aggregate b = ev_aggregate c)) as [Hbc|Hbc];
    destruct (decide (ev_aggregate a = ev_aggregate c)) as [Hac|Hac]; try congruence.
  - lia.
  - intros Hle Hle'. rewrite Hac in Hle. destruct Hbc. by apply text_le_anti.
  - by apply text_le_trans.
Qed.

(** Within an aggregate the query keeps the order of contiguous versions. *)
Lemma sorted_history id (l : list EventRow) n :
  ev_version <$> filter (λ e, ev_aggregate e = id) l = seqZ 1 n →
  filter (λ e, ev_aggregate e = id) (merge_sort event_le l) =
  filter (λ e, ev_aggregate e = id) l.
Proof.
  intros Hv. set (R := λ a b : EventRow, (ev_version a ≤ ev_version b)%Z).
  assert (∀ k, (∀ e, e ∈ k → ev_aggregate e = id) → StronglySorted event_le k → StronglySorted R k) as Hsame.
  { intros k Hk Hs. induction Hs as [|a k _ IH Hall]; [constructor|]. constructor.
    - apply IH. intros e He. apply Hk. by right.
    - rewrite Forall_forall in *. intros e He. specialize (Hall e He). unfold event_le in Hall.
      rewrite decide_True in Hall; [done|]. rewrite (Hk a), (Hk e); [done|by right|by left]. }
  assert (NoDup (ev_version <$> filter (λ e, ev_aggregate e = id) l)) as Hnd by (rewrite Hv; apply NoDup_seqZ).
  eapply (StronglySorted_unique_strong R).
  - intros x y Hx Hy Hxy Hyx. assert (x ∈ filter (λ e, ev_aggregate e = id) l) as Hx'.
    { rewrite list_elem_of_filter in *. by rewrite merge_sort_Permutation in Hx. }
    eapply (NoDup_key_inj ev_version); [exact Hnd|done|done|]. unfold R in *. lia.
  - apply Hsame; [by intros e [? _]%list_elem_of_filter|].
    eapply sublist_sorted; [apply sublist_filter|]. apply (StronglySorted_merge_sort _ _).
  - assert (∀ k z m, ev_version <$> k = seqZ z m → StronglySorted R k) as Hseq; [|by eapply Hseq].
    intros k. induction k as [|a k IH]; intros z m Hk; [constructor|].
    destruct (decide (0 < m)%Z); [|by rewrite seqZ_nil in Hk by lia]. rewrite seqZ_cons in Hk by done.
    injection Hk as Ha Hk. change (list_fmap _ _ ev_version k) with (ev_version <$> k) in Hk.
    constructor; [by eapply IH|]. apply Forall_forall. intros e He.
    apply (list_elem_of_fmap_2 ev_version) in He. rewrite Hk, elem_of_seqZ in He. unfold R. lia.
  - by rewrite merge_sort_Permutation.
Qed.
End sorting.

(** ** The rebuild *)

Section rebuild.
Context `{Clock, Database, !Reliable, !ClockStarted, Json, !Jsonb, TextOrder, !TextOrderLaws,
          Visits, !VisitsAll, UuidText} `{!JsonCodec Run, !JsonCodec Sprint, !JsonCodec Decision}.
Implicit Types (t : Forja).

(** The run a replay should find, with the event that made it. *)
Definition replayed_run (sc : Scope) t (id : string) : option replayedRun :=
  row ← in_scope run_scope sc (runs (canonical t) !! id);
  e ← last (run_events sc id (events (stream t)));
  Some (mkReplayedRun (ev_id e) (scanRun id row)).

Lemma replay_table sc t :
  stream_ok t → ∃ latest,
    loop replay_event ∅ (merge_sort event_le
      (filter (λ e, ev_scope e = sc ∧ ev_aggregate_type e = "run") (events (stream t)))) = Ok latest ∧
    ∀ id, latest !! id = replayed_run sc t id.
Proof.
  intros [Hrows Hruns _]. apply loop_replays. intros id. rewrite lookup_empty.
  set (l := filter (λ e, ev_scope e = sc ∧ _) _).
  assert (filter (λ e, ev_aggregate e = id) l = run_events sc id (events (stream t))) as Hl.
  { unfold run_events, l. rewrite !list_filter_filter. apply list_filter_iff. tauto. }
  specialize (Hruns sc id). unfold replayed_run. rewrite <-Hl in *.
  destruct (in_scope _ _ _) as [row|] eqn:Hrow; cbn.
  - destruct (run_history_versions _ _ _ Hruns) as (Hv & _ & _). rewrite (sorted_history id l _ Hv).
    apply in_scope_Some in Hrow as [Hrow _].
    destruct (history_replays _ _ _ Hruns) as (e & -> & Hrep); [apply vr_version; by apply Hrows|].
    done.
  - rewrite (sorted_history id l 0), Hruns by (by rewrite Hruns). constructor.
Qed.

Lemma replayed_row sc t id row :
  stream_ok t → runs (canonical t) !! id = Some row → run_scope row = sc →
  ∃ e, last (run_events sc id (events (stream t))) = Some e ∧
    replayed_run sc t id = Some (mkReplayedRun (ev_id e) (scanRun id row)).
Proof.
  intros [Hrows Hruns _] Hrow Hsc. specialize (Hruns sc id).
  assert (in_scope run_scope sc (runs (canonical t) !! id) = Some row) as Hin
    by (by apply in_scope_Some).
  rewrite Hin in Hruns. destruct (history_replays _ _ _ Hruns) as (e & He & _);
    [apply vr_version; by apply Hrows|].
  exists e. split; [done|]. unfold replayed_run. rewrite Hin. cbn. by rewrite He.
Qed.

Lemma reconcile_rows (latest : gmap string replayedRun) rows seen :
  Forall (λ r : string * RunRow, rp_run <$> latest !! r.1 = Some (scanRun r.1 r.2)) rows →
  loop (reconcile_row latest) seen rows = Ok (list_to_set (rows.*1) ∪ seen).
Proof.
  intros Hall. revert seen. induction Hall as [|[id row] rows Hrow _ IH]; intros seen.
  { cbn. f_equal. set_solver. }
  assert (reconcile_row latest seen (id, row) = Ok ({[id]} ∪ seen)) as Hstep.
  { unfold reconcile_row. cbn in *. destruct (latest !! id) as [c|]; [|done].
    injection Hrow as Hrow. by rewrite bool_decide_eq_true_2. }
  cbn [loop]. rewrite Hstep. cbn. rewrite IH. f_equal. set_solver.
Qed.

Lemma twp_reconcile st t latest (Q : unit → Forja → Prop) :
  stream_ok t → (∀ id, latest !! id = replayed_run (store_scope st) t id) →
  forallb pg_text (own st []) = true → Q tt t →
  twp t (reconcileCanonicalRuns st latest) Q.
Proof.
  intros Hok Hlatest Htext HQ. unfold reconcileCanonicalRuns. twp_seq.
  apply twp_statement; [done|]. twp_seq.
  set (rows := merge_sort run_id_le _).
  assert (∀ id row, (id, row) ∈ rows ↔ runs (canonical t) !! id = Some row ∧ run_scope row = store_scope st) as Hrows.
  { intros id row. unfold rows. rewrite merge_sort_Permutation, elem_of_map_to_list.
    unfold scope_runs. by rewrite map_lookup_filter_Some. }
  eapply twp_lift; [apply reconcile_rows|].
  { apply Forall_forall. intros [id row] [Hrow Hsc]%Hrows. cbn. rewrite Hlatest.
    destruct (replayed_row _ _ _ _ Hok Hrow Hsc) as (e & _ & ->). done. }
  assert (list_to_set rows.*1 ∪ ∅ = dom latest) as ->.
  { apply set_eq. intros id. rewrite elem_of_union, elem_of_list_to_set, elem_of_dom, Hlatest.
    split.
    - intros [([id' row] & Heq & [Hrow Hsc]%Hrows)%list_elem_of_fmap|?]; [|set_solver].
      cbn in Heq. subst id'.
      destruct (replayed_row _ _ _ _ Hok Hrow Hsc) as (e & _ & ->). eauto.
    - unfold replayed_run. intros [p Hp]. left. apply bind_Some in Hp as (row & Hrow%in_scope_Some & _).
      apply list_elem_of_fmap. exists (id, row). split; [done|]. by apply Hrows. }
  rewrite size_dom, Nat.eqb_refl. cbn. by twp_seq.
Qed.
Definition projected (p : replayedRun) : ProjectionRow :=
  mkProjectionRow (r_Objective (rp_run p)) (r_State (rp_run p)) (r_Version (rp_run p))
    (rp_eventID p) (r_UpdatedAt (rp_run p)).

Definition put_projections (key : ProjectorKey) (l : list (string * replayedRun))
    (m : gmap (ProjectorKey * RunID) ProjectionRow) : gmap (ProjectorKey * RunID) ProjectionRow :=
  foldl (λ m ip, <[(key, ip.1) := projected ip.2]> m) m l.

Lemma lookup_put_projections key l m k id :
  NoDup l.*1 →
  put_projections key l m !! (k, id) =
  if decide (k = key) then
    match (list_to_map l : gmap string replayedRun) !! id with
    | Some p => Some (projected p)
    | None => m !! (k, id)
    end
  else m !! (k, id).
Proof.
  revert m. induction l as [|[id' p] l IH]; intros m Hnd; [by case_decide|].
  apply NoDup_cons in Hnd as [Hid Hnd].
  change (put_projections key ((id', p) :: l) m) with (put_projections key l (<[(key, id') := projected p]> m)).
  rewrite IH by done. case_decide as Hk.
  - subst k. change (list_to_map ((id', p) :: l)) with (<[id' := p]> (list_to_map l : gmap string replayedRun)).
    destruct (decide (id' = id)) as [->|Hne].
    + by rewrite (not_elem_of_list_to_map_1 l id Hid), !lookup_insert_eq.
    + by rewrite !lookup_insert_ne by congruence.
  - rewrite lookup_insert_ne by congruence. done.
Qed.

(** What the insert of a projection needs. *)
Record projectable (st : PgStore) (key : ProjectorKey) t (ip : string * replayedRun) : Prop := {
  pa_texts : forallb pg_text (own st [key.2; ip.1; r_Objective (rp_run ip.2); r_State (rp_run ip.2);
                                      rp_eventID ip.2]) = true;
  pa_version : (1 ≤ r_Version (rp_run ip.2) ≤ 2 ^ 31 - 1)%Z;
  pa_event : ∃ e, e ∈ events (stream t) ∧ ev_scope e = key.1 ∧ ev_id e = rp_eventID ip.2;
  pa_scope : key.1 ∈ repositories (canonical t);
}.

Lemma projection_fits st key t ip :
  projectable st key t ip → run_projections (stream t) !! (key, ip.1) = None →
  projection_fault key ip.1 (projected ip.2) t = None.
Proof.
  intros [_ Hv (e & He & Hs & Hid) Hsc] Hnew. unfold projection_fault. apply first_fault_None.
  repeat constructor; rewrite ?int4_fault_None, ?violated_None; cbn; try lia.
  - rewrite Hnew. by apply bool_decide_eq_false.
  - by rewrite bool_decide_eq_true_2.
  - apply negb_false_iff, existsb_exists. exists e. split; [by apply list_elem_of_In|].
    by rewrite !bool_decide_eq_true_2.
Qed.

Lemma twp_insert_projections st key l t (Q : unit → Forja → Prop) :
  Forall (projectable st key t) l → NoDup l.*1 →
  (∀ id, id ∈ l.*1 → run_projections (stream t) !! (key, id) = None) →
  Q tt (with_stream (set_projections (put_projections key l)) t) →
  twp t (insert_projections st key l) Q.
Proof.
  revert t. induction l as [|[id p] l IH]; intros t Hall Hnd Hnew HQ; cbn [insert_projections].
  { twp_seq. by destruct t as [? [] ?]. }
  apply Forall_cons in Hall as [Hp Hall]. apply NoDup_cons in Hnd as [Hid Hnd].
  apply twp_bind, twp_statement; [apply Hp|]. twp_seq. fold (projected p).
  apply twp_checked; [apply (projection_fits st key t (id, p) Hp), Hnew; by left|]. twp_seq.
  apply IH; [|done| |done].
  - eapply Forall_impl; [exact Hall|]. intros ip [? ? ? ?]. by split.
  - intros id' Hin. cbn. rewrite lookup_insert_ne by (intros [= ->]; by apply Hid).
    apply Hnew. by right.
Qed.
Lemma replayed_projectable st name t id p :
  stream_ok t → forallb pg_text (own st [name]) = true →
  store_scope st ∈ repositories (canonical t) →
  replayed_run (store_scope st) t id = Some p →
  projectable st (store_scope st, name) t (id, p).
Proof.
  intros Hok Htext Hsc Hp. unfold replayed_run in Hp.
  apply bind_Some in Hp as (row & [Hrow Hrs]%in_scope_Some & Hp).
  apply bind_Some in Hp as (e & He & [= <-]).
  pose proof (so_rows _ Hok _ _ Hrow) as [_ _ _ [q Hq] Hv _ _ _ [Ht1 Ht2]].
  apply last_Some in He as (es & He). assert (e ∈ run_events (store_scope st) id (events (stream t))) as Hin
    by (rewrite He; apply elem_of_app; right; by left).
  unfold run_events in Hin. apply list_elem_of_filter in Hin as [[Hes _] [_ Hin]%list_elem_of_filter].
  pose proof (mo_texts _ (so_messages _ Hok)) as Hev. rewrite Forall_forall in Hev.
  split; cbn in *; [|done|by exists e|done].
  rewrite <-Hq, phase_text, Ht1, Ht2, (Hev e Hin). by rewrite !andb_true_r in *.
Qed.

(** What a rebuild leaves behind. *)
Record rebuilt (sc : Scope) (name : string) t t' : Prop := {
  rb_canonical : canonical t' = canonical t;
  rb_work : work t' = work t;
  rb_stream : ∃ projections, stream t' =
    set_checkpoints <[(sc, name) := watermark sc (stream t)]>
      (set_projections (λ _, projections) (stream t));
  rb_rows : ∀ k id, run_projections (stream t') !! (k, id) =
    if decide (k = (sc, name)) then projected <$> replayed_run sc t id
    else run_projections (stream t) !! (k, id);
}.

Lemma twp_RebuildRunProjection st name t :
  stream_ok t → forallb pg_text (own st [name]) = true →
  store_scope st ∈ repositories (canonical t) → name ≠ "" →
  twp t (RebuildRunProjection st name) (λ _ t', rebuilt (store_scope st) name t t').
Proof.
  intros Hok Htext Hsc Hname. unfold RebuildRunProjection, replayRunEvents.
  rewrite bool_decide_eq_false_2 by done. twp_seq.
  assert (forallb pg_text (own st []) = true) as Hown.
  { cbn in *. by destruct (pg_text (tenantID st)), (pg_text (repositoryID st)). }
  apply twp_statement; [done|]. twp_seq.
  destruct (replay_table (store_scope st) t Hok) as (latest & Hrun & Hlatest).
  eapply twp_lift; [exact Hrun|]. apply twp_bind, twp_reconcile; [done..|].
  apply twp_bind, twp_statement; [done|]. twp_seq.
  pose proof (visit_perm (map_to_list latest)) as Hperm.
  assert (NoDup (visit (map_to_list latest)).*1) as Hnd by (rewrite Hperm; apply NoDup_fst_map_to_list).
  assert (list_to_map (visit (map_to_list latest)) = latest) as Hmap.
  { rewrite (list_to_map_proper _ (map_to_list latest)) by done. apply list_to_map_to_list. }
  apply twp_insert_projections; [|done| |].
  - apply Forall_forall. intros [id p]. rewrite Hperm, elem_of_map_to_list, Hlatest. intros Hp.
    by destruct (replayed_projectable st name t id p).
  - intros id _. cbn. apply map_lookup_filter_None. right. intros ? _ Hne. by apply Hne.
  - apply twp_bind, twp_statement; [done|]. twp_seq. apply twp_checked.
    { cbn. by rewrite bool_decide_eq_true_2. }
    twp_seq. split; cbn; [done..|by eexists|].
    intros k id. rewrite (lookup_put_projections _ _ _ _ _ Hnd), Hmap.
    destruct (decide (k = (store_scope st, name))) as [Hk|Hk].
    + rewrite Hlatest. destruct (replayed_run _ _ _); [done|]. cbn.
      apply map_lookup_filter_None. right. intros ? _ Hne. by apply Hne.
    + apply option_eq. intros x. rewrite map_lookup_filter_Some. naive_solver.
Qed.
End rebuild.
