(* ===== verification/StreamEffects.v ===== *)
(** * The effects of the stream operations

    What each operation of [outbox.go], [projection_deliveries.go] and
    [projection.go] does to the stream tables, whether it reports success or an
    error. *)

From S2P Require Import Prelude GoLib Fault Contracts Identity RunState.
From S2P Require Import ControlMemory Postgres Leases PgTables PgEvents PgLogic PgControl PgEffects.
From S2P Require Import Queue Outbox ProjectionDeliveries RunProjection.

(** The queue an operation works on. *)
Inductive queue_name :=
| OutboxQueue
| Ledger (projector : string).

#[export] Instance queue_name_eq_dec : EqDecision queue_name.
Proof. solve_decision. Defined.

Inductive stream_op :=
| OpClaim (qn : queue_name) (worker : string) (limit ttl : Z)
| OpComplete (qn : queue_name) (id : Z) (worker : string) (token : Z)
| OpFail (qn : queue_name) (id : Z) (worker : string) (token : Z) (cause : option Cause)
    (retryAt : Time) (maxAttempts : Z)
| OpRequeue (projector : string) (id : Z)
| OpEnsure (projector hash : string)
| OpRebuild (projector : string)
| OpLag.

(** As whom an operation acts. *)
Definition party_of (op : stream_op) : party :=
  match op with
  | OpClaim _ worker _ _ => Claimant worker
  | OpComplete _ _ worker token | OpFail _ _ worker token _ _ _ => Holder worker token
  | OpRequeue _ _ => Operator
  | _ => Nobody
  end.

(** The rows it may change. *)
Definition op_targets (sc0 : Scope) (op : stream_op) (sc : Scope) (qn : queue_name) (id : Z) : Prop :=
  match op with
  | OpClaim qn' _ _ _ => (sc, qn) = (sc0, qn')
  | OpComplete qn' id' _ _ | OpFail qn' id' _ _ _ _ _ => (sc, qn, id) = (sc0, qn', id')
  | OpRequeue p id' => (sc, qn, id) = (sc0, Ledger p, id')
  | _ => False
  end.

Section laws.
Context `{Json}.

Definition queue_of (sc : Scope) (qn : queue_name) : Queue :=
  match qn with OutboxQueue => outbox_queue sc | Ledger p => ledger (sc, p) end.

(** The message with an identity. *)
Definition message (sc : Scope) (id : Z) (x : Stream) : option OutboxRow :=
  head (filter (λ o, ob_scope o = sc ∧ ob_id o = id) (outbox x)).

Lemma lookup_outbox sc x id :
  q_map (outbox_queue sc) x !! id = ob_delivery <$> message sc id x.
Proof.
  unfold message. cbn [outbox_queue q_map]. induction (outbox x) as [|o l IH]; [done|].
  rewrite filter_cons. cbn [omap list_omap].
  destruct (decide (ob_scope o = sc)) as [Hsc|Hsc].
  - rewrite bool_decide_eq_true_2 by done. cbn [list_to_map foldr]. rewrite lookup_insert. cbn [fst snd].
    destruct (decide (ob_id o = id)); [by rewrite decide_True|].
    rewrite (decide_False (P := _ ∧ _)) by naive_solver. apply IH.
  - rewrite bool_decide_eq_false_2 by done. rewrite decide_False by naive_solver. apply IH.
Qed.

Lemma message_Some sc id x o :
  message sc id x = Some o → o ∈ outbox x ∧ ob_scope o = sc ∧ ob_id o = id.
Proof.
  unfold message. intros Ho. apply head_Some_elem_of in Ho.
  apply list_elem_of_filter in Ho. tauto.
Qed.

Lemma message_put sc sc' id id' d x :
  message sc id (q_put (outbox_queue sc') id' d x) =
  (λ o, if bool_decide (sc = sc') && (id =? id')%Z
        then mkOutboxRow (ob_id o) (ob_scope o) (ob_event o) d else o) <$> message sc id x.
Proof.
  unfold message. cbn [outbox_queue q_put set_outbox outbox].
  induction (outbox x) as [|o l IH]; [done|]. rewrite fmap_cons, !filter_cons.
  assert (∀ b : bool, (ob_scope (if b then mkOutboxRow (ob_id o) (ob_scope o) (ob_event o) d else o) = sc ∧
    ob_id (if b then mkOutboxRow (ob_id o) (ob_scope o) (ob_event o) d else o) = id) ↔
    (ob_scope o = sc ∧ ob_id o = id)) as Hiff by (by intros []).
  destruct (decide (ob_scope o = sc ∧ ob_id o = id)) as [Hm|Hm].
  - rewrite decide_True by (by apply Hiff). cbn. destruct Hm as [-> ->]. done.
  - rewrite decide_False by (by rewrite Hiff). apply IH.
Qed.

#[export] Instance outbox_laws sc : QueueLaws (outbox_queue sc).
Proof.
  intros id d x [d0 Hd0]. apply map_eq. intros id'.
  rewrite lookup_insert, !lookup_outbox, message_put, bool_decide_eq_true_2 by done. cbn.
  rewrite lookup_outbox in Hd0. destruct (decide (id = id')) as [<-|Hne].
  - rewrite Z.eqb_refl. by destruct (message sc id x).
  - rewrite (proj2 (Z.eqb_neq _ _)) by done. by destruct (message sc id' x).
Qed.

Lemma lookup_ledger key x id : q_map (ledger key) x !! id = deliveries x !! (key, id).
Proof.
  cbn. unfold ledger_rows.
  assert (∀ d, (id, d) ∈ omap (λ '(k, id, d), if bool_decide (k = key) then Some (id, d) else None)
     (map_to_list (deliveries x)) ↔ deliveries x !! (key, id) = Some d) as Hin.
  { intros d. rewrite list_elem_of_omap. split.
    - intros ([[k i] d'] & Hin%elem_of_map_to_list & Heq). case_bool_decide; [|done].
      by injection Heq as -> ->; subst.
    - intros Hd. exists (key, id, d). rewrite elem_of_map_to_list, bool_decide_eq_true_2 by done. done. }
  destruct (deliveries x !! (key, id)) as [d|] eqn:Hd.
  - apply elem_of_list_to_map_1'; [|by apply Hin].
    intros d' Hd'%Hin. congruence.
  - apply not_elem_of_list_to_map_1. intros ([id' d] & -> & Hid)%list_elem_of_fmap.
    apply Hin in Hid. congruence.
Qed.

#[export] Instance ledger_laws key : QueueLaws (ledger key).
Proof.
  intros id d x _. apply map_eq. intros id'.
  rewrite lookup_insert, !lookup_ledger. cbn. rewrite lookup_insert.
  destruct (decide (id = id')) as [->|Hne]; [by rewrite decide_True|].
  by rewrite decide_False by congruence.
Qed.

#[export] Instance queue_laws sc qn : QueueLaws (queue_of sc qn).
Proof. destruct qn; apply _. Qed.

(** Queues do not share rows. *)
Lemma put_foreign sc qn sc' qn' id d x :
  (sc, qn) ≠ (sc', qn') → q_map (queue_of sc qn) (q_put (queue_of sc' qn') id d x) = q_map (queue_of sc qn) x.
Proof.
  intros Hne. apply map_eq. intros id'. destruct qn as [|p], qn' as [|p']; cbn [queue_of].
  - rewrite !lookup_outbox, message_put, bool_decide_eq_false_2 by congruence.
    by destruct (message sc id' x).
  - done.
  - by rewrite !lookup_ledger.
  - rewrite !lookup_ledger. cbn. by rewrite lookup_insert_ne by congruence.
Qed.
End laws.

Section effects.
Context `{Clock, Database, Json, RowLocks, TextOrder, Visits} `{!JsonCodec Run}.
Abbreviation Tx := (M error (DB Forja)).

Definition forget {A} (m : Tx A) : Tx unit := _ ← m; mret tt.

Definition stream_run (st : PgStore) (op : stream_op) : Tx unit :=
  match op with
  | OpClaim OutboxQueue worker limit ttl => forget (ClaimOutbox st worker limit ttl)
  | OpClaim (Ledger p) worker limit ttl => forget (ClaimProjectionDeliveries st p worker limit ttl)
  | OpComplete OutboxQueue id worker token => CompleteOutbox st id worker token
  | OpComplete (Ledger p) id worker token => CompleteProjectionDelivery st p id worker token
  | OpFail OutboxQueue id worker token cause retryAt maxAttempts =>
      FailOutbox st id worker token cause retryAt maxAttempts
  | OpFail (Ledger p) id worker token cause retryAt maxAttempts =>
      FailProjectionDelivery st p id worker token cause retryAt maxAttempts
  | OpRequeue p id => RequeueProjectionDelivery st p id
  | OpEnsure p hash => EnsureProjectionConsumer st p hash
  | OpRebuild p => RebuildRunProjection st p
  | OpLag => forget (RetrievalProjectionLag st)
  end.

Definition add_letter (row : DeadLetterRow) (x : Stream) : Stream :=
  mkStream _ (events x) (outbox x) (outbox_last x) (consumers x)
    (deliveries x) (checkpoints x) (dead_letters x ++ [row]) (run_projections x).

(** The dead letter of a message that used up its attempts. *)
Definition letter (sc : Scope) (qn : queue_name) (worker : string) (id : Z) (e : EventRow)
    (cause : Cause) : DeadLetterRow :=
  mkDeadLetterRow _ sc (match qn with OutboxQueue => worker | Ledger p => p end) id (ev_id e)
    (cause_type cause) (truncateError cause) (ev_payload e).

Definition exhausted (maxAttempts : Z) (d : Delivery) : bool := (maxAttempts <=? dl_attempts d)%Z.

(** The checkpoint after a completion. *)
Definition checkpointed (sc : Scope) (qn : queue_name) (x : Stream) : Stream :=
  match qn with
  | OutboxQueue => x
  | Ledger p => set_checkpoints (alter (λ last, advanced (sc, p) last x) (sc, p)) x
  end.

Definition registered (key : ProjectorKey) (hash : string) (x : Stream) : Stream :=
  set_checkpoints (λ m, match m !! key with Some _ => m | None => <[key := 0%Z]> m end)
    (backfill key (set_consumers (λ m,
       match m !! key with Some _ => m | None => <[key := mkConsumerRow "active" hash]> m end) x)).

(** [x'] is [x] after the operation, during the readings [n] to [n']. *)
Inductive effect (sc : Scope) (n n' : nat) (x : Stream) : stream_op → Stream → Prop :=
| eff_idle op : effect sc n n' x op x
| eff_claim qn worker limit ttl cs :
    batch (queue_of sc qn) worker limit (intervalString ttl) n n' x cs →
    effect sc n n' x (OpClaim qn worker limit ttl) (puts (queue_of sc qn) cs x)
| eff_complete qn id worker token d i :
    q_map (queue_of sc qn) x !! id = Some d → held n n' worker token d → n ≤ i < n' →
    effect sc n n' x (OpComplete qn id worker token)
      (checkpointed sc qn (q_put (queue_of sc qn) id (publishedDelivery (clock_reading i) d) x))
| eff_fail qn id worker token cause retryAt maxAttempts d e :
    q_map (queue_of sc qn) x !! id = Some d → held n n' worker token d →
    message_event sc id x = Some e →
    effect sc n n' x (OpFail qn id worker token (Some cause) retryAt maxAttempts)
      (q_put (queue_of sc qn) id
         (failedDelivery (if exhausted maxAttempts d then "dead" else "pending") retryAt
            (truncateError cause) d)
         (if exhausted maxAttempts d then add_letter (letter sc qn worker id e cause) x else x))
| eff_requeue p id d i :
    q_map (ledger (sc, p)) x !! id = Some d → dl_state d = "dead" →
    effect sc n n' x (OpRequeue p id)
      (q_put (ledger (sc, p)) id
         (mkDelivery "pending" (clock_reading i) None None (dl_token d) 0 None (dl_published d)) x)
| eff_ensure p hash : effect sc n n' x (OpEnsure p hash) (registered (sc, p) hash x)
| eff_rebuild p projections :
    effect sc n n' x (OpRebuild p)
      (set_checkpoints <[(sc, p) := watermark sc x]> (set_projections (λ _, projections) x)).

(** The tables other than the stream do not change. *)
Definition affects (st : PgStore) (op : stream_op) (s s' : DB Forja) : Prop :=
  readings s ≤ readings s' ∧ ∃ x, tables s' = with_stream (λ _, x) (tables s) ∧
    effect (store_scope st) (readings s) (readings s') (stream (tables s)) op x.

Lemma affects_none st op s s' :
  tables s' = tables s → readings s ≤ readings s' → affects st op s s'.
Proof.
  intros Ht Hr. split; [done|]. exists (stream (tables s)). split; [|constructor].
  rewrite Ht. by destruct (tables s).
Qed.

(** ** Clock readings only accumulate *)

Definition ticks {A} (m : Tx A) : Prop := ∀ s r s', m s = (r, s') → readings s ≤ readings s'.

Lemma ticks_reader {A} (m : Tx A) : reader m → ticks m.
Proof. intros Hm s r s' Hrun. by destruct (Hm _ _ _ Hrun). Qed.
Lemma ticks_bind {A B} (m : Tx A) (k : A → Tx B) : ticks m → (∀ a, ticks (k a)) → ticks (m ≫= k).
Proof.
  intros Hm Hk s r s'. rewrite M_bind_run. destruct (m s) as [[a|e] s1] eqn:Hms;
    apply Hm in Hms.
  - intros Hrun%Hk. lia.
  - by intros [= _ <-].
Qed.
Lemma ticks_write f : ticks (write f).
Proof. by intros s r s' [= _ <-]. Qed.
Lemma ticks_atomically {A} (m : Tx A) : ticks m → ticks (atomically m).
Proof.
  intros Hm s r s'. unfold atomically. destruct (m s) as [[a|e] s1] eqn:Hms; apply Hm in Hms;
    by intros [= _ <-].
Qed.

Lemma batch_mono q worker limit ttl n n' m' x cs :
  n' ≤ m' → batch q worker limit ttl n n' x cs → batch q worker limit ttl n m' x cs.
Proof.
  intros Hm [? ? ? Hrows]. split; [done..|]. intros c Hc.
  destruct (Hrows c Hc) as (d & Hd & Hripe & Hid & i & Hi & Hnew). exists d. split; [done|].
  split; [by eapply ripe_mono|]. split; [done|]. exists i. split; [lia|done].
Qed.

Lemma effect_mono sc n n' m' x op x' :
  n' ≤ m' → effect sc n n' x op x' → effect sc n m' x op x'.
Proof.
  intros Hm []; econstructor; try done; try lia; [by eapply batch_mono|by eapply held_mono..].
Qed.

Lemma affects_later st op s s1 s' :
  affects st op s s1 → tables s' = tables s1 → readings s1 ≤ readings s' → affects st op s s'.
Proof.
  intros (Hr & x & Ht & Heff) Ht' Hr'. split; [lia|]. exists x. split; [congruence|].
  by eapply effect_mono.
Qed.

(** ** From a successful body to the outcome of the operation *)

Lemma affects_run {A} (m : Tx A) st op s r s' :
  safe m → ticks m → swp s m (λ _, affects st op s) → m s = (r, s') → affects st op s s'.
Proof.
  intros Hsafe Htick Hwp Hrun. destruct r as [a|e].
  - by apply (swp_run m _ s a s' Hwp).
  - apply affects_none; [by eapply Hsafe|by eapply Htick].
Qed.

Lemma affects_bind {A B} (m : Tx A) (k : A → Tx B) st op s r s' :
  safe m → ticks m → (∀ a, reader (k a)) → swp s m (λ _, affects st op s) →
  (m ≫= k) s = (r, s') → affects st op s s'.
Proof.
  intros Hsafe Htick Hk Hwp. rewrite M_bind_run. destruct (m s) as [[a|e] s1] eqn:Hm.
  - intros [Ht Hr]%Hk. eapply affects_later; [|done|done]. by apply (swp_run m _ s a s1 Hwp).
  - intros [= _ <-]. by eapply affects_run.
Qed.

Lemma forget_run {A} (m : Tx A) s r s' :
  forget m s = (r, s') → ∃ r0, m s = (r0, s').
Proof.
  unfold forget. rewrite M_bind_run. destruct (m s) as [[a|e] s1]; intros [= _ <-]; eauto.
Qed.

Lemma affects_reader {A} (m : Tx A) st op s r s' : reader m → m s = (r, s') → affects st op s s'.
Proof. intros Hm Hrun. destruct (Hm _ _ _ Hrun). by apply affects_none. Qed.
End effects.

#[export] Hint Resolve ticks_write : forja_parts.

(** Decides [ticks] for a body. *)
Ltac ticking := repeat first
  [ progress (intros; cbn beta zeta)
  | solve [auto 1 with forja_parts]
  | solve [apply ticks_reader; auto 1 with forja_parts]
  | apply ticks_bind
  | apply ticks_atomically
  | case_match ].

Section operations.
Context `{Clock, Database, Json, RowLocks, TextOrder, Visits} `{!JsonCodec Run}.
Abbreviation Tx := (M error (DB Forja)).

Lemma ticks_candidates locked rows limit : ticks (candidates locked rows limit).
Proof.
  revert limit. induction rows as [|r rows IH]; intros [|limit]; cbn [candidates]; by ticking.
Qed.

Lemma ticks_claim q op params worker limit ttl : ticks (claim q op params worker limit ttl).
Proof.
  unfold claim. apply ticks_atomically, ticks_bind; [by intros s r s' [= _ <-]|]. intros locked.
  ticking; [apply ticks_candidates|]. rename select (list _) into rows.
  match goal with |- ticks (claim_rows _ _ _ _ ?l) => induction l as [|r l IH] end;
    cbn [claim_rows]; unfold claim_row; ticking.
Qed.

Lemma safe_claim q op params worker limit ttl : safe (claim q op params worker limit ttl).
Proof. apply safe_atomically. Qed.

Lemma ticks_settle q op id worker token next :
  (∀ d, ticks (next d)) → ticks (settle q op id worker token next).
Proof. intros Hn. unfold settle, held_claim. ticking; apply Hn. Qed.

Lemma claim_affects {B} sc qn worker limit ttl st op params (k : list (Z * Delivery) → Tx B) s r s' :
  sc = store_scope st → (∀ a, reader (k a)) →
  (claim (queue_of sc qn) op params worker limit (intervalString ttl) ≫= k) s = (r, s') →
  affects st (OpClaim qn worker limit ttl) s s'.
Proof.
  intros -> Hk. apply affects_bind; [apply safe_claim|apply ticks_claim|done|].
  apply swp_claim. intros cs s1 Ht Hr _ Hb. split; [done|]. eexists. split; [exact Ht|].
  by constructor.
Qed.

Lemma ClaimOutbox_affects st worker limit ttl s r s' :
  ClaimOutbox st worker limit ttl s = (r, s') →
  affects st (OpClaim OutboxQueue worker limit ttl) s s'.
Proof.
  unfold ClaimOutbox. do 2 (case_match; [apply affects_reader, reader_throw|]).
  apply (claim_affects _ OutboxQueue); [done|]. reading.
Qed.

Lemma ClaimProjectionDeliveries_affects st p worker limit ttl s r s' :
  ClaimProjectionDeliveries st p worker limit ttl s = (r, s') →
  affects st (OpClaim (Ledger p) worker limit ttl) s s'.
Proof.
  unfold ClaimProjectionDeliveries. do 2 (case_match; [apply affects_reader, reader_throw|]).
  apply (claim_affects _ (Ledger p)); [done|]. reading.
Qed.

(** A row stamped with a reading. *)
Lemma swp_now s (f : Time → Delivery) (R : Delivery → DB Forja → Prop) :
  R (f (clock_reading (readings s))) (mkDB (tables s) (S (readings s)) (statements s)) →
  swp s (now ← clock_timestamp; mret (f now)) R.
Proof. intros HR. by swp_seq. Qed.

Lemma CompleteOutbox_affects st id worker token s r s' :
  CompleteOutbox st id worker token s = (r, s') →
  affects st (OpComplete OutboxQueue id worker token) s s'.
Proof.
  unfold CompleteOutbox. apply affects_bind; [apply safe_atomically| |by intros []; reading|].
  { unfold settle, held_claim, claim_at_commit. ticking. }
  swp_seq. apply swp_settle; cbn [tables readings].
  { intros s1 Ht Hr. swp_seq. by apply affects_none. }
  intros d s1 Ht Hr Hd Hheld. apply swp_now. intros _. swp_seq. apply swp_claim_at_commit.
  intros s2 Ht2 Hr2 _. swp_seq. cbn in Ht2, Hr2. split; [lia|]. eexists. split; [by rewrite Ht2, Ht|].
  eapply (eff_complete _ _ _ _ OutboxQueue); [done| |cbn; lia].
  eapply held_mono; [| |exact Hheld]; cbn; lia.
Qed.

Lemma checkpointed_insert sc p x last :
  checkpoints x !! (sc, p) = Some last →
  checkpointed sc (Ledger p) x = set_checkpoints <[(sc, p) := advanced (sc, p) last x]> x.
Proof.
  intros Hlast. unfold checkpointed, set_checkpoints. f_equal. apply map_eq. intros k.
  rewrite lookup_insert. case_decide as Hk.
  - subst k. rewrite lookup_alter_eq. change (checkpoints x !! ((sc, p) : ProjectorKey) = Some last) in Hlast.
    by rewrite Hlast.
  - by rewrite lookup_alter_ne.
Qed.

Lemma CompleteProjectionDelivery_affects st p id worker token s r s' :
  CompleteProjectionDelivery st p id worker token s = (r, s') →
  affects st (OpComplete (Ledger p) id worker token) s s'.
Proof.
  unfold CompleteProjectionDelivery. case_match; [apply affects_reader, reader_throw|].
  apply affects_run; [apply safe_atomically| |].
  { unfold settle, held_claim, advanceProjectionCheckpoint. ticking. }
  swp_seq. apply swp_settle; cbn [tables readings].
  { intros s1 Ht Hr. swp_seq. }
  intros d s1 Ht Hr Hd Hheld. apply swp_now. intros _. unfold advanceProjectionCheckpoint. swp_seq.
  destruct (checkpoints _ !! _) as [last|] eqn:Hlast; swp_seq.
  rewrite Ht in Hlast. split; [cbn; lia|].
  set (x1 := q_put (ledger (store_scope st, p)) id
            (publishedDelivery (clock_reading (readings s1)) d) (stream (tables s))).
  exists (checkpointed (store_scope st) (Ledger p) x1).
  split; [by rewrite (checkpointed_insert _ _ x1 last Hlast), Ht|].
  eapply (eff_complete _ _ _ _ (Ledger p)); [done| |cbn; lia].
  eapply held_mono; [| |exact Hheld]; cbn; lia.
Qed.

(** Reading a claim and its event, and burying the event, leave the queue alone. *)
Lemma swp_held_event s q sc id worker token (Q : option (Delivery * EventRow) → DB Forja → Prop) :
  (∀ s', tables s' = tables s → readings s ≤ readings s' → Q None s') →
  (∀ d e s', tables s' = tables s → readings s ≤ readings s' →
     q_map q (stream (tables s)) !! id = Some d →
     held (readings s) (readings s') worker token d →
     message_event sc id (stream (tables s)) = Some e → Q (Some (d, e)) s') →
  swp s (held_event q sc id worker token) Q.
Proof.
  intros HN HS. unfold held_event. apply swp_bind, swp_held_claim.
  - intros s1 Ht Hr. swp_seq. by apply HN.
  - intros d s1 Ht Hr Hd Hheld. swp_seq. rewrite Ht.
    destruct (message_event sc id (stream (tables s))) as [e|] eqn:He; [by apply HS|by apply HN].
Qed.

Lemma swp_bury s st op projector id e cause (Q : unit → DB Forja → Prop) :
  (∀ s', tables s' = with_stream (add_letter (mkDeadLetterRow _ (store_scope st) projector id
     (ev_id e) (cause_type cause) (truncateError cause) (ev_payload e))) (tables s) →
     readings s' = readings s → Q tt s') →
  swp s (bury st op projector id e cause) Q.
Proof. intros HQ. unfold bury. swp_seq. by apply HQ. Qed.

(** The middle of both failure operations. *)
Lemma swp_failure {B} s st qn op op' projector id worker token cause retryAt maxAttempts d e
    params (k : option Delivery → Tx B) (Q : B → DB Forja → Prop) :
  let sc := store_scope st in
  let q := queue_of sc qn in
  let nextState := if (maxAttempts <=? dl_attempts d)%Z then "dead" else "pending" in
  projector = match qn with OutboxQueue => worker | Ledger p => p end →
  q_map q (stream (tables s)) !! id = Some d →
  (∀ s', swp s' (k None) Q) →
  (∀ old s', readings s ≤ readings s' → forallb pg_text (params nextState) = true →
     tables s' = with_stream (λ x, q_put q id
       (failedDelivery (if exhausted maxAttempts d then "dead" else "pending") retryAt
          (truncateError cause) d)
       (if exhausted maxAttempts d then add_letter (letter sc qn worker id e cause) x else x))
       (tables s) → swp s' (k (Some old)) Q) →
  swp s (_ ← (if bool_decide (nextState = "dead") then bury st op projector id e cause else mret tt);
         _ ← statement op' (params nextState);
         updated ← settle q op' id worker token
           (λ d, mret (failedDelivery nextState retryAt (truncateError cause) d));
         k updated) Q.
Proof.
  intros sc q nextState -> Hd HN HS. unfold exhausted in HS.
  assert (∀ row x, q_map q (add_letter row x) = q_map q x) as Hq by (by destruct qn).
  subst nextState. destruct (maxAttempts <=? dl_attempts d)%Z.
  - rewrite bool_decide_eq_true_2 by done. apply swp_bind, swp_bury. intros s1 Ht1 Hr1. swp_seq.
    apply swp_settle; [auto|]. cbn [tables readings].
    intros d' s2 Ht2 Hr2 Hd' _. rewrite Ht1 in Hd'. cbn in Hd'. rewrite Hq, Hd in Hd'.
    injection Hd' as <-. swp_seq. intros _. apply HS; cbn; [lia|done|]. by rewrite Ht2, Ht1.
  - rewrite bool_decide_eq_false_2 by done. swp_seq. apply swp_settle; [auto|].
    cbn [tables readings]. intros d' s2 Ht2 Hr2 Hd' _.
    rewrite Hd in Hd'. injection Hd' as <-. swp_seq. intros _. apply HS; cbn; [lia|done|]. by rewrite Ht2.
Qed.

(** What a failure operation that succeeds has done. *)
Definition failed (st : PgStore) (qn : queue_name) (id : Z) (worker : string) (token : Z)
    (cause : option Cause) (retryAt : Time) (maxAttempts : Z) (s s' : DB Forja) : Prop :=
  let sc := store_scope st in
  readings s ≤ readings s' ∧ ∃ c d e, cause = Some c ∧
    q_map (queue_of sc qn) (stream (tables s)) !! id = Some d ∧
    held (readings s) (readings s') worker token d ∧
    message_event sc id (stream (tables s)) = Some e ∧ pg_text (truncateError c) = true ∧
    tables s' = with_stream (λ x, q_put (queue_of sc qn) id
       (failedDelivery (if exhausted maxAttempts d then "dead" else "pending") retryAt
          (truncateError c) d)
       (if exhausted maxAttempts d then add_letter (letter sc qn worker id e c) x else x))
      (tables s).

Lemma swp_fail st qn id worker token cause retryAt maxAttempts s :
  swp s (stream_run st (OpFail qn id worker token cause retryAt maxAttempts))
    (λ _, failed st qn id worker token cause retryAt maxAttempts s).
Proof.
  destruct cause as [c|]; [|by destruct qn; apply swp_throw].
  destruct qn as [|p]; cbn [stream_run]; [unfold FailOutbox|unfold FailProjectionDelivery];
    (case_match; [apply swp_throw|]); swp_seq;
    (apply swp_held_event; cbn [tables readings]; [intros; swp_seq|]);
    intros d e s1 Ht Hr Hd Hheld He.
  - apply (swp_failure s1 st OutboxQueue _ _ _ id worker token c retryAt maxAttempts d e
      (λ next, own st [next; truncateError c; worker])); [done|by rewrite Ht|intros; swp_seq|].
    intros old s2 Hr2 Htext Ht2. swp_seq. apply swp_claim_at_commit. cbn [tables readings].
    intros s3 Ht3 Hr3 _. split; [lia|]. exists c, d, e.
    split_and!; [done|done| |done|param_text|by rewrite Ht3, Ht2, Ht].
    eapply held_mono; [| |exact Hheld]; lia.
  - apply (swp_failure s1 st (Ledger p) _ _ _ id worker token c retryAt maxAttempts d e
      (λ next, own st [next; truncateError c; p; worker])); [done|by rewrite Ht|intros; swp_seq|].
    intros old s2 Hr2 Htext Ht2. swp_seq. split; [cbn; lia|]. exists c, d, e.
    split_and!; [done|done| |done|param_text|by cbn; rewrite Ht2, Ht].
    eapply held_mono; [| |exact Hheld]; cbn; lia.
Qed.

Lemma safe_fail st qn id worker token cause retryAt maxAttempts :
  safe (stream_run st (OpFail qn id worker token cause retryAt maxAttempts)).
Proof.
  destruct qn, cause; cbn [stream_run]; unfold FailOutbox, FailProjectionDelivery;
    repeat case_match; (apply safe_atomically || apply safe_reader, reader_throw).
Qed.

Lemma fail_affects st qn id worker token cause retryAt maxAttempts s r s' :
  stream_run st (OpFail qn id worker token cause retryAt maxAttempts) s = (r, s') →
  affects st (OpFail qn id worker token cause retryAt maxAttempts) s s'.
Proof.
  apply affects_run.
  - apply safe_fail.
  - destruct qn; cbn [stream_run]; unfold FailOutbox, FailProjectionDelivery, held_event, bury, settle,
      held_claim, claim_at_commit; ticking.
  - eapply swp_mono; [apply swp_fail|]. intros _ s1 (Hr & c & d & e & -> & Hd & Hh & He & _ & Ht).
    split; [done|]. eexists. split; [exact Ht|]. by apply eff_fail.
Qed.

Lemma RequeueProjectionDelivery_affects st p id s r s' :
  RequeueProjectionDelivery st p id s = (r, s') → affects st (OpRequeue p id) s s'.
Proof.
  unfold RequeueProjectionDelivery. case_match; [apply affects_reader, reader_throw|].
  apply affects_bind; [apply safe_atomically|ticking|unfold one_row; reading|].
  swp_seq. destruct (q_map _ _ !! id) as [d|] eqn:Hd; [|by swp_seq; apply affects_none].
  case_bool_decide as Hdead; swp_seq; [|by apply affects_none].
  split; [cbn; lia|]. eexists. split; [done|]. by econstructor.
Qed.

Lemma EnsureProjectionConsumer_affects st p hash s r s' :
  EnsureProjectionConsumer st p hash s = (r, s') → affects st (OpEnsure p hash) s s'.
Proof.
  unfold EnsureProjectionConsumer. case_match; [apply affects_reader, reader_throw|].
  apply affects_run; [apply safe_atomically|ticking|]. swp_seq.
  assert (∀ x1, x1 = set_consumers (λ m, match m !! (store_scope st, p) with
      Some _ => m | None => <[(store_scope st, p) := mkConsumerRow "active" hash]> m end) (stream (tables s)) →
    effect (store_scope st) (readings s) (readings s) (stream (tables s)) (OpEnsure p hash)
      (set_checkpoints (λ m, match m !! (store_scope st, p) with Some _ => m
         | None => <[(store_scope st, p) := 0%Z]> m end) (backfill (store_scope st, p) x1))) as Heff
    by (intros x1 ->; constructor).
  destruct (consumers _ !! _) as [row|] eqn:Hrow; [case_match|]; swp_seq;
    (split; [cbn; lia|]; eexists; split; [done|]; apply Heff).
  - unfold set_consumers. rewrite Hrow. by destruct (stream (tables s)).
  - unfold set_consumers. by rewrite Hrow.
Qed.

Lemma insert_projections_spec st key l s (Q : unit → DB Forja → Prop) :
  (∀ f s', tables s' = with_stream (set_projections f) (tables s) → readings s' = readings s →
     Q tt s') →
  swp s (insert_projections st key l) Q.
Proof.
  revert s. induction l as [|[id p] l IH]; intros s HQ; cbn [insert_projections].
  - swp_seq. apply (HQ id); [by destruct (tables s) as [? [] ?]|done].
  - swp_seq. apply IH. cbn [tables readings]. intros f s' Ht Hr.
    eapply (HQ (λ m, f (<[_ := _]> m))); [exact Ht|done].
Qed.

Lemma ticks_insert_projections st key l : ticks (insert_projections st key l).
Proof. induction l as [|[id p] l IH]; cbn [insert_projections]; ticking. Qed.

Lemma RebuildRunProjection_affects st p s r s' :
  RebuildRunProjection st p s = (r, s') → affects st (OpRebuild p) s s'.
Proof.
  unfold RebuildRunProjection. case_match; [apply affects_reader, reader_throw|].
  apply affects_run; [apply safe_atomically| |].
  { unfold replayRunEvents, reconcileCanonicalRuns. ticking. apply ticks_insert_projections. }
  unfold replayRunEvents, reconcileCanonicalRuns. swp_seq.
  apply swp_intro. intros latest s1 [= _ <-]. swp_seq. apply swp_intro. intros seen s2 [= _ <-].
  case_match; swp_seq. apply insert_projections_spec. cbn [tables readings]. intros f s3 Ht Hr.
  swp_seq. split; [cbn; lia|]. eexists. split; [by cbn [tables]; rewrite Ht|].
  exact (eff_rebuild _ _ _ (stream (tables s)) p (run_projections (stream (with_stream
    (set_projections f) (with_stream (set_projections (filter (λ kr, kr.1.1 ≠ (store_scope st, p)))) (tables s)))))).
Qed.

(** Every stream operation has its effect or none. *)
Lemma stream_affects st op s r s' : stream_run st op s = (r, s') → affects st op s s'.
Proof.
  destruct op as [[|p]|[|p]|[|p]| | | |]; cbn [stream_run].
  - intros (r0 & Hrun)%forget_run. by eapply ClaimOutbox_affects.
  - intros (r0 & Hrun)%forget_run. by eapply ClaimProjectionDeliveries_affects.
  - apply CompleteOutbox_affects.
  - apply CompleteProjectionDelivery_affects.
  - apply (fail_affects _ OutboxQueue).
  - apply (fail_affects _ (Ledger p)).
  - apply RequeueProjectionDelivery_affects.
  - apply EnsureProjectionConsumer_affects.
  - apply RebuildRunProjection_affects.
  - intros (r0 & Hrun)%forget_run. revert Hrun. apply affects_reader.
    unfold RetrievalProjectionLag. reading.
Qed.

(** ** Success of a settlement *)

(** The operation found its claim held and live. *)
Definition found_held (sc : Scope) (qn : queue_name) (id : Z) (worker : string) (token : Z)
    (s s' : DB Forja) : Prop :=
  ∃ d, q_map (queue_of sc qn) (stream (tables s)) !! id = Some d ∧
    held (readings s) (readings s') worker token d.

Lemma found_held_intro sc qn id worker token s n d (s1 s' : DB Forja) :
  readings s = n → readings s1 ≤ readings s' → q_map (queue_of sc qn) (stream (tables s)) !! id = Some d →
  held n (readings s1) worker token d → found_held sc qn id worker token s s'.
Proof. intros <- Hr Hd Hh. exists d. split; [done|]. by eapply held_mono. Qed.

Lemma swp_complete st qn id worker token s :
  swp s (stream_run st (OpComplete qn id worker token))
    (λ _, found_held (store_scope st) qn id worker token s).
Proof.
  destruct qn as [|p]; cbn [stream_run].
  - unfold CompleteOutbox. swp_seq. apply swp_settle; cbn [tables readings].
    { intros s1 Ht Hr. swp_seq. }
    intros d s1 Ht Hr Hd Hheld. apply swp_now. intros _. swp_seq. apply swp_claim_at_commit.
    intros s2 Ht2 Hr2 _. swp_seq. cbn in Hr2.
    eapply (found_held_intro _ OutboxQueue _ _ _ _ _ _ s1); [done|lia|done|done].
  - unfold CompleteProjectionDelivery. case_match; [apply swp_throw|].
    swp_seq. apply swp_settle; cbn [tables readings]; [intros; swp_seq|].
    intros d s1 Ht Hr Hd Hheld. apply swp_now. intros _. unfold advanceProjectionCheckpoint. swp_seq.
    destruct (checkpoints _ !! _); swp_seq.
    eapply (found_held_intro _ (Ledger p) _ _ _ _ _ _ s1); [done|cbn; lia|done|done].
Qed.

End operations.
