(* ===== verification/WorkerResults.v ===== *)
(** * Package [internal/postgres]: completions of a worker ([attempt_lifecycle.go])

    What [FinishAttempt] accepts as the terminal result of a supervised process,
    and the text of it that enters the request hash. The compiled JSON Schemas
    are a third-party library's and a parameter ([WorkerContracts]), and so is
    the JSON text of a report ([ReportJson]). *)

From S2P Require Import Prelude GoLib Fault Contracts Identity RunState ControlMemory.
From S2P Require Import Postgres PgTables PgEvents.
From Stdlib Require Import Ascii.

(** ** [time.Time.Format(time.RFC3339Nano)] of a time in UTC *)

(** Year, month and day of a number of days since 1 January 1970, in the
    proleptic Gregorian calendar. *)
Definition civil (days : Z) : Z * Z * Z :=
  let z := (days + 719468)%Z in
  let era := (z / 146097)%Z in
  let doe := (z `mod` 146097)%Z in
  let yoe := ((doe - doe / 1460 + doe / 36524 - doe / 146096) / 365)%Z in
  let doy := (doe - (365 * yoe + yoe / 4 - yoe / 100))%Z in
  let mp := ((5 * doy + 2) / 153)%Z in
  let day := (doy - (153 * mp + 2) / 5 + 1)%Z in
  let month := (if (mp <? 10)%Z then mp + 3 else mp - 9)%Z in
  ((yoe + era * 400 + (if (month <=? 2)%Z then 1 else 0))%Z, month, day).

Fixpoint zeros (n : nat) : string := match n with 0 => "" | S n' => String "0" (zeros n') end.

(** Zero-padded to a width, the sign in front. *)
Definition padded (width : nat) (z : Z) : string :=
  let digits := pretty (Z.abs z) in
  (if (z <? 0)%Z then "-" else "") +:+ zeros (width - String.length digits) +:+ digits.

(** Nine digits of a second without the trailing zeros. *)
Definition fraction (nanos : Z) : string :=
  if (nanos =? 0)%Z then ""
  else "." +:+ String.rev (trim_left ["0"] 9 (String.rev (padded 9 nanos))).

Definition FormatRFC3339Nano (t : Time) : string :=
  let seconds := (instant t / Second)%Z in
  let '(year, month, day) := civil (seconds / 86400) in
  let clock := (seconds `mod` 86400)%Z in
  padded 4 year +:+ "-" +:+ padded 2 month +:+ "-" +:+ padded 2 day +:+ "T" +:+
  padded 2 (clock / 3600) +:+ ":" +:+ padded 2 ((clock / 60) `mod` 60) +:+ ":" +:+
  padded 2 (clock `mod` 60) +:+ fraction (instant t `mod` Second) +:+ "Z".

Example format_epoch : FormatRFC3339Nano (mkTime 0 0) = "1970-01-01T00:00:00Z".
Proof. vm_compute. reflexivity. Qed.
Example format_zero : FormatRFC3339Nano zero_time = "0001-01-01T00:00:00Z".
Proof. vm_compute. reflexivity. Qed.
Example format_leap :
  FormatRFC3339Nano (mkTime 1709210096123456000 0) = "2024-02-29T12:34:56.123456Z".
Proof. vm_compute. reflexivity. Qed.

(** ** Parameters *)

Class WorkerContracts `{Json} := {
  (** [contracts.NewRegistry()]. *)
  registry_err : option error;
  (** [ValidateJSON("worker-result.schema.json", encoded)]. *)
  worker_result_schema : json → option error;
}.

(** [json.Marshal(report)] as text; a closed contract that always encodes. *)
Class ReportJson := report_text : option WorkerReport → string.

(** ** Completions *)

Definition terminalAttemptStatuses : list string :=
  ["succeeded"; "blocked"; "failed_retryable"; "failed_terminal"; "cancelled"].

Section completions.
Context `{Sha256, Json, !JsonCodec WorkerResult, !WorkerContracts, ReportJson}.

Definition validateCompletion (attemptID : string) (result : WorkerResult) : Fault.result unit :=
  let op := "postgres.FinishAttempt" in
  let invalid m := Err (fault CodeInvalidArgument op m) in
  let wrap code m e := Err (FaultError code op (Lit m) (Some e)) in
  match registry_err with
  | Some e => wrap CodeInternal "compile worker contracts" e
  | None =>
  if negb (ValidString (wr_Stdout result)) || negb (ValidString (wr_Stderr result))
  then invalid "worker output must be valid UTF-8"
  else match Marshal result with
  | Err e => wrap CodeInvalidArgument "encode worker result" e
  | Ok encoded =>
  match worker_result_schema encoded with
  | Some e => wrap CodeInvalidArgument "worker result violates its contract" e
  | None =>
  if negb (bool_decide (wr_AttemptID result = attemptID)) ||
     negb (bool_decide (wr_SchemaVersion result = "1.0")) ||
     negb (bool_decide (wr_Status result ∈ terminalAttemptStatuses)) ||
     IsZero (wr_StartedAt result) || IsZero (wr_FinishedAt result) ||
     Before (wr_FinishedAt result) (wr_StartedAt result) || (wr_DurationMS result <? 0)%Z
  then invalid "invalid terminal worker result"
  else if negb (forallb hex_digest [wr_StdoutSHA256 result; wr_StderrSHA256 result])
  then invalid "invalid output digest"
  else if negb (bool_decide (wr_StdoutSHA256 result = hexText (Sum256 (wr_Stdout result)))) ||
          negb (bool_decide (wr_StderrSHA256 result = hexText (Sum256 (wr_Stderr result))))
  then invalid "output digest does not match captured output"
  else let usage := wr_Usage result in
  fail_if ((wu_InputTokens usage <? 0) || (wu_CachedInputTokens usage <? 0) ||
           (wu_OutputTokens usage <? 0) || (wu_ToolCalls usage <? 0))%Z
    (fault CodeInvalidArgument op "invalid worker usage")
  end end end.

Definition workerReportSHA256 (report : option WorkerReport) : string :=
  hexText (Sum256 (report_text report)).

(** The JSON text of a slice of strings. *)
Definition slice_text (l : option (list string)) : string :=
  match l with Some l => json_strings l | None => "null" end.

Definition FormatBool (b : bool) : string := if b then "true" else "false".

Definition workerResultHashParts (result : WorkerResult) : list string :=
  let exitCode := match wr_ExitCode result with Some z => pretty z | None => "null" end in
  [wr_TaskID result; wr_Adapter result; wr_Status result; FormatBool (wr_Retryable result);
   wr_TerminationReason result; FormatRFC3339Nano (UTC (wr_StartedAt result));
   FormatRFC3339Nano (UTC (wr_FinishedAt result)); pretty (wr_DurationMS result); exitCode;
   wr_StdoutSHA256 result; wr_StderrSHA256 result; workerReportSHA256 (wr_Report result);
   pretty (wu_InputTokens (wr_Usage result)); pretty (wu_CachedInputTokens (wr_Usage result));
   pretty (wu_OutputTokens (wr_Usage result)); pretty (wu_ToolCalls (wr_Usage result));
   slice_text (wr_EvidenceRefs result)].

(** [validateCompletion] accepts exactly a contract-conforming terminal result of
    this attempt whose digests are those of its outputs. *)
Record completes (attemptID : string) (result : WorkerResult) : Prop := {
  co_registry : registry_err = None;
  co_outputs : ValidString (wr_Stdout result) = true ∧ ValidString (wr_Stderr result) = true;
  co_schema : ∃ encoded, Marshal result = Ok encoded ∧ worker_result_schema encoded = None;
  co_attempt : wr_AttemptID result = attemptID;
  co_version : wr_SchemaVersion result = "1.0";
  co_status : wr_Status result ∈ terminalAttemptStatuses;
  co_started : IsZero (wr_StartedAt result) = false;
  co_finished : IsZero (wr_FinishedAt result) = false;
  co_order : (instant (wr_StartedAt result) ≤ instant (wr_FinishedAt result))%Z;
  co_duration : (0 ≤ wr_DurationMS result)%Z;
  co_hex : hex_digest (wr_StdoutSHA256 result) = true ∧ hex_digest (wr_StderrSHA256 result) = true;
  co_digests : wr_StdoutSHA256 result = hexText (Sum256 (wr_Stdout result)) ∧
               wr_StderrSHA256 result = hexText (Sum256 (wr_Stderr result));
  co_usage : (0 ≤ wu_InputTokens (wr_Usage result) ∧ 0 ≤ wu_CachedInputTokens (wr_Usage result) ∧
              0 ≤ wu_OutputTokens (wr_Usage result) ∧ 0 ≤ wu_ToolCalls (wr_Usage result))%Z;
}.

Lemma validateCompletion_exact attemptID result :
  validateCompletion attemptID result = Ok tt ↔ completes attemptID result.
Proof.
  unfold validateCompletion. split.
  - intros Hv. destruct registry_err eqn:Hreg; [done|].
    destruct (_ || _) eqn:Hout in Hv; [done|].
    destruct (Marshal result) as [encoded|] eqn:Hm; [|done].
    destruct (worker_result_schema encoded) eqn:Hsch; [done|].
    destruct (_ || _) eqn:Hterm in Hv; [done|].
    destruct (negb (forallb _ _)) eqn:Hhex in Hv; [done|].
    destruct (_ || _) eqn:Hdig in Hv; [done|]. apply fail_if_ok in Hv.
    unfold Before in *. cbn in Hhex. bool_prop. destruct_and!.
    split; try done; [by exists encoded|lia..].
  - intros [-> [-> ->] (encoded & -> & ->) Ha Hv Hs Hst Hfi Ho Hd [Hh1 Hh2] [Hd1 Hd2] Hu]. cbn -[hexText].
    rewrite !bool_decide_eq_true_2, Hst, Hfi, Hh1, Hh2 by done. unfold Before.
    rewrite (proj2 (Z.ltb_ge _ _)) by lia. rewrite (proj2 (Z.ltb_ge _ _)) by lia. cbn -[hexText].
    by rewrite !(proj2 (Z.ltb_ge _ _)) by lia.
Qed.
End completions.
