(* ===== verification/Attempts.v ===== *)
(** * Package [internal/postgres]: attempts ([attempts.go], [attempt_lifecycle.go])

    An attempt is one execution of a run by a scheduler that holds a fenced lease.
    It is created queued under the next ordinal of its run, started, and finished
    with the result of its worker; attempts of a scheduler that lost its lease
    are reconciled by its successor. Every write happens between two checks of
    the caller's lease and leaves an event and a receipt. *)

From S2P Require Import Prelude GoLib Fault Contracts Identity RunState ControlMemory.
From S2P Require Import AttemptRecords Postgres Leases PgTables PgEvents RunProjection WorkerResults.

(** ** Validation *)

Definition validateAttemptFence (proof : LeaseProof) (tenant repository : string) : result unit :=
  let key := lp_LeaseKey proof in
  fail_if (negb (bool_decide (k_TenantID key = tenant)) ||
           negb (bool_decide (k_RepositoryID key = repository)) ||
           negb (bool_decide (k_ResourceType key = "scheduler")) ||
           bool_decide (k_ResourceID key = "") || bool_decide (lp_OwnerID proof = "") ||
           (lp_FencingToken proof <? 1)%Z)
    (fault CodeInvalidArgument "postgres.CreateAttempt"
       "a valid scheduler lease proof is required").

(** [attempt_] followed by the UUID of a run ID. *)
Definition attempt_id_ok (attemptID : string) : bool :=
  HasPrefix attemptID "attempt_" &&
  match ParseRunID ("run_" +:+ TrimPrefix attemptID "attempt_") with
  | Ok parsed => bool_decide ("attempt_" +:+ TrimPrefix parsed "run_" = attemptID)
  | Err _ => false
  end.

Definition validateAttemptID (attemptID : string) : result unit :=
  fail_if (negb (attempt_id_ok attemptID))
    (fault CodeInvalidArgument "postgres.validateAttemptID" "invalid attempt ID").

Definition validateAttemptLifecycleInput (attemptID : string) (expectedVersion : Z)
    (metadata : CommandMetadata) (proof : LeaseProof) (st : PgStore) : result unit :=
  _ ← validateAttemptID attemptID;
  _ ← fail_if (expectedVersion <? 1)%Z
        (fault CodeInvalidArgument "postgres.validateAttemptLifecycleInput"
           "expected version must be positive");
  _ ← ValidateCommandMetadata metadata;
  validateAttemptFence proof (tenantID st) (repositoryID st).

Definition attemptOwnedBy (attempt : Attempt) (proof : LeaseProof) : bool :=
  bool_decide (a_LeaseResourceType attempt = k_ResourceType (lp_LeaseKey proof)) &&
  bool_decide (a_LeaseResourceID attempt = k_ResourceID (lp_LeaseKey proof)) &&
  bool_decide (a_WorkerID attempt = lp_OwnerID proof) &&
  (a_FencingToken attempt =? lp_FencingToken proof)%Z.

(** ** Rows *)

Definition scanAttempt (id : string) (row : AttemptRow) : Attempt :=
  mkAttempt id (at_run row) (at_ordinal row) (at_status row) (at_lease_type row)
    (at_lease_id row) (at_worker row) (at_token row) (timestamptz <$> at_started row)
    (timestamptz <$> at_finished row) (at_version row) (timestamptz (at_created row))
    (timestamptz (at_updated row)).

(** The row an [UPDATE] of the life cycle leaves. *)
Definition moved_attempt (row : AttemptRow) (status : string) (started finished : option Time)
    (now : Time) : AttemptRow :=
  mkAttemptRow (at_tenant row) (at_run row) (at_ordinal row) status (at_lease_type row)
    (at_lease_id row) (at_worker row) (at_token row) started finished (at_version row + 1)
    (at_created row) now.

Definition attempt_check (id : string) (row : AttemptRow) : bool :=
  negb (prefixed_word "attempt" id) || (at_ordinal row <? 1)%Z ||
  bad_length 1 100 (at_status row) || negb (bool_decide (at_lease_type row = "scheduler")) ||
  bad_length 1 500 (at_lease_id row) || bad_length 1 500 (at_worker row) ||
  (at_token row <? 1)%Z || (at_version row <? 1)%Z.

(** The lease that protects an attempt of the repository. *)
Definition attempt_lease (repository : string) (row : AttemptRow) : LeaseKey :=
  mkLeaseKey (at_tenant row) repository (at_lease_type row) (at_lease_id row).

Section tables.
Context `{Json}.

Definition attempt_insert_fault (id : string) (row : AttemptRow) (t : Forja) : option pgfault :=
  first_fault
    [violated "22003" (2 ^ 31 - 1 <? at_ordinal row)%Z;
     violated CheckViolation (attempt_check id row);
     violated UniqueViolation
       (bool_decide (is_Some (attempts (work t) !! id)) ||
        bool_decide (map_Exists (λ _ a, at_run a = at_run row ∧ at_ordinal a = at_ordinal row)
                       (attempts (work t))));
     violated ForeignKeyViolation
       (negb (match runs (canonical t) !! at_run row with
              | Some r => bool_decide ((run_scope r).1 = at_tenant row)
              | None => false
              end))].

Definition set_attempts (f : gmap string AttemptRow → gmap string AttemptRow) : Forja → Forja :=
  with_work (λ w, mkWork (f (attempts w)) (delivery_publications w) (lease_tables w)).

(** [COALESCE(max(ordinal), 0)+1] over the attempts of the run. *)
Definition next_ordinal (tenant runID : string) (w : Work) : Z :=
  (foldr Z.max 0 (at_ordinal ∘ snd <$>
    map_to_list (filter (λ ka, at_tenant ka.2 = tenant ∧ at_run ka.2 = runID) (attempts w))) + 1)%Z.

(** The attempt row joined with its run, in the store's tenant and repository. *)
Definition own_attempt (sc : Scope) (id : string) (t : Forja) : option AttemptRow :=
  match attempts (work t) !! id with
  | Some row =>
      match runs (canonical t) !! at_run row with
      | Some run => if bool_decide (at_tenant row = sc.1) && bool_decide (run_scope run = sc)
                    then Some row else None
      | None => None
      end
  | None => None
  end.
End tables.

Section order.
Context `{TextOrder}.

(** [ORDER BY a.run_id, a.ordinal]. *)
Definition attempt_le (a b : string * AttemptRow) : Prop :=
  if decide (at_run a.2 = at_run b.2) then (at_ordinal a.2 ≤ at_ordinal b.2)%Z
  else text_le (at_run a.2) (at_run b.2) = true.
#[export] Instance attempt_le_dec : RelDecision attempt_le.
Proof. intros a b. unfold attempt_le. case_decide; apply _. Defined.
End order.

Section attempts.
Context `{Clock, Database, Sha256, Json, !Jsonb, Entropy, Sequences, TextOrder, !AttemptCodecs}.
Context `{!JsonCodec WorkerResult, !WorkerContracts, ReportJson}.
Abbreviation Tx := (M error (DB Forja)).

(** ** Fences *)

(** [owner_id=$ AND fencing_token=$ AND expires_at > clock_timestamp()] on the
    lease row of the key. *)
Definition live_fence (k : LeaseKey) (owner : string) (token : Z) : Tx bool :=
  found ← select (λ t, leases (lease_tables (work t)) !! k);
  match found with
  | Some row =>
      if bool_decide (row_owner row = owner) && (row_token row =? token)%Z then
        now ← clock_timestamp;
        mret (After (row_expires row) now)
      else mret false
  | None => mret false
  end.

Definition proof_params (proof : LeaseProof) : list string :=
  [k_TenantID (lp_LeaseKey proof); k_ResourceType (lp_LeaseKey proof);
   k_ResourceID (lp_LeaseKey proof); lp_OwnerID proof].

Definition verifyAttemptFence (st : PgStore) (proof : LeaseProof) : Tx unit :=
  _ ← statement "postgres.CreateAttempt.verifyFence" (repositoryID st :: proof_params proof);
  live ← live_fence (row_key st (lp_LeaseKey proof)) (lp_OwnerID proof) (lp_FencingToken proof);
  if live : bool then mret tt
  else throw (fault CodeConflict "postgres.CreateAttempt"
                "scheduler lease is expired, replaced, or owned by another worker").

(** [SET updated_at=updated_at]: the matched row is written back as it is. *)
Definition enforceAttemptFence (proof : LeaseProof) : Tx unit :=
  _ ← statement "postgres.CreateAttempt.finalFence"
        (k_RepositoryID (lp_LeaseKey proof) :: proof_params proof);
  live ← live_fence (lp_LeaseKey proof) (lp_OwnerID proof) (lp_FencingToken proof);
  if live : bool then mret tt
  else throw (fault CodeConflict "postgres.CreateAttempt" "scheduler lease expired before commit").

(** [label] names the statement that takes the watermark lock. *)
Definition prepareAttemptWrite (st : PgStore) (label : string) (proof : LeaseProof) : Tx unit :=
  _ ← statement label [];
  verifyAttemptFence st proof.

(** The deferred trigger [enforce_attempt_commit_fence] on an inserted row. *)
Definition attempt_commit_fence (op : string) (row : AttemptRow) : Tx unit :=
  run ← select (λ t, runs (canonical t) !! at_run row);
  live ← match run with
         | Some r =>
             if bool_decide ((run_scope r).1 = at_tenant row)
             then live_fence (attempt_lease (run_scope r).2 row) (at_worker row) (at_token row)
             else mret false
         | None => mret false
         end;
  checked op (violated "40001" (negb live)).

(** ** Receipts *)

Definition decodeStoredAttempt (data : json) : result Attempt :=
  let stored m := ErrorString (Lit m) in
  attempt ← Decode data;
  _ ← match ParseRunID (a_RunID attempt) with
      | Ok _ => Ok tt
      | Err _ => Err (stored "invalid stored attempt run ID")
      end;
  _ ← fail_if (negb (attempt_id_ok (a_AttemptID attempt))) (stored "invalid stored attempt ID");
  _ ← fail_if (runes_outside 1 100 (a_Status attempt)) (stored "invalid stored attempt status");
  _ ← fail_if ((a_Ordinal attempt <? 1)%Z ||
               negb (bool_decide (a_LeaseResourceType attempt = "scheduler")) ||
               bool_decide (a_LeaseResourceID attempt = "") ||
               bool_decide (a_WorkerID attempt = "") || (a_FencingToken attempt <? 1)%Z ||
               (a_Version attempt <? 1)%Z || negb (ValidTimestamp (a_CreatedAt attempt)))
        (stored "invalid stored attempt ordinal, version, or timestamp");
  let updated := if IsZero (a_UpdatedAt attempt) then a_CreatedAt attempt
                 else a_UpdatedAt attempt in
  _ ← fail_if (negb (ValidTimestamp updated) || Before updated (a_CreatedAt attempt))
        (stored "invalid stored attempt update timestamp");
  Ok (mkAttempt (a_AttemptID attempt) (a_RunID attempt) (a_Ordinal attempt) (a_Status attempt)
        (a_LeaseResourceType attempt) (a_LeaseResourceID attempt) (a_WorkerID attempt)
        (a_FencingToken attempt) (UTC <$> a_StartedAt attempt) (UTC <$> a_FinishedAt attempt)
        (a_Version attempt) (a_CreatedAt attempt) updated).

Definition loadAttemptReplay (st : PgStore) (scope key hash : string) : Tx (option Attempt) :=
  stored ← receipt st "postgres.loadAttemptReplay" scope key;
  match stored with
  | None => mret None
  | Some row =>
      if negb (bool_decide (rc_hash row = hash))
      then throw (fault CodeConflict "postgres.loadAttemptReplay"
                    "idempotency key was already used for a different command")
      else
        match decodeStoredAttempt (rc_body row) with
        | Ok attempt => mret (Some attempt)
        | Err e => throw (FaultError CodeInternal "postgres.loadAttemptReplay"
                            (Lit "decode stored command response") (Some e))
        end
  end.

Definition saveAttemptReplay (st : PgStore) (scope key hash : string) (attempt : Attempt)
    : Tx unit :=
  response ← encode "postgres.saveAttemptReplay" "encode command response" attempt;
  insert_receipt st "postgres.saveAttemptReplay" scope key hash 201 response.

Definition saveCreatedAttemptReplay (st : PgStore) (scope key hash : string) (attempt : Attempt)
    : Tx unit :=
  response ← encode "postgres.saveCreatedAttemptReplay" "encode command response"
               (createdAttemptSnapshot attempt);
  insert_receipt st "postgres.saveCreatedAttemptReplay" scope key hash 201 response.

(** ** The frame of an attempt command

    Begin, lock the key and the rows, lock the watermark, check the fence, look
    for a receipt; otherwise run the body, store its response, check the fence
    again and commit. [at_commit] are the deferred triggers. *)
Definition fencedTx {A B R} (st : PgStore) (op label : string) (proof : LeaseProof)
    (locked : Tx B) (load : Tx (option R)) (body : B → Tx A) (save : A → Tx unit)
    (at_commit : A → Tx unit) (response : A → R) : Tx R :=
  atomically (
    _ ← statement (op +:+ ".begin") [];
    _ ← lockIdempotency;
    b ← locked;
    _ ← prepareAttemptWrite st label proof;
    replay ← load;
    match replay with
    | Some r => mret r
    | None =>
        a ← body b;
        _ ← save a;
        _ ← enforceAttemptFence proof;
        _ ← statement (op +:+ ".commit") [];
        _ ← at_commit a;
        mret (response a)
    end).

(** ** CreateAttempt *)

Definition lock_run (st : PgStore) (runID : RunID) : Tx unit :=
  _ ← statement "postgres.CreateAttempt.lockRun" (own st [runID]);
  found ← select (λ t, in_scope run_scope (store_scope st) (runs (canonical t) !! runID));
  match found with
  | Some _ => mret tt
  | None => throw (New CodeNotFound "postgres.CreateAttempt"
                     (Sprintf "run %s was not found" [runID]))
  end.

(** The fenced [INSERT ... SELECT]; [now] is its [statement_timestamp()]. *)
Definition insert_attempt (st : PgStore) (id : string) (runID : RunID) (status : string)
    (proof : LeaseProof) : Tx AttemptRow :=
  let op := "postgres.CreateAttempt.insert" in
  let key := mkLeaseKey (tenantID st) (repositoryID st) (k_ResourceType (lp_LeaseKey proof))
               (k_ResourceID (lp_LeaseKey proof)) in
  _ ← statement op (own st [id; runID; status; lp_OwnerID proof; k_ResourceType key; k_ResourceID key]);
  now0 ← clock_timestamp;
  let now := timestamptz now0 in
  ordinal ← select (λ t, next_ordinal (tenantID st) runID (work t));
  live ← live_fence key (lp_OwnerID proof) (lp_FencingToken proof);
  if negb live
  then throw (fault CodeConflict "postgres.CreateAttempt"
                "scheduler lease expired before the protected write")
  else
    let row := mkAttemptRow (tenantID st) runID ordinal status (k_ResourceType key)
      (k_ResourceID key) (lp_OwnerID proof) (lp_FencingToken proof) None None 1 now now in
    bad ← select (attempt_insert_fault id row);
    _ ← checked op bad;
    _ ← write (set_attempts <[id := row]>);
    mret row.

Definition createAttemptBody (st : PgStore) (runID : RunID) (status : string)
    (metadata : CommandMetadata) (proof : LeaseProof) (_ : unit) : Tx (string * AttemptRow) :=
  attemptID ← wrapping CodeInternal "postgres.CreateAttempt" "generate attempt ID"
                (newPrefixedID "attempt");
  row ← insert_attempt st attemptID runID status proof;
  let attempt := scanAttempt attemptID row in
  payload ← encode "postgres.CreateAttempt" "encode attempt event payload"
              (createdAttemptSnapshot attempt);
  _ ← appendEvent st "attempt" (a_AttemptID attempt) (a_Version attempt) "attempt.created"
        (a_CreatedAt attempt) payload metadata;
  mret (attemptID, row).

Definition CreateAttempt (st : PgStore) (runID : RunID) (status : string)
    (metadata : CommandMetadata) (proof : LeaseProof) : Tx Attempt :=
  _ ← lift (fail_if (negb (bool_decide (status = "queued")))
        (fault CodeInvalidArgument "postgres.CreateAttempt"
           "new attempts must start in queued state"));
  _ ← lift (fail_if (runes_outside 1 100 status)
        (fault CodeInvalidArgument "postgres.CreateAttempt"
           "status length must be between 1 and 100 characters"));
  _ ← lift (ValidateCommandMetadata metadata);
  _ ← lift (validateAttemptFence proof (tenantID st) (repositoryID st));
  let scope := "create_attempt:" +:+ repositoryID st +:+ ":" +:+ runID in
  let hash := hashCommand metadata
    [scope; status; k_ResourceType (lp_LeaseKey proof); k_ResourceID (lp_LeaseKey proof);
     lp_OwnerID proof; pretty (lp_FencingToken proof)] in
  let key := IdempotencyKey metadata in
  fencedTx st "postgres.CreateAttempt" "postgres.CreateAttempt.lockWatermark" proof
    (lock_run st runID) (loadAttemptReplay st scope key hash)
    (createAttemptBody st runID status metadata proof)
    (λ a, saveCreatedAttemptReplay st scope key hash (scanAttempt a.1 a.2))
    (λ a, attempt_commit_fence "postgres.CreateAttempt.commit" a.2)
    (λ a, scanAttempt a.1 a.2).

(** ** Reads and updates *)

Definition GetAttempt (st : PgStore) (attemptID : string) : Tx Attempt :=
  _ ← lift (validateAttemptID attemptID);
  _ ← statement "postgres.GetAttempt" (own st [attemptID]);
  found ← select (own_attempt (store_scope st) attemptID);
  match found with
  | Some row => mret (scanAttempt attemptID row)
  | None => throw (New CodeNotFound "postgres.GetAttempt"
                     (Sprintf "attempt %s was not found" [attemptID]))
  end.

Definition lockAttempt (st : PgStore) (attemptID : string) : Tx Attempt :=
  _ ← statement "postgres.lockAttempt" (own st [attemptID]);
  found ← select (own_attempt (store_scope st) attemptID);
  match found with
  | Some row => mret (scanAttempt attemptID row)
  | None => throw (fault CodeNotFound "postgres.lockAttempt" "attempt was not found")
  end.

(** [UPDATE ... WHERE tenant_id AND attempt_id AND status IN (...) AND version
    RETURNING]: the new row, if one matched. *)
Definition update_attempt (st : PgStore) (op id : string) (params from : list string)
    (expected : Z) (change : AttemptRow → AttemptRow) : Tx (option AttemptRow) :=
  _ ← statement op (tenantID st :: id :: params);
  _ ← checked op (int4_fault expected);
  found ← select (λ t, attempts (work t) !! id);
  match found with
  | Some row =>
      if bool_decide (at_tenant row = tenantID st) && bool_decide (at_status row ∈ from) &&
         (at_version row =? expected)%Z
      then
        let row' := change row in
        _ ← checked op (first_fault [violated "22003" (2 ^ 31 - 1 <? at_version row')%Z;
                                     violated CheckViolation (attempt_check id row')]);
        _ ← write (set_attempts <[id := row']>);
        mret (Some row')
      else mret None
  | None => mret None
  end.

Definition summary (result : WorkerResult) : resultSummary :=
  mkResultSummary (wr_TaskID result) (wr_Adapter result) (wr_Status result) (wr_Retryable result)
    (wr_TerminationReason result) (wr_StartedAt result) (wr_FinishedAt result)
    (wr_DurationMS result) (wr_ExitCode result) (wr_StdoutSHA256 result) (wr_StderrSHA256 result)
    (workerReportSHA256 (wr_Report result)) (wr_Usage result) (wr_EvidenceRefs result).

Definition appendAttemptEvent (st : PgStore) (eventType : string) (attempt : Attempt)
    (result : option WorkerResult) (metadata : CommandMetadata) : Tx unit :=
  payload ← encode "postgres.appendAttemptEvent" "encode attempt event"
              (mkAttemptEvent attempt (summary <$> result));
  appendEvent st "attempt" (a_AttemptID attempt) (a_Version attempt) eventType
    (a_UpdatedAt attempt) payload metadata.

(** ** StartAttempt *)

Definition startAttemptBody (st : PgStore) (attemptID : string) (expectedVersion : Z)
    (metadata : CommandMetadata) (proof : LeaseProof) (attempt : Attempt)
    : Tx (string * AttemptRow) :=
  let op := "postgres.StartAttempt" in
  if negb (bool_decide (a_Status attempt = "queued")) ||
     negb (a_Version attempt =? expectedVersion)%Z
  then throw (fault CodeConflict op "attempt state or version changed")
  else if negb (attemptOwnedBy attempt proof)
  then throw (fault CodeConflict op "attempt belongs to a different scheduler fence")
  else
    now0 ← storeNow;
    let now := postgresTimestamp now0 in
    updated ← update_attempt st "postgres.StartAttempt.update" attemptID [] ["queued"]
      expectedVersion (λ row, moved_attempt row "running" (Some now) (at_finished row) now);
    match updated with
    | None => throw (fault CodeConflict op "attempt changed concurrently")
    | Some row =>
        _ ← appendAttemptEvent st "attempt.started" (scanAttempt attemptID row) None metadata;
        mret (attemptID, row)
    end.

Definition StartAttempt (st : PgStore) (attemptID : string) (expectedVersion : Z)
    (metadata : CommandMetadata) (proof : LeaseProof) : Tx Attempt :=
  _ ← lift (validateAttemptLifecycleInput attemptID expectedVersion metadata proof st);
  let scope := "start_attempt:" +:+ repositoryID st +:+ ":" +:+ attemptID in
  let hash := hashCommand metadata
    [scope; pretty expectedVersion; lp_OwnerID proof; pretty (lp_FencingToken proof)] in
  let key := IdempotencyKey metadata in
  fencedTx st "postgres.StartAttempt" "postgres.lockAttemptWritePrerequisites" proof
    (lockAttempt st attemptID) (loadAttemptReplay st scope key hash)
    (startAttemptBody st attemptID expectedVersion metadata proof)
    (λ a, saveAttemptReplay st scope key hash (scanAttempt a.1 a.2))
    (λ _, mret tt) (λ a, scanAttempt a.1 a.2).

(** ** FinishAttempt *)

(** [result] with its times as PostgreSQL stores them. *)
Definition stamped_result (result : WorkerResult) : WorkerResult :=
  mkWorkerResult (wr_TaskID result) (wr_AttemptID result) (wr_RunID result)
    (wr_SchemaVersion result) (wr_Adapter result) (wr_Status result) (wr_Retryable result)
    (wr_TerminationReason result) (postgresTimestamp (wr_StartedAt result))
    (postgresTimestamp (wr_FinishedAt result)) (wr_DurationMS result) (wr_ExitCode result)
    (wr_Stdout result) (wr_Stderr result) (wr_StdoutSHA256 result) (wr_StderrSHA256 result)
    (wr_Usage result) (wr_Report result) (wr_EvidenceRefs result).

Definition timeline_disagrees (result : WorkerResult) (attempt : Attempt) (now : Time) : bool :=
  negb (bool_decide (wr_RunID result = a_RunID attempt)) ||
  match a_StartedAt attempt with
  | None => true
  | Some started => Before (wr_StartedAt result) started
  end ||
  After (wr_FinishedAt result) now ||
  negb (wr_DurationMS result =?
        Milliseconds (Sub (wr_FinishedAt result) (wr_StartedAt result)))%Z.

Definition finishAttemptBody (st : PgStore) (attemptID : string) (expectedVersion : Z)
    (result : WorkerResult) (metadata : CommandMetadata) (proof : LeaseProof) (attempt : Attempt)
    : Tx (string * AttemptRow) :=
  let op := "postgres.FinishAttempt" in
  if negb (bool_decide (a_Status attempt = "running")) ||
     negb (a_Version attempt =? expectedVersion)%Z
  then throw (fault CodeConflict op "attempt state or version changed")
  else if negb (attemptOwnedBy attempt proof)
  then throw (fault CodeConflict op "attempt belongs to a different scheduler fence")
  else
    now0 ← storeNow;
    let now := postgresTimestamp now0 in
    if timeline_disagrees result attempt now
    then throw (fault CodeInvalidArgument op
                  "worker result disagrees with the durable attempt timeline")
    else
      updated ← update_attempt st "postgres.FinishAttempt.update" attemptID [wr_Status result]
        ["running"] expectedVersion
        (λ row, moved_attempt row (wr_Status result) (at_started row) (Some now) now);
      match updated with
      | None => throw (fault CodeConflict op "attempt changed concurrently")
      | Some row =>
          _ ← appendAttemptEvent st "attempt.finished" (scanAttempt attemptID row) (Some result)
                metadata;
          mret (attemptID, row)
      end.

Definition FinishAttempt (st : PgStore) (attemptID : string) (expectedVersion : Z)
    (result0 : WorkerResult) (metadata : CommandMetadata) (proof : LeaseProof) : Tx Attempt :=
  _ ← lift (validateAttemptLifecycleInput attemptID expectedVersion metadata proof st);
  let result := stamped_result result0 in
  _ ← lift (validateCompletion attemptID result);
  let scope := "finish_attempt:" +:+ repositoryID st +:+ ":" +:+ attemptID in
  let hash := hashCommand metadata
    ([scope; pretty expectedVersion] ++ workerResultHashParts result ++
     [lp_OwnerID proof; pretty (lp_FencingToken proof)]) in
  let key := IdempotencyKey metadata in
  fencedTx st "postgres.FinishAttempt" "postgres.lockAttemptWritePrerequisites" proof
    (lockAttempt st attemptID) (loadAttemptReplay st scope key hash)
    (finishAttemptBody st attemptID expectedVersion result metadata proof)
    (λ a, saveAttemptReplay st scope key hash (scanAttempt a.1 a.2))
    (λ _, mret tt) (λ a, scanAttempt a.1 a.2).

(** ** ReconcileAbandonedAttempts *)

Definition newAttemptReconciliationReplay (st : PgStore) (metadata : CommandMetadata)
    (proof : LeaseProof) (attempts : option (list Attempt)) : attemptReconciliationReplay :=
  mkReconciliationReplay (Some (default [] attempts))
    (mkAuthorityOf (tenantID st) (repositoryID st) (k_ResourceType (lp_LeaseKey proof))
       (k_ResourceID (lp_LeaseKey proof)) (lp_OwnerID proof) (lp_FencingToken proof))
    (mkReconciliationCommand (tenantID st) (repositoryID st) (IdempotencyKey metadata)
       (ActorType metadata) (ActorID metadata) (CorrelationID metadata)
       (default "" (CausationID metadata))).

Definition sameStableReconciliationCommand (stored current : attemptReconciliationCommand) : bool :=
  bool_decide (ac_TenantID stored = ac_TenantID current) &&
  bool_decide (ac_RepositoryID stored = ac_RepositoryID current) &&
  bool_decide (ac_IdempotencyKey stored = ac_IdempotencyKey current) &&
  bool_decide (ac_ActorType stored = ac_ActorType current) &&
  bool_decide (ac_ActorID stored = ac_ActorID current) &&
  bool_decide (ac_CausationID stored = ac_CausationID current) &&
  negb (bool_decide (TrimSpace (ac_CorrelationID stored) = "")).

(** One iteration of the loop that validates the stored attempts. *)
Definition revalidate (acc : list Attempt) (attempt : Attempt) : result (list Attempt) :=
  validated ← match Marshal attempt with
              | Ok encoded => decodeStoredAttempt encoded
              | Err _ => Err (ErrorString (Lit "EOF"))
              end;
  Ok (acc ++ [validated]).

Definition loadAttemptReconciliationReplay (st : PgStore) (scope : string)
    (metadata : CommandMetadata) (proof : LeaseProof) (hash : string)
    : Tx (option (list Attempt)) :=
  let op := "postgres.loadAttemptReconciliationReplay" in
  stored ← receipt st op scope (IdempotencyKey metadata);
  match stored with
  | None => mret None
  | Some row =>
      if negb (bool_decide (rc_hash row = hash))
      then throw (fault CodeConflict op "idempotency key was reused")
      else
        match Decode (rc_body row) with
        | Err e => throw (FaultError CodeInternal op (Lit "decode response") (Some e))
        | Ok replay =>
            let expected := newAttemptReconciliationReplay st metadata proof (ar_Attempts replay) in
            match ar_Attempts replay with
            | Some attempts =>
                if negb (bool_decide (ar_Authority replay = ar_Authority expected)) ||
                   negb (sameStableReconciliationCommand (ar_Command replay) (ar_Command expected))
                then throw (fault CodeInternal op "stored reconciliation provenance is invalid")
                else
                  match loop revalidate [] attempts with
                  | Ok validated => mret (Some validated)
                  | Err e => throw (FaultError CodeInternal op (Lit "validate stored attempt")
                                      (Some e))
                  end
            | None => throw (fault CodeInternal op "stored reconciliation provenance is invalid")
            end
        end
  end.

Definition saveAttemptReconciliationReplay (st : PgStore) (scope : string)
    (metadata : CommandMetadata) (proof : LeaseProof) (hash : string) (attempts : list Attempt)
    : Tx unit :=
  response ← encode "postgres.saveAttemptReconciliationReplay" "encode response"
               (newAttemptReconciliationReplay st metadata proof (Some attempts));
  insert_receipt st "postgres.saveAttemptReconciliationReplay" scope (IdempotencyKey metadata)
    hash 200 response.

(** Active attempts of the scheduler's resource under another fence. *)
Definition contested (st : PgStore) (proof : LeaseProof) (t : Forja) : list (string * AttemptRow) :=
  filter (λ ka,
    is_Some (own_attempt (store_scope st) ka.1 t) ∧ at_status ka.2 ∈ ["queued"; "running"] ∧
    at_lease_type ka.2 = k_ResourceType (lp_LeaseKey proof) ∧
    at_lease_id ka.2 = k_ResourceID (lp_LeaseKey proof) ∧
    ¬ (at_worker ka.2 = lp_OwnerID proof ∧ at_token ka.2 = lp_FencingToken proof))
    (map_to_list (attempts (work t))).

(** [NOT EXISTS (SELECT 1 FROM forja.leases ...)], row by row. *)
Fixpoint without_fence (st : PgStore) (rows : list (string * AttemptRow))
    : Tx (list (string * AttemptRow)) :=
  match rows with
  | [] => mret []
  | ka :: rows' =>
      live ← live_fence (attempt_lease (repositoryID st) ka.2) (at_worker ka.2) (at_token ka.2);
      rest ← without_fence st rows';
      mret (if live : bool then rest else ka :: rest)
  end.

Definition select_abandoned (st : PgStore) (proof : LeaseProof)
    : Tx (list (string * AttemptRow)) :=
  _ ← statement "postgres.ReconcileAbandonedAttempts.query"
        (own st [k_ResourceType (lp_LeaseKey proof); k_ResourceID (lp_LeaseKey proof);
                 lp_OwnerID proof]);
  rows ← select (contested st proof);
  abandoned ← without_fence st rows;
  mret (merge_sort attempt_le abandoned).

Definition appendReconciledAttemptEvent (st : PgStore) (attempt : Attempt) (proof : LeaseProof)
    (metadata : CommandMetadata) : Tx unit :=
  let key := lp_LeaseKey proof in
  payload ← encode "postgres.appendReconciledAttemptEvent" "encode event"
    (mkReconciledEvent attempt
       (mkAuthorityOf (k_TenantID key) (k_RepositoryID key) (k_ResourceType key) (k_ResourceID key)
          (lp_OwnerID proof) (lp_FencingToken proof)));
  appendEvent st "attempt" (a_AttemptID attempt) (a_Version attempt) "attempt.reconciled"
    (a_UpdatedAt attempt) payload metadata.

Fixpoint reconcile_each (st : PgStore) (metadata : CommandMetadata) (proof : LeaseProof)
    (now : Time) (abandoned : list (string * AttemptRow)) : Tx (list (string * AttemptRow)) :=
  match abandoned with
  | [] => mret []
  | ka :: abandoned' =>
      updated ← update_attempt st "postgres.ReconcileAbandonedAttempts.update" ka.1 []
        ["queued"; "running"] (at_version ka.2)
        (λ row, moved_attempt row "failed_retryable" (at_started row) (Some now) now);
      match updated with
      | None => throw (fault CodeConflict "postgres.ReconcileAbandonedAttempts"
                         "attempt changed concurrently")
      | Some row =>
          _ ← appendReconciledAttemptEvent st (scanAttempt ka.1 row) proof metadata;
          rest ← reconcile_each st metadata proof now abandoned';
          mret ((ka.1, row) :: rest)
      end
  end.

Definition reconcileBody (st : PgStore) (metadata : CommandMetadata) (proof : LeaseProof)
    (abandoned : list (string * AttemptRow)) : Tx (list (string * AttemptRow)) :=
  now ← storeNow;
  reconcile_each st metadata proof (postgresTimestamp now) abandoned.

Definition scan_all (l : list (string * AttemptRow)) : list Attempt :=
  (λ ka, scanAttempt ka.1 ka.2) <$> l.

Definition ReconcileAbandonedAttempts (st : PgStore) (metadata : CommandMetadata)
    (proof : LeaseProof) : Tx (list Attempt) :=
  _ ← lift (ValidateCommandMetadata metadata);
  _ ← lift (validateAttemptFence proof (tenantID st) (repositoryID st));
  let scope := "reconcile_attempts:" +:+ repositoryID st +:+ ":" +:+
               k_ResourceID (lp_LeaseKey proof) in
  let hash := hashCommand metadata [scope; lp_OwnerID proof; pretty (lp_FencingToken proof)] in
  fencedTx st "postgres.ReconcileAbandonedAttempts" "postgres.lockAttemptWritePrerequisites" proof
    (select_abandoned st proof) (loadAttemptReconciliationReplay st scope metadata proof hash)
    (reconcileBody st metadata proof)
    (λ l, saveAttemptReconciliationReplay st scope metadata proof hash (scan_all l))
    (λ _, mret tt) scan_all.
End attempts.
