(* ===== verification/Authorizations.v ===== *)
(** * Package [internal/postgres]: delivery authorizations ([delivery_authorizations.go])

    Before a delivery starts, a human who neither writes nor validates it approves
    the complete request. The approval is one immutable event, written while the
    run and the attempt are queued, the sprint's decision is approved and the
    scheduler still holds the fence of the attempt. *)

From S2P Require Import Prelude GoLib Fault Contracts Identity RunState LeasePaths Postgres DeliveryContracts.
From S2P Require Import ControlMemory Leases LeaseSets AttemptRecords PgTables PgEvents RunProjection WorkerResults Attempts.

(** ** Data ([internal/persistence/model.go]) *)

Record DeliveryAuthorization := mkAuthorization {
  da_Request : DeliveryRequest;
  da_RequestSHA256 : string;
  da_ApprovedBy : string;
  da_ApprovedAt : Time;
}.

(** The strict JSON codec of an authorization, and
    [ValidateJSON("delivery-request.schema.json", encoded)]. *)
Class AuthorizationContracts `{Json} := {
  authorization_codec :: JsonCodec DeliveryAuthorization;
  request_schema : string → option error;
}.

Definition deliveryAuthorizationAggregateID (deliveryID attemptID : string) : string :=
  deliveryID +:+ ":" +:+ attemptID.

(** ** Validation *)

Section validation.
Context `{Sha256, DeliveryJson, Json, !WorkerContracts, !AuthorizationContracts}.

Definition encodedDeliveryRequest (request : DeliveryRequest) : result (string * string) :=
  match request_json request with
  | Ok encoded => Ok (encoded, hexText (Sum256 encoded))
  | Err e => Err (FaultError CodeInvalidArgument "postgres.encodedDeliveryRequest"
                    (Lit "encode delivery request") (Some e))
  end.

Definition validateDeliveryAuthorizationRequest (request : DeliveryRequest) : result unit :=
  let wrap code m e := Err (FaultError code "postgres.AuthorizeDelivery" (Lit m) (Some e)) in
  match registry_err with
  | Some e => wrap CodeInternal "compile delivery contracts" e
  | None =>
      '(encoded, _) ← encodedDeliveryRequest request;
      match request_schema encoded with
      | Some e => wrap CodeInvalidArgument "delivery request violates its schema" e
      | None =>
          match ValidateDeliveryRequest request with
          | Err e => wrap CodeInvalidArgument "delivery request violates semantic authority" e
          | Ok _ => Ok tt
          end
      end
  end.
End validation.

(** ** Queries *)

Section queries.
Context `{Json}.

(** The run and the attempt of the request, joined. *)
Definition request_rows (st : PgStore) (request : DeliveryRequest) (t : Forja)
    : option (RunRow * AttemptRow) :=
  r ← in_scope run_scope (store_scope st) (runs (canonical t) !! rq_RunID request);
  a ← attempts (work t) !! rq_AttemptID request;
  if bool_decide (at_tenant a = tenantID st) && bool_decide (at_run a = rq_RunID request)
  then Some (r, a) else None.

(** The first [EXISTS]: a human has approved the submission of the run's sprint. *)
Definition submission_approved (sc : Scope) (runID : RunID) (t : Forja) : bool :=
  bool_decide (map_Exists (λ _ d, de_scope d = sc ∧ de_run d = runID ∧
    de_action d = "submit_sprint" ∧ de_status d = "approved") (decisions (canonical t))).

(** The rows [GetDeliveryAuthorization] asks for. *)
Definition authorization_event (sc : Scope) (aggregate : string) (e : EventRow) : bool :=
  bool_decide (ev_scope e = sc) && bool_decide (ev_aggregate_type e = "approval") &&
  bool_decide (ev_aggregate e = aggregate) && (ev_version e =? 1)%Z &&
  bool_decide (ev_type e = "delivery.authorized").
End queries.

Section authorizations.
Context `{Clock, Database, Sha256, Json, !Jsonb, Entropy, Sequences, DeliveryJson}.
Context `{!JsonCodec AuditRecord, !WorkerContracts, !AuthorizationContracts}.
Abbreviation Tx := (M error (DB Forja)).

(** The proof of the scheduler the attempt was created under. *)
Definition attempt_proof_of (st : PgStore) (a : AttemptRow) : LeaseProof :=
  mkLeaseProof (mkLeaseKey (tenantID st) (repositoryID st) (at_lease_type a) (at_lease_id a))
    (at_worker a) (at_token a).

(** The eligibility query and its comparison; the proof of the attempt's fence. *)
Definition authority (st : PgStore) (request : DeliveryRequest) : Tx LeaseProof :=
  let op := "postgres.AuthorizeDelivery" in
  _ ← statement (op +:+ ".authority") (own st [rq_RunID request; rq_AttemptID request]);
  found ← select (request_rows st request);
  match found with
  | None => throw (fault CodeNotFound op "delivery Run or attempt was not found")
  | Some (r, a) =>
      approvedDecision ← select (submission_approved (store_scope st) (rq_RunID request));
      liveFence ← live_fence (attempt_lease (repositoryID st) a) (at_worker a) (at_token a);
      if negb (bool_decide (run_objective r = rq_Objective request)) ||
         negb (bool_decide (run_state r = "queued")) ||
         negb (at_ordinal a =? rq_AttemptOrdinal request)%Z ||
         negb (bool_decide (at_status a = "queued")) || negb approvedDecision || negb liveFence
      then throw (fault CodeConflict op
             "delivery does not match a human-approved queued Run and live queued attempt")
      else mret (attempt_proof_of st a)
  end.

(** What follows once no receipt answers. *)
Definition authorizeBody (st : PgStore) (request : DeliveryRequest) (requestDigest scope hash : string)
    (metadata : CommandMetadata) : Tx DeliveryAuthorization :=
  let op := "postgres.AuthorizeDelivery" in
  proof ← authority st request;
  now ← storeNow;
  let approvedAt := postgresTimestamp now in
  let authorization := mkAuthorization request requestDigest (ActorID metadata) approvedAt in
  payload ← encode op "encode authorization" authorization;
  _ ← appendEvent st "approval"
        (deliveryAuthorizationAggregateID (rq_DeliveryID request) (rq_AttemptID request))
        1 "delivery.authorized" approvedAt payload metadata;
  _ ← appendSuccessToolAudit st metadata scope approvedAt false;
  _ ← saveControlReplay st scope (IdempotencyKey metadata) hash 200 authorization;
  _ ← enforceAttemptFence proof;
  _ ← statement (op +:+ ".commit") [];
  mret authorization.

Definition authorize_scope (st : PgStore) (request : DeliveryRequest) : string :=
  "authorize_delivery:" +:+ repositoryID st +:+ ":" +:+ rq_DeliveryID request +:+ ":" +:+
  rq_AttemptID request.

(** The checks before the transaction; the digest of the request. *)
Definition authorizable (st : PgStore) (request : DeliveryRequest) (metadata : CommandMetadata)
    : result string :=
  let op := "postgres.AuthorizeDelivery" in
  _ ← validateDeliveryAuthorizationRequest request;
  _ ← ValidateCommandMetadata metadata;
  _ ← fail_if (negb (bool_decide (ActorType metadata = "human")) ||
               bool_decide (ActorID metadata = rq_AuthorID request) ||
               bool_decide (ActorID metadata = rq_ValidatorID request))
        (fault CodePermissionDenied op "delivery approval requires an independent human actor");
  '(storageTenant, storageRepository) ←
    RepositoryStorageIdentity (rq_TenantID request) (rq_RepositoryID request);
  _ ← fail_if (negb (bool_decide (storageTenant = tenantID st)) ||
               negb (bool_decide (storageRepository = repositoryID st)))
        (fault CodePermissionDenied op "delivery authority differs from the bound repository");
  '(_, requestDigest) ← encodedDeliveryRequest request;
  Ok requestDigest.

Definition AuthorizeDelivery (st : PgStore) (request : DeliveryRequest) (metadata : CommandMetadata)
    : Tx DeliveryAuthorization :=
  let op := "postgres.AuthorizeDelivery" in
  requestDigest ← lift (authorizable st request metadata);
  let scope := authorize_scope st request in
  let commandHash := hashCommand metadata [scope; requestDigest] in
  atomically (
    _ ← statement (op +:+ ".begin") [];
    _ ← lockIdempotency;
    replay ← loadControlReplay st scope (IdempotencyKey metadata) commandHash;
    match replay with
    | Some authorization =>
        now ← storeNow;
        _ ← appendSuccessToolAudit st metadata scope (postgresTimestamp now) true;
        _ ← statement (op +:+ ".replay_commit") [];
        mret authorization
    | None => authorizeBody st request requestDigest scope commandHash metadata
    end).

Definition GetDeliveryAuthorization (st : PgStore) (deliveryID attemptID : string)
    : Tx (option DeliveryAuthorization) :=
  let op := "postgres.GetDeliveryAuthorization" in
  let aggregate := deliveryAuthorizationAggregateID deliveryID attemptID in
  _ ← lift (ValidateDeliveryID deliveryID);
  _ ← lift (ValidateDeliveryAttemptID attemptID);
  _ ← statement op (own st [aggregate]);
  found ← select (λ t, find (authorization_event (store_scope st) aggregate) (events (stream t)));
  match found with
  | None => mret None
  | Some e =>
      match Decode (ev_payload e) with
      | Err e => throw (FaultError CodeInternal op (Lit "decode immutable delivery authorization") (Some e))
      | Ok authorization =>
          let request := da_Request authorization in
          '(_, digest) ← lift (encodedDeliveryRequest request);
          if negb (bool_decide (ev_actor_type e = "human")) ||
             negb (bool_decide (ev_actor e = da_ApprovedBy authorization)) ||
             negb (Equal (UTC (timestamptz (ev_occurred e))) (da_ApprovedAt authorization)) ||
             negb (bool_decide (rq_DeliveryID request = deliveryID)) ||
             negb (bool_decide (rq_AttemptID request = attemptID)) ||
             negb (bool_decide (da_RequestSHA256 authorization = digest))
          then throw (fault CodeInternal op "immutable delivery authorization is internally inconsistent")
          else mret (Some authorization)
      end
  end.
End authorizations.
