(* ===== verification/AttemptEffects.v ===== *)
(** * What the attempt commands do to the tables

    A command of [Attempts] that succeeds either answers from its receipt and
    changes nothing, or it wrote attempt rows under a fence that was live while
    it ran, emitted one event for each of them and left a receipt. *)

From S2P Require Import Prelude GoLib Fault Contracts Identity RunState ControlMemory.
From S2P Require Import AttemptRecords Postgres Leases PgTables PgEvents PgLogic PgControl PgEffects.
From S2P Require Import RunProjection StreamEffects WorkerResults Attempts.

(** The row [CreateAttempt] inserts. *)
Definition new_attempt (st : PgStore) (proof : LeaseProof) (runID : RunID) (ordinal : Z)
    (now : Time) : AttemptRow :=
  mkAttemptRow (tenantID st) runID ordinal "queued" (k_ResourceType (lp_LeaseKey proof))
    (k_ResourceID (lp_LeaseKey proof)) (lp_OwnerID proof) (lp_FencingToken proof) None None 1
    now now.

(** The attempt is one of the scheduler's resource, under this very fence. *)
Definition same_resource (proof : LeaseProof) (row : AttemptRow) : Prop :=
  at_lease_type row = k_ResourceType (lp_LeaseKey proof) ∧
  at_lease_id row = k_ResourceID (lp_LeaseKey proof).
Definition same_fence (proof : LeaseProof) (row : AttemptRow) : Prop :=
  at_worker row = lp_OwnerID proof ∧ at_token row = lp_FencingToken proof.

Section relations.
Context `{Clock, Json}.

(** The lease of [k] belonged to [owner] under [token], and was live at one of
    the readings [n .. n'-1]. *)
Definition fenced (t : Forja) (n n' : nat) (k : LeaseKey) (owner : string) (token : Z) : Prop :=
  ∃ row i, leases (lease_tables (work t)) !! k = Some row ∧ row_owner row = owner ∧
    row_token row = token ∧ n ≤ i < n' ∧ (instant (clock_reading i) < instant (row_expires row))%Z.

(** One row a command writes, with the type of its event. *)
Inductive attempt_write (st : PgStore) (proof : LeaseProof) (t : Forja) (id : string)
    : AttemptRow → string → Prop :=
| aw_created runID r now :
    attempts (work t) !! id = None → runs (canonical t) !! runID = Some r →
    run_scope r = store_scope st →
    attempt_write st proof t id
      (new_attempt st proof runID (next_ordinal (tenantID st) runID (work t)) now) "attempt.created"
| aw_started row now :
    own_attempt (store_scope st) id t = Some row → at_status row = "queued" →
    same_resource proof row → same_fence proof row →
    attempt_write st proof t id (moved_attempt row "running" (Some now) (at_finished row) now)
      "attempt.started"
| aw_finished row status now :
    own_attempt (store_scope st) id t = Some row → at_status row = "running" →
    same_resource proof row → same_fence proof row → status ∈ terminalAttemptStatuses →
    attempt_write st proof t id (moved_attempt row status (at_started row) (Some now) now)
      "attempt.finished"
| aw_reconciled row now :
    own_attempt (store_scope st) id t = Some row → at_status row ∈ ["queued"; "running"] →
    same_resource proof row → ¬ same_fence proof row →
    attempt_write st proof t id
      (moved_attempt row "failed_retryable" (at_started row) (Some now) now) "attempt.reconciled".

Definition attempt_emission (st : PgStore) (proof : LeaseProof) (t : Forja)
    (w : string * AttemptRow) (e : Emission) : Prop :=
  attempt_write st proof t w.1 w.2 (em_type e) ∧ attempt_check w.1 w.2 = false ∧
  em_aggregate_type e = "attempt" ∧ em_aggregate e = w.1 ∧ em_version e = at_version w.2 ∧
  em_occurred e = timestamptz (at_updated w.2).

Definition put_attempts (ws : list (string * AttemptRow)) : Forja → Forja :=
  set_attempts (λ m, list_to_map ws ∪ m).
End relations.

Section effect.
Context `{Clock, Json, !Jsonb}.

(** The rows [ws] were written and their events emitted; a creation is alone. *)
Inductive wrote (st : PgStore) (proof : LeaseProof) (md : CommandMetadata) (t : Forja)
    (ws : list (string * AttemptRow)) (t' : Forja) : Prop :=
| wrote_intro es :
    NoDup ws.*1 → Forall2 (attempt_emission st proof t) ws es →
    (∀ w, w ∈ ws → attempts (work t) !! w.1 = None → ws = [w]) →
    grown st md es (put_attempts ws t) t' → wrote st proof md t ws t'.

Definition scheduler_key (st : PgStore) (proof : LeaseProof) : Prop :=
  lp_LeaseKey proof =
    mkLeaseKey (tenantID st) (repositoryID st) "scheduler" (k_ResourceID (lp_LeaseKey proof)).

Inductive attempt_effect (st : PgStore) (proof : LeaseProof) (s s' : DB Forja) : Prop :=
| ate_none : tables s' = tables s → attempt_effect st proof s s'
| ate_done md ws t1 key row :
    scheduler_key st proof →
    fenced (tables s) (readings s) (readings s') (lp_LeaseKey proof) (lp_OwnerID proof)
      (lp_FencingToken proof) →
    wrote st proof md (tables s) ws t1 →
    tables s' = set_receipts <[key := row]> t1 → attempt_effect st proof s s'.

(** The attempt tables do not matter for an event. *)
Lemma grown_put st md es ws t t' :
  grown st md es t t' → grown st md es (put_attempts ws t) (put_attempts ws t').
Proof.
  induction 1 as [|e es eventID id available t t' Hf Hid _ IH]; [constructor|].
  by apply (grown_cons st md e es eventID id available (put_attempts ws t)).
Qed.

Lemma put_attempts_lookup ws t id :
  attempts (work (put_attempts ws t)) !! id =
    match (list_to_map ws : gmap string AttemptRow) !! id with
    | Some row => Some row
    | None => attempts (work t) !! id
    end.
Proof.
  cbn. destruct (list_to_map ws !! id) as [row|] eqn:Hw.
  - by apply lookup_union_Some_l.
  - by rewrite lookup_union_r.
Qed.
End effect.

Section logic.
Context `{Clock, Database, Sha256, Json, !Jsonb, Entropy, Sequences, TextOrder, !AttemptCodecs}.
Context `{!JsonCodec WorkerResult, !WorkerContracts, ReportJson}.
Abbreviation Tx := (M error (DB Forja)).

(** ** Readers and clocks *)

Lemma live_fence_reader k owner token : reader (live_fence k owner token).
Proof. unfold live_fence. reading. Qed.
Lemma verifyAttemptFence_reader st proof : reader (verifyAttemptFence st proof).
Proof. unfold verifyAttemptFence. reading. Qed.
Lemma enforceAttemptFence_reader proof : reader (enforceAttemptFence proof).
Proof. unfold enforceAttemptFence. reading. Qed.
Lemma prepareAttemptWrite_reader st label proof : reader (prepareAttemptWrite st label proof).
Proof. unfold prepareAttemptWrite. reading. Qed.
Lemma receipt_reader st op scope key : reader (receipt st op scope key).
Proof. unfold receipt. reading. Qed.
Lemma loadAttemptReplay_reader st scope key hash : reader (loadAttemptReplay st scope key hash).
Proof. unfold loadAttemptReplay. reading. Qed.
Lemma loadAttemptReconciliationReplay_reader st scope md proof hash :
  reader (loadAttemptReconciliationReplay st scope md proof hash).
Proof. unfold loadAttemptReconciliationReplay. reading. Qed.
Lemma lock_run_reader st runID : reader (lock_run st runID).
Proof. unfold lock_run. reading. Qed.
Lemma lockAttempt_reader st id : reader (lockAttempt st id).
Proof. unfold lockAttempt. reading. Qed.
Lemma GetAttempt_reader st id : reader (GetAttempt st id).
Proof. unfold GetAttempt. reading. Qed.
Lemma without_fence_reader st rows : reader (without_fence st rows).
Proof.
  induction rows as [|ka rows IH]; cbn [without_fence]; [apply reader_ret|].
  apply reader_bind; [apply live_fence_reader|]. intros live. apply reader_bind; [done|reading].
Qed.
Lemma select_abandoned_reader st proof : reader (select_abandoned st proof).
Proof. unfold select_abandoned. reading. apply without_fence_reader. Qed.
Lemma attempt_commit_fence_reader op row : reader (attempt_commit_fence op row).
Proof. unfold attempt_commit_fence. reading. Qed.
Lemma newPrefixedID_reader prefix : reader (newPrefixedID prefix).
Proof.
  intros s r s'. unfold newPrefixedID. destruct (NewRunIDFrom _) as [[]]; by intros [= _ <-].
Qed.
Lemma wrapping_reader {A} code op msg (m : Tx A) : reader m → reader (wrapping code op msg m).
Proof.
  intros Hm s r s'. unfold wrapping. destruct (m s) as [[a|e] s1] eqn:Hms;
    destruct (Hm _ _ _ Hms); by intros [= _ <-].
Qed.
Lemma wrapped_id_reader code op msg prefix : reader (wrapping code op msg (newPrefixedID prefix)).
Proof. apply wrapping_reader, newPrefixedID_reader. Qed.
Lemma next_outbox_id_reader op : reader (next_outbox_id op).
Proof. intros s r s'. unfold next_outbox_id. case_match; by intros [= _ <-]. Qed.
Lemma encode_reader {A} `{!JsonCodec A} op msg (a : A) : reader (encode op msg a).
Proof. unfold encode. reading. Qed.
Lemma lockIdempotency_reader : reader lockIdempotency.
Proof. unfold lockIdempotency. reading. Qed.
End logic.

#[export] Hint Resolve live_fence_reader prepareAttemptWrite_reader enforceAttemptFence_reader
  receipt_reader loadAttemptReplay_reader loadAttemptReconciliationReplay_reader lock_run_reader
  lockAttempt_reader GetAttempt_reader select_abandoned_reader attempt_commit_fence_reader
  newPrefixedID_reader wrapped_id_reader next_outbox_id_reader encode_reader
  lockIdempotency_reader : forja_parts.

Section bodies.
Context `{Clock, Database, Sha256, Json, !Jsonb, Entropy, Sequences, TextOrder, !AttemptCodecs}.
Context `{!JsonCodec WorkerResult, !WorkerContracts, ReportJson}.
Abbreviation Tx := (M error (DB Forja)).

Lemma set_attempts_put id row t :
  set_attempts <[id := row]> t = put_attempts [(id, row)] t.
Proof.
  unfold put_attempts, set_attempts, with_work. cbn. do 2 f_equal.
  by rewrite insert_empty, insert_union_singleton_l.
Qed.

Lemma put_put id row l t :
  id ∉ l.*1 → put_attempts l (put_attempts [(id, row)] t) = put_attempts ((id, row) :: l) t.
Proof.
  intros Hid. unfold put_attempts, set_attempts, with_work. cbn. do 2 f_equal.
  apply not_elem_of_list_to_map in Hid. apply map_eq. intros k.
  rewrite !lookup_union, !lookup_insert, lookup_empty. case_decide as Hk.
  - subst. rewrite Hid. by destruct (attempts (work t) !! k).
  - by destruct (list_to_map l !! k), (attempts (work t) !! k).
Qed.

(** The event of a written row, whatever its type. *)
Definition event_of (w : string * AttemptRow) (e : Emission) : Prop :=
  em_aggregate_type e = "attempt" ∧ em_aggregate e = w.1 ∧ em_version e = at_version w.2 ∧
  em_occurred e = timestamptz (at_updated w.2).

Lemma wp_update_attempt st op id params from expected change t Q :
  (∀ row, attempts (work t) !! id = Some row → at_tenant row = tenantID st →
     at_status row ∈ from → at_version row = expected → attempt_check id (change row) = false →
     (at_version (change row) ≤ 2 ^ 31 - 1)%Z →
     Q (Some (change row)) (put_attempts [(id, change row)] t)) →
  Q None t →
  wp t (update_attempt st op id params from expected change) Q.
Proof.
  intros HS HN. unfold update_attempt. wp_seq.
  destruct (attempts (work t) !! id) as [row|] eqn:Hrow; [|by wp_seq].
  destruct (_ && _) eqn:Hb; [|by wp_seq]. wp_seq. constraints. bool_prop. destruct_and!.
  rewrite set_attempts_put. apply HS; [done..|lia].
Qed.

Lemma wp_appendAttemptEvent st et id row result md t Q :
  (∀ e t', em_type e = et → event_of (id, row) e → grown st md [e] t t' → Q tt t') →
  wp t (appendAttemptEvent st et (scanAttempt id row) result md) Q.
Proof.
  intros HQ. unfold appendAttemptEvent. apply wp_bind, wp_encode. intros payload _.
  apply wp_appendEvent. intros t' Hg. by eapply HQ; [..|exact Hg].
Qed.

Lemma own_attempt_Some sc id t row :
  own_attempt sc id t = Some row ↔
  attempts (work t) !! id = Some row ∧ at_tenant row = sc.1 ∧
  ∃ r, runs (canonical t) !! at_run row = Some r ∧ run_scope r = sc.
Proof.
  unfold own_attempt. destruct (attempts (work t) !! id) as [row0|]; [|naive_solver]. split.
  - destruct (runs (canonical t) !! at_run row0) as [r|] eqn:Hr; [|done].
    do 2 case_bool_decide; try done. intros [= <-]. eauto.
  - intros ([= ->] & Ht & r & -> & Hs). by rewrite !bool_decide_eq_true_2.
Qed.

Lemma attemptOwnedBy_true id row proof :
  attemptOwnedBy (scanAttempt id row) proof = true ↔ same_resource proof row ∧ same_fence proof row.
Proof.
  unfold attemptOwnedBy, same_resource, same_fence. cbn. rewrite !andb_true_iff, !bool_decide_eq_true, Z.eqb_eq.
  tauto.
Qed.

Lemma wrote_one st proof md t t' id row e :
  attempt_write st proof t id row (em_type e) → attempt_check id row = false →
  event_of (id, row) e → grown st md [e] (put_attempts [(id, row)] t) t' →
  wrote st proof md t [(id, row)] t'.
Proof.
  intros Hw Hc He Hg. exists [e]; [apply NoDup_singleton| | |done].
  - constructor; [done|constructor].
  - by intros w ->%list_elem_of_singleton.
Qed.

(** ** The bodies *)

Lemma wp_createAttemptBody st runID status md proof t r :
  status = "queued" → runs (canonical t) !! runID = Some r → run_scope r = store_scope st →
  wp t (createAttemptBody st runID status md proof tt) (λ a t', wrote st proof md t [a] t').
Proof.
  intros -> Hr Hsc. unfold createAttemptBody, insert_attempt.
  apply wp_bind, wp_wrapping, wp_newPrefixedID. intros id. wp_seq.
  apply wp_reader; [auto with forja_parts|]. intros []; cbn [negb]; wp_seq.
  unfold attempt_insert_fault in *. constraints. bool_prop. destruct_and!.
  rewrite set_attempts_put. wp_apply wp_encode. intros payload _.
  wp_apply wp_appendEvent. intros t' Hg. wp_seq.
  eapply wrote_one; [|done| |exact Hg]; [|done].
  apply (aw_created st proof t id runID r); [by apply eq_None_not_Some|done..].
Qed.

Lemma wp_startAttemptBody st id v md proof t row :
  own_attempt (store_scope st) id t = Some row →
  wp t (startAttemptBody st id v md proof (scanAttempt id row)) (λ a t', wrote st proof md t [a] t').
Proof.
  intros Hown. destruct (proj1 (own_attempt_Some _ _ _ _) Hown) as (Hrow & _ & _).
  unfold startAttemptBody. destruct (_ || _) eqn:Hst; [wp_seq|].
  destruct (attemptOwnedBy _ _) eqn:Ho; cbn [negb]; [|wp_seq].
  apply attemptOwnedBy_true in Ho as [Hres Hfen]. cbn in Hst. bool_prop. destruct Hst as [Hst _].
  unfold storeNow. wp_seq. apply wp_update_attempt; [|wp_seq]. intros row0 Hrow0 _ _ _ Hchk _.
  simplify_eq. wp_apply wp_appendAttemptEvent. intros e t' Het Hev Hg. wp_seq.
  eapply wrote_one; [|done|done|exact Hg]. rewrite Het. by apply aw_started.
Qed.

Lemma wp_finishAttemptBody st id v result md proof t row :
  own_attempt (store_scope st) id t = Some row → wr_Status result ∈ terminalAttemptStatuses →
  wp t (finishAttemptBody st id v result md proof (scanAttempt id row))
    (λ a t', wrote st proof md t [a] t').
Proof.
  intros Hown Hterm. destruct (proj1 (own_attempt_Some _ _ _ _) Hown) as (Hrow & _ & _).
  unfold finishAttemptBody. destruct (_ || _) eqn:Hst; [wp_seq|].
  destruct (attemptOwnedBy _ _) eqn:Ho; cbn [negb]; [|wp_seq].
  apply attemptOwnedBy_true in Ho as [Hres Hfen]. cbn in Hst. bool_prop. destruct Hst as [Hst _].
  unfold storeNow. wp_seq. destruct (timeline_disagrees _ _ _); [wp_seq|]. wp_seq.
  apply wp_update_attempt; [|wp_seq]. intros row0 Hrow0 _ _ _ Hchk _.
  simplify_eq. wp_apply wp_appendAttemptEvent. intros e t' Het Hev Hg. wp_seq.
  eapply wrote_one; [|done|done|exact Hg]. rewrite Het. by apply aw_finished.
Qed.

(** The row a reconciliation leaves. *)
Definition reconciled_row (now : Time) (row : AttemptRow) : AttemptRow :=
  moved_attempt row "failed_retryable" (at_started row) (Some now) now.

Lemma wp_reconcile_each st md proof now l t :
  NoDup l.*1 → (∀ ka, ka ∈ l → attempts (work t) !! ka.1 = Some ka.2) →
  wp t (reconcile_each st md proof now l) (λ ws t',
    ws = (λ ka, (ka.1, reconciled_row now ka.2)) <$> l ∧
    Forall (λ w, attempt_check w.1 w.2 = false) ws ∧
    ∃ es, Forall2 event_of ws es ∧ Forall (λ e, em_type e = "attempt.reconciled") es ∧
      grown st md es (put_attempts ws t) t').
Proof.
  revert t. induction l as [|[id row] l IH]; intros t Hnd Hrows; cbn [reconcile_each].
  { wp_seq. split_and!; [done|constructor|]. exists []. split_and!; [constructor..|].
    replace (put_attempts [] t) with t; [constructor|].
    destruct t as [c x []]. unfold put_attempts, set_attempts, with_work. cbn. by rewrite (left_id_L ∅ (∪)). }
  apply NoDup_cons in Hnd as [Hid Hnd]. wp_seq. apply wp_update_attempt; [|wp_seq].
  intros row0 Hrow0 _ _ _ Hchk _. cbn in *.
  assert (row0 = row) as -> by (specialize (Hrows (id, row) ltac:(by left)); cbn in Hrows; congruence).
  unfold appendReconciledAttemptEvent. wp_apply wp_encode. intros payload _.
  wp_apply wp_appendEvent. intros t1 Hg1. apply wp_bind.
  destruct (grown_canonical _ _ _ _ _ Hg1) as [_ Hw1].
  eapply wp_mono; [apply IH; [done|]|].
  - intros ka Hka. rewrite Hw1, put_attempts_lookup. cbn. rewrite lookup_insert_ne.
    + rewrite lookup_empty. apply Hrows. by right.
    + intros ->. apply Hid. by apply list_elem_of_fmap_2.
  - intros ws t' (-> & Hchks & es & Hes & Hty & Hg). wp_seq. split_and!; [done|by constructor|].
    exists (mkEmission _ "attempt" id (at_version row + 1) "attempt.reconciled" (timestamptz now) payload :: es).
    split_and!; [by constructor..|]. rewrite <-put_put.
    + by eapply (grown_app _ _ [_]); [apply grown_put|].
    + by rewrite <-list_fmap_compose.
Qed.
End bodies.

(** ** The frame *)

Section frame.
Context `{Clock, Database, Sha256, Json, !Jsonb, Entropy, Sequences, TextOrder, !AttemptCodecs}.
Context `{!JsonCodec WorkerResult, !WorkerContracts, ReportJson}.
Abbreviation Tx := (M error (DB Forja)).

(** What a body does to the tables, with the clock it may have read. *)
Lemma swp_of_wp {A} (m : Tx A) Q s :
  wp (tables s) m Q → ticks m → swp s m (λ a s', Q a (tables s') ∧ readings s ≤ readings s').
Proof.
  intros Hm Ht. apply swp_intro. intros a s' Hrun. split; [by eapply wp_run|by eapply Ht].
Qed.

Lemma fenced_mono t n n' m m' k owner token :
  m ≤ n → n' ≤ m' → fenced t n n' k owner token → fenced t m m' k owner token.
Proof. intros ? ? (row & i & ? & ? & ? & ? & ?). exists row, i. split_and!; [done..|lia|lia|done]. Qed.

Lemma swp_live_fence s k owner token Q :
  (∀ b s', tables s' = tables s → readings s ≤ readings s' →
     (b = true → fenced (tables s) (readings s) (readings s') k owner token) → Q b s') →
  swp s (live_fence k owner token) Q.
Proof.
  intros HQ. unfold live_fence. swp_seq.
  destruct (leases _ !! k) as [row|] eqn:Hrow; [|by swp_seq; apply HQ].
  destruct (_ && _) eqn:Hb; [|by swp_seq; apply HQ]. swp_seq. bool_prop. destruct Hb as [Ho Ht].
  apply HQ; [done|cbn; lia|]. unfold After. intros Hl. bool_prop. exists row, (readings s). cbn. split_and!; [done..|lia|lia|done].
Qed.

Lemma swp_prepare st label proof s Q :
  (∀ s', tables s' = tables s → readings s ≤ readings s' →
     fenced (tables s) (readings s) (readings s') (row_key st (lp_LeaseKey proof)) (lp_OwnerID proof)
       (lp_FencingToken proof) → Q tt s') →
  swp s (prepareAttemptWrite st label proof) Q.
Proof.
  intros HQ. unfold prepareAttemptWrite, verifyAttemptFence. swp_seq. apply swp_live_fence.
  cbn. intros [] s' Ht Hr Hf; swp_seq. by apply HQ; [..|apply Hf].
Qed.

Lemma ticks_insert_event op row : ticks (insert_event op row).
Proof. unfold insert_event. ticking. Qed.
#[local] Hint Resolve ticks_insert_event : forja_parts.
Lemma ticks_appendEvent st ty agg v et occ payload md :
  ticks (appendEvent st ty agg v et occ payload md).
Proof. unfold appendEvent. ticking. Qed.
Lemma ticks_insert_receipt st op scope key hash status body :
  ticks (insert_receipt st op scope key hash status body).
Proof. unfold insert_receipt. ticking. Qed.
#[local] Hint Resolve ticks_appendEvent ticks_insert_receipt : forja_parts.
Lemma ticks_createAttemptBody st runID status md proof :
  ticks (createAttemptBody st runID status md proof tt).
Proof. unfold createAttemptBody, insert_attempt. ticking. Qed.
Lemma ticks_startAttemptBody st id v md proof a : ticks (startAttemptBody st id v md proof a).
Proof. unfold startAttemptBody, storeNow, update_attempt, appendAttemptEvent. ticking. Qed.
Lemma ticks_finishAttemptBody st id v result md proof a :
  ticks (finishAttemptBody st id v result md proof a).
Proof. unfold finishAttemptBody, storeNow, update_attempt, appendAttemptEvent. ticking. Qed.
Lemma ticks_reconcileBody st md proof l : ticks (reconcileBody st md proof l).
Proof.
  unfold reconcileBody, storeNow. ticking. rename select Time into now.
  induction l as [|ka l IH]; cbn [reconcile_each];
    unfold update_attempt, appendReconciledAttemptEvent; ticking.
Qed.

(** The lease of the caller's key, once its proof was validated. *)
Lemma validateAttemptFence_ok proof st :
  validateAttemptFence proof (tenantID st) (repositoryID st) = Ok tt →
  scheduler_key st proof ∧ (1 ≤ lp_FencingToken proof)%Z.
Proof.
  unfold validateAttemptFence, scheduler_key. intros Hv%fail_if_ok. bool_prop. destruct_and!.
  split; [|lia]. destruct (lp_LeaseKey proof). cbn in *. congruence.
Qed.

Lemma lifecycle_key id v md proof st :
  validateAttemptLifecycleInput id v md proof st = Ok tt → scheduler_key st proof.
Proof.
  unfold validateAttemptLifecycleInput. intros Hv.
  repeat (apply res_bind_ok in Hv as (? & _ & Hv)). by apply validateAttemptFence_ok in Hv as [].
Qed.

Lemma row_key_scheduler st proof :
  scheduler_key st proof → row_key st (lp_LeaseKey proof) = lp_LeaseKey proof.
Proof. intros ->. done. Qed.

(** A command: its receipt answers, or its body wrote and the receipt was left. *)
Lemma swp_fencedTx {A B R} st op label proof (locked : Tx B) (load : Tx (option R))
    (body : B → Tx A) save at_commit (response : A → R) (P : A → Forja → Prop) s :
  scheduler_key st proof → reader locked → reader load → (∀ a, reader (at_commit a)) →
  (∀ b, ticks (body b)) → (∀ a, ticks (save a)) →
  wp (tables s) locked (λ b t, t = tables s ∧ wp (tables s) (body b) P) →
  (∀ a t, wp t (save a) (λ _ t', ∃ key row, t' = set_receipts <[key := row]> t)) →
  swp s (fencedTx st op label proof locked load body save at_commit response)
    (λ r s', readings s ≤ readings s' ∧
       fenced (tables s) (readings s) (readings s') (lp_LeaseKey proof) (lp_OwnerID proof)
         (lp_FencingToken proof) ∧
       (tables s' = tables s ∧
          (∃ s1 s2, tables s1 = tables s ∧ load s1 = (Ok (Some r), s2)) ∨
        ∃ a t1 key row, r = response a ∧ P a t1 ∧ tables s' = set_receipts <[key := row]> t1)).
Proof.
  intros Hkey Hlock Hload Hcommit Htb Hts Hbody Hsave. unfold fencedTx, lockIdempotency. swp_seq.
  apply swp_reader; [done|]. intros b s1 Hrun1 Ht1 Hr1. cbn in Ht1, Hr1.
  apply (wp_run locked (λ b t, t = tables s ∧ wp (tables s) (body b) P)) in Hrun1 as [_ Hb];
    [|exact Hbody]. swp_seq.
  apply swp_prepare. intros s2 Ht2 Hr2 Hf. rewrite (row_key_scheduler st proof Hkey) in Hf. swp_seq.
  apply swp_reader; [done|]. intros [r|] s3 Hld Ht3 Hr3; swp_seq.
  { split_and!; [lia| |left; split; [congruence|exists s2, s3; split; [congruence|done]]]. cbn in *. rewrite Ht1 in Hf. eapply fenced_mono; [| |exact Hf]; lia. }
  eapply swp_mono; [apply swp_of_wp; [|apply Htb]|]; [rewrite Ht3, Ht2, Ht1; exact Hb|].
  intros a s4 [HP Hr4]. swp_seq. eapply swp_mono; [apply swp_of_wp; [apply Hsave|apply Hts]|].
  intros [] s5 [(key & row & Ht5) Hr5]. swp_seq.
  apply swp_reader; [auto with forja_parts|]. intros [] s6 _ Ht6 Hr6. swp_seq.
  apply swp_reader; [done|]. intros [] s7 _ Ht7 Hr7. cbn in *. swp_seq. split_and!; [lia| |right].
  - rewrite Ht1 in Hf. eapply fenced_mono; [| |exact Hf]; lia.
  - exists a, (tables s4), key, row. split_and!; [done..|congruence].
Qed.
End frame.

(** ** The commands *)

Inductive attempt_op :=
| AttemptGet (id : string)
| AttemptCreate (runID : RunID) (status : string) (md : CommandMetadata) (proof : LeaseProof)
| AttemptStart (id : string) (expectedVersion : Z) (md : CommandMetadata) (proof : LeaseProof)
| AttemptFinish (id : string) (expectedVersion : Z) (result : WorkerResult)
    (md : CommandMetadata) (proof : LeaseProof)
| AttemptReconcile (md : CommandMetadata) (proof : LeaseProof).

(** The fence the command presents. *)
Definition attempt_proof (op : attempt_op) : option LeaseProof :=
  match op with
  | AttemptGet _ => None
  | AttemptCreate _ _ _ proof | AttemptStart _ _ _ proof | AttemptFinish _ _ _ _ proof
  | AttemptReconcile _ proof => Some proof
  end.

Section commands.
Context `{Clock, Database, Sha256, Json, !Jsonb, Entropy, Sequences, TextOrder, !AttemptCodecs}.
Context `{!JsonCodec WorkerResult, !WorkerContracts, ReportJson}.
Abbreviation Tx := (M error (DB Forja)).

Definition attempt_run (st : PgStore) (op : attempt_op) : Tx unit :=
  match op with
  | AttemptGet id => forget (GetAttempt st id)
  | AttemptCreate runID status md proof => forget (CreateAttempt st runID status md proof)
  | AttemptStart id v md proof => forget (StartAttempt st id v md proof)
  | AttemptFinish id v result md proof => forget (FinishAttempt st id v result md proof)
  | AttemptReconcile md proof => forget (ReconcileAbandonedAttempts st md proof)
  end.

Lemma wp_lock_run st runID t :
  wp t (lock_run st runID) (λ _ t', t' = t ∧ ∃ r,
    runs (canonical t) !! runID = Some r ∧ run_scope r = store_scope st).
Proof.
  unfold lock_run. wp_seq. destruct (in_scope _ _ _) as [r|] eqn:Hr; wp_seq.
  apply in_scope_Some in Hr as []. eauto.
Qed.

Lemma wp_lockAttempt st id t :
  wp t (lockAttempt st id) (λ a t', t' = t ∧ ∃ row,
    own_attempt (store_scope st) id t = Some row ∧ a = scanAttempt id row).
Proof.
  unfold lockAttempt. wp_seq. destruct (own_attempt _ _ _) as [row|] eqn:Hr; wp_seq. eauto.
Qed.

(** The lease row carries this very fence. *)
Definition carries (t : Forja) (k : LeaseKey) (owner : string) (token : Z) : Prop :=
  ∃ row, leases (lease_tables (work t)) !! k = Some row ∧ row_owner row = owner ∧
    row_token row = token.

Lemma wp_live_fence k owner token t :
  wp t (live_fence k owner token) (λ live t', t' = t ∧ (live = true → carries t k owner token)).
Proof.
  unfold live_fence. wp_seq. destruct (leases _ !! k) as [row|] eqn:Hrow; [|by wp_seq].
  destruct (_ && _) eqn:Hb; [|by wp_seq]. wp_seq. bool_prop. split; [done|]. intros _.
  exists row. tauto.
Qed.

Lemma sublist_fst {A B} (l k : list (A * B)) : l `sublist_of` k → l.*1 `sublist_of` k.*1.
Proof. induction 1; by constructor. Qed.

Lemma wp_without_fence st rows t :
  wp t (without_fence st rows) (λ l t', t' = t ∧ l `sublist_of` rows ∧
    ∀ ka, ka ∈ rows →
      ¬ carries t (attempt_lease (repositoryID st) ka.2) (at_worker ka.2) (at_token ka.2) → ka ∈ l).
Proof.
  induction rows as [|ka rows IH]; cbn [without_fence].
  { wp_seq. split_and!; [done..|]. by intros ? ?%elem_of_nil. }
  apply wp_bind. eapply wp_mono; [apply wp_live_fence|]. intros live ? [-> Hl].
  apply wp_bind. eapply wp_mono; [exact IH|]. intros l t' (-> & Hsub & Hin). wp_seq.
  destruct live; split_and!; [done|by constructor| |done|by constructor|].
  - intros ka' [->|Hka']%elem_of_cons Hno; [by destruct (Hno (Hl eq_refl))|by apply Hin].
  - intros ka' [->|Hka']%elem_of_cons Hno; [by left|right; by apply Hin].
Qed.

(** What the reconciler selected. *)
Record selected (st : PgStore) (proof : LeaseProof) (t : Forja) (l : list (string * AttemptRow))
    : Prop := {
  sel_nodup : NoDup l.*1;
  sel_contested : ∀ ka, ka ∈ l → ka ∈ contested st proof t;
  sel_all : ∀ ka, ka ∈ contested st proof t →
    ¬ carries t (attempt_lease (repositoryID st) ka.2) (at_worker ka.2) (at_token ka.2) → ka ∈ l;
}.

Lemma contested_elem st proof t ka :
  ka ∈ contested st proof t ↔
  own_attempt (store_scope st) ka.1 t = Some ka.2 ∧ at_status ka.2 ∈ ["queued"; "running"] ∧
  same_resource proof ka.2 ∧ ¬ same_fence proof ka.2.
Proof.
  unfold contested, same_resource, same_fence. rewrite list_elem_of_filter.
  destruct ka as [id row]. cbn. rewrite elem_of_map_to_list. split.
  - intros (([row' Hown] & Hst & Hty & Hid & Hf) & Hrow). split_and!; [|done..].
    rewrite Hown. apply own_attempt_Some in Hown as (Hrow' & _). congruence.
  - intros (Hown & Hst & [Hty Hid] & Hf). pose proof Hown as (Hrow & _)%own_attempt_Some.
    rewrite Hown. split_and!; eauto.
Qed.

Lemma wp_select_abandoned st proof t :
  wp t (select_abandoned st proof) (λ l t', t' = t ∧ selected st proof t l).
Proof.
  unfold select_abandoned. wp_seq. eapply wp_mono; [apply wp_without_fence|].
  intros l t' (-> & Hsub & Hin). wp_seq. split; [done|].
  assert (merge_sort attempt_le l ≡ₚ l) as Hp by apply merge_sort_Permutation. split.
  - rewrite Hp. eapply sublist_NoDup; [apply (NoDup_fst_map_to_list (attempts (work t)))|].
    apply sublist_fst. etrans; [exact Hsub|]. apply sublist_filter.
  - intros ka. rewrite Hp. intros Hka. by eapply elem_of_sublist.
  - intros ka Hka Hno. rewrite Hp. by apply Hin.
Qed.

(** A reconciliation writes the selected rows, all of them. *)
Definition reconciles (st : PgStore) (proof : LeaseProof) (md : CommandMetadata) (t : Forja)
    (ws : list (string * AttemptRow)) (t' : Forja) : Prop :=
  wrote st proof md t ws t' ∧ ∃ l now, selected st proof t l ∧
    ws = (λ ka, (ka.1, reconciled_row now ka.2)) <$> l.

Lemma wp_reconcileBody st md proof l t :
  selected st proof t l → wp t (reconcileBody st md proof l) (reconciles st proof md t).
Proof.
  intros Hsel. unfold reconcileBody, storeNow. wp_seq.
  assert (∀ ka, ka ∈ l → own_attempt (store_scope st) ka.1 t = Some ka.2 ∧
    at_status ka.2 ∈ ["queued"; "running"] ∧ same_resource proof ka.2 ∧ ¬ same_fence proof ka.2) as Hl
    by (intros ka Hka; by apply contested_elem, Hsel).
  eapply wp_mono; [apply wp_reconcile_each; [apply Hsel|]|].
  { intros ka (Hown & _)%Hl. by apply own_attempt_Some in Hown as (? & _). }
  intros ws t' (-> & Hchk & es & Hev & Hty & Hg). split; [|by eexists l, _].
  exists es; [|clear Hg| |done].
  { rewrite <-list_fmap_compose. apply Hsel. }
  2: { intros w (ka & -> & (Hown & _)%Hl)%list_elem_of_fmap. cbn.
       apply own_attempt_Some in Hown as (-> & _). done. }
  rewrite Forall2_fmap_l in Hev |- *. rewrite Forall_fmap in Hchk.
  apply Forall2_same_length_lookup. apply Forall2_same_length_lookup in Hev as [Hlen Hev].
  split; [done|]. intros i ka e Hka He. pose proof (Hev i ka e Hka He) as Hshape.
  apply (Forall_lookup_1 _ _ _ _ Hchk) in Hka as Hck. apply (Forall_lookup_1 _ _ _ _ Hty) in He.
  apply list_elem_of_lookup_2, Hl in Hka as (Hown & Hst & Hres & Hno).
  split; [|done]. cbn. rewrite He. by apply aw_reconciled.
Qed.

Lemma wp_saved {A} `{!JsonCodec A} st op msg op' scope key hash status (a : A) t :
  wp t (response ← encode op msg a; insert_receipt st op' scope key hash status response)
    (λ _ t', ∃ k row, t' = set_receipts <[k := row]> t).
Proof. apply wp_bind, wp_encode. intros data _. apply wp_insert_receipt. intros _. by eexists _, _. Qed.

(** What a successful command amounts to. *)
Definition attempt_ok (st : PgStore) (proof : LeaseProof) (s s' : DB Forja) : Prop :=
  readings s ≤ readings s' ∧ scheduler_key st proof ∧
  fenced (tables s) (readings s) (readings s') (lp_LeaseKey proof) (lp_OwnerID proof)
    (lp_FencingToken proof) ∧
  (tables s' = tables s ∨ ∃ md ws t1 key row, wrote st proof md (tables s) ws t1 ∧
     tables s' = set_receipts <[key := row]> t1).

(** Every body of a frame writes what [wrote] says. *)
Lemma swp_framed {A B R} st op label proof md (locked : Tx B) (load : Tx (option R))
    (body : B → Tx A) save at_commit (response : A → R) (ws : A → list (string * AttemptRow)) s :
  scheduler_key st proof → reader locked → reader load → (∀ a, reader (at_commit a)) →
  (∀ b, ticks (body b)) → (∀ a, ticks (save a)) →
  wp (tables s) locked (λ b t, t = tables s ∧
    wp (tables s) (body b) (λ a, wrote st proof md (tables s) (ws a))) →
  (∀ a t, wp t (save a) (λ _ t', ∃ key row, t' = set_receipts <[key := row]> t)) →
  swp s (fencedTx st op label proof locked load body save at_commit response)
    (λ _, attempt_ok st proof s).
Proof.
  intros Hkey Hlock Hload Hcommit Htb Hts Hbody Hsave.
  eapply swp_mono; [by eapply swp_fencedTx|]. intros r s' (Hr & Hf & Hcase).
  split_and!; [done..|]. destruct Hcase as [[Ht _]|(a & t1 & key & row & _ & Hw & Ht)]; [by left|].
  right. by eexists md, (ws a), t1, key, row.
Qed.

Lemma swp_CreateAttempt st runID status md proof s :
  swp s (CreateAttempt st runID status md proof) (λ _, attempt_ok st proof s).
Proof.
  unfold CreateAttempt. apply swp_bind, swp_lift. intros [] Hst%fail_if_ok.
  do 2 (apply swp_bind, swp_lift; intros [] _). apply swp_bind, swp_lift.
  intros [] [Hkey _]%validateAttemptFence_ok. apply (swp_framed _ _ _ _ md) with (ws := λ a, [a]);
    [done|auto with forja_parts..| | | |].
  - intros []. apply ticks_createAttemptBody.
  - intros a. unfold saveCreatedAttemptReplay. ticking.
  - eapply wp_mono; [apply wp_lock_run|]. intros [] t (-> & r & Hr & Hsc). split; [done|].
    eapply wp_createAttemptBody; [|done..]. by bool_prop.
  - intros a t. apply wp_saved.
Qed.

Lemma swp_StartAttempt st id v md proof s :
  swp s (StartAttempt st id v md proof) (λ _, attempt_ok st proof s).
Proof.
  unfold StartAttempt. apply swp_bind, swp_lift. intros [] Hv.
  assert (scheduler_key st proof) as Hkey by by eapply lifecycle_key.
  apply (swp_framed _ _ _ _ md) with (ws := λ a, [a]); [done|auto with forja_parts..| | | |].
  - intros a. apply ticks_startAttemptBody.
  - intros a. unfold saveAttemptReplay. ticking.
  - eapply wp_mono; [apply wp_lockAttempt|]. intros a t (-> & row & Hown & ->). split; [done|].
    by apply wp_startAttemptBody.
  - intros a t. apply wp_saved.
Qed.

Lemma swp_FinishAttempt st id v result md proof s :
  swp s (FinishAttempt st id v result md proof) (λ _, attempt_ok st proof s).
Proof.
  unfold FinishAttempt. apply swp_bind, swp_lift. intros [] Hv.
  assert (scheduler_key st proof) as Hkey by by eapply lifecycle_key.
  apply swp_bind, swp_lift. intros [] Hc%validateCompletion_exact.
  apply (swp_framed _ _ _ _ md) with (ws := λ a, [a]); [done|auto with forja_parts..| | | |].
  - intros a. apply ticks_finishAttemptBody.
  - intros a. unfold saveAttemptReplay. ticking.
  - eapply wp_mono; [apply wp_lockAttempt|]. intros a t (-> & row & Hown & ->). split; [done|].
    apply wp_finishAttemptBody; [done|apply Hc].
  - intros a t. apply wp_saved.
Qed.

(** The receipt of a reconciliation. *)
Definition reconcile_scope (st : PgStore) (proof : LeaseProof) : string :=
  "reconcile_attempts:" +:+ repositoryID st +:+ ":" +:+ k_ResourceID (lp_LeaseKey proof).

Lemma reconciliation_replayed st scope md proof hash s r s' :
  loadAttemptReconciliationReplay st scope md proof hash s = (Ok (Some r), s') →
  is_Some (idempotency_keys (canonical (tables s)) !! (tenantID st, scope, IdempotencyKey md)).
Proof.
  intros Hrun. refine (wp_run _ (λ o _, o = Some r → is_Some (idempotency_keys (canonical (tables s)) !!
    (tenantID st, scope, IdempotencyKey md))) s _ s' _ Hrun eq_refl).
  unfold loadAttemptReconciliationReplay. wp_apply wp_receipt.
  destruct (_ !! _) as [row|]; [|by wp_seq]. apply wp_intro. eauto.
Qed.

(** A reconciliation: its receipt answers, or it wrote all it selected. *)
Lemma swp_Reconcile st md proof s :
  swp s (ReconcileAbandonedAttempts st md proof) (λ r s', attempt_ok st proof s s' ∧
    (tables s' = tables s ∧ is_Some (idempotency_keys (canonical (tables s)) !!
       (tenantID st, reconcile_scope st proof, IdempotencyKey md)) ∨ ∃ ws t1 key row, r = scan_all ws ∧
       reconciles st proof md (tables s) ws t1 ∧ tables s' = set_receipts <[key := row]> t1)).
Proof.
  unfold ReconcileAbandonedAttempts. apply swp_bind, swp_lift. intros [] _.
  apply swp_bind, swp_lift. intros [] [Hkey _]%validateAttemptFence_ok.
  eapply swp_mono; [apply (swp_fencedTx _ _ _ _ _ _ _ _ _ _ (reconciles st proof md (tables s)));
    [done|auto with forja_parts..| | | |]|].
  - intros l. apply ticks_reconcileBody.
  - intros a. unfold saveAttemptReconciliationReplay. ticking.
  - eapply wp_mono; [apply wp_select_abandoned|]. intros l t [-> Hsel]. split; [done|].
    by apply wp_reconcileBody.
  - intros a t. apply wp_saved.
  - intros r s' (Hr & Hf & [[Ht (s1 & s2 & Hts & Hld)]|(ws & t1 & key & row & Hws & Hrec & Ht)]).
    + split; [split_and!; [done..|by left]|left]. split; [done|]. rewrite <-Hts.
      by eapply reconciliation_replayed.
    + split; [split_and!; [done..|]; right; by exists md, ws, t1, key, row; split; [apply Hrec|]|].
      right. by exists ws, t1, key, row.
Qed.
End commands.
