(* ===== verification/AuthorizationEffects.v ===== *)
(** * The effect of an authorization

    What [AuthorizeDelivery] has found and written when it succeeds. *)

From S2P Require Import Prelude GoLib Fault Contracts Identity RunState LeasePaths Postgres DeliveryContracts.
From S2P Require Import ControlMemory Leases LeaseSets AttemptRecords PgTables PgEvents PgLogic PgControl PgEffects.
From S2P Require Import RunProjection StreamEffects WorkerResults Attempts AttemptEffects Authorizations.
From S2P Require Import LeaseSafety.

Section relations.
Context `{Clock, Json, !Jsonb}.

(** Events about approvals and audits only, and perhaps a receipt. *)
Definition noted (st : PgStore) (md : CommandMetadata) (t t' : Forja) : Prop :=
  ∃ es t1, Forall (λ e, em_aggregate_type e ∈ ["approval"; "audit"]) es ∧ grown st md es t t1 ∧
    (t' = t1 ∨ ∃ key row, t' = set_receipts <[key := row]> t1).

(** The run and the attempt a request may be approved for. *)
Record eligible (st : PgStore) (request : DeliveryRequest) (t : Forja) (r : RunRow) (a : AttemptRow)
    : Prop := {
  el_run : runs (canonical t) !! rq_RunID request = Some r;
  el_scope : run_scope r = store_scope st;
  el_attempt : attempts (work t) !! rq_AttemptID request = Some a;
  el_tenant : at_tenant a = tenantID st;
  el_of : at_run a = rq_RunID request;
  el_objective : run_objective r = rq_Objective request;
  el_queued : run_state r = "queued";
  el_ordinal : at_ordinal a = rq_AttemptOrdinal request;
  el_waiting : at_status a = "queued";
  el_decision : ∃ id d, decisions (canonical t) !! id = Some d ∧ de_scope d = store_scope st ∧
    de_run d = rq_RunID request ∧ de_action d = "submit_sprint" ∧ de_status d = "approved";
}.
End relations.

Section effect.
Context `{Clock, Database, Sha256, Json, !Jsonb, Entropy, Sequences, DeliveryJson}.
Context `{!JsonCodec AuditRecord, !WorkerContracts, !AuthorizationContracts}.
Abbreviation Tx := (M error (DB Forja)).

Definition approval_emission (auth : DeliveryAuthorization) (payload : json) : Emission :=
  let request := da_Request auth in
  mkEmission _ "approval"
    (deliveryAuthorizationAggregateID (rq_DeliveryID request) (rq_AttemptID request)) 1
    "delivery.authorized" (da_ApprovedAt auth) payload.

(** The approval was written now. *)
Record granted (st : PgStore) (request : DeliveryRequest) (md : CommandMetadata) (s s' : DB Forja)
    (auth : DeliveryAuthorization) : Prop := {
  gr_request : da_Request auth = request;
  gr_digest : authorizable st request md = Ok (da_RequestSHA256 auth);
  gr_by : da_ApprovedBy auth = ActorID md;
  gr_at : ∃ n, da_ApprovedAt auth = postgresTimestamp (clock_reading n);
  gr_rows : ∃ r a, eligible st request (tables s) r a ∧
    fenced (tables s) (readings s) (readings s') (attempt_lease (repositoryID st) a) (at_worker a) (at_token a);
  gr_written : ∃ payload es t1 rc, Marshal auth = Ok payload ∧ audits es ∧
    grown st md (approval_emission auth payload :: es) (tables s) t1 ∧
    tables s' = set_receipts <[(tenantID st, authorize_scope st request, IdempotencyKey md) := rc]> t1;
}.

(** A receipt answered; at most an audit was written. *)
Definition answered (st : PgStore) (request : DeliveryRequest) (md : CommandMetadata) (s s' : DB Forja)
    (auth : DeliveryAuthorization) : Prop :=
  (∃ rc, idempotency_keys (canonical (tables s)) !!
     (tenantID st, authorize_scope st request, IdempotencyKey md) = Some rc ∧
     Decode (rc_body rc) = Ok auth) ∧
  ∃ es, audits es ∧ grown st md es (tables s) (tables s').

Lemma swp_authority st request s :
  swp s (authority st request) (λ proof s', tables s' = tables s ∧ readings s ≤ readings s' ∧
    ∃ r a, eligible st request (tables s) r a ∧ proof = attempt_proof_of st a ∧
      fenced (tables s) (readings s) (readings s') (attempt_lease (repositoryID st) a) (at_worker a) (at_token a)).
Proof.
  unfold authority. swp_seq. destruct (request_rows _ _ _) as [[r a]|] eqn:Hrows; swp_seq.
  apply swp_live_fence. intros live s1 Ht Hr Hf. destruct (_ || _) eqn:Hc; swp_seq.
  unfold request_rows in Hrows. apply bind_Some in Hrows as (r' & [Hrun Hsc]%in_scope_Some & Hrows).
  apply bind_Some in Hrows as (a' & Ha & Hrows). case_match eqn:Hown; [|done]. injection Hrows as -> ->.
  apply orb_false_iff in Hc as [Hc ->%negb_false_iff]. apply orb_false_iff in Hc as [Hc Hd%negb_false_iff].
  unfold submission_approved in Hd. apply bool_decide_eq_true in Hd as (id & d & Hd & Hdec). bool_prop. destruct_and!.
  split_and!; [done..|]. exists r, a. split_and!; [|done|by apply Hf]. split; try done. by exists id, d.
Qed.

Lemma ticks_appendToolAudit st record md : ticks (appendToolAudit st record md).
Proof. unfold appendToolAudit, storeNow. ticking. all: apply ticks_appendEvent. Qed.

Lemma ticks_appendSuccessToolAudit st md scope occ replay : ticks (appendSuccessToolAudit st md scope occ replay).
Proof. unfold appendSuccessToolAudit. case_match; [ticking|apply ticks_appendToolAudit]. Qed.

Lemma ticks_saveControlReplay {A} `{!JsonCodec A} st scope key hash status (a : A) :
  ticks (saveControlReplay st scope key hash status a).
Proof. unfold saveControlReplay, insert_receipt. ticking. Qed.

Lemma swp_audit st md scope occ replay s :
  swp s (appendSuccessToolAudit st md scope occ replay) (λ _ s',
    (∃ es, audits es ∧ grown st md es (tables s) (tables s')) ∧ readings s ≤ readings s').
Proof.
  apply (swp_of_wp _ (λ _ t', ∃ es, audits es ∧ grown st md es (tables s) t'));
    [|apply ticks_appendSuccessToolAudit].
  apply wp_appendSuccessToolAudit. intros es t' Ha Hg _. by exists es.
Qed.

Lemma swp_authorizeBody st request digest hash md s :
  authorizable st request md = Ok digest →
  swp s (authorizeBody st request digest (authorize_scope st request) hash md)
    (λ auth s', granted st request md s s' auth).
Proof.
  intros Hdig. unfold authorizeBody, storeNow. eapply swp_bind, swp_mono; [apply swp_authority|].
  intros proof s1 (Ht1 & Hr1 & r & a & Hel & -> & Hf). swp_seq.
  set (auth := mkAuthorization request digest (ActorID md) _).
  apply swp_reader; [auto with forja_parts|]. intros payload s2 Henc Ht2 Hr2. cbn in Ht2, Hr2. swp_seq.
  assert (Marshal auth = Ok payload) as Hm.
  { unfold encode in Henc. destruct (Marshal auth); [by injection Henc as -> _|discriminate Henc]. }
  eapply swp_mono; [apply (swp_of_wp _ (λ _ t', grown st md [approval_emission auth payload] (tables s2) t'));
    [apply wp_appendEvent; intros t' Hg; exact Hg|apply ticks_appendEvent]|].
  intros [] s3 [Hg3 Hr3]. swp_seq.
  eapply swp_mono; [apply swp_audit|]. intros [] s4 [(es & Ha & Hg4) Hr4]. swp_seq.
  eapply swp_mono; [apply (swp_of_wp _ (λ _ t', ∃ rc, t' = set_receipts
    <[(tenantID st, authorize_scope st request, IdempotencyKey md) := rc]> (tables s4)));
    [|apply ticks_saveControlReplay]|].
  { apply wp_bind, wp_encode. intros data _. apply wp_insert_receipt. intros _. by eexists. }
  intros [] s5 [[rc Ht5] Hr5]. swp_seq.
  apply swp_reader; [auto with forja_parts|]. intros [] s6 _ Ht6 Hr6. swp_seq. cbn in *.
  apply (Build_granted st request md s _ auth); [done|done|done|by eexists|..].
  - exists r, a. split; [done|]. eapply fenced_mono; [| |exact Hf]; cbn; lia.
  - exists payload, es, (tables s4), rc. split_and!; [done..| |by rewrite Ht6].
    change (_ :: es) with ([approval_emission auth payload] ++ es). eapply grown_app; [|exact Hg4].
    rewrite Ht2, Ht1 in Hg3. exact Hg3.
Qed.

Lemma loadControlReplay_found {A} `{!JsonCodec A} st scope key hash s (a : A) s' :
  loadControlReplay st scope key hash s = (Ok (Some a), s') →
  ∃ rc, idempotency_keys (canonical (tables s)) !! (tenantID st, scope, key) = Some rc ∧
    Decode (rc_body rc) = Ok a.
Proof.
  intros Hrun. refine (wp_run _ (λ o _, o = Some a → ∃ rc, idempotency_keys (canonical (tables s)) !!
    (tenantID st, scope, key) = Some rc ∧ Decode (rc_body rc) = Ok a) s _ s' _ Hrun eq_refl).
  unfold loadControlReplay. wp_apply wp_receipt. destruct (_ !! _) as [rc|] eqn:Hrc; [|by wp_seq].
  destruct (negb _); [wp_seq|]. destruct (Decode (rc_body rc)) eqn:Hd; wp_seq. intros [= ->]. eauto.
Qed.

Lemma loadControlReplay_reader {A} `{!JsonCodec A} st scope key hash :
  reader (loadControlReplay (A := A) st scope key hash).
Proof. unfold loadControlReplay. reading. Qed.

Lemma swp_AuthorizeDelivery st request md s :
  swp s (AuthorizeDelivery st request md) (λ auth s',
    granted st request md s s' auth ∨ answered st request md s s' auth).
Proof.
  unfold AuthorizeDelivery, lockIdempotency, storeNow. apply swp_bind, swp_lift. intros digest Hdig. swp_seq.
  apply swp_reader; [apply loadControlReplay_reader|]. intros [auth|] s1 Hrep Ht1 Hr1; cbn in Ht1, Hr1.
  - swp_seq. apply loadControlReplay_found in Hrep as (rc & Hrc & Hd). cbn in Hrc.
    eapply swp_mono; [apply swp_audit|]. intros [] s2 [(es & Ha & Hg) _]. swp_seq. right. split; [eauto|]. exists es. split; [done|]. cbn in Hg. by rewrite Ht1 in Hg.
  - eapply swp_mono; [by apply swp_authorizeBody|]. intros auth s2 [? ? ? ? Hrows Hw]. left.
    rewrite Ht1 in Hrows, Hw. destruct Hrows as (r & a & Hel & Hf). split; try done. exists r, a.
    split; [done|]. eapply fenced_mono; [| |exact Hf]; lia.
Qed.

Lemma AuthorizeDelivery_safe st request md : safe (AuthorizeDelivery st request md).
Proof. apply safe_bind; [apply reader_lift|]. intros digest. apply safe_atomically. Qed.

Lemma granted_noted st request md s s' auth : granted st request md s s' auth → noted st md (tables s) (tables s').
Proof.
  intros [_ _ _ _ _ (payload & es & t1 & rc & _ & Ha & Hg & ->)]. eexists _, t1. split_and!; [|exact Hg|by eauto].
  constructor; [by left|]. eapply Forall_impl; [exact Ha|]. intros e ->. set_solver.
Qed.

Lemma answered_noted st request md s s' auth : answered st request md s s' auth → noted st md (tables s) (tables s').
Proof.
  intros [_ (es & Ha & Hg)]. exists es, (tables s'). split_and!; [|done|by left].
  eapply Forall_impl; [exact Ha|]. intros e ->. set_solver.
Qed.

(** An authorization only notes something. *)
Lemma authorization_noted st request md s r s' :
  AuthorizeDelivery st request md s = (r, s') → noted st md (tables s) (tables s').
Proof.
  destruct r as [auth|e]; intros Hrun.
  - destruct (swp_run _ _ _ _ _ (swp_AuthorizeDelivery _ _ _ _) Hrun) as [Hg|Ha];
      [by eapply granted_noted|by eapply answered_noted].
  - rewrite (AuthorizeDelivery_safe _ _ _ _ _ _ Hrun). exists [], (tables s). split_and!; [constructor..|by left].
Qed.

Lemma noted_rows st md t t' :
  noted st md t t' → runs (canonical t') = runs (canonical t) ∧ sprints (canonical t') = sprints (canonical t) ∧
    decisions (canonical t') = decisions (canonical t) ∧ repositories (canonical t') = repositories (canonical t) ∧
    work t' = work t.
Proof.
  intros (es & t1 & _ & [Hc Hw]%grown_canonical & [->|(key & row & ->)]); cbn; by rewrite Hc, Hw.
Qed.
End effect.

(** ** Attempts and leases within the whole database

    The outcome of every attempt command, errors included, and the lease
    operations of [LeaseSafety] run on the lease tables of the database. *)

Section leases.
Context `{Clock, Database, TimeText, Sha256, Collation, Json}.

Definition lease_rows (t : Forja) : gmap LeaseKey LeaseRow := leases (lease_tables (work t)).

(** A lease operation keeps everything else, and every lease row lives on. *)
Record lease_moved (t t' : Forja) : Prop := {
  lm_canonical : canonical t' = canonical t;
  lm_stream : stream t' = stream t;
  lm_attempts : attempts (work t') = attempts (work t);
  lm_journal : delivery_publications (work t') = delivery_publications (work t);
  lm_rows : ∀ k row, lease_rows t !! k = Some row →
    ∃ row', lease_rows t' !! k = Some row' ∧ later row row';
}.

Lemma on_leases_moved o s r s' :
  on_leases (run_op o) s = (r, s') →
  lease_moved (tables s) (tables s') ∧ readings s ≤ readings s'.
Proof.
  unfold on_leases. destruct (run_op o _) as [r0 s0] eqn:Hrun. intros [= <- <-].
  apply run_op_rows in Hrun as [Hn Hrows]. split; [|done]. split; [done..|]. cbn.
  intros k row Hrow. specialize (Hrows k). cbn in Hrows. unfold lease_rows in Hrow.
  rewrite Hrow in Hrows. by apply row_step_later in Hrows.
Qed.
End leases.

Section attempts.
Context `{Clock, Database, Sha256, Json, !Jsonb, Entropy, Sequences, TextOrder, !AttemptCodecs}.
Context `{!JsonCodec WorkerResult, !WorkerContracts, ReportJson}.
Abbreviation Tx := (M error (DB Forja)).

Lemma ticks_fencedTx {A B R} st op label proof (locked : Tx B) (load : Tx (option R))
    (body : B → Tx A) save at_commit (response : A → R) :
  reader locked → reader load → (∀ a, reader (at_commit a)) →
  (∀ b, ticks (body b)) → (∀ a, ticks (save a)) →
  ticks (fencedTx st op label proof locked load body save at_commit response).
Proof.
  intros Hl Hld Hc Hb Hs. unfold fencedTx. apply ticks_atomically.
  do 2 (apply ticks_bind; [apply ticks_reader; auto with forja_parts|intros _]).
  apply ticks_bind; [by apply ticks_reader|intros b].
  apply ticks_bind; [apply ticks_reader; auto with forja_parts|intros _].
  apply ticks_bind; [by apply ticks_reader|intros [r|]]; [by ticking|].
  apply ticks_bind; [done|intros a]. apply ticks_bind; [done|intros _].
  do 2 (apply ticks_bind; [apply ticks_reader; auto with forja_parts|intros _]).
  apply ticks_bind; [by apply ticks_reader|by ticking].
Qed.

Lemma attempt_run_ticks st op : ticks (attempt_run st op).
Proof.
  destruct op; cbn [attempt_run]; unfold forget; (apply ticks_bind; [|by ticking]).
  - ticking.
  - unfold CreateAttempt. do 4 (apply ticks_bind; [by ticking|intros _]). apply ticks_fencedTx;
      [auto with forja_parts..| |]; [intros []; apply ticks_createAttemptBody|].
    intros a. unfold saveCreatedAttemptReplay. ticking.
  - unfold StartAttempt. apply ticks_bind; [by ticking|intros _]. apply ticks_fencedTx;
      [auto with forja_parts..| |]; [intros ?; apply ticks_startAttemptBody|].
    intros a. unfold saveAttemptReplay. ticking.
  - unfold FinishAttempt. do 2 (apply ticks_bind; [by ticking|intros _]). apply ticks_fencedTx;
      [auto with forja_parts..| |]; [intros ?; apply ticks_finishAttemptBody|].
    intros a. unfold saveAttemptReplay. ticking.
  - unfold ReconcileAbandonedAttempts. do 2 (apply ticks_bind; [by ticking|intros _]).
    apply ticks_fencedTx; [auto with forja_parts..| |]; [intros ?; apply ticks_reconcileBody|].
    intros a. unfold saveAttemptReconciliationReplay. ticking.
Qed.

Lemma safe_lift {A B} (x : result A) (k : A → Tx B) : (∀ a, safe (k a)) → safe (lift x ≫= k).
Proof. apply safe_bind, reader_lift. Qed.

Lemma safe_forget {A} (m : Tx A) : safe m → safe (forget m).
Proof.
  intros Hm s e s'. unfold forget. rewrite M_bind_run. destruct (m s) as [[a|e'] s1] eqn:Hrun; [done|].
  intros [= _ <-]. by eapply Hm.
Qed.

Lemma swp_forget {A} (m : Tx A) s Q : swp s m (λ _, Q) → swp s (forget m) (λ _, Q).
Proof. intros Hm. unfold forget. apply swp_bind. eapply swp_mono; [exact Hm|]. intros a s' HQ. by swp_seq. Qed.

Lemma attempt_run_safe st op : safe (attempt_run st op).
Proof.
  destruct op; cbn [attempt_run]; apply safe_forget; [apply safe_reader; auto with forja_parts|..].
  all: repeat (apply safe_lift; intros _); apply safe_atomically.
Qed.

(** A command that fails changes nothing; one that succeeds had a live fence. *)
Lemma attempt_outcome st op s r s' :
  attempt_run st op s = (r, s') →
  (r ≠ Ok tt → tables s' = tables s) ∧
  (r = Ok tt → match attempt_proof op with
               | Some proof => attempt_ok st proof s s'
               | None => tables s' = tables s
               end).
Proof.
  intros Hrun. split.
  - intros Hne. destruct r as [[]|e]; [done|]. by eapply attempt_run_safe.
  - intros ->. destruct op as [id|runID status md proof|id v md proof|id v result md proof|md proof];
      cbn [attempt_run attempt_proof] in *.
    { apply forget_run in Hrun as (r0 & Hrun). by apply GetAttempt_reader in Hrun as []. }
    all: eapply (swp_run _ (λ _, attempt_ok st proof s)); [|exact Hrun]; apply swp_forget.
    + apply swp_CreateAttempt.
    + apply swp_StartAttempt.
    + apply swp_FinishAttempt.
    + eapply swp_mono; [apply swp_Reconcile|]. by intros ? ? [].
Qed.
End attempts.
