(* ===== verification/PgSystem.v ===== *)
(** * The whole database at work

    Commands, dispatchers, projectors and rebuilds, of whatever tenants and
    repositories, interleaved in any order: what every reachable state
    satisfies, and what each party can rely on. *)

From S2P Require Import Prelude GoLib Fault Contracts Identity RunState.
From S2P Require Import ControlMemory Governance ControlRefinement Postgres Leases.
From S2P Require Import PgTables PgEvents PgLogic PgControl PgEffects PgRefinement PgStreams.
From S2P Require Import Queue Outbox ProjectionDeliveries RunProjection RunReplay StreamEffects.

(** ** What the stream operations never touch *)

Section log.
Context `{Json}.

(** The identity, scope and event of every message. *)
Definition message_keys (x : Stream) : list (Z * Scope * string) :=
  (λ o, (ob_id o, ob_scope o, ob_event o)) <$> outbox x.

Definition same_log (x x' : Stream) : Prop :=
  events x' = events x ∧ message_keys x' = message_keys x ∧ outbox_last x' = outbox_last x.

Lemma head_filter_fmap {A B} (f : A → B) (P : B → Prop) `{!∀ y, base.Decision (P y)} l :
  head (filter P (f <$> l)) = f <$> head (filter (λ x, P (f x)) l).
Proof.
  induction l as [|x l IH]; [done|]. rewrite fmap_cons, !filter_cons.
  destruct (decide (P (f x))); [done|]. apply IH.
Qed.

Lemma message_key sc id x :
  (λ o, (ob_id o, ob_scope o, ob_event o)) <$> message sc id x =
  head (filter (λ k : Z * Scope * string, k.1.2 = sc ∧ k.1.1 = id) (message_keys x)).
Proof. unfold message, message_keys. by rewrite head_filter_fmap. Qed.

Lemma message_event_key sc id x :
  message_event sc id x =
  ((λ o, (ob_id o, ob_scope o, ob_event o)) <$> message sc id x) ≫=
    λ k, head (filter (λ e, ev_id e = k.2) (events x)).
Proof. unfold message_event. fold (message sc id x). by destruct (message sc id x). Qed.

Lemma message_event_log sc id x x' :
  same_log x x' → message_event sc id x' = message_event sc id x.
Proof. intros (He & Hk & _). by rewrite !message_event_key, !message_key, Hk, He. Qed.

Lemma message_log sc id x x' :
  same_log x x' → is_Some (message sc id x) → is_Some (message sc id x').
Proof.
  intros (_ & Hk & _). rewrite <-!(fmap_is_Some (λ o, (ob_id o, ob_scope o, ob_event o))), !message_key.
  by rewrite Hk.
Qed.

Lemma same_log_in x x' o' :
  same_log x x' → o' ∈ outbox x' → ∃ o, o ∈ outbox x ∧ ob_id o = ob_id o' ∧ ob_scope o = ob_scope o'.
Proof.
  intros (_ & Hk & _) Ho'. apply (list_elem_of_fmap_2 (λ o, (ob_id o, ob_scope o, ob_event o))) in Ho'.
  fold (message_keys x') in Ho'. rewrite Hk in Ho'.
  apply list_elem_of_fmap in Ho' as (o & [= -> -> _] & Ho). eauto.
Qed.

Lemma messages_ok_log x x' : same_log x x' → messages_ok x → messages_ok x'.
Proof.
  intros (He & Hk & Hl) [Hp Hn Ht Hs [Hb Hlast]].
  assert (ob_id <$> outbox x' = ob_id <$> outbox x) as Hid.
  { change ob_id with ((λ k : Z * Scope * string, k.1.1) ∘ (λ o, (ob_id o, ob_scope o, ob_event o))).
    rewrite !list_fmap_compose. fold (message_keys x) (message_keys x'). by rewrite Hk. }
  split; rewrite ?He, ?Hid, ?Hl; try done.
  - rewrite <-Hp.
    change (λ o, (ob_scope o, ob_event o)) with
      ((λ k : Z * Scope * string, (k.1.2, k.2)) ∘ (λ o, (ob_id o, ob_scope o, ob_event o))).
    rewrite !list_fmap_compose. fold (message_keys x) (message_keys x'). by rewrite Hk.
  - split; [|done]. rewrite <-(Forall_fmap ob_id (λ i, 0 < i ≤ outbox_last x)%Z) in *. by rewrite Hid.
Qed.

Lemma put_log sc qn id d x : same_log x (q_put (queue_of sc qn) id d x).
Proof.
  destruct qn; [|done]. split_and!; [done| |done]. unfold message_keys. cbn.
  rewrite <-list_fmap_compose. apply list_fmap_ext. intros i o _. cbn. by case_match.
Qed.

Lemma same_log_trans x y z : same_log x y → same_log y z → same_log x z.
Proof. unfold same_log. intros. destruct_and!. split_and!; congruence. Qed.

Lemma puts_log sc qn cs x : same_log x (puts (queue_of sc qn) cs x).
Proof.
  revert x. induction cs as [|c cs IH]; intros x; [done|].
  eapply same_log_trans; [apply put_log|apply IH].
Qed.

Lemma effect_log `{Clock} sc n n' x op x' : effect sc n n' x op x' → same_log x x'.
Proof.
  destruct 1; try done.
  - apply puts_log.
  - eapply same_log_trans; [apply put_log|]. by destruct qn.
  - eapply same_log_trans; [|apply put_log]. by destruct (exhausted _ _).
Qed.
End log.

(** ** Rows of the queues *)

(** What the columns of a row have to do with each other. *)
Record row_ok (d : Delivery) : Prop := {
  ro_state : dl_state d ∈ ["pending"; "inflight"; "published"; "dead"];
  ro_counters : (0 ≤ dl_attempts d ≤ dl_token d)%Z ∧ (dl_token d ≤ int_max)%Z ∧
                (dl_attempts d ≤ 2 ^ 31 - 1)%Z;
  ro_locked : dl_state d = "inflight" ↔ is_Some (dl_locked_by d) ∧ is_Some (dl_locked_until d);
  ro_published : dl_state d = "published" ↔ is_Some (dl_published d);
  ro_error : ∀ e, dl_error d = Some e → (RuneCountInString e ≤ 4000)%Z;
}.

Lemma truncateError_runes cause : (RuneCountInString (truncateError cause) ≤ 4000)%Z.
Proof.
  unfold truncateError. destruct (_ <=? _)%Z eqn:Hle; [by bool_prop|].
  unfold RuneCountInString. pose proof (take_runes_count 4000 0 (cause_text cause)). lia.
Qed.

Lemma pending_ok available : row_ok (pendingDelivery available).
Proof.
  split; cbn; [by left|unfold int_max; lia| | |done];
    (split; [discriminate|first [by intros [[? ?] _]|by intros [? ?]]]).
Qed.

Lemma row_step_ok `{Clock} a n n' d d' : row_step a n n' d d' → row_ok d → row_ok d'.
Proof.
  intros Hstep [Hs Hc Hl Hp He]. destruct Hstep as
    [worker ttl i _ [_ Hfree] _ Ht Ha|worker token i _ _ _|worker token state retryAt cause _ Hh Hst|i _ Hd].
  - split; cbn; [by right; left|lia|by split; eauto| |done].
    split; [discriminate|]. rewrite <-Hp. by destruct Hfree as [->|[-> _]].
  - split; cbn; [by right; right; left|lia| |by split; eauto|done].
    split; [discriminate|by intros [[? ?] _]].
  - assert (dl_state d = "inflight") as Hin by apply Hh. split; cbn; [|lia| | |].
    + destruct Hst as [->| ->]; [by left|by right; right; right; left].
    + split; [by destruct Hst as [->| ->]|by intros [[? ?] _]].
    + rewrite <-Hp, Hin. destruct Hst as [->| ->]; split; discriminate.
    + intros e [= <-]. apply truncateError_runes.
  - split; cbn; [by left|lia| | |done].
    + split; [discriminate|by intros [[? ?] _]].
    + rewrite <-Hp, Hd. split; discriminate.
Qed.

Section rows.
Context `{Clock, Json}.
Implicit Types (x : Stream).

Definition row (sc : Scope) (qn : queue_name) (id : Z) x : option Delivery :=
  q_map (queue_of sc qn) x !! id.

Lemma row_put sc qn sc' qn' id id' d x :
  is_Some (row sc' qn' id' x) →
  row sc qn id (q_put (queue_of sc' qn') id' d x) =
  if decide ((sc, qn) = (sc', qn') ∧ id = id') then Some d else row sc qn id x.
Proof.
  intros Hid. unfold row. destruct (decide ((sc, qn) = (sc', qn'))) as [[= <- <-]|Hne].
  - rewrite (q_put_map id' d x) by done. rewrite lookup_insert.
    destruct (decide (id' = id)) as [->|Hne].
    + by rewrite decide_True.
    + by rewrite decide_False by naive_solver.
  - rewrite put_foreign by done. by rewrite decide_False by naive_solver.
Qed.

(** Setting checkpoints, consumers, letters and projections changes no row. *)
Lemma row_checkpointed sc qn sc' qn' id x : row sc qn id (checkpointed sc' qn' x) = row sc qn id x.
Proof. by destruct qn, qn'. Qed.
Lemma row_letter sc qn id l x : row sc qn id (add_letter l x) = row sc qn id x.
Proof. by destruct qn. Qed.

(** The backfill keeps existing rows and adds a pending one per message. *)
Lemma backfill_rows key x k id :
  (∀ d, deliveries x !! (k, id) = Some d → deliveries (backfill key x) !! (k, id) = Some d) ∧
  (deliveries x !! (k, id) = None → ∀ d, deliveries (backfill key x) !! (k, id) = Some d →
     k = key ∧ ∃ o, o ∈ outbox x ∧ ob_scope o = key.1 ∧ ob_id o = id ∧
       d = pendingDelivery (dl_available (ob_delivery o))) ∧
  (k = key → ∀ o, o ∈ outbox x → ob_scope o = key.1 → ob_id o = id →
     is_Some (deliveries (backfill key x) !! (k, id))).
Proof.
  unfold backfill. cbn [set_deliveries deliveries]. induction (outbox x) as [|o l IH]; cbn [foldr].
  { split_and!; [done|congruence|by intros _ o ?%elem_of_nil]. }
  destruct IH as (IH1 & IH2 & IH3). set (m := foldr _ _ l) in *.
  case_bool_decide as Hsc; cycle 1.
  { split_and!; [done| |].
    - intros Hn d Hd. destruct (IH2 Hn d Hd) as (? & o' & ? & ?). split; [done|]. exists o'.
      split; [by right|done].
    - intros Hk o' [->|Ho']%elem_of_cons Hs; [congruence|by apply IH3]. }
  destruct (m !! (key, ob_id o)) as [d0|] eqn:Hm; split_and!.
  - done.
  - intros Hn d Hd. destruct (IH2 Hn d Hd) as (? & o' & ? & ?). split; [done|]. exists o'.
    split; [by right|done].
  - intros Hk o' [->|Ho']%elem_of_cons Hs Hid; [subst; eauto|by eapply IH3].
  - intros d Hd. rewrite lookup_insert_ne; [by apply IH1|]. intros [= <- <-].
    rewrite (IH1 d Hd) in Hm. done.
  - intros Hn d. rewrite lookup_insert. case_decide as Heq.
    + injection Heq as <- <-. intros [= <-]. split; [done|]. exists o. split; [by left|done].
    + intros Hd. destruct (IH2 Hn d Hd) as (? & o' & ? & ?). split; [done|]. exists o'.
      split; [by right|done].
  - intros Hk o' [->|Ho']%elem_of_cons Hs Hid; subst; rewrite lookup_insert; case_decide; eauto.
    by eapply IH3.
Qed.

(** Every row stays, unchanged or by one step of its life. *)
Lemma effect_row sc0 n n' x op x' sc qn id d :
  effect sc0 n n' x op x' → row sc qn id x = Some d →
  ∃ d', row sc qn id x' = Some d' ∧ (d' = d ∨ (op_targets sc0 op sc qn id ∧ row_step (party_of op) n n' d d')).
Proof.
  intros Heff Hd. assert (∀ y, row sc qn id y = Some d → ∃ d', row sc qn id y = Some d' ∧
    (d' = d ∨ (op_targets sc0 op sc qn id ∧ row_step (party_of op) n n' d d'))) as Hsame by eauto.
  destruct Heff as [|qn0 worker limit ttl cs Hb|qn0 id0 worker token d0 i Hd0 Hh Hi
    |qn0 id0 worker token cause retryAt maxA d0 e Hd0 Hh He|p id0 d0 i Hd0 Hdead|p hash|p ps].
  - by apply Hsame.
  - destruct (decide ((sc, qn) = (sc0, qn0))) as [[= <- <-]|Hne].
    + pose proof (batch_row (queue_of sc qn) worker limit (intervalString ttl) n n' x cs id Hb) as Hrow.
      unfold row in *. rewrite Hd in Hrow. destruct Hrow as (d' & Hd' & Hstep). exists d'.
      split; [done|]. destruct Hstep; [by left|by right].
    + apply Hsame. unfold row.
      rewrite (puts_keeps (q_map (queue_of sc qn))); [done|]. intros. by apply put_foreign.
  - rewrite row_checkpointed, row_put by (by exists d0). case_decide as Heq; [|by apply Hsame].
    destruct Heq as [[= <- <-] <-]. unfold row in Hd. rewrite Hd in Hd0. injection Hd0 as <-.
    eexists. split; [done|]. right. split; [done|]. by eapply row_published.
  - rewrite row_put by (destruct (exhausted maxA d0); rewrite ?row_letter; by exists d0).
    assert (row sc qn id (if exhausted maxA d0 then add_letter (letter sc0 qn0 worker id0 e cause) x else x) = Some d) as Hd'
      by (destruct (exhausted maxA d0); by rewrite ?row_letter).
    case_decide as Heq; [|by apply Hsame].
    destruct Heq as [[= <- <-] <-]. unfold row in Hd. rewrite Hd in Hd0. injection Hd0 as <-.
    eexists. split; [done|]. right. split; [done|]. eapply row_failed; [done|done|].
    destruct (exhausted maxA d); [by right|by left].
  - change (ledger (sc0, p)) with (queue_of sc0 (Ledger p)). rewrite row_put by (by exists d0).
    case_decide as Heq; [|by apply Hsame]. destruct Heq as [[= <- ->] <-]. unfold row in Hd.
    cbn [queue_of] in Hd. rewrite Hd in Hd0. injection Hd0 as <-. eexists. split; [done|].
    right. split; [done|]. by constructor.
  - apply Hsame. unfold row in *. destruct qn as [|p0]; [done|]. cbn [queue_of] in *.
    rewrite lookup_ledger in *. exact (proj1 (backfill_rows (sc0, p) x (sc, p0) id) d Hd).
  - by apply Hsame; destruct qn.
Qed.

Lemma effect_new sc0 n n' x op x' sc qn id d' :
  effect sc0 n n' x op x' → row sc qn id x = None → row sc qn id x' = Some d' →
  ∃ p hash o, op = OpEnsure p hash ∧ (sc, qn) = (sc0, Ledger p) ∧ o ∈ outbox x ∧
    ob_scope o = sc ∧ ob_id o = id ∧ d' = pendingDelivery (dl_available (ob_delivery o)).
Proof.
  intros Heff Hn Hd'. assert (∀ qn0 id0 d0 d1 y, row sc0 qn0 id0 x = Some d0 →
    (∀ i, row sc qn i y = row sc qn i x) → is_Some (row sc0 qn0 id0 y) →
    row sc qn id (q_put (queue_of sc0 qn0) id0 d1 y) = Some d' → False) as Hput.
  { intros qn0 id0 d0 d1 y Hd0 Hy Hs. rewrite row_put by done. rewrite Hy, Hn.
    case_decide as Heq; [|done]. destruct Heq as [[= <- <-] <-]. congruence. }
  destruct Heff as [|qn0 worker limit ttl cs Hb|qn0 id0 worker token d0 i Hd0 Hh Hi
    |qn0 id0 worker token cause retryAt maxA d0 e Hd0 Hh He|p id0 d0 i Hd0 Hdead|p hash|p ps].
  - congruence.
  - exfalso. destruct (decide ((sc, qn) = (sc0, qn0))) as [[= <- <-]|Hne].
    + pose proof (batch_row (queue_of sc qn) worker limit (intervalString ttl) n n' x cs id Hb) as Hrow.
      unfold row in *. rewrite Hn in Hrow. congruence.
    + unfold row in Hd'. rewrite (puts_keeps (q_map (queue_of sc qn))) in Hd';
        [unfold row in Hn; congruence|]. intros. by apply put_foreign.
  - exfalso. rewrite row_checkpointed in Hd'. eapply Hput; [exact Hd0|done|by exists d0|exact Hd'].
  - exfalso. eapply Hput; [exact Hd0| | |exact Hd'];
      intros; destruct (exhausted _ _); rewrite ?row_letter; (done || by exists d0).
  - exfalso. eapply (Hput (Ledger p)); [exact Hd0|done|by exists d0|exact Hd'].
  - unfold row in *. destruct qn as [|p0]; [exfalso; change (row sc OutboxQueue id x = Some d') in Hd'; unfold row in Hd'; congruence|].
    cbn [queue_of] in *. rewrite lookup_ledger in *.
    destruct (proj1 (proj2 (backfill_rows (sc0, p) x (sc, p0) id)) Hn d' Hd') as ([= -> ->] & o & Ho & ? & ? & ?).
    by exists p, hash, o.
  - exfalso. assert (row sc qn id x = Some d') by (by destruct qn). congruence.
Qed.
End rows.

(** ** Projectors and their ledgers *)

Section ledgers.
Context `{Clock, Json}.
Implicit Types (x : Stream).

Record ledgers_ok x : Prop := {
  lo_fk : ∀ sc p id, is_Some (row sc (Ledger p) id x) →
    is_Some (message sc id x) ∧ is_Some (consumers x !! (sc, p));
  lo_active : ∀ k c, consumers x !! k = Some c → cs_status c = "active";
  lo_full : ∀ sc p o, is_Some (consumers x !! (sc, p)) → o ∈ outbox x → ob_scope o = sc →
    is_Some (row sc (Ledger p) (ob_id o) x);
  lo_rows : ∀ sc qn id d, row sc qn id x = Some d → row_ok d;
  lo_letters : ∀ sc qn id d, row sc qn id x = Some d → dl_state d = "dead" →
    ∃ l e, l ∈ dead_letters x ∧ dd_scope l = sc ∧ dd_outbox l = id ∧
      message_event sc id x = Some e ∧ dd_event l = ev_id e ∧ dd_payload l = ev_payload e;
}.

Lemma effect_consumers sc n n' x op x' k :
  effect sc n n' x op x' →
  (∀ c, consumers x !! k = Some c → consumers x' !! k = Some c) ∧
  (consumers x !! k = None → ∀ c, consumers x' !! k = Some c →
     cs_status c = "active" ∧ ∃ p hash, op = OpEnsure p hash ∧ k = (sc, p)).
Proof.
  intros Heff. assert (∀ q cs y, (∀ id d z, consumers (q_put q id d z) = consumers z) →
    consumers (puts q cs y) = consumers y) as Hputs by (intros; by apply puts_keeps).
  assert (∀ y, consumers y = consumers x →
    (∀ c, consumers x !! k = Some c → consumers y !! k = Some c) ∧
    (consumers x !! k = None → ∀ c, consumers y !! k = Some c →
       cs_status c = "active" ∧ ∃ p hash, op = OpEnsure p hash ∧ k = (sc, p))) as Hsame
    by (intros y ->; split; [done|intros; congruence]).
  destruct Heff as [| | | | |p hash|]; try (apply Hsame; done).
  - apply Hsame. apply Hputs. by destruct qn.
  - apply Hsame. by destruct qn.
  - apply Hsame. destruct qn, (exhausted _ _); done.
  - cbn. destruct (consumers x !! (sc, p)) as [c0|] eqn:Hc; [apply (Hsame x); done|].
    rewrite lookup_insert. case_decide as Hk.
    + subst k. split; [congruence|]. intros _ c [= <-]. split; [done|]. by exists p, hash.
    + split; [done|congruence].
Qed.

Lemma effect_letters sc n n' x op x' l :
  effect sc n n' x op x' → l ∈ dead_letters x → l ∈ dead_letters x'.
Proof.
  intros Heff Hl. destruct Heff; try done.
  - rewrite (puts_keeps dead_letters); [done|]. intros. by destruct qn.
  - by destruct qn.
  - destruct qn, (exhausted _ _); cbn; rewrite ?elem_of_app; eauto.
Qed.

(** A row that becomes dead is buried by the same operation. *)
Lemma effect_buries sc n n' x op x' sc' qn id d d' :
  effect sc n n' x op x' → row sc' qn id x = Some d → row sc' qn id x' = Some d' →
  dl_state d ≠ "dead" → dl_state d' = "dead" →
  ∃ l e, l ∈ dead_letters x' ∧ dd_scope l = sc' ∧ dd_outbox l = id ∧
    message_event sc' id x = Some e ∧ dd_event l = ev_id e ∧ dd_payload l = ev_payload e.
Proof.
  intros Heff Hd Hd' Hnd Hdead. destruct (effect_row _ _ _ _ _ _ _ _ _ _ Heff Hd) as (d1 & Hd1 & Hstep).
  rewrite Hd' in Hd1. injection Hd1 as <-. destruct Hstep as [->|[_ Hstep]]; [done|].
  destruct Heff as [|qn0 worker limit ttl cs Hb|qn0 id0 worker token d0 i Hd0 Hh Hi
    |qn0 id0 worker token cause retryAt maxA d0 e Hd0 Hh He|p id0 d0 i Hd0 Hdead0|p hash|p ps].
  4: {
    rewrite row_put in Hd' by (destruct (exhausted maxA d0); rewrite ?row_letter; by exists d0).
    case_decide as Heq.
    - destruct Heq as [[= -> ->] ->]. injection Hd' as <-. cbn in Hdead.
      exists (letter sc qn0 worker id0 e cause), e. destruct (exhausted maxA d0); [|done].
      split_and!; try done. destruct qn0; cbn; apply elem_of_app; right; by left.
    - destruct (exhausted maxA d0); rewrite ?row_letter in Hd'; congruence. }
  3: { rewrite row_checkpointed, row_put in Hd' by (by exists d0). case_decide; [|congruence].
       by injection Hd' as <-. }
  all: exfalso; first [congruence | destruct Hstep; cbn in *; congruence].
Qed.

Lemma message_in sc id x o :
  o ∈ outbox x → ob_scope o = sc → ob_id o = id → is_Some (message sc id x).
Proof.
  intros Ho Hs Hid. unfold message. destruct (filter _ _) as [|o' l] eqn:Hf; [|by eexists].
  apply filter_nil_not_elem_of with (x := o) in Hf; [done|]. by split.
Qed.

Lemma effect_ledgers sc0 n n' x op x' :
  effect sc0 n n' x op x' → ledgers_ok x → ledgers_ok x'.
Proof.
  intros Heff [Hfk Hact Hfull Hrows Hlet]. pose proof (effect_log _ _ _ _ _ _ Heff) as Hlog.
  split.
  - intros sc p id [d' Hd']. destruct (row sc (Ledger p) id x) as [d|] eqn:Hd.
    + destruct (Hfk sc p id) as [Hm [c Hc]]; [by eexists|]. split; [by eapply message_log|].
      exists c. by apply (effect_consumers _ _ _ _ _ _ (sc, p) Heff).
    + destruct (effect_new _ _ _ _ _ _ _ _ _ _ Heff Hd Hd')
        as (p' & hash & o & -> & [= -> <-] & Ho & Hs & Hid & _).
      split; [eapply message_log; [done|by eapply message_in]|].
      inversion Heff; subst; [congruence|]. cbn.
      destruct (consumers x !! _) as [c|] eqn:Hc; [by exists c|]. by rewrite lookup_insert_eq.
  - intros k c Hc. destruct (effect_consumers _ _ _ _ _ _ k Heff) as [Hkeep Hnew].
    destruct (consumers x !! k) as [c0|] eqn:Hc0; [|by apply Hnew].
    rewrite (Hkeep c0 eq_refl) in Hc. injection Hc as <-. by eapply Hact.
  - intros sc p o' [c Hc] Ho' Hs. destruct (same_log_in _ _ _ Hlog Ho') as (o & Ho & Hid & Hso).
    destruct (effect_consumers _ _ _ _ _ _ (sc, p) Heff) as [_ Hnew].
    destruct (consumers x !! (sc, p)) as [c0|] eqn:Hc0.
    + destruct (Hfull sc p o) as [d Hd]; [by eexists|done|congruence|]. rewrite Hid in Hd.
      destruct (effect_row _ _ _ _ _ _ _ _ _ _ Heff Hd) as (d' & Hd' & _). by exists d'.
    + destruct (Hnew eq_refl c Hc) as (_ & p' & hash & -> & [= -> <-]).
      inversion Heff; subst; [congruence|]. unfold row. cbn [queue_of]. rewrite lookup_ledger.
      apply (proj2 (proj2 (backfill_rows (ob_scope o', p) x (ob_scope o', p) (ob_id o'))) eq_refl o);
        [done|done|done].
  - intros sc qn id d' Hd'. destruct (row sc qn id x) as [d|] eqn:Hd.
    + destruct (effect_row _ _ _ _ _ _ _ _ _ _ Heff Hd) as (d1 & Hd1 & Hstep).
      rewrite Hd' in Hd1. injection Hd1 as <-.
      destruct Hstep as [->|[_ Hstep]]; [by eapply Hrows|]. by eapply row_step_ok, Hrows.
    + destruct (effect_new _ _ _ _ _ _ _ _ _ _ Heff Hd Hd') as (? & ? & ? & _ & _ & _ & _ & _ & ->).
      apply pending_ok.
  - intros sc qn id d' Hd' Hdead. rewrite (message_event_log _ _ x x') by done.
    destruct (row sc qn id x) as [d|] eqn:Hd.
    + destruct (decide (dl_state d = "dead")) as [Hdd|Hnd]; [|by eapply effect_buries].
      destruct (Hlet _ _ _ _ Hd Hdd) as (l & e & Hl & ?). exists l, e.
      split; [by eapply effect_letters|done].
    + destruct (effect_new _ _ _ _ _ _ _ _ _ _ Heff Hd Hd') as (? & ? & ? & _ & _ & _ & _ & _ & ->).
      done.
Qed.
End ledgers.

(** ** New messages *)

Section growth.
Context `{Clock, Json}.
Implicit Types (x : Stream).

Lemma elem_of_activeProjectors (sc : Scope) (m : gmap ProjectorKey ConsumerRow) (p : string) :
  p ∈ activeProjectors sc m ↔ ∃ c, m !! (sc, p) = Some c ∧ cs_status c = "active".
Proof.
  unfold activeProjectors. rewrite list_elem_of_omap. split.
  - intros ([[sc' p'] c] & Hin%elem_of_map_to_list & Heq).
    destruct (_ && _) eqn:Hb; [|done]. injection Heq as ->. bool_prop. destruct Hb as [<- ?]. eauto.
  - intros (c & Hc & Ha). exists (sc, p, c). rewrite elem_of_map_to_list. split; [done|].
    by rewrite !bool_decide_eq_true_2.
Qed.

Lemma lookup_fanout sc nid available x k id :
  fanout_projection_delivery sc nid available x !! (k, id) =
  if decide (id = nid ∧ k.1 = sc ∧ k.2 ∈ activeProjectors sc (consumers x))
  then Some (pendingDelivery available) else deliveries x !! (k, id).
Proof.
  unfold fanout_projection_delivery.
  induction (activeProjectors sc (consumers x)) as [|p l IH]; cbn [foldr].
  { rewrite decide_False; [done|]. by intros (_ & _ & ?%elem_of_nil). }
  rewrite lookup_insert. destruct (decide (_ = (k, id))) as [Heq|Hne].
  - injection Heq as <- <-. rewrite decide_True; [done|]. split_and!; [done..|by left].
  - rewrite IH. destruct k as [sc' p']. cbn in *.
    destruct (decide (id = nid ∧ sc' = sc ∧ p' ∈ l)) as [(? & ? & ?)|Hn].
    + by rewrite decide_True by (split_and!; [done..|by right]).
    + rewrite decide_False; [done|]. intros (-> & -> & [->|Hin]%elem_of_cons); [done|].
      by apply Hn.
Qed.

Lemma message_add sc id erow nid available x :
  message sc id (add_event erow nid available x) =
  match message sc id x with
  | Some o => Some o
  | None => if decide (ev_scope erow = sc ∧ nid = id)
            then Some (mkOutboxRow nid (ev_scope erow) (ev_id erow) (pendingDelivery available))
            else None
  end.
Proof.
  unfold message. cbn [add_event outbox]. rewrite filter_app. destruct (filter _ (outbox x)); [|done].
  rewrite filter_cons. cbn [app ob_scope ob_id]. by case_decide.
Qed.

(** The rows after a new message: the old ones, and pending ones for it. *)
Lemma add_event_row erow nid available x sc qn id :
  messages_ok x → ledgers_ok x → (outbox_last x < nid)%Z →
  let x' := add_event erow nid available x in
  (∀ d, row sc qn id x = Some d → row sc qn id x' = Some d) ∧
  (row sc qn id x = None → ∀ d, row sc qn id x' = Some d →
     d = pendingDelivery available ∧ sc = ev_scope erow ∧ id = nid ∧
     (∀ p, qn = Ledger p → is_Some (consumers x !! (sc, p)))).
Proof.
  intros Hm Hl Hlast x'. assert (∀ sc o, message sc nid x = Some o → False) as Hfresh.
  { intros sc' o (Ho & _ & Hid)%message_Some. pose proof (mo_bounds _ Hm) as [Hb _].
    rewrite Forall_forall in Hb. specialize (Hb o Ho). cbn in Hb. lia. }
  unfold row. destruct qn as [|p]; cbn [queue_of].
  - rewrite !lookup_outbox. unfold x'. rewrite message_add.
    destruct (message sc id x) as [o|] eqn:Ho; cbn; [by split|]. split; [done|].
    intros _ d. case_decide as Hd; [|done]. destruct Hd as [<- <-]. cbn. by intros [= <-].
  - rewrite !lookup_ledger. unfold x'. cbn [add_event deliveries]. rewrite lookup_fanout. cbn [fst snd].
    case_decide as Hd; [|split; congruence]. destruct Hd as (-> & -> & (c & Hc & _)%elem_of_activeProjectors).
    split.
    + intros d Hd. destruct (lo_fk _ Hl (ev_scope erow) p nid) as [[o Ho] _];
        [unfold row; cbn [queue_of]; rewrite lookup_ledger; by exists d|]. by destruct (Hfresh _ _ Ho).
    + intros _ d [= <-]. split_and!; [done..|]. intros p' [= <-]. by exists c.
Qed.

Lemma message_event_add sc id erow nid available x e :
  message_event sc id x = Some e → message_event sc id (add_event erow nid available x) = Some e.
Proof.
  rewrite !message_event_key, message_add. destruct (message sc id x) as [o|]; [|done]. cbn.
  rewrite filter_app. by destruct (filter _ (events x)).
Qed.

Lemma add_event_ledgers erow nid available x :
  messages_ok x → (outbox_last x < nid)%Z → ledgers_ok x → ledgers_ok (add_event erow nid available x).
Proof.
  intros Hm Hlast Hl. pose proof (λ sc qn id, add_event_row erow nid available x sc qn id Hm Hl Hlast) as Hrow.
  set (x' := add_event erow nid available x) in *. pose proof Hl as [Hfk Hact Hfull Hrows Hlet]. split.
  - intros sc p id [d' Hd']. destruct (Hrow sc (Ledger p) id) as [_ Hnew]. unfold x'. rewrite message_add.
    destruct (row sc (Ledger p) id x) as [d|] eqn:Hd.
    + destruct (Hfk sc p id) as [[o ->] Hc]; [by eexists|]. split; [by eexists|done].
    + destruct (Hnew eq_refl d' Hd') as (_ & -> & -> & Hc). split; [|by apply Hc].
      destruct (message _ _ x); [by eexists|]. rewrite decide_True by done. by eexists.
  - exact Hact.
  - intros sc p o [c Hc] Ho Hs. destruct (Hrow sc (Ledger p) (ob_id o)) as [Hold _].
    apply elem_of_app in Ho as [Ho|Ho].
    + destruct (Hfull sc p o) as [d Hd]; [by eexists|done|done|]. exists d. by apply Hold.
    + apply list_elem_of_singleton in Ho as ->. cbn [ob_scope ob_id] in *. subst sc.
      unfold row. cbn [queue_of]. rewrite lookup_ledger. unfold x'. cbn [add_event deliveries].
      rewrite lookup_fanout, decide_True; [by eexists|]. split_and!; [done..|].
      apply elem_of_activeProjectors. exists c. split; [done|]. by eapply Hact.
  - intros sc qn id d' Hd'. destruct (Hrow sc qn id) as [Hold Hnew].
    destruct (row sc qn id x) as [d|] eqn:Hd.
    + rewrite (Hold d eq_refl) in Hd'. injection Hd' as <-. by eapply Hrows.
    + destruct (Hnew eq_refl d' Hd') as (-> & _). apply pending_ok.
  - intros sc qn id d' Hd' Hdead. destruct (Hrow sc qn id) as [Hold Hnew].
    destruct (row sc qn id x) as [d|] eqn:Hd.
    + rewrite (Hold d eq_refl) in Hd'. injection Hd' as <-.
      destruct (Hlet _ _ _ _ Hd Hdead) as (l & e & Hin & ? & ? & He & ? & ?). exists l, e.
      split_and!; first [done|by apply message_event_add].
    + destruct (Hnew eq_refl d' Hd') as (-> & _). done.
Qed.
End growth.

(** ** The checkpoint of a projector *)

Section checkpoints.
Context `{Clock, Json}.
Implicit Types (x : Stream).

(** A registered projector has published everything up to its checkpoint. *)
Definition checkpoint_ok (sc : Scope) (p : string) x : Prop :=
  ∀ last, checkpoints x !! (sc, p) = Some last →
    is_Some (consumers x !! (sc, p)) ∧ (0 ≤ last ≤ outbox_last x)%Z ∧
    ∀ id d, row sc (Ledger p) id x = Some d → (id ≤ last)%Z → dl_state d = "published".

Lemma published_stays a n n' d d' :
  dl_state d = "published" → row_step a n n' d d' → False.
Proof.
  intros Hd. destruct 1 as [? ? ? _ [_ [Hp|[Hp _]]]|? ? ? _ [Hp]|? ? ? ? ? _ [Hp]|? _ Hp]; congruence.
Qed.

Lemma effect_published sc0 n n' x op x' sc qn id d :
  effect sc0 n n' x op x' → row sc qn id x = Some d → dl_state d = "published" →
  row sc qn id x' = Some d.
Proof.
  intros Heff Hd Hp. destruct (effect_row _ _ _ _ _ _ _ _ _ _ Heff Hd) as (d' & Hd' & [->|[_ Hstep]]); [done|].
  by destruct (published_stays _ _ _ _ _ Hp Hstep).
Qed.

Lemma min_id_spec l :
  match min_id l with Some m => m ∈ l ∧ ∀ z, z ∈ l → (m ≤ z)%Z | None => l = [] end.
Proof.
  destruct l as [|z l]; [done|]. cbn. induction l as [|y l (Hin & Hle)]; cbn.
  { split; [by left|]. by intros z' ->%list_elem_of_singleton. }
  split.
  - destruct (Z.min_spec y (foldr Z.min z l)) as [[_ ->]|[_ ->]]; [by right; left|].
    apply elem_of_cons in Hin as [->|?]; [by left|]. by right; right.
  - intros z' [->|[->|Hz']%elem_of_cons]%elem_of_cons; [|lia|].
    + specialize (Hle z ltac:(by left)). lia.
    + specialize (Hle z' ltac:(by right)). lia.
Qed.

Lemma max_id_spec l :
  match max_id l with Some m => m ∈ l ∧ ∀ z, z ∈ l → (z ≤ m)%Z | None => l = [] end.
Proof.
  destruct l as [|z l]; [done|]. cbn. induction l as [|y l (Hin & Hle)]; cbn.
  { split; [by left|]. by intros z' ->%list_elem_of_singleton. }
  split.
  - destruct (Z.max_spec y (foldr Z.max z l)) as [[_ ->]|[_ ->]]; [|by right; left].
    apply elem_of_cons in Hin as [->|?]; [by left|]. by right; right.
  - intros z' [->|[->|Hz']%elem_of_cons]%elem_of_cons; [|lia|].
    + specialize (Hle z ltac:(by left)). lia.
    + specialize (Hle z' ltac:(by right)). lia.
Qed.

Lemma elem_of_ledger_rows sc p id d x :
  (id, d) ∈ ledger_rows (sc, p) x ↔ row sc (Ledger p) id x = Some d.
Proof.
  unfold row. cbn [queue_of]. rewrite lookup_ledger. unfold ledger_rows. rewrite list_elem_of_omap. split.
  - intros ([[k i] d'] & Hin%elem_of_map_to_list & Heq). case_bool_decide; [|done].
    by injection Heq as -> ->; subst.
  - intros Hd. exists (sc, p, id, d). rewrite elem_of_map_to_list, bool_decide_eq_true_2 by done. done.
Qed.

(** The next checkpoint: everything up to it is published, and it stops right
    before the first message that is not. *)
Lemma advanced_spec sc p last x :
  (∀ id d, row sc (Ledger p) id x = Some d → (last < id ≤ advanced (sc, p) last x)%Z →
     dl_state d = "published") ∧
  (last ≤ advanced (sc, p) last x)%Z ∧
  (∀ b, (last ≤ b)%Z → (∀ id d, row sc (Ledger p) id x = Some d → (id ≤ b)%Z) →
     (advanced (sc, p) last x ≤ b)%Z) ∧
  (∀ id d, row sc (Ledger p) id x = Some d → dl_state d ≠ "published" → (last < id)%Z →
     ∃ d', row sc (Ledger p) (advanced (sc, p) last x + 1) x = Some d' ∧ dl_state d' ≠ "published").
Proof.
  unfold advanced, next_pending, latest_delivery.
  set (l := filter _ (ledger_rows (sc, p) x)).
  assert (∀ id d, (id, d) ∈ l ↔ row sc (Ledger p) id x = Some d ∧ (last < id)%Z ∧ dl_state d ≠ "published") as Hl.
  { intros id d. unfold l. rewrite list_elem_of_filter, elem_of_ledger_rows. cbn. tauto. }
  pose proof (min_id_spec l.*1) as Hmin. destruct (min_id l.*1) as [m|].
  - destruct Hmin as [([id0 d0] & -> & Hin)%list_elem_of_fmap Hle]. cbn [fst] in *.
    apply Hl in Hin as (Hd0 & Hgt & Hnp). split_and!; [|lia| |].
    + intros id d Hd Hid. destruct (decide (dl_state d = "published")) as [|Hu]; [done|].
      specialize (Hle id). assert (id ∈ l.*1) as Hi; [|specialize (Hle Hi); lia].
      apply list_elem_of_fmap. exists (id, d). split; [done|]. apply Hl. split_and!; [done|lia|done].
    + intros b Hb Hall. specialize (Hall _ _ Hd0). lia.
    + intros _ _ _ _ _. exists d0. by replace (Z.max last (id0 - 1) + 1)%Z with id0 by lia.
  - assert (∀ id d, row sc (Ledger p) id x = Some d → (last < id)%Z → dl_state d = "published") as Hall.
    { intros id d Hd Hid. destruct (decide (dl_state d = "published")) as [|Hu]; [done|].
      assert ((id, d) ∈ l) as Hi by (by apply Hl). apply (list_elem_of_fmap_2 fst) in Hi.
      rewrite Hmin in Hi. by apply elem_of_nil in Hi. }
    split_and!; [intros id d Hd Hid; apply (Hall id d Hd); lia|lia| |intros id d Hd Hu Hid; by destruct Hu; eapply Hall].
    intros b Hb Hbound. pose proof (max_id_spec (ledger_rows (sc, p) x).*1) as Hmax.
    destruct (max_id _) as [m|]; [|lia]. destruct Hmax as [([id d] & -> & Hin)%list_elem_of_fmap _].
    apply elem_of_ledger_rows, Hbound in Hin. cbn. lia.
Qed.

Lemma row_bounded sc p id d x :
  messages_ok x → ledgers_ok x → row sc (Ledger p) id x = Some d → (0 < id ≤ outbox_last x)%Z.
Proof.
  intros Hm Hl Hd. destruct (lo_fk _ Hl sc p id) as [[o Ho] _]; [by exists d|].
  apply message_Some in Ho as (Ho & _ & <-). pose proof (mo_bounds _ Hm) as [Hb _].
  rewrite Forall_forall in Hb. by apply Hb in Ho.
Qed.

(** The checkpoint stays and no row is added. *)
Lemma checkpoint_kept sc0 n n' x op x' sc p :
  effect sc0 n n' x op x' → checkpoint_ok sc p x →
  checkpoints x' !! (sc, p) = checkpoints x !! (sc, p) →
  (∀ id d, row sc (Ledger p) id x = None → row sc (Ledger p) id x' = Some d →
     checkpoints x !! (sc, p) = None) →
  checkpoint_ok sc p x'.
Proof.
  intros Heff Hok Hc Hnew last. rewrite Hc. intros Hlast. destruct (Hok last Hlast) as ([c Hcs] & Hb & Hpub).
  destruct (effect_log _ _ _ _ _ _ Heff) as (_ & _ & ->).
  split; [exists c; by apply (effect_consumers _ _ _ _ _ _ (sc, p) Heff)|]. split; [done|].
  intros id d' Hd' Hid. destruct (row sc (Ledger p) id x) as [d|] eqn:Hd.
  - pose proof (Hpub id d Hd Hid) as Hp.
    rewrite (effect_published _ _ _ _ _ _ _ _ _ _ Heff Hd Hp) in Hd'. by injection Hd' as <-.
  - rewrite (Hnew _ _ Hd Hd') in Hlast. done.
Qed.

(** A completion by the projector itself. *)
Lemma completion_checkpoint n n' x sc p id worker token d i :
  messages_ok x → ledgers_ok x → checkpoint_ok sc p x →
  row sc (Ledger p) id x = Some d → held n n' worker token d → n ≤ i < n' →
  let x1 := q_put (queue_of sc (Ledger p)) id (publishedDelivery (clock_reading i) d) x in
  let x' := checkpointed sc (Ledger p) x1 in
  checkpoint_ok sc p x' ∧
  ∀ last, checkpoints x !! (sc, p) = Some last →
    ∃ last', checkpoints x' !! (sc, p) = Some last' ∧ (last ≤ last')%Z.
Proof.
  intros Hm Hl Hok Hd Hh Hi x1 x'.
  assert (effect sc n n' x (OpComplete (Ledger p) id worker token) x') as Heff by (by eapply eff_complete).
  assert (checkpoints x' !! (sc, p) = (λ last, advanced (sc, p) last x1) <$> checkpoints x !! (sc, p)) as Hc
    by (cbn; by rewrite lookup_alter_eq).
  assert (∀ i d', row sc (Ledger p) i x' = Some d' → ∃ d0, row sc (Ledger p) i x = Some d0) as Hold.
  { intros j d' Hd'. destruct (row sc (Ledger p) j x) as [d0|] eqn:Hd0; [by exists d0|].
    by destruct (effect_new _ _ _ _ _ _ _ _ _ _ Heff Hd0 Hd') as (? & ? & ? & ? & _). }
  split.
  - intros last'. rewrite Hc. intros (last & Hlast & ->)%fmap_Some. destruct (Hok last Hlast) as (Hcs & Hb & Hpub).
    destruct (advanced_spec sc p last x1) as (Hadv & Hge & Hup & _).
    split; [done|]. change (outbox_last x') with (outbox_last x). split.
    + split; [lia|]. apply Hup; [lia|]. intros j d' (d0 & Hd0)%Hold. by eapply row_bounded.
    + intros j d' Hd' Hj. destruct (decide (j ≤ last)%Z) as [Hle|Hgt]; [|apply (Hadv j d' Hd'); lia].
      destruct (Hold j d' Hd') as (d0 & Hd0). pose proof (Hpub j d0 Hd0 Hle) as Hp.
      rewrite (effect_published _ _ _ _ _ _ _ _ _ _ Heff Hd0 Hp) in Hd'. by injection Hd' as <-.
  - intros last Hlast. rewrite Hc, Hlast. eexists. split; [done|]. apply advanced_spec.
Qed.

(** A registration: the first one starts at zero, later ones add nothing. *)
Lemma registration_checkpoint x sc p hash :
  messages_ok x → ledgers_ok x → checkpoint_ok sc p x →
  let x' := registered (sc, p) hash x in
  checkpoint_ok sc p x' ∧
  ∀ last, checkpoints x !! (sc, p) = Some last →
    ∃ last', checkpoints x' !! (sc, p) = Some last' ∧ (last ≤ last')%Z.
Proof.
  intros Hm Hl Hok x'.
  assert (effect sc 0 0 x (OpEnsure p hash) x') as Heff by constructor.
  pose proof (effect_log _ _ _ _ _ _ Heff) as Hlog.
  destruct (checkpoints x !! (sc, p)) as [last|] eqn:Hlast.
  - assert (checkpoints x' !! (sc, p) = Some last) as Hc by (cbn; by rewrite Hlast).
    split; [|intros ? [= <-]; exists last; split; [done|lia]].
    eapply checkpoint_kept; [done..|congruence|]. intros id d Hd Hd'. exfalso.
    destruct (effect_new _ _ _ _ _ _ _ _ _ _ Heff Hd Hd') as (? & ? & o & _ & _ & Ho & Hs & <- & _).
    destruct (Hok last Hlast) as (Hcs & _). destruct (lo_full _ Hl sc p o Hcs Ho Hs). congruence.
  - split; [|done]. intros last'. cbn. rewrite Hlast, lookup_insert_eq. intros [= <-]. split.
    { destruct (consumers x !! (sc, p)) as [c|] eqn:Hc; [by exists c|]. by rewrite lookup_insert_eq. }
    split; [pose proof (mo_bounds _ Hm) as [_ Hb]; lia|]. intros id d Hd Hid.
    pose proof (row_bounded sc p id d x' (messages_ok_log _ _ Hlog Hm)
      (effect_ledgers _ _ _ _ _ _ Heff Hl) Hd). lia.
Qed.

Lemma effect_checkpoint sc0 n n' x op x' sc p :
  effect sc0 n n' x op x' → (sc0, op) ≠ (sc, OpRebuild p) →
  messages_ok x → ledgers_ok x → checkpoint_ok sc p x →
  checkpoint_ok sc p x' ∧
  (∀ last, checkpoints x !! (sc, p) = Some last → ∃ last', checkpoints x' !! (sc, p) = Some last' ∧ (last ≤ last')%Z).
Proof.
  intros Heff Hnr Hm Hl Hok.
  assert ((∀ hash, (sc0, op) ≠ (sc, OpEnsure p hash)) → checkpoints x' !! (sc, p) = checkpoints x !! (sc, p) →
    checkpoint_ok sc p x' ∧ (∀ last, checkpoints x !! (sc, p) = Some last →
      ∃ last', checkpoints x' !! (sc, p) = Some last' ∧ (last ≤ last')%Z)) as Hsame.
  { intros Hne Hc. split; [|intros last Hlast; exists last; split; [congruence|lia]].
    eapply checkpoint_kept; [done..|]. intros id d Hd Hd'.
    destruct (effect_new _ _ _ _ _ _ _ _ _ _ Heff Hd Hd') as (p' & hash & o & -> & [= -> ->] & _).
    by destruct (Hne hash). }
  destruct Heff as [|qn0 worker limit ttl cs Hb|qn0 id0 worker token d0 i Hd0 Hh Hi
    |qn0 id0 worker token cause retryAt maxA d0 e Hd0 Hh He|p0 id0 d0 i Hd0 Hdead0|p0 hash|p0 ps].
  - split; [done|]. intros last Hlast. exists last. split; [done|lia].
  - apply Hsame; [congruence|]. rewrite (puts_keeps checkpoints); [done|]. intros. by destruct qn0.
  - destruct (decide ((sc0, qn0) = (sc, Ledger p))) as [[= -> ->]|Hne].
    { by eapply completion_checkpoint. }
    apply Hsame; [congruence|]. destruct qn0 as [|p0]; [done|]. cbn. rewrite lookup_alter_ne; [done|]. congruence.
  - apply Hsame; [congruence|]. by destruct qn0, (exhausted _ _).
  - by apply Hsame.
  - destruct (decide ((sc0, p0) = (sc, p))) as [[= -> ->]|Hne].
    { by apply registration_checkpoint. }
    apply Hsame; [congruence|]. cbn. destruct (checkpoints x !! (sc0, p0)); [done|].
    by rewrite lookup_insert_ne.
  - apply Hsame; [congruence|]. cbn. rewrite lookup_insert_ne; [done|]. congruence.
Qed.
End checkpoints.
