(* ===== verification/PgProperties.v ===== *)
(** * What the database promises

    Histories of the whole system: commands, stream operations, attempts and
    leases of any stores in any order, and the properties of everything they
    reach. *)

From S2P Require Import Prelude GoLib Fault Contracts Identity RunState.
From S2P Require Import ControlMemory Governance ControlRefinement AttemptRecords Postgres.
From S2P Require Import Leases LeaseSets LeaseSafety.
From S2P Require Import PgTables PgEvents PgLogic PgControl PgEffects PgSample PgRefinement PgStreams.
From S2P Require Import Queue Outbox ProjectionDeliveries RunProjection RunReplay StreamEffects PgSystem.
From S2P Require Import WorkerResults Attempts AttemptEffects DeliveryContracts Authorizations AuthorizationEffects.

(** Who does what next. *)
Inductive action :=
| ByCommand (st : PgStore) (op : operation)
| ByStream (st : PgStore) (op : stream_op)
| ByAttempt (st : PgStore) (op : attempt_op)
| ByLease (op : lease_op)
| ByAuthorization (st : PgStore) (request : DeliveryRequest) (md : CommandMetadata).

Section growth.
Context `{Clock, Json, !Jsonb}.

Record extends (x x' : Stream) : Prop := {
  ex_rows : ∀ sc qn id d, row sc qn id x = Some d → row sc qn id x' = Some d;
  ex_new : ∀ sc qn id d, row sc qn id x = None → row sc qn id x' = Some d →
             (outbox_last x < id)%Z;
  ex_checkpoints : checkpoints x' = checkpoints x;
  ex_consumers : consumers x' = consumers x;
  ex_last : (outbox_last x ≤ outbox_last x')%Z;
}.

Lemma extends_refl x : extends x x.
Proof. split; (done || congruence || lia). Qed.

Lemma extends_trans x y z : extends x y → extends y z → extends x z.
Proof.
  intros [R1 N1 C1 S1 L1] [R2 N2 C2 S2 L2]. split; [eauto| |congruence..|lia].
  intros sc qn id d Hx Hz. destruct (row sc qn id y) as [d'|] eqn:Hy; [by eapply N1|].
  specialize (N2 _ _ _ _ Hy Hz). lia.
Qed.

Lemma add_event_extends erow nid available x :
  messages_ok x → ledgers_ok x → (outbox_last x < nid)%Z → extends x (add_event erow nid available x).
Proof.
  intros Hm Hl Hlast.
  split; [| |done|done|cbn; lia]; intros sc qn id d Hd;
    destruct (add_event_row erow nid available x sc qn id Hm Hl Hlast) as [Hold Hnew]; [by apply Hold|].
  intros Hd'. destruct (Hnew Hd d Hd') as (_ & _ & -> & _). done.
Qed.

Lemma grown_extends st md es t t' :
  grown st md es t t' → messages_ok (stream t) → ledgers_ok (stream t) →
  extends (stream t) (stream t') ∧ ledgers_ok (stream t').
Proof.
  induction 1 as [|e es eventID id available t t' Hf Hid _ IH]; [split; [apply extends_refl|done]|].
  intros Hm Hl. destruct IH as [Hex Hl'].
  - by apply add_event_messages.
  - cbn. apply add_event_ledgers; [done|lia|done].
  - split; [|done]. eapply extends_trans; [|exact Hex]. apply add_event_extends; [done|done|lia].
Qed.

Lemma extends_checkpoint sc p x x' :
  extends x x' → checkpoint_ok sc p x → checkpoint_ok sc p x'.
Proof.
  intros [Hrows Hnew Hc Hcs Hl] Hok last. rewrite Hc, Hcs. intros Hlast.
  destruct (Hok last Hlast) as (Hr & Hb & Hpub). split_and!; [done|lia|lia|].
  intros id d Hd Hid. destruct (row sc (Ledger p) id x) as [d0|] eqn:Hd0.
  - rewrite (Hrows _ _ _ _ Hd0) in Hd. injection Hd as <-. by eapply Hpub.
  - specialize (Hnew _ _ _ _ Hd0 Hd). lia.
Qed.
End growth.

(** The version of the last event of a history. *)
Lemma last_version `{Json} (es : list EventRow) e z :
  ev_version <$> es ++ [e] = seqZ 1 (Z.of_nat (length (es ++ [e]))) →
  z = Z.of_nat (length (es ++ [e])) → ev_version e = z.
Proof.
  intros Hv ->. rewrite length_app in *. apply (f_equal last) in Hv.
  rewrite fmap_app in Hv. cbn [fmap list_fmap length] in *. rewrite last_snoc in Hv.
  rewrite last_lookup, length_seqZ, lookup_seqZ_lt in Hv by lia. injection Hv as ->. lia.
Qed.

(** ** Histories *)

Section system.
Context `{Clock, !ClockStarted, Database, Sha256, Json, !Jsonb, Entropy, Sequences, UuidText}.
Context `{!JsonCodec Run, !JsonCodec Sprint, !JsonCodec Decision, !JsonCodec AuditRecord,
          !JsonCodec PlanResult, !JsonCodec SubmissionResult, !JsonCodec DecisionResult}.
Context `{!RunCodecLaws, RowLocks, TextOrder, Visits, TimeText, Collation}.
Context `{!AttemptCodecs, !JsonCodec WorkerResult, !WorkerContracts, ReportJson, DeliveryJson, !AuthorizationContracts}.
Implicit Types (s : DB Forja) (t : Forja).

Definition sysstep (a : action) s s' : Prop :=
  match a with
  | ByCommand st op => ∃ r, perform st op s = (r, s')
  | ByStream st op => ∃ r, stream_run st op s = (r, s')
  | ByAttempt st op => ∃ r, attempt_run st op s = (r, s')
  | ByLease op => ∃ r, on_leases (run_op op) s = (r, s')
  | ByAuthorization st request md => ∃ r, AuthorizeDelivery st request md s = (r, s')
  end.

(** A step by an action in [P]. *)
Definition system (P : action → Prop) s s' : Prop := ∃ a, P a ∧ sysstep a s s'.

Definition anything (a : action) : Prop := True.

(** Repositories, and nothing in them. *)
Record fresh t : Prop := {
  fresh_unused : unused t;
  fresh_events : events (stream t) = [];
  fresh_outbox : outbox (stream t) = [];
  fresh_last : outbox_last (stream t) = 0%Z;
  fresh_consumers : consumers (stream t) = ∅;
  fresh_deliveries : deliveries (stream t) = ∅;
  fresh_checkpoints : checkpoints (stream t) = ∅;
  fresh_attempts : attempts (work t) = ∅;
}.

Record sys_ok t : Prop := {
  sys_stream : stream_ok t;
  sys_ledgers : ledgers_ok (stream t);
}.

Lemma fresh_rows t sc qn id : fresh t → row sc qn id (stream t) = None.
Proof.
  intros [_ _ Ho _ _ Hd _ _]. unfold row. destruct qn as [|p]; cbn [queue_of].
  - rewrite lookup_outbox. unfold message. by rewrite Ho.
  - by rewrite lookup_ledger, Hd.
Qed.

Lemma fresh_ok t : fresh t → sys_ok t.
Proof.
  intros Hf. pose proof (fresh_rows t) as Hrow. split.
  - destruct Hf as [(Hr & _ & _) He Ho Hl _ _ _ _]. split.
    + intros id row. by rewrite Hr, lookup_empty.
    + intros sc id. rewrite Hr, lookup_empty, He. done.
    + split; rewrite ?He, ?Ho, ?Hl; by constructor.
  - split; intros *; rewrite ?Hrow, ?(fresh_consumers t Hf), ?(fresh_outbox t Hf), ?lookup_empty by done;
      try done; by intros [? ?].
Qed.

Lemma stream_ok_log t t' :
  canonical t' = canonical t → same_log (stream t) (stream t') → stream_ok t → stream_ok t'.
Proof.
  intros Hc Hlog [Hrows Hruns Hm]. split.
  - by rewrite Hc.
  - destruct Hlog as (He & _). by rewrite Hc, He.
  - by eapply messages_ok_log.
Qed.

Lemma command_ok st op s r s' :
  perform st op s = (r, s') → sys_ok (tables s) →
  sys_ok (tables s') ∧ extends (stream (tables s)) (stream (tables s')).
Proof.
  intros Heff%perform_effect [Hok Hl]. pose proof (effect_stream_ok _ _ _ Hok Heff) as Hok'.
  assert (extends (stream (tables s)) (stream (tables s')) ∧ ledgers_ok (stream (tables s'))) as [Hex Hl'];
    [|done].
  destruct Heff as [->|md es _ Hg|md key row (es & es' & t1 & t2 & Hp & _ & Hg & _ & ->)].
  - split; [apply extends_refl|done].
  - eapply grown_extends; [done|apply Hok|done].
  - destruct (performed_run_write _ _ _ _ _ Hp) as (_ & _ & _ & _ & _ & _ & Hst & _).
    rewrite <-Hst in *. apply (grown_extends _ _ _ _ _ Hg); [|done]. rewrite Hst. apply Hok.
Qed.

Lemma streaming_ok st op s r s' :
  stream_run st op s = (r, s') → sys_ok (tables s) →
  sys_ok (tables s') ∧
  effect (store_scope st) (readings s) (readings s') (stream (tables s)) op (stream (tables s')) ∧
  canonical (tables s') = canonical (tables s).
Proof.
  intros (_ & x & Ht & Heff)%stream_affects [Hok Hl]. rewrite Ht. cbn. split_and!; [|done|done].
  split; [|by eapply effect_ledgers]. eapply stream_ok_log; [| |exact Hok]; [done|].
  by eapply effect_log.
Qed.

(** Events about something else than runs, and whatever receipt. *)
Lemma grown_ok st md es t t' :
  Forall (λ e, em_aggregate_type e ≠ "run") es → grown st md es t t' → sys_ok t →
  sys_ok t' ∧ extends (stream t) (stream t') ∧ ∀ f, sys_ok (set_receipts f t').
Proof.
  intros Hes Hg [[Hrows Hruns Hm] Hl].
  assert (filter (λ e, em_aggregate_type e = "run") es = []) as Hno.
  { clear - Hes. induction Hes as [|e es He _ IH]; [done|]. by rewrite filter_cons_False. }
  destruct (grown_run_events _ _ _ _ _ [] Hg Hno) as (ids & _ & Hev). rewrite app_nil_r in Hev.
  destruct (grown_canonical _ _ _ _ _ Hg) as [Hc _].
  destruct (grown_extends _ _ _ _ _ Hg Hm Hl) as [Hex Hl'].
  assert (∀ f, sys_ok (set_receipts f t')) as Hall.
  { intros f. split; [|done]. split; cbn.
    - by rewrite Hc.
    - intros sc id. unfold run_events. rewrite Hc, Hev. apply Hruns.
    - by eapply grown_messages. }
  split_and!; [|done|done]. specialize (Hall id). by destruct t' as [[] ? ?].
Qed.

(** The events of attempts are no events of runs. *)
Lemma wrote_ok st proof md ws t t' key row :
  wrote st proof md t ws t' → sys_ok t →
  sys_ok (set_receipts <[key := row]> t') ∧ extends (stream t) (stream t').
Proof.
  intros [es Hnd Hes _ Hg] [[Hrows Hruns Hm] Hl].
  destruct (grown_ok st md es (put_attempts ws t) t') as (_ & Hex & Hall); [|done|by split; [split|]|done].
  clear - Hes. induction Hes as [|w e ws es (_ & _ & He & _) _ IH]; constructor; [|done]. by rewrite He.
Qed.

(** And neither are approvals. *)
Lemma noting_ok st md t t' :
  noted st md t t' → sys_ok t → sys_ok t' ∧ extends (stream t) (stream t').
Proof.
  intros (es & t1 & Hes & Hg & Ht') Hok. destruct (grown_ok st md es t t1) as (Hok' & Hex & Hall); [|done..|].
  - eapply Forall_impl; [exact Hes|]. intros e He Hrun. cbn beta in He. rewrite Hrun in He. set_solver.
  - destruct Ht' as [->|(key & row & ->)]; (split; [|done]); [done|apply Hall].
Qed.

Lemma attempting_ok st op s r s' :
  attempt_run st op s = (r, s') → sys_ok (tables s) →
  sys_ok (tables s') ∧ extends (stream (tables s)) (stream (tables s')).
Proof.
  intros [Herr Hok]%attempt_outcome Hsys.
  assert (tables s' = tables s → sys_ok (tables s') ∧ extends (stream (tables s)) (stream (tables s')))
    as Hsame by (intros ->; split; [done|apply extends_refl]).
  destruct r as [[]|e]; [|by apply Hsame, Herr]. specialize (Hok eq_refl).
  destruct (attempt_proof op) as [proof|]; [|by apply Hsame].
  destruct Hok as (_ & _ & _ & [Ht|(md & ws & t1 & key & row & Hw & ->)]); [by apply Hsame|].
  exact (wrote_ok _ _ _ _ _ _ _ _ Hw Hsys).
Qed.

Lemma leasing_ok op s r s' :
  on_leases (run_op op) s = (r, s') → sys_ok (tables s) →
  sys_ok (tables s') ∧ extends (stream (tables s)) (stream (tables s')).
Proof.
  intros [[Hc Hst _ _ _] _]%on_leases_moved [Hok Hl]. rewrite Hst. split; [|apply extends_refl].
  split; [|by rewrite Hst]. eapply stream_ok_log; [done| |exact Hok]. by rewrite Hst.
Qed.

(** Every action but a stream operation only adds to the stream. *)
Lemma step_extends a s s' :
  sysstep a s s' → sys_ok (tables s) → match a with ByStream _ _ => False | _ => True end →
  sys_ok (tables s') ∧ extends (stream (tables s)) (stream (tables s')).
Proof.
  destruct a as [st op|st op|st op|op|st request md]; intros [r Hrun] Hok Ha; [|done|..].
  - by eapply command_ok.
  - by eapply attempting_ok.
  - by eapply leasing_ok.
  - by eapply noting_ok, Hok; eapply authorization_noted.
Qed.

Lemma step_ok a s s' : sysstep a s s' → sys_ok (tables s) → sys_ok (tables s').
Proof.
  intros Hstep Hok. destruct a as [st op|st op|st op|op|st request md]; [by eapply step_extends| |by eapply step_extends..].
  destruct Hstep as [r Hrun]. by eapply streaming_ok.
Qed.

Lemma history_sys_ok P s s' : rtc (system P) s s' → sys_ok (tables s) → sys_ok (tables s').
Proof.
  intros Hs Hok. revert Hs. apply (rtc_invariant _ (λ s, sys_ok (tables s))); [|done].
  intros s1 s2 Hok1 (a & _ & Hstep). by eapply step_ok.
Qed.

(** As whom an action acts on the rows of the queues. *)
Definition acting (a : action) : party :=
  match a with ByStream _ op => party_of op | _ => Nobody end.
Definition acts_on (a : action) (sc : Scope) (qn : queue_name) (id : Z) : Prop :=
  match a with
  | ByStream st op => op_targets (store_scope st) op sc qn id
  | _ => False
  end.

Lemma step_row a s s' sc qn id d :
  sysstep a s s' → sys_ok (tables s) → row sc qn id (stream (tables s)) = Some d →
  ∃ d', row sc qn id (stream (tables s')) = Some d' ∧
    (d' = d ∨ acts_on a sc qn id ∧ row_step (acting a) (readings s) (readings s') d d').
Proof.
  intros Hstep Hok Hd.
  assert (extends (stream (tables s)) (stream (tables s')) →
    ∃ d', row sc qn id (stream (tables s')) = Some d' ∧
      (d' = d ∨ acts_on a sc qn id ∧ row_step (acting a) (readings s) (readings s') d d')) as Hkeep
    by (intros Hex; exists d; split; [by apply Hex|by left]).
  destruct a as [st op|st op|st op|op|st request md]; [by apply Hkeep; eapply step_extends| |by apply Hkeep; eapply step_extends..].
  destruct Hstep as [r Hrun]. destruct (streaming_ok _ _ _ _ _ Hrun Hok) as (_ & Heff & _). by eapply effect_row.
Qed.

(** ** The log and the read model *)

(** C37. In every state a fresh database reaches, the events of a run are its whole
    history: they start with its creation, carry the versions 1, 2, 3, ... without
    gap, every step is an allowed transition, and the last payload is the stored
    run; a run that is not stored has no events. Every event has exactly one
    outbox message, in the same order, under identities that only grow. *)
Theorem event_log_faithful s0 s sc id :
  fresh (tables s0) → rtc (system anything) s0 s →
  let t := tables s in
  match in_scope run_scope sc (runs (canonical t) !! id) with
  | Some r => run_history id (run_events sc id (events (stream t))) (scanRun id r) ∧
              ev_version <$> run_events sc id (events (stream t)) = seqZ 1 (run_version r)
  | None => run_events sc id (events (stream t)) = []
  end ∧
  (λ o, (ob_scope o, ob_event o)) <$> outbox (stream t) =
    (λ e, (ev_scope e, ev_id e)) <$> events (stream t) ∧
  NoDup (ev_id <$> events (stream t)) ∧ StronglySorted Z.lt (ob_id <$> outbox (stream t)).
Proof.
  intros Hf Hs t. assert (sys_ok t) as [[_ Hruns [Hp Hn _ Hso _]] _]
    by (by eapply history_sys_ok, fresh_ok).
  split_and!; [|done..]. specialize (Hruns sc id). destruct (in_scope _ _ _) as [r|]; [|done].
  destruct (run_history_versions _ _ _ Hruns) as (Hv & Hlen & _). cbn in Hlen. by rewrite Hlen.
Qed.

(** C31. Rebuilding a read model: in every reachable state, on a server that does not
    fail, the rebuild succeeds, and the projector's rows are then exactly the
    canonical runs of the repository, each with the event that produced it; the
    canonical tables, the log and the other projectors' rows are untouched. *)
Theorem rebuild_projects_canonical `{!Reliable, !TextOrderLaws, !VisitsAll} s0 s st name :
  fresh (tables s0) → rtc (system anything) s0 s →
  forallb pg_text (own st [name]) = true → name ≠ "" →
  store_scope st ∈ repositories (canonical (tables s)) →
  ∃ s', RebuildRunProjection st name s = (Ok tt, s') ∧
    let t := tables s in let t' := tables s' in let key := (store_scope st, name) in
    (∀ id, match in_scope run_scope (store_scope st) (runs (canonical t) !! id) with
           | Some r => ∃ e, e ∈ run_events (store_scope st) id (events (stream t)) ∧
               ev_version e = run_version r ∧
               run_projections (stream t') !! (key, id) =
                 Some (mkProjectionRow (run_objective r) (run_state r) (run_version r) (ev_id e)
                         (timestamptz (run_updated r)))
           | None => run_projections (stream t') !! (key, id) = None
           end) ∧
    (∀ k id, k ≠ key → run_projections (stream t') !! (k, id) = run_projections (stream t) !! (k, id)) ∧
    checkpoints (stream t') !! key = Some (watermark (store_scope st) (stream t)) ∧
    canonical t' = canonical t ∧ same_log (stream t) (stream t').
Proof.
  intros Hf Hs Htext Hname Hsc. assert (sys_ok (tables s)) as [Hok _] by (by eapply history_sys_ok, fresh_ok).
  destruct (twp_run _ _ s (twp_RebuildRunProjection st name (tables s) Hok Htext Hsc Hname))
    as ([] & s' & Hrun & [Hc _ [ps Hx] Hrows]).
  exists s'. split; [done|]. cbn zeta. split_and!; [| | |done|by rewrite Hx].
  - intros id. rewrite Hrows, decide_True by done. destruct (in_scope _ _ _) as [r|] eqn:Hr.
    + apply in_scope_Some in Hr as [Hr Hrs].
      destruct (replayed_row _ _ _ _ Hok Hr Hrs) as (e & He & ->). exists e.
      pose proof (so_runs _ Hok (store_scope st) id) as Hh.
      rewrite (proj2 (in_scope_Some _ _ _ r)) in Hh by done.
      destruct (run_history_versions _ _ _ Hh) as (Hv & Hlen & _).
      apply last_Some in He as (es & He). rewrite He in *. split_and!; [|by eapply last_version|done].
      apply elem_of_app. right. by left.
    + unfold replayed_run. by rewrite Hr.
  - intros k id Hne. by rewrite Hrows, decide_False.
  - rewrite Hx. cbn. by rewrite lookup_insert_eq.
Qed.

(** ** The queues *)

(** C32. Every queue row, of the outbox and of every projector, lives by the delivery
    protocol: an action of the system leaves it as it is, or acts on exactly this
    row, in its own tenant and repository, by one step of the protocol; no row
    ever disappears. *)
Theorem queue_rows_follow_protocol s0 s a s' sc qn id d :
  fresh (tables s0) → rtc (system anything) s0 s → sysstep a s s' →
  row sc qn id (stream (tables s)) = Some d →
  ∃ d', row sc qn id (stream (tables s')) = Some d' ∧
    (d' = d ∨ acts_on a sc qn id ∧ row_step (acting a) (readings s) (readings s') d d').
Proof. intros Hf Hs Hstep. apply step_row; [done|]. by eapply history_sys_ok, fresh_ok. Qed.

(** In every reachable state each queue row is sound: it is locked exactly while
    it is inflight, published exactly when it has a publication time, has been
    claimed at least as often as it was tried, and keeps an error text of at most
    4000 characters; a message that was given up has a dead letter with the
    payload of its event; and each registered projector has a row for every
    message of its repository. *)
Theorem queue_rows_sound s0 s sc qn id d :
  fresh (tables s0) → rtc (system anything) s0 s →
  row sc qn id (stream (tables s)) = Some d →
  row_ok d ∧ is_Some (message sc id (stream (tables s))) ∧
  (dl_state d = "dead" → ∃ l e, l ∈ dead_letters (stream (tables s)) ∧ dd_scope l = sc ∧
     dd_outbox l = id ∧ message_event sc id (stream (tables s)) = Some e ∧
     dd_event l = ev_id e ∧ dd_payload l = ev_payload e) ∧
  (∀ p, is_Some (consumers (stream (tables s)) !! (sc, p)) →
     is_Some (row sc (Ledger p) id (stream (tables s)))).
Proof.
  intros Hf Hs Hd. assert (sys_ok (tables s)) as [_ [Hfk _ Hfull Hrows Hlet]]
    by (by eapply history_sys_ok, fresh_ok).
  assert (is_Some (message sc id (stream (tables s)))) as [o Ho].
  { unfold row in Hd. destruct qn as [|p]; [|by apply (Hfk sc p id); exists d].
    cbn [queue_of] in Hd. rewrite lookup_outbox in Hd. destruct (message _ _ _); [by eexists|done]. }
  split_and!; [by eapply Hrows|by exists o|by eapply Hlet|].
  apply message_Some in Ho as (Ho & Hs' & <-). intros p Hp. by apply Hfull.
Qed.

(** A published message is never touched again, and a message of the outbox that
    was given up stays given up: whatever the system does, the row stays. *)
Theorem settled_for_good s0 s s' sc qn id d :
  fresh (tables s0) → rtc (system anything) s0 s → rtc (system anything) s s' →
  row sc qn id (stream (tables s)) = Some d →
  dl_state d = "published" ∨ dl_state d = "dead" ∧ qn = OutboxQueue →
  row sc qn id (stream (tables s')) = Some d.
Proof.
  intros Hf Hs Hs' Hd Hfinal. assert (sys_ok (tables s)) as Hok by (by eapply history_sys_ok, fresh_ok).
  clear Hs Hf. revert Hok Hd. induction Hs' as [|s s1 s' (a & _ & Hstep) _ IH]; [done|]. intros Hok Hd.
  apply IH; [by eapply step_ok|]. destruct (step_row _ _ _ _ _ _ _ Hstep Hok Hd) as (d' & Hd' & [->|[Hon Hrs]]);
    [done|]. exfalso. destruct Hfinal as [Hp|[Hdead ->]]; [by eapply published_stays|].
  destruct Hrs as [? ? ? _ [_ [Hp|[Hp _]]]|? ? ? _ [Hp]|? ? ? ? ? _ [Hp]|? Ha _]; [congruence..|].
  destruct a as [|st []| | |]; try done.
Qed.

(** Exclusion: while a claim is live, nobody else changes its row. For a claim by
    [worker] under [token] until [until], a sequence of steps that all happen
    before [until] by the server clock, and none of which presents this worker and
    token, leaves the row exactly as it was. *)
Theorem live_claim_exclusive s0 s s' sc qn id d worker token until :
  fresh (tables s0) → rtc (system anything) s0 s →
  row sc qn id (stream (tables s)) = Some d →
  dl_state d = "inflight" → dl_locked_by d = Some worker → dl_token d = token →
  dl_locked_until d = Some until →
  rtc (λ s1 s2, system (λ a, acting a ≠ Holder worker token) s1 s2 ∧
         ∀ i, readings s1 ≤ i < readings s2 → (instant (clock_reading i) < instant until)%Z) s s' →
  row sc qn id (stream (tables s')) = Some d.
Proof.
  intros Hf Hs Hd Hst Hby Htok Hun Hs'. assert (sys_ok (tables s)) as Hok by (by eapply history_sys_ok, fresh_ok).
  clear Hs Hf. revert Hok Hd. induction Hs' as [|s s1 s' [(a & Hne & Hstep) Hlive] _ IH]; [done|].
  intros Hok Hd. apply IH; [by eapply step_ok|].
  destruct (step_row _ _ _ _ _ _ _ Hstep Hok Hd) as (d' & Hd' & [->|[_ Hrs]]); [done|]. exfalso.
  destruct Hrs as [? ? ? _ [_ [Hp|[_ (u & Hu & i & Hi & Hle)]]]|w k ? Ha [_ Hb Hk]|w k ? ? ? Ha [_ Hb Hk]|? _ Hdead].
  - congruence.
  - specialize (Hlive i Hi). rewrite Hun in Hu. injection Hu as <-. lia.
  - apply Hne. rewrite Ha. congruence.
  - apply Hne. rewrite Ha. congruence.
  - congruence.
Qed.

(** The fencing token of a row never goes back. *)
Lemma tokens_grow P s s' sc qn id d :
  rtc (system P) s s' → sys_ok (tables s) → row sc qn id (stream (tables s)) = Some d →
  ∃ d', row sc qn id (stream (tables s')) = Some d' ∧ (dl_token d ≤ dl_token d')%Z.
Proof.
  intros Hs. revert d. induction Hs as [s|s s1 s' (a & _ & Hstep) _ IH]; intros d Hok Hd; [exists d; auto with lia|].
  destruct (step_row _ _ _ _ _ _ _ Hstep Hok Hd) as (d1 & Hd1 & Hcase).
  destruct (IH d1) as (d' & Hd' & Hle); [by eapply step_ok|done|]. exists d'. split; [done|].
  destruct Hcase as [->|[_ Hrs]]; [done|]. apply row_step_token in Hrs. lia.
Qed.

(** The operations that settle a claim. *)
Inductive settles (qn : queue_name) (id : Z) (worker : string) (token : Z) : stream_op → Prop :=
| settles_complete : settles qn id worker token (OpComplete qn id worker token)
| settles_fail cause retryAt maxAttempts :
    settles qn id worker token (OpFail qn id worker token cause retryAt maxAttempts).

(** Fencing: once a row was claimed again, every older claim is dead for ever.
    If the row's token has passed [token], then in every later state completing or
    failing the row with [token] is refused and changes nothing, whoever asks. *)
Theorem stale_claims_rejected s0 s s1 st qn id d worker token op r s2 :
  fresh (tables s0) → rtc (system anything) s0 s → rtc (system anything) s s1 →
  row (store_scope st) qn id (stream (tables s)) = Some d → (token < dl_token d)%Z →
  settles qn id worker token op → stream_run st op s1 = (r, s2) →
  is_ok r = false ∧ tables s2 = tables s1.
Proof.
  intros Hf Hs Hs1 Hd Htok Hop Hrun. assert (sys_ok (tables s)) as Hok by (by eapply history_sys_ok, fresh_ok).
  destruct (tokens_grow _ _ _ _ _ _ _ Hs1 Hok Hd) as (d' & Hd' & Hle).
  assert (∀ n n' d0, row (store_scope st) qn id (stream (tables s1)) = Some d0 → held n n' worker token d0 → False) as Hno.
  { intros n n' d0 Hd0 [_ _ Hk _]. rewrite Hd' in Hd0. injection Hd0 as <-. lia. }
  split.
  - destruct r as [[]|]; [|done]. exfalso.
    assert (found_held (store_scope st) qn id worker token s1 s2) as (d0 & Hd0 & Hh)
      by (destruct Hop; [exact (swp_run _ _ _ _ _ (swp_complete _ _ _ _ _ _) Hrun)
                        |destruct (swp_run _ _ _ _ _ (swp_fail _ _ _ _ _ _ _ _ _) Hrun)
                           as (_ & c & d0 & e & _ & ? & ? & _); by exists d0]).
    by eapply Hno.
  - apply stream_affects in Hrun as (_ & x & -> & Heff).
    destruct Hop; inversion Heff; subst; try (by destruct (tables s1)); exfalso; by eapply Hno.
Qed.

(** A failure that is accepted does exactly one of two things. While the message
    has attempts left it becomes pending again, due at the given time, with the
    error text. Once its attempts reach [maxAttempts] it is dead, and a dead
    letter with the event, its payload and the error is added. The row keeps its
    token and count, and no other row and no other letter changes. *)
Theorem failure_reschedules_or_buries st qn id worker token cause retryAt maxAttempts s s' :
  stream_run st (OpFail qn id worker token cause retryAt maxAttempts) s = (Ok tt, s') →
  ∃ c d e, cause = Some c ∧
    row (store_scope st) qn id (stream (tables s)) = Some d ∧
    message_event (store_scope st) id (stream (tables s)) = Some e ∧
    row (store_scope st) qn id (stream (tables s')) = Some (mkDelivery
      (if (maxAttempts <=? dl_attempts d)%Z then "dead" else "pending") (timestamptz retryAt)
      None None (dl_token d) (dl_attempts d) (Some (truncateError c)) (dl_published d)) ∧
    dead_letters (stream (tables s')) = dead_letters (stream (tables s)) ++
      (if (maxAttempts <=? dl_attempts d)%Z then [letter (store_scope st) qn worker id e c] else []) ∧
    ∀ sc' qn' id', (sc', qn', id') ≠ (store_scope st, qn, id) →
      row sc' qn' id' (stream (tables s')) = row sc' qn' id' (stream (tables s)).
Proof.
  intros Hrun. destruct (swp_run _ _ _ _ _ (swp_fail _ _ _ _ _ _ _ _ _) Hrun)
    as (_ & c & d & e & Hc & Hd & _ & He & _ & ->). exists c, d, e. fold (exhausted maxAttempts d).
  change (row (store_scope st) qn id (stream (tables s)) = Some d) in Hd.
  assert (∀ sc' qn' id', row sc' qn' id' (if exhausted maxAttempts d then add_letter (letter (store_scope st) qn worker id e c) (stream (tables s)) else stream (tables s)) =
    row sc' qn' id' (stream (tables s))) as Hsame by (intros; destruct (exhausted _ _); by rewrite ?row_letter).
  cbn [with_stream stream]. split_and!; [done..| | |].
  - rewrite row_put by (rewrite Hsame; by eexists). by rewrite decide_True.
  - destruct qn, (exhausted maxAttempts d); cbn; by rewrite ?app_nil_r.
  - intros sc' qn' id' Hne. rewrite row_put by (rewrite Hsame; by eexists).
    rewrite decide_False; [apply Hsame|]. intros [[= -> ->] ->]. done.
Qed.

(** An error text the database cannot store, one with a NUL byte or an invalid
    encoding that is not cut off, makes every failure report fail and leaves the
    claim as it is: such a message is neither rescheduled nor buried, however
    often it is tried. *)
Theorem unstorable_error_never_settles st qn id worker token c retryAt maxAttempts s r s' :
  pg_text (truncateError c) = false →
  stream_run st (OpFail qn id worker token (Some c) retryAt maxAttempts) s = (r, s') →
  is_ok r = false ∧ tables s' = tables s.
Proof.
  intros Htext Hrun. assert (∀ a, r = Ok a → False) as Hno.
  { intros a ->. destruct (swp_run _ _ _ _ _ (swp_fail _ _ _ _ _ _ _ _ _) Hrun)
      as (_ & c' & d & e & [= <-] & _ & _ & _ & Ht & _). congruence. }
  destruct r as [a|e]; [by destruct (Hno a)|]. split; [done|]. by eapply safe_fail.
Qed.

(** ** Checkpoints *)

(** The action rebuilds the read model under this name. *)
Definition rebuilds (sc : Scope) (p : string) (a : action) : Prop :=
  match a with
  | ByStream st op => (store_scope st, op) = (sc, OpRebuild p)
  | _ => False
  end.

Lemma step_checkpoint a s s' sc p :
  sysstep a s s' → ¬ rebuilds sc p a → sys_ok (tables s) → checkpoint_ok sc p (stream (tables s)) →
  checkpoint_ok sc p (stream (tables s')) ∧
  ∀ last, checkpoints (stream (tables s)) !! (sc, p) = Some last →
    ∃ last', checkpoints (stream (tables s')) !! (sc, p) = Some last' ∧ (last ≤ last')%Z.
Proof.
  intros Hstep Hnr Hok Hc.
  assert (extends (stream (tables s)) (stream (tables s')) →
    checkpoint_ok sc p (stream (tables s')) ∧
    ∀ last, checkpoints (stream (tables s)) !! (sc, p) = Some last →
      ∃ last', checkpoints (stream (tables s')) !! (sc, p) = Some last' ∧ (last ≤ last')%Z) as Hkeep.
  { intros Hex. split; [by eapply extends_checkpoint|]. intros last Hlast. exists last.
    rewrite (ex_checkpoints _ _ Hex). split; [done|lia]. }
  destruct a as [st op|st op|st op|op|st request md]; [by apply Hkeep; eapply step_extends| |by apply Hkeep; eapply step_extends..].
  destruct Hstep as [r Hrun]. destruct (streaming_ok _ _ _ _ _ Hrun Hok) as (_ & Heff & _).
  destruct Hok as [[_ _ Hm] Hl]. by eapply effect_checkpoint.
Qed.

Lemma history_checkpoint s s' sc p :
  rtc (system (λ a, ¬ rebuilds sc p a)) s s' → sys_ok (tables s) → checkpoint_ok sc p (stream (tables s)) →
  checkpoint_ok sc p (stream (tables s')) ∧
  ∀ last, checkpoints (stream (tables s)) !! (sc, p) = Some last →
    ∃ last', checkpoints (stream (tables s')) !! (sc, p) = Some last' ∧ (last ≤ last')%Z.
Proof.
  induction 1 as [s|s s1 s' (a & Hnr & Hstep) _ IH]; intros Hok Hc.
  { split; [done|]. intros last Hlast. exists last. auto with lia. }
  destruct (step_checkpoint _ _ _ _ _ Hstep Hnr Hok Hc) as [Hc1 Hg1].
  destruct (IH (step_ok _ _ _ Hstep Hok) Hc1) as [Hc' Hg']. split; [done|]. intros last Hlast.
  destruct (Hg1 last Hlast) as (l1 & Hl1 & ?). destruct (Hg' l1 Hl1) as (l' & ? & ?). exists l'.
  split; [done|lia].
Qed.

(** A projector's checkpoint never passes a message it has not published: in
    every state a fresh database reaches, as long as the run read model is not
    rebuilt under the projector's name, each message of the repository up to the
    checkpoint is published in the projector's ledger; and from there on the
    checkpoint only moves forward. *)
Theorem checkpoint_passes_published_only s0 s s' sc p last :
  fresh (tables s0) → rtc (system (λ a, ¬ rebuilds sc p a)) s0 s →
  rtc (system (λ a, ¬ rebuilds sc p a)) s s' →
  checkpoints (stream (tables s)) !! (sc, p) = Some last →
  (∀ o, o ∈ outbox (stream (tables s)) → ob_scope o = sc → (ob_id o ≤ last)%Z →
     ∃ d, row sc (Ledger p) (ob_id o) (stream (tables s)) = Some d ∧ dl_state d = "published") ∧
  ∃ last', checkpoints (stream (tables s')) !! (sc, p) = Some last' ∧ (last ≤ last')%Z.
Proof.
  intros Hf Hs Hs' Hlast. assert (sys_ok (tables s)) as Hok by (by eapply history_sys_ok, fresh_ok).
  assert (checkpoint_ok sc p (stream (tables s))) as Hc.
  { eapply history_checkpoint; [done|by apply fresh_ok|]. intros l. by rewrite (fresh_checkpoints _ Hf), lookup_empty. }
  split; [|by apply (history_checkpoint s s')]. intros o Ho Hsc Hle.
  destruct (Hc last Hlast) as (Hcs & _ & Hpub).
  destruct (lo_full _ (sys_ledgers _ Hok) sc p o Hcs Ho Hsc) as [d Hd]. exists d. split; [done|].
  by eapply Hpub.
Qed.
End system.
