(* ===== verification/AttemptProperties.v ===== *)
(** * Attempts in the whole system

    Attempts are written under the fences that the lease operations hand out
    and take over. This file proves what the two components achieve together, in
    every history of commands, stream operations, attempts and leases. *)

From S2P Require Import Prelude GoLib Fault Contracts Identity RunState.
From S2P Require Import ControlMemory Governance ControlRefinement AttemptRecords Postgres.
From S2P Require Import Leases LeaseSets LeaseSafety.
From S2P Require Import PgTables PgEvents PgLogic PgControl PgEffects PgSample PgRefinement PgStreams.
From S2P Require Import Queue Outbox ProjectionDeliveries RunProjection RunReplay StreamEffects PgSystem.
From S2P Require Import WorkerResults Attempts AttemptEffects DeliveryContracts Authorizations AuthorizationEffects PgProperties.

(** ** What an attempt looks like *)

(** Status, version and times belong together. *)
Inductive attempt_phase (row : AttemptRow) : Prop :=
| ph_queued :
    at_status row = "queued" → at_version row = 1%Z → at_started row = None →
    at_finished row = None → attempt_phase row
| ph_running started :
    at_status row = "running" → at_version row = 2%Z → at_started row = Some started →
    at_finished row = None → attempt_phase row
| ph_finished started finished :
    at_status row ∈ terminalAttemptStatuses → at_version row = 3%Z →
    at_started row = Some started → at_finished row = Some finished → attempt_phase row
| ph_abandoned finished :
    at_status row = "failed_retryable" → at_version row = 2%Z → at_started row = None →
    at_finished row = Some finished → attempt_phase row.

Section rows.
Context `{Clock, Json}.

(** Its run exists in its tenant, and the lease it was created under has not gone
    back: the same token means the same owner. *)
Record attempt_sound (t : Forja) (id : string) (row : AttemptRow) : Prop := {
  as_check : attempt_check id row = false;
  as_phase : attempt_phase row;
  as_run : ∃ r, runs (canonical t) !! at_run row = Some r ∧ (run_scope r).1 = at_tenant row ∧
    ∃ lr, lease_rows t !! attempt_lease (run_scope r).2 row = Some lr ∧
      (at_token row ≤ row_token lr)%Z ∧ (row_token lr = at_token row → row_owner lr = at_worker row);
}.

Definition attempt_log (id : string) (l : list EventRow) : list EventRow :=
  filter (λ e, ev_aggregate_type e = "attempt" ∧ ev_aggregate e = id) l.

Record work_ok (t : Forja) : Prop := {
  wo_sound : ∀ id row, attempts (work t) !! id = Some row → attempt_sound t id row;
  wo_log : ∀ id, ev_version <$> attempt_log id (events (stream t)) =
    match attempts (work t) !! id with Some row => seqZ 1 (at_version row) | None => [] end;
  wo_dense : ∀ id row j, attempts (work t) !! id = Some row → (1 ≤ j ≤ at_ordinal row)%Z →
    ∃ id' row', attempts (work t) !! id' = Some row' ∧ at_run row' = at_run row ∧ at_ordinal row' = j;
  wo_unique : ∀ id row id' row', attempts (work t) !! id = Some row →
    attempts (work t) !! id' = Some row' → at_run row' = at_run row →
    at_ordinal row' = at_ordinal row → id' = id;
}.

(** ** Steps that write no attempt *)

(** Runs stay in their scope and leases live on. *)
Record carried (t t' : Forja) : Prop := {
  cr_runs : ∀ id r, runs (canonical t) !! id = Some r →
    ∃ r', runs (canonical t') !! id = Some r' ∧ run_scope r' = run_scope r;
  cr_leases : ∀ k lr, lease_rows t !! k = Some lr → ∃ lr', lease_rows t' !! k = Some lr' ∧ later lr lr';
}.

Lemma sound_carried t t' id row : carried t t' → attempt_sound t id row → attempt_sound t' id row.
Proof.
  intros [Hruns Hleases] [Hchk Hph (r & Hr & Hsc & lr & Hlr & Hle & Hsame)].
  split; [done..|]. destruct (Hruns _ _ Hr) as (r' & Hr' & Hs'). exists r'. rewrite Hs'.
  split_and!; [done..|]. destruct (Hleases _ _ Hlr) as (lr' & Hlr' & Hle' & Hgrant).
  exists lr'. split_and!; [done|lia|]. intros Heq. destruct Hgrant as [-> _]; [lia|]. apply Hsame. lia.
Qed.

Lemma work_ok_carried t t' :
  carried t t' → attempts (work t') = attempts (work t) →
  (∀ id, attempt_log id (events (stream t')) = attempt_log id (events (stream t))) →
  work_ok t → work_ok t'.
Proof.
  intros Hc Ha Hlog [Hs Hl Hd Hu]. split; rewrite ?Ha; [|..|done|done].
  - intros id row Hrow. by eapply sound_carried, Hs.
  - intros id. by rewrite Hlog.
Qed.

Lemma carried_refl t t' :
  runs (canonical t') = runs (canonical t) → lease_rows t' = lease_rows t → carried t t'.
Proof. intros Hr Hl. split; [rewrite Hr|rewrite Hl]; intros k x Hx; by exists x. Qed.
End rows.

Section steps.
Context `{Clock, !ClockStarted, Database, Sha256, Json, !Jsonb, Entropy, Sequences, UuidText}.
Context `{!JsonCodec Run, !JsonCodec Sprint, !JsonCodec Decision, !JsonCodec AuditRecord,
          !JsonCodec PlanResult, !JsonCodec SubmissionResult, !JsonCodec DecisionResult}.
Context `{!RunCodecLaws, RowLocks, TextOrder, Visits, TimeText, Collation}.
Context `{!AttemptCodecs, !JsonCodec WorkerResult, !WorkerContracts, ReportJson, DeliveryJson, !AuthorizationContracts}.
Implicit Types (s : DB Forja) (t : Forja).

Lemma grown_attempt_log st md es t t' id :
  grown st md es t t' → ∃ ids, length ids = length es ∧
    attempt_log id (events (stream t')) = attempt_log id (events (stream t)) ++
      attempt_log id (zip_with (event_row st md) es ids).
Proof.
  intros (ids & Hlen & Hev)%grown_events. exists ids. split; [done|].
  unfold attempt_log. by rewrite Hev, filter_app.
Qed.

Lemma silent_log st md es ids id :
  Forall (λ e, em_aggregate_type e ≠ "attempt") es →
  attempt_log id (zip_with (event_row st md) es ids) = [].
Proof.
  intros Hes. revert ids. unfold attempt_log. induction Hes as [|e es He _ IH]; intros [|i ids]; try done.
  cbn [zip_with]. rewrite filter_cons_False; [apply IH|]. cbn. tauto.
Qed.

Lemma grown_silent st md es t t' id :
  grown st md es t t' → Forall (λ e, em_aggregate_type e ≠ "attempt") es →
  attempt_log id (events (stream t')) = attempt_log id (events (stream t)).
Proof.
  intros (ids & _ & ->)%(grown_attempt_log _ _ _ _ _ id) Hes. by rewrite silent_log, app_nil_r.
Qed.

Lemma performed_silent st md t es t1 :
  performed st md t es t1 → Forall (λ e, em_aggregate_type e ≠ "attempt") es.
Proof. destruct 1; try destruct approve; repeat constructor; try done; cbn; repeat case_match; by repeat constructor. Qed.

Lemma audits_silent es : audits es → Forall (λ e, em_aggregate_type e ≠ "attempt") es.
Proof. intros Ha. eapply Forall_impl; [exact Ha|]. cbn. by intros e ->. Qed.

(** A command carries everything and writes no attempt. *)
Lemma command_carried st t t' :
  pg_effect st t t' → carried t t' ∧ attempts (work t') = attempts (work t) ∧
  ∀ id, attempt_log id (events (stream t')) = attempt_log id (events (stream t)).
Proof.
  intros [->|md es Haud Hg|md key row (es & es' & t1 & t2 & Hp & Haud & Hg & _ & ->)].
  - split_and!; [by apply carried_refl|done..].
  - destruct (grown_canonical _ _ _ _ _ Hg) as [Hc Hw].
    split_and!; [apply carried_refl; [by rewrite Hc|unfold lease_rows; by rewrite Hw]|by rewrite Hw|].
    intros id. by eapply grown_silent, audits_silent.
  - destruct (performed_run_write _ _ _ _ _ Hp) as (e & id & row' & Hrw & _ & Hrs & Hst & Hw1 & _).
    destruct (grown_canonical _ _ _ _ _ Hg) as [Hc Hw]. cbn.
    assert (work t2 = work t) as Hww by congruence. split_and!.
    + split; cbn; [|unfold lease_rows; cbn; rewrite Hww; intros k lr Hk; by exists lr].
      rewrite Hc, Hrs. intros id' r Hr. rewrite lookup_insert. case_decide as Hid; [|by exists r].
      subst id'. exists row'. split; [done|]. rewrite (run_write_scope _ _ _ _ _ Hrw).
      destruct Hrw as [run u p (Hnew & _)|? ? ? ? ? [Hrow Hrsc _ _ _ _]]; congruence.
    + by rewrite Hww.
    + intros id'. rewrite <-Hst. eapply grown_silent; [exact Hg|]. apply Forall_app.
      split; [by eapply performed_silent|by apply audits_silent].
Qed.

(** ** Steps that write attempts *)

Lemma terminal_not_active (status : string) :
  status ∈ terminalAttemptStatuses → status ≠ "queued" ∧ status ≠ "running".
Proof. unfold terminalAttemptStatuses. set_solver. Qed.

Lemma queued_phase row :
  attempt_phase row → at_status row = "queued" →
  at_version row = 1%Z ∧ at_started row = None ∧ at_finished row = None.
Proof.
  intros [| |? ? Hst%terminal_not_active|]; try congruence; [done|]. tauto.
Qed.

Lemma running_phase row :
  attempt_phase row → at_status row = "running" →
  at_version row = 2%Z ∧ (∃ started, at_started row = Some started) ∧ at_finished row = None.
Proof.
  intros [| |? ? Hst%terminal_not_active|]; try congruence; [eauto|]. tauto.
Qed.

(** The row a life-cycle step leaves is in the next phase. *)
Lemma write_phase st proof t id row et :
  (∀ row0, attempts (work t) !! id = Some row0 → attempt_phase row0) →
  attempt_write st proof t id row et → attempt_phase row.
Proof.
  intros Hold [runID r now _ _ _|row0 now Hown Hst _ _|row0 status now Hown Hst _ _ Hterm|row0 now Hown Hst _ _].
  { by apply ph_queued. }
  all: apply own_attempt_Some in Hown as (Hrow & _); apply Hold in Hrow.
  - destruct (queued_phase _ Hrow Hst) as (Hv & _ & Hf). eapply ph_running; cbn; [done|lia|done|done].
  - destruct (running_phase _ Hrow Hst) as (Hv & [started Hs] & _).
    eapply ph_finished; cbn; [done|lia|done|done].
  - apply elem_of_cons in Hst as [Hst|Hst%list_elem_of_singleton].
    + destruct (queued_phase _ Hrow Hst) as (Hv & Hs & _). eapply ph_abandoned; cbn; [done|lia|done|done].
    + destruct (running_phase _ Hrow Hst) as (Hv & [started Hs] & _).
      eapply ph_finished; cbn; [set_solver|lia|done|done].
Qed.

(** A write creates a row, or keeps its identity and counts its version. *)
Lemma write_keeps st proof t id row et :
  attempt_write st proof t id row et →
  (attempts (work t) !! id = None ∧ at_version row = 1%Z ∧
   at_ordinal row = next_ordinal (tenantID st) (at_run row) (work t) ∧
   at_tenant row = tenantID st ∧ same_resource proof row ∧ same_fence proof row ∧
   ∃ r, runs (canonical t) !! at_run row = Some r ∧ run_scope r = store_scope st) ∨
  ∃ row0, attempts (work t) !! id = Some row0 ∧ at_version row = (at_version row0 + 1)%Z ∧
    at_run row = at_run row0 ∧ at_ordinal row = at_ordinal row0 ∧ at_tenant row = at_tenant row0 ∧
    at_lease_type row = at_lease_type row0 ∧ at_lease_id row = at_lease_id row0 ∧
    at_worker row = at_worker row0 ∧ at_token row = at_token row0.
Proof.
  intros [runID r now Hnew Hr Hsc|row0 now Hown _ _ _|row0 status now Hown _ _ _ _|row0 now Hown _ _ _].
  { left. split_and!; [done..|by eexists]. }
  all: right; exists row0; apply own_attempt_Some in Hown as (Hrow & _); done.
Qed.

Lemma scheduler_key_eta st proof :
  scheduler_key st proof →
  mkLeaseKey (tenantID st) (store_scope st).2 (k_ResourceType (lp_LeaseKey proof))
    (k_ResourceID (lp_LeaseKey proof)) = lp_LeaseKey proof.
Proof. unfold scheduler_key. destruct (lp_LeaseKey proof). cbn. congruence. Qed.

Lemma write_sound st proof t id row et :
  work_ok t → scheduler_key st proof →
  carries t (lp_LeaseKey proof) (lp_OwnerID proof) (lp_FencingToken proof) →
  attempt_write st proof t id row et → attempt_check id row = false → attempt_sound t id row.
Proof.
  intros Hok Hkey (lr & Hlr & Ho & Htk) Hw Hchk. split; [done| |].
  { eapply write_phase; [|exact Hw]. intros row0 Hrow0. by eapply wo_sound. }
  destruct (write_keeps _ _ _ _ _ _ Hw) as
    [(_ & _ & _ & Hten & [Hty Hid] & [Hwk Htok] & r & Hr & Hsc)|
     (row0 & Hrow0 & _ & Hrun & _ & Hten & Hty & Hid & Hwk & Htok)].
  - exists r. rewrite Hsc. split_and!; [done..|]. exists lr. rewrite Hwk, Htok. split_and!; [|lia|done].
    unfold lease_rows, attempt_lease. by rewrite Hten, Hty, Hid, (scheduler_key_eta _ _ Hkey).
  - destruct (as_run _ _ _ (wo_sound _ Hok _ _ Hrow0)) as (r & Hr & Hsc & Hf). exists r.
    unfold attempt_lease. by rewrite Hrun, Hten, Hty, Hid, Hwk, Htok.
Qed.

(** ** Ordinals *)

Lemma foldr_max_ge (l : list Z) z : z ∈ l → (z ≤ foldr Z.max 0 l)%Z.
Proof. induction l as [|x l IH]; [by intros ?%elem_of_nil|]. intros [->|Hz%IH]%elem_of_cons; cbn; lia. Qed.

Lemma foldr_max_in (l : list Z) : foldr Z.max 0%Z l = 0%Z ∨ foldr Z.max 0%Z l ∈ l.
Proof.
  induction l as [|x l [IH|IH]]; [by left|..]; cbn.
  - rewrite IH. destruct (Z.max_spec x 0) as [[_ ->]|[_ ->]]; [by left|right; by left].
  - destruct (Z.max_spec x (foldr Z.max 0%Z l)) as [[_ ->]|[_ ->]]; right; [by right|by left].
Qed.

Lemma next_ordinal_spec tenant runID (w : Work) :
  (∀ id row, attempts w !! id = Some row → at_tenant row = tenant → at_run row = runID →
     (at_ordinal row < next_ordinal tenant runID w)%Z) ∧
  ∀ j, (1 ≤ j < next_ordinal tenant runID w)%Z →
    ∃ id row, attempts w !! id = Some row ∧ at_run row = runID ∧ (j ≤ at_ordinal row)%Z.
Proof.
  unfold next_ordinal. set (l := _ <$> map_to_list _).
  assert (∀ z, z ∈ l ↔ ∃ id row, attempts w !! id = Some row ∧ at_tenant row = tenant ∧
    at_run row = runID ∧ z = at_ordinal row) as Hl.
  { intros z. unfold l. rewrite list_elem_of_fmap. split.
    - intros ([id row] & -> & (Hrow & ? & ?)%elem_of_map_to_list%map_lookup_filter_Some). eauto 6.
    - intros (id & row & Hrow & ? & ? & ->). exists (id, row). split; [done|].
      apply elem_of_map_to_list, map_lookup_filter_Some. done. }
  split.
  - intros id row Hrow Ht Hr. assert (at_ordinal row ∈ l) as Hin by (apply Hl; eauto 6).
    apply foldr_max_ge in Hin. lia.
  - intros j Hj. destruct (foldr_max_in l) as [Hz|Hin]; [lia|].
    apply Hl in Hin as (id & row & Hrow & _ & Hr & Hz). exists id, row. split_and!; [done..|lia].
Qed.

(** ** The invariant *)

(** The versions that the events of the written rows carry. *)
Lemma written_log st proof t md ws es ids id :
  Forall2 (attempt_emission st proof t) ws es → NoDup ws.*1 → length ids = length es →
  ev_version <$> attempt_log id (zip_with (event_row st md) es ids) =
    match (list_to_map ws : gmap string AttemptRow) !! id with
    | Some row => [at_version row]
    | None => []
    end.
Proof.
  intros Hes. revert ids. induction Hes as [|[i r] e ws es (_ & _ & Hty & Hagg & Hv & _) _ IH];
    intros [|eid ids] Hnd Hlen; try done. rewrite fmap_cons in Hnd.
  apply NoDup_cons in Hnd as [Hi Hnd]. cbn [fst snd] in *.
  specialize (IH ids Hnd ltac:(by injection Hlen)). unfold attempt_log in *.
  cbn [zip_with]. rewrite list_to_map_cons, lookup_insert. case_decide as Hid.
  - subst i. rewrite filter_cons_True by done. rewrite fmap_cons, IH.
    subst. rewrite not_elem_of_list_to_map_1 by done. cbn. by rewrite Hv.
  - rewrite filter_cons_False; [exact IH|]. cbn. rewrite Hagg. tauto.
Qed.

(** Where a row of the new table comes from. *)
Lemma put_origin st proof t ws es id row :
  Forall2 (attempt_emission st proof t) ws es → NoDup ws.*1 →
  attempts (work (put_attempts ws t)) !! id = Some row →
  attempts (work t) !! id = Some row ∨
  (id, row) ∈ ws ∧ ∃ et, attempt_write st proof t id row et ∧ attempt_check id row = false.
Proof.
  intros Hes Hnd. rewrite put_attempts_lookup. destruct (list_to_map ws !! id) as [r|] eqn:Hw; [|by left].
  intros [= ->]. right. apply elem_of_list_to_map_2 in Hw. split; [done|].
  apply list_elem_of_lookup in Hw as [i Hi].
  apply (Forall2_lookup_l _ _ _ _ _ Hes) in Hi as (e & _ & Hwr & Hchk & _). eauto.
Qed.

(** A row that is not written stays; a written one keeps its place in its run. *)
Lemma put_survives st proof t ws es id row :
  Forall2 (attempt_emission st proof t) ws es → NoDup ws.*1 →
  attempts (work t) !! id = Some row →
  ∃ row', attempts (work (put_attempts ws t)) !! id = Some row' ∧ at_run row' = at_run row ∧
    at_ordinal row' = at_ordinal row.
Proof.
  intros Hes Hnd Hrow. destruct (attempts (work (put_attempts ws t)) !! id) as [row'|] eqn:Hrow'.
  - exists row'. split; [done|]. destruct (put_origin _ _ _ _ _ _ _ Hes Hnd Hrow') as [Heq|(_ & et & Hw & _)].
    + by simplify_eq.
    + destruct (write_keeps _ _ _ _ _ _ Hw) as [[Hn _]|(row0 & Hrow0 & _ & ? & ? & _)]; [congruence|].
      by simplify_eq.
  - rewrite put_attempts_lookup in Hrow'. case_match; congruence.
Qed.

(** A row of the new table has the place of an old one, or it is the one created. *)
Lemma put_place st proof md ws t t' id row :
  wrote st proof md t ws t' → attempts (work (put_attempts ws t)) !! id = Some row →
  (∃ row0, attempts (work t) !! id = Some row0 ∧ at_run row0 = at_run row ∧
     at_ordinal row0 = at_ordinal row) ∨
  ws = [(id, row)] ∧ attempts (work t) !! id = None ∧ at_tenant row = tenantID st ∧
  at_ordinal row = next_ordinal (tenantID st) (at_run row) (work t) ∧
  ∃ r, runs (canonical t) !! at_run row = Some r ∧ run_scope r = store_scope st.
Proof.
  intros [es Hnd Hes Halone _] Hrow.
  destruct (put_origin _ _ _ _ _ _ _ Hes Hnd Hrow) as [Hold|(Hin & et & Hw & _)]; [left; eauto|].
  destruct (write_keeps _ _ _ _ _ _ Hw) as
    [(Hn & _ & Hord & Hten & _ & _ & Hr)|(row0 & Hrow0 & _ & Hrun & Hord & _)].
  - right. split_and!; [by apply (Halone (id, row))|done..].
  - left. exists row0. by rewrite Hrun, Hord.
Qed.

Lemma old_below st t id row r :
  work_ok t → attempts (work t) !! id = Some row →
  runs (canonical t) !! at_run row = Some r → run_scope r = store_scope st →
  (at_ordinal row < next_ordinal (tenantID st) (at_run row) (work t))%Z.
Proof.
  intros Hok Hrow Hr Hsc. destruct (as_run _ _ _ (wo_sound _ Hok _ _ Hrow)) as (r' & Hr' & Hten & _).
  eapply next_ordinal_spec; [exact Hrow| |done]. rewrite Hr in Hr'. injection Hr' as <-.
  by rewrite <-Hten, Hsc.
Qed.

Lemma wrote_dense st proof md ws t t' id row j :
  wrote st proof md t ws t' → work_ok t →
  attempts (work (put_attempts ws t)) !! id = Some row → (1 ≤ j ≤ at_ordinal row)%Z →
  ∃ id' row', attempts (work (put_attempts ws t)) !! id' = Some row' ∧ at_run row' = at_run row ∧
    at_ordinal row' = j.
Proof.
  intros Hwr Hok Hrow Hj.
  assert (∀ id0 row0, attempts (work t) !! id0 = Some row0 → at_run row0 = at_run row →
    (j ≤ at_ordinal row0)%Z → ∃ id' row', attempts (work (put_attempts ws t)) !! id' = Some row' ∧
    at_run row' = at_run row ∧ at_ordinal row' = j) as Hold.
  { intros id0 row0 Hrow0 Hrun Hle. destruct (wo_dense _ Hok id0 row0 j Hrow0) as (i & r & Hr & Hrr & Ho); [lia|].
    destruct Hwr as [es Hnd Hes _ _]. destruct (put_survives _ _ _ _ _ _ _ Hes Hnd Hr) as (r' & ? & ? & ?).
    exists i, r'. split_and!; [done|congruence..]. }
  destruct (put_place _ _ _ _ _ _ _ _ Hwr Hrow) as [(row0 & Hrow0 & Hrun & Hord)|(_ & _ & _ & Hord & _)].
  { eapply Hold; [done..|]. lia. }
  destruct (decide (j = at_ordinal row)) as [->|Hne]; [eauto|].
  destruct (proj2 (next_ordinal_spec (tenantID st) (at_run row) (work t)) j) as (i & r & Hr & ? & ?); [lia|].
  by eapply Hold.
Qed.

Lemma wrote_unique st proof md ws t t' id row id' row' :
  wrote st proof md t ws t' → work_ok t →
  attempts (work (put_attempts ws t)) !! id = Some row →
  attempts (work (put_attempts ws t)) !! id' = Some row' → at_run row' = at_run row →
  at_ordinal row' = at_ordinal row → id' = id.
Proof.
  intros Hwr Hok Hrow Hrow' Hrun Hord.
  destruct (put_place _ _ _ _ _ _ _ _ Hwr Hrow) as
    [(row0 & Hrow0 & Hrun0 & Hord0)|(Hws & _ & _ & Ho & r & Hr & Hsc)];
  destruct (put_place _ _ _ _ _ _ _ _ Hwr Hrow') as
    [(row0' & Hrow0' & Hrun0' & Hord0')|(Hws' & _ & _ & Ho' & r' & Hr' & Hsc')].
  - eapply (wo_unique _ Hok id row0 id' row0'); [done..|congruence|congruence].
  - rewrite Hrun in Hr', Ho'. rewrite <-Hrun0 in Hr', Ho'.
    pose proof (old_below st t id row0 r' Hok Hrow0 Hr' Hsc'). lia.
  - rewrite <-Hrun in Hr, Ho. rewrite <-Hrun0' in Hr, Ho.
    pose proof (old_below st t id' row0' r Hok Hrow0' Hr Hsc). lia.
  - rewrite Hws in Hws'. by injection Hws'.
Qed.

Lemma wrote_log st proof md ws t t' id :
  wrote st proof md t ws t' → work_ok t →
  ev_version <$> attempt_log id (events (stream t')) =
    match attempts (work (put_attempts ws t)) !! id with
    | Some row => seqZ 1 (at_version row)
    | None => []
    end.
Proof.
  intros [es Hnd Hes _ Hg] Hok.
  destruct (grown_attempt_log _ _ _ _ _ id Hg) as (ids & Hlen & ->). rewrite fmap_app.
  rewrite (written_log st proof t md ws es ids id Hes Hnd Hlen), put_attempts_lookup.
  change (stream (put_attempts ws t)) with (stream t). rewrite (wo_log _ Hok).
  destruct (list_to_map ws !! id) as [row|] eqn:Hw; [|by rewrite app_nil_r].
  assert (∃ et, attempt_write st proof t id row et) as [et Hwr].
  { apply elem_of_list_to_map_2, list_elem_of_lookup in Hw as [i Hi].
    apply (Forall2_lookup_l _ _ _ _ _ Hes) in Hi as (e & _ & Hwr & _). eauto. }
  destruct (write_keeps _ _ _ _ _ _ Hwr) as [(-> & -> & _)|(row0 & Hrow0 & -> & _)]; [done|].
  rewrite Hrow0. assert (0 ≤ at_version row0)%Z.
  { destruct (as_phase _ _ _ (wo_sound _ Hok _ _ Hrow0)); lia. }
  rewrite seqZ_app by lia. rewrite (Z.add_comm (at_version row0)). done.
Qed.

Lemma wrote_work_ok st proof md ws t t' key rc :
  scheduler_key st proof →
  carries t (lp_LeaseKey proof) (lp_OwnerID proof) (lp_FencingToken proof) →
  wrote st proof md t ws t' → work_ok t → work_ok (set_receipts <[key := rc]> t').
Proof.
  intros Hkey Hcar Hwr Hok. pose proof Hwr as [es Hnd Hes _ Hg].
  destruct (grown_canonical _ _ _ _ _ Hg) as [Hc Hw]. split; cbn; rewrite ?Hw.
  - intros id row Hrow. eapply (sound_carried t); [apply carried_refl; cbn|].
    + by rewrite Hc.
    + unfold lease_rows. cbn. by rewrite Hw.
    + destruct (put_origin _ _ _ _ _ _ _ Hes Hnd Hrow) as [Hold|(_ & et & Hwrite & Hchk)];
        [by eapply wo_sound|by eapply write_sound].
  - intros id. by eapply wrote_log.
  - intros id row j. by eapply wrote_dense.
  - intros id row id' row'. by eapply wrote_unique.
Qed.

Lemma fenced_carries t n n' k owner token : fenced t n n' k owner token → carries t k owner token.
Proof. intros (row & _ & ? & ? & ? & _). by exists row. Qed.

Lemma fresh_work_ok t : fresh t → work_ok t.
Proof.
  intros Hf. split.
  all: intros *; rewrite ?(fresh_attempts _ Hf), ?(fresh_events _ Hf), ?lookup_empty; done.
Qed.

Lemma step_carried a s s' :
  sysstep a s s' → (∀ st op, a ≠ ByAttempt st op) →
  carried (tables s) (tables s') ∧ attempts (work (tables s')) = attempts (work (tables s)) ∧
  ∀ id, attempt_log id (events (stream (tables s'))) = attempt_log id (events (stream (tables s))).
Proof.
  destruct a as [st op|st op|st op|op|st request md]; intros [r Hrun] Hne.
  - eapply command_carried. by eapply perform_effect.
  - apply stream_affects in Hrun as (_ & x & -> & Heff). split_and!; [by apply carried_refl|done|].
    apply effect_log in Heff as (He & _). cbn. intros id. by rewrite He.
  - by destruct (Hne st op).
  - apply on_leases_moved in Hrun as [[Hc Hst Ha _ Hrows] _]. split_and!; [|done|by rewrite Hst].
    split; [|done]. rewrite Hc. eauto.
  - apply authorization_noted in Hrun as (es & t1 & Hes & Hg & Ht).
    assert (∀ id, attempt_log id (events (stream t1)) = attempt_log id (events (stream (tables s)))) as Hlog.
    { intros id. apply (grown_silent _ _ _ _ _ _ Hg). eapply Forall_impl; [exact Hes|]. intros e He Ha.
      cbn beta in He. rewrite Ha in He. set_solver. }
    destruct (grown_canonical _ _ _ _ _ Hg) as [Hc Hw].
    destruct Ht as [->|(key & row & ->)]; cbn; rewrite ?Hw; split_and!; try done;
      apply carried_refl; unfold lease_rows; cbn; by rewrite ?Hc, ?Hw.
Qed.

Lemma step_work_ok a s s' : sysstep a s s' → work_ok (tables s) → work_ok (tables s').
Proof.
  intros Hstep Hok. destruct a as [st op|st op|st op|op|st request md].
  1, 2, 4, 5: destruct (step_carried _ _ _ Hstep) as (? & ? & ?); [done|by eapply work_ok_carried].
  destruct Hstep as [r [Herr Hres]%attempt_outcome]. destruct r as [[]|e]; [|by rewrite Herr].
  specialize (Hres eq_refl). destruct (attempt_proof op) as [proof|]; [|by rewrite Hres].
  destruct Hres as (_ & Hkey & Hf & [->|(md & ws & t1 & key & rc & Hw & ->)]); [done|].
  eapply wrote_work_ok; [done|by eapply fenced_carries|done..].
Qed.

Lemma history_work_ok P s s' : rtc (system P) s s' → work_ok (tables s) → work_ok (tables s').
Proof.
  intros Hs Hok. revert Hs. apply (rtc_invariant _ (λ s, work_ok (tables s))); [|done].
  intros s1 s2 Hok1 (a & _ & Hstep). by eapply step_work_ok.
Qed.

(** Whoever changes an attempt writes it under a live fence. *)
Lemma step_attempt a s s' id :
  sysstep a s s' → attempts (work (tables s')) !! id = attempts (work (tables s)) !! id ∨
  ∃ st op proof md ws t1 row et, a = ByAttempt st op ∧ attempt_proof op = Some proof ∧
    scheduler_key st proof ∧
    fenced (tables s) (readings s) (readings s') (lp_LeaseKey proof) (lp_OwnerID proof)
      (lp_FencingToken proof) ∧
    wrote st proof md (tables s) ws t1 ∧ (∃ key rc, tables s' = set_receipts <[key := rc]> t1) ∧
    attempts (work (tables s')) !! id = Some row ∧ attempt_write st proof (tables s) id row et ∧
    (id, row) ∈ ws.
Proof.
  intros Hstep. destruct a as [st op|st op|st op|op|st request md].
  1, 2, 4, 5: left; destruct (step_carried _ _ _ Hstep) as (_ & -> & _); done.
  destruct Hstep as [r [Herr Hres]%attempt_outcome]. destruct r as [[]|e]; [|left; by rewrite Herr].
  specialize (Hres eq_refl). destruct (attempt_proof op) as [proof|] eqn:Hop; [|left; by rewrite Hres].
  destruct Hres as (_ & Hkey & Hf & [Heq|(md & ws & t1 & key & rc & Hw & Heq)]); [left; by rewrite Heq|].
  pose proof Hw as [es Hnd Hes _ Hg]. destruct (grown_canonical _ _ _ _ _ Hg) as [_ Hwork].
  assert (attempts (work (tables s')) = attempts (work (put_attempts ws (tables s)))) as Hput
    by (rewrite Heq; cbn; by rewrite Hwork).
  rewrite Hput. destruct (attempts (work (put_attempts _ _)) !! id) as [row|] eqn:Hrow.
  - destruct (put_origin _ _ _ _ _ _ _ Hes Hnd Hrow) as [Hold|(Hin & et & Hwr & _)]; [by left|].
    right. exists st, op, proof, md, ws, t1, row, et. split_and!; eauto.
  - left. rewrite put_attempts_lookup in Hrow. by destruct (list_to_map ws !! id).
Qed.

Lemma step_leases a s s' : sysstep a s s' → carried (tables s) (tables s').
Proof.
  intros Hstep. destruct a as [st op|st op|st op|op|st request md].
  1, 2, 4, 5: by eapply step_carried.
  destruct Hstep as [r [Herr Hres]%attempt_outcome].
  destruct r as [[]|e]; [|rewrite Herr by done; by apply carried_refl].
  specialize (Hres eq_refl). destruct (attempt_proof op) as [proof|]; [|rewrite Hres; by apply carried_refl].
  destruct Hres as (_ & _ & _ & [->|(md & ws & t1 & key & rc & [es _ _ _ Hg] & ->)]); [by apply carried_refl|].
  destruct (grown_canonical _ _ _ _ _ Hg) as [Hc Hw].
  apply carried_refl; unfold lease_rows; cbn; by rewrite ?Hc, ?Hw.
Qed.

Lemma lease_tokens_grow P s s' k lr :
  rtc (system P) s s' → lease_rows (tables s) !! k = Some lr →
  ∃ lr', lease_rows (tables s') !! k = Some lr' ∧ (row_token lr ≤ row_token lr')%Z.
Proof.
  intros Hs. revert lr. induction Hs as [s|s s1 s' (a & _ & Hstep) _ IH]; intros lr Hlr; [eauto with lia|].
  destruct (cr_leases _ _ (step_leases _ _ _ Hstep) _ _ Hlr) as (lr1 & Hlr1 & Hle & _).
  destruct (IH _ Hlr1) as (lr' & ? & ?). exists lr'. split; [done|lia].
Qed.

(** The attempt a life-cycle write found was active, and its lease is the scheduler's. *)
Lemma write_found st proof t id row et row0 :
  attempt_write st proof t id row et → attempts (work t) !! id = Some row0 →
  own_attempt (store_scope st) id t = Some row0 ∧ at_status row0 ∈ ["queued"; "running"] ∧
  same_resource proof row0.
Proof.
  intros [runID r now Hn _ _|row1 now Hown Hst Hres _|row1 status now Hown Hst Hres _ _|row1 now Hown Hst Hres _] Hrow0;
    [congruence|..]; pose proof Hown as (Hrow1 & _)%own_attempt_Some; simplify_eq;
    (split_and!; [done| |done]); try rewrite Hst; set_solver.
Qed.

Lemma own_lease st proof t id row :
  scheduler_key st proof → own_attempt (store_scope st) id t = Some row → same_resource proof row →
  attempt_lease (repositoryID st) row = lp_LeaseKey proof.
Proof.
  intros Hkey (_ & Hten & _)%own_attempt_Some [Hty Hid]. unfold attempt_lease.
  rewrite Hten, Hty, Hid. by apply (scheduler_key_eta _ _ Hkey).
Qed.

(** One lease row carries one fence. *)
Lemma carries_same_fence t k proof row :
  carries t k (lp_OwnerID proof) (lp_FencingToken proof) → carries t k (at_worker row) (at_token row) →
  same_fence proof row.
Proof. intros (lr & Hlr & Ho & Ht) (lr' & Hlr' & Ho' & Ht'). split; simplify_eq; congruence. Qed.

Lemma put_reconciled (l : list (string * AttemptRow)) now t id :
  attempts (work (put_attempts ((λ ka, (ka.1, reconciled_row now ka.2)) <$> l) t)) !! id =
    match (list_to_map l : gmap string AttemptRow) !! id with
    | Some row => Some (reconciled_row now row)
    | None => attempts (work t) !! id
    end.
Proof.
  rewrite put_attempts_lookup. change (λ ka, _) with (prod_map (@Datatypes.id string) (reconciled_row now)).
  rewrite list_to_map_fmap, lookup_fmap. by destruct (list_to_map l !! id).
Qed.

(** What is active and contested was selected: its lease is the scheduler's, and
    that carries another fence. *)
Lemma contested_selected st proof t l id row :
  selected st proof t l → scheduler_key st proof →
  carries t (lp_LeaseKey proof) (lp_OwnerID proof) (lp_FencingToken proof) →
  own_attempt (store_scope st) id t = Some row → same_resource proof row →
  at_status row ∈ ["queued"; "running"] → ¬ same_fence proof row → (id, row) ∈ l.
Proof.
  intros Hsel Hkey Hcar Hown Hres Hst Hno. apply (sel_all _ _ _ _ Hsel); [by apply contested_elem|].
  cbn. rewrite (own_lease _ _ _ _ _ Hkey Hown Hres). intros Hrow.
  apply Hno. by eapply carries_same_fence.
Qed.

(** The table after a reconciliation. *)
Lemma reconciles_rows st proof md t ws t' :
  reconciles st proof md t ws t' → ∃ l now, selected st proof t l ∧
    ∀ id, attempts (work t') !! id = match (list_to_map l : gmap string AttemptRow) !! id with
      | Some row => Some (reconciled_row now row)
      | None => attempts (work t) !! id
      end.
Proof.
  intros [[es _ _ _ Hg] (l & now & Hsel & ->)]. exists l, now. split; [done|]. intros id.
  destruct (grown_canonical _ _ _ _ _ Hg) as [_ ->]. apply put_reconciled.
Qed.

Lemma selected_lookup st proof t l id row :
  selected st proof t l → (list_to_map l : gmap string AttemptRow) !! id = Some row →
  attempts (work t) !! id = Some row ∧ same_resource proof row ∧ ¬ same_fence proof row.
Proof.
  intros Hsel Hl. apply elem_of_list_to_map_2 in Hl.
  apply (sel_contested _ _ _ _ Hsel), contested_elem in Hl as (Hown & _ & Hres & Hno).
  by apply own_attempt_Some in Hown as (Hrow & _).
Qed.

Lemma reconcile_spares st md proof s r s' id row :
  attempt_run st (AttemptReconcile md proof) s = (r, s') →
  attempts (work (tables s)) !! id = Some row → same_fence proof row →
  attempts (work (tables s')) !! id = Some row.
Proof.
  intros Hrun Hrow Hfen. destruct r as [[]|e]; [|by rewrite (attempt_run_safe _ _ _ _ _ Hrun)].
  refine (swp_run _ (λ _ s', attempts (work (tables s')) !! id = Some row) s tt s' _ Hrun).
  cbn [attempt_run]. apply swp_forget. eapply swp_mono; [apply swp_Reconcile|].
  intros out s1 [_ [[-> _]|(ws & t1 & key & rc & _ & Hrec & ->)]]; [done|]. cbn.
  destruct (reconciles_rows _ _ _ _ _ _ Hrec) as (l & now & Hsel & ->).
  destruct (list_to_map l !! id) as [row0|] eqn:Hl; [exfalso|done].
  destruct (selected_lookup _ _ _ _ _ _ Hsel Hl) as (? & _ & Hno). by simplify_eq.
Qed.

(** ** What the system promises about attempts *)

(** C34. Fencing of writes: in a step of the whole system an attempt changes only
    through an attempt command that presents a scheduler lease of its own
    repository, live at a reading of the clock within that command; the change is
    a creation, a start, a finish or a reconciliation of exactly that row, and the
    event that reports it, with its type and version, is in the log. *)
Theorem attempt_writes_fenced a s s' id :
  sysstep a s s' → attempts (work (tables s')) !! id ≠ attempts (work (tables s)) !! id →
  ∃ st op proof row et, a = ByAttempt st op ∧ attempt_proof op = Some proof ∧ scheduler_key st proof ∧
    fenced (tables s) (readings s) (readings s') (lp_LeaseKey proof) (lp_OwnerID proof)
      (lp_FencingToken proof) ∧
    attempts (work (tables s')) !! id = Some row ∧ attempt_write st proof (tables s) id row et ∧
    ∃ e, e ∈ attempt_log id (events (stream (tables s'))) ∧ ev_type e = et ∧
      ev_version e = at_version row.
Proof.
  intros Hstep Hne. destruct (step_attempt _ _ _ id Hstep) as [?|
    (st & op & proof & md & ws & t1 & row & et & -> & Hop & Hkey & Hf & Hw & (key & rc & ->) & Hrow & _ & Hin)]; [done|].
  destruct Hw as [es Hnd Hes _ Hg].
  apply list_elem_of_lookup in Hin as [i Hi].
  destruct (Forall2_lookup_l _ _ _ _ _ Hes Hi) as (e & He & Hwr & _ & Hty & Hagg & Hv & _).
  exists st, op, proof, row, (em_type e). split_and!; [done..|].
  destruct (grown_attempt_log _ _ _ _ _ id Hg) as (ids & Hlen & Hlog).
  destruct (lookup_lt_is_Some_2 ids i) as [eid Heid]; [rewrite Hlen; by eapply lookup_lt_Some|].
  exists (event_row st md e eid). split_and!; [|done..]. cbn. rewrite Hlog. apply elem_of_app. right.
  apply list_elem_of_filter. split; [done|]. apply (list_elem_of_lookup_2 _ i).
  apply lookup_zip_with_Some. eauto.
Qed.

(** A step keeps an attempt that is neither queued nor running. *)
Lemma step_terminal a s s' id row :
  sysstep a s s' → attempts (work (tables s)) !! id = Some row → at_status row ∉ ["queued"; "running"] →
  attempts (work (tables s')) !! id = Some row.
Proof.
  intros Hstep Hrow Hst.
  destruct (step_attempt _ _ _ id Hstep) as [->|(st & op & proof & md & ws & t1 & r & et & _ & _ & _ & _ & _ & _ & _ & Hwr & _)]; [done|].
  by destruct (write_found _ _ _ _ _ _ _ Hwr Hrow) as (_ & ? & _).
Qed.

(** An attempt that left the states queued and running is frozen: no history of
    the system changes its row again. *)
Theorem terminal_attempt_frozen s s' id row :
  rtc (system anything) s s' → attempts (work (tables s)) !! id = Some row →
  at_status row ∉ ["queued"; "running"] → attempts (work (tables s')) !! id = Some row.
Proof.
  intros Hs Hrow Hst. revert Hs. apply (rtc_invariant _ (λ s, attempts (work (tables s)) !! id = Some row)); [|done].
  intros s1 s2 Hrow1 (a & _ & Hstep). by eapply step_terminal.
Qed.

(** Fencing of schedulers: once the lease of the resource was granted again, so
    that its token passed the one in the proof, every attempt command that
    presents the old proof fails and changes nothing, in every later state. *)
Theorem stale_scheduler_fenced s s1 st op proof lr r s2 :
  lease_rows (tables s) !! lp_LeaseKey proof = Some lr → (lp_FencingToken proof < row_token lr)%Z →
  rtc (system anything) s s1 → attempt_proof op = Some proof → attempt_run st op s1 = (r, s2) →
  is_ok r = false ∧ tables s2 = tables s1.
Proof.
  intros Hlr Htok Hs Hop [Herr Hres]%attempt_outcome.
  destruct (lease_tokens_grow _ _ _ _ _ Hs Hlr) as (lr1 & Hlr1 & Hle).
  destruct r as [[]|e]; [|by split; [|apply Herr]]. exfalso. specialize (Hres eq_refl). rewrite Hop in Hres.
  destruct Hres as (_ & _ & (row & i & Hrow & _ & Ht & _) & _). unfold lease_rows in Hlr1. simplify_eq. lia.
Qed.

(** The shape of every attempt a fresh database reaches. Its status, version and
    times belong together; its run is stored in its tenant; its events carry the
    versions 1, 2, ... up to its own without gap, and an identity that names no
    attempt has no events; the ordinals of a run's attempts are 1, ..., k, each
    used once. *)
Theorem attempt_rows_sound s0 s id :
  fresh (tables s0) → rtc (system anything) s0 s →
  let t := tables s in
  match attempts (work t) !! id with
  | None => attempt_log id (events (stream t)) = []
  | Some row =>
      attempt_phase row ∧
      (∃ r, runs (canonical t) !! at_run row = Some r ∧ (run_scope r).1 = at_tenant row) ∧
      ev_version <$> attempt_log id (events (stream t)) = seqZ 1 (at_version row) ∧
      (1 ≤ at_ordinal row)%Z ∧
      (∀ j, (1 ≤ j ≤ at_ordinal row)%Z → ∃ id' row', attempts (work t) !! id' = Some row' ∧
         at_run row' = at_run row ∧ at_ordinal row' = j) ∧
      (∀ id' row', attempts (work t) !! id' = Some row' → at_run row' = at_run row →
         at_ordinal row' = at_ordinal row → id' = id)
  end.
Proof.
  intros Hf Hs t. assert (work_ok t) as Hok by (by eapply history_work_ok, fresh_work_ok).
  pose proof (wo_log _ Hok id) as Hlog. destruct (attempts (work t) !! id) as [row|] eqn:Hrow.
  - destruct (wo_sound _ Hok _ _ Hrow) as [Hchk Hph (r & Hr & Hsc & _)]. split_and!; [done|eauto|done|..].
    + unfold attempt_check in Hchk. bool_prop. destruct_and!. lia.
    + intros j. by eapply wo_dense.
    + intros id' row'. by eapply wo_unique.
  - by apply fmap_nil_inv in Hlog.
Qed.

(** A reconciliation is complete: when it succeeds for the first time under its
    key, no attempt of the scheduler's resource is left active under any fence but
    the caller's own, and every row it touched is failed, retryable, finished. *)
Theorem reconcile_complete st md proof s out s' :
  ReconcileAbandonedAttempts st md proof s = (Ok out, s') →
  idempotency_keys (canonical (tables s)) !!
    (tenantID st, reconcile_scope st proof, IdempotencyKey md) = None →
  (∀ id row, own_attempt (store_scope st) id (tables s') = Some row → same_resource proof row →
     at_status row ∈ ["queued"; "running"] → same_fence proof row) ∧
  ∀ id row, attempts (work (tables s)) !! id = Some row →
    attempts (work (tables s')) !! id = Some row ∨
    ∃ now, attempts (work (tables s')) !! id = Some (reconciled_row now row) ∧
      same_resource proof row ∧ ¬ same_fence proof row.
Proof.
  intros Hrun Hnone. apply (swp_run _ _ _ _ _ (swp_Reconcile st md proof s)) in Hrun as
    [(_ & Hkey & Hf & _) [[_ Hsome]|(ws & t1 & key & rc & _ & Hrec & ->)]];
    [rewrite Hnone in Hsome; by destruct Hsome|].
  apply fenced_carries in Hf. destruct (reconciles_rows _ _ _ _ _ _ Hrec) as (l & now & Hsel & Hrows).
  destruct Hrec as [[es _ _ _ (Hc & _)%grown_canonical] _]. split; intros id row.
  - intros (Hrow & Hten & Hr)%own_attempt_Some Hres Hst. cbn in Hrow, Hr. rewrite Hrows in Hrow. rewrite Hc in Hr.
    destruct (list_to_map l !! id) as [row0|] eqn:Hl; [injection Hrow as <-; cbn in Hst; set_solver|].
    destruct (decide (at_worker row = lp_OwnerID proof ∧ at_token row = lp_FencingToken proof))
      as [Hsame|Hno]; [done|exfalso].
    apply not_elem_of_list_to_map_2 in Hl. apply Hl. apply (list_elem_of_fmap_2 fst l (id, row)).
    eapply contested_selected; [done|done|done|by apply own_attempt_Some|done..].
  - intros Hrow. cbn. rewrite Hrows. destruct (list_to_map l !! id) as [row0|] eqn:Hl; [right|by left].
    destruct (selected_lookup _ _ _ _ _ _ Hsel Hl) as (? & ? & ?). simplify_eq. eauto.
Qed.

(** A live worker is not disturbed: while the lease row still carries the fence an
    attempt was created under, no step of the system changes the attempt, except
    a command that presents that very fence; in particular no reconciliation. *)
Theorem live_fence_protects a s s' sc id row :
  sysstep a s s' → own_attempt sc id (tables s) = Some row →
  carries (tables s) (attempt_lease sc.2 row) (at_worker row) (at_token row) →
  attempts (work (tables s')) !! id = Some row ∨
  ∃ st op proof, a = ByAttempt st op ∧ attempt_proof op = Some proof ∧ store_scope st = sc ∧
    same_resource proof row ∧ same_fence proof row ∧ ∀ md, op ≠ AttemptReconcile md proof.
Proof.
  intros Hstep Hown Hcar. pose proof Hown as (Hrow & _ & r & Hr & Hsc)%own_attempt_Some.
  destruct (step_attempt _ _ _ id Hstep) as
    [->|(st & op & proof & md & ws & t1 & row' & et & -> & Hop & Hkey & Hf & _ & _ & _ & Hwr & _)]; [by left|].
  destruct (write_found _ _ _ _ _ _ _ Hwr Hrow) as (Hown' & _ & Hres).
  pose proof Hown' as (_ & _ & r' & Hr' & Hsc')%own_attempt_Some.
  assert (store_scope st = sc) as <- by congruence.
  assert (same_fence proof row) as Hfen.
  { eapply carries_same_fence; [by eapply fenced_carries|].
    by rewrite <-(own_lease _ _ _ _ _ Hkey Hown' Hres). }
  destruct op as [| | | |md' proof'];
    [| | | |left; destruct Hstep as [re Hrun]; injection Hop as Hp; subst; by eapply reconcile_spares].
  all: right; eexists st, _, proof; split_and!; done.
Qed.
End steps.
