(* ===== verification/AuthorizationProperties.v ===== *)
(** * Authorizations in the whole system

    What an approved delivery can rely on, in every history of commands, stream
    operations, attempts, leases and authorizations. *)

From S2P Require Import Prelude GoLib Fault Contracts Identity RunState LeasePaths.
From S2P Require Import ControlMemory Governance ControlRefinement AttemptRecords Postgres DeliveryContracts.
From S2P Require Import Leases LeaseSets LeaseExpansion DeliveryScopes LeaseSafety.
From S2P Require Import PgTables PgEvents PgLogic PgControl PgEffects PgSample PgRefinement PgStreams.
From S2P Require Import Queue Outbox ProjectionDeliveries RunProjection RunReplay StreamEffects PgSystem.
From S2P Require Import WorkerResults Attempts AttemptEffects Authorizations AuthorizationEffects.
From S2P Require Import PgProperties AttemptProperties.
From Stdlib Require Import Ascii.

(** The texts of an authorization, as JSON has them. *)
Definition authorization_texts (a : DeliveryAuthorization) : list string :=
  let r := da_Request a in let b := rq_WorkerBudgets r in
  [da_RequestSHA256 a; da_ApprovedBy a; rq_DeliveryID r; rq_TenantID r; rq_RepositoryID r; rq_TaskID r;
   rq_AttemptID r; rq_RunID r; rq_SchemaVersion r; rq_RepositoryPath r; rq_WorktreeRoot r; rq_BaseCommit r;
   rq_PublicationRef r; rq_AuthorID r; rq_ValidatorID r; rq_Role r; rq_Objective r; rq_EvidenceScope r] ++
  option_list (rq_PublicationPreviousCommit r) ++ option_list (rq_ContextPackRef r) ++
  option_list (rq_Model r) ++ rq_ReadScopes r ++ rq_WriteScopes r ++ rq_ArtifactScopes r ++
  default [] (rq_MechanicalValidatorIDs r).

(** Valid text and a time in UTC survive [encoding/json]. *)
Class AuthorizationLaws `{Json} `{!AuthorizationContracts} :=
  authorization_roundtrip : ∀ a j,
    forallb ValidString (authorization_texts a) = true → zone_offset (da_ApprovedAt a) = 0%Z →
    Marshal a = Ok j → Decode j = Ok a.

(** ** Identifiers are texts *)

Lemma classes_text cs s :
  match_classes cs s = true →
  Forall (λ c : class, ∀ x, c x = true → in_range 1 0x7F x = true) cs → pg_text s = true.
Proof.
  intros Hm Hcs. apply ascii_text. revert s Hm. induction Hcs as [|c cs Hc _ IH]; intros [|x s]; try done.
  cbn. intros [Hx Hs]%andb_true_iff. rewrite (Hc _ Hx). by apply IH.
Qed.

Lemma match_classes_app cs cs' (s s' : string) :
  match_classes cs s = true → match_classes cs' s' = true → match_classes (cs ++ cs') (s +:+ s') = true.
Proof.
  revert s. induction cs as [|c cs IH]; intros [|x s]; try done. rewrite string_app_cons. cbn.
  intros [-> Hs]%andb_true_iff Hs'. by apply IH.
Qed.

Lemma hex_ascii x : cl_hex x = true → in_range 1 0x7F x = true.
Proof. destruct x as [[] [] [] [] [] [] [] []]; (reflexivity || discriminate). Qed.
Lemma variant_ascii x : cl_variant x = true → in_range 1 0x7F x = true.
Proof. destruct x as [[] [] [] [] [] [] [] []]; (reflexivity || discriminate). Qed.

Lemma literal_ascii (s : string) :
  forallb (in_range 1 0x7F) (String.list_ascii_of_string s) = true →
  Forall (λ c : class, ∀ x, c x = true → in_range 1 0x7F x = true) (cl_lit s).
Proof.
  unfold cl_lit. induction s as [|c s IH]; [constructor|]. cbn [String.list_ascii_of_string forallb].
  intros [Hc Hs]%andb_true_iff. apply Forall_fmap, Forall_cons. split; [|by apply Forall_fmap, IH].
  unfold cl_char. cbn. by intros x ->%bool_decide_eq_true.
Qed.

Lemma uuid_ascii : Forall (λ c : class, ∀ x, c x = true → in_range 1 0x7F x = true) uuid_pattern.
Proof.
  assert (∀ n, Forall (λ c : class, ∀ x, c x = true → in_range 1 0x7F x = true) (replicate n cl_hex)) as Hhex
    by (intros n; apply Forall_replicate, hex_ascii).
  unfold uuid_pattern. repeat (apply Forall_app; split); try apply Hhex;
    (constructor; [|constructor]); try apply variant_ascii; intros x; unfold cl_char; by intros ->%bool_decide_eq_true.
Qed.

(** ** Steps *)

Section system.
Context `{Clock, !ClockStarted, Database, Sha256, Json, !Jsonb, Entropy, Sequences, UuidText}.
Context `{!JsonCodec Run, !JsonCodec Sprint, !JsonCodec Decision, !JsonCodec AuditRecord,
          !JsonCodec PlanResult, !JsonCodec SubmissionResult, !JsonCodec DecisionResult}.
Context `{!UuidLaws, !RunCodecLaws, RowLocks, TextOrder, Visits, TimeText, Collation, DeliveryJson}.
Context `{!AttemptCodecs, !JsonCodec WorkerResult, !WorkerContracts, ReportJson, !AuthorizationContracts}.
Implicit Types (t : Forja) (s : DB Forja) (st : PgStore).

(** What every approval in the log stands for. *)
Record lawful_approval t (e : EventRow) (auth : DeliveryAuthorization) : Prop := {
  la_payload : Marshal auth = Ok (ev_payload e);
  la_type : ev_type e = "delivery.authorized" ∧ ev_version e = 1%Z;
  la_aggregate : ev_aggregate e = deliveryAuthorizationAggregateID (rq_DeliveryID (da_Request auth))
                                    (rq_AttemptID (da_Request auth));
  la_actor : ev_actor_type e = "human" ∧ da_ApprovedBy auth = ev_actor e ∧
    ev_actor e ≠ rq_AuthorID (da_Request auth) ∧ ev_actor e ≠ rq_ValidatorID (da_Request auth);
  la_time : ev_occurred e = da_ApprovedAt auth ∧ ∃ n, da_ApprovedAt auth = postgresTimestamp (clock_reading n);
  la_request : validateDeliveryAuthorizationRequest (da_Request auth) = Ok tt;
  la_scope : RepositoryStorageIdentity (rq_TenantID (da_Request auth)) (rq_RepositoryID (da_Request auth)) =
    Ok (ev_scope e);
  la_digest : ∃ encoded, encodedDeliveryRequest (da_Request auth) = Ok (encoded, da_RequestSHA256 auth);
  la_decision : ∃ id d, decisions (canonical t) !! id = Some d ∧ de_scope d = ev_scope e ∧
    de_run d = rq_RunID (da_Request auth) ∧ de_action d = "submit_sprint" ∧ de_status d = "approved";
}.

Definition approval (e : EventRow) : Prop := ev_aggregate_type e = "approval".

Record approvals_ok t : Prop := {
  ao_lawful : ∀ e, e ∈ events (stream t) → approval e → ∃ auth, lawful_approval t e auth;
  ao_unique : ∀ e e', e ∈ events (stream t) → e' ∈ events (stream t) → approval e → approval e' →
    ev_scope e = ev_scope e' → ev_aggregate e = ev_aggregate e' → e = e';
}.

Lemma performed_decided st md t es t1 id d :
  performed st md t es t1 → decisions (canonical t) !! id = Some d → de_status d ≠ DecisionPending →
  decisions (canonical t1) !! id = Some d.
Proof.
  assert (∀ (m : gmap DecisionID DecisionRow) id' d', m !! id = Some d → id' ≠ id → <[id' := d']> m !! id = Some d) as Hskip
    by (intros; by rewrite lookup_insert_ne).
  intros Hp Hd Hst. destruct Hp as [| |uuid u srow row run' d' p q r _ _ _ _ _ Hnew|
    approve reason did drow u srow row run' p q r Hdid _ Hpd| | |]; cbn; try done; apply Hskip; try done.
  - congruence.
  - intros Heq. rewrite Heq in Hdid. congruence.
Qed.

Lemma step_decided a s s' id d :
  sysstep a s s' → decisions (canonical (tables s)) !! id = Some d → de_status d ≠ DecisionPending →
  decisions (canonical (tables s')) !! id = Some d.
Proof.
  intros Hstep Hd Hst. destruct a as [st op|st op|st op|op|st request md]; destruct Hstep as [r Hrun].
  - apply perform_effect in Hrun as [->|md es _ Hg|md key row (es & es' & t1 & t2 & Hp & _ & Hg & _ & ->)]; [done|..];
      destruct (grown_canonical _ _ _ _ _ Hg) as [Hc _]; cbn; rewrite Hc; [done|]. by eapply performed_decided.
  - by apply stream_affects in Hrun as (_ & x & -> & _).
  - apply attempt_outcome in Hrun as [Herr Hres]. destruct r as [[]|e]; [|by rewrite Herr].
    specialize (Hres eq_refl). destruct (attempt_proof op) as [proof|]; [|by rewrite Hres].
    destruct Hres as (_ & _ & _ & [->|(md & ws & t1 & key & rc & [es _ _ _ Hg] & ->)]); [done|].
    destruct (grown_canonical _ _ _ _ _ Hg) as [Hc _]. cbn. by rewrite Hc.
  - apply on_leases_moved in Hrun as [[Hc _ _ _ _] _]. by rewrite Hc.
  - apply authorization_noted, noted_rows in Hrun as (_ & _ & -> & _). done.
Qed.

(** Appended events come from the emissions. *)
Lemma grown_new st md es t t' :
  grown st md es t t' → ∃ new, events (stream t') = events (stream t) ++ new ∧
    ∀ e, e ∈ new → ∃ em i, em ∈ es ∧ e = event_row st md em i.
Proof.
  intros (ids & Hlen & ->)%grown_events. eexists. split; [done|]. intros e He.
  apply list_elem_of_lookup in He as [i Hi]. rewrite lookup_zip_with in Hi.
  destruct (es !! i) as [em|] eqn:Hem; [|done]. destruct (ids !! i) as [x|]; [|done]. injection Hi as <-.
  exists em, x. split; [by eapply list_elem_of_lookup_2|done].
Qed.

(** Growth without approvals. *)
Lemma grown_no_approval st md es t t' :
  grown st md es t t' → Forall (λ em, em_aggregate_type em ≠ "approval") es →
  ∃ new, events (stream t') = events (stream t) ++ new ∧ ∀ e, e ∈ new → ¬ approval e.
Proof.
  intros (new & Hev & Hnew)%grown_new Hes. exists new. split; [done|]. intros e (em & i & Hem & ->)%Hnew.
  unfold approval. cbn. by rewrite Forall_forall in Hes; apply Hes.
Qed.

Lemma performed_types st md t es t1 :
  performed st md t es t1 → Forall (λ e, em_aggregate_type e ≠ "approval") es.
Proof. destruct 1; try destruct approve; repeat constructor; try done; cbn; repeat case_match; by repeat constructor. Qed.

Lemma audits_types es : audits es → Forall (λ e, em_aggregate_type e ≠ "approval") es.
Proof. intros Ha. eapply Forall_impl; [exact Ha|]. cbn. by intros e ->. Qed.

(** The approval a step has added, if any. *)
Record approved_now st request md s s' (auth : DeliveryAuthorization) (e : EventRow) : Prop := {
  an_granted : granted st request md s s' auth;
  an_row : ∃ payload id, Marshal auth = Ok payload ∧ e = event_row st md (approval_emission auth payload) id;
  an_new : ∀ e', e' ∈ events (stream (tables s)) → same_version e' e = false;
}.

Lemma granted_log st request md s s' auth :
  granted st request md s s' auth → ∃ new, events (stream (tables s')) = events (stream (tables s)) ++ new ∧
    (∃ e, e ∈ new ∧ approval e ∧ approved_now st request md s s' auth e) ∧
    ∀ e, e ∈ new → approval e → approved_now st request md s s' auth e ∧ new !! 0 = Some e.
Proof.
  intros Hgr. pose proof Hgr as [_ _ _ _ _ (payload & es & t1 & rc & Hm & Ha & Hg & Ht)].
  inversion Hg as [|? ? eventID id available ? ? Hf Hid Hg1]; subst.
  destruct (grown_no_approval _ _ _ _ _ Hg1 (audits_types _ Ha)) as (new & Hev & Hno). cbn in Hev.
  set (e0 := event_row st md (approval_emission auth payload) eventID) in *.
  assert (approved_now st request md s s' auth e0) as Hnow.
  { split; [done|by exists payload, eventID|]. intros e' He'. unfold event_insert_fault in Hf. constraints.
    rename select (existsb _ _ = false) into Hu. destruct (same_version e' e0) eqn:Hsv; [|done].
    rewrite <-Hu. symmetry. apply existsb_exists. exists e'. split; [by apply list_elem_of_In|]. fold e0.
    by rewrite Hsv, orb_true_r. }
  exists (e0 :: new). rewrite Ht. cbn. rewrite Hev, <-app_assoc. split_and!; [done|by exists e0; split_and!; [left| |]|].
  intros e [->|He%Hno]%elem_of_cons Hap; [by split|done].
Qed.

(** The log only grows, and approvals are written by authorizations alone. *)
Lemma step_log a s s' :
  sysstep a s s' → ∃ new, events (stream (tables s')) = events (stream (tables s)) ++ new ∧
    ∀ e, e ∈ new → approval e →
      (∃ st request md auth, approved_now st request md s s' auth e) ∧ new !! 0 = Some e.
Proof.
  assert (∀ l l' : list EventRow, (∃ new, l' = l ++ new ∧ ∀ e, e ∈ new → ¬ approval e) → ∃ new, l' = l ++ new ∧
    ∀ e, e ∈ new → approval e → (∃ st request md auth, approved_now st request md s s' auth e) ∧ new !! 0 = Some e) as Hquiet
    by (intros l l' (new & -> & Hno); exists new; split; [done|]; intros e He Ha; by destruct (Hno e)).
  assert (∀ l : list EventRow, ∃ new, l = l ++ new ∧ ∀ e, e ∈ new → ¬ approval e) as Hsame
    by (intros l; exists []; rewrite app_nil_r; split; [done|]; by intros e ?%elem_of_nil).
  intros Hstep. destruct a as [st op|st op|st op|op|st request md]; destruct Hstep as [r Hrun].
  - apply Hquiet. apply perform_effect in Hrun as [->|md es Ha Hg|md key row (es & es' & t1 & t2 & Hp & Ha & Hg & _ & ->)];
      [apply Hsame|by eapply grown_no_approval, audits_types|].
    destruct (performed_run_write _ _ _ _ _ Hp) as (_ & _ & _ & _ & _ & _ & Hst & _). rewrite <-Hst. cbn.
    eapply grown_no_approval; [exact Hg|]. apply Forall_app. split; [by eapply performed_types|by apply audits_types].
  - apply Hquiet. apply stream_affects in Hrun as (_ & x & -> & [He _]%effect_log). cbn. rewrite He. apply Hsame.
  - apply Hquiet. apply attempt_outcome in Hrun as [Herr Hres]. destruct r as [[]|e]; [|rewrite Herr by done; apply Hsame].
    specialize (Hres eq_refl). destruct (attempt_proof op) as [proof|]; [|rewrite Hres; apply Hsame].
    destruct Hres as (_ & _ & _ & [->|(md & ws & t1 & key & rc & [es _ Hes _ Hg] & ->)]); [apply Hsame|].
    apply (grown_no_approval _ _ _ _ _ Hg). clear -Hes. induction Hes as [|w e ws es (_ & _ & He & _) _ IH]; constructor; [|done].
    by rewrite He.
  - apply Hquiet. apply on_leases_moved in Hrun as [[_ Hst _ _ _] _]. rewrite Hst. apply Hsame.
  - destruct r as [auth|e].
    + destruct (swp_run _ _ _ _ _ (swp_AuthorizeDelivery _ _ _ _) Hrun) as [Hgr|[_ (es & Ha & Hg)]].
      * destruct (granted_log _ _ _ _ _ _ Hgr) as (new & Hev & _ & Hnew). exists new. split; [done|].
        intros e He Hap. destruct (Hnew e He Hap). eauto 10.
      * apply Hquiet. by eapply grown_no_approval, audits_types.
    + apply Hquiet. rewrite (AuthorizeDelivery_safe _ _ _ _ _ _ Hrun). apply Hsame.
Qed.

(** ** The invariant *)

Lemma authorizable_ok st request md digest :
  authorizable st request md = Ok digest →
  validateDeliveryAuthorizationRequest request = Ok tt ∧ ActorType md = "human" ∧
  ActorID md ≠ rq_AuthorID request ∧ ActorID md ≠ rq_ValidatorID request ∧
  RepositoryStorageIdentity (rq_TenantID request) (rq_RepositoryID request) = Ok (store_scope st) ∧
  ∃ encoded, encodedDeliveryRequest request = Ok (encoded, digest).
Proof.
  unfold authorizable. intros ([] & Hv & Hok)%res_bind_ok. apply res_bind_ok in Hok as ([] & _ & Hok).
  apply res_bind_ok in Hok as ([] & Hactor%fail_if_ok & Hok). apply orb_false_iff in Hactor as [Hactor Hval].
  apply orb_false_iff in Hactor as [Hh%negb_false_iff Haut].
  apply bool_decide_eq_true in Hh. apply bool_decide_eq_false in Haut, Hval.
  apply res_bind_ok in Hok as ([tn rp] & Hid & Hok). apply res_bind_ok in Hok as ([] & Hsc%fail_if_ok & Hok).
  apply orb_false_iff in Hsc as [Ht%negb_false_iff Hr%negb_false_iff]. apply bool_decide_eq_true in Ht, Hr. subst tn rp.
  apply res_bind_ok in Hok as ([enc dg] & Henc & Hok). injection Hok as ->. eauto 10.
Qed.

Lemma approved_lawful st request md s s' auth e :
  approved_now st request md s s' auth e → lawful_approval (tables s) e auth.
Proof.
  intros [[Hreq Hdig Hby Hat (r & a & Hel & _) _] (payload & id & Hm & ->) _].
  apply authorizable_ok in Hdig as (Hv & Hh & Ha & Hval & Hsc & Henc). subst request.
  split; cbn; try done. all: rewrite ?Hby; try done. apply Hel.
Qed.

Lemma lawful_carried t t' e auth :
  (∀ id d, decisions (canonical t) !! id = Some d → de_status d ≠ DecisionPending →
     decisions (canonical t') !! id = Some d) →
  lawful_approval t e auth → lawful_approval t' e auth.
Proof.
  intros Hkeep [? ? ? ? ? ? ? ? (id & d & Hd & Hsc & Hrun & Hact & Hst)]. split; try done.
  exists id, d. split_and!; try done. apply Hkeep; [done|]. by rewrite Hst.
Qed.

Lemma same_version_intro e e' :
  approval e → approval e' → ev_scope e = ev_scope e' → ev_aggregate e = ev_aggregate e' →
  ev_version e = ev_version e' → same_version e e' = true.
Proof.
  unfold approval, same_version. intros Ha Ha' Hs Hg Hv. rewrite Ha, Ha', Hs, Hg, Hv.
  by rewrite !bool_decide_eq_true_2, Z.eqb_refl.
Qed.

Lemma step_approvals_ok a s s' : sysstep a s s' → approvals_ok (tables s) → approvals_ok (tables s').
Proof.
  intros Hstep [Hlaw Huniq]. destruct (step_log _ _ _ Hstep) as (new & Hev & Hnew).
  assert (∀ e auth, lawful_approval (tables s) e auth → lawful_approval (tables s') e auth) as Hcar
    by (intros e auth; apply lawful_carried; intros id d; by eapply step_decided).
  split.
  - intros e He Hap. rewrite Hev in He. apply elem_of_app in He as [He|He].
    + destruct (Hlaw e He Hap) as [auth Ha]. exists auth. by apply Hcar.
    + destruct (Hnew e He Hap) as [(st & request & md & auth & Hnow) _]. exists auth.
      apply Hcar. by eapply approved_lawful.
  - assert (∀ e e', e ∈ events (stream (tables s)) → e' ∈ new → approval e → approval e' →
      ev_scope e = ev_scope e' → ev_aggregate e = ev_aggregate e' → False) as Hcross.
    { intros e e' He He' Ha Ha' Hsc Hag. destruct (Hnew e' He' Ha') as [(st & request & md & auth & Hnow) _].
      destruct (Hlaw e He Ha) as [auth0 [_ [_ Hv] _]].
      pose proof (la_type _ _ _ (approved_lawful _ _ _ _ _ _ _ Hnow)) as [_ Hv'].
      pose proof (an_new _ _ _ _ _ _ _ Hnow e He) as Hx. rewrite (same_version_intro e e') in Hx; [done..|congruence]. }
    intros e e' He He' Ha Ha' Hsc Hag. rewrite Hev in He, He'. apply elem_of_app in He as [He|He], He' as [He'|He'].
    + by apply Huniq.
    + by destruct (Hcross e e').
    + by destruct (Hcross e' e).
    + destruct (Hnew e He Ha) as [_ Hl], (Hnew e' He' Ha') as [_ Hl']. congruence.
Qed.

Lemma fresh_approvals_ok t : fresh t → approvals_ok t.
Proof. intros Hf. split; intros *; rewrite (fresh_events _ Hf); by intros ?%elem_of_nil. Qed.

Lemma history_approvals_ok P s s' : rtc (system P) s s' → approvals_ok (tables s) → approvals_ok (tables s').
Proof.
  intros Hs Hok. revert Hs. apply (rtc_invariant _ (λ s, approvals_ok (tables s))); [|done].
  intros s1 s2 Hok1 (a & _ & Hstep). by eapply step_approvals_ok.
Qed.

Lemma history_log P s s' : rtc (system P) s s' → ∀ e, e ∈ events (stream (tables s)) → e ∈ events (stream (tables s')).
Proof.
  induction 1 as [|s s1 s' (a & _ & Hstep) _ IH]; [done|]. intros e He. apply IH.
  destruct (step_log _ _ _ Hstep) as (new & -> & _). apply elem_of_app. by left.
Qed.

(** ** Reading *)

Lemma authorization_event_true sc aggregate e :
  authorization_event sc aggregate e = true ↔ ev_scope e = sc ∧ approval e ∧ ev_aggregate e = aggregate ∧
    ev_version e = 1%Z ∧ ev_type e = "delivery.authorized".
Proof.
  unfold authorization_event, approval. rewrite !andb_true_iff, !bool_decide_eq_true, Z.eqb_eq. tauto.
Qed.

(** What the row and the decoded payload agree on. *)
Definition consistent (e : EventRow) (auth : DeliveryAuthorization) (deliveryID attemptID digest : string) : Prop :=
  ev_actor_type e = "human" ∧ ev_actor e = da_ApprovedBy auth ∧
  instant (UTC (timestamptz (ev_occurred e))) = instant (da_ApprovedAt auth) ∧
  rq_DeliveryID (da_Request auth) = deliveryID ∧ rq_AttemptID (da_Request auth) = attemptID ∧
  da_RequestSHA256 auth = digest.

Lemma consistent_check e auth deliveryID attemptID digest :
  negb (bool_decide (ev_actor_type e = "human")) || negb (bool_decide (ev_actor e = da_ApprovedBy auth)) ||
  negb (Equal (UTC (timestamptz (ev_occurred e))) (da_ApprovedAt auth)) ||
  negb (bool_decide (rq_DeliveryID (da_Request auth) = deliveryID)) ||
  negb (bool_decide (rq_AttemptID (da_Request auth) = attemptID)) ||
  negb (bool_decide (da_RequestSHA256 auth = digest)) = false ↔
  consistent e auth deliveryID attemptID digest.
Proof.
  unfold consistent, Equal. rewrite !orb_false_iff, !negb_false_iff, !bool_decide_eq_true, Z.eqb_eq. tauto.
Qed.

Lemma wp_Get st deliveryID attemptID t :
  wp t (GetDeliveryAuthorization st deliveryID attemptID) (λ o _, ∀ auth, o = Some auth →
    ∃ e encoded digest, e ∈ events (stream t) ∧
      authorization_event (store_scope st) (deliveryAuthorizationAggregateID deliveryID attemptID) e = true ∧
      Decode (ev_payload e) = Ok auth ∧ encodedDeliveryRequest (da_Request auth) = Ok (encoded, digest) ∧
      consistent e auth deliveryID attemptID digest).
Proof.
  unfold GetDeliveryAuthorization. do 2 (apply wp_bind, wp_lift; intros [] _). wp_seq.
  destruct (find _ _) as [e|] eqn:Hfind; [|by wp_seq]. apply find_some in Hfind as [He Hev].
  destruct (Decode (ev_payload e)) as [auth|] eqn:Hd; [|wp_seq]. apply wp_bind, wp_lift.
  intros [encoded digest] Henc. case_match eqn:Hc; wp_seq. intros auth' [= <-].
  exists e, encoded, digest. split_and!; [by apply list_elem_of_In|done..|by apply consistent_check].
Qed.

Lemma Get_reads `{!Reliable} st deliveryID attemptID t e auth encoded :
  ValidateDeliveryID deliveryID = Ok tt → ValidateDeliveryAttemptID attemptID = Ok tt →
  forallb pg_text (own st [deliveryAuthorizationAggregateID deliveryID attemptID]) = true →
  find (authorization_event (store_scope st) (deliveryAuthorizationAggregateID deliveryID attemptID))
    (events (stream t)) = Some e →
  Decode (ev_payload e) = Ok auth →
  encodedDeliveryRequest (da_Request auth) = Ok (encoded, da_RequestSHA256 auth) →
  consistent e auth deliveryID attemptID (da_RequestSHA256 auth) →
  twp t (GetDeliveryAuthorization st deliveryID attemptID) (λ o t', o = Some auth ∧ t' = t).
Proof.
  intros Hd Ha Htext Hfind Hdec Henc Hc. unfold GetDeliveryAuthorization.
  apply twp_bind. eapply twp_lift; [exact Hd|]. apply twp_bind. eapply twp_lift; [exact Ha|].
  twp_prim. apply twp_statement; [done|]. twp_prim. apply twp_select. rewrite Hfind, Hdec.
  apply twp_bind. eapply twp_lift; [exact Henc|]. cbn beta iota.
  rewrite (proj2 (consistent_check _ _ _ _ _) Hc). by apply twp_ret.
Qed.

(** The only row that matches is found. *)
Lemma find_only {A} (f : A → bool) (l : list A) (x : A) :
  x ∈ l → f x = true → (∀ y, y ∈ l → f y = true → y = x) → find f l = Some x.
Proof.
  intros Hx Hfx Honly. destruct (find f l) as [y|] eqn:Hfind.
  - apply find_some in Hfind as [Hy Hfy]. f_equal. by apply Honly; [apply list_elem_of_In|].
  - apply list_elem_of_In, (find_none _ _ Hfind) in Hx. congruence.
Qed.

Lemma validated_request request :
  validateDeliveryAuthorizationRequest request = Ok tt → ValidateDeliveryRequest request = Ok tt.
Proof.
  unfold validateDeliveryAuthorizationRequest. destruct registry_err; [done|].
  intros ([encoded digest] & _ & Hok)%res_bind_ok. destruct (request_schema encoded); [done|].
  by destruct (ValidateDeliveryRequest request) as [[]|].
Qed.

Lemma storage_text (s : string) : storage_id s = true → pg_text s = true.
Proof. intros Hs. exact (classes_text _ _ Hs uuid_ascii). Qed.

Lemma aggregate_text st request :
  ValidateDeliveryRequest request = Ok tt →
  RepositoryStorageIdentity (rq_TenantID request) (rq_RepositoryID request) = Ok (store_scope st) →
  forallb pg_text (own st [deliveryAuthorizationAggregateID (rq_DeliveryID request) (rq_AttemptID request)]) = true.
Proof.
  intros [Hd Ha _ _ _ _ _ _ _ _]%ValidateDeliveryRequest_ok. unfold RepositoryStorageIdentity, ValidateRepositoryIdentity.
  intros ([] & ([] & Ht%fail_if_ok & Hr%fail_if_ok)%res_bind_ok & [= Hten Hrep])%res_bind_ok.
  apply orb_false_iff in Ht as [_ Ht%negb_false_iff], Hr as [_ Hr%negb_false_iff]. rewrite Hten in Ht. rewrite Hrep in Hr.
  cbn [own forallb]. rewrite (storage_text _ Ht), (storage_text _ Hr). cbn. rewrite andb_true_r.
  unfold deliveryAuthorizationAggregateID.
  apply (classes_text (deliveryIDPattern ++ cl_lit ":" ++ attemptIDPattern)).
  - refine (match_classes_app deliveryIDPattern _ _ _ Hd _).
    exact (match_classes_app (cl_lit ":") attemptIDPattern ":" _ eq_refl Ha).
  - unfold deliveryIDPattern, attemptIDPattern. rewrite !Forall_app.
    split_and!; first [exact uuid_ascii|by apply literal_ascii].
Qed.

(** ** Theorems *)

(** C23. An authorization is earned: when [AuthorizeDelivery] succeeds and its key was
    not used before, the request is valid, the actor is a human who neither
    writes nor validates the delivery, run and attempt are queued and are those
    of the request, the submission of the run's sprint is approved, and the lease
    of the attempt's scheduler was live while the command ran; the log has grown
    by the one approval event of this delivery and attempt, of which there was
    none before, and by audits. *)
Theorem authorization_earned st request md s auth s' :
  AuthorizeDelivery st request md s = (Ok auth, s') →
  idempotency_keys (canonical (tables s)) !! (tenantID st, authorize_scope st request, IdempotencyKey md) = None →
  da_Request auth = request ∧ da_ApprovedBy auth = ActorID md ∧ ActorType md = "human" ∧
  ActorID md ≠ rq_AuthorID request ∧ ActorID md ≠ rq_ValidatorID request ∧
  validateDeliveryAuthorizationRequest request = Ok tt ∧
  (∃ r a, eligible st request (tables s) r a ∧
     fenced (tables s) (readings s) (readings s') (attempt_lease (repositoryID st) a) (at_worker a) (at_token a)) ∧
  ∃ new e, events (stream (tables s')) = events (stream (tables s)) ++ e :: new ∧
    lawful_approval (tables s) e auth ∧ ev_scope e = store_scope st ∧
    Forall (λ e', ¬ approval e') new ∧
    ∀ e', e' ∈ events (stream (tables s)) → same_version e' e = false.
Proof.
  intros Hrun Hunused.
  destruct (swp_run _ _ _ _ _ (swp_AuthorizeDelivery _ _ _ _) Hrun) as [Hgr|[(rc & Hrc & _) _]]; [|congruence].
  destruct (granted_log _ _ _ _ _ _ Hgr) as (new & Hev & (e & He & Ha & Hnow) & Hnew).
  destruct (Hnew e He Ha) as [_ Hfirst]. destruct new as [|e0 new]; [done|]. injection Hfirst as ->.
  pose proof Hgr as [Hreq Hdig Hby _ Hrows (payload & es & t1 & rc & Hm & Haud & Hg & Ht)].
  destruct (authorizable_ok _ _ _ _ Hdig) as (Hv & Hh & Haut & Hval & _).
  split_and!; try done. exists new, e. split_and!; [done|by eapply approved_lawful| | |apply Hnow].
  - by destruct Hnow as [_ (payload' & id & _ & ->) _].
  - inversion Hg as [|? ? eventID id available ? ? Hf Hid Hg1]; subst.
    destruct (grown_no_approval _ _ _ _ _ Hg1 (audits_types _ Haud)) as (new' & Hev' & Hno).
    rewrite Ht in Hev. cbn in Hev, Hev'. rewrite Hev', <-app_assoc in Hev. apply app_inv_head in Hev.
    injection Hev as _ ->. by apply Forall_forall.
Qed.

(** Approvals bind: in every state that a fresh database reaches, whatever
    [GetDeliveryAuthorization] returns was read from an approval event that one
    human wrote once, for a valid request of the store's repository whose author
    and validator are other people, and the submission of the run's sprint is
    still approved; no second approval of the same delivery and attempt exists. *)
Theorem authorizations_bind s0 s st deliveryID attemptID auth s' :
  fresh (tables s0) → rtc (system anything) s0 s →
  GetDeliveryAuthorization st deliveryID attemptID s = (Ok (Some auth), s') →
  ∃ e original, e ∈ events (stream (tables s)) ∧ ev_scope e = store_scope st ∧
    ev_aggregate e = deliveryAuthorizationAggregateID deliveryID attemptID ∧
    lawful_approval (tables s) e original ∧ Decode (ev_payload e) = Ok auth ∧
    da_ApprovedBy auth = da_ApprovedBy original ∧
    rq_DeliveryID (da_Request auth) = deliveryID ∧ rq_AttemptID (da_Request auth) = attemptID ∧
    (∃ encoded, encodedDeliveryRequest (da_Request auth) = Ok (encoded, da_RequestSHA256 auth)) ∧
    ∀ e', e' ∈ events (stream (tables s)) → approval e' → ev_scope e' = store_scope st →
      ev_aggregate e' = deliveryAuthorizationAggregateID deliveryID attemptID → e' = e.
Proof.
  intros Hf Hs Hrun. destruct (history_approvals_ok _ _ _ Hs (fresh_approvals_ok _ Hf)) as [Hlaw Huniq].
  destruct (wp_run _ _ _ _ _ (wp_Get _ _ _ _) Hrun auth eq_refl) as (e & enc & digest & He & Hev & Hdec & Henc &
    Hh & Hby & _ & Hdel & Hatt & Hdig).
  apply authorization_event_true in Hev as (Hsc & Hap & Hag & _). destruct (Hlaw e He Hap) as [original Horig].
  exists e, original. split_and!; try done.
  - rewrite <-Hby. symmetry. by destruct (la_actor _ _ _ Horig) as (_ & -> & _).
  - exists enc. by rewrite Hdig.
  - intros e' He' Hap' Hsc' Hag'. apply Huniq; try done; congruence.
Qed.

(** C24. An approval is durable: after a first authorization of a request whose texts
    are valid, whatever the system does next, on a server that does not fail
    [GetDeliveryAuthorization] returns exactly what was approved. *)
Theorem authorization_durable `{!Reliable, !AuthorizationLaws} s0 s st request md auth s1 s2 :
  fresh (tables s0) → rtc (system anything) s0 s →
  AuthorizeDelivery st request md s = (Ok auth, s1) →
  idempotency_keys (canonical (tables s)) !! (tenantID st, authorize_scope st request, IdempotencyKey md) = None →
  forallb ValidString (authorization_texts auth) = true →
  rtc (system anything) s1 s2 →
  ∃ s3, GetDeliveryAuthorization st (rq_DeliveryID request) (rq_AttemptID request) s2 = (Ok (Some auth), s3) ∧
    tables s3 = tables s2.
Proof.
  intros Hf Hs Hrun Hunused Htexts Hs'.
  assert (sysstep (ByAuthorization st request md) s s1) as Hstep by by eexists.
  assert (approvals_ok (tables s2)) as [Hlaw Huniq].
  { eapply history_approvals_ok, step_approvals_ok, history_approvals_ok, fresh_approvals_ok; done. }
  destruct (swp_run _ _ _ _ _ (swp_AuthorizeDelivery _ _ _ _) Hrun) as [Hgr|[(rc & Hrc & _) _]]; [|congruence].
  destruct (granted_log _ _ _ _ _ _ Hgr) as (new & Hev & (e & He & Hap & Hnow) & _).
  assert (e ∈ events (stream (tables s2))) as He2.
  { eapply history_log; [exact Hs'|]. rewrite Hev. apply elem_of_app. by right. }
  pose proof (approved_lawful _ _ _ _ _ _ _ Hnow) as Hl.
  destruct Hgr as [<- Hdig Hby Hat _ _].
  destruct (authorizable_ok _ _ _ _ Hdig) as (Hv & Hh & _ & _ & Hscope & Henc).
  destruct Henc as [encoded Henc]. apply validated_request in Hv.
  assert (ev_scope e = store_scope st) as Hsc by by destruct Hnow as [_ (payload & id & _ & ->) _].
  destruct (twp_run (GetDeliveryAuthorization st (rq_DeliveryID (da_Request auth)) (rq_AttemptID (da_Request auth)))
    (λ o t', o = Some auth ∧ t' = tables s2) s2) as (o & s3 & Hrun3 & -> & Ht); [|by exists s3].
  apply (Get_reads st _ _ _ e auth encoded); [..|done|].
  - unfold ValidateDeliveryID. by rewrite (ro_delivery _ (ValidateDeliveryRequest_ok _ Hv)).
  - unfold ValidateDeliveryAttemptID. by rewrite (ro_attempt _ (ValidateDeliveryRequest_ok _ Hv)).
  - by apply aggregate_text.
  - eapply find_only; [exact He2| |].
    + apply authorization_event_true. destruct Hl as [_ [? ?] ? _ _ _ _ _ _]. done.
    + intros e' He' (Hsc' & Hap' & Hag' & _)%authorization_event_true. apply Huniq; try done; [congruence|].
      by rewrite Hag', (la_aggregate _ _ _ Hl).
  - destruct Hat as [n Hat]. apply (authorization_roundtrip auth); [done|by rewrite Hat|apply Hl].
  - destruct Hl as [_ _ _ (? & ? & _) [Ho [n Hn]] _ _ _ _]. split_and!; try done.
    rewrite Ho, Hn. change (postgresTimestamp ?c) with (timestamptz c). by rewrite timestamptz_idem.
Qed.
End system.
