(* ===== verification/PublicationProperties.v ===== *)
(** * Publications in the whole system

    Histories in which any store prepares, completes, recovers, abandons or
    disputes publications, with whatever callbacks, between the commands, stream
    operations, attempts and leases of the rest of the system, while anybody may
    change Git. *)

From S2P Require Import Prelude GoLib Fault Contracts Identity RunState LeasePaths.
From S2P Require Import ControlMemory Governance ControlRefinement AttemptRecords Postgres DeliveryContracts.
From S2P Require Import Leases LeaseSets LeaseSafety.
From S2P Require Import PgTables PgEvents Publications PgLogic PublicationEffects PublicationWorld.
From S2P Require Import PgControl PgEffects PgSample PgRefinement PgStreams.
From S2P Require Import Queue Outbox ProjectionDeliveries RunProjection RunReplay StreamEffects PgSystem.
From S2P Require Import WorkerResults Attempts AttemptEffects Authorizations AuthorizationEffects PgProperties AttemptProperties.

(** ** Operations *)

Inductive publication_op (G : Type) :=
| OpGetPublication (deliveryID attemptID : string)
| OpPrepare (intent : DeliveryPublicationIntent) (leaseSet : LeaseSet)
| OpPublish (intent : DeliveryPublicationIntent) (leaseSet : LeaseSet)
    (revalidate apply : option (M error G unit))
| OpRecover (intent : DeliveryPublicationIntent) (observed : string)
| OpAbandon (intent : DeliveryPublicationIntent) (observe : option (M error G (option string)))
| OpConflict (intent : DeliveryPublicationIntent) (observed : option string).
Arguments OpGetPublication {G}.
Arguments OpPrepare {G}.
Arguments OpPublish {G}.
Arguments OpRecover {G}.
Arguments OpAbandon {G}.
Arguments OpConflict {G}.

Section publishing.
Context `{Clock, Database, TimeText, Sha256, Collation, Json, DeliveryJson} {G : Type}.
Implicit Types (w : World G).

Definition publication_run (st : PgStore) (op : publication_op G)
    : M error (World G) (option DeliveryPublication) :=
  match op with
  | OpGetPublication d a => on_db (GetDeliveryPublication st d a)
  | OpPrepare intent ls => r ← on_db (PrepareDeliveryPublication st intent ls); mret (Some r)
  | OpPublish intent ls revalidate apply =>
      r ← CompleteDeliveryPublication st intent ls revalidate apply; mret (Some r)
  | OpRecover intent observed => r ← on_db (RecoverDeliveryPublication st intent observed); mret (Some r)
  | OpAbandon intent observe => r ← AbandonDeliveryPublication st intent observe; mret (Some r)
  | OpConflict intent observed => r ← on_db (ConflictDeliveryPublication st intent observed); mret (Some r)
  end.

(** What an operation did to the database. *)
Definition journaled (st : PgStore) (t t' : Forja) : Prop := ∃ intent, journal_effect st intent t t'.

Lemma journaled_none st t : ∃ intent, journal_effect st intent t t.
Proof. exists (mkIntent "" "" "" "" "" 0 "" None "" "" "" "" ""). constructor. Qed.

(** A database operation that is safe and whose successes have the effect. *)
Lemma on_db_journaled {A} st intent (m : M error (DB Forja) A) w r w' :
  safe m → swp (db w) m (λ _ s', journal_effect st intent (tables (db w)) (tables s')) →
  on_db m w = (r, w') → journaled st (tables (db w)) (tables (db w')).
Proof.
  intros Hsafe Hm. unfold on_db. destruct (m (db w)) as [r0 s] eqn:Hrun. intros [= -> <-]. cbn.
  destruct r as [a|e].
  - exists intent. exact (swp_run _ _ _ _ _ Hm Hrun).
  - rewrite (Hsafe _ _ _ Hrun). apply journaled_none.
Qed.

Lemma then_some {A} (m : M error (World G) A) (f : A → option DeliveryPublication) w r w' :
  (a ← m; mret (f a)) w = (r, w') → ∃ r0, m w = (r0, w').
Proof. rewrite M_bind_run. destruct (m w) as [[a|e] w1]; intros [= _ <-]; eauto. Qed.

Lemma publication_effect st op w r w' :
  publication_run st op w = (r, w') → journaled st (tables (db w)) (tables (db w')).
Proof.
  destruct op as [d a|intent ls|intent ls rv ap|intent c|intent ob|intent c]; cbn [publication_run].
  - unfold on_db. destruct (GetDeliveryPublication _ _ _ _) as [r0 s] eqn:Hrun. intros [= _ <-]. cbn.
    apply loadDeliveryPublication_reader in Hrun as [-> _]. apply journaled_none.
  - intros [r0 Hrun]%then_some. revert Hrun. apply (on_db_journaled st intent).
    + apply safe_lifted. intros [[[keys proofs] digest] ttl]. apply safe_atomically.
    + apply swp_intro. intros a s' Hrun. exact (proj2 (swp_run _ _ _ _ _ (Prepare_effect _ _ _ _) Hrun)).
  - intros [r0 Hrun]%then_some. destruct r0 as [record|e]; [|apply Complete_err in Hrun as ->; apply journaled_none].
    destruct rv as [rv|], ap as [ap|]; try done. exists intent.
    destruct (wwp_run _ _ _ _ _ (Complete_outcome _ _ _ _ _ _) Hrun) as (_ & _ & [(_ & -> & _)|Hnow]); [constructor|].
    eapply settled_effect, Hnow.
  - intros [r0 Hrun]%then_some. revert Hrun. apply (on_db_journaled st intent).
    + do 3 (apply safe_lifted; intros []). apply safe_atomically.
    + unfold RecoverDeliveryPublication. do 2 (apply swp_bind, swp_lift; intros [] _).
      apply swp_bind, swp_lift. intros [] Hc%fail_if_ok. apply negb_false_iff, bool_decide_eq_true in Hc as ->.
      apply swp_intro. intros a s' Hrun.
      apply (swp_run _ _ _ _ _ (transition_effect _ _ _ _ _ (or_introl (conj eq_refl eq_refl))) Hrun).
  - intros [r0 Hrun]%then_some. destruct r0 as [record|e]; [|apply Abandon_err in Hrun as ->; apply journaled_none].
    destruct ob as [ob|]; [|done]. exists intent.
    destruct (wwp_run _ _ _ _ _ (Abandon_outcome _ _ _ _) Hrun) as (_ & [(_ & -> & _)|(_ & _ & Hs)]); [constructor|].
    by eapply settled_effect.
  - intros [r0 Hrun]%then_some. revert Hrun. apply (on_db_journaled st intent).
    + do 3 (apply safe_lifted; intros []). apply safe_atomically.
    + unfold ConflictDeliveryPublication. do 3 (apply swp_bind, swp_lift; intros [] _). apply swp_intro. intros a s' Hrun.
      apply (swp_run _ _ _ _ _ (transition_effect _ _ _ _ _ (or_intror eq_refl)) Hrun).
Qed.
End publishing.

(** ** Histories *)

Section system.
Context `{Clock, !ClockStarted, Database, Sha256, Json, !Jsonb, Entropy, Sequences, UuidText}.
Context `{!JsonCodec Run, !JsonCodec Sprint, !JsonCodec Decision, !JsonCodec AuditRecord,
          !JsonCodec PlanResult, !JsonCodec SubmissionResult, !JsonCodec DecisionResult}.
Context `{!UuidLaws, !RunCodecLaws, RowLocks, TextOrder, Visits, TimeText, Collation, DeliveryJson}.
Context `{!AttemptCodecs, !JsonCodec WorkerResult, !WorkerContracts, ReportJson, !AuthorizationContracts}.
Context {G : Type}.
Implicit Types (w : World G) (t : Forja) (s : DB Forja) (st : PgStore).
Implicit Types (intent : DeliveryPublicationIntent) (ls : LeaseSet).

Inductive wstep w : World G → Prop :=
| ws_system a s' : sysstep a (db w) s' → wstep w (mkWorld s' (git w))
| ws_publication st op r w' : publication_run st op w = (r, w') → wstep w w'
| ws_git g : wstep w (mkWorld (db w) g).

(** The rows of the journal, whether the table exists or not. *)
Definition rows_of t : Journal := default ∅ (delivery_publications (work t)).

(** Nothing published in a fresh database. *)
Definition unpublished_yet t : Prop := fresh t ∧ rows_of t = ∅.

(** The run of an active publication is where the publication needs it. *)
Definition pinned t (key : PublicationKey) (row : PublicationRow) : Prop :=
  ∃ a r, attempts (work t) !! key.2 = Some a ∧ at_tenant a = key.1.1.1 ∧ at_status a = "succeeded" ∧
    runs (canonical t) !! at_run a = Some r ∧ run_scope r = key.1.1 ∧
    (run_state r = StateValidating ∨ pb_state row = "published" ∧ run_state r = StateCompleted).

Record delivery_ok t : Prop := {
  dk_pg : pg_ok t;
  dk_check : ∀ key row, rows_of t !! key = Some row → publication_check key row = false;
  dk_intent : ∀ key row, rows_of t !! key = Some row → validatePublicationIntent (scanIntent key row) = Ok tt;
  dk_refs : ∀ key key' row row', rows_of t !! key = Some row → rows_of t !! key' = Some row' →
    key.1.1 = key'.1.1 → pb_ref row = pb_ref row' → active row = true → active row' = true → key = key';
  dk_pins : ∀ key row, rows_of t !! key = Some row → active row = true → pinned t key row;
}.

(** *** Steps of the rest of the system *)

Lemma pg_ok_rows t t' :
  runs (canonical t') = runs (canonical t) → sprints (canonical t') = sprints (canonical t) →
  decisions (canonical t') = decisions (canonical t) → pg_ok t → pg_ok t'.
Proof. unfold pg_ok, uuid_keys, view. by intros -> -> ->. Qed.

Lemma command_journal st t t' :
  pg_effect st t t' → delivery_publications (work t') = delivery_publications (work t).
Proof.
  intros [->|md es _ Hg|md key row (es & es' & t1 & t2 & Hp & _ & Hg & _ & ->)]; [done|..].
  - by destruct (grown_canonical _ _ _ _ _ Hg) as [_ ->].
  - destruct (performed_run_write _ _ _ _ _ Hp) as (e & id & row' & _ & _ & _ & _ & Hw1 & _).
    destruct (grown_canonical _ _ _ _ _ Hg) as [_ Hw]. cbn. by rewrite Hw, Hw1.
Qed.

(** Steps other than commands leave runs, sprints and decisions alone. *)
Lemma step_quiet a s s' :
  sysstep a s s' → (∀ st op, a ≠ ByCommand st op) →
  (runs (canonical (tables s')) = runs (canonical (tables s)) ∧
   sprints (canonical (tables s')) = sprints (canonical (tables s)) ∧
   decisions (canonical (tables s')) = decisions (canonical (tables s))) ∧
  delivery_publications (work (tables s')) = delivery_publications (work (tables s)).
Proof.
  destruct a as [st op|st op|st op|op|st request md]; intros [r Hrun] Hne; [by destruct (Hne st op)|..].
  - by apply stream_affects in Hrun as (_ & x & -> & _).
  - apply attempt_outcome in Hrun as [Herr Hres]. destruct r as [[]|e]; [|by rewrite Herr].
    specialize (Hres eq_refl). destruct (attempt_proof op) as [proof|]; [|by rewrite Hres].
    destruct Hres as (_ & _ & _ & [->|(md & ws & t1 & key & rc & [es _ _ _ Hg] & ->)]); [done|].
    destruct (grown_canonical _ _ _ _ _ Hg) as [Hc Hw]. cbn. by rewrite Hc, Hw.
  - apply on_leases_moved in Hrun as [[Hc _ _ Hj _] _]. by rewrite Hc.
  - apply authorization_noted, noted_rows in Hrun as (-> & -> & -> & _ & ->). done.
Qed.

(** While a decision is pending, its run awaits the approval. *)
Lemma pending_awaits t did drow r :
  pg_ok t → decisions (canonical t) !! did = Some drow → de_status drow = DecisionPending →
  runs (canonical t) !! de_run drow = Some r → run_scope r = de_scope drow →
  run_state r = StateAwaitingApproval.
Proof.
  intros [_ Hok] Hd Hp Hr Hsc. specialize (Hok (de_scope drow)).
  assert (g_decisions (view (de_scope drow) t) !! did = Some (scanDecision did drow)) as Hd'
    by (apply lookup_view_decisions; eauto).
  destruct (go_decisions _ Hok _ _ Hd') as (_ & sp & Hsp & Hrun & Hcase).
  destruct Hcase as [(_ & _ & Hst & _)|[Hx _]]; [|cbn in Hx; rewrite Hp in Hx; by destruct Hx].
  destruct (go_sprints _ Hok _ _ Hsp) as (_ & _ & run & Hgr & _ & Hstat).
  apply lookup_view_runs in Hgr as (row & Hrow & _ & ->). rewrite Hrun in Hrow. cbn in Hrow.
  assert (row = r) as -> by congruence.
  destruct Hstat as [Hx|? Hx _ Hr'|? ? Hx|? ? Hx|Hx]; [|exact Hr'|..]; rewrite Hst in Hx; discriminate Hx.
Qed.

Lemma has_publication_intro (sc : Scope) (runID state d a : string) (pubs : Journal) (work0 : Work) row at_ :
  pubs !! (sc, d, a) = Some row → pb_state row = state → attempts work0 !! a = Some at_ →
  at_tenant at_ = sc.1 → at_run at_ = runID → has_publication sc runID state pubs work0 = true.
Proof.
  intros Hrow Hst Ha Ht Hr. unfold has_publication. apply existsb_exists.
  exists ((sc, d, a), row). split; [by apply list_elem_of_In, elem_of_map_to_list|].
  by rewrite Ha, !bool_decide_eq_true_2.
Qed.

(** Why a command may move a run. *)
Definition move_reason (st : PgStore) t (id : RunID) (target : State) : Prop :=
  target = StateAwaitingApproval ∨
  (∃ did drow, decisions (canonical t) !! did = Some drow ∧ de_scope drow = store_scope st ∧
     de_status drow = DecisionPending ∧ de_run drow = id) ∨
  unpublished st id target t.

Lemma performed_move st md t es t1 id r :
  performed st md t es t1 → runs (canonical t) !! id = Some r →
  runs (canonical t1) !! id = Some r ∨
  ∃ target run', run_step st t id r target run' ∧ move_reason st t id target ∧
    runs (canonical t1) !! id = Some (moved_run r run').
Proof.
  assert (∀ (m : gmap RunID RunRow) id' row', id' ≠ id → m !! id = Some r → <[id' := row']> m !! id = Some r) as Hskip
    by (intros; by rewrite lookup_insert_ne).
  assert (∀ id' row0 target run', run_step st t id' row0 target run' → move_reason st t id' target →
    runs (canonical t) !! id = Some r →
    <[id' := moved_run row0 run']> (runs (canonical t)) !! id = Some r ∨
    ∃ target run'0, run_step st t id r target run'0 ∧ move_reason st t id target ∧
      <[id' := moved_run row0 run']> (runs (canonical t)) !! id = Some (moved_run r run'0)) as Hmove.
  { intros id' row0 target run' Hstep Hwhy Hr. destruct (decide (id' = id)) as [->|Hne]; [|left; by apply Hskip].
    right. exists target, run'. assert (row0 = r) as -> by (destruct Hstep; congruence).
    by rewrite lookup_insert_eq. }
  intros Hp Hr. destruct Hp as [run p (Hnew & _)|u sprint run p q _ _ _ _ _ _ _ (Hnew & _)
    |uuid u srow row run' d p q x _ _ _ _ Hstep
    |approve reason did drow u srow row run' p q x Hd Hdsc Hpd _ _ _ _ Hstep
    |id' row target run' q Hstep _ _ _ Hun|id' row run' u srow u' srow' p q Hstep _ _ _ _ _ _ _ sprint _ _ Hun
    |id' row run' q Hstep _ _ Hun]; cbn.
  - left. apply Hskip; [congruence|done].
  - left. apply Hskip; [congruence|done].
  - apply (Hmove _ _ _ _ Hstep); [by left|done].
  - apply (Hmove _ _ _ _ Hstep); [right; left; by exists did, drow|done].
  - apply (Hmove _ _ _ _ Hstep); [by right; right|done].
  - apply (Hmove _ _ _ _ Hstep); [by right; right|done].
  - apply (Hmove _ _ _ _ Hstep); [by right; right|done].
Qed.

(** A command moves the run of an active publication only to its completion. *)
Lemma performed_pins st md t es t1 (key : PublicationKey) row a r :
  pg_ok t → performed st md t es t1 → rows_of t !! key = Some row → active row = true →
  attempts (work t) !! key.2 = Some a → at_tenant a = key.1.1.1 →
  runs (canonical t) !! at_run a = Some r → run_scope r = key.1.1 →
  run_state r = StateValidating ∨ pb_state row = "published" ∧ run_state r = StateCompleted →
  ∃ r', runs (canonical t1) !! at_run a = Some r' ∧ run_scope r' = key.1.1 ∧
    (run_state r' = StateValidating ∨ pb_state row = "published" ∧ run_state r' = StateCompleted).
Proof.
  intros Hok Hp Hrow Hact Ha Ht Hr Hsc Hst.
  destruct (performed_move _ _ _ _ _ _ _ Hp Hr) as [Hsame|(target & run' & [_ Hs Hct (n & ->) _ _] & Hwhy & Hr')].
  { by exists r. }
  eexists. split; [exact Hr'|]. cbn. split; [done|].
  destruct Hst as [Hst|[_ Hst]]; rewrite Hst in Hct.
  2: { by destruct (CanTransition_phases _ _ Hct) as (p & q & _ & <-); destruct q. }
  destruct Hwhy as [->|[(did & drow & Hd & Hdsc & Hpd & Hdr)|Hun]]; [done| |].
  - rewrite <-Hdr in Hr. assert (run_state r = StateAwaitingApproval) as Hx
      by (eapply pending_awaits; [done..|congruence]). rewrite Hst in Hx. discriminate Hx.
  - unfold rows_of in Hrow. destruct (delivery_publications (work t)) as [pubs|] eqn:Hj; [|done].
    destruct (Hun _ Hj) as [Hno Hyes]. destruct key as [[sc d] aid]. cbn in *. subst sc. rewrite Hs in Hrow, Ht.
    unfold active in Hact. apply bool_decide_eq_true in Hact. apply elem_of_cons in Hact as [Hprep|Hact].
    + assert (has_publication (store_scope st) (at_run a) "prepared" pubs (work t) = true) as Hx
        by (by apply (has_publication_intro _ _ _ d aid _ _ row a)). rewrite Hx in Hno. discriminate Hno.
    + apply list_elem_of_singleton in Hact. right. split; [done|]. apply Hyes.
      by apply (has_publication_intro _ _ _ d aid _ _ row a).
Qed.
(** *** The invariant *)

Lemma rows_set_journal t (pubs : Journal) (f : Journal → Journal) :
  delivery_publications (work t) = Some pubs → rows_of (set_journal f t) = f pubs.
Proof. intros Hj. unfold rows_of, set_journal. cbn. by rewrite Hj. Qed.

Lemma system_delivery_ok a s s' : sysstep a s s' → delivery_ok (tables s) → delivery_ok (tables s').
Proof.
  intros Hstep [Hpg Hchk Hint Hrefs Hpins].
  assert (pg_ok (tables s') ∧ delivery_publications (work (tables s')) = delivery_publications (work (tables s)) ∧
    ∀ key row at_ r, rows_of (tables s) !! key = Some row → active row = true →
      attempts (work (tables s)) !! key.2 = Some at_ → at_tenant at_ = key.1.1.1 →
      runs (canonical (tables s)) !! at_run at_ = Some r → run_scope r = key.1.1 →
      run_state r = StateValidating ∨ pb_state row = "published" ∧ run_state r = StateCompleted →
      ∃ r', runs (canonical (tables s')) !! at_run at_ = Some r' ∧ run_scope r' = key.1.1 ∧
        (run_state r' = StateValidating ∨ pb_state row = "published" ∧ run_state r' = StateCompleted)) as (Hpg' & Hj & Hkeep).
  { destruct a as [st op|st op|st op|op|st request md].
    - destruct Hstep as [r Heff%perform_effect]. split_and!; [by eapply pg_effect_ok|by eapply command_journal|].
      intros key row at_ r0 Hrow Hact Ha Ht Hr Hsc Hst.
      destruct Heff as [->|md es _ Hg|md k rc (es & es' & t1 & t2 & Hp & _ & Hg & _ & ->)].
      + eauto.
      + destruct (grown_canonical _ _ _ _ _ Hg) as [-> _]. eauto.
      + destruct (grown_canonical _ _ _ _ _ Hg) as [Hc _]. cbn. rewrite Hc. by eapply performed_pins.
    - destruct (step_quiet _ _ _ Hstep) as ((Hr & Hs & Hd) & Hj); [done|]. rewrite Hr.
      split_and!; [by eapply pg_ok_rows|done|eauto].
    - destruct (step_quiet _ _ _ Hstep) as ((Hr & Hs & Hd) & Hj); [done|]. rewrite Hr.
      split_and!; [by eapply pg_ok_rows|done|eauto].
    - destruct (step_quiet _ _ _ Hstep) as ((Hr & Hs & Hd) & Hj); [done|]. rewrite Hr.
      split_and!; [by eapply pg_ok_rows|done|eauto].
    - destruct (step_quiet _ _ _ Hstep) as ((Hr & Hs & Hd) & Hj); [done|]. rewrite Hr.
      split_and!; [by eapply pg_ok_rows|done|eauto]. }
  assert (rows_of (tables s') = rows_of (tables s)) as Hrows by (unfold rows_of; by rewrite Hj).
  split; rewrite ?Hrows; [done..|]. intros key row Hrow Hact.
  destruct (Hpins key row Hrow Hact) as (at_ & r & Ha & Ht & Hs & Hr & Hsc & Hst).
  destruct (Hkeep key row at_ r) as (r' & Hr' & Hsc' & Hst'); [done..|].
  exists at_, r'. split_and!; [|done..]. eapply step_terminal; [done..|]. rewrite Hs. set_solver.
Qed.

Lemma insert_fault_ok (key : PublicationKey) (row : PublicationRow) (pubs : Journal) t :
  publication_insert_fault key row pubs t = None →
  publication_check key row = false ∧ pubs !! key = None ∧
  (active row = true → active_ref key.1.1 (pb_ref row) pubs = false).
Proof.
  unfold publication_insert_fault. rewrite first_fault_None. intros Hf.
  apply Forall_cons in Hf as [_ Hf]. apply Forall_cons in Hf as [Hc Hf]. apply Forall_cons in Hf as [Hu _].
  apply violated_None in Hc, Hu. apply orb_false_iff in Hu as [Hnew Href]. split_and!; [done| |].
  - apply bool_decide_eq_false in Hnew. by apply eq_None_not_Some.
  - intros Ha. by rewrite Ha in Href.
Qed.

Lemma check_published (key : PublicationKey) (row : PublicationRow) :
  publication_check key row = false → pb_state row = "published" → pb_observed row = Some (pb_result row).
Proof.
  destruct key as [[sc d] a]. unfold publication_check. intros Hc Hst. apply orb_false_iff in Hc as [_ Hc].
  rewrite Hst, bool_decide_eq_true_2 in Hc by done. apply negb_false_iff, andb_true_iff in Hc as [_ Ho].
  by apply bool_decide_eq_true in Ho.
Qed.

Lemma active_ref_false (sc : Scope) (ref : string) (pubs : Journal) (key : PublicationKey) (row : PublicationRow) :
  active_ref sc ref pubs = false → pubs !! key = Some row → key.1.1 = sc → pb_ref row = ref → active row = false.
Proof.
  intros Hno Hrow Hsc Href. destruct (active row) eqn:Ha; [|done]. exfalso. revert Hno. apply not_false_iff_true.
  unfold active_ref. apply existsb_exists. exists (key, row). split; [by apply list_elem_of_In, elem_of_map_to_list|].
  destruct key as [[sc' d] a]. cbn in *. by rewrite Ha, !bool_decide_eq_true_2.
Qed.
(** The row an effect leaves under a key, if it is not the row from before. *)
Lemma journal_delivery_ok st intent t t' : journal_effect st intent t t' → delivery_ok t → delivery_ok t'.
Proof.
  intros Heff [Hpg Hchk Hint Hrefs Hpins].
  destruct Heff as [|pubs p u Hv Hs Hj Hready Hf|pubs row state observed published u Hj Hrow Hscan Hst Hfin Hc]; [by split|..];
    pose proof (rows_set_journal t pubs) as Hset; unfold rows_of in Hchk, Hint, Hrefs, Hpins; rewrite Hj in Hchk, Hint, Hrefs, Hpins;
    cbn [default] in Hchk, Hint, Hrefs, Hpins.
  - apply insert_fault_ok in Hf as (Hc & Hnew & Href). specialize (Href eq_refl).
    apply Build_delivery_ok; [done|..]; rewrite (Hset _ Hj).
    + intros key row [[<- <-]|[_ Hold]]%lookup_insert_Some; [done|by apply Hchk].
    + intros key row [[<- <-]|[_ Hold]]%lookup_insert_Some; [by rewrite scan_prepared|by apply Hint].
    + assert (∀ key' row', pubs !! key' = Some row' → (intent_key st intent).1.1 = key'.1.1 →
        pi_PublicationRef intent = pb_ref row' → active row' = true → False) as Hno.
      { intros key' row' Hold Hsc Hr Ha. by rewrite (active_ref_false _ _ _ _ _ Href Hold (eq_sym Hsc) (eq_sym Hr)) in Ha. }
      intros key key' row row' [[<- <-]|[_ H1']]%lookup_insert_Some [[<- <-]|[_ H2']]%lookup_insert_Some Hsc Hr Ha Ha';
        [done|by destruct (Hno _ _ H2')|by destruct (Hno _ _ H1')|by eapply Hrefs].
    + intros key row [[<- <-]|[_ Hold]]%lookup_insert_Some Hact; [|by apply Hpins].
      destruct Hready as (a & r & ? & ? & ? & ? & ? & ?). exists a, r. split_and!; [done..|by left].
  - set (row' := moved_publication row state observed published u) in *.
    assert (∀ k r, <[intent_key st intent := row']> pubs !! k = Some r → active r = true →
      ∃ r0, pubs !! k = Some r0 ∧ active r0 = true ∧ pb_ref r0 = pb_ref r ∧
        (r0 = r ∨ k = intent_key st intent ∧ r = row' ∧ r0 = row)) as Hold.
    { intros k r [[<- <-]|[_ Hk]]%lookup_insert_Some Hact; [|by eauto 10]. exists row. split_and!; [done| |done|by auto].
      unfold active. by rewrite Hst. }
    apply Build_delivery_ok; [done|..]; rewrite (Hset _ Hj).
    + intros key r [[<- <-]|[_ Hk]]%lookup_insert_Some; [done|by apply Hchk].
    + intros key r [[<- <-]|[_ Hk]]%lookup_insert_Some; [|by apply Hint]. by apply (Hint _ _ Hrow).
    + intros key key' r r' H1' H2' Hsc Hr Ha Ha'.
      destruct (Hold _ _ H1' Ha) as (r0 & ? & ? & Hr0 & _), (Hold _ _ H2' Ha') as (r0' & ? & ? & Hr0' & _).
      apply (Hrefs key key' r0 r0'); try done. congruence.
    + intros key r Hk Ha. destruct (Hold _ _ Hk Ha) as (r0 & Hr0 & Ha0 & _ & Hcase).
      destruct (Hpins _ _ Hr0 Ha0) as (a & run & ? & ? & ? & ? & ? & Hwhere). exists a, run. split_and!; [done..|].
      destruct Hcase as [->|(-> & -> & ->)]; [done|]. left. destruct Hwhere as [?|[Hx _]]; [done|congruence].
Qed.

Lemma unpublished_yet_ok t : unpublished_yet t → delivery_ok t.
Proof.
  intros [Hf Hrows]. split; rewrite ?Hrows; try by intros *; rewrite lookup_empty.
  apply unused_ok, fresh_unused, Hf.
Qed.

Lemma wstep_ok w w' : wstep w w' → delivery_ok (tables (db w)) → delivery_ok (tables (db w')).
Proof.
  destruct 1 as [a s' Hstep|st op r w' Hrun|g]; cbn; [by eapply system_delivery_ok| |done].
  apply publication_effect in Hrun as [intent Heff]. by eapply journal_delivery_ok.
Qed.

Lemma history_delivery_ok w w' : rtc wstep w w' → delivery_ok (tables (db w)) → delivery_ok (tables (db w')).
Proof.
  intros Hs Hok. revert Hs. apply (rtc_invariant _ (λ w, delivery_ok (tables (db w)))); [|done].
  intros w1 w2 Hok1 Hstep. by eapply wstep_ok.
Qed.
(** *** One step of the journal *)

(** The columns that are written once. *)
Definition same_intent (row row' : PublicationRow) : Prop :=
  ∃ state observed published updated, row' = moved_publication row state observed published updated.

Lemma same_intent_refl row : same_intent row row.
Proof. exists (pb_state row), (pb_observed row), (pb_published row), (pb_updated row). by destruct row. Qed.

Lemma same_intent_trans r1 r2 r3 : same_intent r1 r2 → same_intent r2 r3 → same_intent r1 r3.
Proof. intros (s1 & o1 & p1 & u1 & ->) (s2 & o2 & p2 & u2 & ->). by exists s2, o2, p2, u2. Qed.

Lemma step_rows_of a s s' : sysstep a s s' → rows_of (tables s') = rows_of (tables s).
Proof.
  intros Hstep. unfold rows_of. destruct a as [st op|st op|st op|op|st request md]; [|by rewrite (proj2 (step_quiet _ _ _ Hstep ltac:(done)))..].
  destruct Hstep as [r Heff%perform_effect]. by rewrite (command_journal _ _ _ Heff).
Qed.

(** A row stays, or a publication operation moves it out of [prepared]. *)
Definition row_moves (row row' : PublicationRow) : Prop :=
  row' = row ∨ pb_state row = "prepared" ∧ same_intent row row' ∧ final row (pb_state row') (pb_observed row').

Lemma wstep_row w w' (key : PublicationKey) (row : PublicationRow) :
  wstep w w' → rows_of (tables (db w)) !! key = Some row →
  ∃ row', rows_of (tables (db w')) !! key = Some row' ∧ row_moves row row'.
Proof.
  intros Hstep Hrow. destruct Hstep as [a s' Hstep|st op r w' Hrun|g]; cbn.
  - exists row. rewrite (step_rows_of _ _ _ Hstep). by split; [|left].
  - apply publication_effect in Hrun as [intent Heff].
    destruct Heff as [|pubs p u Hv Hs Hj Hready Hf|pubs row0 state observed published u Hj Hrow0 Hscan Hst Hfin Hc].
    + exists row. by split; [|left].
    + rewrite (rows_set_journal _ pubs) by done. unfold rows_of in Hrow. rewrite Hj in Hrow. cbn in Hrow.
      apply insert_fault_ok in Hf as (_ & Hnew & _). exists row. split; [|by left].
      rewrite lookup_insert_ne; [done|]. intros <-. congruence.
    + rewrite (rows_set_journal _ pubs) by done. unfold rows_of in Hrow. rewrite Hj in Hrow. cbn in Hrow.
      destruct (decide (intent_key st intent = key)) as [<-|Hne].
      * assert (row0 = row) as -> by congruence. eexists. rewrite lookup_insert_eq. split; [done|]. right.
        split_and!; [done|by exists state, observed, published, u|done].
      * exists row. rewrite lookup_insert_ne by done. by split; [|left].
  - exists row. by split; [|left].
Qed.

(** ** Properties *)

(** C25. A delivery that is prepared or published pins its run. In every history of
    the whole system, whatever the callbacks do and whoever changes Git, the
    attempt of such a publication exists and has succeeded, and its run, in the
    same repository, is being validated; only the run of a published delivery may
    have gone on, and only to its completion. So no command cancels, fails or
    requeues a run underneath its publication. *)
Theorem publication_pins_run w0 w (sc : Scope) (deliveryID attemptID : string) (row : PublicationRow) :
  unpublished_yet (tables (db w0)) → rtc wstep w0 w →
  rows_of (tables (db w)) !! (sc, deliveryID, attemptID) = Some row →
  pb_state row = "prepared" ∨ pb_state row = "published" →
  ∃ a r, attempts (work (tables (db w))) !! attemptID = Some a ∧ at_tenant a = sc.1 ∧
    at_status a = "succeeded" ∧ runs (canonical (tables (db w))) !! at_run a = Some r ∧
    run_scope r = sc ∧
    (run_state r = StateValidating ∨ pb_state row = "published" ∧ run_state r = StateCompleted).
Proof.
  intros Hf Hs Hrow Hst. assert (delivery_ok (tables (db w))) as Hok
    by (by eapply history_delivery_ok, unpublished_yet_ok).
  apply (dk_pins _ Hok _ _ Hrow). unfold active. apply bool_decide_eq_true. set_solver.
Qed.

(** Every row of the journal is lawful. Its intent, read back from the row, still
    passes the validation it was entered under, so the digests bind the receipt
    and the identity; it satisfies the constraints of the table, so a published
    row has observed exactly its result commit; and of the deliveries that are
    prepared or published, no two of a repository name the same reference. *)
Theorem journal_rows_lawful w0 w (key : PublicationKey) (row : PublicationRow) :
  unpublished_yet (tables (db w0)) → rtc wstep w0 w → rows_of (tables (db w)) !! key = Some row →
  validatePublicationIntent (scanIntent key row) = Ok tt ∧ publication_check key row = false ∧
  (pb_state row = "published" → pb_observed row = Some (pb_result row)) ∧
  ∀ key' row', rows_of (tables (db w)) !! key' = Some row' → key'.1.1 = key.1.1 →
    pb_ref row' = pb_ref row → active row = true → active row' = true → key' = key.
Proof.
  intros Hf Hs Hrow. assert (delivery_ok (tables (db w))) as [_ Hchk Hint Hrefs _]
    by (by eapply history_delivery_ok, unpublished_yet_ok).
  split_and!; [by apply Hint|by apply Hchk| |].
  - intros Hst. specialize (Hchk _ _ Hrow). by eapply check_published.
  - intros key' row' Hrow' Hsc Href Ha Ha'. by apply (Hrefs key' key row' row).
Qed.

(** C27. The journal only moves forward. Along any history no row disappears, what a
    row says about its intent never changes, and a row that was published,
    abandoned or marked as a conflict stays exactly as it is. *)
Theorem journal_moves_forward w w' (key : PublicationKey) (row : PublicationRow) :
  rtc wstep w w' → rows_of (tables (db w)) !! key = Some row →
  ∃ row', rows_of (tables (db w')) !! key = Some row' ∧ same_intent row row' ∧
    (pb_state row ≠ "prepared" → row' = row) ∧
    (row' = row ∨ final row (pb_state row') (pb_observed row')).
Proof.
  intros Hs. revert row. induction Hs as [w|w w1 w' Hstep _ IH]; intros row Hrow.
  { exists row. split_and!; [done|apply same_intent_refl|done|by left]. }
  destruct (wstep_row _ _ _ _ Hstep Hrow) as (row1 & Hrow1 & [->|(Hst & Hsame & Hfin)]); [by apply IH|].
  destruct (IH row1 Hrow1) as (row' & Hrow' & Hsame' & Hfixed & _). exists row'.
  assert (row' = row1) as ->.
  { apply Hfixed. intros Hx. destruct Hfin as [[Hy _]|[[Hy _]|Hy]]; rewrite Hx in Hy; discriminate Hy. }
  split_and!; [done|done|done|by right].
Qed.

(** C26. A first publication is fenced. When completing a delivery succeeds and its
    row was not published already, the two callbacks succeeded one after the
    other, exactly once; the attempt had succeeded and its run was being
    validated; at a reading of the server clock within the transaction every
    fence of the receipt was a stored lease of the set's owner under the same
    token, lasting at least another 40 seconds; and the one row that changed is
    the prepared row of this very intent, which now is published at the result
    commit. A completion that succeeds for a row that was published already is a
    replay: neither the tables nor Git changed. *)
Theorem publication_is_fenced st intent ls revalidate apply w record w' :
  CompleteDeliveryPublication st intent ls (Some revalidate) (Some apply) w = (Ok record, w') →
  dp_Intent record = intent ∧ dp_State record = "published" ∧
  (already st intent ["published"] (tables (db w)) ∧ tables (db w') = tables (db w) ∧ git w' = git w ∨
   (∃ g, revalidate (git w) = (Ok tt, g) ∧ apply g = (Ok tt, git w')) ∧
   publishable st (pi_AttemptID intent) (tables (db w)) ∧
   (∃ i, readings (db w) ≤ i < readings (db w') ∧
      in_force st intent ls minimumPublicationAuthorityTimeRemaining (tables (db w)) i) ∧
   settled st intent "published" (Some (pi_ResultCommit intent)) (tables (db w)) (tables (db w'))).
Proof.
  intros Hrun. destruct (wwp_run _ _ _ _ _ (Complete_outcome _ _ _ _ _ _) Hrun) as (Hi & Hst & [Hold|[Hg Hr Hl Hs]]).
  - split_and!; [done..|by left].
  - split_and!; [done..|by right].
Qed.

(** *** Recovery *)

Lemma check_moved (key : PublicationKey) (row : PublicationRow) (p u : Time) :
  publication_check key row = false → pb_state row = "prepared" →
  publication_check key (moved_publication row "published" (Some (pb_result row)) (Some p) u) = false.
Proof.
  destruct key as [[sc d] a]. unfold publication_check. intros Hc _.
  cbn [moved_publication pb_lease_set pb_ttl_ms pb_ref pb_previous pb_result pb_authority_sha pb_receipt_sha
       pb_intent_sha pb_receipt pb_state pb_observed pb_published] in *.
  repeat match type of Hc with (_ || _) = false => let Hx := fresh "Hx" in apply orb_false_iff in Hc as [Hc Hx] end.
  rewrite !orb_false_iff. split_and!; try done.
  - by rewrite !bool_decide_eq_true_2.
Qed.

Lemma twp_load `{!Reliable} st (d a : string) t (pubs : Journal) (row : PublicationRow) (Q : option DeliveryPublication → Forja → Prop) :
  forallb pg_text (own st [d; a]) = true → delivery_publications (work t) = Some pubs →
  pubs !! publication_key st d a = Some row → pb_published row = None →
  Q (Some (mkPublication (scanIntent (publication_key st d a) row) (pb_state row) (pb_observed row)
             (UTC (pb_prepared row)) None (UTC (pb_updated row)))) t →
  twp t (loadDeliveryPublication st d a) Q.
Proof.
  intros Htext Hj Hrow Hp HQ. unfold loadDeliveryPublication, journal. twp_seq. apply twp_statement; [done|].
  twp_seq. rewrite Hj. twp_seq. rewrite Hrow, Hp. by twp_seq.
Qed.

Lemma exact_refl intent : exactPublicationIntent intent intent = Ok tt.
Proof.
  unfold exactPublicationIntent, optionalStringEqual. rewrite !bool_decide_eq_true_2, Z.eqb_refl by done. done.
Qed.

Lemma unpublished_row (key : PublicationKey) (row : PublicationRow) :
  publication_check key row = false → pb_state row = "prepared" → pb_published row = None.
Proof.
  destruct key as [[sc d] a]. unfold publication_check. intros Hc Hst. apply orb_false_iff in Hc as [_ Hc].
  rewrite Hst, bool_decide_eq_false_2 in Hc by done. apply negb_false_iff, bool_decide_eq_true in Hc. exact Hc.
Qed.

Lemma recover_total `{!Reliable} st intent t (pubs : Journal) (row : PublicationRow) (at_ : Time) :
  delivery_ok t → delivery_publications (work t) = Some pubs → pubs !! intent_key st intent = Some row →
  scanIntent (intent_key st intent) row = intent → pb_state row = "prepared" →
  publicationReceiptTime intent = Ok at_ →
  forallb pg_text (own st [pi_DeliveryID intent; pi_AttemptID intent]) = true →
  twp t (RecoverDeliveryPublication st intent (pi_ResultCommit intent)) (λ record t',
    dp_Intent record = intent ∧ dp_State record = "published" ∧
    dp_ObservedCommit record = Some (pi_ResultCommit intent) ∧ dp_PublishedAt record = Some at_ ∧
    ∃ p u, t' = set_journal <[intent_key st intent :=
      moved_publication row "published" (Some (pb_result row)) (Some p) u]> t).
Proof.
  intros Hok Hj Hrow Hscan Hst Hat Htext.
  assert (rows_of t !! intent_key st intent = Some row) as Hrow' by (unfold rows_of; by rewrite Hj).
  pose proof (dk_check _ Hok _ _ Hrow') as Hc. pose proof (unpublished_row _ _ Hc Hst) as Hp.
  pose proof (dk_intent _ Hok _ _ Hrow') as Hv. rewrite Hscan in Hv.
  assert (pi_ResultCommit intent = pb_result row) as Hres by (by rewrite <-Hscan).
  unfold RecoverDeliveryPublication. apply twp_bind, (twp_lift _ _ tt); [done|].
  apply twp_bind, (twp_lift _ _ tt).
  { rewrite <-Hscan. unfold validatePublicationScope, intent_key, publication_key, store_scope. cbn.
    by rewrite !bool_decide_eq_true_2. }
  apply twp_bind, (twp_lift _ _ tt); [by rewrite bool_decide_eq_true_2|].
  unfold transitionPublicationWithoutLease, lockPublication, lockPublicationAdvisory. twp_seq.
  apply (twp_load _ _ _ _ pubs row); [done..|]. fold (intent_key st intent). rewrite Hscan.
  apply twp_bind, (twp_lift _ _ tt); [apply exact_refl|]. cbn [dp_State dp_ObservedCommit dp_Intent dp_PreparedAt dp_PublishedAt].
  rewrite Hst. rewrite (bool_decide_eq_false_2 ("prepared" = "published")) by done. cbn [andb].
  rewrite bool_decide_eq_true_2 by done. cbn [negb]. rewrite bool_decide_eq_true_2 by done.
  apply twp_bind, (twp_lift _ _ at_); [done|]. unfold update_publication, journal. twp_seq.
  apply twp_statement; [done|]. twp_seq. rewrite Hj. twp_seq. fold (intent_key st intent). rewrite Hrow, Hst.
  rewrite bool_decide_eq_true_2 by done. twp_seq. rewrite Hres. apply twp_checked; [by rewrite check_moved|]. twp_seq.
  cbn. split_and!; [done..|by eexists _, _].
Qed.

(** The crash window is closed. When completing a publication fails, at whatever
    point and whatever the callbacks did to Git, the journal is as before; and from
    every reachable state in which the row of the intent is prepared, on a server
    that does not fail, recovery with the result commit as the observation
    succeeds: it answers the published record of this intent with the time its
    receipt names, and the row, and nothing else, becomes published. *)
Theorem crash_window_recovers `{!Reliable} w0 w w' st intent ls revalidate apply e (row : PublicationRow) (at_ : Time) :
  unpublished_yet (tables (db w0)) → rtc wstep w0 w →
  rows_of (tables (db w)) !! intent_key st intent = Some row →
  scanIntent (intent_key st intent) row = intent → pb_state row = "prepared" →
  publicationReceiptTime intent = Ok at_ →
  forallb pg_text (own st [pi_DeliveryID intent; pi_AttemptID intent]) = true →
  CompleteDeliveryPublication st intent ls revalidate apply w = (Err e, w') →
  tables (db w') = tables (db w) ∧
  ∃ record s, RecoverDeliveryPublication st intent (pi_ResultCommit intent) (db w') = (Ok record, s) ∧
    dp_Intent record = intent ∧ dp_State record = "published" ∧
    dp_ObservedCommit record = Some (pi_ResultCommit intent) ∧ dp_PublishedAt record = Some at_ ∧
    ∃ p u, tables s = set_journal <[intent_key st intent :=
      moved_publication row "published" (Some (pb_result row)) (Some p) u]> (tables (db w)).
Proof.
  intros Hf Hs Hrow Hscan Hst Hat Htext Hrun%Complete_err. split; [done|].
  assert (delivery_ok (tables (db w))) as Hok by (by eapply history_delivery_ok, unpublished_yet_ok).
  unfold rows_of in Hrow. destruct (delivery_publications _) as [pubs|] eqn:Hj; [|done].
  pose proof (recover_total _ _ _ _ _ _ Hok Hj Hrow Hscan Hst Hat Htext) as Htwp. rewrite <-Hrun in Htwp.
  destruct (twp_run _ _ _ Htwp) as (record & s & Hrec & ? & ? & ? & ? & p & u & Ht). exists record, s.
  rewrite Hrun in Ht. split_and!; [done..|by exists p, u].
Qed.
End system.
