(* ===== verification/SystemSample.v ===== *)
(** * A concrete session of dispatchers and projectors

    The session of [PgSample] goes on: a projector registers, workers claim,
    publish, fail and lose claims. The witnesses of the system properties
    evaluate on it. *)

From S2P Require Import Prelude GoLib Fault Contracts Identity RunState.
From S2P Require Import ControlMemory Governance ControlRefinement AttemptRecords Postgres.
From S2P Require Import Leases LeaseSets LeaseSafety.
From S2P Require Import PgTables PgEvents PgLogic PgControl PgEffects PgSample PgRefinement PgStreams.
From S2P Require Import Queue Outbox ProjectionDeliveries RunProjection RunReplay StreamEffects PgSystem PgProperties.
From S2P Require Import WorkerResults Attempts AttemptEffects DeliveryContracts DeliverySample Authorizations AuthorizationEffects.

Module Session.
Import Sample.

#[export] Instance reliable_server : Reliable.
Proof. done. Qed.
#[export] Instance clock_late : ClockStarted.
Proof. intros n. unfold clock_reading, clock. cbn. unfold Millisecond, Microsecond. lia. Qed.
#[export] Instance run_laws : RunCodecLaws.
Proof. by intros r j _ _ _ [= <-]. Qed.
#[export] Instance unlocked : RowLocks := λ _ _, false.
#[export] Instance order : TextOrder := λ a b, (countable.encode a <=? countable.encode b)%positive.
#[export] Instance order_laws : TextOrderLaws.
Proof.
  split; unfold text_le, order; intros *; rewrite ?Pos.leb_le; [lia|lia|].
  intros Hab Hba. apply (inj countable.encode). lia.
Qed.
#[export] Instance in_order : Visits := λ l, l.
#[export] Instance all_visited : VisitsAll.
Proof. intros l. reflexivity. Qed.

#[export] Instance time_text : TimeText := λ _, "".
#[export] Instance key_order : Collation := λ a b,
  (countable.encode a <=? countable.encode b)%positive.
#[export] Instance contracts : WorkerContracts := {
  registry_err := None; worker_result_schema _ := None }.
#[export] Instance reports : ReportJson := λ _, "null".
#[export] Instance deliveries_encoding : DeliveryJson := DeliverySample.Documents.encoding.
#[export] Instance authorizations : AuthorizationContracts := {
  authorization_codec := {|
    Marshal a := Ok (DocAuthorization (da_Request a) (da_RequestSHA256 a) (da_ApprovedBy a) (da_ApprovedAt a));
    Decode j := match j with DocAuthorization r d b a => Ok (mkAuthorization r d b a) | _ => Err mismatch end |};
  request_schema _ := None }.

Definition projector : string := "reader".
Definition hash : string := string_of (replicate 32 (chr 7)).

Definition stream_go (op : stream_op) (s : DB Forja) : DB Forja := (stream_run store op s).2.

Definition register : stream_op := OpEnsure projector hash.
Definition claim_outbox : stream_op := OpClaim OutboxQueue "w1" 10 Second.
Definition claim_ledger : stream_op := OpClaim (Ledger projector) "w2" 10 Second.
Definition publish_outbox : stream_op := OpComplete OutboxQueue 1 "w1" 1.
Definition publish_ledger : stream_op := OpComplete (Ledger projector) 1 "w2" 1.
(** A claim that lasts for a millisecond, the time between two readings. *)
Definition brief_claim : stream_op := OpClaim OutboxQueue "w0" 10 Millisecond.

Definition u1 : DB Forja := stream_go register s1.
Definition u2 : DB Forja := stream_go claim_outbox u1.
Definition u3 : DB Forja := stream_go publish_outbox u2.
Definition u4 : DB Forja := stream_go claim_ledger u3.
Definition u5 : DB Forja := stream_go publish_ledger u4.
(** The other way on: two brief claims in a row. *)
Definition b1 : DB Forja := stream_go brief_claim u1.
Definition b2 : DB Forja := stream_go brief_claim b1.

Lemma s0_fresh : fresh (tables s0).
Proof. by split. Qed.

Lemma gone op s : stream_run store op s = ((stream_run store op s).1, stream_go op s).
Proof. unfold stream_go. by destruct (stream_run store op s). Qed.

Lemma planned (P : action → Prop) : P (ByCommand store plan) → rtc (system P) s0 s1.
Proof. intros HP. apply rtc_once. exists (ByCommand store plan). split; [done|]. eexists. apply ran. Qed.

Lemma streamed (P : action → Prop) op s a : P (ByStream store op) → a = stream_go op s → rtc (system P) s a.
Proof. intros HP ->. apply rtc_once. exists (ByStream store op). split; [done|]. eexists. apply gone. Qed.

(** The whole session uses no rebuild. *)
Lemma session (P : action → Prop) :
  P (ByCommand store plan) → (∀ op, op ∈ [register; claim_outbox; publish_outbox; claim_ledger; publish_ledger] →
    P (ByStream store op)) → rtc (system P) s0 u5 ∧ rtc (system P) s0 u1.
Proof.
  intros Hc Hs. assert (rtc (system P) s0 u1) as Hu1.
  { etrans; [by apply planned|]. apply (streamed P register); [apply Hs; set_solver|done]. }
  split; [|done]. etrans; [exact Hu1|].
  etrans; [apply (streamed P claim_outbox _ u2); [apply Hs; set_solver|done]|].
  etrans; [apply (streamed P publish_outbox _ u3); [apply Hs; set_solver|done]|].
  etrans; [apply (streamed P claim_ledger _ u4); [apply Hs; set_solver|done]|].
  apply (streamed P publish_ledger); [apply Hs; set_solver|done].
Qed.

Lemma at_u1 : rtc (system anything) s0 u1.
Proof. by apply session. Qed.
Lemma at_u2 : rtc (system anything) s0 u2.
Proof. etrans; [exact at_u1|]. by apply (streamed _ claim_outbox). Qed.
Lemma at_u3 : rtc (system anything) s0 u3.
Proof. etrans; [exact at_u2|]. by apply (streamed _ publish_outbox). Qed.
Lemma at_u5 : rtc (system anything) s0 u5.
Proof. by apply session. Qed.

(** ** Schedulers *)

Definition main_key : LeaseKey := mkLeaseKey "t1" "r1" "scheduler" "main".
Definition proof_a : LeaseProof := mkLeaseProof main_key "sched-a" 1.
Definition proof_b : LeaseProof := mkLeaseProof main_key "sched-b" 2.

Definition attempt_go (op : attempt_op) (s : DB Forja) : DB Forja := (attempt_run store op s).2.
Definition lease_go (op : lease_op) (s : DB Forja) : DB Forja := (on_leases (run_op op) s).2.

Definition acquire (owner : string) : lease_op := OpAcquire store main_key owner Second.
Definition release_a : lease_op := OpRelease store main_key "sched-a" 1.

Definition create (key : string) : attempt_op := AttemptCreate rid "queued" (md key) proof_a.
Definition sweep : attempt_op := AttemptReconcile (md "key-0103") proof_b.

(** The first scheduler acquires its lease and creates an attempt; it gives its
    lease back, and its successor reconciles what was left. *)
Definition w1 : DB Forja := lease_go (acquire "sched-a") s1.
Definition w2 : DB Forja := attempt_go (create "key-0101") w1.
Definition w3 : DB Forja := lease_go (acquire "sched-b") (lease_go release_a w2).
Definition w4 : DB Forja := attempt_go sweep w3.

(** The attempt it created. *)
Definition aid : string := "attempt_00000000-0000-4000-8000-00000000001b".

Lemma attempted op s : attempt_run store op s = ((attempt_run store op s).1, attempt_go op s).
Proof. unfold attempt_go. by destruct (attempt_run store op s). Qed.
Lemma leased op s : on_leases (run_op op) s = ((on_leases (run_op op) s).1, lease_go op s).
Proof. unfold lease_go. by destruct (on_leases (run_op op) s). Qed.

Lemma attempted_step op s : rtc (system anything) s (attempt_go op s).
Proof. apply rtc_once. exists (ByAttempt store op). split; [done|]. eexists. apply attempted. Qed.
Lemma leased_step op s : rtc (system anything) s (lease_go op s).
Proof. apply rtc_once. exists (ByLease op). split; [done|]. eexists. apply leased. Qed.

Lemma at_w4 : rtc (system anything) s0 w4.
Proof.
  etrans; [by apply planned|]. etrans; [apply (leased_step (acquire "sched-a"))|].
  etrans; [apply (attempted_step (create "key-0101"))|]. etrans; [apply (leased_step release_a)|].
  etrans; [apply (leased_step (acquire "sched-b"))|apply (attempted_step sweep)].
Qed.

Lemma swept : ∃ out, ReconcileAbandonedAttempts store (md "key-0103") proof_b w3 = (Ok out, w4).
Proof.
  assert (is_ok (attempt_run store sweep w3).1 = true) as Hok by (vm_compute; reflexivity). revert Hok.
  unfold w4, attempt_go, sweep. cbn [attempt_run]. unfold forget. rewrite M_bind_run.
  destruct (ReconcileAbandonedAttempts _ _ _ w3) as [[out|e] s']; [|done]. intros _. by exists out.
Qed.
End Session.
