(* ===== verification/PgLiveness.v ===== *)
(** * Messages get delivered

    On a server that does not fail, a pending message that is due is handed to
    the next worker that asks, and that worker can publish it while its claim
    lasts. *)

From S2P Require Import Prelude GoLib Fault Contracts Identity RunState.
From S2P Require Import ControlMemory Governance ControlRefinement AttemptRecords Postgres.
From S2P Require Import Leases LeaseSets LeaseSafety.
From S2P Require Import PgTables PgEvents PgLogic PgControl PgEffects PgSample PgRefinement PgStreams.
From S2P Require Import Queue Outbox ProjectionDeliveries RunProjection RunReplay StreamEffects PgSystem PgProperties.
From S2P Require Import WorkerResults Attempts AttemptEffects DeliveryContracts Authorizations AuthorizationEffects.

Section total.
Context `{Clock, Database, !Reliable, Json, RowLocks}.
Abbreviation Tx := (M error (DB Forja)).

(** [m] succeeds from [s], with [Q]. *)
Definition can {A} (s : DB Forja) (m : Tx A) (Q : A → DB Forja → Prop) : Prop :=
  ∃ a s', m s = (Ok a, s') ∧ Q a s'.

Lemma can_bind {A B} s (m : Tx A) (k : A → Tx B) Q :
  can s m (λ a s1, can s1 (k a) Q) → can s (m ≫= k) Q.
Proof.
  intros (a & s1 & Hm & b & s2 & Hk & HQ). exists b, s2. by rewrite M_bind_run, Hm.
Qed.
Lemma can_ret {A} s (a : A) Q : Q a s → can s (mret a) Q.
Proof. intros. by exists a, s. Qed.
Lemma can_statement s op params Q :
  forallb pg_text params = true → Q tt (mkDB (tables s) (readings s) (S (statements s))) →
  can s (statement op params) Q.
Proof. intros Hp HQ. unfold can, statement. rewrite reliable, Hp. eauto. Qed.
Lemma can_clock s Q :
  Q (clock_reading (readings s)) (mkDB (tables s) (S (readings s)) (statements s)) →
  can s clock_timestamp Q.
Proof. intros. by eexists _, _. Qed.
Lemma can_select {A} s (f : Forja → A) Q : Q (f (tables s)) s → can s (select f) Q.
Proof. intros. by eexists _, _. Qed.
Lemma can_write s f Q : Q tt (mkDB (f (tables s)) (readings s) (statements s)) → can s (write f) Q.
Proof. intros. by eexists _, _. Qed.
Lemma can_checked s op bad Q : bad = None → Q tt s → can s (checked op bad) Q.
Proof. intros -> HQ. by exists tt, s. Qed.
Lemma can_atomically {A} s (m : Tx A) Q : can s m Q → can s (atomically m) Q.
Proof. intros (a & s' & Hm & HQ). exists a, s'. unfold atomically. by rewrite Hm. Qed.
Lemma can_mono {A} s (m : Tx A) (Q Q' : A → DB Forja → Prop) :
  can s m Q → (∀ a s', m s = (Ok a, s') → Q a s' → Q' a s') → can s m Q'.
Proof. intros (a & s' & Hm & HQ) HQ'. exists a, s'. eauto. Qed.

(** ** Claiming *)

Lemma can_claimable s d :
  can s (claimable d) (λ b s', tables s' = tables s ∧ readings s ≤ readings s' ∧
    (dl_state d = "pending" →
     (∀ i, readings s ≤ i → (instant (dl_available d) ≤ instant (clock_reading i))%Z) → b = true)).
Proof.
  unfold claimable. apply can_bind, can_clock. unfold After at 1.
  destruct (_ <? _)%Z eqn:Hlt; [|case_bool_decide as Hp; [|case_bool_decide as Hi]].
  - apply can_ret. cbn. split_and!; [done|lia|]. intros _ Hav. specialize (Hav (readings s)).
    bool_prop. lia.
  - apply can_ret. cbn. split_and!; [done|lia|done].
  - destruct (dl_locked_until d); [apply can_bind, can_clock|]; apply can_ret; cbn;
      (split_and!; [done|lia|congruence]).
  - apply can_ret. cbn. split_and!; [done|lia|congruence].
Qed.

(** A row that is due and has fewer than [limit] rows before it is picked. *)
Lemma can_candidates s locked pre r post limit :
  (∀ i, locked i = false) → length pre < limit → dl_state r.2 = "pending" →
  (∀ i, readings s ≤ i → (instant (dl_available r.2) ≤ instant (clock_reading i))%Z) →
  can s (candidates locked (pre ++ r :: post) limit) (λ picked _, r ∈ picked).
Proof.
  intros Hlock. revert s limit. induction pre as [|r0 pre IH]; intros s limit Hlim Hst Hav;
    (destruct limit as [|limit]; [lia|]); cbn [candidates app].
  - apply can_bind. eapply can_mono; [apply can_claimable|]. intros b s1 _ (Ht & Hr & Hb).
    rewrite Hb by done. rewrite Hlock. cbn [negb andb].
    assert (∀ rows limit s, can s (candidates locked rows limit) (λ _ _, True)) as Htotal.
    { clear. intros rows. induction rows as [|r rows IH]; intros [|limit] s; cbn [candidates];
        try by apply can_ret. apply can_bind. eapply can_mono; [apply can_claimable|].
      intros b s1 _ _. destruct (b && _); [|apply IH]. apply can_bind.
      eapply can_mono; [apply IH|]. intros. by apply can_ret. }
    apply can_bind. eapply can_mono; [apply Htotal|]. intros rest s2 _ _. apply can_ret. by left.
  - apply can_bind. eapply can_mono; [apply can_claimable|]. intros b s1 _ (Ht & Hr & _).
    cbn in Hlim. destruct (b && _).
    + apply can_bind. eapply can_mono; [apply IH; [lia|done|]|].
      { intros i Hi. apply Hav. lia. }
      intros picked s2 _ Hin. apply can_ret. by right.
    + apply IH; [lia|done|]. intros i Hi. apply Hav. lia.
Qed.

Lemma can_claim_rows s q op worker ttl rows :
  (∀ d, q_check q d = false) →
  Forall (λ r, (dl_token r.2 < int_max)%Z ∧ (dl_attempts r.2 < 2 ^ 31 - 1)%Z) rows →
  can s (claim_rows q op worker ttl rows) (λ cs _, cs.*1 = rows.*1).
Proof.
  intros Hchk Hall. revert s. induction Hall as [|r rows [Ht Ha] _ IH]; intros s; cbn [claim_rows].
  { by apply can_ret. }
  apply can_bind. unfold claim_row. apply can_bind, can_clock, can_bind, can_checked.
  { apply first_fault_None. repeat constructor; [|by rewrite Hchk]. unfold counters_fault.
    apply violated_None. cbn. rewrite !(proj2 (Z.ltb_ge _ _)) by lia. done. }
  apply can_bind, can_write, can_ret, can_bind. eapply can_mono; [apply IH|].
  intros cs s' _ Hcs. apply can_ret. cbn. by rewrite Hcs.
Qed.

Lemma filter_everything {A} (P : A → Prop) `{!∀ x, base.Decision (P x)} l :
  Forall P l → filter P l = l.
Proof. induction 1; [done|]. rewrite filter_cons_True by done. by f_equal. Qed.

(** The rows before a row of the ordered table. *)
Lemma ordered_split m id d :
  m !! id = Some d → ∃ pre post, ordered m = pre ++ (id, d) :: post ∧
    length pre ≤ length (filter (λ r : Z * Delivery, (r.1 < id)%Z) (ordered m)).
Proof.
  intros Hd. assert ((id, d) ∈ ordered m) as (pre & post & Heq)%list_elem_of_split by (by apply elem_of_ordered).
  exists pre, post. split; [done|]. rewrite Heq, filter_app, length_app.
  assert (filter (λ r : Z * Delivery, (r.1 < id)%Z) pre = pre) as ->; [|lia].
  apply filter_everything, Forall_forall. intros [i d'] Hin. cbn.
  pose proof (ordered_sorted m) as Hs. pose proof (NoDup_ordered m) as Hnd.
  rewrite Heq, fmap_app in Hs, Hnd. apply StronglySorted_app in Hs as (Hle & _ & _).
  apply NoDup_app in Hnd as (_ & Hne & _). apply (list_elem_of_fmap_2 fst) in Hin. cbn in Hin.
  specialize (Hle i id Hin ltac:(by left)). specialize (Hne i Hin). cbn in Hne.
  assert (i ≠ id) by (intros ->; apply Hne; by left). lia.
Qed.

Lemma can_claim s q op params worker limit ttl id d :
  (∀ d, q_check q d = false) → forallb pg_text params = true → (∀ n i, row_locked n i = false) →
  (∀ i d, q_map q (stream (tables s)) !! i = Some d →
     (dl_token d < int_max)%Z ∧ (dl_attempts d < 2 ^ 31 - 1)%Z) →
  q_map q (stream (tables s)) !! id = Some d → dl_state d = "pending" →
  (∀ i, readings s ≤ i → (instant (dl_available d) ≤ instant (clock_reading i))%Z) →
  (Z.of_nat (length (filter (λ r : Z * Delivery, (r.1 < id)%Z) (ordered (q_map q (stream (tables s)))))) < limit)%Z →
  can s (claim q op params worker limit ttl) (λ cs _, id ∈ cs.*1).
Proof.
  intros Hchk Hp Hlock Hcnt Hd Hst Hav Hlim. unfold claim. apply can_atomically, can_bind.
  exists (row_locked (statements s)), s. split; [done|]. apply can_bind, can_statement; [done|].
  apply can_bind, can_select. cbn [tables].
  destruct (ordered_split _ _ _ Hd) as (pre & post & Heq & Hlen). rewrite Heq. apply can_bind.
  eapply can_mono; [apply can_candidates; [apply Hlock|lia|done|done]|].
  intros picked s1 Hrun Hin. eapply can_mono; [apply can_claim_rows; [done|]|].
  - apply Forall_forall. intros [i d'] Hi.
    assert (sublist picked (pre ++ (id, d) :: post)) as Hsub.
    { refine (swp_run _ (λ picked _, sublist picked _) _ _ _ _ Hrun). by apply swp_candidates. }
    pose proof (elem_of_sublist _ _ _ Hi Hsub) as Hi'. rewrite <-Heq in Hi'.
    apply elem_of_ordered in Hi'. by eapply Hcnt.
  - intros cs s2 _ ->. by apply (list_elem_of_fmap_2 fst) in Hin.
Qed.

(** Publishing the live claim of an outbox message. *)
Lemma can_CompleteOutbox s st id worker token d until :
  row (store_scope st) OutboxQueue id (stream (tables s)) = Some d →
  forallb pg_text (own st [worker]) = true →
  dl_state d = "inflight" → dl_locked_by d = Some worker → dl_token d = token →
  dl_locked_until d = Some until →
  (∀ i, readings s ≤ i ≤ readings s + 2 → (instant (clock_reading i) < instant until)%Z) →
  can s (CompleteOutbox st id worker token) (λ _ s',
    row (store_scope st) OutboxQueue id (stream (tables s')) =
      Some (publishedDelivery (clock_reading (S (readings s))) d)).
Proof.
  intros Hd Hp Hst Hby Htok Hun Hlive.
  assert (∀ i, readings s ≤ i ≤ readings s + 2 → After until (clock_reading i) = true) as Haf.
  { intros i Hi. unfold After. apply Z.ltb_lt. by apply Hlive. }
  unfold CompleteOutbox. apply can_bind, can_atomically, can_bind, can_statement; [done|].
  apply can_bind. unfold settle, held_claim. apply can_bind, can_bind, can_select. cbn [tables].
  unfold row in Hd. cbn [queue_of] in Hd. rewrite Hd, Hst, Hby, Htok, Hun, Z.eqb_refl.
  rewrite !bool_decide_eq_true_2 by done. cbn [andb]. apply can_bind, can_clock, can_ret.
  cbn [readings tables]. rewrite Haf by lia. apply can_bind, can_bind, can_clock, can_ret.
  apply can_bind, can_checked; [done|]. apply can_bind, can_write, can_ret, can_bind.
  unfold claim_at_commit. cbn [outbox_queue q_guarded]. apply can_bind, can_clock.
  apply can_checked.
  { rewrite Hby, Hun. cbn [readings]. by rewrite Haf by lia. }
  apply can_ret, can_ret. cbn [tables readings]. change (outbox_queue (store_scope st)) with (queue_of (store_scope st) OutboxQueue).
  cbn [with_stream stream]. rewrite row_put by (by exists d). by rewrite decide_True.
Qed.
End total.

Section liveness.
Context `{Clock, !ClockStarted, Database, !Reliable, Sha256, Json, !Jsonb, Entropy, Sequences, UuidText}.
Context `{!JsonCodec Run, !JsonCodec Sprint, !JsonCodec Decision, !JsonCodec AuditRecord,
          !JsonCodec PlanResult, !JsonCodec SubmissionResult, !JsonCodec DecisionResult}.
Context `{!RunCodecLaws, RowLocks, TextOrder, Visits, TimeText, Collation}.
Context `{!AttemptCodecs, !JsonCodec WorkerResult, !WorkerContracts, ReportJson, DeliveryJson, !AuthorizationContracts}.

(** Every message has its event. *)
Lemma message_has_event sc id x :
  messages_ok x → is_Some (message sc id x) → ∃ e, message_event sc id x = Some e.
Proof.
  intros Hm [o Ho]. rewrite message_event_key, Ho. cbn. apply message_Some in Ho as (Ho & _ & _).
  apply (list_elem_of_fmap_2 (λ o, (ob_scope o, ob_event o))) in Ho.
  rewrite (mo_pairs _ Hm) in Ho. apply list_elem_of_fmap in Ho as (e & [= _ ->] & He).
  destruct (filter _ (events x)) as [|e' l] eqn:Hf; [|by exists e'].
  by destruct (filter_nil_not_elem_of _ _ e Hf).
Qed.

Lemma row_message sc id d x : row sc OutboxQueue id x = Some d → is_Some (message sc id x).
Proof.
  unfold row. cbn [queue_of]. rewrite lookup_outbox. destruct (message sc id x); [by eexists|done].
Qed.

(** What the claim statement does to a row it hands out. *)
Lemma claimed_row s s1 sc op params worker limit ttl cs id d d' :
  claim (outbox_queue sc) op params worker limit ttl s = (Ok cs, s1) →
  row sc OutboxQueue id (stream (tables s)) = Some d → (id, d') ∈ cs →
  ∃ until, d' = claimedDelivery worker until d ∧
    row sc OutboxQueue id (stream (tables s1)) = Some d' ∧
    same_log (stream (tables s)) (stream (tables s1)).
Proof.
  intros Hrun Hd Hin.
  assert (tables s1 = with_stream (puts (outbox_queue sc) cs) (tables s) ∧
    batch (outbox_queue sc) worker limit ttl (readings s) (readings s1)
      (stream (tables s)) cs) as [Ht Hb].
  { refine (swp_run _ (λ cs s1, tables s1 = with_stream (puts (outbox_queue _) cs) (tables s) ∧
      batch _ _ _ _ _ (readings s1) _ cs) _ _ _ _ Hrun). by apply swp_claim. }
  destruct (batch_rows _ _ _ _ _ _ _ _ Hb _ Hin) as (d0 & Hd0 & _ & _ & i & _ & Hd' & _).
  unfold row in *. cbn [queue_of fst snd] in *. rewrite Hd in Hd0. injection Hd0 as <-.
  eexists. split; [exact Hd'|]. rewrite Ht. cbn [with_stream stream]. split.
  - rewrite (batch_map _ _ _ _ _ _ _ _ Hb). apply lookup_union_Some_l.
    apply elem_of_list_to_map_1; [apply Hb|done].
  - apply (puts_log sc OutboxQueue).
Qed.

(** C33. Delivery: a pending message that is due, with fewer than [limit] messages
    before it, is part of the next claim, together with its event and a fresh
    token; and as long as that claim lasts its worker can publish it. The server
    is reliable, no other transaction holds the rows, and no counter of the queue
    is at the end of its range. *)
Theorem due_message_is_delivered s0 s st worker limit ttl id d :
  fresh (tables s0) → rtc (system anything) s0 s →
  row (store_scope st) OutboxQueue id (stream (tables s)) = Some d → dl_state d = "pending" →
  (∀ i, readings s ≤ i → (instant (dl_available d) ≤ instant (clock_reading i))%Z) →
  (∀ n i, row_locked n i = false) →
  (∀ i d, row (store_scope st) OutboxQueue i (stream (tables s)) = Some d →
     (dl_token d < int_max)%Z ∧ (dl_attempts d < 2 ^ 31 - 1)%Z) →
  forallb pg_text (own st [worker]) = true → runes_outside 1 500 worker = false →
  (Millisecond ≤ ttl ≤ Hour)%Z → (limit ≤ 1000)%Z →
  (Z.of_nat (length (filter (λ r : Z * Delivery, (r.1 < id)%Z)
     (ordered (q_map (outbox_queue (store_scope st)) (stream (tables s)))))) < limit)%Z →
  ∃ messages s1 m e until,
    ClaimOutbox st worker limit ttl s = (Ok messages, s1) ∧ m ∈ messages ∧
    om_OutboxID m = id ∧ om_FencingToken m = (dl_token d + 1)%Z ∧
    message_event (store_scope st) id (stream (tables s)) = Some e ∧
    om_EventID m = ev_id e ∧ om_Payload m = ev_payload e ∧
    row (store_scope st) OutboxQueue id (stream (tables s1)) = Some (claimedDelivery worker until d) ∧
    ((∀ i, readings s1 ≤ i ≤ readings s1 + 2 → (instant (clock_reading i) < instant until)%Z) →
     ∃ s2 d2, CompleteOutbox st id worker (om_FencingToken m) s1 = (Ok tt, s2) ∧
       row (store_scope st) OutboxQueue id (stream (tables s2)) = Some d2 ∧
       dl_state d2 = "published").
Proof.
  intros Hf Hs Hd Hst Hav Hlock Hcnt Hp Hw Httl Hlim Hpos.
  assert (sys_ok (tables s)) as Hok by (by eapply history_sys_ok, fresh_ok).
  destruct (can_claim s (outbox_queue (store_scope st)) "postgres.ClaimOutbox" (own st [worker]) worker limit
    (intervalString ttl) id d) as (cs & s1 & Hrun & ([id' d'] & Heq & Hin)%list_elem_of_fmap); [done..|].
  cbn in Heq. subst id'. destruct (claimed_row _ _ _ _ _ _ _ _ _ _ _ _ Hrun Hd Hin) as (until & -> & Hrow & Hlog).
  destruct (message_has_event (store_scope st) id (stream (tables s))) as (e & He);
    [apply Hok|by eapply row_message|].
  set (m := mkOutboxMessage _ id (ev_id e) (ev_aggregate_type e) (ev_aggregate e) (ev_version e)
              (ev_type e) (ev_payload e) (dl_attempts d + 1)%Z (dl_token d + 1)%Z).
  set (s1' := mkDB (tables s1) (readings s1) (S (statements s1))).
  exists (omap (message_of (store_scope st) (stream (tables s1))) cs), s1', m, e, until.
  split_and!; [| |done..|].
  - unfold ClaimOutbox. rewrite Hw. rewrite !(proj2 (Z.ltb_ge _ _)) by lia. cbn [orb].
    rewrite M_bind_run, Hrun, M_bind_run. unfold select, statement. cbn beta iota.
    by rewrite M_bind_run, reliable.
  - apply list_elem_of_omap. exists (id, claimedDelivery worker until d). split; [done|].
    unfold message_of. cbn [fst snd]. by rewrite (message_event_log _ _ _ _ Hlog), He.
  - intros Hlive. edestruct (can_CompleteOutbox s1' st id worker (om_FencingToken m))
      as ([] & s2 & Hc & Hr2); [exact Hrow|done..|].
    exists s2. eexists. split_and!; [exact Hc|exact Hr2|done].
Qed.
End liveness.
