(* ===== verification/SystemWitnesses.v ===== *)
(** * Witnesses of the system properties

    Each property of the queues, the log, the read model and the attempts,
    applied to the concrete session. *)

From S2P Require Import Prelude GoLib Fault Contracts Identity RunState.
From S2P Require Import ControlMemory Governance ControlRefinement AttemptRecords Postgres.
From S2P Require Import Leases LeaseSets LeaseSafety.
From S2P Require Import PgTables PgEvents PgLogic PgControl PgEffects PgSample PgRefinement PgStreams.
From S2P Require Import Queue Outbox ProjectionDeliveries RunProjection RunReplay StreamEffects PgSystem PgProperties.
From S2P Require Import WorkerResults Attempts AttemptEffects Authorizations AuthorizationEffects.
From S2P Require Import AttemptProperties SystemSample PgLiveness.

Module SessionFacts.
Import Sample Session.

Abbreviation sc := (store_scope store).

Lemma event_log_faithful_witness :
  ∃ r, in_scope run_scope sc (runs (canonical (tables u5)) !! rid) = Some r ∧
    run_history rid (run_events sc rid (events (stream (tables u5)))) (scanRun rid r) ∧
    length (run_events sc rid (events (stream (tables u5)))) = 1 ∧
    length (outbox (stream (tables u5))) = 2.
Proof.
  destruct (event_log_faithful s0 u5 sc rid s0_fresh at_u5) as [Hr _].
  assert (∃ r, in_scope run_scope sc (runs (canonical (tables u5)) !! rid) = Some r) as [r Heq]
    by (eexists; vm_compute; reflexivity).
  rewrite Heq in Hr. destruct Hr as [Hh _]. exists r.
  split; [exact Heq|]. split; [exact Hh|]. split; vm_compute; reflexivity.
Defined.

Lemma rebuild_projects_canonical_witness :
  ∃ s', RebuildRunProjection store "runs" u5 = (Ok tt, s') ∧
    canonical (tables s') = canonical (tables u5).
Proof.
  destruct (rebuild_projects_canonical s0 u5 store "runs" s0_fresh at_u5)
    as (s' & Hrun & _ & _ & _ & Hc & _);
    [vm_compute; reflexivity|discriminate|apply (bool_decide_eq_true_1 _); vm_compute; reflexivity|].
  exists s'. exact (conj Hrun Hc).
Defined.

Lemma queue_rows_follow_protocol_witness :
  ∃ d d', row sc OutboxQueue 1 (stream (tables u1)) = Some d ∧
    row sc OutboxQueue 1 (stream (tables u2)) = Some d' ∧ dl_state d = "pending" ∧
    row_step (Claimant "w1") (readings u1) (readings u2) d d'.
Proof.
  assert (∃ d, row sc OutboxQueue 1 (stream (tables u1)) = Some d ∧ dl_state d = "pending") as (d & Hd & Hp)
    by (eexists; split; vm_compute; reflexivity).
  assert (∃ d2, row sc OutboxQueue 1 (stream (tables u2)) = Some d2 ∧ dl_state d2 = "inflight") as (d2 & Hd2 & Hi)
    by (eexists; split; vm_compute; reflexivity).
  destruct (queue_rows_follow_protocol s0 u1 (ByStream store claim_outbox) u2 sc OutboxQueue 1 d s0_fresh at_u1)
    as (d' & Hd' & Hcase); [eexists; apply gone|exact Hd|].
  pose proof (eq_trans (eq_sym Hd2) Hd') as Heq. apply (inj Some) in Heq. subst d'.
  destruct Hcase as [Heq|[_ Hs]]; [exfalso; clear - Heq Hp Hi; subst d2; congruence|].
  exists d, d2. exact (conj Hd (conj Hd' (conj Hp Hs))).
Defined.

Lemma queue_rows_sound_witness :
  ∃ d, row sc (Ledger projector) 2 (stream (tables u5)) = Some d ∧ row_ok d.
Proof.
  assert (∃ d, row sc (Ledger projector) 2 (stream (tables u5)) = Some d) as [d Hd]
    by (eexists; vm_compute; reflexivity).
  destruct (queue_rows_sound s0 u5 sc (Ledger projector) 2 d s0_fresh at_u5 Hd) as [Hok _].
  exists d. exact (conj Hd Hok).
Defined.

Lemma settled_for_good_witness :
  row sc OutboxQueue 1 (stream (tables u5)) = row sc OutboxQueue 1 (stream (tables u3)).
Proof.
  assert (∃ d, row sc OutboxQueue 1 (stream (tables u3)) = Some d ∧ dl_state d = "published") as (d & Hd & Hp)
    by (eexists; split; vm_compute; reflexivity).
  rewrite Hd. apply (settled_for_good s0 u3 u5 sc OutboxQueue 1 d s0_fresh at_u3); [|exact Hd|by left].
  etrans; [apply (streamed anything claim_ledger u3 u4 I eq_refl)|].
  apply (streamed anything publish_ledger u4 u5 I eq_refl).
Defined.

(** Another worker asks while the first one's claim is live. *)
Definition intruder : stream_op := OpClaim OutboxQueue "w9" 10 Second.

Lemma live_claim_exclusive_witness :
  row sc OutboxQueue 2 (stream (tables (stream_go intruder u2))) = row sc OutboxQueue 2 (stream (tables u2)).
Proof.
  assert (∃ d until, row sc OutboxQueue 2 (stream (tables u2)) = Some d ∧ dl_state d = "inflight" ∧
    dl_locked_by d = Some "w1" ∧ dl_token d = 1%Z ∧ dl_locked_until d = Some until ∧
    (readings (stream_go intruder u2) <= 100)%nat ∧ (instant until = 1006000000)%Z)
    as (d & until & Hd & Hs & Hb & Hk & Hu & Hn & Hi)
    by (do 2 eexists; split_and!; try (vm_compute; reflexivity); vm_compute; lia).
  rewrite Hd. apply (live_claim_exclusive s0 u2 _ sc OutboxQueue 2 d "w1" 1 until s0_fresh at_u2 Hd Hs Hb Hk Hu).
  apply rtc_once. split.
  - exists (ByStream store intruder). split; [discriminate|]. eexists. apply gone.
  - intros i Hi'. rewrite Hi. cbn. unfold Millisecond, Microsecond. lia.
Defined.

Lemma stale_claims_rejected_witness :
  is_ok (stream_run store (OpComplete OutboxQueue 1 "w0" 1) b2).1 = false ∧
  tables (stream_go (OpComplete OutboxQueue 1 "w0" 1) b2) = tables b2.
Proof.
  assert (∃ d, row sc OutboxQueue 1 (stream (tables b2)) = Some d ∧ dl_token d = 2%Z) as (d & Hd & Hk)
    by (eexists; split; vm_compute; reflexivity).
  assert (rtc (system anything) s0 b2) as Hb2.
  { etrans; [exact at_u1|]. etrans; [apply (streamed anything brief_claim u1 b1 I eq_refl)|].
    apply (streamed anything brief_claim b1 b2 I eq_refl). }
  apply (stale_claims_rejected s0 b2 b2 store OutboxQueue 1 d "w0" 1 (OpComplete OutboxQueue 1 "w0" 1) _ _
    s0_fresh Hb2); [done|exact Hd|rewrite Hk; lia|constructor|apply gone].
Defined.

(** The dispatcher gives the first message up after one attempt. *)
Definition broken : Cause := mkCause "*errors.errorString" "unreachable".
Definition bury_first : stream_op := OpFail OutboxQueue 1 "w1" 1 (Some broken) (mkTime 5 0) 1.

Lemma failure_reschedules_or_buries_witness :
  ∃ d, row sc OutboxQueue 1 (stream (tables (stream_go bury_first u2))) = Some d ∧
    length (dead_letters (stream (tables (stream_go bury_first u2)))) = 1.
Proof.
  destruct (failure_reschedules_or_buries store OutboxQueue 1 "w1" 1 (Some broken) (mkTime 5 0) 1 u2
    (stream_go bury_first u2)) as (c & d & e & _ & _ & _ & Hd & _); [vm_compute; reflexivity|].
  eexists. split; [exact Hd|]. vm_compute. reflexivity.
Defined.

Lemma unstorable_error_never_settles_witness :
  let op := OpFail OutboxQueue 1 "w1" 1 (Some (mkCause "*errors.errorString" NUL)) (mkTime 5 0) 1 in
  is_ok (stream_run store op u2).1 = false ∧ tables (stream_go op u2) = tables u2.
Proof.
  intros op. apply (unstorable_error_never_settles store OutboxQueue 1 "w1" 1
    (mkCause "*errors.errorString" NUL) (mkTime 5 0) 1 u2); [vm_compute; reflexivity|apply gone].
Defined.

Lemma checkpoint_passes_published_only_witness :
  ∃ last', checkpoints (stream (tables u5)) !! (sc, projector) = Some last' ∧ (1 ≤ last')%Z.
Proof.
  assert (rtc (system (λ a, ¬ rebuilds sc projector a)) s0 u5) as H5.
  { apply session; [intros []|]. intros op Hop. cbn. intros [= Heq]. subst op. set_solver. }
  apply (checkpoint_passes_published_only s0 u5 u5 sc projector 1 s0_fresh H5); [done|].
  vm_compute. reflexivity.
Defined.

Lemma due_message_is_delivered_witness :
  ∃ messages s1 m, ClaimOutbox store "w1" 10 Second u1 = (Ok messages, s1) ∧ m ∈ messages ∧
    om_OutboxID m = 2%Z ∧ om_FencingToken m = 1%Z.
Proof.
  assert (∃ d, row sc OutboxQueue 2 (stream (tables u1)) = Some d ∧ dl_state d = "pending" ∧
    instant (dl_available d) = 2000000%Z ∧ dl_token d = 0%Z) as (d & Hd & Hp & Ha & Hk)
    by (eexists; split_and!; vm_compute; reflexivity).
  destruct (due_message_is_delivered s0 u1 store "w1" 10 Second 2 d s0_fresh at_u1 Hd Hp)
    as (ms & s1 & m & e & until & Hrun & Hin & Hid & Htok & _).
  - intros i Hi. rewrite Ha. assert (3 ≤ readings u1)%nat as Hr by (vm_compute; lia). cbn.
    unfold Millisecond, Microsecond. lia.
  - done.
  - intros i d'. unfold row. cbn [queue_of]. rewrite lookup_outbox. intros Hm.
    apply fmap_Some in Hm as (o & Ho & ->). apply message_Some in Ho as (Ho & _).
    assert (Forall (λ o, dl_token (ob_delivery o) = 0%Z ∧ dl_attempts (ob_delivery o) = 0%Z)
      (outbox (stream (tables u1)))) as Hall by (vm_compute; repeat constructor).
    rewrite Forall_forall in Hall. destruct (Hall o Ho) as [-> ->]. unfold int_max. lia.
  - vm_compute. reflexivity.
  - vm_compute. reflexivity.
  - unfold Hour, Second. unfold Millisecond, Microsecond. lia.
  - lia.
  - vm_compute. reflexivity.
  - exists ms, s1, m. rewrite Htok, Hk. exact (conj Hrun (conj Hin (conj Hid eq_refl))).
Defined.

(** ** Attempts *)

Abbreviation attempts_of s := (attempts (work (tables s))).

Lemma attempt_writes_fenced_witness :
  ∃ row et, attempts_of w2 !! aid = Some row ∧ attempt_write store proof_a (tables w1) aid row et ∧
    fenced (tables w1) (readings w1) (readings w2) main_key "sched-a" 1.
Proof.
  assert (attempts_of w1 !! aid = None) as Hnew by (vm_compute; reflexivity).
  assert (is_Some (attempts_of w2 !! aid)) as [row2 Hmade] by (eexists; vm_compute; reflexivity).
  destruct (attempt_writes_fenced (ByAttempt store (create "key-0101")) w1 w2 aid)
    as (st & op & proof & row & et & Ha & Hop & _ & Hf & Hrow & Hw & _).
  - eexists. apply attempted.
  - rewrite Hnew, Hmade. discriminate.
  - injection Ha as <- <-. injection Hop as <-. exists row, et. exact (conj Hrow (conj Hw Hf)).
Defined.

Lemma terminal_attempt_frozen_witness :
  ∃ row, attempts_of w4 !! aid = Some row ∧
    attempts_of (attempt_go (AttemptReconcile (md "key-0104") proof_b) w4) !! aid = Some row.
Proof.
  assert (∃ row, attempts_of w4 !! aid = Some row ∧ at_status row = "failed_retryable") as (row & Hrow & Hst)
    by (eexists; split; vm_compute; reflexivity).
  exists row. split; [exact Hrow|]. apply (terminal_attempt_frozen w4 _ aid row (attempted_step _ _) Hrow).
  rewrite Hst. clear. set_solver.
Defined.

Lemma stale_scheduler_fenced_witness :
  is_ok (attempt_run store (create "key-0105") w4).1 = false ∧
  tables (attempt_go (create "key-0105") w4) = tables w4.
Proof.
  assert (∃ lr, lease_rows (tables w3) !! main_key = Some lr ∧ row_token lr = 2%Z) as (lr & Hlr & Hk)
    by (eexists; split; vm_compute; reflexivity).
  apply (stale_scheduler_fenced w3 w4 store (create "key-0105") proof_a lr); [exact Hlr|rewrite Hk; cbn; lia| |done|].
  - apply attempted_step.
  - apply attempted.
Defined.

Lemma attempt_rows_sound_witness :
  ∃ row, attempts_of w4 !! aid = Some row ∧ attempt_phase row ∧
    ev_version <$> attempt_log aid (events (stream (tables w4))) = [1%Z; 2%Z].
Proof.
  pose proof (attempt_rows_sound s0 w4 aid s0_fresh at_w4) as Hs. cbn zeta in Hs.
  assert (∃ row, attempts_of w4 !! aid = Some row ∧ at_version row = 2%Z) as (row & Hrow & Hv)
    by (eexists; split; vm_compute; reflexivity).
  rewrite Hrow in Hs. destruct Hs as (Hp & _ & Hl & _). exists row. rewrite Hv in Hl.
  exact (conj Hrow (conj Hp Hl)).
Defined.

Lemma reconcile_complete_witness :
  ∃ row, attempts_of w3 !! aid = Some row ∧ at_status row = "queued" ∧
    ∃ now, attempts_of w4 !! aid = Some (reconciled_row now row).
Proof.
  assert (∃ row, attempts_of w3 !! aid = Some row ∧ at_status row = "queued") as (row & Hrow & Hst)
    by (eexists; split; vm_compute; reflexivity).
  destruct swept as [out Hrun].
  destruct (reconcile_complete store (md "key-0103") proof_b w3 out w4 Hrun) as [_ Hrows];
    [vm_compute; reflexivity|].
  exists row. split; [exact Hrow|]. split; [exact Hst|].
  destruct (Hrows aid row Hrow) as [Hsame|(now & Hnow & _)]; [|exists now; exact Hnow].
  assert (∃ row4, attempts_of w4 !! aid = Some row4 ∧ at_status row4 = "failed_retryable") as (row4 & H4 & Hst4)
    by (eexists; split; vm_compute; reflexivity).
  exfalso. rewrite Hsame in H4. injection H4 as <-. congruence.
Defined.

Lemma live_fence_protects_witness :
  ∃ row, attempts_of w2 !! aid = Some row ∧
    attempts_of (lease_go (acquire "sched-b") w2) !! aid = Some row.
Proof.
  assert (∃ row, attempts_of w2 !! aid = Some row ∧ own_attempt sc aid (tables w2) = Some row ∧
    at_worker row = "sched-a" ∧ at_token row = 1%Z ∧ attempt_lease sc.2 row = main_key)
    as (row & Hrow & Hown & Hw & Hk & Hl) by (eexists; split_and!; vm_compute; reflexivity).
  exists row. split; [exact Hrow|].
  destruct (live_fence_protects (ByLease (acquire "sched-b")) w2 (lease_go (acquire "sched-b") w2) sc aid row)
    as [Hkeep|(st & op & proof & Ha & _)]; [eexists; apply leased|exact Hown| |exact Hkeep|discriminate Ha].
  rewrite Hl, Hw, Hk. assert (∃ lr, lease_rows (tables w2) !! main_key = Some lr ∧ row_owner lr = "sched-a" ∧
    row_token lr = 1%Z) as (lr & Hlr & Ho & Ht) by (eexists; split_and!; vm_compute; reflexivity).
  exists lr. exact (conj Hlr (conj Ho Ht)).
Defined.
End SessionFacts.
