(* ===== verification/PublicationSample.v ===== *)
(** * A concrete publication

    The delivery of [DeliverySample] in a database: a run goes through its life
    cycle, a scheduler executes its attempt, the lease set is acquired, and the
    delivery is prepared and published. Git is one reference. The witnesses of
    the publication properties evaluate on it. *)

From S2P Require Import Prelude GoLib Fault Contracts Identity RunState LeasePaths.
From S2P Require Import ControlMemory Governance ControlRefinement AttemptRecords Postgres DeliveryContracts.
From S2P Require Import Leases LeaseSets LeaseExpansion DeliveryScopes DeliveryLeases DeliverySample LeaseSafety.
From S2P Require Import PgTables PgEvents Publications PgLogic PublicationEffects PublicationWorld.
From S2P Require Import PgControl PgEffects PgSample PgRefinement PgStreams.
From S2P Require Import Queue Outbox ProjectionDeliveries RunProjection RunReplay StreamEffects PgSystem.
From S2P Require Import WorkerResults Attempts AttemptEffects Authorizations AuthorizationEffects PgProperties AttemptProperties.
From S2P Require Import PublicationProperties SystemSample.

Module Publishing.
Import Sample Session Documents.

#[export] Instance uuid_canonical : UuidLaws.
Proof. done. Qed.

(** ** The history of the database *)

Definition do (key : string) (c : CommandMetadata → operation) (s : DB Forja) : DB Forja :=
  (perform home (c (md key)) s).2.
Definition move (v : Z) (target : State) (md : CommandMetadata) : operation :=
  OpCommand (CmdTransition run_id v target md).

Definition p0 : DB Forja := mkDB
  (mkForja _ (mkCanonical _ {[store_scope home]} ∅ ∅ ∅ ∅) (mkStream _ [] [] 0 ∅ ∅ ∅ [] ∅)
     (mkWork ∅ (Some ∅) (mkTables ∅ ∅ ∅))) 0 0.
Definition p1 : DB Forja := do "key-0001" (OpCreateRun run_id "objective") p0.
Definition p2 : DB Forja := do "key-0002" (move 1 StateAwaitingApproval) p1.
Definition p3 : DB Forja := do "key-0003" (move 2 StateQueued) p2.
Definition p4 : DB Forja := do "key-0004" (move 3 StatePreparing) p3.
Definition p5 : DB Forja := do "key-0005" (move 4 StateRunning) p4.
Definition p6 : DB Forja := do "key-0006" (move 5 StateValidating) p5.

Definition scheduler : LeaseKey := mkLeaseKey uuid1 uuid1 "scheduler" "main".
Definition fence_of : LeaseProof := mkLeaseProof scheduler "sched" 1.
Definition hold : lease_op := OpAcquire home scheduler "sched" Hour.
Definition lend (op : lease_op) (s : DB Forja) : DB Forja := (on_leases (run_op op) s).2.
Definition try (op : attempt_op) (s : DB Forja) : DB Forja := (attempt_run home op s).2.

Definition create_attempt : attempt_op := AttemptCreate run_id "queued" (md "key-0007") fence_of.
Definition start_attempt : attempt_op := AttemptStart attempt 1 (md "key-0008") fence_of.
Definition outcome : WorkerResult :=
  mkWorkerResult "task" attempt run_id "1.0" "adapter" "succeeded" false "completed" (mkTime (22 * Millisecond) 0)
    (mkTime (22 * Millisecond) 0) 0 (Some 0%Z) "" "" sha_text sha_text (mkWorkerUsage 0 0 0 0) None None.
Definition finish_attempt : attempt_op := AttemptFinish attempt 2 outcome (md "key-0009") fence_of.

Definition p7 : DB Forja := lend hold p6.
Definition p8 : DB Forja := try create_attempt p7.
Definition p9 : DB Forja := try start_attempt p8.
Definition p10 : DB Forja := try finish_attempt p9.

Definition member (ty id : string) : LeaseKey := mkLeaseKey uuid1 uuid1 ty id.
Definition take_set : lease_op :=
  OpAcquireSet home attempt [member "worktree" delivery; member "file" "src"; member "artifact" "out"]
    "sched" (60 * Second).
Definition p11 : DB Forja := lend take_set p10.

(** ** The publication *)

(** The leases of the set, as they were granted. *)
Definition lease_of_set (ty id : string) : Lease := mkLease (member ty id) "sched" 1 zero_time zero_time.
Definition proof_set : LeaseSet := mkLeaseSet attempt "sched"
  [lease_of_set "artifact" "out"; lease_of_set "file" "src"; lease_of_set "worktree" delivery]
  zero_time zero_time.

Definition intent : DeliveryPublicationIntent :=
  mkIntent delivery uuid1 uuid1 attempt attempt 60000 ("refs/forja/deliveries/" +:+ delivery) None commit
    sha_text sha_text sha_text "receipt".

(** Git: the commit of the publication reference. *)
Definition Git : Type := option string.
Definition check_evidence : M error Git unit := mret tt.
Definition set_ref : M error Git unit := λ _, (Ok tt, Some commit).
(** The reference moves, but the answer is lost. *)
Definition set_ref_then_fail : M error Git unit := λ _, (Err (ErrorString (Lit "timeout")), Some commit).

Definition prepare : publication_op Git := OpPrepare intent proof_set.
Definition publish : publication_op Git := OpPublish intent proof_set (Some check_evidence) (Some set_ref).
Definition act (op : publication_op Git) (w : World Git) : World Git := (publication_run home op w).2.

Definition w0 : World Git := mkWorld p0 None.
Definition w11 : World Git := mkWorld p11 None.
Definition w12 : World Git := act prepare w11.
Definition w13 : World Git := act publish w12.

(** ** The history *)

Abbreviation wsteps := (rtc (wstep (G := Git))).

Lemma command_step key c s g : wsteps (mkWorld s g) (mkWorld (do key c s) g).
Proof.
  apply rtc_once. apply (ws_system (mkWorld s g) (ByCommand home (c (md key)))). unfold do.
  destruct (perform home (c (md key)) s) as [r s'] eqn:Hrun. by exists r.
Qed.
Lemma attempt_step op s g : wsteps (mkWorld s g) (mkWorld (try op s) g).
Proof.
  apply rtc_once. apply (ws_system (mkWorld s g) (ByAttempt home op)). unfold try.
  destruct (attempt_run home op s) as [r s'] eqn:Hrun. by exists r.
Qed.
Lemma lease_step op s g : wsteps (mkWorld s g) (mkWorld (lend op s) g).
Proof.
  apply rtc_once. apply (ws_system (mkWorld s g) (ByLease op)). unfold lend.
  destruct (on_leases (run_op op) s) as [r s'] eqn:Hrun. by exists r.
Qed.
Lemma publication_step op w : wsteps w (act op w).
Proof.
  apply rtc_once. unfold act. destruct (publication_run home op w) as [r w'] eqn:Hrun.
  by eapply (ws_publication w home op r).
Qed.

Lemma reach_w11 : wsteps w0 w11.
Proof.
  unfold w0, w11. etrans; [apply (command_step "key-0001" (OpCreateRun run_id "objective"))|].
  etrans; [apply (command_step "key-0002" (move 1 StateAwaitingApproval))|].
  etrans; [apply (command_step "key-0003" (move 2 StateQueued))|].
  etrans; [apply (command_step "key-0004" (move 3 StatePreparing))|].
  etrans; [apply (command_step "key-0005" (move 4 StateRunning))|].
  etrans; [apply (command_step "key-0006" (move 5 StateValidating))|].
  etrans; [apply (lease_step hold)|]. etrans; [apply (attempt_step create_attempt)|].
  etrans; [apply (attempt_step start_attempt)|]. etrans; [apply (attempt_step finish_attempt)|].
  apply (lease_step take_set).
Qed.
Lemma reach_w12 : wsteps w0 w12.
Proof. etrans; [exact reach_w11|apply (publication_step prepare)]. Qed.
Lemma reach_w13 : wsteps w0 w13.
Proof. etrans; [exact reach_w12|apply (publication_step publish)]. Qed.

Lemma w0_fresh : unpublished_yet (tables (db w0)).
Proof. by split; [split|]. Qed.

Definition key : PublicationKey := intent_key home intent.

(** ** Witnesses *)

Lemma publication_pins_run_witness :
  ∃ row a r, rows_of (tables (db w13)) !! key = Some row ∧ pb_state row = "published" ∧
    attempts (work (tables (db w13))) !! attempt = Some a ∧ at_status a = "succeeded" ∧
    runs (canonical (tables (db w13))) !! at_run a = Some r.
Proof.
  assert (∃ row, rows_of (tables (db w13)) !! key = Some row ∧ pb_state row = "published") as (row & Hrow & Hst)
    by (eexists; split; vm_compute; reflexivity).
  destruct (publication_pins_run w0 w13 (store_scope home) delivery attempt row w0_fresh reach_w13 Hrow
    (or_intror Hst)) as (a & r & Ha & _ & Hs & Hr & _).
  exists row, a, r. exact (conj Hrow (conj Hst (conj Ha (conj Hs Hr)))).
Defined.

Lemma journal_rows_lawful_witness :
  ∃ row, rows_of (tables (db w13)) !! key = Some row ∧ pb_observed row = Some (pb_result row) ∧
    validatePublicationIntent (scanIntent key row) = Ok tt.
Proof.
  assert (∃ row, rows_of (tables (db w13)) !! key = Some row ∧ pb_state row = "published") as (row & Hrow & Hst)
    by (eexists; split; vm_compute; reflexivity).
  destruct (journal_rows_lawful w0 w13 key row w0_fresh reach_w13 Hrow) as (Hv & _ & Ho & _).
  exists row. exact (conj Hrow (conj (Ho Hst) Hv)).
Defined.

Lemma journal_moves_forward_witness :
  ∃ row row', rows_of (tables (db w12)) !! key = Some row ∧ rows_of (tables (db w13)) !! key = Some row' ∧
    same_intent row row'.
Proof.
  assert (∃ row, rows_of (tables (db w12)) !! key = Some row) as [row Hrow]
    by (eexists; vm_compute; reflexivity).
  destruct (journal_moves_forward w12 w13 key row (publication_step publish w12) Hrow)
    as (row' & Hrow' & Hsame & _).
  exists row, row'. exact (conj Hrow (conj Hrow' Hsame)).
Defined.

Lemma published_ok :
  ∃ record w', CompleteDeliveryPublication home intent proof_set (Some check_evidence) (Some set_ref) w12 =
    (Ok record, w').
Proof.
  assert (is_ok (CompleteDeliveryPublication home intent proof_set (Some check_evidence) (Some set_ref) w12).1 = true) as Hok
    by (vm_compute; reflexivity).
  destruct (CompleteDeliveryPublication _ _ _ _ _ _) as [[record|e] w']; [by exists record, w'|done].
Qed.

Lemma publication_is_fenced_witness :
  ∃ record w', CompleteDeliveryPublication home intent proof_set (Some check_evidence) (Some set_ref) w12 =
    (Ok record, w') ∧ dp_Intent record = intent ∧ dp_State record = "published".
Proof.
  destruct published_ok as (record & w' & Hrun). exists record, w'. split; [exact Hrun|].
  destruct (publication_is_fenced home intent proof_set check_evidence set_ref w12 record w' Hrun) as (Hi & Hs & _).
  exact (conj Hi Hs).
Defined.

(** Git moved, but the call failed: the row is recovered. *)
Lemma lost_answer :
  ∃ e w', CompleteDeliveryPublication home intent proof_set (Some check_evidence) (Some set_ref_then_fail) w12 =
    (Err e, w').
Proof.
  assert (is_ok (CompleteDeliveryPublication home intent proof_set (Some check_evidence) (Some set_ref_then_fail) w12).1 = false) as Hok
    by (vm_compute; reflexivity).
  destruct (CompleteDeliveryPublication _ _ _ _ _ _) as [[record|e] w']; [done|by exists e, w'].
Qed.

Lemma crash_window_recovers_witness :
  ∃ record s, dp_State record = "published" ∧ dp_Intent record = intent ∧
    ∃ e w', CompleteDeliveryPublication home intent proof_set (Some check_evidence) (Some set_ref_then_fail) w12 =
      (Err e, w') ∧ RecoverDeliveryPublication home intent commit (db w') = (Ok record, s).
Proof.
  destruct lost_answer as (e & w' & Hrun).
  assert (∃ row, rows_of (tables (db w12)) !! intent_key home intent = Some row ∧ pb_state row = "prepared" ∧
    scanIntent (intent_key home intent) row = intent) as (row & Hrow & Hst & Hscan)
    by (eexists; split_and!; vm_compute; reflexivity).
  destruct (crash_window_recovers w0 w12 w' home intent proof_set (Some check_evidence) (Some set_ref_then_fail)
    e row (moment 4) w0_fresh reach_w12 Hrow Hscan Hst) as (_ & record & s & Hrec & Hi & Hs & _);
    [vm_compute; reflexivity|vm_compute; reflexivity|exact Hrun|].
  exists record, s. split; [exact Hs|]. split; [exact Hi|]. exists e, w'. exact (conj Hrun Hrec).
Defined.
End Publishing.
