(* ===== verification/AuthorizationSample.v ===== *)
(** * A concrete authorization

    A sprint is planned, submitted and approved, a scheduler takes its lease and
    creates the attempt, and the delivery of [DeliverySample] is approved. The
    witnesses of the authorization properties evaluate on this history. *)

From S2P Require Import Prelude GoLib Fault Contracts Identity RunState LeasePaths.
From S2P Require Import ControlMemory Governance ControlRefinement AttemptRecords Postgres DeliveryContracts.
From S2P Require Import Leases LeaseSets LeaseExpansion DeliveryScopes DeliveryLeases DeliverySample LeaseSafety.
From S2P Require Import PgTables PgEvents PgLogic PgControl PgEffects PgSample PgRefinement PgStreams.
From S2P Require Import Queue Outbox ProjectionDeliveries RunProjection RunReplay StreamEffects PgSystem.
From S2P Require Import WorkerResults Attempts AttemptEffects Authorizations AuthorizationEffects.
From S2P Require Import PgProperties AttemptProperties AuthorizationProperties SystemSample.

Module Approving.
Import Sample Session Documents.

#[export] Instance uuid_canonical : UuidLaws.
Proof. done. Qed.
#[export] Instance approvals_roundtrip : AuthorizationLaws.
Proof. by intros [] j _ _ [= <-]. Qed.

(** Statements are counted from a number that makes the attempt the one of the request. *)
Definition q0 : DB Forja := mkDB
  (mkForja _ (mkCanonical _ {[store_scope home]} ∅ ∅ ∅ ∅) (mkStream _ [] [] 0 ∅ ∅ ∅ [] ∅)
     (mkWork ∅ None (mkTables ∅ ∅ ∅))) 0 25.
Definition order (op : operation) (s : DB Forja) : DB Forja := (perform home op s).2.
Definition q3 : DB Forja := order approve (order submit (order plan q0)).

Definition scheduler : LeaseKey := mkLeaseKey uuid1 uuid1 "scheduler" "main".
Definition hold : lease_op := OpAcquire home scheduler "sched" Hour.
Definition q4 : DB Forja := (on_leases (run_op hold) q3).2.
Definition create_attempt : attempt_op :=
  AttemptCreate run_id "queued" (md "key-0007") (mkLeaseProof scheduler "sched" 1).
Definition q5 : DB Forja := (attempt_run home create_attempt q4).2.

Definition approver : CommandMetadata := md "key-0008".
Abbreviation approving := (AuthorizeDelivery home request approver).
Definition q6 : DB Forja := (approving q5).2.

(** ** The history *)

Abbreviation steps := (rtc (system anything)).

Lemma ordered op s : steps s (order op s).
Proof.
  apply rtc_once. exists (ByCommand home op). split; [done|]. unfold order.
  destruct (perform home op s) as [r s'] eqn:Hrun. by exists r.
Qed.

Lemma reach_q5 : steps q0 q5.
Proof.
  etrans; [apply (ordered plan)|]. etrans; [apply (ordered submit)|]. etrans; [apply (ordered approve)|].
  fold q3. transitivity q4; apply rtc_once.
  - exists (ByLease hold). split; [done|]. unfold q4. destruct (on_leases (run_op hold) q3) as [r s'] eqn:Hrun. by exists r.
  - exists (ByAttempt home create_attempt). split; [done|]. unfold q5.
    destruct (attempt_run home create_attempt q4) as [r s'] eqn:Hrun. by exists r.
Qed.

Lemma q0_fresh : fresh (tables q0).
Proof. by split. Qed.

Lemma approved : ∃ auth, approving q5 = (Ok auth, q6).
Proof.
  assert (is_ok (approving q5).1 = true) as Hok by (vm_compute; reflexivity).
  unfold q6. destruct (approving q5) as [[auth|e] s']; [by exists auth|done].
Qed.

Lemma approve_step : steps q5 q6.
Proof.
  apply rtc_once. exists (ByAuthorization home request approver). split; [done|].
  destruct approved as [auth Hrun]. exists (Ok auth). exact Hrun.
Qed.

Lemma reach_q6 : steps q0 q6.
Proof. etrans; [exact reach_q5|exact approve_step]. Qed.

Lemma key_unused :
  idempotency_keys (canonical (tables q5)) !!
    (tenantID home, authorize_scope home request, IdempotencyKey approver) = None.
Proof. vm_compute. reflexivity. Qed.

(** ** Witnesses *)

Lemma authorization_earned_witness :
  ∃ auth r a, approving q5 = (Ok auth, q6) ∧ da_Request auth = request ∧ da_ApprovedBy auth = "alice" ∧
    eligible home request (tables q5) r a.
Proof.
  destruct approved as [auth Hrun].
  destruct (authorization_earned home request approver q5 auth q6 Hrun key_unused)
    as (Hreq & Hby & _ & _ & _ & _ & (r & a & Hel & _) & _).
  exists auth, r, a. exact (conj Hrun (conj Hreq (conj Hby Hel))).
Defined.

Lemma authorization_durable_witness :
  ∃ auth s, approving q5 = (Ok auth, q6) ∧
    GetDeliveryAuthorization home delivery attempt q6 = (Ok (Some auth), s) ∧ tables s = tables q6.
Proof.
  destruct approved as [auth Hrun].
  assert (forallb ValidString (authorization_texts auth) = true) as Htexts.
  { assert (forallb ValidString (match (approving q5).1 with Ok a => authorization_texts a | Err _ => [] end) = true) as Hx
      by (vm_compute; reflexivity). rewrite Hrun in Hx. exact Hx. }
  destruct (authorization_durable q0 q5 home request approver auth q6 q6 q0_fresh reach_q5 Hrun key_unused Htexts)
    as (s & Hget & Ht); [constructor|].
  exists auth, s. exact (conj Hrun (conj Hget Ht)).
Defined.

Lemma authorizations_bind_witness :
  ∃ e original, e ∈ events (stream (tables q6)) ∧ lawful_approval (tables q6) e original.
Proof.
  destruct approved as [auth Hrun].
  assert (∃ auth s, GetDeliveryAuthorization home delivery attempt q6 = (Ok (Some auth), s)) as (auth' & s & Hget).
  { assert (match (GetDeliveryAuthorization home delivery attempt q6).1 with Ok (Some _) => true | _ => false end = true) as Hx
      by (vm_compute; reflexivity).
    destruct (GetDeliveryAuthorization home delivery attempt q6) as [[[a|]|] s]; [by exists a, s|done..]. }
  destruct (authorizations_bind q0 q6 home delivery attempt auth' s q0_fresh reach_q6 Hget)
    as (e & original & He & _ & _ & Hl & _).
  exists e, original. exact (conj He Hl).
Defined.
End Approving.
