(* ===== verification/PublicationService.v ===== *)
(** * Package [internal/delivery]: the publication service ([publication.go])

    The service builds the intent of a publication from the request, the result
    commit and the validation evidence, journals it, lets the journal call back
    for the compare-and-swap of the Git reference, and releases the leases. After
    a crash, [Recover] decides by what the reference shows.

    Git, the file system and the JSON schemas are parameters ([Host], [Schemas]):
    any computation on a state of their own, next to the database. *)

From S2P Require Import Prelude GoLib Fault Contracts Identity RunState LeasePaths Postgres DeliveryContracts.
From S2P Require Import ControlMemory Leases LeaseSets PgTables PgEvents Publications.
From Stdlib Require Import Ascii.

(** ** Data *)

Record CommitResult := mkCommitResult {
  cr_BaseCommit : string;
  cr_ResultCommit : string;
  cr_ResultTree : string;
  cr_PatchSHA256 : string;
  cr_ChangedPaths : list string;
}.

Record ValidationBundle := mkBundle {
  vb_Report : ValidationReport;
  vb_ReportJSON : string;
  vb_Manifest : EvidenceManifest;
  vb_ManifestJSON : string;
  vb_ReportRef : string;
  vb_ManifestRef : string;
  vb_PhysicalRoot : string;
}.

(** The zero value has no receipt. *)
Record PublicationResult := mkPublicationResult {
  pr_Receipt : option DeliveryReceipt;
  pr_Replayed : bool;
  pr_LeaseReleased : bool;
}.
Definition noResult : PublicationResult := mkPublicationResult None false false.

Record RepositoryAuthority := mkRepositoryAuthority {
  ra_TenantID : string;
  ra_RepositoryID : string;
  ra_RepositoryPath : string;
}.

Definition ErrPublicationConflict : error := Sentinel "delivery publication conflict".
Definition ErrPublicationNotApplied : error := Sentinel "delivery publication was not applied".

(** What [os.Stat] and [os.Lstat] tell: the kind of the file and which file it is. *)
Record FileInfo := mkFileInfo { fi_symlink : bool; fi_dir : bool; fi_file : string }.
Definition SameFile (a b : FileInfo) : bool := bool_decide (fi_file a = fi_file b).

(** The part of [resolvedRequest] a publication looks at. *)
Record resolvedRequest := mkResolved { re_request : DeliveryRequest; re_repositoryPhysical : string }.

(** The operating system, and the methods of [WorktreeManager] that run Git. *)
Class Host (G : Type) := {
  Lstat : string → M error G FileInfo;
  Stat : string → M error G FileInfo;
  EvalSymlinks : string → M error G string;
  manager_git : string → list string → M error G string;
  manager_gitMutation : string → list string → M error G string;
  resolveRequest : DeliveryRequest → M error G resolvedRequest;
  inspectCommitResult : resolvedRequest → string → M error G CommitResult;
  verifyPersistedValidationBundle : DeliveryRequest → ValidationBundle → M error G unit;
  (** The field [now], which is [time.Now]. *)
  host_now : G → Time * G;
}.

(** [contracts.NewRegistry] and its method [ValidateJSON]; [None] is nil. *)
Class Schemas := {
  NewRegistry : option error;
  ValidateJSON : string → string → option error;
}.

Record PublicationService := mkService {
  sv_store : PgStore;
  sv_authority : RepositoryAuthority;
  sv_repositoryIdentity : FileInfo;
}.

(** ** Pure parts *)

Definition fullObjectIDPattern : list class := replicate 40 cl_hex.

Definition optionalCommitEqual (left right : option string) : bool := bool_decide (left = right).

Definition sameCommitResult (left right : CommitResult) : bool :=
  bool_decide (cr_BaseCommit left = cr_BaseCommit right) &&
  bool_decide (cr_ResultCommit left = cr_ResultCommit right) &&
  bool_decide (cr_ResultTree left = cr_ResultTree right) &&
  bool_decide (cr_PatchSHA256 left = cr_PatchSHA256 right) &&
  bool_decide (cr_ChangedPaths left = cr_ChangedPaths right).

(** [bytes.Split] with a separator of one byte. *)
Fixpoint Split_byte (c : ascii) (s : string) : list string :=
  match s with
  | "" => [""]
  | String x s' =>
      match Split_byte c s' with
      | [] => []
      | part :: rest => if bool_decide (x = c) then "" :: part :: rest else String x part :: rest
      end
  end.

Definition requireExactPublicationRecord (record : DeliveryPublication) (intent : DeliveryPublicationIntent)
    : result unit :=
  let stored := dp_Intent record in
  fail_if
    (negb (bool_decide (pi_DeliveryID stored = pi_DeliveryID intent)) ||
     negb (bool_decide (pi_TenantID stored = pi_TenantID intent)) ||
     negb (bool_decide (pi_RepositoryID stored = pi_RepositoryID intent)) ||
     negb (bool_decide (pi_AttemptID stored = pi_AttemptID intent)) ||
     negb (bool_decide (pi_LeaseSetID stored = pi_LeaseSetID intent)) ||
     negb (pi_LeaseTTLMS stored =? pi_LeaseTTLMS intent)%Z ||
     negb (bool_decide (pi_PublicationRef stored = pi_PublicationRef intent)) ||
     negb (optionalCommitEqual (pi_PublicationPreviousCommit stored) (pi_PublicationPreviousCommit intent)) ||
     negb (bool_decide (pi_ResultCommit stored = pi_ResultCommit intent)) ||
     negb (bool_decide (pi_AuthoritySHA256 stored = pi_AuthoritySHA256 intent)) ||
     negb (bool_decide (pi_ReceiptSHA256 stored = pi_ReceiptSHA256 intent)) ||
     negb (bool_decide (pi_IntentSHA256 stored = pi_IntentSHA256 intent)) ||
     negb (bool_decide (pi_ReceiptJSON stored = pi_ReceiptJSON intent)))
    (Errorf (Lit "%w: publication intent replay changed authority") ErrPublicationConflict).

(** The copy of the request with the path of the authority. *)
Definition set_repository (request : DeliveryRequest) (path : string) : DeliveryRequest :=
  mkDeliveryRequest (rq_DeliveryID request) (rq_TenantID request) (rq_RepositoryID request)
    (rq_TaskID request) (rq_AttemptID request) (rq_RunID request) (rq_SchemaVersion request) path
    (rq_WorktreeRoot request) (rq_BaseCommit request) (rq_PublicationRef request)
    (rq_PublicationPreviousCommit request) (rq_AuthorID request) (rq_ValidatorID request)
    (rq_Role request) (rq_Objective request) (rq_ReadScopes request) (rq_WriteScopes request)
    (rq_ArtifactScopes request) (rq_EvidenceScope request) (rq_ContextPackRef request)
    (rq_AttemptOrdinal request) (rq_Model request) (rq_WorkerBudgets request)
    (rq_MechanicalValidatorIDs request) (rq_LeaseTTLMS request).

(** [slices.SortFunc] of the fences by type and identifier. *)
Definition fence_le (a b : DeliveryLeaseFence) : Prop :=
  if decide (fn_ResourceType a = fn_ResourceType b) then String.le (fn_ResourceID a) (fn_ResourceID b)
  else String.le (fn_ResourceType a) (fn_ResourceType b).
#[export] Instance fence_le_dec : RelDecision fence_le.
Proof. unfold fence_le. intros a b. case_decide; apply _. Defined.

Definition receiptFences (request : DeliveryRequest) (leaseSet : LeaseSet)
    (storageTenantID storageRepositoryID : string) : result (list DeliveryLeaseFence) :=
  _ ← fail_if (bool_decide (ls_OwnerID leaseSet = "") || Nat.eqb (length (ls_Leases leaseSet)) 0)
        (plain_error "lease set has no ownership proof");
  fences ← loop (λ fences lease,
    let key := l_LeaseKey lease in
    _ ← fail_if (negb (bool_decide (l_OwnerID lease = ls_OwnerID leaseSet)) || (l_FencingToken lease <? 1)%Z ||
                 negb (bool_decide (k_TenantID key = storageTenantID)) ||
                 negb (bool_decide (k_RepositoryID key = storageRepositoryID)))
          (plain_error "lease set contains inconsistent ownership proof");
    Ok (fences ++ [mkFence (k_ResourceType key) (k_ResourceID key) (l_OwnerID lease) (l_FencingToken lease)]))
    [] (ls_Leases leaseSet);
  let fences := merge_sort fence_le fences in
  _ ← fail_if (negb (bool_decide (fence_key <$> fences = ExpectedDeliveryFenceKeys request)))
        (plain_error "lease set fences disagree with approved delivery scopes");
  Ok fences.

(** [publicationReceiptTimes]: when the receipt was created and published. *)
Definition recordedPublicationTimes `{DeliveryJson} (record : DeliveryPublication) : result (Time * Time) :=
  match receipt_of_json (pi_ReceiptJSON (dp_Intent record)) with
  | Err e => Err (Errorf (Lit "decode recorded publication receipt timestamp: %w") e)
  | Ok receipt =>
      _ ← fail_if (IsZero (rt_CreatedAt receipt) || IsZero (rt_PublishedAt receipt) ||
                   Before (rt_PublishedAt receipt) (rt_CreatedAt receipt))
            (plain_error "recorded publication receipt has inconsistent operation timestamps");
      Ok (rt_CreatedAt receipt, rt_PublishedAt receipt)
  end.

Definition recordedPublicationTime `{DeliveryJson} (record : DeliveryPublication) : result Time :=
  timestamps ← recordedPublicationTimes record;
  Ok timestamps.2.

(** [invalidPublicationRefConflict]: an observation that no reference can explain. *)
Definition invalidPublicationRefConflict (err : error) : option error :=
  match As_invalid err with
  | Some invalid => Some (Errorf (Lit "%w: %v") ErrPublicationConflict)
  | None => None
  end.

Definition publicationRefReadError (err : error) : error :=
  match invalidPublicationRefConflict err with Some cause => cause | None => err end.

(** The output of [git for-each-ref], taken apart. *)
Definition parsePublicationRef (publicationRef output : string) : result (option string) :=
  let output := TrimSpace output in
  let invalid m := Err (invalidPublicationRefObservation (plain_error m)) in
  if bool_decide (output = "") then Ok None
  else
    match Split_byte (chr 10) output with
    | [line] =>
        match Split_byte (chr 0) line with
        | [name; objecttype; objectname; symref] =>
            if bool_decide (name = publicationRef) && bool_decide (objecttype = "commit") &&
               bool_decide (symref = "") && match_classes fullObjectIDPattern objectname
            then Ok (Some objectname)
            else invalid "publication ref is symbolic or does not identify a canonical commit"
        | _ => invalid "publication ref is symbolic or does not identify a canonical commit"
        end
    | _ => invalid "publication ref lookup was ambiguous"
    end.

(** ** Computations *)

(** An error kept as a value. *)
Definition handle {S A} (m : M error S A) : M error S (result A) := λ s, let '(r, s') := m s in (Ok r, s').

(** [fmt.Errorf(text, err)] around a failure. *)
Definition annotated {S A} (text : message) (m : M error S A) : M error S A := λ s,
  match m s with
  | (Ok a, s') => (Ok a, s')
  | (Err e, s') => (Err (Errorf text e), s')
  end.

Section git.
Context {G : Type} `{Host G}.
Abbreviation Git := (M error G).

Definition canonicalDirectory (value label : string) : Git string :=
  if contains_byte (chr 0) value || contains_byte (chr 13) value || contains_byte (chr 10) value ||
     negb (IsAbs value) || negb (bool_decide (Clean value = value))
  then throw (ErrorString (Sprintf "%s path must be absolute, clean, and single-line" [label]))
  else
    info ← annotated (Sprintf "stat %s path: %w" [label]) (Lstat value);
    if fi_symlink info || negb (fi_dir info)
    then throw (ErrorString (Sprintf "%s path must be a real directory" [label]))
    else annotated (Sprintf "resolve %s path: %w" [label]) (EvalSymlinks value).

(** [NewPublicationService]; [given] says that no collaborator is nil. *)
Definition NewPublicationService `{Schemas} (given : bool) (store : PgStore) (authority : RepositoryAuthority)
    : Git PublicationService :=
  _ ← lift (fail_if (negb given)
        (plain_error "worktree manager, publication journal, and lease repository are required"));
  _ ← lift (wrapped "repository authority: %w"
        (ValidateRepositoryIdentity (ra_TenantID authority) (ra_RepositoryID authority)));
  physicalRepository ← canonicalDirectory (ra_RepositoryPath authority) "repository authority";
  repositoryIdentity ← annotated (Lit "stat repository authority: %w") (Stat physicalRepository);
  match NewRegistry with
  | Some err => throw (Errorf (Lit "compile canonical schemas: %w") err)
  | None => mret (mkService store
      (mkRepositoryAuthority (ra_TenantID authority) (ra_RepositoryID authority) physicalRepository)
      repositoryIdentity)
  end.

Definition verifyRepositoryAuthority (s : PublicationService) : Git unit :=
  let path := ra_RepositoryPath (sv_authority s) in
  physicalRepository ← canonicalDirectory path "repository authority";
  currentIdentity ← annotated (Lit "stat repository authority: %w") (Stat physicalRepository);
  if negb (bool_decide (physicalRepository = path)) ||
     negb (SameFile (sv_repositoryIdentity s) currentIdentity)
  then throw (plain_error "publication service repository authority changed on disk")
  else mret tt.

Definition observePublicationRef (s : PublicationService) (publicationRef : string) : Git (option string) :=
  _ ← verifyRepositoryAuthority s;
  output ← annotated (Lit "inspect publication ref: %w")
             (manager_git (ra_RepositoryPath (sv_authority s))
                ["for-each-ref"; "--format=%(refname)%00%(objecttype)%00%(objectname)%00%(symref)";
                 "--count=2"; publicationRef]);
  _ ← verifyRepositoryAuthority s;
  lift (parsePublicationRef publicationRef output).

(** The arguments of the compare-and-swap. *)
Definition zeroCommit : string := string_of (replicate 40 (chr 48)).
Definition cas_arguments (intent : DeliveryPublicationIntent) : list string :=
  ["update-ref"; "--no-deref"; pi_PublicationRef intent; pi_ResultCommit intent;
   default zeroCommit (pi_PublicationPreviousCommit intent)].

(** What an update that failed left behind. *)
Definition afterFailedUpdate (s : PublicationService) (intent : DeliveryPublicationIntent) (updateErr : error)
    : Git unit :=
  observed ← handle (observePublicationRef s (pi_PublicationRef intent));
  match observed with
  | Err observeErr =>
      match invalidPublicationRefConflict observeErr with
      | Some cause => throw (publicationRefConflict None cause)
      | None => throw (Joined (Errorf (Lit "compare-and-swap publication: %w") updateErr) observeErr)
      end
  | Ok observed =>
      if bool_decide (observed = Some (pi_ResultCommit intent)) then mret tt
      else if optionalCommitEqual observed (pi_PublicationPreviousCommit intent)
      then throw (Errorf (Lit "compare-and-swap publication did not complete: %w") updateErr)
      else throw (publicationRefConflict observed
             (Errorf (Lit "%w: publication ref moved during compare-and-swap") ErrPublicationConflict))
  end.

Definition applyPublicationCAS (s : PublicationService) (intent : DeliveryPublicationIntent) : Git unit :=
  observed ← handle (observePublicationRef s (pi_PublicationRef intent));
  match observed with
  | Err err =>
      match invalidPublicationRefConflict err with
      | Some cause => throw (publicationRefConflict None cause)
      | None => throw err
      end
  | Ok observed =>
      if bool_decide (observed = Some (pi_ResultCommit intent)) then mret tt
      else if negb (optionalCommitEqual observed (pi_PublicationPreviousCommit intent))
      then throw (publicationRefConflict observed
             (Errorf (Lit "%w: publication ref is not at the approved previous commit") ErrPublicationConflict))
      else
        _ ← verifyRepositoryAuthority s;
        updated ← handle (manager_gitMutation (ra_RepositoryPath (sv_authority s)) (cas_arguments intent));
        match updated with
        | Ok _ => verifyRepositoryAuthority s
        | Err updateErr => afterFailedUpdate s intent updateErr
        end
  end.

(** ** Intents *)

Section intents.
Context `{Sha256, DeliveryJson, Schemas}.

(** The checks that [publicationIntent] and [journaledRecoveryIntent] start with;
    the first compares the resolved repository once more ([strict]). *)
Definition publicationAuthority (s : PublicationService) (strict : bool) (request : DeliveryRequest)
    (result : CommitResult) (leaseSet : LeaseSet) : Git (string * string * list DeliveryLeaseFence) :=
  let authority := sv_authority s in
  _ ← verifyRepositoryAuthority s;
  _ ← lift (ValidateDeliveryRequest request);
  physicalRepository ← canonicalDirectory (rq_RepositoryPath request) "delivery repository";
  _ ← lift (fail_if (negb (bool_decide (rq_TenantID request = ra_TenantID authority)) ||
                     negb (bool_decide (rq_RepositoryID request = ra_RepositoryID authority)) ||
                     negb (bool_decide (physicalRepository = ra_RepositoryPath authority)))
        (plain_error "delivery request does not match the publication service repository authority"));
  '(storageTenantID, storageRepositoryID) ←
    lift (RepositoryStorageIdentity (rq_TenantID request) (rq_RepositoryID request));
  _ ← lift (fail_if (negb (bool_decide (ls_LeaseSetID leaseSet = rq_AttemptID request)))
        (plain_error "lease set ID must equal the approved attempt ID"));
  resolved ← resolveRequest (set_repository request (ra_RepositoryPath authority));
  _ ← lift (fail_if (strict && negb (bool_decide (re_repositoryPhysical resolved = ra_RepositoryPath authority)))
        (plain_error "resolved delivery repository changed after authority validation"));
  recomputed ← inspectCommitResult resolved (cr_ResultCommit result);
  _ ← verifyRepositoryAuthority s;
  _ ← lift (fail_if (negb (sameCommitResult result recomputed))
        (plain_error "supplied result identity disagrees with Git"));
  fences ← lift (receiptFences request leaseSet storageTenantID storageRepositoryID);
  mret (storageTenantID, storageRepositoryID, fences).

(** The intent whose authority and receipt have these bytes. *)
Definition intentOf (request : DeliveryRequest) (result : CommitResult) (leaseSet : LeaseSet)
    (storageTenantID storageRepositoryID authorityJSON receiptJSON : string) : DeliveryPublicationIntent :=
  let unsigned identity := mkIntent (rq_DeliveryID request) storageTenantID storageRepositoryID
    (rq_AttemptID request) (ls_LeaseSetID leaseSet) (rq_LeaseTTLMS request) (rq_PublicationRef request)
    (rq_PublicationPreviousCommit request) (cr_ResultCommit result) (hexText (Sum256 authorityJSON))
    (hexText (Sum256 receiptJSON)) identity receiptJSON in
  unsigned (hexText (Sum256 (identityJSON (unsigned "")))).

Definition schema_checked (text name data : string) : result unit :=
  match ValidateJSON name data with Some e => Err (Errorf (Lit text) e) | None => Ok tt end.

Definition canonical_bytes (encoded : result string) (bytes text : string) : result unit :=
  match encoded with
  | Ok canonical => fail_if (negb (bool_decide (canonical = bytes))) (plain_error text)
  | Err _ => Err (plain_error text)
  end.

Definition validatePublicationArtifactSchemas (request : DeliveryRequest) (bundle : ValidationBundle)
    : result string :=
  authorityJSON ← wrapped "encode publication authority: %w" (request_json request);
  _ ← schema_checked "validate canonical delivery request schema: %w" "delivery-request.schema.json" authorityJSON;
  _ ← canonical_bytes (report_json (vb_Report bundle)) (vb_ReportJSON bundle)
        "validation report bytes are not canonical";
  _ ← schema_checked "validate canonical validation report schema: %w" "validation-report.schema.json"
        (vb_ReportJSON bundle);
  _ ← canonical_bytes (manifest_json (vb_Manifest bundle)) (vb_ManifestJSON bundle)
        "evidence manifest bytes are not canonical";
  _ ← schema_checked "validate canonical evidence manifest schema: %w" "evidence-manifest.schema.json"
        (vb_ManifestJSON bundle);
  Ok authorityJSON.

(** The receipt of a publication. *)
Definition receiptOf (request : DeliveryRequest) (result : CommitResult) (bundle : ValidationBundle)
    (fences : list DeliveryLeaseFence) (times : Time * Time) : DeliveryReceipt :=
  mkDeliveryReceipt (rq_DeliveryID request) (rq_TenantID request) (rq_RepositoryID request)
    DeliverySchemaVersion "published" (cr_BaseCommit result) (cr_ResultCommit result)
    (cr_ResultTree result) (cr_PatchSHA256 result) (cr_ChangedPaths result) (rq_PublicationRef request)
    (rq_PublicationPreviousCommit request) (rq_AuthorID request) (rq_ValidatorID request) fences
    (vb_ReportRef bundle) (vb_ManifestRef bundle) times.1 times.2.

Definition publicationIntent (s : PublicationService) (request : DeliveryRequest) (result : CommitResult)
    (bundle : ValidationBundle) (leaseSet : LeaseSet) (receiptTimes : Time * Time)
    (requirePersistedEvidence : bool) : Git (DeliveryPublicationIntent * DeliveryReceipt) :=
  '(storageTenantID, storageRepositoryID, fences) ← publicationAuthority s true request result leaseSet;
  let receipt := receiptOf request result bundle fences receiptTimes in
  _ ← lift (ValidateDeliveryPublication request (vb_Report bundle) (vb_ManifestJSON bundle) receipt);
  authorityJSON ← lift (validatePublicationArtifactSchemas request bundle);
  _ ← (if requirePersistedEvidence
       then annotated (Lit "verify persisted publication evidence: %w") (verifyPersistedValidationBundle request bundle)
       else mret tt);
  receiptJSON ← lift (wrapped "encode canonical receipt: %w" (receipt_json receipt));
  _ ← lift (schema_checked "validate canonical receipt schema: %w" "delivery-receipt.schema.json" receiptJSON);
  mret (intentOf request result leaseSet storageTenantID storageRepositoryID authorityJSON receiptJSON, receipt).

(** The comparison of the journaled receipt with the approved request. *)
Definition recoveryAgrees (request : DeliveryRequest) (result : CommitResult)
    (fences : list DeliveryLeaseFence) (receipt : DeliveryReceipt) : bool :=
  bool_decide (rt_DeliveryID receipt = rq_DeliveryID request) &&
  bool_decide (rt_TenantID receipt = rq_TenantID request) &&
  bool_decide (rt_RepositoryID receipt = rq_RepositoryID request) &&
  bool_decide (rt_SchemaVersion receipt = DeliverySchemaVersion) &&
  bool_decide (rt_Status receipt = "published") &&
  bool_decide (rt_BaseCommit receipt = cr_BaseCommit result) &&
  bool_decide (rt_ResultCommit receipt = cr_ResultCommit result) &&
  bool_decide (rt_ResultTree receipt = cr_ResultTree result) &&
  bool_decide (rt_PatchSHA256 receipt = cr_PatchSHA256 result) &&
  bool_decide (rt_ChangedPaths receipt = cr_ChangedPaths result) &&
  bool_decide (rt_PublicationRef receipt = rq_PublicationRef request) &&
  optionalCommitEqual (rt_PublicationPreviousCommit receipt) (rq_PublicationPreviousCommit request) &&
  bool_decide (rt_AuthorID receipt = rq_AuthorID request) &&
  bool_decide (rt_ValidatorID receipt = rq_ValidatorID request) &&
  bool_decide (rt_LeaseFences receipt = fences) &&
  negb (IsZero (rt_CreatedAt receipt)) &&
  negb (Before (rt_PublishedAt receipt) (rt_CreatedAt receipt)).

Definition journaledRecoveryIntent (s : PublicationService) (request : DeliveryRequest) (result : CommitResult)
    (leaseSet : LeaseSet) (record : DeliveryPublication) : Git (DeliveryPublicationIntent * DeliveryReceipt) :=
  '(storageTenantID, storageRepositoryID, fences) ← publicationAuthority s false request result leaseSet;
  let recorded := pi_ReceiptJSON (dp_Intent record) in
  _ ← lift (schema_checked "validate journaled delivery receipt schema: %w" "delivery-receipt.schema.json" recorded);
  receipt ← lift (wrapped "decode journaled delivery receipt: %w" (receipt_of_json recorded));
  _ ← lift (canonical_bytes (receipt_json receipt) recorded "journaled delivery receipt bytes are not canonical");
  _ ← lift (fail_if (negb (recoveryAgrees request result fences receipt))
        (plain_error "journaled delivery receipt disagrees with approved recovery authority"));
  authorityJSON ← lift (wrapped "encode journaled publication authority: %w" (request_json request));
  let intent := intentOf request result leaseSet storageTenantID storageRepositoryID authorityJSON recorded in
  _ ← lift (requireExactPublicationRecord record intent);
  mret (intent, receipt).
End intents.
End git.

(** ** The service *)

(** A callback that leaves a mark, and one that does not. *)
Definition flagged {G A} (m : M error G A) : M error (G * bool) A := λ g,
  let '(r, g') := m g.1 in (r, (g', true)).
Definition unflagged {G A} (m : M error G A) : M error (G * bool) A := λ g,
  let '(r, g') := m g.1 in (r, (g', g.2)).

(** [m] with a fresh mark: its outcome, and whether the mark was left. *)
Definition with_mark `{Json} {G A} (m : M error (World (G * bool)) A) : M error (World G) (result A * bool) := λ w,
  let '(r, w') := m (mkWorld (db w) (git w, false)) in
  (Ok (r, (git w').2), mkWorld (db w') (git w').1).

Section service.
Context {G : Type} `{Clock, Database, TimeText, Sha256, Collation, Json, DeliveryJson, Schemas, !Host G}.
Abbreviation Act := (M error (World G)).
(** A result with an error next to it. *)
Abbreviation Answer := (PublicationResult * option error)%type.

Definition now : Act Time := λ w, let '(t, g) := host_now (git w) in (Ok t, mkWorld (db w) g).

Definition releaseLeases (s : PublicationService) (leaseSet : LeaseSet) : Act unit :=
  on_db (on_leases (ReleaseLeaseSet (sv_store s) leaseSet)).

Definition releasePublishedLease (s : PublicationService) (receipt : DeliveryReceipt) (leaseSet : LeaseSet)
    (replayed : bool) : Act Answer :=
  released ← handle (releaseLeases s leaseSet);
  match released with
  | Err err => mret (mkPublicationResult (Some receipt) replayed false,
      Some (Errorf (Lit "published receipt is durable but lease release failed: %w") err))
  | Ok _ => mret (mkPublicationResult (Some receipt) replayed true, None)
  end.

(** What is done about an abandoned publication. *)
Definition notApplied (s : PublicationService) (leaseSet : LeaseSet) : Act Answer :=
  released ← handle (releaseLeases s leaseSet);
  match released with
  | Err err => throw (Joined ErrPublicationNotApplied err)
  | Ok _ => throw ErrPublicationNotApplied
  end.

(** The check of the reference that precedes every answer of a receipt. *)
Definition confirmRef (s : PublicationService) (publicationRef resultCommit text : string) : Act unit :=
  observed ← handle (on_git (observePublicationRef s publicationRef));
  match observed with
  | Err err => throw (publicationRefReadError err)
  | Ok observed =>
      if bool_decide (observed = Some resultCommit) then mret tt
      else throw (Errorf (Lit text) ErrPublicationConflict)
  end.

Definition durableReceipt : string := "%w: durable receipt disagrees with the Git ref".

Definition replayPublished (s : PublicationService) (request : DeliveryRequest) (result : CommitResult)
    (receipt : DeliveryReceipt) (leaseSet : LeaseSet) : Act Answer :=
  _ ← confirmRef s (rq_PublicationRef request) (cr_ResultCommit result) durableReceipt;
  releasePublishedLease s receipt leaseSet true.

Definition unsupportedState (state : string) : error :=
  ErrorString (Sprintf "publication journal returned unsupported state %q" [state]).

(** [PrepareDeliveryPublication], or the row a concurrent publisher prepared. *)
Definition prepareOrRebuild (s : PublicationService) (request : DeliveryRequest) (result : CommitResult)
    (bundle : ValidationBundle) (leaseSet : LeaseSet) (intent : DeliveryPublicationIntent)
    (receipt : DeliveryReceipt) : Act (DeliveryPublicationIntent * DeliveryReceipt * DeliveryPublication) :=
  prepared ← handle (on_db (PrepareDeliveryPublication (sv_store s) intent leaseSet));
  match prepared with
  | Ok record => mret (intent, receipt, record)
  | Err err =>
      loaded ← handle (on_db (GetDeliveryPublication (sv_store s) (rq_DeliveryID request) (rq_AttemptID request)));
      match loaded with
      | Err loadErr => throw (Joined err loadErr)
      | Ok None => throw err
      | Ok (Some concurrent) =>
          match recordedPublicationTimes concurrent with
          | Err timestampErr => throw (Joined err timestampErr)
          | Ok concurrentTimes =>
              rebuilt ← handle (on_git (publicationIntent s request result bundle leaseSet concurrentTimes
                          (bool_decide (dp_State concurrent = "prepared"))));
              match rebuilt with
              | Err rebuildErr => throw (Joined err rebuildErr)
              | Ok (concurrentIntent, concurrentReceipt) =>
                  match requireExactPublicationRecord concurrent concurrentIntent with
                  | Err exactErr => throw (Joined err exactErr)
                  | Ok _ => mret (concurrentIntent, concurrentReceipt, concurrent)
                  end
              end
          end
      end
  end.

(** The journal's completion with the compare-and-swap as its callback. *)
Definition completePublication (s : PublicationService) (request : DeliveryRequest) (result : CommitResult)
    (bundle : ValidationBundle) (leaseSet : LeaseSet) (intent : DeliveryPublicationIntent)
    (receipt : DeliveryReceipt) : Act Answer :=
  '(completed, callbackRan) ← with_mark (CompleteDeliveryPublication (sv_store s) intent leaseSet
     (Some (unflagged (annotated (Lit "revalidate persisted publication evidence: %w")
                         (verifyPersistedValidationBundle request bundle))))
     (Some (flagged (applyPublicationCAS s intent))));
  match completed with
  | Err err =>
      match As_conflict err with
      | Some (observed, cause) =>
          journaled ← handle (on_db (ConflictDeliveryPublication (sv_store s) intent observed));
          match journaled with
          | Ok _ => throw cause
          | Err journalErr => throw (Joined cause journalErr)
          end
      | None => throw (Errorf (Lit "persist published delivery receipt: %w") err)
      end
  | Ok record =>
      if negb (bool_decide (dp_State record = "published"))
      then throw (plain_error "publication journal did not persist a published receipt")
      else
        _ ← confirmRef s (rq_PublicationRef request) (cr_ResultCommit result) durableReceipt;
        releasePublishedLease s receipt leaseSet (negb callbackRan)
  end.

(** [Publish] once no final row of the attempt is known. *)
Definition publishFrom (s : PublicationService) (request : DeliveryRequest) (result : CommitResult)
    (bundle : ValidationBundle) (leaseSet : LeaseSet) (intent : DeliveryPublicationIntent)
    (receipt : DeliveryReceipt) : Act Answer :=
  '(intent, receipt, record) ← prepareOrRebuild s request result bundle leaseSet intent receipt;
  _ ← lift (requireExactPublicationRecord record intent);
  let state := dp_State record in
  if bool_decide (state = "conflict")
  then throw (Errorf (Lit "%w: prepared publication is already conflicted") ErrPublicationConflict)
  else if bool_decide (state = "published") then replayPublished s request result receipt leaseSet
  else if bool_decide (state = "abandoned") then notApplied s leaseSet
  else if negb (bool_decide (state = "prepared")) then throw (unsupportedState state)
  else completePublication s request result bundle leaseSet intent receipt.

Definition Publish (s : PublicationService) (request : DeliveryRequest) (result : CommitResult)
    (bundle : ValidationBundle) (leaseSet : LeaseSet) : Act Answer :=
  recorded ← on_db (GetDeliveryPublication (sv_store s) (rq_DeliveryID request) (rq_AttemptID request));
  clock ← now;
  let publicationAt := Truncate (UTC clock) Microsecond in
  receiptTimes ← match recorded with
                 | Some record => lift (recordedPublicationTimes record)
                 | None => mret (publicationAt, publicationAt)
                 end;
  let requirePersistedEvidence :=
    match recorded with Some record => bool_decide (dp_State record = "prepared") | None => true end in
  '(intent, receipt) ← on_git (publicationIntent s request result bundle leaseSet receiptTimes
                                 requirePersistedEvidence);
  match recorded with
  | None => publishFrom s request result bundle leaseSet intent receipt
  | Some record =>
      _ ← lift (requireExactPublicationRecord record intent);
      let state := dp_State record in
      if bool_decide (state = "published") then replayPublished s request result receipt leaseSet
      else if bool_decide (state = "abandoned") then notApplied s leaseSet
      else if bool_decide (state = "conflict")
      then throw (Errorf (Sprintf "%w: publication attempt is already %s" [state]) ErrPublicationConflict)
      else if bool_decide (state = "prepared")
      then publishFrom s request result bundle leaseSet intent receipt
      else throw (unsupportedState state)
  end.

(** ** Recovery *)

Definition recordInvalidPublicationRefConflict (s : PublicationService) (intent : DeliveryPublicationIntent)
    (err : error) : Act error :=
  match invalidPublicationRefConflict err with
  | None => mret err
  | Some cause =>
      journaled ← handle (on_db (ConflictDeliveryPublication (sv_store s) intent None));
      match journaled with
      | Ok _ => mret cause
      | Err journalErr => mret (Joined cause journalErr)
      end
  end.

(** The reference shows the result: the row becomes published. *)
Definition recoverPublished (s : PublicationService) (request : DeliveryRequest) (result : CommitResult)
    (leaseSet : LeaseSet) (intent : DeliveryPublicationIntent) (receipt : DeliveryReceipt)
    (observed : string) : Act Answer :=
  record ← on_db (RecoverDeliveryPublication (sv_store s) intent observed);
  if negb (bool_decide (dp_State record = "published"))
  then throw (plain_error "recovery did not persist a published receipt")
  else
    _ ← confirmRef s (rq_PublicationRef request) (cr_ResultCommit result)
          "%w: recovered receipt disagrees with the Git ref";
    releasePublishedLease s receipt leaseSet true.

(** The reference shows the previous commit: the row becomes abandoned. *)
Definition recoverAbandoned (s : PublicationService) (request : DeliveryRequest) (result : CommitResult)
    (leaseSet : LeaseSet) (intent : DeliveryPublicationIntent) (receipt : DeliveryReceipt) : Act Answer :=
  abandoned ← handle (AbandonDeliveryPublication (sv_store s) intent
                (Some (observePublicationRef s (rq_PublicationRef request))));
  match abandoned with
  | Err err => e ← recordInvalidPublicationRefConflict s intent err; throw e
  | Ok record =>
      let state := dp_State record in
      if bool_decide (state = "published") then replayPublished s request result receipt leaseSet
      else if bool_decide (state = "abandoned") then notApplied s leaseSet
      else throw (ErrorString (Sprintf "publication abandonment returned unsupported state %q" [state]))
  end.

(** The reference shows another commit: the row becomes a conflict. *)
Definition recoverConflict (s : PublicationService) (intent : DeliveryPublicationIntent)
    (observed : option string) : Act Answer :=
  let moved := Errorf (Lit "%w: publication ref moved to an unapproved commit") ErrPublicationConflict in
  journaled ← handle (on_db (ConflictDeliveryPublication (sv_store s) intent observed));
  match journaled with
  | Ok _ => throw moved
  | Err conflictErr => throw (Joined moved conflictErr)
  end.

Definition Recover (s : PublicationService) (request : DeliveryRequest) (result : CommitResult)
    (leaseSet : LeaseSet) : Act Answer :=
  found ← on_db (GetDeliveryPublication (sv_store s) (rq_DeliveryID request) (rq_AttemptID request));
  match found with
  | None => throw (plain_error "publication intent was not durably prepared")
  | Some record =>
      '(intent, receipt) ← on_git (journaledRecoveryIntent s request result leaseSet record);
      let state := dp_State record in
      if bool_decide (state = "abandoned") then notApplied s leaseSet
      else
        observed ← handle (on_git (observePublicationRef s (rq_PublicationRef request)));
        match observed with
        | Err err =>
            if bool_decide (state = "prepared")
            then e ← recordInvalidPublicationRefConflict s intent err; throw e
            else throw (publicationRefReadError err)
        | Ok observed =>
            if bool_decide (state = "published") then
              if bool_decide (observed = Some (cr_ResultCommit result))
              then releasePublishedLease s receipt leaseSet true
              else throw (Errorf (Lit durableReceipt) ErrPublicationConflict)
            else if negb (bool_decide (state = "prepared"))
            then throw (ErrorString (Sprintf "publication in state %q cannot be recovered" [state]))
            else if bool_decide (observed = Some (cr_ResultCommit result))
            then recoverPublished s request result leaseSet intent receipt (cr_ResultCommit result)
            else if optionalCommitEqual observed (pi_PublicationPreviousCommit intent)
            then recoverAbandoned s request result leaseSet intent receipt
            else recoverConflict s intent observed
        end
  end.
End service.
