(* ===== verification/PublicationGit.v ===== *)
(** * What the publication service does to Git

    The references of the repositories, the documented behaviour of the Git
    commands the service runs ([GitLaws]), and what follows for the observation
    and the compare-and-swap. *)

From S2P Require Import Prelude GoLib Fault Contracts Identity RunState LeasePaths Postgres DeliveryContracts.
From S2P Require Import ControlMemory Leases LeaseSets PgTables PgEvents Publications PublicationService.
From Stdlib Require Import Ascii.

(** ** Laws *)

(** What a reference holds: a commit, or something else (another kind of object,
    or another reference). *)
Inductive RefValue := Direct (commit : string) | Otherwise.

(** The references of the repositories, by the path of the repository. *)
Class GitRefs (G : Type) := refs : G → gmap (string * string) RefValue.

(** An error that is neither of the two types of the package. *)
Definition foreign (e : error) : Prop := As_invalid e = None ∧ As_conflict e = None.

(** The line [for-each-ref] prints for a reference that holds a commit. *)
Definition shown (ref commit : string) : string :=
  ref +:+ NUL +:+ "commit" +:+ NUL +:+ commit +:+ NUL.

Definition for_each_ref (ref : string) : list string :=
  ["for-each-ref"; "--format=%(refname)%00%(objecttype)%00%(objectname)%00%(symref)"; "--count=2"; ref].

(** The state [update-ref] demands before the update. *)
Definition demanded (old : string) : option RefValue :=
  if bool_decide (old = zeroCommit) then None else Some (Direct old).

(** A computation that leaves the references alone, and one that moreover only
    fails with the errors of the libraries below. *)
Definition still {G A} `{GitRefs G} (m : M error G A) : Prop :=
  ∀ g r g', m g = (r, g') → refs g' = refs g.
Definition honest {G A} `{GitRefs G} (m : M error G A) : Prop :=
  ∀ g r g', m g = (r, g') → refs g' = refs g ∧ ∀ e, r = Err e → foreign e.

Class GitLaws (G : Type) `{Host G, GitRefs G} := {
  Lstat_honest p : honest (Lstat p);
  Stat_honest p : honest (Stat p);
  EvalSymlinks_honest p : honest (EvalSymlinks p);
  git_honest p ref : honest (manager_git p (for_each_ref ref));
  evidence_honest request bundle : honest (verifyPersistedValidationBundle request bundle);
  resolve_still request : still (resolveRequest request);
  inspect_still resolved commit : still (inspectCommitResult resolved commit);
  now_still g : refs (host_now g).2 = refs g;
  (** [git for-each-ref] prints the reference, and nothing for a name that is free. *)
  for_each_ref_prints path ref g out g' :
    manager_git path (for_each_ref ref) g = (Ok out, g') →
    match refs g !! (path, ref) with
    | Some (Direct commit) =>
        match_classes fullObjectIDPattern commit = true ∧ TrimSpace out = shown ref commit
    | Some Otherwise => TrimSpace out ≠ "" ∧ ∀ commit, TrimSpace out ≠ shown ref commit
    | None => ∀ commit, TrimSpace out ≠ shown ref commit
    end;
  (** [git update-ref] with an old value: the reference was what was demanded and
      becomes the new commit, or nothing changes and the command fails; a command
      that fails may have done its work. *)
  update_ref_swaps path ref new old g r g' :
    manager_gitMutation path ["update-ref"; "--no-deref"; ref; new; old] g = (r, g') →
    new ≠ zeroCommit → refs g !! (path, ref) ≠ Some Otherwise →
    (∀ e, r = Err e → foreign e) ∧
    ((∃ e, r = Err e) ∧ refs g' = refs g ∨
     refs g !! (path, ref) = demanded old ∧ refs g' = <[(path, ref) := Direct new]> (refs g));
}.

(** ** The parser *)

Lemma Split_byte_join c s : Join (Split_byte c s) (String c "") = s ∧ Split_byte c s ≠ [].
Proof.
  induction s as [|x s [IH Hne]]; [done|]. cbn [Split_byte].
  destruct (Split_byte c s) as [|part rest] eqn:Hs; [done|]. split; [|by case_bool_decide].
  case_bool_decide as Hx; cbn in *.
  - subst x. by rewrite IH.
  - destruct rest; cbn in *; [by rewrite IH|]. by rewrite <-IH, string_app_cons.
Qed.

Lemma Split_byte_none c s : contains_byte c s = false → Split_byte c s = [s].
Proof.
  induction s as [|x s IH]; [done|]. cbn. intros [Hx Hs]%orb_false_iff.
  rewrite (IH Hs). cbn. apply bool_decide_eq_false in Hx. by rewrite bool_decide_eq_false_2 by congruence.
Qed.

Lemma Split_byte_app c s t :
  contains_byte c s = false → Split_byte c (s +:+ String c t) = s :: Split_byte c t.
Proof.
  induction s as [|x s IH].
  - intros _. change ("" +:+ ?x) with x. cbn [Split_byte].
    destruct (Split_byte c t) eqn:Hs; [by destruct (Split_byte_join c t)|]. by rewrite bool_decide_eq_true_2.
  - rewrite string_app_cons. cbn. intros [Hx Hs]%orb_false_iff. rewrite (IH Hs). cbn.
    apply bool_decide_eq_false in Hx. by rewrite bool_decide_eq_false_2 by congruence.
Qed.

Lemma hex_without n c s :
  cl_hex c = false → match_classes (replicate n cl_hex) s = true → contains_byte c s = false.
Proof.
  intros Hc. revert s. induction n as [|n IH]; intros [|x s]; cbn; try done.
  intros [Hx Hs]%andb_true_iff. rewrite (IH _ Hs), orb_false_r. apply bool_decide_eq_false. by intros ->; rewrite Hx in Hc.
Qed.

(** The name of a reference, as far as the parser needs it. *)
Definition one_line (ref : string) : Prop :=
  contains_byte (chr 0) ref = false ∧ contains_byte (chr 10) ref = false.

Lemma parse_shown ref c out :
  one_line ref → match_classes fullObjectIDPattern c = true → TrimSpace out = shown ref c →
  parsePublicationRef ref out = Ok (Some c).
Proof.
  intros [H0 H10] Hc Hout. unfold parsePublicationRef. rewrite Hout.
  assert (contains_byte (chr 0) c = false) as Hc0 by (by eapply hex_without).
  assert (contains_byte (chr 10) c = false) as Hc10 by (by eapply hex_without).
  rewrite bool_decide_eq_false_2. 2: { unfold shown, NUL. by destruct ref. }
  rewrite Split_byte_none. 2: { unfold shown. by rewrite !contains_byte_app, H10, Hc10. }
  change (shown ref c) with (ref +:+ String (chr 0) ("commit" +:+ String (chr 0) (c +:+ String (chr 0) ""))).
  rewrite !Split_byte_app by done. cbn [Split_byte].
  by rewrite !bool_decide_eq_true_2, Hc by done.
Qed.

Lemma parse_some ref c out : parsePublicationRef ref out = Ok (Some c) → TrimSpace out = shown ref c.
Proof.
  unfold parsePublicationRef. case_bool_decide; [done|].
  destruct (Split_byte_join (chr 10) (TrimSpace out)) as [Hj _].
  destruct (Split_byte _ _) as [|line [|? ?]]; [done| |done]. cbn in Hj. rewrite <-Hj.
  destruct (Split_byte_join (chr 0) line) as [Hl _].
  destruct (Split_byte (chr 0) line) as [|name [|ty [|obj [|sym [|? ?]]]]]; try done.
  destruct (_ && _) eqn:Hb; [|done]. apply andb_true_iff in Hb as [Hb _].
  apply andb_true_iff in Hb as [Hb Hsym]. apply andb_true_iff in Hb as [Hn Hty].
  apply bool_decide_eq_true in Hsym, Hn, Hty. subst. by intros [= <-].
Qed.

Lemma parse_none ref out : parsePublicationRef ref out = Ok None → TrimSpace out = "".
Proof.
  unfold parsePublicationRef. case_bool_decide as Hout; [done|].
  destruct (Split_byte _ _) as [|line [|? ?]]; try done.
  destruct (Split_byte (chr 0) line) as [|name [|ty [|obj [|sym [|? ?]]]]]; try done. by destruct (_ && _).
Qed.

Lemma parse_error ref out e : parsePublicationRef ref out = Err e → As_conflict e = None.
Proof.
  unfold parsePublicationRef. case_bool_decide as Hout; [done|].
  destruct (Split_byte _ _) as [|line [|? ?]]; try by intros [= <-].
  destruct (Split_byte (chr 0) line) as [|name [|ty [|obj [|sym [|? ?]]]]]; try by intros [= <-].
  destruct (_ && _); [done|]. by intros [= <-].
Qed.

Lemma string_app_cancel_l (a b c : string) : a +:+ b = a +:+ c → b = c.
Proof. induction a as [|x a IH]; [done|]. rewrite !string_app_cons. intros [= Heq]. by apply IH. Qed.

Lemma string_snoc_inj (a b : string) x : a +:+ String x "" = b +:+ String x "" → a = b.
Proof.
  revert b. induction a as [|y a IH]; intros [|z b]; rewrite ?string_app_cons; [done|..].
  - change ("" +:+ ?x) with x. injection 1 as _ Hb. by destruct b.
  - change ("" +:+ ?x) with x. injection 1 as _ Hb. by destruct a.
  - injection 1 as -> Hb. f_equal. by apply IH.
Qed.

Lemma shown_inj ref c d : shown ref c = shown ref d → c = d.
Proof.
  unfold shown. intros Heq. do 4 apply string_app_cancel_l in Heq. by eapply string_snoc_inj.
Qed.

(** ** Computations that leave the references alone *)

Section still.
Context {G : Type} `{GitRefs G}.

Lemma honest_still {A} (m : M error G A) : honest m → still m.
Proof. intros Hm g r g' Hrun. by apply Hm in Hrun as [? _]. Qed.
Lemma still_ret {A} (a : A) : still (mret a).
Proof. by intros g r g' [= _ <-]. Qed.
Lemma still_throw {A} e : still (throw e : M error G A).
Proof. by intros g r g' [= _ <-]. Qed.
Lemma still_lift {A} (x : result A) : still (lift x).
Proof. by intros g r g' [= _ <-]. Qed.
Lemma still_bind {A B} (m : M error G A) (k : A → M error G B) :
  still m → (∀ a, still (k a)) → still (m ≫= k).
Proof.
  intros Hm Hk g r g'. rewrite M_bind_run. destruct (m g) as [[a|e] g1] eqn:Hrun.
  - intros Hrun'. by rewrite (Hk _ _ _ _ Hrun'), (Hm _ _ _ Hrun).
  - intros [= _ <-]. by eapply Hm.
Qed.
Lemma still_annotated {A} text (m : M error G A) : still m → still (annotated text m).
Proof.
  intros Hm g r g'. unfold annotated. destruct (m g) as [[a|e] g1] eqn:Hrun; intros [= _ <-]; by eapply Hm.
Qed.

Lemma honest_ret {A} (a : A) : honest (mret a).
Proof. by intros g r g' [= <- <-]. Qed.
Lemma honest_throw {A} e : foreign e → honest (throw e : M error G A).
Proof. intros He g r g' [= <- <-]. by split; [|intros ? [= <-]]. Qed.
Lemma honest_bind {A B} (m : M error G A) (k : A → M error G B) :
  honest m → (∀ a, honest (k a)) → honest (m ≫= k).
Proof.
  intros Hm Hk g r g'. rewrite M_bind_run. destruct (m g) as [[a|e] g1] eqn:Hrun.
  - intros Hrun'. apply Hm in Hrun as [<- _]. by eapply Hk.
  - intros [= <- <-]. apply Hm in Hrun as [-> He]. split; [done|]. intros ? [= <-]. by apply He.
Qed.
Lemma honest_annotated {A} text (m : M error G A) : honest m → honest (annotated text m).
Proof.
  intros Hm g r g'. unfold annotated. destruct (m g) as [[a|e] g1] eqn:Hrun; intros [= <- <-];
    apply Hm in Hrun as [-> He]; (split; [done|]); [by intros|]. intros ? [= <-]. exact (He e eq_refl).
Qed.
End still.

Section specs.
Context {G : Type} `{GitLaws G}.
Implicit Types (s : PublicationService) (g : G).

Lemma directory_honest value label : honest (canonicalDirectory value label).
Proof.
  unfold canonicalDirectory. destruct (_ || _); [by apply honest_throw|].
  apply honest_bind; [apply honest_annotated, Lstat_honest|]. intros info.
  destruct (_ || _); [by apply honest_throw|]. apply honest_annotated, EvalSymlinks_honest.
Qed.

Lemma authority_honest s : honest (verifyRepositoryAuthority s).
Proof.
  unfold verifyRepositoryAuthority. apply honest_bind; [apply directory_honest|]. intros path.
  apply honest_bind; [apply honest_annotated, Stat_honest|]. intros id.
  destruct (_ || _); [by apply honest_throw|apply honest_ret].
Qed.

Abbreviation key_of s ref := (ra_RepositoryPath (sv_authority s), ref).

(** What an observation tells about the reference. *)
Definition tells s (ref : string) g (r : result (option string)) : Prop :=
  match r with
  | Ok o => refs g !! key_of s ref = Direct <$> o
  | Err e => As_conflict e = None ∧
      (one_line ref → As_invalid e ≠ None → ∀ c, refs g !! key_of s ref ≠ Some (Direct c))
  end.

Lemma foreign_tells s ref g e : foreign e → tells s ref g (Err e).
Proof. intros [Hi Hc]. split; [done|]. by rewrite Hi. Qed.

Lemma observe_spec s ref g r g' :
  observePublicationRef s ref g = (r, g') → refs g' = refs g ∧ tells s ref g r.
Proof.
  unfold observePublicationRef. rewrite M_bind_run. destruct (verifyRepositoryAuthority s g) as [r1 g1] eqn:Ha1.
  apply authority_honest in Ha1 as [Ha1 He1]. destruct r1 as [[]|e]; [|].
  2: { intros [= <- <-]. split; [done|]. by apply foreign_tells, He1. }
  rewrite M_bind_run. destruct (annotated _ _ g1) as [r2 g2] eqn:Ha2.
  pose proof (honest_annotated _ _ (git_honest _ _) _ _ _ Ha2) as [Hr2 He2]. rewrite Ha1 in Hr2. destruct r2 as [out|e].
  2: { intros [= <- <-]. split; [done|]. by apply foreign_tells, He2. }
  unfold annotated in Ha2. destruct (manager_git _ _ _) as [r2 g2'] eqn:Hgit. destruct r2 as [out'|]; [|done].
  injection Ha2 as -> ->. apply for_each_ref_prints in Hgit. rewrite Ha1 in Hgit.
  rewrite M_bind_run. destruct (verifyRepositoryAuthority s g2) as [r3 g3] eqn:Ha3.
  apply authority_honest in Ha3 as [Ha3 He3]. rewrite Hr2 in Ha3. destruct r3 as [[]|e].
  2: { intros [= <- <-]. split; [done|]. by apply foreign_tells, He3. }
  intros [= <- <-]. split; [done|]. destruct (parsePublicationRef ref out) as [[c|]|e] eqn:Hp; cbn.
  - apply parse_some in Hp. destruct (refs g !! _) as [[d|]|]; [|by destruct (proj2 Hgit c)|by destruct (Hgit c)].
    destruct Hgit as [_ Hgit]. rewrite Hp in Hgit. by apply shown_inj in Hgit as ->.
  - apply parse_none in Hp. destruct (refs g !! _) as [[d|]|]; [|by destruct Hgit as [[] _]|done].
    destruct Hgit as [_ Hgit]. rewrite Hp in Hgit. unfold shown in Hgit. by destruct ref.
  - split; [by eapply parse_error|]. intros Href _ c Hc. rewrite Hc in Hgit. destruct Hgit as [Hhex Hout].
    by rewrite (parse_shown _ _ _ Href Hhex Hout) in Hp.
Qed.

(** The references after the compare-and-swap of an intent. *)
Definition swapped s (intent : DeliveryPublicationIntent) g g' : Prop :=
  refs g !! key_of s (pi_PublicationRef intent) = Direct <$> pi_PublicationPreviousCommit intent ∧
  refs g' = <[key_of s (pi_PublicationRef intent) := Direct (pi_ResultCommit intent)]> (refs g).

(** What the outcome of the compare-and-swap tells about the references. *)
Definition cas_tells s (intent : DeliveryPublicationIntent) g g' (r : result unit) : Prop :=
  let key := key_of s (pi_PublicationRef intent) in
  match r with
  | Ok _ => refs g' !! key = Some (Direct (pi_ResultCommit intent))
  | Err e => As_conflict e = None ∨
      refs g' = refs g ∧ refs g' !! key ≠ Some (Direct (pi_ResultCommit intent))
  end.

Lemma invalid_conflict err :
  invalidPublicationRefConflict err = None ∧ As_invalid err = None ∨
  As_invalid err ≠ None ∧ ∃ cause, invalidPublicationRefConflict err = Some cause.
Proof. unfold invalidPublicationRefConflict. destruct (As_invalid err); [right; eauto|by left]. Qed.

Lemma failed_update_spec s intent updateErr g0 g r g' :
  one_line (pi_PublicationRef intent) → foreign updateErr →
  (refs g = refs g0 ∨ swapped s intent g0 g) →
  afterFailedUpdate s intent updateErr g = (r, g') → refs g' = refs g ∧ cas_tells s intent g0 g' r.
Proof.
  intros Hline [_ Hup] Hg. unfold afterFailedUpdate. rewrite M_bind_run. unfold handle.
  destruct (observePublicationRef s _ g) as [ro g1] eqn:Ho. apply observe_spec in Ho as [Hr Ht].
  destruct ro as [o|e].
  - cbn in Ht. destruct (bool_decide (o = _)) eqn:Hres.
    { apply bool_decide_eq_true in Hres as ->. intros [= <- <-]. split; [done|]. cbn. by rewrite Hr. }
    apply bool_decide_eq_false in Hres. destruct (optionalCommitEqual _ _); intros [= <- <-]; (split; [done|]).
    { by left. }
    right. assert (refs g !! key_of s (pi_PublicationRef intent) ≠ Some (Direct (pi_ResultCommit intent))) as Hne.
    { rewrite Ht. destruct o as [c|]; [|done]. cbn. intros [= ->]. done. }
    rewrite Hr. split; [|done]. destruct Hg as [Hg|[_ Hg]]; [done|]. destruct Hne. by rewrite Hg, lookup_insert_eq.
  - destruct Ht as [Hc Hi]. destruct (invalid_conflict e) as [[-> _]|[Hinv [cause ->]]]; intros [= <- <-]; (split; [done|]).
    { left. cbn. by rewrite Hup, Hc. }
    specialize (Hi Hline Hinv). right. rewrite Hr. split; [|apply Hi].
    destruct Hg as [Hg|[_ Hg]]; [done|]. destruct (Hi (pi_ResultCommit intent)). by rewrite Hg, lookup_insert_eq.
Qed.

(** The compare-and-swap: the reference moves from the approved previous commit to
    the result or nothing moves; success means that it holds the result, and a
    reported conflict that nothing moved and it does not. *)
Lemma apply_spec s intent g r g' :
  one_line (pi_PublicationRef intent) → pi_ResultCommit intent ≠ zeroCommit →
  applyPublicationCAS s intent g = (r, g') →
  (refs g' = refs g ∨ swapped s intent g g') ∧ cas_tells s intent g g' r.
Proof.
  intros Hline Hnz. unfold applyPublicationCAS. rewrite M_bind_run. unfold handle.
  destruct (observePublicationRef s _ g) as [ro g1] eqn:Ho. apply observe_spec in Ho as [Hr Ht].
  destruct ro as [o|e].
  2: { destruct Ht as [Hc Hi]. destruct (invalid_conflict e) as [[-> _]|[Hinv [cause ->]]]; intros [= <- <-].
       - by split; left.
       - split; [by left|right]. split; [done|]. rewrite Hr. by apply Hi. }
  cbn in Ht. destruct (bool_decide (o = _)) eqn:Hres.
  { apply bool_decide_eq_true in Hres as ->. intros [= <- <-]. split; [by left|]. cbn. by rewrite Hr. }
  apply bool_decide_eq_false in Hres. unfold optionalCommitEqual. destruct (bool_decide (o = _)) eqn:Hprev; cbn.
  2: { intros [= <- <-]. split; [by left|right]. split; [done|]. rewrite Hr, Ht. destruct o; [|done].
       by intros [= ->]. }
  apply bool_decide_eq_true in Hprev. subst o. rewrite M_bind_run.
  destruct (verifyRepositoryAuthority s g1) as [r2 g2] eqn:Hv2. apply authority_honest in Hv2 as [Hr2 He2].
  rewrite Hr in Hr2. destruct r2 as [[]|e].
  2: { intros [= <- <-]. split; [by left|]. left. by apply He2. }
  rewrite M_bind_run. destruct (manager_gitMutation _ _ _) as [ru g3] eqn:Hu.
  apply update_ref_swaps in Hu as [Hfor Hmv]; [|done|rewrite Hr2, Ht; by destruct (pi_PublicationPreviousCommit intent)].
  assert (refs g3 = refs g ∧ (∃ e, ru = Err e) ∨ swapped s intent g g3) as Hg3.
  { destruct Hmv as [[He Hm]|[_ Hm]]; [left; by rewrite Hm|right]. split; [done|]. by rewrite Hm, Hr2. }
  destruct ru as [u|ue].
  - destruct Hg3 as [[_ [? [=]]]|Hsw]. intros Hv3. apply authority_honest in Hv3 as [Hr3 He3]. split.
    + right. split; [apply Hsw|]. rewrite Hr3. apply Hsw.
    + destruct r as [[]|e]; cbn; [|left; by apply He3]. rewrite Hr3. destruct Hsw as [_ ->]. by rewrite lookup_insert_eq.
  - intros Hrun. apply (failed_update_spec _ _ _ g) in Hrun as [Hr3 Hct]; [|done|by apply Hfor|tauto].
    split; [|done]. rewrite Hr3. destruct Hg3 as [[Hg3 _]|[Hs1 Hs2]]; [by left|right]. split; [done|]. by rewrite Hr3.
Qed.

(** Building an intent leaves Git alone. *)
Context `{Sha256, DeliveryJson, Schemas}.

Lemma publicationAuthority_still s strict request result leaseSet :
  still (publicationAuthority s strict request result leaseSet).
Proof.
  unfold publicationAuthority. apply still_bind; [apply honest_still, authority_honest|]. intros _.
  apply still_bind; [apply still_lift|]. intros _.
  apply still_bind; [apply honest_still, directory_honest|]. intros path.
  apply still_bind; [apply still_lift|]. intros _. apply still_bind; [apply still_lift|]. intros [tenant repo].
  apply still_bind; [apply still_lift|]. intros _. apply still_bind; [apply resolve_still|]. intros resolved.
  apply still_bind; [apply still_lift|]. intros _. apply still_bind; [apply inspect_still|]. intros recomputed.
  apply still_bind; [apply honest_still, authority_honest|]. intros _.
  apply still_bind; [apply still_lift|]. intros _. apply still_bind; [apply still_lift|]. intros fences.
  apply still_ret.
Qed.

Lemma publicationIntent_still s request result bundle leaseSet times evidence :
  still (publicationIntent s request result bundle leaseSet times evidence).
Proof.
  unfold publicationIntent. apply still_bind; [apply publicationAuthority_still|]. intros [[tenant repo] fences].
  do 2 (apply still_bind; [apply still_lift|]; intros ?). apply still_bind.
  { destruct evidence; [|apply still_ret]. apply still_annotated, honest_still, evidence_honest. }
  intros _. do 2 (apply still_bind; [apply still_lift|]; intros ?). apply still_ret.
Qed.

Lemma recoveryIntent_still s request result leaseSet record :
  still (journaledRecoveryIntent s request result leaseSet record).
Proof.
  unfold journaledRecoveryIntent. apply still_bind; [apply publicationAuthority_still|].
  intros [[tenant repo] fences]. do 6 (apply still_bind; [apply still_lift|]; intros ?). apply still_ret.
Qed.
End specs.
