(* ===== verification/PublicationServiceLogic.v ===== *)
(** * Runs of the publication service

    What every call of the service leaves behind: in the journal, in Git, and in
    the answer, on success and on failure. *)

From S2P Require Import Prelude GoLib Fault Contracts Identity RunState LeasePaths.
From S2P Require Import ControlMemory Postgres DeliveryContracts DeliveryScopes Leases LeaseSets LeaseSafety.
From S2P Require Import PgTables PgEvents Publications PgLogic PublicationEffects PublicationWorld.
From S2P Require Import PublicationService PublicationGit.

(** ** Outcomes *)

Section owp.
Context `{Json} {G : Type}.
Implicit Types (w : World G).

(** However [m] ends from [w], [Q] holds of the outcome and the world it leaves. *)
Definition owp {A} w (m : M error (World G) A) (Q : result A → World G → Prop) : Prop :=
  ∀ r w', m w = (r, w') → Q r w'.

Lemma owp_run {A} w (m : M error (World G) A) Q r w' : owp w m Q → m w = (r, w') → Q r w'.
Proof. intros Hm. apply Hm. Qed.
Lemma owp_intro {A} w (m : M error (World G) A) (Q : result A → World G → Prop) :
  (∀ r w', m w = (r, w') → Q r w') → owp w m Q.
Proof. done. Qed.
Lemma owp_mono {A} w (m : M error (World G) A) (Q Q' : result A → World G → Prop) :
  owp w m Q → (∀ r w', Q r w' → Q' r w') → owp w m Q'.
Proof. intros Hm HQ r w' Hrun. by apply HQ, Hm. Qed.
Lemma owp_ret {A} w (a : A) Q : Q (Ok a) w → owp w (mret a) Q.
Proof. by intros HQ r w' [= <- <-]. Qed.
Lemma owp_throw {A} w e (Q : result A → World G → Prop) : Q (Err e) w → owp w (throw e) Q.
Proof. by intros HQ r w' [= <- <-]. Qed.
Lemma owp_lift {A} w (x : result A) Q : Q x w → owp w (lift x) Q.
Proof. by intros HQ r w' [= <- <-]. Qed.
Lemma owp_bind {A B} w (m : M error (World G) A) (k : A → M error (World G) B) Q :
  owp w m (λ r w1, match r with Ok a => owp w1 (k a) Q | Err e => Q (Err e) w1 end) → owp w (m ≫= k) Q.
Proof.
  intros Hm r w'. rewrite M_bind_run. destruct (m w) as [[a|e] w1] eqn:Hrun.
  - apply (Hm _ _ Hrun).
  - intros [= <- <-]. apply (Hm _ _ Hrun).
Qed.
Lemma owp_handle {A} w (m : M error (World G) A) Q :
  owp w m (λ r w1, Q (Ok r) w1) → owp w (handle m) Q.
Proof. intros Hm r w'. unfold handle. destruct (m w) as [r0 w1] eqn:Hrun. intros [= <- <-]. by apply Hm. Qed.
Lemma owp_git {A} w (m : M error G A) Q :
  (∀ r g, m (git w) = (r, g) → Q r (mkWorld (db w) g)) → owp w (on_git m) Q.
Proof. intros HQ r w'. unfold on_git. destruct (m (git w)) as [r0 g] eqn:Hrun. intros [= <- <-]. by apply HQ. Qed.
Lemma owp_db {A} w (m : M error (DB Forja) A) Q :
  (∀ r s, m (db w) = (r, s) → Q r (mkWorld s (git w))) → owp w (on_db m) Q.
Proof. intros HQ r w'. unfold on_db. destruct (m (db w)) as [r0 s] eqn:Hrun. intros [= <- <-]. by apply HQ. Qed.
End owp.

Global Opaque owp.

Ltac owp_prim :=
  lazymatch goal with
  | |- owp _ (mbind _ _) _ => apply owp_bind
  | |- owp _ (mret _) _ => apply owp_ret
  | |- owp _ (throw _) _ => apply owp_throw
  | |- owp _ (handle _) _ => apply owp_handle
  end; cbn beta iota zeta.
Ltac owp_seq := repeat owp_prim.

(** ** Errors of the database *)

Lemma databaseError_foreign op f : foreign (databaseError op f).
Proof. destruct f as [code|text]; cbn; [|done]. by repeat case_bool_decide. Qed.

(** A computation on the database that fails with the errors of the driver and of
    the adapter only. *)
Definition decent {S A} (m : M error S A) : Prop := ∀ s e s', m s = (Err e, s') → foreign e.

Section decent.
Context {S : Type}.
Lemma decent_ret {A} (a : A) : decent (mret a : M error S A).
Proof. by intros s e s' [=]. Qed.
Lemma decent_throw {A} e : foreign e → decent (throw e : M error S A).
Proof. by intros He s e' s' [= <- _]. Qed.
Lemma decent_bind {A B} (m : M error S A) (k : A → M error S B) :
  decent m → (∀ a, decent (k a)) → decent (m ≫= k).
Proof.
  intros Hm Hk s e s'. rewrite M_bind_run. destruct (m s) as [[a|e'] s1] eqn:Hrun; [by apply Hk|].
  intros [= <- _]. by eapply Hm.
Qed.
Lemma decent_lift {A} (x : result A) : (∀ e, x = Err e → foreign e) → decent (lift x : M error S A).
Proof. intros Hx s e s' [= Heq _]. by apply Hx. Qed.
End decent.

Section adapter.
Context `{Clock, Database, TimeText, Sha256, Collation, Json, DeliveryJson}.
Implicit Types (st : PgStore) (intent : DeliveryPublicationIntent).

Lemma decent_statement {T} op params : decent (statement (T := T) op params).
Proof.
  intros s e s'. unfold statement. destruct (db_fault _) as [f|]; [intros [= <- _]; apply databaseError_foreign|].
  destruct (forallb _ _); [done|]. by intros [= <- _].
Qed.

Lemma decent_select {T A} (f : T → A) : decent (select f).
Proof. by intros s e s' [=]. Qed.
Lemma decent_write {T} (f : T → T) : decent (write f).
Proof. by intros s e s' [=]. Qed.
Lemma decent_clock {T} : decent (clock_timestamp (T := T)).
Proof. by intros s e s' [=]. Qed.
Lemma decent_checked {T} op bad : decent (checked (T := T) op bad).
Proof. unfold checked. destruct bad; [apply decent_throw, databaseError_foreign|apply decent_ret]. Qed.

Lemma decent_journal op params : decent (journal op params).
Proof.
  unfold journal. apply decent_bind; [apply decent_statement|]. intros _. apply decent_bind; [apply decent_select|].
  intros [pubs|]; [apply decent_ret|apply decent_throw, databaseError_foreign].
Qed.

(** The same for results. *)
Definition tame {A} (x : result A) : Prop := ∀ e, x = Err e → foreign e.

Lemma tame_ok {A} (a : A) : tame (Ok a).
Proof. by intros e [=]. Qed.
Lemma tame_renamed {A} message (x : result A) : tame (renamed message x).
Proof. intros e. unfold renamed. destruct x; [done|]. by intros [= <-]. Qed.
Lemma tame_fail_if b err : foreign err → tame (fail_if b err).
Proof. intros Herr e. unfold fail_if. destruct b; [|done]. by intros [= <-]. Qed.
Lemma tame_bind {A B} (x : result A) (k : A → result B) : tame x → (∀ a, tame (k a)) → tame (x ≫= k).
Proof. intros Hx Hk e. destruct x as [a|e']; [apply Hk|]. cbn. intros [= <-]. by apply Hx. Qed.

Lemma receiptTime_foreign intent : tame (publicationReceiptTime intent).
Proof.
  unfold publicationReceiptTime. apply tame_bind; [apply tame_renamed|]. intros receipt.
  apply tame_bind; [by apply tame_fail_if|]. intros _. apply tame_ok.
Qed.

Lemma validateIntent_foreign intent : tame (validatePublicationIntent intent).
Proof.
  unfold validatePublicationIntent. do 3 (apply tame_bind; [apply tame_renamed|]; intros _).
  do 2 (apply tame_bind; [by apply tame_fail_if|]; intros _). apply tame_bind; [apply tame_renamed|]. intros receipt.
  apply tame_bind; [by apply tame_fail_if|]. intros _. apply tame_bind; [apply tame_renamed|]. intros [rt rr].
  apply tame_bind; [apply tame_renamed|]. intros canonical.
  do 2 (apply tame_bind; [by apply tame_fail_if|]; intros _). by apply tame_fail_if.
Qed.

Lemma exactIntent_foreign stored supplied : tame (exactPublicationIntent stored supplied).
Proof. by apply tame_fail_if. Qed.

Lemma decent_load st d a : decent (loadDeliveryPublication st d a).
Proof.
  unfold loadDeliveryPublication. apply decent_bind; [apply decent_journal|]. intros pubs.
  destruct (pubs !! _) as [row|]; [|apply decent_ret]. apply decent_bind; [|intros ?; apply decent_ret].
  destruct (pb_published row); [|apply decent_ret]. apply decent_bind; [|intros ?; apply decent_ret].
  apply decent_lift, receiptTime_foreign.
Qed.

Lemma decent_update st op intent state observed published :
  decent (update_publication st op intent state observed published).
Proof.
  unfold update_publication. apply decent_bind; [apply decent_journal|]. intros pubs.
  destruct (pubs !! _) as [row|]; [|apply decent_throw, databaseError_foreign].
  destruct (bool_decide _); [|apply decent_throw, databaseError_foreign].
  apply decent_bind; [apply decent_clock|]. intros updated. apply decent_bind; [apply decent_checked|]. intros _.
  apply decent_bind; [apply decent_write|]. intros _. apply decent_ret.
Qed.
End adapter.

(** ** The journal *)

Section journaled.
Context `{Clock, Database, TimeText, Sha256, Collation, Json, DeliveryJson}.
Implicit Types (st : PgStore) (intent : DeliveryPublicationIntent) (record : DeliveryPublication) (t : Forja).

Lemma already_journal st intent states t t' :
  delivery_publications (work t') = delivery_publications (work t) →
  already st intent states t → already st intent states t'.
Proof. intros Hj (pubs & row & Hp & Hrest). exists pubs, row. by rewrite Hj. Qed.

Lemma already_mono st intent states states' t :
  states ⊆ states' → already st intent states t → already st intent states' t.
Proof. intros Hsub (pubs & row & ? & ? & ? & ?). exists pubs, row. set_solver. Qed.

Lemma exact_record record intent :
  requireExactPublicationRecord record intent = Ok tt → dp_Intent record = intent.
Proof.
  intros Hx. apply exact_intent. unfold requireExactPublicationRecord, exactPublicationIntent in *.
  unfold fail_if in *. by destruct (_ || _).
Qed.

Lemma Get_record st d a s record s' :
  GetDeliveryPublication st d a s = (Ok (Some record), s') →
  already st (dp_Intent record) [dp_State record] (tables s).
Proof.
  intros Hrun. pose (Q := λ (o : option DeliveryPublication) (_ : DB Forja),
    ∀ record, o = Some record → already st (dp_Intent record) [dp_State record] (tables s)).
  refine (swp_run _ Q _ _ _ _ Hrun record eq_refl). apply swp_load. intros pubs s1 Hp Ht _.
  destruct (pubs !! publication_key st d a) as [row|] eqn:Hrow; [|by intros ? [=]].
  intros published record' [= <-]. exists pubs, row. cbn [dp_Intent dp_State].
  change (intent_key st (scanIntent (publication_key st d a) row)) with (publication_key st d a).
  split_and!; [done..|set_solver].
Qed.

Lemma scan_moved_publication (key : PublicationKey) (row : PublicationRow) state observed published updated :
  scanIntent key (moved_publication row state observed published updated) = scanIntent key row.
Proof. by destruct key as [[]]. Qed.

Lemma set_journal_publications (f : Journal → Journal) (t : Forja) (pubs : Journal) :
  delivery_publications (work t) = Some pubs → delivery_publications (work (set_journal f t)) = Some (f pubs).
Proof. intros Hp. cbn. by rewrite Hp. Qed.

Lemma settled_already st intent state observed t t' :
  settled st intent state observed t t' → already st intent [state] t'.
Proof.
  intros (pubs & row & p & u & Hp & Hrow & _ & Hscan & _ & _ & ->).
  exists (<[intent_key st intent := moved_publication row state observed p u]> pubs).
  eexists. split_and!; [by apply set_journal_publications|by rewrite lookup_insert_eq| |set_solver].
  by rewrite scan_moved_publication.
Qed.

Lemma Prepare_record st intent leaseSet s :
  swp s (PrepareDeliveryPublication st intent leaseSet) (λ record s',
    already st intent [dp_State record] (tables s')).
Proof.
  unfold PrepareDeliveryPublication. apply swp_bind, swp_lift. intros [[[keys proofs] digest] ttl] Hauth.
  apply validatePublicationAuthority_ok in Hauth as [Hv Hs _ _ _].
  swp_seq. apply swp_reader; [apply lockPublicationAndLeaseSet_reader|]. intros _ s1 _ Ht1 _. cbn in Ht1.
  apply swp_bind, swp_load. intros pubs s2 Hp Ht2 _. fold (intent_key st intent).
  destruct (pubs !! intent_key st intent) as [row|] eqn:Hrow.
  - intros published. apply swp_bind, swp_lift. intros [] Hex%exact_intent. cbn in Hex. rewrite Ht1 in Hp, Ht2.
    assert (already st intent [pb_state row] (tables s)) as Hal by (exists pubs, row; split_and!; [done..|set_solver]).
    cbn [dp_State]. destruct (bool_decide (pb_state row = _)).
    + swp_seq. cbn [dp_State]. by rewrite Ht2.
    + swp_seq. apply swp_reader; [apply lifecycle_reader|]. intros _ s3 _ Ht3 _.
      swp_seq. apply swp_reader; [apply verify_reader|]. intros _ s4 _ Ht4 _. swp_seq.
      cbn [dp_State]. by rewrite Ht4, Ht3, Ht2.
  - swp_seq. apply swp_lifecycle. intros s3 Hpub Ht3 _.
    swp_seq. apply swp_reader; [apply verify_reader|]. intros _ s4 _ Ht4 _. swp_seq.
    unfold insertPrepared. apply swp_bind, swp_insert_publication.
    intros pubs' prepared updated s5 Hp' Hf Ht5. swp_seq. cbn [dp_State].
    exists (<[intent_key st intent := prepared_row intent prepared updated]> pubs'). eexists. rewrite Ht5.
    split_and!; [by apply set_journal_publications|by rewrite lookup_insert_eq|by apply scan_prepared|set_solver].
Qed.
End journaled.

(** ** The callbacks of a completion *)

Section traces.
Context `{Clock, Database, TimeText, Sha256, Collation, Json, DeliveryJson} {G : Type}.
Implicit Types (w : World G).

(** A computation that does not run the callbacks. *)
Definition quiet {A} (m : M error (World G) A) : Prop := ∀ w r w', m w = (r, w') → git w' = git w.

Lemma quiet_db {A} (m : M error (DB Forja) A) : quiet (on_db m).
Proof. intros w r w'. unfold on_db. destruct (m _) as [r0 s]. by intros [= _ <-]. Qed.
Lemma quiet_lift {A} (x : result A) : quiet (lift x).
Proof. by intros w r w' [= _ <-]. Qed.
Lemma quiet_ret {A} (a : A) : quiet (mret a).
Proof. by intros w r w' [= _ <-]. Qed.
Lemma quiet_throw {A} e : quiet (throw e : M error (World G) A).
Proof. by intros w r w' [= _ <-]. Qed.
Lemma quiet_bind {A B} (m : M error (World G) A) (k : A → M error (World G) B) :
  quiet m → (∀ a, quiet (k a)) → quiet (m ≫= k).
Proof.
  intros Hm Hk w r w'. rewrite M_bind_run. destruct (m w) as [[a|e] w1] eqn:Hrun.
  - intros Hrun'. by rewrite (Hk _ _ _ _ Hrun'), (Hm _ _ _ Hrun).
  - intros [= _ <-]. by eapply Hm.
Qed.

(** What the callbacks of a completion did to Git, by how far it got. *)
Inductive completion (revalidate apply : M error G unit) (g : G) {A} : result A → G → Prop :=
| co_unstarted r : completion revalidate apply g r g
| co_refused e g' : revalidate g = (Err e, g') → completion revalidate apply g (Err e) g'
| co_unfenced e g' : revalidate g = (Ok tt, g') → completion revalidate apply g (Err e) g'
| co_failed g1 e g' : revalidate g = (Ok tt, g1) → apply g1 = (Err e, g') → completion revalidate apply g (Err e) g'
| co_applied g1 r g' : revalidate g = (Ok tt, g1) → apply g1 = (Ok tt, g') →
    (∀ e, r = Err e → foreign e) → completion revalidate apply g r g'.

Lemma quiet_completion {A} revalidate apply w (m : M error (World G) A) r w' :
  quiet m → m w = (r, w') → completion revalidate apply (git w) r (git w').
Proof. intros Hm Hrun. rewrite (Hm _ _ _ Hrun). constructor. Qed.

Lemma completion_after {A B} revalidate apply w (m : M error (World G) A) (k : A → M error (World G) B) r w' :
  quiet m → (∀ a w1, git w1 = git w → k a w1 = (r, w') → completion revalidate apply (git w) r (git w')) →
  (m ≫= k) w = (r, w') → completion revalidate apply (git w) r (git w').
Proof.
  intros Hm Hk. rewrite M_bind_run. destruct (m w) as [[a|e] w1] eqn:Hrun; apply Hm in Hrun as Hg.
  - by apply Hk.
  - intros [= <- <-]. rewrite Hg. constructor.
Qed.

(** A tail on the database that only fails with errors of its own. *)
Lemma quiet_decent_tail {A} revalidate apply g g1 w (m : M error (World G) A) r w' :
  revalidate g = (Ok tt, g1) → apply g1 = (Ok tt, git w) → quiet m → decent m →
  m w = (r, w') → completion revalidate apply g r (git w').
Proof.
  intros Hrv Hap Hq Hd Hrun. rewrite (Hq _ _ _ Hrun). eapply co_applied; [done..|]. intros e ->. by eapply Hd.
Qed.

Lemma decent_db {A} (m : M error (DB Forja) A) : decent m → decent (on_db m : M error (World G) A).
Proof.
  intros Hm w e w'. unfold on_db. destruct (m (db w)) as [r s] eqn:Hrun. intros [= -> _]. by eapply Hm.
Qed.

Lemma publishPrepared_trace st intent verify at_ record revalidate apply w r w' :
  publishPrepared st intent verify at_ record revalidate apply w = (r, w') →
  completion revalidate apply (git w) r (git w').
Proof.
  unfold publishPrepared. rewrite M_bind_run. unfold on_git at 1. destruct (revalidate (git w)) as [r1 g1] eqn:Hrv.
  destruct r1 as [[]|e]; [|intros [= <- <-]; by apply co_refused].
  rewrite M_bind_run. destruct (on_db verify _) as [r2 w2] eqn:Hv. apply quiet_db in Hv. cbn [git] in Hv.
  destruct r2 as [[]|e]; [|intros [= <- <-]; rewrite Hv; by apply co_unfenced].
  rewrite M_bind_run. unfold on_git at 1. rewrite Hv. destruct (apply g1) as [r3 g3] eqn:Hap.
  destruct r3 as [[]|e]; [|intros [= <- <-]; by eapply co_failed].
  apply (quiet_decent_tail _ _ _ g1); [done|done|..].
  - apply quiet_bind; [apply quiet_db|]. intros updated. destruct (negb _); [apply quiet_throw|].
    apply quiet_bind; [apply quiet_db|]. intros _. apply quiet_ret.
  - apply decent_bind; [apply decent_db, decent_update|]. intros updated. destruct (negb _); [by apply decent_throw|].
    apply decent_bind; [apply decent_db, decent_statement|]. intros _. apply decent_ret.
Qed.

Lemma Complete_trace st intent ls revalidate apply w r w' :
  CompleteDeliveryPublication st intent ls (Some revalidate) (Some apply) w = (r, w') →
  completion revalidate apply (git w) r (git w').
Proof.
  unfold CompleteDeliveryPublication. apply completion_after; [apply quiet_lift|].
  intros [[[keys proofs] digest] ttl] w1 <-. apply completion_after; [apply quiet_lift|]. intros at_ w2 <-.
  assert (∀ m : M error (World G) DeliveryPublication,
    (∀ r0 w0, m w2 = (r0, w0) → completion revalidate apply (git w2) r0 (git w0)) →
    transaction m w2 = (r, w') → completion revalidate apply (git w2) r (git w')) as Htx.
  { intros m Hm. unfold transaction. destruct (m w2) as [[a|e] w0] eqn:Hrun; intros [= <- <-]; exact (Hm _ _ eq_refl). }
  apply Htx. clear Htx r w'. intros r w'. apply completion_after; [apply quiet_db|]. intros _ w3 <-.
  apply completion_after; [apply quiet_db|]. intros _ w4 <-. apply completion_after; [apply quiet_db|].
  intros [record|] w5 <-.
  2: { apply quiet_completion, quiet_bind; [apply quiet_db|]. intros _. apply quiet_throw. }
  apply completion_after; [apply quiet_lift|]. intros _ w6 <-. destruct (bool_decide _).
  { apply quiet_completion, quiet_bind; [apply quiet_db|]. intros _. apply quiet_ret. }
  apply completion_after; [apply quiet_db|]. intros _ w7 <-. apply completion_after; [apply quiet_db|].
  intros _ w8 <-. destruct (negb _); [apply quiet_completion, quiet_throw|]. apply publishPrepared_trace.
Qed.

(** What the observation of an abandonment did: it is the only source of an error
    that is not an error of the adapter. *)
Inductive observation (observe : M error G (option string)) (g : G) {A} : result A → G → Prop :=
| ob_unstarted r : (∀ e, r = Err e → foreign e) → observation observe g r g
| ob_failed e g' : observe g = (Err e, g') → observation observe g (Err e) g'
| ob_made o r g' : observe g = (Ok o, g') → (∀ e, r = Err e → foreign e) → observation observe g r g'.

Lemma observation_after {A B} observe w (m : M error (World G) A) (k : A → M error (World G) B) r w' :
  quiet m → decent m → (∀ a w1, git w1 = git w → k a w1 = (r, w') → observation observe (git w) r (git w')) →
  (m ≫= k) w = (r, w') → observation observe (git w) r (git w').
Proof.
  intros Hm Hd Hk. rewrite M_bind_run. destruct (m w) as [[a|e] w1] eqn:Hrun; apply Hm in Hrun as Hg.
  - by apply Hk.
  - intros [= <- <-]. rewrite Hg. constructor. intros ? [= <-]. by eapply Hd.
Qed.

Lemma quiet_observation {A} observe w (m : M error (World G) A) r w' :
  quiet m → decent m → m w = (r, w') → observation observe (git w) r (git w').
Proof. intros Hm Hd Hrun. rewrite (Hm _ _ _ Hrun). constructor. intros e ->. by eapply Hd. Qed.

Lemma Abandon_trace st intent observe w r w' :
  AbandonDeliveryPublication st intent (Some observe) w = (r, w') → observation observe (git w) r (git w').
Proof.
  unfold AbandonDeliveryPublication.
  apply observation_after; [apply quiet_lift|apply decent_lift, validateIntent_foreign|]. intros _ w1 <-.
  apply observation_after; [apply quiet_lift|by apply decent_lift, tame_fail_if|]. intros _ w2 <-.
  assert (∀ m : M error (World G) DeliveryPublication,
    (∀ r0 w0, m w2 = (r0, w0) → observation observe (git w2) r0 (git w0)) →
    transaction m w2 = (r, w') → observation observe (git w2) r (git w')) as Htx.
  { intros m Hm. unfold transaction. destruct (m w2) as [[a|e] w0]; intros [= <- <-]; exact (Hm _ _ eq_refl). }
  apply Htx. clear Htx r w'. intros r w'.
  apply observation_after; [apply quiet_db|apply decent_db, decent_statement|]. intros _ w3 <-.
  apply observation_after; [apply quiet_db|apply decent_db, decent_bind; intros; apply decent_statement|]. intros _ w4 <-.
  apply observation_after; [apply quiet_db|apply decent_db, decent_load|]. intros [record|] w5 <-.
  2: { apply quiet_observation; [apply quiet_throw|by apply decent_throw]. }
  apply observation_after; [apply quiet_lift|apply decent_lift, exactIntent_foreign|]. intros _ w6 <-. destruct (_ || _).
  { apply observation_after; [apply quiet_db|apply decent_db, decent_statement|]. intros _ w7 <-.
    apply quiet_observation; [apply quiet_ret|apply decent_ret]. }
  destruct (negb _); [apply quiet_observation; [apply quiet_throw|by apply decent_throw]|].
  rewrite M_bind_run. unfold on_git at 1. destruct (observe (git w6)) as [ro g] eqn:Hob.
  destruct ro as [o|e]; [|intros [= <- <-]; by apply ob_failed].
  assert (∀ m : M error (World G) DeliveryPublication, quiet m → decent m →
    m (mkWorld (db w6) g) = (r, w') → observation observe (git w6) r (git w')) as Htail.
  { intros m Hq Hd Hrun. rewrite (Hq _ _ _ Hrun). eapply ob_made; [done|]. intros e ->. by eapply Hd. }
  apply Htail; (destruct (negb _); [by first [apply quiet_throw|apply decent_throw]|]).
  - apply quiet_bind; [apply quiet_db|]. intros u. apply quiet_bind; [apply quiet_db|]. intros _. apply quiet_ret.
  - apply decent_bind; [apply decent_db, decent_update|]. intros u.
    apply decent_bind; [apply decent_db, decent_statement|]. intros _. apply decent_ret.
Qed.
End traces.

(** ** The parts of the service *)

Section service.
Context {G : Type} `{Clock, Database, TimeText, Sha256, Collation, Json, DeliveryJson, Schemas, !Host G}.
Context `{!GitRefs G, !GitLaws G}.
Implicit Types (s : PublicationService) (w : World G) (intent : DeliveryPublicationIntent).
Implicit Types (request : DeliveryRequest) (receipt : DeliveryReceipt) (bundle : ValidationBundle).

Abbreviation ref_key s request := (ra_RepositoryPath (sv_authority s), rq_PublicationRef request).
Abbreviation journal_of w := (delivery_publications (work (tables (db w)))).

(** The intent is about this delivery, attempt, reference and result. *)
Record about request (result : CommitResult) intent : Prop := {
  ab_delivery : pi_DeliveryID intent = rq_DeliveryID request;
  ab_attempt : pi_AttemptID intent = rq_AttemptID request;
  ab_ref : pi_PublicationRef intent = rq_PublicationRef request;
  ab_previous : pi_PublicationPreviousCommit intent = rq_PublicationPreviousCommit request;
  ab_result : pi_ResultCommit intent = cr_ResultCommit result;
}.

(** An intent and its receipt, as [publicationIntent] builds them. *)
Record built request (result : CommitResult) bundle intent receipt : Prop := {
  bu_about : about request result intent;
  bu_valid : ValidateDeliveryPublication request (vb_Report bundle) (vb_ManifestJSON bundle) receipt = Ok tt;
  bu_receipt : receipt_json receipt = Ok (pi_ReceiptJSON intent);
}.

Lemma intent_built s request result bundle leaseSet times evidence g intent receipt g' :
  publicationIntent s request result bundle leaseSet times evidence g = (Ok (intent, receipt), g') →
  built request result bundle intent receipt.
Proof.
  unfold publicationIntent. intros ([[tenant repo] fences] & g1 & _ & Hrun)%M_bind_ok.
  apply M_bind_ok in Hrun as ([] & g2 & Hv & Hrun). apply M_bind_ok in Hrun as (auth & g3 & _ & Hrun).
  apply M_bind_ok in Hrun as ([] & g4 & _ & Hrun). apply M_bind_ok in Hrun as (json & g5 & Hj & Hrun).
  apply M_bind_ok in Hrun as ([] & g6 & _ & Hrun). injection Hrun as <- <- _.
  injection Hv as Hv _. injection Hj as Hj%wrapped_ok _. split; [done|exact Hv|exact Hj].
Qed.

Lemma classes_without x cs (t : string) :
  Forall (λ c : class, c x = false) cs → match_classes cs t = true → contains_byte x t = false.
Proof.
  intros Hcs. revert t. induction Hcs as [|c cs Hc _ IH]; intros [|y t]; cbn; try done.
  intros [Hy Ht]%andb_true_iff. rewrite (IH _ Ht), orb_false_r. apply bool_decide_eq_false.
  intros ->. by rewrite Hc in Hy.
Qed.

Lemma request_one_line request : request_ok request → one_line (rq_PublicationRef request).
Proof.
  intros Hr. rewrite (ro_ref _ Hr). pose proof (ro_delivery _ Hr) as Hd.
  assert (Forall (λ c : class, c (chr 0) = false) deliveryIDPattern) as H0' by (by repeat constructor).
  assert (Forall (λ c : class, c (chr 10) = false) deliveryIDPattern) as H10' by (by repeat constructor).
  split; rewrite contains_byte_app; [by rewrite (classes_without _ _ _ H0' Hd)|by rewrite (classes_without _ _ _ H10' Hd)].
Qed.

Lemma built_one_line request result bundle intent receipt :
  built request result bundle intent receipt → one_line (pi_PublicationRef intent).
Proof.
  intros [Ha Hv _]. rewrite (ab_ref _ _ _ Ha). apply request_one_line, ValidateDeliveryRequest_ok.
  unfold ValidateDeliveryPublication in Hv. apply res_bind_ok in Hv as ([] & Hv & _). by apply wrapped_ok in Hv.
Qed.

(** Leases are apart from the journal and from Git. *)
Lemma release_spec s leaseSet w :
  owp w (releaseLeases s leaseSet) (λ _ w', git w' = git w ∧ journal_of w' = journal_of w).
Proof.
  unfold releaseLeases. apply owp_db. intros r s' Hrun. split; [done|]. cbn. unfold on_leases in Hrun.
  destruct (ReleaseLeaseSet _ _ _) as [r0 s0]. by injection Hrun as _ <-.
Qed.

Lemma releasePublished_spec s receipt leaseSet replayed w :
  owp w (releasePublishedLease s receipt leaseSet replayed) (λ r w',
    git w' = git w ∧ journal_of w' = journal_of w ∧
    ∃ released err, r = Ok (mkPublicationResult (Some receipt) replayed released, err) ∧
      (released = true ↔ err = None)).
Proof.
  unfold releasePublishedLease. owp_seq. eapply owp_mono; [apply release_spec|].
  intros [[]|e] w' [Hg Hj]; owp_seq; (split_and!; [done..|]); by eexists _, _.
Qed.

Lemma notApplied_spec s leaseSet w :
  owp w (notApplied s leaseSet) (λ r w',
    git w' = git w ∧ journal_of w' = journal_of w ∧ ∃ e, r = Err e ∧ Is e "delivery publication was not applied" = true).
Proof.
  unfold notApplied. owp_seq. eapply owp_mono; [apply release_spec|].
  intros [[]|e] w' [Hg Hj]; owp_seq; (split_and!; [done..|]); by eexists.
Qed.

Lemma confirm_spec s ref commit text w :
  owp w (confirmRef s ref commit text) (λ r w',
    db w' = db w ∧ refs (git w') = refs (git w) ∧
    (r = Ok tt → refs (git w') !! (ra_RepositoryPath (sv_authority s), ref) = Some (Direct commit))).
Proof.
  unfold confirmRef. owp_seq. apply owp_git. intros r g Ho. apply observe_spec in Ho as [Hr Ht]. cbn.
  destruct r as [o|e]; [|by owp_seq]. destruct (bool_decide _) eqn:Ho; owp_seq; [|done].
  apply bool_decide_eq_true in Ho as ->. split_and!; [done..|]. intros _. cbn. rewrite Hr. exact Ht.
Qed.
End service.
