(* ===== verification/PublicationServiceProperties.v ===== *)
(** * What the publication service guarantees

    The journal-before-swap-before-receipt protocol of [publication.go], end to
    end: for every outcome of [Publish] and [Recover], what the references, the
    journal and the answer have to do with each other. *)

From S2P Require Import Prelude GoLib Fault Contracts Identity RunState LeasePaths.
From S2P Require Import ControlMemory Postgres DeliveryContracts DeliveryScopes Leases LeaseSets LeaseSafety.
From S2P Require Import PgTables PgEvents Publications PgLogic PublicationEffects PublicationWorld.
From S2P Require Import PublicationService PublicationGit PublicationServiceLogic.

Section service.
Context {G : Type} `{Clock, Database, TimeText, Sha256, Collation, Json, DeliveryJson, Schemas, !Host G}.
Context `{!GitRefs G, !GitLaws G}.
Implicit Types (s : PublicationService) (w : World G) (intent : DeliveryPublicationIntent).
Implicit Types (request : DeliveryRequest) (receipt : DeliveryReceipt) (bundle : ValidationBundle).
Abbreviation ref_key s request := (ra_RepositoryPath (sv_authority s), rq_PublicationRef request).
Abbreviation journal_of w := (delivery_publications (work (tables (db w)))).

(** ** Publishing *)

(** Every move of a reference is the approved one, and its intent is on record. *)
Definition accounted s request (result : CommitResult) w w' : Prop :=
  refs (git w') = refs (git w) ∨
  ∃ intent, about request result intent ∧ swapped s intent (git w) (git w') ∧
    already (sv_store s) intent ["prepared"; "published"] (tables (db w')).

(** An answer names a receipt that is durable and true. *)
Definition receipted s request (result : CommitResult)
    (proper : DeliveryPublicationIntent → DeliveryReceipt → Prop)
    (r : Fault.result (PublicationResult * option error)) w' : Prop :=
  match r with
  | Err _ => True
  | Ok (outcome, err) => ∃ receipt intent,
      pr_Receipt outcome = Some receipt ∧ proper intent receipt ∧
      already (sv_store s) intent ["published"] (tables (db w')) ∧
      refs (git w') !! ref_key s request = Some (Direct (cr_ResultCommit result)) ∧
      (pr_LeaseReleased outcome = true ↔ err = None)
  end.

Lemma accounted_refs s request result w w1 w' :
  refs (git w1) = refs (git w) → accounted s request result w1 w' → accounted s request result w w'.
Proof. intros Hr. unfold accounted, swapped. by rewrite Hr. Qed.

(** Confirming the reference and releasing the leases, after the row is published. *)
Lemma confirmed_spec s request result proper intent receipt ls replayed text w :
  proper intent receipt → already (sv_store s) intent ["published"] (tables (db w)) →
  owp w (_ ← confirmRef s (rq_PublicationRef request) (cr_ResultCommit result) text;
         releasePublishedLease s receipt ls replayed) (λ r w',
    refs (git w') = refs (git w) ∧ journal_of w' = journal_of w ∧ receipted s request result proper r w').
Proof.
  intros Hb Hal. owp_seq. eapply owp_mono; [apply confirm_spec|]. intros [[]|e] w1 (Hdb & Hr & Hok).
  2: { split_and!; [done|by rewrite Hdb|done]. }
  eapply owp_mono; [apply releasePublished_spec|]. intros r w' (Hg & Hj & released & err & -> & Hrel).
  rewrite Hdb in Hj. split_and!; [by rewrite Hg|done|]. exists receipt, intent. cbn [pr_Receipt pr_LeaseReleased].
  split_and!; [done..|by eapply already_journal|rewrite Hg; by apply Hok|done].
Qed.

Lemma completion_refs s intent request bundle g {A} (out : Fault.result A) g' :
  one_line (pi_PublicationRef intent) → pi_ResultCommit intent ≠ zeroCommit →
  completion (unflagged (annotated (Lit "revalidate persisted publication evidence: %w")
                (verifyPersistedValidationBundle request bundle)))
    (flagged (applyPublicationCAS s intent)) (g, false) out g' →
  refs g'.1 = refs g ∨ swapped s intent g g'.1 ∧ ∀ e, out = Err e → As_conflict e = None.
Proof.
  intros Hline Hnz. set (rv := annotated _ _).
  assert (∀ x r y, unflagged rv x = (r, y) → refs y.1 = refs x.1) as Hrv.
  { intros x r y. unfold unflagged. destruct (rv x.1) as [r0 g0] eqn:Hrun. intros [= _ <-]. cbn.
    by apply (still_annotated _ _ (honest_still _ (evidence_honest _ _))) in Hrun. }
  assert (∀ x r y, flagged (applyPublicationCAS s intent) x = (r, y) →
    applyPublicationCAS s intent x.1 = (r, y.1)) as Hap.
  { intros x r y. unfold flagged. destruct (applyPublicationCAS _ _ _) as [r0 g0]. by intros [= -> <-]. }
  intros [r|e g2 Hr|e g2 Hr|g1 e g2 Hr Ha|g1 r g2 Hr Ha He]; [by left|left; by apply Hrv in Hr..| |];
    apply Hrv in Hr; cbn in Hr; apply Hap, apply_spec in Ha as [Hmv Hct]; try done; unfold swapped in *;
    rewrite Hr in Hmv; (destruct Hmv as [Hmv|Hmv]; [by left|]).
  - destruct Hct as [Hc|[Hsame _]]; [|left; by rewrite Hsame]. right. split; [done|]. by intros ? [= <-].
  - right. split; [done|]. intros e ->. by apply He.
Qed.

Lemma complete_spec s request result bundle ls intent receipt w :
  built request result bundle intent receipt → already (sv_store s) intent ["prepared"] (tables (db w)) →
  cr_ResultCommit result ≠ zeroCommit →
  owp w (completePublication s request result bundle ls intent receipt) (λ r w',
    accounted s request result w w' ∧ receipted s request result (built request result bundle) r w').
Proof.
  intros Hb Hal Hnz. pose proof (bu_about _ _ _ _ _ Hb) as Hab. unfold completePublication. apply owp_bind, owp_intro.
  intros r w1. unfold with_mark. destruct (CompleteDeliveryPublication _ _ _ _ _ _) as [out w0] eqn:Hrun.
  intros [= <- <-]. pose proof (Complete_trace _ _ _ _ _ _ _ _ Hrun) as Htr. cbn [git] in Htr.
  apply completion_refs in Htr; [|by eapply built_one_line|by rewrite (ab_result _ _ _ Hab)].
  assert (refs (git w0).1 = refs (git w) ∨ swapped s intent (git w) (git w0).1) as Hmv by tauto.
  destruct out as [record|e].
  - apply (wwp_run _ _ _ _ _ (Complete_outcome _ _ _ _ _ _)) in Hrun as (_ & Hst & Hdone). cbn [db] in Hdone.
    assert (already (sv_store s) intent ["published"] (tables (db w0))) as Hpub.
    { destruct Hdone as [(Hold & Ht & _)|Hnow]; [by rewrite Ht|]. eapply settled_already, Hnow. }
    cbn beta iota. rewrite Hst. rewrite bool_decide_eq_true_2 by done. cbn [negb].
    eapply owp_mono; [eapply confirmed_spec; [done|exact Hpub]|]. cbn [git db].
    intros r w' (Hr & Hj & Hrec). split; [|done]. unfold accounted. rewrite Hr. destruct Hmv as [Hmv|[Hm1 Hm2]]; [by left|].
    right. exists intent. split_and!; [done|split; [done|by rewrite Hr]|].
    eapply already_journal; [exact Hj|]. by eapply already_mono, Hpub; set_solver.
  - apply Complete_err in Hrun. cbn [db] in Hrun. cbn beta iota.
    assert (∀ w', git w' = (git w0).1 → tables (db w') = tables (db w) → accounted s request result w w') as Hkept.
    { intros w' Hg Ht. unfold accounted, swapped. rewrite Hg. destruct Hmv as [Hmv|Hmv]; [by left|right].
      exists intent. split; [done|]. split; [exact Hmv|]. rewrite Ht. by eapply already_mono, Hal; set_solver. }
    destruct (As_conflict e) as [[observed cause]|] eqn:Hc; [|owp_seq; split; [by apply Hkept|done]].
    destruct Htr as [Hsame|[_ Hno]]; [|by rewrite (Hno e) in Hc].
    owp_seq. apply owp_db. intros r s' _. destruct r; owp_seq; (split; [by left|done]).
Qed.

Lemma get_spec s request w :
  owp w (on_db (GetDeliveryPublication (sv_store s) (rq_DeliveryID request) (rq_AttemptID request))) (λ r w',
    git w' = git w ∧ tables (db w') = tables (db w) ∧
    ∀ record, r = Ok (Some record) → already (sv_store s) (dp_Intent record) [dp_State record] (tables (db w'))).
Proof.
  apply owp_db. intros r s' Hrun. cbn. pose proof (loadDeliveryPublication_reader _ _ _ _ _ _ Hrun) as [Ht _].
  split_and!; [done..|]. rewrite Ht. intros record ->. by eapply Get_record.
Qed.

(** The intent that is on record once the journal answered. *)
Lemma prepare_spec s request result bundle ls intent receipt w :
  built request result bundle intent receipt →
  owp w (prepareOrRebuild s request result bundle ls intent receipt) (λ r w',
    refs (git w') = refs (git w) ∧
    ∀ intent' receipt' record, r = Ok (intent', receipt', record) →
      built request result bundle intent' receipt' ∧
      already (sv_store s) intent' [dp_State record] (tables (db w'))).
Proof.
  intros Hb. unfold prepareOrRebuild. owp_seq. apply owp_db. intros r s1 Hrun. destruct r as [record|err].
  { owp_seq. split; [done|]. intros ? ? ? [= <- <- <-]. split; [done|].
    exact (swp_run _ _ _ _ _ (Prepare_record _ _ _ _) Hrun). }
  clear Hrun. owp_seq. eapply owp_mono; [apply get_spec|]. cbn [git]. intros r w1 (Hg & _ & Hrec).
  rewrite <-Hg. destruct r as [[concurrent|]|e]; try by owp_seq. specialize (Hrec _ eq_refl).
  destruct (recordedPublicationTimes concurrent) as [times|e]; [|by owp_seq].
  owp_seq. apply owp_git. intros r g Hrun.
  pose proof (publicationIntent_still _ _ _ _ _ _ _ _ _ _ Hrun) as Hr. destruct r as [[intent' receipt']|e]; [|by owp_seq].
  apply intent_built in Hrun. destruct (requireExactPublicationRecord _ _) as [[]|e] eqn:Hx; owp_seq; (split; [done|]); [|done].
  intros ? ? ? [= <- <- <-]. split; [done|]. apply exact_record in Hx. by rewrite <-Hx.
Qed.

Lemma from_spec s request result bundle ls intent receipt w :
  built request result bundle intent receipt → cr_ResultCommit result ≠ zeroCommit →
  owp w (publishFrom s request result bundle ls intent receipt) (λ r w',
    accounted s request result w w' ∧ receipted s request result (built request result bundle) r w').
Proof.
  intros Hb Hnz. unfold publishFrom. owp_seq. eapply owp_mono; [by apply prepare_spec|].
  intros r w1 [Hr Hrec]. destruct r as [[[intent' receipt'] record]|e]; [|split; [by left|done]].
  destruct (Hrec _ _ _ eq_refl) as [Hb' Hal]. owp_seq. apply owp_lift.
  destruct (requireExactPublicationRecord _ _) as [[]|e]; [|split; [by left|done]].
  destruct (bool_decide (_ = "conflict")); [owp_seq; split; [by left|done]|].
  destruct (bool_decide (_ = "published")) eqn:Hpub.
  { apply bool_decide_eq_true in Hpub. rewrite Hpub in Hal. unfold replayPublished.
    eapply owp_mono; [by eapply confirmed_spec|]. intros r w' (Hr' & _ & Hrec'). split; [|done]. left. by rewrite Hr'. }
  destruct (bool_decide (_ = "abandoned")).
  { eapply owp_mono; [apply notApplied_spec|]. intros r w' (Hg & _ & e & -> & _). split; [|done]. left. by rewrite Hg. }
  destruct (bool_decide (_ = "prepared")) eqn:Hprep; cbn [negb]; [|owp_seq; split; [by left|done]].
  apply bool_decide_eq_true in Hprep. rewrite Hprep in Hal. eapply owp_mono; [by eapply complete_spec|].
  intros r w' [Hacc Hrec']. split; [|done]. by eapply accounted_refs.
Qed.

Lemma Publish_spec s request result bundle ls w :
  cr_ResultCommit result ≠ zeroCommit →
  owp w (Publish s request result bundle ls) (λ r w',
    accounted s request result w w' ∧ receipted s request result (built request result bundle) r w').
Proof.
  intros Hnz. unfold Publish. owp_seq. eapply owp_mono; [apply get_spec|]. intros r w1 (Hg1 & _ & Hrec).
  destruct r as [recorded|e]; [|split; [left; by rewrite Hg1|done]]. owp_seq.
  apply owp_intro. intros r w2 Hnow. unfold now in Hnow. destruct (host_now (git w1)) as [at_ g2] eqn:Hat.
  injection Hnow as <- <-. assert (refs g2 = refs (git w)) as Hg2.
  { pose proof (now_still (git w1)) as Hs. rewrite Hat in Hs. cbn in Hs. by rewrite Hs, Hg1. }
  owp_seq. apply owp_intro. intros r w3 Htimes.
  assert (w3 = mkWorld (db w1) g2) as -> by (destruct recorded; by injection Htimes as _ <-).
  destruct r as [times|e]; [|by split; [left|]]. owp_seq. apply owp_git. cbn [git db]. intros r g4 Hint.
  pose proof (publicationIntent_still _ _ _ _ _ _ _ _ _ _ Hint) as Hg4. rewrite Hg2 in Hg4.
  destruct r as [[intent receipt]|e]; [|by split; [left|]]. apply intent_built in Hint.
  assert (owp (mkWorld (db w1) g4) (publishFrom s request result bundle ls intent receipt) (λ r w',
    accounted s request result w w' ∧ receipted s request result (built request result bundle) r w')) as Hfrom.
  { eapply owp_mono; [by apply from_spec|]. intros r w' [Hacc Hr]. split; [|done]. exact (accounted_refs _ _ _ _ (mkWorld (db w1) g4) _ Hg4 Hacc). }
  destruct recorded as [record|]; [|done]. specialize (Hrec _ eq_refl). owp_seq. apply owp_lift.
  destruct (requireExactPublicationRecord _ _) as [[]|e] eqn:Hx; [|by split; [left|]].
  apply exact_record in Hx. rewrite Hx in Hrec.
  destruct (bool_decide (_ = "published")) eqn:Hpub.
  { apply bool_decide_eq_true in Hpub. rewrite Hpub in Hrec. unfold replayPublished.
    eapply owp_mono; [by eapply confirmed_spec|]. intros r w' (Hr' & _ & Hrec'). split; [|done]. left. rewrite Hr'. exact Hg4. }
  destruct (bool_decide (_ = "abandoned")).
  { eapply owp_mono; [apply notApplied_spec|]. intros r w' (Hg & _ & e & -> & _). split; [|done]. left. rewrite Hg. exact Hg4. }
  destruct (bool_decide (_ = "conflict")); [owp_seq; by split; [left|]|].
  destruct (bool_decide (_ = "prepared")); [done|owp_seq; by split; [left|]].
Qed.

(** ** Recovery *)

(** What the reference must show for each decision about a prepared row. *)
Definition verdict s request (result : CommitResult) (g : G) (state : string) : Prop :=
  let value := refs g !! ref_key s request in
  let published := Some (Direct (cr_ResultCommit result)) in
  state = "published" ∧ value = published ∨
  state = "abandoned" ∧ value = Direct <$> rq_PublicationPreviousCommit request ∧ value ≠ published ∨
  state = "conflict" ∧ value ≠ published.

(** Git is as before, and so is the journal, or the prepared row was decided by
    what the reference shows. *)
Definition decided s request (result : CommitResult) w w' : Prop :=
  refs (git w') = refs (git w) ∧
  (journal_of w' = journal_of w ∨
   ∃ intent state observed t, about request result intent ∧
     settled (sv_store s) intent state observed (tables (db w)) t ∧
     journal_of w' = delivery_publications (work t) ∧ verdict s request result (git w) state).

Lemma decided_from s request result w w1 w' :
  refs (git w1) = refs (git w) → tables (db w1) = tables (db w) →
  decided s request result w1 w' → decided s request result w w'.
Proof. intros Hr Ht. unfold decided, verdict. by rewrite Hr, Ht. Qed.

Lemma decided_then s request result w w1 w' :
  decided s request result w w1 → refs (git w') = refs (git w1) → journal_of w' = journal_of w1 →
  decided s request result w w'.
Proof. unfold decided. by intros Hd -> ->. Qed.

Lemma decided_same s request result w : decided s request result w w.
Proof. by split; [|left]. Qed.

(** The journaled intent, as [journaledRecoveryIntent] rebuilds it. *)
Record agreed request (result : CommitResult) intent receipt : Prop := {
  ag_about : about request result intent;
  ag_receipt : receipt_json receipt = Ok (pi_ReceiptJSON intent);
  ag_fields : ∃ fences, recoveryAgrees request result fences receipt = true;
}.

Lemma recovery_agreed s request result ls record g intent receipt g' :
  journaledRecoveryIntent s request result ls record g = (Ok (intent, receipt), g') →
  agreed request result intent receipt ∧ dp_Intent record = intent ∧ one_line (rq_PublicationRef request).
Proof.
  unfold journaledRecoveryIntent. intros ([[tenant repo] fences] & g1 & Hauth & Hrun)%M_bind_ok.
  unfold publicationAuthority in Hauth. apply M_bind_ok in Hauth as ([] & g2 & _ & Hauth).
  apply M_bind_ok in Hauth as ([] & g3 & Hreq & _). injection Hreq as Hreq%ValidateDeliveryRequest_ok _.
  apply M_bind_ok in Hrun as ([] & g4 & _ & Hrun). apply M_bind_ok in Hrun as (receipt' & g5 & _ & Hrun).
  apply M_bind_ok in Hrun as ([] & g6 & Hcan & Hrun). apply M_bind_ok in Hrun as ([] & g7 & Hagr & Hrun).
  apply M_bind_ok in Hrun as (auth & g8 & _ & Hrun). apply M_bind_ok in Hrun as ([] & g9 & Hx & Hrun).
  injection Hrun as <- <- _. injection Hcan as Hcan _. injection Hagr as Hagr%fail_if_ok%negb_false_iff _.
  injection Hx as Hx%exact_record _. split_and!; [split; [done| |by exists fences]|done|by apply request_one_line].
  unfold canonical_bytes in Hcan. destruct (receipt_json receipt') as [json|]; [|done].
  apply fail_if_ok, negb_false_iff, bool_decide_eq_true in Hcan as ->. done.
Qed.

Lemma conflict_spec s request result intent observed w :
  about request result intent → refs (git w) !! ref_key s request ≠ Some (Direct (cr_ResultCommit result)) →
  owp w (on_db (ConflictDeliveryPublication (sv_store s) intent observed)) (λ _ w',
    decided s request result w w').
Proof.
  intros Hab Hne. apply owp_db. intros r s' Hrun. split; [done|].
  assert (safe (ConflictDeliveryPublication (sv_store s) intent observed)) as Hsafe.
  { do 3 (apply safe_lifted; intros []). apply safe_atomically. }
  destruct r as [record|e]; [|apply Hsafe in Hrun; left; cbn; by rewrite Hrun].
  unfold ConflictDeliveryPublication in Hrun. do 3 (apply M_bind_ok in Hrun as ([] & ? & [= _ <-] & Hrun)).
  apply (swp_run _ _ _ _ _ (transition_outcome _ _ _ _ _ (or_intror eq_refl))) in Hrun as (_ & _ & _ & [[_ Ht]|Hset]).
  { left. cbn. by rewrite Ht. }
  right. exists intent, "conflict", observed, (tables s'). split_and!; [done..|]. by right; right.
Qed.

Lemma invalid_spec s request result intent err w {A} :
  about request result intent →
  (As_invalid err ≠ None → refs (git w) !! ref_key s request ≠ Some (Direct (cr_ResultCommit result))) →
  owp w (e ← recordInvalidPublicationRefConflict s intent err; throw e : M error (World G) A) (λ r w',
    decided s request result w w' ∧ ∃ e, r = Err e).
Proof.
  intros Hab Hne. unfold recordInvalidPublicationRefConflict. apply owp_bind.
  destruct (invalid_conflict err) as [[-> _]|[Hinv [cause ->]]].
  { owp_seq. split; [apply decided_same|eauto]. }
  owp_seq. eapply owp_mono; [apply conflict_spec; [done|auto]|]. intros r w' Hd. destruct r; owp_seq; eauto.
Qed.

Lemma recover_conflict_spec s request result intent observed w :
  about request result intent → refs (git w) !! ref_key s request ≠ Some (Direct (cr_ResultCommit result)) →
  owp w (recoverConflict s intent observed) (λ r w', decided s request result w w' ∧ ∃ e, r = Err e).
Proof.
  intros Hab Hne. unfold recoverConflict. owp_seq. eapply owp_mono; [by apply conflict_spec|].
  intros r w' Hd. destruct r; owp_seq; eauto.
Qed.

Lemma recover_published_spec s request result ls intent receipt w :
  agreed request result intent receipt →
  refs (git w) !! ref_key s request = Some (Direct (cr_ResultCommit result)) →
  owp w (recoverPublished s request result ls intent receipt (cr_ResultCommit result)) (λ r w',
    decided s request result w w' ∧ receipted s request result (agreed request result) r w').
Proof.
  intros Hag Href. pose proof (ag_about _ _ _ _ Hag) as Hab. unfold recoverPublished. apply owp_bind, owp_db.
  intros r s1 Hrun. assert (safe (RecoverDeliveryPublication (sv_store s) intent (cr_ResultCommit result))) as Hsafe.
  { do 3 (apply safe_lifted; intros []). apply safe_atomically. }
  destruct r as [record|e].
  2: { apply Hsafe in Hrun. split; [|done]. split; [done|left]. cbn. by rewrite Hrun. }
  unfold RecoverDeliveryPublication in Hrun. do 3 (apply M_bind_ok in Hrun as ([] & ? & [= _ <-] & Hrun)).
  assert (Some (cr_ResultCommit result) = Some (pi_ResultCommit intent)) as Hres by (by rewrite (ab_result _ _ _ Hab)).
  apply (swp_run _ _ _ _ _ (transition_outcome _ _ _ _ _ (or_introl (conj eq_refl Hres)))) in Hrun
    as (_ & Hst & _ & Hout). rewrite Hst, bool_decide_eq_true_2 by done. cbn [negb].
  assert (already (sv_store s) intent ["published"] (tables s1)) as Hpub.
  { destruct Hout as [[Hold ->]|Hset]; [done|by eapply settled_already]. }
  eapply owp_mono; [by eapply (confirmed_spec _ _ _ (agreed request result))|]. cbn [git db].
  intros r w' (Hr & Hj & Hrec). split; [|done]. apply (decided_then _ _ _ _ (mkWorld s1 (git w))); [|done..].
  split; [done|]. destruct Hout as [[_ Ht]|Hset]; [left; cbn; by rewrite Ht|right].
  exists intent, "published", (Some (cr_ResultCommit result)), (tables s1). split_and!; [done..|]. by left.
Qed.

Lemma recover_abandoned_spec s request result ls intent receipt w :
  agreed request result intent receipt → one_line (rq_PublicationRef request) →
  refs (git w) !! ref_key s request = Direct <$> rq_PublicationPreviousCommit request →
  refs (git w) !! ref_key s request ≠ Some (Direct (cr_ResultCommit result)) →
  owp w (recoverAbandoned s request result ls intent receipt) (λ r w',
    decided s request result w w' ∧ receipted s request result (agreed request result) r w').
Proof.
  intros Hag Hline Href Hne. pose proof (ag_about _ _ _ _ Hag) as Hab. unfold recoverAbandoned. owp_seq. apply owp_intro.
  intros r w1 Hrun. pose proof (Abandon_trace _ _ _ _ _ _ Hrun) as Htr.
  assert (refs (git w1) = refs (git w)) as Hr1.
  { destruct Htr as [| ? ? Ho|? ? ? Ho]; [done|by apply observe_spec in Ho as [? _]..]. }
  destruct r as [record|err].
  2: { apply Abandon_err in Hrun as Ht. apply owp_mono with (Q := λ r w', decided s request result w1 w' ∧ ∃ e, r = Err e).
    - apply invalid_spec; [done|]. by rewrite Hr1.
    - intros r w' [Hd [e ->]]. split; [|done]. by eapply decided_from. }
  apply (wwp_run _ _ _ _ _ (Abandon_outcome _ _ _ _)) in Hrun as (Hi & Hout).
  assert (decided s request result w w1) as Hd.
  { split; [done|]. destruct Hout as [(_ & Ht & _)|(_ & _ & Hset)]; [left; by rewrite Ht|right].
    exists intent, "abandoned", (pi_PublicationPreviousCommit intent), (tables (db w1)). split_and!; [done..|].
    right; left. by split_and!. }
  destruct (bool_decide (dp_State record = "published")) eqn:Hpub.
  2: { destruct (bool_decide (dp_State record = "abandoned")); [|owp_seq; done].
       eapply owp_mono; [apply notApplied_spec|]. intros r w' (Hg & Hj & e & -> & _). split; [|done].
       eapply decided_then; [done|by rewrite Hg|done]. }
  apply bool_decide_eq_true in Hpub. destruct Hout as [(Hal & Ht & _)|(Hst & _ & _)]; [|congruence].
  rewrite Hpub, <-Ht in Hal. unfold replayPublished.
  eapply owp_mono; [by eapply (confirmed_spec _ _ _ (agreed request result))|].
  intros r w' (Hr & Hj & Hrec). split; [|done]. by eapply decided_then.
Qed.

Lemma Recover_spec s request result ls w :
  owp w (Recover s request result ls) (λ r w',
    decided s request result w w' ∧ receipted s request result (agreed request result) r w').
Proof.
  unfold Recover. owp_seq. eapply owp_mono; [apply get_spec|]. intros r w1 (Hg1 & Ht1 & Hrec).
  assert (decided s request result w w1) as Hd1 by (split; [by rewrite Hg1|left; by rewrite Ht1]).
  destruct r as [[record|]|e]; [|owp_seq; done|done]. specialize (Hrec _ eq_refl).
  owp_seq. apply owp_git. intros r g2 Hint. pose proof (recoveryIntent_still _ _ _ _ _ _ _ _ Hint) as Hg2.
  assert (refs g2 = refs (git w)) as Hr2 by (by rewrite Hg2, Hg1).
  assert (decided s request result w (mkWorld (db w1) g2)) as Hd2 by (split; [done|left; cbn; by rewrite Ht1]).
  destruct r as [[intent receipt]|e]; [|done]. apply recovery_agreed in Hint as (Hag & Hx & Hline). rewrite Hx in Hrec.
  pose proof (ag_about _ _ _ _ Hag) as Hab. clear Hd1.
  destruct (bool_decide (_ = "abandoned")).
  { eapply owp_mono; [apply notApplied_spec|]. intros r w' (Hg & Hj & e & -> & _). split; [|done].
    eapply decided_then; [done|by rewrite Hg|done]. }
  owp_seq. apply owp_git. cbn [git db]. intros r g3 Hob. apply observe_spec in Hob as [Hr3 Htell]. rewrite Hr2 in Hr3.
  assert (decided s request result w (mkWorld (db w1) g3)) as Hd3 by (split; [done|left; cbn; by rewrite Ht1]).
  assert (∀ w' r, decided s request result (mkWorld (db w1) g3) w' →
    receipted s request result (agreed request result) r w' →
    decided s request result w w' ∧ receipted s request result (agreed request result) r w') as Hfrom.
  { intros w' r' Hd Hrc. split; [|done]. exact (decided_from _ _ _ _ (mkWorld (db w1) g3) _ Hr3 Ht1 Hd). }
  unfold tells in Htell. rewrite Hr2 in Htell. destruct r as [o|err].
  2: { destruct (bool_decide _); [|owp_seq; done]. eapply owp_mono.
       - apply invalid_spec; [done|]. cbn [git]. rewrite Hr3. intros Hinv. by apply Htell.
       - cbn beta. intros r w' [Hd [e ->]]. by apply Hfrom. }
  destruct (bool_decide (_ = "published")) eqn:Hpub.
  { destruct (bool_decide (o = _)) eqn:Ho; [|owp_seq; done].
    apply bool_decide_eq_true in Ho as ->. apply bool_decide_eq_true in Hpub. rewrite Hpub in Hrec.
    eapply owp_mono; [apply releasePublished_spec|]. intros r w' (Hg & Hj & released & err & -> & Hrel). cbn [git db] in *.
    split; [eapply decided_then; [done|by rewrite Hg|done]|]. exists receipt, intent. cbn [pr_Receipt pr_LeaseReleased].
    split_and!; [done..|by eapply already_journal|by rewrite Hg, Hr3|done]. }
  destruct (negb _); [owp_seq; done|]. destruct (bool_decide (o = _)) eqn:Ho.
  { apply bool_decide_eq_true in Ho as ->. eapply owp_mono; [apply recover_published_spec; [done|cbn; by rewrite Hr3]|].
    cbn beta. intros r w' [Hd Hrc]. by apply Hfrom. }
  apply bool_decide_eq_false in Ho.
  assert (refs g3 !! ref_key s request ≠ Some (Direct (cr_ResultCommit result))) as Hne.
  { rewrite Hr3, Htell. destruct o as [c|]; [|done]. cbn. intros [= ->]. done. }
  unfold optionalCommitEqual. destruct (bool_decide (o = _)) eqn:Hp.
  { apply bool_decide_eq_true in Hp as ->. rewrite (ab_previous _ _ _ Hab) in Htell.
    eapply owp_mono; [apply recover_abandoned_spec; [done|done|cbn; by rewrite Hr3|done]|].
    cbn beta. intros r w' [Hd Hrc]. by apply Hfrom. }
  eapply owp_mono; [by apply recover_conflict_spec|]. cbn beta. intros r w' [Hd [e ->]]. by apply Hfrom.
Qed.

(** ** Theorems *)

(** C20. A reference only moves by an approved and journaled publication. Whatever
    [Publish] answers for a result commit that is not the zero object name (which Git
    takes for the deletion of a reference), and wherever it fails, either no reference of any
    repository changed, or exactly one did: the publication reference of the
    request, in the repository of the service, from the approved previous commit
    to the result; and then the intent of that move is on record, prepared or
    published, never marked as a conflict or abandoned. *)
Theorem publish_moves_are_journaled s request result bundle ls w r w' :
  Publish s request result bundle ls w = (r, w') → cr_ResultCommit result ≠ zeroCommit →
  refs (git w') = refs (git w) ∨
  refs (git w) !! ref_key s request = Direct <$> rq_PublicationPreviousCommit request ∧
  refs (git w') = <[ref_key s request := Direct (cr_ResultCommit result)]> (refs (git w)) ∧
  ∃ intent, about request result intent ∧
    already (sv_store s) intent ["prepared"; "published"] (tables (db w')).
Proof.
  intros Hrun Hnz. destruct (owp_run _ _ _ _ _ (Publish_spec _ _ _ _ _ _ Hnz) Hrun) as [[Hr|(intent & Ha & Hs & Hal)] _].
  - by left.
  - right. destruct Hs as [Hs1 Hs2]. rewrite (ab_ref _ _ _ Ha), (ab_previous _ _ _ Ha) in Hs1.
    rewrite (ab_ref _ _ _ Ha), (ab_result _ _ _ Ha) in Hs2. split_and!; [done..|by exists intent].
Qed.

(** C21. An answer of [Publish] is durable and true: when it returns a receipt, for a
    result commit that is not the zero object name, even with an error about the leases next to it, the receipt passed the validation
    of the publication contract for this request and this evidence, its JSON is
    what the journal stores in a published row for this delivery, attempt,
    reference and result, the reference holds the result commit, and the leases
    were released exactly if there is no error. *)
Theorem publish_answer_is_durable s request result bundle ls w outcome err w' :
  Publish s request result bundle ls w = (Ok (outcome, err), w') → cr_ResultCommit result ≠ zeroCommit →
  ∃ receipt intent, pr_Receipt outcome = Some receipt ∧
    ValidateDeliveryPublication request (vb_Report bundle) (vb_ManifestJSON bundle) receipt = Ok tt ∧
    about request result intent ∧ receipt_json receipt = Ok (pi_ReceiptJSON intent) ∧
    already (sv_store s) intent ["published"] (tables (db w')) ∧
    refs (git w') !! ref_key s request = Some (Direct (cr_ResultCommit result)) ∧
    (pr_LeaseReleased outcome = true ↔ err = None).
Proof.
  intros Hrun Hnz. destruct (owp_run _ _ _ _ _ (Publish_spec _ _ _ _ _ _ Hnz) Hrun) as [_ Hrec].
  destruct Hrec as (receipt & intent & Hrc & [Ha Hv Hj] & Hal & Hr & Hl). exists receipt, intent. by split_and!.
Qed.

(** C22. Recovery follows the reference. However [Recover] ends, no reference moved,
    and the journal is as it was unless the prepared row of this delivery and
    attempt was decided: published only when the reference holds the result,
    abandoned only when it holds the approved previous commit and not the result,
    a conflict only when it does not hold the result. A receipt is answered only
    when its row is published and the reference holds the result. *)
Theorem recovery_follows_the_reference s request result ls w r w' :
  Recover s request result ls w = (r, w') →
  refs (git w') = refs (git w) ∧
  (journal_of w' = journal_of w ∨
   ∃ intent state observed t, about request result intent ∧
     settled (sv_store s) intent state observed (tables (db w)) t ∧
     journal_of w' = delivery_publications (work t) ∧ verdict s request result (git w) state) ∧
  receipted s request result (agreed request result) r w'.
Proof. intros Hrun. destruct (owp_run _ _ _ _ _ (Recover_spec _ _ _ _ _) Hrun) as [[Hr Hj] Hrec]. by split_and!. Qed.
End service.
