(* ===== verification/PublicationHistories.v ===== *)
(** * The publication service as a client of the system

    A call of the service is a history of the system: reads and operations of the
    journal, releases of leases, and changes of Git. What holds of every history
    of the journal therefore holds with the service in it. *)

From S2P Require Import Prelude GoLib Fault Contracts Identity RunState LeasePaths.
From S2P Require Import ControlMemory Governance ControlRefinement AttemptRecords Postgres DeliveryContracts.
From S2P Require Import Leases LeaseSets LeaseSafety.
From S2P Require Import PgTables PgEvents Publications PgLogic PublicationEffects PublicationWorld.
From S2P Require Import PgControl PgEffects PgSample PgRefinement PgStreams.
From S2P Require Import Queue Outbox ProjectionDeliveries RunProjection RunReplay StreamEffects PgSystem.
From S2P Require Import WorkerResults Attempts AttemptEffects Authorizations AuthorizationEffects PgProperties.
From S2P Require Import AttemptProperties PublicationProperties PublicationService PublicationServiceLogic.

(** ** The mark of a callback *)

Section marks.
Context `{Clock, Database, TimeText, Sha256, Collation, Json, DeliveryJson} {G : Type}.

Definition unmarked (w : World (G * bool)) : World G := mkWorld (db w) (git w).1.

(** [m] and [m'] do the same but for the mark. *)
Definition agrees {A} (m : M error (World (G * bool)) A) (m' : M error (World G) A) : Prop :=
  ∀ w, m' (unmarked w) = ((m w).1, unmarked (m w).2).

Lemma agrees_bind {A B} (m : M error (World (G * bool)) A) m' (k : A → M error (World (G * bool)) B) k' :
  agrees m m' → (∀ a, agrees (k a) (k' a)) → agrees (m ≫= k) (m' ≫= k').
Proof.
  intros Hm Hk w. rewrite !M_bind_run, Hm. destruct (m w) as [[a|e] w1]; cbn; [apply Hk|done].
Qed.
Lemma agrees_ret {A} (a : A) : agrees (mret a) (mret a).
Proof. done. Qed.
Lemma agrees_throw {A} e : agrees (A := A) (throw e) (throw e).
Proof. done. Qed.
Lemma agrees_lift {A} (x : result A) : agrees (lift x) (lift x).
Proof. done. Qed.
Lemma agrees_db {A} (m : M error (DB Forja) A) : agrees (on_db m) (on_db m).
Proof. intros w. unfold on_db, unmarked. cbn. by destruct (m (db w)). Qed.
Lemma agrees_flagged {A} (m : M error G A) : agrees (on_git (flagged m)) (on_git m).
Proof. intros w. unfold on_git, flagged, unmarked. cbn. by destruct (m (git w).1). Qed.
Lemma agrees_unflagged {A} (m : M error G A) : agrees (on_git (unflagged m)) (on_git m).
Proof. intros w. unfold on_git, unflagged, unmarked. cbn. by destruct (m (git w).1). Qed.
Lemma agrees_transaction {A} (m : M error (World (G * bool)) A) m' :
  agrees m m' → agrees (transaction m) (transaction m').
Proof. intros Hm w. unfold transaction. rewrite Hm. by destruct (m w) as [[a|e] w1]. Qed.

Lemma marked_completion st intent ls (revalidate apply : M error G unit) :
  agrees (CompleteDeliveryPublication st intent ls (Some (unflagged revalidate)) (Some (flagged apply)))
    (CompleteDeliveryPublication st intent ls (Some revalidate) (Some apply)).
Proof.
  unfold CompleteDeliveryPublication, publishPrepared.
  repeat first
    [ apply agrees_ret | apply agrees_throw | apply agrees_lift | apply agrees_db | apply agrees_flagged
    | apply agrees_unflagged | apply agrees_transaction | apply agrees_bind; [|intros]
    | match goal with |- agrees (match ?x with _ => _ end) _ => destruct x end ].
Qed.
End marks.

(** ** Histories *)

Section system.
Context `{Clock, !ClockStarted, Database, Sha256, Json, !Jsonb, Entropy, Sequences, UuidText}.
Context `{!JsonCodec Run, !JsonCodec Sprint, !JsonCodec Decision, !JsonCodec AuditRecord,
          !JsonCodec PlanResult, !JsonCodec SubmissionResult, !JsonCodec DecisionResult}.
Context `{!UuidLaws, !RunCodecLaws, RowLocks, TextOrder, Visits, TimeText, Collation, DeliveryJson}.
Context `{!AttemptCodecs, !JsonCodec WorkerResult, !WorkerContracts, ReportJson, !AuthorizationContracts}.
Context {G : Type} `{Schemas, !Host G}.
Implicit Types (w : World G) (s : PublicationService).

(** Every run of [m] is a history of the system. *)
Definition history {A} (m : M error (World G) A) : Prop := ∀ w r w', m w = (r, w') → rtc wstep w w'.

Lemma history_bind {A B} (m : M error (World G) A) (k : A → M error (World G) B) :
  history m → (∀ a, history (k a)) → history (m ≫= k).
Proof.
  intros Hm Hk w r w'. rewrite M_bind_run. destruct (m w) as [[a|e] w1] eqn:Hrun; apply Hm in Hrun.
  - intros Hrun'%Hk. by transitivity w1.
  - by intros [= _ <-].
Qed.
Lemma history_ret {A} (a : A) : history (mret a).
Proof. by intros w r w' [= _ <-]. Qed.
Lemma history_throw {A} e : history (A := A) (throw e).
Proof. by intros w r w' [= _ <-]. Qed.
Lemma history_lift {A} (x : result A) : history (lift x).
Proof. by intros w r w' [= _ <-]. Qed.
Lemma history_handle {A} (m : M error (World G) A) : history m → history (handle m).
Proof. intros Hm w r w'. unfold handle. destruct (m w) as [r0 w1] eqn:Hrun. intros [= _ <-]. by eapply Hm. Qed.
Lemma history_git {A} (m : M error G A) : history (on_git m).
Proof.
  intros w r w'. unfold on_git. destruct (m (git w)) as [r0 g]. intros [= _ <-]. apply rtc_once, ws_git.
Qed.

Lemma history_op {A} st op (f : A → option DeliveryPublication) (m : M error (World G) A) :
  publication_run st op = (a ← m; mret (f a)) → history m.
Proof.
  intros Hop w r w' Hrun. apply rtc_once.
  apply (ws_publication _ st op (match r with Ok a => Ok (f a) | Err e => Err e end)).
  rewrite Hop, M_bind_run, Hrun. by destruct r.
Qed.

Lemma history_get st d a : history (on_db (GetDeliveryPublication st d a)).
Proof. intros w r w' Hrun. apply rtc_once. by eapply (ws_publication _ st (OpGetPublication d a)). Qed.
Lemma history_prepare st intent ls : history (on_db (PrepareDeliveryPublication st intent ls)).
Proof. by apply (history_op st (OpPrepare intent ls) Some). Qed.
Lemma history_recover st intent c : history (on_db (RecoverDeliveryPublication st intent c)).
Proof. by apply (history_op st (OpRecover intent c) Some). Qed.
Lemma history_conflict st intent c : history (on_db (ConflictDeliveryPublication st intent c)).
Proof. by apply (history_op st (OpConflict intent c) Some). Qed.
Lemma history_abandon st intent ob : history (AbandonDeliveryPublication st intent ob).
Proof. by apply (history_op st (OpAbandon intent ob) Some). Qed.

Lemma history_complete st intent ls revalidate apply :
  history (with_mark (CompleteDeliveryPublication st intent ls (Some (unflagged revalidate)) (Some (flagged apply)))).
Proof.
  intros w r w'. unfold with_mark. pose proof (marked_completion st intent ls revalidate apply (mkWorld (db w) (git w, false))) as Hag.
  destruct (CompleteDeliveryPublication _ _ _ _ _ (mkWorld (db w) (git w, false))) as [out w1].
  intros [= _ <-]. cbn [fst snd] in Hag.
  refine (history_op st (OpPublish intent ls (Some revalidate) (Some apply)) Some _ eq_refl w out _ _).
  by destruct w.
Qed.

Lemma history_release s ls : history (releaseLeases s ls).
Proof.
  intros w r w'. unfold releaseLeases, on_db. destruct (on_leases _ _) as [r0 s'] eqn:Hrun. intros [= _ <-].
  apply rtc_once, (ws_system _ (ByLease (OpReleaseSet (sv_store s) ls))). exists r0. revert Hrun.
  unfold on_leases. cbn [run_op]. unfold discard. rewrite M_bind_run. by destruct (ReleaseLeaseSet _ _ _) as [[[]|e] s0].
Qed.

Lemma history_now : history now.
Proof. intros w r w'. unfold now. destruct (host_now _) as [t g]. intros [= _ <-]. apply rtc_once, ws_git. Qed.

Ltac historic :=
  repeat lazymatch goal with
  | |- history (mbind _ _) => apply history_bind; [|intros]
  | |- history (mret _) => apply history_ret
  | |- history (throw _) => apply history_throw
  | |- history (lift _) => apply history_lift
  | |- history (handle _) => apply history_handle
  | |- history (on_git _) => apply history_git
  | |- history now => apply history_now
  | |- history (on_db (GetDeliveryPublication _ _ _)) => apply history_get
  | |- history (on_db (PrepareDeliveryPublication _ _ _)) => apply history_prepare
  | |- history (on_db (RecoverDeliveryPublication _ _ _)) => apply history_recover
  | |- history (on_db (ConflictDeliveryPublication _ _ _)) => apply history_conflict
  | |- history (AbandonDeliveryPublication _ _ _) => apply history_abandon
  | |- history (with_mark _) => apply history_complete
  | |- history (releaseLeases _ _) => apply history_release
  | |- history (match ?x with _ => _ end) => destruct x
  | |- history (let '(_, _) := ?x in _) => destruct x
  end.

Lemma history_confirm s ref commit text : history (confirmRef s ref commit text).
Proof. unfold confirmRef. historic. Qed.
Lemma history_released s receipt ls replayed : history (releasePublishedLease s receipt ls replayed).
Proof. unfold releasePublishedLease. historic. Qed.
Lemma history_unapplied s ls : history (notApplied s ls).
Proof. unfold notApplied. historic. Qed.
Lemma history_replay s request result receipt ls : history (replayPublished s request result receipt ls).
Proof. apply history_bind; [apply history_confirm|intros; apply history_released]. Qed.

Lemma history_rebuild s request result bundle ls intent receipt :
  history (prepareOrRebuild s request result bundle ls intent receipt).
Proof. unfold prepareOrRebuild. historic. Qed.

Lemma history_completed s request result bundle ls intent receipt :
  history (completePublication s request result bundle ls intent receipt).
Proof.
  unfold completePublication. historic; [apply history_confirm|apply history_released].
Qed.

Lemma history_from s request result bundle ls intent receipt :
  history (publishFrom s request result bundle ls intent receipt).
Proof.
  unfold publishFrom. apply history_bind; [apply history_rebuild|]. intros [[intent' receipt'] record].
  historic; [apply history_replay|apply history_unapplied|apply history_completed].
Qed.

Lemma history_publish s request result bundle ls : history (Publish s request result bundle ls).
Proof.
  unfold Publish. historic; first [apply history_replay|apply history_unapplied|apply history_from].
Qed.

Lemma history_invalid s intent err : history (recordInvalidPublicationRefConflict s intent err).
Proof. unfold recordInvalidPublicationRefConflict. historic. Qed.

Lemma history_recovery s request result ls : history (Recover s request result ls).
Proof.
  unfold Recover, recoverPublished, recoverAbandoned, recoverConflict.
  historic; first [apply history_invalid|apply history_replay|apply history_unapplied|apply history_confirm|apply history_released].
Qed.
End system.
