(* ===== verification/PublicationServiceSample.v ===== *)
(** * A concrete run of the publication service

    The delivery of [PublicationSample], published by the service, and recovered
    by it after a crash between the move of the reference and the receipt. Git is
    one repository with at most one reference. *)

From S2P Require Import Prelude GoLib Fault Contracts Identity RunState LeasePaths.
From S2P Require Import ControlMemory Governance ControlRefinement AttemptRecords Postgres DeliveryContracts.
From S2P Require Import Leases LeaseSets LeaseExpansion DeliveryScopes DeliveryLeases DeliverySample LeaseSafety.
From S2P Require Import PgTables PgEvents Publications PgLogic PublicationEffects PublicationWorld.
From S2P Require Import PgControl PgEffects PgSample PgRefinement PgStreams.
From S2P Require Import Queue Outbox ProjectionDeliveries RunProjection RunReplay StreamEffects PgSystem.
From S2P Require Import WorkerResults Attempts AttemptEffects Authorizations AuthorizationEffects PgProperties AttemptProperties.
From S2P Require Import PublicationProperties SystemSample PublicationSample.
From S2P Require Import PublicationService PublicationGit PublicationServiceLogic PublicationServiceProperties PublicationHistories.

Module Serving.
Import Sample Session Documents Publishing.

(** ** The host *)

Definition repository : string := "/work/repo".
Definition reference : string := "refs/forja/deliveries/" +:+ delivery.
Definition refused : error := ErrorString (Lit "exit status 1").
Definition file : FileInfo := mkFileInfo false true "repo".
Definition outcome_commit : CommitResult := mkCommitResult commit commit commit sha_text ["src/a"].

Definition print_ref (path : string) (args : list string) (g : Git) : string :=
  if bool_decide (path = repository ∧ args = for_each_ref reference ∧ g = Some commit)
  then shown reference commit +:+ String (chr 10) "" else "".

#[export] Instance machine : Host Git := {
  Lstat _ := mret file;
  Stat _ := mret file;
  EvalSymlinks path := mret path;
  manager_git path args := λ g, (Ok (print_ref path args g), g);
  manager_gitMutation path args := λ g,
    if bool_decide (path = repository ∧ args = ["update-ref"; "--no-deref"; reference; commit; zeroCommit] ∧
                    g ≠ Some commit)
    then (Ok "", Some commit) else (Err refused, g);
  resolveRequest r := mret (mkResolved r repository);
  inspectCommitResult _ _ := mret outcome_commit;
  verifyPersistedValidationBundle _ _ := mret tt;
  host_now g := (moment 4, g);
}.

#[export] Instance references : GitRefs Git := λ g,
  if bool_decide (g = Some commit) then {[(repository, reference) := Direct commit]} else ∅.

Lemma mret_honest {A} (a : A) : honest (mret a : M error Git A).
Proof. by intros g r g' [= <- <-]. Qed.

Lemma printed path ref g :
  match refs g !! (path, ref) with
  | Some (Direct c) =>
      match_classes fullObjectIDPattern c = true ∧ TrimSpace (print_ref path (for_each_ref ref) g) = shown ref c
  | Some Otherwise => TrimSpace (print_ref path (for_each_ref ref) g) ≠ "" ∧
      ∀ c, TrimSpace (print_ref path (for_each_ref ref) g) ≠ shown ref c
  | None => ∀ c, TrimSpace (print_ref path (for_each_ref ref) g) ≠ shown ref c
  end.
Proof.
  unfold refs, references. destruct (decide (path = repository ∧ ref = reference ∧ g = Some commit)) as [(-> & -> & ->)|Hne].
  { rewrite bool_decide_eq_true_2 by done. rewrite lookup_singleton_eq. split; vm_compute; reflexivity. }
  assert ((if bool_decide (g = Some commit) then {[(repository, reference) := Direct commit]} else ∅)
    !! (path, ref) = None) as ->.
  { case_bool_decide; [|done]. rewrite lookup_singleton_ne; [done|]. intros [= <- <-]. by apply Hne. }
  intros c. unfold print_ref. rewrite bool_decide_eq_false_2.
  { unfold shown. by destruct ref. }
  intros (? & Hargs & ?). apply Hne. unfold for_each_ref in Hargs. by injection Hargs.
Qed.

#[export] Instance machine_laws : GitLaws Git.
Proof.
  split; try (intros; apply mret_honest); try (intros; apply honest_still, mret_honest).
  - by intros path args g r g' [= <- <-].
  - done.
  - intros path ref g out g' [= <- <-]. apply printed.
  - intros path ref new old g r g'. cbn. case_bool_decide as Hb; intros [= <- <-] _ _.
    + destruct Hb as (-> & [= -> -> ->] & Hg). split; [done|right]. unfold refs, references, demanded.
      by rewrite bool_decide_eq_false_2, !bool_decide_eq_true_2.
    + split; [by intros ? [= <-]|]. left. split; [by eexists|done].
Qed.

#[export] Instance schemas : Schemas := { NewRegistry := None; ValidateJSON _ _ := None }.

(** ** The service *)

Definition service : PublicationService :=
  mkService home (mkRepositoryAuthority ("tenant_" +:+ uuid1) ("repo_" +:+ uuid1) repository) file.
Definition bundle : ValidationBundle :=
  mkBundle report "report" manifest "manifest" ("out/report.json#sha256=" +:+ sha_text)
    ("out/manifest.json#sha256=" +:+ sha_text) "/work/trees".

Abbreviation publishing := (Publish service request outcome_commit bundle proof_set).
Abbreviation recovering := (Recover service request outcome_commit proof_set).

(** The row is prepared, the reference has moved, and the service is gone. *)
Definition crashed : World Git := mkWorld (db w12) (Some commit).

Lemma published_world :
  ∃ out err w', publishing w11 = (Ok (out, err), w') ∧ git w' = Some commit.
Proof.
  assert (match publishing w11 with (Ok _, w') => bool_decide (git w' = Some commit) | _ => false end = true) as Hok
    by (vm_compute; reflexivity).
  destruct (publishing w11) as [[[out err]|e] w']; [|done]. apply bool_decide_eq_true in Hok. by exists out, err, w'.
Qed.

Lemma not_zero : cr_ResultCommit outcome_commit ≠ zeroCommit.
Proof. done. Qed.

(** ** Witnesses *)

Lemma publish_moves_are_journaled_witness :
  ∃ r w' intent, publishing w11 = (r, w') ∧ refs (git w') = {[(repository, reference) := Direct commit]} ∧
    already home intent ["prepared"; "published"] (tables (db w')).
Proof.
  destruct published_world as (out & err & w' & Hrun & Hg).
  destruct (publish_moves_are_journaled service request outcome_commit bundle proof_set w11 (Ok (out, err)) w' Hrun not_zero)
    as [Hr|(_ & _ & intent & _ & Hal)].
  - rewrite Hg in Hr. discriminate (f_equal (λ m, m !! (repository, reference)) Hr).
  - exists (Ok (out, err)), w', intent. rewrite Hg. exact (conj Hrun (conj eq_refl Hal)).
Defined.

Lemma publish_answer_is_durable_witness :
  ∃ out err w' receipt intent, publishing w11 = (Ok (out, err), w') ∧ pr_Receipt out = Some receipt ∧
    already home intent ["published"] (tables (db w')).
Proof.
  destruct published_world as (out & err & w' & Hrun & _).
  destruct (publish_answer_is_durable service request outcome_commit bundle proof_set w11 out err w' Hrun not_zero)
    as (receipt & intent & Hrc & _ & _ & _ & Hal & _).
  exists out, err, w', receipt, intent. exact (conj Hrun (conj Hrc Hal)).
Defined.

Lemma recovered_world : ∃ out err w', recovering crashed = (Ok (out, err), w').
Proof.
  assert (is_ok (recovering crashed).1 = true) as Hok by (vm_compute; reflexivity).
  destruct (recovering crashed) as [[[out err]|e] w']; [by exists out, err, w'|done].
Qed.

Lemma recovery_follows_the_reference_witness :
  ∃ out err w' receipt intent, recovering crashed = (Ok (out, err), w') ∧ pr_Receipt out = Some receipt ∧
    already home intent ["published"] (tables (db w')) ∧ refs (git w') = refs (git crashed).
Proof.
  destruct recovered_world as (out & err & w' & Hrun).
  destruct (recovery_follows_the_reference service request outcome_commit proof_set crashed (Ok (out, err)) w' Hrun)
    as (Hr & _ & receipt & intent & Hrc & _ & Hal & _).
  exists out, err, w', receipt, intent. exact (conj Hrun (conj Hrc (conj Hal Hr))).
Defined.
End Serving.
