(* ===== verification/Approval.v ===== *)
(** * Package [internal/execution]: approval of a delivery ([approval.go])

    The service that lets an authenticated human approve one exact delivery
    request, and the check by which the pipeline later recognises that approval. *)

From S2P Require Import Prelude GoLib Fault Contracts Identity RunState LeasePaths.
From S2P Require Import ControlMemory ControlService Governance ControlRefinement AttemptRecords Postgres DeliveryContracts.
From S2P Require Import Leases LeaseSets LeaseExpansion DeliveryScopes DeliveryLeases DeliverySample LeaseSafety.
From S2P Require Import PgTables PgEvents PgLogic PgControl PgEffects PgSample PgRefinement PgStreams.
From S2P Require Import Queue Outbox ProjectionDeliveries RunProjection RunReplay StreamEffects PgSystem.
From S2P Require Import WorkerResults Attempts AttemptEffects Authorizations AuthorizationEffects.
From S2P Require Import PgProperties AttemptProperties AuthorizationProperties SystemSample AuthorizationSample.
From S2P Require Import PublicationService.

Definition auditToolAuthorizeDelivery : string := "forja.authorize_delivery".

Record ApproveDeliveryInput := mkApproveInput {
  ai_Request : DeliveryRequest;
  ai_Command : CommandContext;
}.

Section documents.
Context `{Sha256, DeliveryJson, Schemas}.

Definition validateDeliveryRequestDocument (request : DeliveryRequest) : result unit :=
  encoded ← wrapped "encode delivery request: %w" (request_json request);
  _ ← schema_checked "validate delivery request schema: %w" "delivery-request.schema.json" encoded;
  wrapped "validate delivery request semantics: %w" (ValidateDeliveryRequest request).

Definition deliveryRequestDigest (request : DeliveryRequest) : result string :=
  encoded ← wrapped "encode delivery request digest: %w" (request_json request);
  Ok (hexText (Sum256 encoded)).

Definition requireExactAuthorization (request : DeliveryRequest) (authorization : DeliveryAuthorization)
    : result unit :=
  want ← deliveryRequestDigest request;
  approved ← deliveryRequestDigest (da_Request authorization);
  fail_if (negb (bool_decide (da_RequestSHA256 authorization = want)) ||
           negb (bool_decide (approved = want)) ||
           bool_decide (da_ApprovedBy authorization = "") || IsZero (da_ApprovedAt authorization) ||
           bool_decide (da_ApprovedBy authorization = rq_AuthorID request) ||
           bool_decide (da_ApprovedBy authorization = rq_ValidatorID request))
    (plain_error "delivery request differs from immutable human approval").

(** [NewApprovalService]; [given] says that the repository is not nil. *)
Definition NewApprovalService (given : bool) (repository : PgStore) : result PgStore :=
  _ ← fail_if (negb given) (plain_error "delivery authorization repository is required");
  match NewRegistry with
  | Some err => Err (Errorf (Lit "compile delivery approval contracts: %w") err)
  | None => Ok repository
  end.
End documents.

Section approval.
Context `{Clock, Database, Sha256, Json, !Jsonb, Entropy, Sequences, DeliveryJson, Schemas}.
Context `{!JsonCodec AuditRecord, !WorkerContracts, !AuthorizationContracts}.

(** The checks before the repository is called, and the metadata of the command. *)
Definition approvable (principal : Principal) (input : ApproveDeliveryInput) : result CommandMetadata :=
  let op := "execution.ApprovalService.Approve" in
  let request := ai_Request input in
  _ ← fail_if (negb (bool_decide (p_ActorType principal = "human")))
        (fault CodePermissionDenied op "delivery authorization requires a human principal");
  _ ← fail_if (negb (bool_decide (PermissionDecide ∈ p_Permissions principal)))
        (fault CodePermissionDenied op "principal lacks decision authority");
  '(storageTenant, storageRepository) ←
    RepositoryStorageIdentity (rq_TenantID request) (rq_RepositoryID request);
  _ ← fail_if (negb (bool_decide (p_TenantID principal = storageTenant)) ||
               negb (bool_decide (p_RepositoryID principal = storageRepository)))
        (fault CodePermissionDenied op "principal authority does not match the delivery repository");
  _ ← fail_if (bool_decide (p_ActorID principal = rq_AuthorID request) ||
               bool_decide (p_ActorID principal = rq_ValidatorID request))
        (fault CodePermissionDenied op "delivery approver must be independent from author and validator");
  _ ← validateDeliveryRequestDocument request;
  let command := ai_Command input in
  let metadata := mkMetadata (TrimSpace (cc_IdempotencyKey command)) (p_ActorType principal)
    (p_ActorID principal) (TrimSpace (cc_CorrelationID command)) (cc_CausationID command)
    auditToolAuthorizeDelivery in
  _ ← ValidateCommandMetadata metadata;
  Ok metadata.

Definition Approve (store : PgStore) (principal : Principal) (input : ApproveDeliveryInput)
    : M error (DB Forja) DeliveryAuthorization :=
  metadata ← lift (approvable principal input);
  AuthorizeDelivery store (ai_Request input) metadata.
End approval.

(** * An approval and its recognition

    What [Approve] grants is what [requireExactAuthorization] later accepts, for this
    request and for no request with another digest. *)

Section approval.
Context `{Clock, !ClockStarted, Database, Sha256, Json, !Jsonb, Entropy, Sequences, DeliveryJson, Schemas}.
Context `{!JsonCodec AuditRecord, !WorkerContracts, !AuthorizationContracts}.

(** A principal that may approve the request in the store's repository. *)
Record may_approve (principal : Principal) (request : DeliveryRequest) : Prop := {
  ma_human : p_ActorType principal = "human";
  ma_decides : PermissionDecide ∈ p_Permissions principal;
  ma_author : p_ActorID principal ≠ rq_AuthorID request;
  ma_validator : p_ActorID principal ≠ rq_ValidatorID request;
  ma_scope : RepositoryStorageIdentity (rq_TenantID request) (rq_RepositoryID request) =
    Ok (p_TenantID principal, p_RepositoryID principal);
}.

Lemma approvable_ok principal input md :
  approvable principal input = Ok md →
  may_approve principal (ai_Request input) ∧ validateDeliveryRequestDocument (ai_Request input) = Ok tt ∧
  ActorID md = p_ActorID principal ∧ IdempotencyKey md = TrimSpace (cc_IdempotencyKey (ai_Command input)) ∧
  ValidateCommandMetadata md = Ok tt.
Proof.
  unfold approvable. intros ([] & Hh%fail_if_ok & Hok)%res_bind_ok. apply res_bind_ok in Hok as ([] & Hd%fail_if_ok & Hok).
  apply res_bind_ok in Hok as ([tenant repository] & Hid & Hok). apply res_bind_ok in Hok as ([] & Hs%fail_if_ok & Hok).
  apply res_bind_ok in Hok as ([] & Hi%fail_if_ok & Hok). apply res_bind_ok in Hok as ([] & Hdoc & Hok).
  apply res_bind_ok in Hok as ([] & Hmd & Hok). injection Hok as <-.
  apply negb_false_iff, bool_decide_eq_true in Hh, Hd. apply orb_false_iff in Hi as [Ha%bool_decide_eq_false Hv%bool_decide_eq_false].
  apply orb_false_iff in Hs as [Ht%negb_false_iff Hr%negb_false_iff]. apply bool_decide_eq_true in Ht, Hr. subst tenant repository.
  by split_and!.
Qed.

(** Only the digest of the request counts. *)
Lemma exact_digest request auth :
  requireExactAuthorization request auth = Ok tt →
  deliveryRequestDigest request = Ok (da_RequestSHA256 auth) ∧
  deliveryRequestDigest (da_Request auth) = Ok (da_RequestSHA256 auth).
Proof.
  unfold requireExactAuthorization. intros (want & Hw & Hok)%res_bind_ok. apply res_bind_ok in Hok as (approved & Ha & Hok%fail_if_ok).
  rewrite !orb_false_iff in Hok. destruct Hok as [[[[[Hd Hx] _] _] _] _].
  apply negb_false_iff, bool_decide_eq_true in Hd, Hx. rewrite Hw, Ha. by rewrite Hx, Hd.
Qed.

Lemma approved_at_real n : IsZero (postgresTimestamp (clock_reading n)) = false.
Proof.
  pose proof (clock_started n) as Hc. apply Z.eqb_neq. unfold postgresTimestamp. rewrite Truncate_floor by done.
  cbn [UTC instant]. pose proof (Z.div_le_lower_bound (instant (clock_reading n) - instant zero_time) Microsecond 1).
  unfold Microsecond in *. lia.
Qed.

Lemma actor_named md : ValidateCommandMetadata md = Ok tt → ActorID md ≠ "".
Proof.
  unfold ValidateCommandMetadata. intros ([] & _ & Hok)%res_bind_ok. apply res_bind_ok in Hok as ([] & _ & Hok).
  apply res_bind_ok in Hok as ([] & Ha%fail_if_ok & _). by intros Hx; rewrite Hx in Ha.
Qed.

(** What was granted is recognised. *)
Lemma granted_exact st request md s s' auth :
  granted st request md s s' auth → ValidateCommandMetadata md = Ok tt →
  requireExactAuthorization request auth = Ok tt.
Proof.
  intros [Hreq Hdig Hby [n Hat] _ _] Hmd. apply authorizable_ok in Hdig as (_ & _ & Ha & Hv & _ & encoded & Henc).
  assert (deliveryRequestDigest request = Ok (da_RequestSHA256 auth)) as Hd.
  { unfold deliveryRequestDigest. unfold encodedDeliveryRequest in Henc. destruct (request_json request); [|done].
    cbn. by injection Henc as _ ->. }
  unfold requireExactAuthorization. rewrite Hreq, Hd. cbn. rewrite Hby, Hat, approved_at_real.
  rewrite !(bool_decide_eq_true_2 (da_RequestSHA256 auth = _)) by done.
  rewrite !bool_decide_eq_false_2; [done|done|done|by apply actor_named].
Qed.

(** When [Approve] succeeds with a new key, the principal is a human with the right to
    decide, in the repository of the request, who neither writes nor validates the
    delivery; the approval names this principal and exactly this request, the pipeline
    will accept it for the request, and for another request only if that has the same
    digest. *)
Theorem approval_is_recognised st principal input s auth s' :
  Approve st principal input s = (Ok auth, s') →
  idempotency_keys (canonical (tables s)) !!
    (tenantID st, authorize_scope st (ai_Request input), TrimSpace (cc_IdempotencyKey (ai_Command input))) = None →
  may_approve principal (ai_Request input) ∧ (p_TenantID principal, p_RepositoryID principal) = store_scope st ∧
  validateDeliveryRequestDocument (ai_Request input) = Ok tt ∧
  da_ApprovedBy auth = p_ActorID principal ∧ da_Request auth = ai_Request input ∧
  requireExactAuthorization (ai_Request input) auth = Ok tt ∧
  ∀ request, requireExactAuthorization request auth = Ok tt →
    deliveryRequestDigest request = deliveryRequestDigest (ai_Request input).
Proof.
  intros Hrun Hkey. unfold Approve in Hrun. apply M_bind_ok in Hrun as (md & s1 & Hmd & Hrun).
  unfold lift in Hmd. injection Hmd as Hmd <-.
  apply approvable_ok in Hmd as (Hma & Hdoc & Hby & Hk & Hval). rewrite <-Hk in Hkey.
  destruct (swp_run _ _ _ _ _ (swp_AuthorizeDelivery _ _ _ _) Hrun) as [Hgr|[(rc & Hrc & _) _]]; [|congruence].
  pose proof (granted_exact _ _ _ _ _ _ Hgr Hval) as Hex. destruct Hgr as [Hreq Hdig Hgby _ _ _].
  apply authorizable_ok in Hdig as (_ & _ & _ & _ & Hsc & _). rewrite (ma_scope _ _ Hma) in Hsc. injection Hsc as Ht Hr.
  split_and!; try done; [by rewrite Ht, Hr|congruence|].
  intros request [Hd _]%exact_digest. apply exact_digest in Hex as [Hd' _]. congruence.
Qed.
End approval.

(** ** Witness *)

Module Approver.
Import Sample Session Documents Approving.

#[export] Instance schemas : Schemas := { NewRegistry := None; ValidateJSON _ _ := None }.
Definition human : Principal := mkPrincipal "human" "boss" uuid1 uuid1 {[PermissionDecide]}.
Definition input : ApproveDeliveryInput := mkApproveInput request (mkContext "key-0009" "correlation" None).

Lemma approval_is_recognised_witness :
  ∃ auth s', Approve home human input q5 = (Ok auth, s') ∧ requireExactAuthorization request auth = Ok tt.
Proof.
  assert (∃ auth s', Approve home human input q5 = (Ok auth, s')) as (auth & s' & Hrun).
  { assert (match (Approve home human input q5).1 with Ok _ => true | Err _ => false end = true) as Hx
      by (vm_compute; reflexivity).
    destruct (Approve home human input q5) as [[a|] s']; [by exists a, s'|done]. }
  exists auth, s'. split; [exact Hrun|].
  apply (approval_is_recognised home human input q5 auth s' Hrun). vm_compute. reflexivity.
Defined.
End Approver.
