(* ===== verification/Programs.v ===== *)
(** * Package [internal/execution]: what the pipeline calls

    The pipeline decides; everything it does happens in services behind Go
    interfaces. A run of it is a program over their calls: a finite tree that
    makes a call, continues with whatever the service answers, and returns. *)

From S2P Require Import Prelude GoLib Fault Contracts Identity RunState LeasePaths Postgres DeliveryContracts.
From S2P Require Import ControlMemory AttemptRecords Leases LeaseSets PgTables PgEvents.
From S2P Require Import WorkerResults Attempts Authorizations Publications PublicationService.

(** ** Data *)

(** [delivery.Worktree] and [delivery.QuarantineResult]. *)
Record Worktree := mkWorktree {
  wt_DeliveryID : string;
  wt_AttemptID : string;
  wt_RepositoryPath : string;
  wt_Path : string;
  wt_CommonDir : string;
  wt_BaseCommit : string;
}.

Record QuarantineResult := mkQuarantine {
  qr_SourcePath : string;
  qr_QuarantinePath : string;
  qr_GitRegistered : bool;
}.

(** [contracts.WorkerTask]. *)
Record WorkerTask := mkWorkerTask {
  wk_TaskID : string;
  wk_AttemptID : string;
  wk_RunID : string;
  wk_SchemaVersion : string;
  wk_Role : string;
  wk_Objective : string;
  wk_RepositoryPath : string;
  wk_WorktreePath : string;
  wk_ReadScopes : list string;
  wk_WriteScopes : list string;
  wk_ContextPackRef : option string;
  wk_ResultSchemaRef : string;
  wk_EvidenceOutputDir : string;
  wk_AttemptOrdinal : Z;
  wk_Model : option string;
  wk_Budgets : WorkerBudgets;
}.

(** ** Calls *)

Inductive call :=
(* Repository *)
| CGetAuthorization (deliveryID attemptID : string)
| CGetRun (runID : RunID)
| CTransitionRun (runID : RunID) (version : Z) (target : State) (md : CommandMetadata)
| CGetAttempt (attemptID : string)
| CGetPublication (deliveryID attemptID : string)
| CGetLeaseSet (leaseSetID : string)
| CStartAttempt (attemptID : string) (version : Z) (md : CommandMetadata) (fence : LeaseProof)
| CFinishAttempt (attemptID : string) (version : Z) (result : WorkerResult) (md : CommandMetadata)
    (fence : LeaseProof)
| CReconcile (md : CommandMetadata) (fence : LeaseProof)
| CVerifyLease (fence : LeaseProof) (minimum : Z)
| CRenewLease (key : LeaseKey) (ownerID : string) (token ttl : Z)
| CAcquireLeaseSet (leaseSetID : string) (keys : list LeaseKey) (ownerID : string) (ttl : Z)
| CRenewLeaseSet (leaseSet : LeaseSet) (ttl : Z)
| CReleaseLeaseSet (leaseSet : LeaseSet)
(* Worktrees *)
| CPrepare (request : DeliveryRequest)
| CCreateResultCommit (request : DeliveryRequest)
| CQuarantine (request : DeliveryRequest)
(* Worker *)
| CWorker (task : WorkerTask)
(* Validator *)
| CValidate (request : DeliveryRequest) (commit : CommitResult)
| CLoad (request : DeliveryRequest)
(* Publisher *)
| CPublish (request : DeliveryRequest) (commit : CommitResult) (bundle : ValidationBundle) (leaseSet : LeaseSet)
| CRecover (request : DeliveryRequest) (commit : CommitResult) (leaseSet : LeaseSet)
(* the lease guard, the cause of its context, and the clock *)
| CStartGuard (fence : LeaseProof) (leaseSet : LeaseSet) (ttl interval : Z)
| CStopGuard
| CCause
| CNow.

(** The results of a call. Where a caller looks at a value next to an error, both
    are answered; otherwise an error stands alone. *)
Definition answer (c : call) : Type :=
  match c with
  | CGetAuthorization _ _ => result (option DeliveryAuthorization)
  | CGetRun _ | CTransitionRun _ _ _ _ => result Run
  | CGetAttempt _ | CStartAttempt _ _ _ _ | CFinishAttempt _ _ _ _ _ => result Attempt
  | CGetPublication _ _ => result (option DeliveryPublication)
  | CGetLeaseSet _ => result (option (LeaseSet * string))
  | CReconcile _ _ => result (list Attempt)
  | CVerifyLease _ _ | CRenewLease _ _ _ _ => result Lease
  | CAcquireLeaseSet _ _ _ _ => result LeaseSet
  | CRenewLeaseSet _ _ => LeaseSet * option error
  | CReleaseLeaseSet _ => result unit
  | CPrepare _ => result Worktree
  | CCreateResultCommit _ => result CommitResult
  | CQuarantine _ => QuarantineResult * option error
  | CWorker _ => WorkerResult * option error
  | CValidate _ _ | CLoad _ => result ValidationBundle
  | CPublish _ _ _ _ | CRecover _ _ _ => PublicationResult * option error
  | CStartGuard _ _ _ _ => unit
  | CStopGuard => LeaseSet * option error
  | CCause => option error
  | CNow => Time
  end.

(** ** Programs *)

Inductive prog (A : Type) :=
| Return (a : A)
| Call (c : call) (k : answer c → prog A).
Arguments Return {A}.
Arguments Call {A}.

#[export] Instance prog_ret : MRet prog := @Return.
Fixpoint prog_bind_ {A B} (p : prog A) (f : A → prog B) : prog B :=
  match p with
  | Return a => f a
  | Call c k => Call c (λ r, prog_bind_ (k r) f)
  end.
#[export] Instance prog_bind : MBind prog := λ A B f p, prog_bind_ p f.

(** One call that took place: what was asked and what was answered. *)
Record event := mkEvent { ev_call : call; ev_answer : answer ev_call }.

(** The calls of a run up to some point, and what is left to do. *)
Inductive reaches {A} : prog A → list event → prog A → Prop :=
| reach_here p : reaches p [] p
| reach_call c k r tr p : reaches (k r) tr p → reaches (Call c k) (mkEvent c r :: tr) p.

(** ** Reasoning

    [S] is what an observer remembers of the calls so far. [always] says that from
    this point on every call is made when [may] allows it, whatever is answered, and
    that a result satisfies [Q]. *)

Section always.
Context {S : Type} (may : S → call → Prop) (see : S → ∀ c, answer c → S).

Fixpoint always {A} (p : prog A) (s : S) (Q : A → S → Prop) : Prop :=
  match p with
  | Return a => Q a s
  | Call c k => may s c ∧ ∀ r, always (k r) (see s c r) Q
  end.

(** What the observer remembers after some calls. *)
Definition seen (s : S) (tr : list event) : S := foldl (λ s e, see s (ev_call e) (ev_answer e)) s tr.

Lemma always_mono {A} (p : prog A) s (Q Q' : A → S → Prop) :
  always p s Q → (∀ a s', Q a s' → Q' a s') → always p s Q'.
Proof. revert s. induction p as [a|c k IH]; cbn; [auto|]. intros s [Hm Hk] HQ. split; [done|]. eauto. Qed.

Lemma always_bind {A B} (p : prog A) (f : A → prog B) s Q :
  always p s (λ a s', always (f a) s' Q) → always (p ≫= f) s Q.
Proof.
  unfold mbind, prog_bind. revert s. induction p as [a|c k IH]; cbn; [done|].
  intros s [Hm Hk]. split; [done|]. auto.
Qed.

Lemma always_ret {A} (a : A) s (Q : A → S → Prop) : Q a s → always (mret a) s Q.
Proof. done. Qed.

(** Every call and every result of every run. *)
Lemma always_reaches {A} (p q : prog A) s tr Q :
  always p s Q → reaches p tr q → always q (seen s tr) Q.
Proof. intros Hp Hr. revert s Hp. induction Hr as [p|c k r tr p Hr IH]; intros s; [done|]. intros [_ Hk]. apply IH, Hk. Qed.

Lemma always_call {A} (p : prog A) s tr c k Q :
  always p s Q → reaches p tr (Call c k) → may (seen s tr) c.
Proof. intros Hp Hr. by destruct (always_reaches _ _ _ _ _ Hp Hr). Qed.

Lemma always_result {A} (p : prog A) s tr a Q :
  always p s Q → reaches p tr (Return a) → Q a (seen s tr).
Proof. intros Hp Hr. exact (always_reaches _ _ _ _ _ Hp Hr). Qed.

(** Every call of a run was made when it was allowed. *)
Definition lawful (s : S) (tr : list event) : Prop :=
  ∀ tr1 e tr2, tr = tr1 ++ e :: tr2 → may (seen s tr1) (ev_call e).

Lemma seen_snoc s tr e : seen s (tr ++ [e]) = see (seen s tr) (ev_call e) (ev_answer e).
Proof. unfold seen. by rewrite foldl_app. Qed.

Lemma lawful_snoc s tr e : lawful s (tr ++ [e]) → lawful s tr ∧ may (seen s tr) (ev_call e).
Proof.
  intros Hl. split; [|by apply (Hl tr e [])]. intros tr1 e1 tr2 ->. apply (Hl tr1 e1 (tr2 ++ [e])).
  by rewrite <-app_assoc.
Qed.
End always.

(** A run can be cut before any of its calls. *)
Lemma reaches_cut {A} (p q : prog A) tr1 e tr2 :
  reaches p (tr1 ++ e :: tr2) q → ∃ k, reaches p tr1 (Call (ev_call e) k).
Proof.
  revert p. induction tr1 as [|e1 tr1 IH]; intros p Hr; inversion Hr; simplify_eq.
  - eexists. apply reach_here.
  - destruct (IH (k r)) as [k' Hk]; [done|]. exists k'. by constructor.
Qed.

Lemma always_lawful {S A} (may : S → call → Prop) see (p q : prog A) s tr Q :
  always may see p s Q → reaches p tr q → lawful may see s tr.
Proof. intros Hp Hr tr1 e tr2 ->. apply reaches_cut in Hr as [k Hk]. by eapply always_call. Qed.

(** ** Running a program against an oracle *)

Fixpoint play {A} (oracle : ∀ c, answer c) (n : nat) (p : prog A) : list event * prog A :=
  match n, p with
  | S n, Call c k => let '(tr, q) := play oracle n (k (oracle c)) in (mkEvent c (oracle c) :: tr, q)
  | _, _ => ([], p)
  end.

Lemma play_reaches {A} oracle n (p : prog A) : reaches p (play oracle n p).1 (play oracle n p).2.
Proof.
  revert p. induction n as [|n IH]; intros [a|c k]; cbn; try apply reach_here.
  specialize (IH (k (oracle c))). destruct (play oracle n (k (oracle c))). by constructor.
Qed.

Lemma play_answers {A} oracle n (p : prog A) e : e ∈ (play oracle n p).1 → ev_answer e = oracle (ev_call e).
Proof.
  revert p. induction n as [|n IH]; intros [a|c k]; cbn; try by intros ?%not_elem_of_nil.
  specialize (IH (k (oracle c))). destruct (play oracle n (k (oracle c))) as [tr q]. by intros [->|?]%elem_of_cons; [|apply IH].
Qed.

(** The call a program makes first, and what it returns. *)
Definition first_call {A} (p : prog A) : option call := match p with Call c _ => Some c | Return _ => None end.
Definition returned {A} (p : prog A) : option A := match p with Return a => Some a | Call _ _ => None end.

Lemma play_calls {A} oracle n (p : prog A) c :
  first_call (play oracle n p).2 = Some c → ∃ k, reaches p (play oracle n p).1 (Call c k).
Proof.
  pose proof (play_reaches oracle n p) as Hr. destruct (play oracle n p).2 as [a|c' k]; [done|].
  intros [= <-]. by exists k.
Qed.

Lemma play_returns {A} oracle n (p : prog A) a :
  returned (play oracle n p).2 = Some a → reaches p (play oracle n p).1 (Return a).
Proof.
  pose proof (play_reaches oracle n p) as Hr. destruct (play oracle n p).2 as [a'|c' k]; [|done].
  by intros [= <-].
Qed.

(** * Stages

    A Go function of the pipeline keeps local variables that its closures and its
    deferred functions share, calls services, and returns early with an error. A
    stage is such a piece of code: from the variables [L] it runs to a value or to
    the error of an early return, and to the new variables. *)

Definition Stage (L A : Type) : Type := L → prog (result A * L).

#[export] Instance stage_ret L : MRet (Stage L) := λ A a l, Return (Ok a, l).
#[export] Instance stage_bind L : MBind (Stage L) := λ A B f m l,
  m l ≫= λ '(r, l'), match r with Ok a => f a l' | Err e => Return (Err e, l') end.

Section stages.
Context {L : Type}.

(** One call; its answer is not inspected. *)
Definition perform (c : call) : Stage L (answer c) := λ l, Call c (λ r, Return (Ok r, l)).

(** A function that does not touch the variables. *)
Definition invoke {A} (p : prog A) : Stage L A := λ l, p ≫= λ a, Return (Ok a, l).

Definition liftS {A} (r : result A) : Stage L A := λ l, Return (r, l).
Definition throwS {A} (e : error) : Stage L A := λ l, Return (Err e, l).
Definition readS {A} (f : L → A) : Stage L A := λ l, Return (Ok (f l), l).
Definition modifyS (f : L → L) : Stage L unit := λ l, Return (Ok tt, f l).

(** [return outcome, errors.Join(errs...)]. *)
Definition returnS {A} (err : error) (errs : list (option error)) : Stage L A :=
  throwS (default err (Join_errors (Some err :: errs))).
End stages.

(** ** Reasoning *)

Section rules.
Context {S L : Type} (may : S → call → Prop) (see : S → ∀ c, answer c → S).

(** From the variables [l] and what the observer has seen, every call of the stage is
    allowed, and what it ends with satisfies [Q]. *)
Definition stage_ok {A} (m : Stage L A) (l : L) (s : S) (Q : result A → L → S → Prop) : Prop :=
  always may see (m l) s (λ '(r, l') s', Q r l' s').

Lemma stage_ok_mono {A} (m : Stage L A) l s (Q Q' : result A → L → S → Prop) :
  stage_ok m l s Q → (∀ r l' s', Q r l' s' → Q' r l' s') → stage_ok m l s Q'.
Proof. intros Hm HQ. eapply always_mono; [exact Hm|]. intros [r l'] s'. apply HQ. Qed.

Lemma stage_ok_bind {A B} (m : Stage L A) (f : A → Stage L B) l s Q :
  stage_ok m l s (λ r l' s', match r with Ok a => stage_ok (f a) l' s' Q | Err e => Q (Err e) l' s' end) →
  stage_ok (m ≫= f) l s Q.
Proof.
  intros Hm. unfold stage_ok, mbind, stage_bind. apply always_bind.
  eapply always_mono; [exact Hm|]. intros [[a|e] l'] s'; cbn; done.
Qed.

Lemma stage_ok_ret {A} (a : A) l s (Q : result A → L → S → Prop) :
  Q (Ok a) l s → stage_ok (mret a) l s Q.
Proof. done. Qed.

Lemma stage_ok_perform c l s (Q : result (answer c) → L → S → Prop) :
  may s c → (∀ r, Q (Ok r) l (see s c r)) → stage_ok (perform c) l s Q.
Proof. by split. Qed.

Lemma stage_ok_invoke {A} (p : prog A) l s (Q : result A → L → S → Prop) :
  always may see p s (λ a s', Q (Ok a) l s') → stage_ok (invoke p) l s Q.
Proof. intros Hp. unfold stage_ok, invoke. by apply always_bind. Qed.

Lemma stage_ok_lift {A} (r : result A) l s Q : Q r l s → stage_ok (liftS r) l s Q.
Proof. done. Qed.
Lemma stage_ok_throw {A} e l s (Q : result A → L → S → Prop) : Q (Err e) l s → stage_ok (throwS e) l s Q.
Proof. done. Qed.
Lemma stage_ok_read {A} (f : L → A) l s Q : Q (Ok (f l)) l s → stage_ok (readS f) l s Q.
Proof. done. Qed.
Lemma stage_ok_modify (f : L → L) l s Q : Q (Ok tt) (f l) s → stage_ok (modifyS f) l s Q.
Proof. done. Qed.
Lemma stage_ok_return {A} e errs l s (Q : result A → L → S → Prop) :
  (∀ e, Q (Err e) l s) → stage_ok (returnS e errs) l s Q.
Proof. intros HQ. apply HQ. Qed.
End rules.
