(* ===== verification/LeaseGuard.v ===== *)
(** * Package [internal/execution]: the lease guard ([lease_guard.go])

    A goroutine that renews the scheduler fence and the delivery lease set of a
    delivery while its worker runs. It shares three things with the pipeline: the
    context it may cancel, the last confirmed lease set, and its error. *)

From S2P Require Import Prelude GoLib Fault Postgres DeliveryContracts.
From S2P Require Import Leases LeaseSets.

Definition errLeaseGuardStopped : error := Sentinel "delivery lease guard stopped".

(** [context.Canceled] and [context.DeadlineExceeded]. *)
Definition Canceled : error := Sentinel "context canceled".
Definition DeadlineExceeded : error := Sentinel "context deadline exceeded".

Definition IsStopped (err : error) : bool := Is err "delivery lease guard stopped".
Definition IsCanceled (err : error) : bool := Is err "context canceled".
Definition IsDeadlineExceeded (err : error) : bool := Is err "context deadline exceeded".

(** ** Intervals *)

Definition deliveryHeartbeatInterval (ttl : Z) : Z :=
  let interval := (ttl `quot` 3)%Z in
  let interval := if (10 * Second <? interval)%Z then (10 * Second)%Z else interval in
  if (interval <? 100 * Millisecond)%Z then (100 * Millisecond)%Z else interval.

(** The deadline of one round of renewals. *)
Definition renew_deadline (interval : Z) : Z :=
  let deadline := Z.min interval (5 * Second) in
  if (deadline <? 100 * Millisecond)%Z then (100 * Millisecond)%Z else deadline.

(** ** State *)

Record leaseGuard := mkGuard {
  g_fence : LeaseProof;
  g_ttl : Z;
  g_interval : Z;
  g_leaseSet : LeaseSet;
  g_err : option error;
  (** The cause of the guard's context; [None] while it is live. *)
  g_cause : option error;
  (** [done] is closed: the goroutine has returned. *)
  g_done : bool;
}.

Definition startLeaseGuard (fence : LeaseProof) (leaseSet : LeaseSet) (ttl interval : Z) : leaseGuard :=
  mkGuard fence ttl interval leaseSet None None false.

(** [cancel(cause)]: only the first cause is kept. *)
Definition cancel (cause : error) (g : leaseGuard) : leaseGuard :=
  mkGuard (g_fence g) (g_ttl g) (g_interval g) (g_leaseSet g) (g_err g)
    (Some (default cause (g_cause g))) (g_done g).

Definition Snapshot (g : leaseGuard) : LeaseSet := g_leaseSet g.
Definition GuardErr (g : leaseGuard) : option error := g_err g.

Definition keep (leaseSet : LeaseSet) (g : leaseGuard) : leaseGuard :=
  mkGuard (g_fence g) (g_ttl g) (g_interval g) leaseSet (g_err g) (g_cause g) (g_done g).

Definition fail (err : error) (g : leaseGuard) : leaseGuard :=
  mkGuard (g_fence g) (g_ttl g) (g_interval g) (g_leaseSet g) (Some (default err (g_err g)))
    (g_cause g) (g_done g).

Definition closed (g : leaseGuard) : leaseGuard :=
  mkGuard (g_fence g) (g_ttl g) (g_interval g) (g_leaseSet g) (g_err g) (g_cause g) true.

(** What the repository answers to one round: the renewal of the fence, and, when
    that succeeded, the renewal of the set. *)
Record round := mkRound {
  rd_fence : option error;
  rd_leaseSet : LeaseSet;
  rd_leaseSetErr : option error;
}.

Definition renew (r : round) (g : leaseGuard) : option error * leaseGuard :=
  match rd_fence r with
  | Some err => (Some (Errorf (Lit "renew scheduler fence: %w") err), g)
  | None =>
      match rd_leaseSetErr r with
      | Some err => (Some (Errorf (Lit "renew delivery lease set: %w") err), g)
      | None => (None, keep (rd_leaseSet r) g)
      end
  end.

(** ** The loop of [run]

    [run_cancelled] is the case of the select in which the context is done,
    [run_timer] the one in which the timer fired; [late] is a cancellation that
    arrives while the renewals are under way. *)

Definition run_cancelled (cause : error) (g : leaseGuard) : leaseGuard :=
  closed (if negb (IsStopped cause) && negb (IsCanceled cause) then fail cause g else g).

Definition interrupted_by (late : option error) (g : leaseGuard) : leaseGuard :=
  match late with Some cause => cancel cause g | None => g end.

Definition run_timer (r : round) (late : option error) (g : leaseGuard) : leaseGuard :=
  let '(err, g) := renew r g in
  let g := interrupted_by late g in
  match err with
  | None => g
  | Some err =>
      match g_cause g with
      | Some cause =>
          closed (if (IsStopped cause || IsCanceled cause) && IsCanceled err then g else fail err g)
      | None => closed (cancel err (fail err g))
      end
  end.

(** What may happen to a guard; a label records the rounds of renewals. *)
Inductive guard_step : leaseGuard → option round → leaseGuard → Prop :=
| guard_cancel cause g : guard_step g None (cancel cause g)
| guard_select_done cause g :
    g_done g = false → g_cause g = Some cause → guard_step g None (run_cancelled cause g)
| guard_select_timer r late g : g_done g = false → guard_step g (Some r) (run_timer r late g).

Inductive guard_runs : leaseGuard → list round → leaseGuard → Prop :=
| guard_runs_refl g : guard_runs g [] g
| guard_runs_step g1 g2 g3 l rs :
    guard_runs g1 rs g2 → guard_step g2 l g3 → guard_runs g1 (rs ++ option_list l) g3.

(** [Stop]: cancel, wait for the goroutine, and report. *)
Definition stopped_with (g : leaseGuard) : LeaseSet * option error := (Snapshot g, GuardErr g).

(** ** Properties *)

Lemma quot_quot_3 ttl : (0 ≤ ttl → 3 * (ttl `quot` 3) ≤ ttl < 3 * (ttl `quot` 3) + 3)%Z.
Proof. intros ?. rewrite Z.quot_div_nonneg by lia. pose proof (Z.div_mod ttl 3). pose proof (Z.mod_pos_bound ttl 3). lia. Qed.


(** The set a guard holds is one the repository confirmed. *)
Definition confirmed (start : LeaseSet) (rs : list round) : LeaseSet :=
  foldl (λ leaseSet r, match rd_fence r, rd_leaseSetErr r with
                       | None, None => rd_leaseSet r
                       | _, _ => leaseSet
                       end) start rs.

(** A round that was refused, with the error it was refused with. *)
Definition refused (r : round) : option error :=
  match rd_fence r with Some e => Some e | None => rd_leaseSetErr r end.

Lemma confirmed_snoc start rs r :
  confirmed start (rs ++ [r]) = match refused r with None => rd_leaseSet r | Some _ => confirmed start rs end.
Proof. unfold confirmed, refused. rewrite foldl_app. cbn. by destruct (rd_fence r), (rd_leaseSetErr r). Qed.

Record guard_inv (start : LeaseSet) (rs : list round) (g : leaseGuard) : Prop := {
  gi_snapshot : g_leaseSet g = confirmed start rs;
  gi_live : g_done g = false → g_err g = None ∧ Forall (λ r, refused r = None) rs;
  gi_done : g_done g = true → is_Some (g_cause g);
  gi_lost : Forall (λ r, ∀ e, refused r = Some e → IsCanceled e = false → is_Some (g_err g)) rs;
}.

Lemma renew_spec r g :
  renew r g = (match rd_fence r with
               | Some err => Some (Errorf (Lit "renew scheduler fence: %w") err)
               | None => (λ err, Errorf (Lit "renew delivery lease set: %w") err) <$> rd_leaseSetErr r
               end, match refused r with None => keep (rd_leaseSet r) g | Some _ => g end).
Proof. unfold renew, refused. by destruct (rd_fence r), (rd_leaseSetErr r). Qed.

Lemma renew_refused r g err g' :
  renew r g = (Some err, g') → g' = g ∧ ∃ e, refused r = Some e ∧ IsCanceled err = IsCanceled e.
Proof.
  unfold renew, refused. destruct (rd_fence r), (rd_leaseSetErr r); intros; simplify_eq; by eauto.
Qed.

Lemma guard_inv_timer start rs r late g :
  g_done g = false → guard_inv start rs g → guard_inv start (rs ++ [r]) (run_timer r late g).
Proof.
  intros Hd [Hs Hl _ _]. destruct (Hl Hd) as [He Hrs]. unfold run_timer.
  destruct (renew r g) as [[err|] g'] eqn:Hr.
  - apply renew_refused in Hr as (-> & e & Hre & Hc).
    assert (∀ g', g_leaseSet g' = g_leaseSet g → is_Some (g_cause g') → g_done g' = true →
      (IsCanceled e = false → is_Some (g_err g')) → guard_inv start (rs ++ [r]) g') as Hdone.
    { intros g' Hs' Hc' Hd' He'. split; [by rewrite confirmed_snoc, Hre, Hs'|by rewrite Hd'|done|].
      apply Forall_app. split; [eapply Forall_impl; [done|]; cbn; congruence|].
      apply Forall_singleton. intros ? [= <-]%(eq_trans (eq_sym Hre)). done. }
    destruct late; cbn.
    + apply Hdone; [by repeat case_match|by repeat case_match|by repeat case_match|].
      rewrite Hc. intros ->. rewrite andb_false_r. by cbn.
    + destruct (g_cause g) eqn:Hcause; apply Hdone; cbn; repeat case_match; cbn; try done; try by rewrite ?Hcause.
      intros Hn. rewrite Hc, Hn in *. destruct (IsStopped _ || IsCanceled _); discriminate.
  - rewrite renew_spec in Hr. assert (refused r = None) as Hok.
    { unfold refused. destruct (rd_fence r); simplify_eq. by destruct (rd_leaseSetErr r). }
    rewrite Hok in Hr. injection Hr as _ <-.
    assert (Forall (λ r, refused r = None) (rs ++ [r])) by (apply Forall_app; auto).
    split; destruct late; cbn; rewrite ?confirmed_snoc, ?Hok; try done; try congruence;
      (eapply Forall_impl; [done|]; cbn; congruence).
Qed.

Lemma guard_inv_step start rs g l g' :
  guard_inv start rs g → guard_step g l g' → guard_inv start (rs ++ option_list l) g'.
Proof.
  intros Hi Hs. destruct Hs as [cause g|cause g Hd Hc|r late g Hd]; cbn.
  - rewrite app_nil_r. destruct Hi as [? ? Hc ?]. split; cbn; [done|done|by eauto|done].
  - rewrite app_nil_r. destruct Hi as [? Hl ? ?]. destruct (Hl Hd). unfold run_cancelled.
    split; [by case_match|by case_match|by intros; case_match; cbn; rewrite Hc|].
    eapply Forall_impl; [done|]. cbn. intros r' Hr' e Hre. congruence.
  - by apply guard_inv_timer.
Qed.

Lemma guard_inv_runs fence leaseSet ttl interval rs g :
  guard_runs (startLeaseGuard fence leaseSet ttl interval) rs g → guard_inv leaseSet rs g.
Proof.
  remember (startLeaseGuard _ _ _ _) as g0 eqn:Hg0. induction 1 as [g|g1 g2 g3 l rs Hr IH Hs].
  - subst. split; cbn; try done.
  - apply (guard_inv_step _ _ g2); [by apply IH|done].
Qed.

(** C14. However cancellations and renewals interleave, a guard whose goroutine has
    returned hands back the lease set the repository confirmed last, has cancelled
    the context of the execution, and reports an error unless every refused renewal
    was the interruption of its own context; until it returns it has reported
    nothing and every renewal was granted. *)
Theorem guard_reports_loss fence leaseSet ttl interval rs g :
  guard_runs (startLeaseGuard fence leaseSet ttl interval) rs g →
  (stopped_with g).1 = confirmed leaseSet rs ∧
  (g_done g = false → (stopped_with g).2 = None ∧ Forall (λ r, refused r = None) rs) ∧
  (g_done g = true → is_Some (g_cause g)) ∧
  ((stopped_with g).2 = None → Forall (λ r, ∀ e, refused r = Some e → IsCanceled e = true) rs).
Proof.
  intros [Hs Hl Hd He]%guard_inv_runs. split_and!; [done|exact Hl|exact Hd|].
  cbn. intros Hn. eapply Forall_impl; [exact He|]. cbn. intros r Hr e Hre.
  destruct (IsCanceled e) eqn:Hc; [done|]. destruct (Hr e Hre Hc) as [? Hx]. unfold GuardErr in Hn. congruence.
Qed.

(** ** Witnesses *)


(** A guard that renews once and then loses its fence. *)
Lemma guard_reports_loss_witness :
  let set owner := mkLeaseSet "attempt" owner [] zero_time zero_time in
  let fence := mkLeaseProof (mkLeaseKey "t" "r" "scheduler" "main") "owner" 1 in
  let granted := mkRound None (set "second") None in
  let lost := mkRound (Some (plain_error "stale fence")) (set "third") None in
  let g0 := startLeaseGuard fence (set "first") (60 * Second) (10 * Second) in
  let g := run_timer lost None (run_timer granted None g0) in
  (stopped_with g).1 = set "second" ∧ (stopped_with g).2 ≠ None ∧ is_Some (g_cause g).
Proof.
  intros set fence granted lost g0 g.
  destruct (guard_reports_loss fence (set "first") (60 * Second) (10 * Second) [granted; lost] g) as (Hs & _ & Hd & He).
  - apply (guard_runs_step g0 (run_timer granted None g0) g (Some lost) [granted]); [|by constructor].
    apply (guard_runs_step g0 g0 _ (Some granted) []); by constructor.
  - split; [exact Hs|]. split; [done|]. by apply Hd.
Defined.
