(* ===== verification/Pipeline.v ===== *)
(** * Package [internal/execution]: the delivery pipeline ([pipeline.go])

    [Execute] takes one approved, queued run through worktree, worker, validation
    and publication. Contexts are left out: an expired or cancelled context shows as
    an error of the calls made with it. Telemetry is left out as well: it reads
    results and changes none. *)

From S2P Require Import Prelude GoLib Fault Contracts Identity RunState LeasePaths Postgres DeliveryContracts.
From S2P Require Import ControlMemory AttemptRecords Leases LeaseSets DeliveryLeases PgTables PgEvents.
From S2P Require Import WorkerResults Attempts Authorizations Publications PublicationService.
From S2P Require Import Approval Programs LeaseGuard.

Definition workerTaskSchemaVersion : string := "1.0".
Definition WorkerReportSchemaRef : string := "https://forja.dev/schemas/worker-report.schema.json".

(** [delivery.ErrWorktreeNotFound]. *)
Definition ErrWorktreeNotFound : error := Sentinel "delivery worktree was not created".
Definition IsWorktreeNotFound (err : option error) : bool :=
  match err with Some err => Is err "delivery worktree was not created" | None => false end.

(** An error without a cause. *)
Definition text_error (format : string) (args : list string) : error := ErrorString (Sprintf format args).

(** ** Data *)

(** A stage that was not reached has no value. *)
Record Outcome := mkOutcome {
  o_Run : option Run;
  o_Attempt : option Attempt;
  o_Worktree : option Worktree;
  o_Worker : option WorkerResult;
  o_Commit : option CommitResult;
  o_Validation : option ValidationBundle;
  o_Publication : option PublicationResult;
  o_Quarantine : option QuarantineResult;
}.
Definition noOutcome : Outcome := mkOutcome None None None None None None None None.

Definition with_Run (v : Run) (o : Outcome) : Outcome :=
  mkOutcome (Some v) (o_Attempt o) (o_Worktree o) (o_Worker o) (o_Commit o) (o_Validation o) (o_Publication o) (o_Quarantine o).
Definition with_Attempt (v : Attempt) (o : Outcome) : Outcome :=
  mkOutcome (o_Run o) (Some v) (o_Worktree o) (o_Worker o) (o_Commit o) (o_Validation o) (o_Publication o) (o_Quarantine o).
Definition with_Worktree (v : Worktree) (o : Outcome) : Outcome :=
  mkOutcome (o_Run o) (o_Attempt o) (Some v) (o_Worker o) (o_Commit o) (o_Validation o) (o_Publication o) (o_Quarantine o).
Definition with_Worker (v : WorkerResult) (o : Outcome) : Outcome :=
  mkOutcome (o_Run o) (o_Attempt o) (o_Worktree o) (Some v) (o_Commit o) (o_Validation o) (o_Publication o) (o_Quarantine o).
Definition with_Commit (v : CommitResult) (o : Outcome) : Outcome :=
  mkOutcome (o_Run o) (o_Attempt o) (o_Worktree o) (o_Worker o) (Some v) (o_Validation o) (o_Publication o) (o_Quarantine o).
Definition with_Validation (v : ValidationBundle) (o : Outcome) : Outcome :=
  mkOutcome (o_Run o) (o_Attempt o) (o_Worktree o) (o_Worker o) (o_Commit o) (Some v) (o_Publication o) (o_Quarantine o).
Definition with_Publication (v : PublicationResult) (o : Outcome) : Outcome :=
  mkOutcome (o_Run o) (o_Attempt o) (o_Worktree o) (o_Worker o) (o_Commit o) (o_Validation o) (Some v) (o_Quarantine o).
Definition with_Quarantine (v : QuarantineResult) (o : Outcome) : Outcome :=
  mkOutcome (o_Run o) (o_Attempt o) (o_Worktree o) (o_Worker o) (o_Commit o) (o_Validation o) (o_Publication o) (Some v).

(** The repository's authority and the owner of the delivery leases; the services are
    the calls of a program. *)
Record Pipeline := mkPipeline {
  pl_authority : Authority;
  pl_ownerID : string;
}.

(** The status of the receipt, empty for the zero value. *)
Definition receipt_status (publication : PublicationResult) : string :=
  match pr_Receipt publication with Some receipt => rt_Status receipt | None => "" end.

(** The local variables of [Execute] that its closures share; [guard] says that the
    guard is not nil. *)
Record locals := mkLocals {
  lc_outcome : Outcome;
  lc_run : Run;
  lc_leaseSet : LeaseSet;
  lc_leaseOwned : bool;
  lc_prepared : bool;
  lc_attemptStarted : bool;
  lc_attemptTerminal : bool;
  lc_publicationStarted : bool;
  lc_cleanupManaged : bool;
  lc_guard : bool;
}.
Definition zeroLeaseSet : LeaseSet := mkLeaseSet "" "" [] zero_time zero_time.
Definition no_locals : locals :=
  mkLocals noOutcome zeroRun zeroLeaseSet false false false false false false false.

Definition on_outcome (f : Outcome → Outcome) (l : locals) : locals :=
  mkLocals (f (lc_outcome l)) (lc_run l) (lc_leaseSet l) (lc_leaseOwned l) (lc_prepared l) (lc_attemptStarted l)
    (lc_attemptTerminal l) (lc_publicationStarted l) (lc_cleanupManaged l) (lc_guard l).
Definition set_run (v : Run) (l : locals) : locals :=
  mkLocals (lc_outcome l) v (lc_leaseSet l) (lc_leaseOwned l) (lc_prepared l) (lc_attemptStarted l)
    (lc_attemptTerminal l) (lc_publicationStarted l) (lc_cleanupManaged l) (lc_guard l).
Definition set_leaseSet (v : LeaseSet) (l : locals) : locals :=
  mkLocals (lc_outcome l) (lc_run l) v (lc_leaseOwned l) (lc_prepared l) (lc_attemptStarted l)
    (lc_attemptTerminal l) (lc_publicationStarted l) (lc_cleanupManaged l) (lc_guard l).
Definition set_leaseOwned (v : bool) (l : locals) : locals :=
  mkLocals (lc_outcome l) (lc_run l) (lc_leaseSet l) v (lc_prepared l) (lc_attemptStarted l)
    (lc_attemptTerminal l) (lc_publicationStarted l) (lc_cleanupManaged l) (lc_guard l).
Definition set_prepared (v : bool) (l : locals) : locals :=
  mkLocals (lc_outcome l) (lc_run l) (lc_leaseSet l) (lc_leaseOwned l) v (lc_attemptStarted l)
    (lc_attemptTerminal l) (lc_publicationStarted l) (lc_cleanupManaged l) (lc_guard l).
Definition set_attemptStarted (l : locals) : locals :=
  mkLocals (lc_outcome l) (lc_run l) (lc_leaseSet l) (lc_leaseOwned l) (lc_prepared l) true
    (lc_attemptTerminal l) (lc_publicationStarted l) (lc_cleanupManaged l) (lc_guard l).
Definition set_attemptTerminal (l : locals) : locals :=
  mkLocals (lc_outcome l) (lc_run l) (lc_leaseSet l) (lc_leaseOwned l) (lc_prepared l) (lc_attemptStarted l)
    true (lc_publicationStarted l) (lc_cleanupManaged l) (lc_guard l).
Definition set_publicationStarted (v : bool) (l : locals) : locals :=
  mkLocals (lc_outcome l) (lc_run l) (lc_leaseSet l) (lc_leaseOwned l) (lc_prepared l) (lc_attemptStarted l)
    (lc_attemptTerminal l) v (lc_cleanupManaged l) (lc_guard l).
Definition set_cleanupManaged (l : locals) : locals :=
  mkLocals (lc_outcome l) (lc_run l) (lc_leaseSet l) (lc_leaseOwned l) (lc_prepared l) (lc_attemptStarted l)
    (lc_attemptTerminal l) (lc_publicationStarted l) true (lc_guard l).
Definition set_guard (v : bool) (l : locals) : locals :=
  mkLocals (lc_outcome l) (lc_run l) (lc_leaseSet l) (lc_leaseOwned l) (lc_prepared l) (lc_attemptStarted l)
    (lc_attemptTerminal l) (lc_publicationStarted l) (lc_cleanupManaged l) v.

(** ** Checks *)

(** [filepath.Join]: empty elements are ignored, the rest is joined and cleaned. *)
Definition filepath_Join (elems : list string) : string :=
  match filter (λ e, e ≠ "") elems with
  | [] => ""
  | elems => Clean (Join elems "/")
  end.

(** [time.Duration(request.LeaseTTLMS) * time.Millisecond]. *)
Definition leaseTTL (request : DeliveryRequest) : Z := wrap64 (rq_LeaseTTLMS request * Millisecond).

Definition authorize (p : Pipeline) (request : DeliveryRequest) (schedulerFence : LeaseProof) : result RunID :=
  '(storageTenant, storageRepository) ←
    wrapped "map delivery authority: %w" (RepositoryStorageIdentity (rq_TenantID request) (rq_RepositoryID request));
  let authority := pl_authority p in
  _ ← fail_if (negb (bool_decide (a_TenantID authority = storageTenant)) ||
               negb (bool_decide (a_RepositoryID authority = storageRepository)))
        (plain_error "delivery authority does not match the bound repository");
  let key := lp_LeaseKey schedulerFence in
  _ ← fail_if (negb (bool_decide (k_TenantID key = storageTenant)) ||
               negb (bool_decide (k_RepositoryID key = storageRepository)) ||
               negb (bool_decide (k_ResourceType key = "scheduler")) ||
               bool_decide (k_ResourceID key = "") || bool_decide (lp_OwnerID schedulerFence = "") ||
               (lp_FencingToken schedulerFence <? 1)%Z)
        (plain_error "a matching live scheduler fence is required");
  wrapped "parse approved run ID: %w" (ParseRunID (rq_RunID request)).

Definition validateApprovedState (request : DeliveryRequest) (run : Run) (attempt : Attempt)
    (schedulerFence : LeaseProof) : result unit :=
  _ ← fail_if (negb (bool_decide (r_RunID run = rq_RunID request)) ||
               negb (bool_decide (r_Objective run = rq_Objective request)) ||
               negb (bool_decide (r_State run = StateQueued)))
        (plain_error "delivery request is not bound to an approved queued run");
  fail_if (negb (bool_decide (a_AttemptID attempt = rq_AttemptID request)) ||
           negb (bool_decide (a_RunID attempt = rq_RunID request)) ||
           negb (bool_decide (a_Ordinal attempt = rq_AttemptOrdinal request)) ||
           negb (bool_decide (a_Status attempt = "queued")) ||
           negb (bool_decide (a_LeaseResourceType attempt = k_ResourceType (lp_LeaseKey schedulerFence))) ||
           negb (bool_decide (a_LeaseResourceID attempt = k_ResourceID (lp_LeaseKey schedulerFence))) ||
           negb (bool_decide (a_WorkerID attempt = lp_OwnerID schedulerFence)) ||
           negb (bool_decide (a_FencingToken attempt = lp_FencingToken schedulerFence)))
    (plain_error "delivery request does not match the exact queued scheduler attempt").

Definition workerTaskFrom (request : DeliveryRequest) (worktree : Worktree) : WorkerTask :=
  let writableScopes := Sort (rq_WriteScopes request ++ rq_ArtifactScopes request) in
  mkWorkerTask (rq_TaskID request) (rq_AttemptID request) (rq_RunID request) workerTaskSchemaVersion
    (rq_Role request) (rq_Objective request) (rq_RepositoryPath request) (wt_Path worktree)
    (rq_ReadScopes request) writableScopes (rq_ContextPackRef request) WorkerReportSchemaRef
    (filepath_Join [wt_Path worktree; rq_EvidenceScope request])
    (rq_AttemptOrdinal request) (rq_Model request) (rq_WorkerBudgets request).

Definition metadata (p : Pipeline) (request : DeliveryRequest) (stage : string) : CommandMetadata :=
  mkMetadata ("delivery:" +:+ rq_DeliveryID request +:+ ":" +:+ rq_AttemptID request +:+ ":" +:+ stage)
    "system" (pl_ownerID p) (rq_DeliveryID request) None "".

Section pipeline.
Context `{Sha256, DeliveryJson, Schemas, Json, !JsonCodec WorkerResult, !WorkerContracts}.

(** [NewPipeline]; [given] says that no service is nil, [observers] how many observers
    were passed. *)
Definition NewPipeline (given : bool) (authority : Authority) (ownerID : string) (observers : nat)
    : result Pipeline :=
  _ ← fail_if (negb given)
        (plain_error "execution pipeline requires repository, worktree, worker, validator, and publisher services");
  let ownerID := TrimSpace ownerID in
  _ ← fail_if (bool_decide (ownerID = "") || (160 <? String.length ownerID)%nat)
        (plain_error "execution pipeline owner ID must contain between 1 and 160 bytes");
  _ ← fail_if (1 <? observers)%nat (plain_error "execution pipeline accepts at most one observer");
  match NewRegistry with
  | Some err => Err (Errorf (Lit "compile execution contracts: %w") err)
  | None => Ok (mkPipeline authority ownerID)
  end.

Definition validateWorkerResult (request : DeliveryRequest) (result : WorkerResult) : Fault.result unit :=
  encoded ← wrapped "encode worker result: %w" (Marshal result);
  _ ← match worker_result_schema encoded with Some err => Err err | None => Ok tt end;
  fail_if (negb (bool_decide (wr_TaskID result = rq_TaskID request)) ||
           negb (bool_decide (wr_AttemptID result = rq_AttemptID request)) ||
           negb (bool_decide (wr_RunID result = rq_RunID request)))
    (plain_error "worker result identity differs from the approved request").

(** ** Calls *)

Definition canonicalInfrastructureFailure (request : DeliveryRequest) (reason : string) : prog WorkerResult :=
  Call CNow (λ clock : Time,
    let now := UTC clock in
    let empty := hexText (Sum256 "") in
    Return (mkWorkerResult (rq_TaskID request) (rq_AttemptID request) (rq_RunID request)
      workerTaskSchemaVersion "execution-pipeline" "failed_retryable" true reason now now 0 None "" ""
      empty empty (mkWorkerUsage 0 0 0 0) None (Some []))).

(** [acquireDeliveryLeases], with the keys of [DeliveryLeases]. *)
Definition acquire (p : Pipeline) (request : DeliveryRequest) : prog (result LeaseSet) :=
  match delivery_keys request with
  | Err err => Return (Err err)
  | Ok keys =>
      Call (CAcquireLeaseSet (rq_AttemptID request) keys (pl_ownerID p) (leaseTTL request)) Return
  end.

Definition renewFence (request : DeliveryRequest) (fence : LeaseProof) : prog (result Lease) :=
  Call (CRenewLease (lp_LeaseKey fence) (lp_OwnerID fence) (lp_FencingToken fence) (leaseTTL request)) Return.

Definition transition (p : Pipeline) (request : DeliveryRequest) (runID : RunID) (run : Run) (target : State)
    (stage : string) : prog (result Run) :=
  Call (CTransitionRun runID (r_Version run) target (metadata p request stage)) (λ updated : result Run,
    Return (match updated with
            | Err err => Err (Errorf (Sprintf "transition run %s to %s: %w" [r_RunID run; target]) err)
            | Ok run => Ok run
            end)).

Definition finishAttempt (p : Pipeline) (request : DeliveryRequest) (attempt : Attempt) (result : WorkerResult)
    (schedulerFence : LeaseProof) (stage : string) : prog (Fault.result Attempt) :=
  Call (CFinishAttempt (a_AttemptID attempt) (a_Version attempt) result (metadata p request stage) schedulerFence)
    Return.

(** The error of a result, and the value Go assigns: zero where there is an error. *)
Definition err_of {A} (r : result A) : option error := match r with Err e => Some e | Ok _ => None end.
Definition run_of (r : result Run) : Run := match r with Ok run => run | Err _ => zeroRun end.

Definition failRun (p : Pipeline) (request : DeliveryRequest) (runID : RunID) (run : Run) (target : State)
    (stage : string) : prog (option error) :=
  r ← transition p request runID run target stage;
  mret (err_of r).

(** The step that ends a run which [completeNonSuccess] takes for most statuses. *)
Definition close_run (p : Pipeline) (request : DeliveryRequest) (runID : RunID) (run : Run) (target : State)
    (stage : string) (outcome : Outcome) : prog (option error * Outcome) :=
  r ← transition p request runID run target stage;
  mret (match r with Ok run => (None, with_Run run outcome) | Err err => (Some err, outcome) end).

Definition completeNonSuccess (p : Pipeline) (request : DeliveryRequest) (runID : RunID) (run : Run)
    (status : string) (outcome : Outcome) : prog (option error * Outcome) :=
  if bool_decide (status = "blocked") then
    validating ← (if bool_decide (r_State run = StateRunning)
                  then transition p request runID run StateValidating "blocked-validating"
                  else mret (Ok run));
    match validating with
    | Err err => mret (Some err, outcome)
    | Ok validating =>
        if bool_decide (r_State validating = StateAwaitingDecision) then mret (None, with_Run validating outcome)
        else if negb (bool_decide (r_State validating = StateValidating)) then
          mret (Some (text_error "blocked attempt cannot close Run state %q" [r_State validating]), outcome)
        else close_run p request runID validating StateAwaitingDecision "worker-blocked" outcome
    end
  else if bool_decide (status = "cancelled") then
    if bool_decide (r_State run = StateCancelled) then mret (None, with_Run run outcome)
    else if negb (bool_decide (r_State run = StateCancelling)) then
      mret (Some (text_error "cancelled attempt cannot close Run state %q without a governed cancellation"
                    [r_State run]), outcome)
    else close_run p request runID run StateCancelled "worker-cancelled" outcome
  else if bool_decide (status = "failed_retryable") then
    if bool_decide (r_State run = StateFailedRetryable) then mret (None, with_Run run outcome)
    else close_run p request runID run StateFailedRetryable "worker-retryable" outcome
  else
    if bool_decide (r_State run = StateFailedTerminal) then mret (None, with_Run run outcome)
    else close_run p request runID run StateFailedTerminal "worker-terminal" outcome.

(** The tail that two ways of giving up a delivery share: quarantine the worktree,
    release the leases while they are active, and fail the run for good. *)
Definition terminate (p : Pipeline) (request : DeliveryRequest) (runID : RunID) (run : Run)
    (leaseSet : LeaseSet) (leaseActive : bool) (stage quarantineText releaseText : string) (outcome : Outcome)
    : prog (Outcome * option error) :=
  Call (CQuarantine request) (λ '(quarantine, quarantineErr),
    match quarantineErr with
    | Some err => Return (outcome, Some (Errorf (Lit quarantineText) err))
    | None =>
        let outcome := with_Quarantine quarantine outcome in
        let close :=
          failed ← transition p request runID run StateFailedTerminal stage;
          mret (match failed with
                | Err err => (outcome, Some err)
                | Ok run => (with_Run run outcome, None)
                end) in
        if leaseActive
        then Call (CReleaseLeaseSet leaseSet) (λ released : result unit,
               match released with
               | Err err => Return (outcome, Some (Errorf (Lit releaseText) err))
               | Ok _ => close
               end)
        else close
    end).

Definition terminatePublicationConflict (p : Pipeline) (request : DeliveryRequest) (runID : RunID) (run : Run)
    (leaseSet : LeaseSet) (leaseActive : bool) (outcome : Outcome) : prog (Outcome * option error) :=
  terminate p request runID run leaseSet leaseActive "publication-conflict"
    "quarantine conflicted publication: %w" "release conflicted publication leases: %w" outcome.

(** ** The closures of [Execute] *)

(** [leaseSet, err = guard.Stop(); guard = nil]. *)
Definition stopGuard : Stage locals (option error) :=
  '(current, guardErr) ← perform CStopGuard;
  _ ← modifyS (set_guard false);
  _ ← modifyS (set_leaseSet current);
  mret guardErr.

(** The worktree is gone, or nothing was ever created for an attempt that did not
    start; otherwise the error of the quarantine. *)
Definition quarantineAttempt (request : DeliveryRequest) : Stage locals (option error) :=
  prepared ← readS lc_prepared;
  if negb prepared then mret None else
  '(quarantine, quarantineErr) ← perform (CQuarantine request);
  attemptStarted ← readS lc_attemptStarted;
  if IsWorktreeNotFound quarantineErr && negb attemptStarted then
    _ ← modifyS (set_prepared false); mret None
  else match quarantineErr with
       | Some err => mret (Some (Errorf (Lit "quarantine failed delivery: %w") err))
       | None =>
           _ ← modifyS (set_prepared false);
           _ ← modifyS (on_outcome (with_Quarantine quarantine)); mret None
       end.

(** Leases are released only when no attempt path lacks its quarantine. *)
Definition releaseOwned : Stage locals (option error) :=
  leaseOwned ← readS lc_leaseOwned;
  prepared ← readS lc_prepared;
  if leaseOwned && negb prepared then
    leaseSet ← readS lc_leaseSet;
    released ← perform (CReleaseLeaseSet leaseSet);
    match released with
    | Err err => mret (Some (Errorf (Lit "release failed delivery leases: %w") err))
    | Ok _ => _ ← modifyS (set_leaseOwned false); mret None
    end
  else mret None.

Definition cleanup (request : DeliveryRequest) : Stage locals (option error) :=
  guarded ← readS lc_guard;
  guardErr ← (if negb guarded then mret None else stopGuard);
  quarantineErr ← quarantineAttempt request;
  releaseErr ← releaseOwned;
  let cleanupErr := Join_errors [Join_errors [guardErr; quarantineErr]; releaseErr] in
  _ ← (match cleanupErr with None => modifyS set_cleanupManaged | Some _ => mret tt end);
  mret cleanupErr.

Definition failAfterCleanup (p : Pipeline) (request : DeliveryRequest) (runID : RunID) (target : State)
    (stage : string) : Stage locals (option error) :=
  cleanupErr ← cleanup request;
  match cleanupErr with
  | Some err => mret (Some err)
  | None =>
      attemptTerminal ← readS lc_attemptTerminal;
      if negb attemptTerminal then mret None else
      run ← readS lc_run;
      invoke (failRun p request runID run target stage)
  end.

(** [return outcome, errors.Join(fmt.Errorf(...), failAfterCleanup(...))]. *)
Definition abandon {A} (p : Pipeline) (request : DeliveryRequest) (runID : RunID) (target : State) (stage : string)
    (err : error) (errs : list (option error)) : Stage locals A :=
  failErr ← failAfterCleanup p request runID target stage;
  returnS err (errs ++ [failErr]).

(** [run, err = p.transition(...)]: an error leaves the zero run behind. *)
Definition transitionRun (p : Pipeline) (request : DeliveryRequest) (runID : RunID) (target : State) (stage : string)
    : Stage locals (option error) :=
  run ← readS lc_run;
  updated ← invoke (transition p request runID run target stage);
  _ ← modifyS (set_run (run_of updated));
  mret (err_of updated).

(** [outcome.Run = run]. *)
Definition recordRun : Stage locals unit := run ← readS lc_run; modifyS (on_outcome (with_Run run)).

(** Renewal of both fences before something is changed. *)
Definition renewBoth (p : Pipeline) (request : DeliveryRequest) (schedulerFence : LeaseProof) (runID : RunID)
    (setText setStage fenceText fenceStage : string) : Stage locals unit :=
  leaseSet ← readS lc_leaseSet;
  '(renewed, err) ← perform (CRenewLeaseSet leaseSet (leaseTTL request));
  _ ← modifyS (set_leaseSet renewed);
  match err with
  | Some err => abandon p request runID StateFailedRetryable setStage (Errorf (Lit setText) err) []
  | None =>
      fence ← invoke (renewFence request schedulerFence);
      match fence with
      | Err err => abandon p request runID StateFailedRetryable fenceStage (Errorf (Lit fenceText) err) []
      | Ok _ => mret tt
      end
  end.

Definition startGuard (request : DeliveryRequest) (schedulerFence : LeaseProof) : Stage locals unit :=
  leaseSet ← readS lc_leaseSet;
  _ ← perform (CStartGuard schedulerFence leaseSet (leaseTTL request) (deliveryHeartbeatInterval (leaseTTL request)));
  modifyS (set_guard true).

(** ** [Execute] *)

(** Up to the renewal of the scheduler fence: nothing has been changed yet. *)
Definition execute_admit (p : Pipeline) (request : DeliveryRequest) (schedulerFence : LeaseProof)
    : Stage locals (RunID * Attempt) :=
  _ ← liftS (wrapped "validate approved delivery request: %w" (validateDeliveryRequestDocument request));
  runID ← liftS (authorize p request schedulerFence);
  authorized ← perform (CGetAuthorization (rq_DeliveryID request) (rq_AttemptID request));
  authorized ← liftS (wrapped "load immutable delivery authorization: %w" authorized);
  authorization ← match authorized with
                  | None => throwS (plain_error "immutable human delivery authorization is required")
                  | Some authorization => mret authorization
                  end;
  _ ← liftS (requireExactAuthorization request authorization);
  run ← perform (CGetRun runID);
  run ← liftS (wrapped "load approved run: %w" run);
  _ ← modifyS (set_run run);
  attempt ← perform (CGetAttempt (rq_AttemptID request));
  attempt ← liftS (wrapped "load durable attempt: %w" attempt);
  _ ← liftS (validateApprovedState request run attempt schedulerFence);
  _ ← recordRun;
  _ ← modifyS (on_outcome (with_Attempt attempt));
  verified ← perform (CVerifyLease schedulerFence 0);
  _ ← liftS (wrapped "verify live scheduler fence before delivery side effects: %w" verified);
  renewed ← invoke (renewFence request schedulerFence);
  _ ← liftS (wrapped "renew live scheduler fence before delivery side effects: %w" renewed);
  mret (runID, attempt).

(** The run is claimed and the delivery leases are acquired. *)
Definition execute_acquire (p : Pipeline) (request : DeliveryRequest) (runID : RunID) : Stage locals unit :=
  err ← transitionRun p request runID StatePreparing "run-preparing";
  match err with
  | Some err => throwS err
  | None =>
      _ ← recordRun;
      acquired ← invoke (acquire p request);
      leaseSet ← liftS (wrapped "acquire delivery lease set: %w" acquired);
      _ ← modifyS (set_leaseSet leaseSet);
      modifyS (set_leaseOwned true)
  end.

(** The run cannot be marked running: the attempt ends as an infrastructure failure. *)
Definition execute_not_running (p : Pipeline) (request : DeliveryRequest) (schedulerFence : LeaseProof)
    (runID : RunID) (attempt : Attempt) (err : error) : Stage locals (Worktree * Attempt) :=
  failure ← invoke (canonicalInfrastructureFailure request "start_failure");
  _ ← modifyS (on_outcome (with_Worker failure));
  finished ← invoke (finishAttempt p request attempt failure schedulerFence "attempt-start-transition-failure");
  let err := Errorf (Lit "mark approved run running: %w") err in
  match finished with
  | Err finishErr => returnS err [Some finishErr]
  | Ok finished =>
      _ ← modifyS set_attemptTerminal;
      _ ← modifyS (on_outcome (with_Attempt finished));
      abandon p request runID StateFailedRetryable "run-start-failed" err []
  end.

Definition execute_prepare (p : Pipeline) (request : DeliveryRequest) (schedulerFence : LeaseProof)
    (runID : RunID) (attempt : Attempt) : Stage locals (Worktree * Attempt) :=
  _ ← renewBoth p request schedulerFence runID
        "renew delivery leases before worktree mutation: %w" "pre-prepare-delivery-lease-failed"
        "renew scheduler fence before worktree mutation: %w" "pre-prepare-scheduler-lease-failed";
  _ ← startGuard request schedulerFence;
  _ ← modifyS (set_prepared true);
  prepared ← perform (CPrepare request);
  match prepared with
  | Err err =>
      abandon p request runID StateFailedRetryable "worktree-prepare-failed"
        (Errorf (Lit "prepare isolated worktree: %w") err) []
  | Ok worktree =>
      _ ← modifyS (on_outcome (with_Worktree worktree));
      started ← perform (CStartAttempt (a_AttemptID attempt) (a_Version attempt) (metadata p request "attempt-start")
                           schedulerFence);
      match started with
      | Err err =>
          abandon p request runID StateFailedRetryable "attempt-start-failed"
            (Errorf (Lit "start durable attempt: %w") err) []
      | Ok attempt =>
          _ ← modifyS set_attemptStarted;
          _ ← modifyS (on_outcome (with_Attempt attempt));
          err ← transitionRun p request runID StateRunning "run-running";
          match err with
          | Some err => execute_not_running p request schedulerFence runID attempt err
          | None => _ ← recordRun; mret (worktree, attempt)
          end
      end
  end.

(** What the worker's answer is worth once the guard has stopped: an error of the
    guard, or of a supervisor that claims anything but a failure, is recorded as an
    infrastructure failure. *)
Definition settle_worker (request : DeliveryRequest) (workerResult : WorkerResult) (workerErr guardErr : option error)
    : prog (WorkerResult * option error) :=
  match guardErr with
  | Some guardErr =>
      failure ← canonicalInfrastructureFailure request "telemetry_failure";
      mret (failure, Join_errors [workerErr;
        Some (Errorf (Lit "delivery authority was lost during worker execution: %w") guardErr)])
  | None =>
      if bool_decide (is_Some workerErr) && negb (bool_decide (wr_Status workerResult = "failed_retryable")) &&
         negb (bool_decide (wr_Status workerResult = "cancelled"))
      then failure ← canonicalInfrastructureFailure request "telemetry_failure"; mret (failure, workerErr)
      else mret (workerResult, workerErr)
  end.

(** A cancelled worker counts only when the run itself is being cancelled. *)
Definition settle_cancelled (request : DeliveryRequest) (runID : RunID) (workerResult : WorkerResult)
    (workerErr : option error) : Stage locals (WorkerResult * option error) :=
  if negb (bool_decide (wr_Status workerResult = "cancelled")) then mret (workerResult, workerErr) else
  currentRun ← perform (CGetRun runID);
  let ungoverned cancellationErr :=
    failure ← invoke (canonicalInfrastructureFailure request "telemetry_failure");
    mret (failure, Join_errors [workerErr;
      Some (Errorf (Lit "worker cancellation lacks durable governed Run cancellation: %w") cancellationErr)]) in
  match currentRun with
  | Err stateErr => ungoverned stateErr
  | Ok currentRun =>
      if negb (bool_decide (r_State currentRun = StateCancelling)) &&
         negb (bool_decide (r_State currentRun = StateCancelled))
      then ungoverned (text_error "Run state %q is not cancelling or cancelled" [r_State currentRun])
      else
        _ ← modifyS (set_run currentRun);
        _ ← recordRun;
        mret (workerResult, workerErr)
  end.

(** A result that breaks its contract is replaced by an infrastructure failure. *)
Definition execute_invalid (p : Pipeline) (request : DeliveryRequest) (schedulerFence : LeaseProof) (runID : RunID)
    (attempt : Attempt) (workerErr : option error) (err : error) : Stage locals unit :=
  failure ← invoke (canonicalInfrastructureFailure request "invalid_report");
  _ ← modifyS (on_outcome (with_Worker failure));
  finished ← invoke (finishAttempt p request attempt failure schedulerFence "attempt-invalid-result");
  let err := Errorf (Lit "validate worker result: %w") err in
  match finished with
  | Err finishErr => returnS err [workerErr; Some finishErr]
  | Ok finished =>
      _ ← modifyS set_attemptTerminal;
      _ ← modifyS (on_outcome (with_Attempt finished));
      abandon p request runID StateFailedRetryable "worker-result-invalid" err [workerErr]
  end.

(** The attempt ended otherwise than by success. *)
Definition execute_non_success (p : Pipeline) (request : DeliveryRequest) (runID : RunID) (status : string)
    (workerErr : option error) : Stage locals unit :=
  let ended := text_error "worker attempt ended with status %q" [status] in
  cleanupErr ← cleanup request;
  match cleanupErr with
  | Some cleanupErr => throwS (default ended (Join_errors [workerErr; Some ended; Some cleanupErr]))
  | None =>
      run ← readS lc_run;
      outcome ← readS lc_outcome;
      '(closeErr, outcome) ← invoke (completeNonSuccess p request runID run status outcome);
      _ ← modifyS (on_outcome (λ _, outcome));
      throwS (default ended (Join_errors [workerErr; closeErr; Some ended]))
  end.

Definition execute_worker (p : Pipeline) (request : DeliveryRequest) (schedulerFence : LeaseProof) (runID : RunID)
    (worktree : Worktree) (attempt : Attempt) : Stage locals unit :=
  '(workerResult, workerErr) ← perform (CWorker (workerTaskFrom request worktree));
  guardErr ← stopGuard;
  '(workerResult, workerErr) ← invoke (settle_worker request workerResult workerErr guardErr);
  '(workerResult, workerErr) ← settle_cancelled request runID workerResult workerErr;
  _ ← modifyS (on_outcome (with_Worker workerResult));
  match validateWorkerResult request workerResult with
  | Err err => execute_invalid p request schedulerFence runID attempt workerErr err
  | Ok _ =>
      finished ← invoke (finishAttempt p request attempt workerResult schedulerFence "attempt-finish");
      match finished with
      | Err err => returnS (Errorf (Lit "finish durable attempt: %w") err) [workerErr]
      | Ok attempt =>
          _ ← modifyS set_attemptTerminal;
          _ ← modifyS (on_outcome (with_Attempt attempt));
          match guardErr with
          | Some guardErr =>
              abandon p request runID StateFailedRetryable "worker-lease-lost"
                (Errorf (Lit "delivery authority was lost during worker execution: %w") guardErr) [workerErr]
          | None =>
              if bool_decide (is_Some workerErr) || negb (bool_decide (wr_Status workerResult = "succeeded"))
              then execute_non_success p request runID (wr_Status workerResult) workerErr
              else mret tt
          end
      end
  end.

(** The result commit could not be created: an interruption may be retried. *)
Definition execute_no_commit (p : Pipeline) (request : DeliveryRequest) (runID : RunID) (err : error)
    : Stage locals (CommitResult * ValidationBundle) :=
  executionCause ← perform CCause;
  heartbeatErr ← stopGuard;
  let interrupted := bool_decide (is_Some heartbeatErr) || bool_decide (is_Some executionCause) ||
                     IsCanceled err || IsDeadlineExceeded err in
  abandon p request runID (if interrupted then StateFailedRetryable else StateFailedTerminal)
    (if interrupted then "result-commit-interrupted" else "result-commit-failed")
    (Errorf (Lit "create supervisor result commit: %w") err) [heartbeatErr].

(** The validator did not pass the commit. *)
Definition execute_rejected (p : Pipeline) (request : DeliveryRequest) (runID : RunID) (status : string)
    : Stage locals (CommitResult * ValidationBundle) :=
  let err := text_error "independent validation status is %q" [status] in
  cleanupErr ← cleanup request;
  match cleanupErr with
  | Some cleanupErr => returnS err [Some cleanupErr]
  | None =>
      run ← readS lc_run;
      failed ← invoke (transition p request runID run StateFailedTerminal "validation-rejected");
      _ ← (match failed with Ok failed => modifyS (on_outcome (with_Run failed)) | Err _ => mret tt end);
      returnS err [err_of failed]
  end.

Definition execute_validate (p : Pipeline) (request : DeliveryRequest) (schedulerFence : LeaseProof) (runID : RunID)
    : Stage locals (CommitResult * ValidationBundle) :=
  _ ← renewBoth p request schedulerFence runID
        "renew delivery leases after worker execution: %w" "post-worker-delivery-lease-failed"
        "renew scheduler fence after worker execution: %w" "post-worker-scheduler-lease-failed";
  _ ← startGuard request schedulerFence;
  created ← perform (CCreateResultCommit request);
  match created with
  | Err err => execute_no_commit p request runID err
  | Ok commit =>
      _ ← modifyS (on_outcome (with_Commit commit));
      err ← transitionRun p request runID StateValidating "run-validating";
      match err with
      | Some err => throwS (Errorf (Lit "mark approved run validating: %w") err)
      | None =>
          _ ← recordRun;
          validated ← perform (CValidate request commit);
          match validated with
          | Err err =>
              abandon p request runID StateFailedRetryable "validation-error"
                (Errorf (Lit "validate result commit: %w") err) []
          | Ok bundle =>
              _ ← modifyS (on_outcome (with_Validation bundle));
              if negb (bool_decide (vr_Status (vb_Report bundle) = "passed"))
              then execute_rejected p request runID (vr_Status (vb_Report bundle))
              else mret (commit, bundle)
          end
      end
  end.

(** No receipt came back: the journal says whether the reference may have moved. *)
Definition execute_unpublished (p : Pipeline) (request : DeliveryRequest) (runID : RunID)
    (publicationErr : option error) : Stage locals unit :=
  let publicationErr := default (plain_error "publisher returned no durable receipt") publicationErr in
  let err := Errorf (Lit "publish validated result: %w") publicationErr in
  journaled ← perform (CGetPublication (rq_DeliveryID request) (rq_AttemptID request));
  let journaled : result (option DeliveryPublication) := journaled in
  _ ← modifyS (set_publicationStarted (match journaled with Ok None => false | _ => true end));
  let ordinary started :=
    runErr ← (if negb started
              then failAfterCleanup p request runID StateFailedRetryable "publication-pre-journal-failed"
              else mret None);
    returnS err [err_of journaled; runErr] in
  match journaled with
  | Ok (Some record) =>
      if bool_decide (dp_State record = "conflict") then
        _ ← modifyS set_cleanupManaged;
        run ← readS lc_run;
        leaseSet ← readS lc_leaseSet;
        outcome ← readS lc_outcome;
        '(settled, cleanupErr) ← invoke (terminatePublicationConflict p request runID run leaseSet true outcome);
        _ ← modifyS (on_outcome (λ _, settled));
        returnS err [cleanupErr]
      else ordinary true
  | Ok None => ordinary false
  | Err _ => ordinary true
  end.

Definition execute_publish (p : Pipeline) (request : DeliveryRequest) (schedulerFence : LeaseProof) (runID : RunID)
    (commit : CommitResult) (bundle : ValidationBundle) : Stage locals unit :=
  heartbeatErr ← stopGuard;
  match heartbeatErr with
  | Some err =>
      abandon p request runID StateFailedRetryable "post-validation-lease-failed"
        (Errorf (Lit "delivery lease heartbeat failed during validation: %w") err) []
  | None =>
      _ ← renewBoth p request schedulerFence runID
            "renew delivery leases for publication: %w" "publication-lease-failed"
            "renew scheduler fence for publication: %w" "publication-scheduler-fence-failed";
      leaseSet ← readS lc_leaseSet;
      '(publication, publicationErr) ← perform (CPublish request commit bundle leaseSet);
      _ ← modifyS (on_outcome (with_Publication publication));
      if negb (bool_decide (receipt_status publication = "published"))
      then execute_unpublished p request runID publicationErr
      else
        _ ← modifyS (set_publicationStarted true);
        _ ← modifyS (set_leaseOwned (negb (pr_LeaseReleased publication)));
        transitionErr ← transitionRun p request runID StateCompleted "run-completed";
        _ ← (match transitionErr with None => recordRun | Some _ => mret tt end);
        match Join_errors [publicationErr; transitionErr] with
        | Some err => throwS err
        | None => mret tt
        end
  end.

(** Once the leases are held, a deferred function cleans up behind an error. *)
Definition execute_delivery (p : Pipeline) (request : DeliveryRequest) (schedulerFence : LeaseProof) (runID : RunID)
    (attempt : Attempt) : Stage locals unit :=
  '(worktree, attempt) ← execute_prepare p request schedulerFence runID attempt;
  _ ← execute_worker p request schedulerFence runID worktree attempt;
  '(commit, bundle) ← execute_validate p request schedulerFence runID;
  execute_publish p request schedulerFence runID commit bundle.

Definition with_deferred_cleanup {A} (request : DeliveryRequest) (body : Stage locals A) : Stage locals A := λ l,
  '(r, l) ← body l;
  match r with
  | Ok a => mret (Ok a, l)
  | Err resultErr =>
      if lc_publicationStarted l || lc_cleanupManaged l then mret (Err resultErr, l) else
      '(cleaned, l) ← cleanup request l;
      let cleanupErr := match cleaned with Ok err => err | Err err => Some err end in
      mret (Err (default resultErr (Join_errors [Some resultErr; cleanupErr])), l)
  end.

Definition execute_stages (p : Pipeline) (request : DeliveryRequest) (schedulerFence : LeaseProof)
    : Stage locals unit :=
  '(runID, attempt) ← execute_admit p request schedulerFence;
  _ ← execute_acquire p request runID;
  with_deferred_cleanup request (execute_delivery p request schedulerFence runID attempt).

Definition Execute (p : Pipeline) (request : DeliveryRequest) (schedulerFence : LeaseProof)
    : prog (Outcome * option error) :=
  '(r, l) ← execute_stages p request schedulerFence no_locals;
  mret (lc_outcome l, err_of r).
End pipeline.
