(* ===== verification/PipelineRecovery.v ===== *)
(** * Package [internal/execution]: recovery of a delivery ([recovery.go])

    A replacement scheduler resumes the stages of an interrupted delivery whose
    inputs are durable. No worker is started again. *)

From S2P Require Import Prelude GoLib Fault Contracts Identity RunState LeasePaths Postgres DeliveryContracts.
From S2P Require Import ControlMemory AttemptRecords Leases LeaseSets DeliveryLeases PgTables PgEvents.
From S2P Require Import WorkerResults Attempts Authorizations Publications PublicationService.
From S2P Require Import Approval Programs LeaseGuard Pipeline.

(** [delivery.ErrValidationEvidenceNotFound]. *)
Definition ErrValidationEvidenceNotFound : error := Sentinel "validation evidence not found".
Definition IsEvidenceNotFound (err : error) : bool := Is err "validation evidence not found".

Definition attemptOwnedByFence (attempt : Attempt) (fence : LeaseProof) : bool :=
  bool_decide (a_LeaseResourceType attempt = k_ResourceType (lp_LeaseKey fence)) &&
  bool_decide (a_LeaseResourceID attempt = k_ResourceID (lp_LeaseKey fence)) &&
  bool_decide (a_WorkerID attempt = lp_OwnerID fence) &&
  bool_decide (a_FencingToken attempt = lp_FencingToken fence).

(** A queued or running attempt may still have a process. *)
Definition unsettled (status : string) : bool :=
  bool_decide (status = "queued") || bool_decide (status = "running").

(** The variables of [resumeSucceeded]. *)
Record resuming := mkResuming {
  rs_outcome : Outcome;
  rs_run : Run;
  rs_leaseSet : LeaseSet;
  rs_guard : bool;
}.
Definition on_resumed (f : Outcome → Outcome) (l : resuming) : resuming :=
  mkResuming (f (rs_outcome l)) (rs_run l) (rs_leaseSet l) (rs_guard l).
Definition resume_run (v : Run) (l : resuming) : resuming :=
  mkResuming (rs_outcome l) v (rs_leaseSet l) (rs_guard l).
Definition resume_leaseSet (v : LeaseSet) (l : resuming) : resuming :=
  mkResuming (rs_outcome l) (rs_run l) v (rs_guard l).
Definition resume_guard (v : bool) (l : resuming) : resuming :=
  mkResuming (rs_outcome l) (rs_run l) (rs_leaseSet l) v.

Section recovery.
Context `{Sha256, DeliveryJson, Schemas}.

Definition commitFromPublication (record : DeliveryPublication) : result CommitResult :=
  let receiptJSON := pi_ReceiptJSON (dp_Intent record) in
  _ ← schema_checked "validate delivery receipt: %w" "delivery-receipt.schema.json" receiptJSON;
  receipt ← wrapped "decode delivery receipt: %w" (receipt_of_json receiptJSON);
  Ok (mkCommitResult (rt_BaseCommit receipt) (rt_ResultCommit receipt) (rt_ResultTree receipt)
        (rt_PatchSHA256 receipt) (rt_ChangedPaths receipt)).

(** ** Deliveries that have ended *)

(** [p.repository.ReleaseLeaseSet] while the set is active. *)
Definition releaseActive (leaseState : string) (leaseSet : LeaseSet) : prog (option error) :=
  if bool_decide (leaseState = "active")
  then Call (CReleaseLeaseSet leaseSet) (λ released : result unit, Return (err_of released))
  else mret None.

Definition cleanupSucceededTerminal (request : DeliveryRequest) (run : Run) (attempt : Attempt) (outcome : Outcome)
    : prog (Outcome * option error) :=
  Call (CGetPublication (rq_DeliveryID request) (rq_AttemptID request)) (λ journaled : result (option DeliveryPublication),
  match journaled with
  | Err err => Return (outcome, Some (Errorf (Lit "load terminal succeeded-attempt publication: %w") err))
  | Ok record =>
  let state := default "" (dp_State <$> record) in
  if bool_decide (state = "prepared") || bool_decide (state = "published")
  then Return (outcome, Some (text_error "terminal Run contradicts active publication state %q" [state]))
  else Call (CGetLeaseSet (rq_AttemptID request)) (λ loaded : result (option (LeaseSet * string)),
  match loaded with
  | Err err => Return (outcome, Some (Errorf (Lit "load terminal succeeded-attempt lease set: %w") err))
  | Ok None => Return (outcome, Some (plain_error "terminal succeeded attempt has no historical lease-set proof"))
  | Ok (Some (leaseSet, state)) =>
  Call (CQuarantine request) (λ '(quarantine, quarantineErr),
  match quarantineErr with
  | Some err => Return (outcome, Some (Errorf (Lit "quarantine terminal succeeded attempt: %w") err))
  | None =>
      let outcome := with_Quarantine quarantine outcome in
      releaseErr ← releaseActive state leaseSet;
      mret (match releaseErr with
            | Some err => (outcome, Some (Errorf (Lit "release terminal succeeded-attempt leases: %w") err))
            | None => (with_Run run (with_Attempt attempt outcome),
                       Some (text_error "cleaned succeeded attempt %s after Run reached %q"
                               [a_AttemptID attempt; r_State run]))
            end)
  end)
  end)
  end).

(** The quarantine of [failInterrupted] and its relatives: [absent] says that a worktree
    which was never created is fine. *)
Definition quarantine_unless (absent : bool) (quarantineErr : option error) : option error :=
  if IsWorktreeNotFound quarantineErr && absent then None else quarantineErr.

Definition failInterrupted (p : Pipeline) (request : DeliveryRequest) (runID : RunID) (run : Run) (attempt : Attempt)
    (outcome : Outcome) : prog (Outcome * option error) :=
  let close outcome : prog (Outcome * option error) :=
    let retryable := text_error "interrupted attempt %s is retryable" [a_AttemptID attempt] in
    if bool_decide (r_State run = StatePreparing) || bool_decide (r_State run = StateRunning) ||
       bool_decide (r_State run = StateValidating)
    then
      failed ← transition p request runID run StateFailedRetryable "interrupted-run-retryable";
      mret (match failed with
            | Err transitionErr => (outcome, Some transitionErr)
            | Ok failed => (with_Run failed outcome, Some retryable)
            end)
    else mret (outcome, Some retryable) in
  let incomplete outcome err := (outcome, Join_errors
    [Some (text_error "interrupted attempt %s cleanup is incomplete" [a_AttemptID attempt]); Some err]) in
  Call (CGetLeaseSet (rq_AttemptID request)) (λ loaded : result (option (LeaseSet * string)),
  match loaded with
  | Err loadErr => Return (outcome, Some loadErr)
  | Ok None => close outcome
  | Ok (Some (leaseSet, state)) =>
      Call (CQuarantine request) (λ '(quarantine, quarantineErr),
      match quarantine_unless (bool_decide (r_State run = StatePreparing)) quarantineErr with
      | Some err => Return (incomplete outcome err)
      | None =>
          let outcome := if bool_decide (qr_QuarantinePath quarantine = "") then outcome
                         else with_Quarantine quarantine outcome in
          releaseErr ← releaseActive state leaseSet;
          match releaseErr with
          | Some err => Return (incomplete outcome err)
          | None => close outcome
          end
      end)
  end).

Definition recoverCancellation (p : Pipeline) (request : DeliveryRequest) (runID : RunID) (run : Run)
    (attempt : Attempt) (outcome : Outcome) : prog (Outcome * option error) :=
  let close outcome : prog (Outcome * option error) :=
    '(err, outcome) ← completeNonSuccess p request runID run "cancelled" outcome;
    mret (outcome, Some (default (text_error "recovered cancellation for attempt %s with durable status %q"
                                    [a_AttemptID attempt; a_Status attempt]) err)) in
  Call (CGetLeaseSet (rq_AttemptID request)) (λ loaded : result (option (LeaseSet * string)),
  match loaded with
  | Err err => Return (outcome, Some (Errorf (Lit "load cancelling attempt lease set: %w") err))
  | Ok None => close outcome
  | Ok (Some (leaseSet, state)) =>
      Call (CQuarantine request) (λ '(quarantine, quarantineErr),
      match quarantine_unless (bool_decide (a_StartedAt attempt = None) &&
                               bool_decide (a_Status attempt = "failed_retryable")) quarantineErr with
      | Some err => Return (outcome, Some (Errorf (Lit "quarantine cancelling attempt: %w") err))
      | None =>
          let outcome := if bool_decide (qr_QuarantinePath quarantine = "") then outcome
                         else with_Quarantine quarantine outcome in
          releaseErr ← releaseActive state leaseSet;
          match releaseErr with
          | Some err => Return (outcome, Some (Errorf (Lit "release cancelling attempt leases: %w") err))
          | None => close outcome
          end
      end)
  end).

Definition recoverNonSuccess (p : Pipeline) (request : DeliveryRequest) (runID : RunID) (run : Run)
    (attempt : Attempt) (outcome : Outcome) : prog (Outcome * option error) :=
  let close outcome : prog (Outcome * option error) :=
    '(err, outcome) ← completeNonSuccess p request runID run (a_Status attempt) outcome;
    mret (outcome, Some (default (text_error "recovered terminal worker attempt %s with status %q"
                                    [a_AttemptID attempt; a_Status attempt]) err)) in
  Call (CGetLeaseSet (rq_AttemptID request)) (λ loaded : result (option (LeaseSet * string)),
  match loaded with
  | Err err => Return (outcome, Some (Errorf (Lit "load terminal attempt lease set: %w") err))
  | Ok None => close outcome
  | Ok (Some (leaseSet, state)) =>
      Call (CQuarantine request) (λ '(quarantine, quarantineErr),
      match quarantineErr with
      | Some err => Return (outcome, Some (Errorf (Lit "quarantine terminal attempt: %w") err))
      | None =>
          let outcome := with_Quarantine quarantine outcome in
          releaseErr ← releaseActive state leaseSet;
          match releaseErr with
          | Some err => Return (outcome, Some (Errorf (Lit "release terminal attempt leases: %w") err))
          | None => close outcome
          end
      end)
  end).

Definition rejectRecoveredValidation (p : Pipeline) (request : DeliveryRequest) (runID : RunID) (run : Run)
    (leaseSet : LeaseSet) (leaseState : string) (outcome : Outcome) : prog (Outcome * option error) :=
  terminate p request runID run leaseSet (bool_decide (leaseState = "active")) "recovery-validation-rejected"
    "quarantine rejected recovery: %w" "release rejected recovery leases: %w" outcome.

(** What a replayed publication is worth. *)
Definition replay_outcome (run : Run) (attempt : Attempt) (commit : CommitResult) (outcome : Outcome)
    (publication : PublicationResult) (publicationErr : option error) : Outcome * option error :=
  if negb (bool_decide (receipt_status publication = "published"))
  then (outcome, Some (default (plain_error "completed publication replay returned no durable receipt") publicationErr))
  else
    let publicationErr :=
      match publicationErr with
      | None => if pr_LeaseReleased publication then None
                else Some (plain_error "completed publication replay did not release its lease set")
      | Some err => Some err
      end in
    (with_Publication publication (with_Commit commit (with_Run run (with_Attempt attempt outcome))), publicationErr).

Definition replayCompleted (request : DeliveryRequest) (run : Run) (attempt : Attempt) (outcome : Outcome)
    : prog (Outcome * option error) :=
  Call (CGetPublication (rq_DeliveryID request) (rq_AttemptID request)) (λ journaled : result (option DeliveryPublication),
  match journaled with
  | Err err => Return (outcome, Some err)
  | Ok None => Return (outcome, Some (plain_error "completed Run has no durable published receipt"))
  | Ok (Some record) =>
  if negb (bool_decide (dp_State record = "published"))
  then Return (outcome, Some (plain_error "completed Run has no durable published receipt"))
  else match commitFromPublication record with
  | Err err => Return (outcome, Some (Errorf (Lit "decode completed delivery receipt: %w") err))
  | Ok commit =>
  Call (CGetLeaseSet (rq_AttemptID request)) (λ loaded : result (option (LeaseSet * string)),
  match loaded with
  | Err err => Return (outcome, Some (Errorf (Lit "load completed delivery lease set: %w") err))
  | Ok None => Return (outcome, Some (plain_error "completed Run has no historical delivery lease proof"))
  | Ok (Some (leaseSet, _)) =>
      Call (CRecover request commit leaseSet) (λ '(publication, publicationErr),
        Return (replay_outcome run attempt commit outcome publication publicationErr))
  end)
  end
  end).

(** ** A succeeded attempt *)

(** [return p.f(...)] and [settled, err := p.f(...); return settled, errors.Join(...)]. *)
Definition returnFrom (answer : Outcome * option error) : Stage resuming unit :=
  _ ← modifyS (on_resumed (λ _, answer.1));
  match answer.2 with Some err => throwS err | None => mret tt end.
Definition stopResumed : Stage resuming (option error) :=
  '(current, guardErr) ← perform CStopGuard;
  _ ← modifyS (resume_guard false);
  _ ← modifyS (resume_leaseSet current);
  mret guardErr.

(** While the lease set is active it is renewed, the scheduler fence after it, and a
    guard is started; a set that cannot be renewed leaves no guard behind. *)
Definition resume_authority (request : DeliveryRequest) (recoveryFence : LeaseProof) (leaseState : string)
    : Stage resuming unit :=
  if negb (bool_decide (leaseState = "active")) then mret tt else
  leaseSet ← readS rs_leaseSet;
  '(renewed, err) ← perform (CRenewLeaseSet leaseSet (leaseTTL request));
  _ ← modifyS (resume_leaseSet renewed);
  match err with
  | Some _ => mret tt
  | None =>
      fence ← invoke (renewFence request recoveryFence);
      _ ← liftS (wrapped "renew recovery scheduler fence before Git mutation: %w" fence);
      _ ← perform (CStartGuard recoveryFence renewed (leaseTTL request) (deliveryHeartbeatInterval (leaseTTL request)));
      modifyS (resume_guard true)
  end.

(** Neither authority nor a journal: nothing may be published. *)
Definition resume_expired (p : Pipeline) (request : DeliveryRequest) (runID : RunID) (attempt : Attempt)
    (leaseState : string) : Stage resuming unit :=
  loaded ← perform (CLoad request);
  let loaded : result ValidationBundle := loaded in
  run ← readS rs_run;
  match loaded with
  | Ok bundle =>
      if negb (bool_decide (vr_Status (vb_Report bundle) = "passed")) then
        _ ← modifyS (on_resumed (with_Validation bundle));
        leaseSet ← readS rs_leaseSet;
        outcome ← readS rs_outcome;
        '(rejected, cleanupErr) ← invoke (rejectRecoveredValidation p request runID run leaseSet leaseState outcome);
        _ ← modifyS (on_resumed (λ _, rejected));
        returnS (text_error "recovered validation status is %q" [vr_Status (vb_Report bundle)]) [cleanupErr]
      else
        outcome ← readS rs_outcome;
        failed ← invoke (failInterrupted p request runID run attempt outcome);
        returnFrom failed
  | Err loadErr =>
      if negb (IsEvidenceNotFound loadErr)
      then throwS (Errorf (Lit "load interrupted validation evidence: %w") loadErr)
      else
        outcome ← readS rs_outcome;
        failed ← invoke (failInterrupted p request runID run attempt outcome);
        returnFrom failed
  end.

(** The result commit: the journaled one, or the supervisor's again. *)
Definition resume_commit (request : DeliveryRequest) (journal : option DeliveryPublication)
    : Stage resuming CommitResult :=
  commit ← match journal with
           | Some record => liftS (wrapped "reconstruct journaled result commit: %w" (commitFromPublication record))
           | None =>
               created ← perform (CCreateResultCommit request);
               liftS (wrapped "reconstruct interrupted result commit: %w" created)
           end;
  _ ← modifyS (on_resumed (with_Commit commit));
  mret commit.

Definition resume_validating (p : Pipeline) (request : DeliveryRequest) (runID : RunID) : Stage resuming unit :=
  run ← readS rs_run;
  if negb (bool_decide (r_State run = StateRunning)) then mret tt else
  updated ← invoke (transition p request runID run StateValidating "recovery-run-validating");
  _ ← modifyS (resume_run (run_of updated));
  run ← liftS updated;
  modifyS (on_resumed (with_Run run)).

(** The bundle of the commit: the persisted evidence, or a new validation. A journaled
    publication needs none. *)
Definition resume_bundle (request : DeliveryRequest) (journal : option DeliveryPublication) (commit : CommitResult)
    : Stage resuming (option ValidationBundle) :=
  match journal with
  | Some _ => mret None
  | None =>
      loaded ← perform (CLoad request);
      bundle ← match loaded with
               | Ok bundle => mret bundle
               | Err loadErr =>
                   if negb (IsEvidenceNotFound loadErr)
                   then throwS (Errorf (Lit "load interrupted validation evidence: %w") loadErr)
                   else
                     validated ← perform (CValidate request commit);
                     liftS (wrapped "rerun interrupted validation: %w" validated)
               end;
      _ ← modifyS (on_resumed (with_Validation bundle));
      mret (Some bundle)
  end.

Definition resume_rejected (p : Pipeline) (request : DeliveryRequest) (runID : RunID) (leaseState status : string)
    : Stage resuming unit :=
  guarded ← readS rs_guard;
  heartbeatErr ← (if negb guarded then mret None else stopResumed);
  run ← readS rs_run;
  leaseSet ← readS rs_leaseSet;
  outcome ← readS rs_outcome;
  '(rejected, cleanupErr) ← invoke (rejectRecoveredValidation p request runID run leaseSet leaseState outcome);
  _ ← modifyS (on_resumed (λ _, rejected));
  returnS (text_error "recovered validation status is %q" [status]) [heartbeatErr; cleanupErr].

(** The guard stops and both fences are renewed before the reference is touched. *)
Definition resume_renew (request : DeliveryRequest) (recoveryFence : LeaseProof) : Stage resuming unit :=
  guarded ← readS rs_guard;
  if negb guarded then mret tt else
  heartbeatErr ← stopResumed;
  match heartbeatErr with
  | Some err => throwS (Errorf (Lit "recovery lease heartbeat failed: %w") err)
  | None =>
      leaseSet ← readS rs_leaseSet;
      '(renewed, err) ← perform (CRenewLeaseSet leaseSet (leaseTTL request));
      _ ← modifyS (resume_leaseSet renewed);
      match err with
      | Some err => throwS (Errorf (Lit "renew recovery publication lease: %w") err)
      | None =>
          fence ← invoke (renewFence request recoveryFence);
          _ ← liftS (wrapped "renew recovery scheduler fence before publication: %w" fence);
          mret tt
      end
  end.

(** No receipt: an abandoned or conflicting publication is settled. *)
Definition resume_unpublished (p : Pipeline) (request : DeliveryRequest) (runID : RunID) (attempt : Attempt)
    (leaseState : string) (publicationErr : option error) : Stage resuming unit :=
  let publicationErr := default (plain_error "publication recovery returned no durable receipt") publicationErr in
  journaled ← perform (CGetPublication (rq_DeliveryID request) (rq_AttemptID request));
  let journaled : result (option DeliveryPublication) := journaled in
  run ← readS rs_run;
  leaseSet ← readS rs_leaseSet;
  outcome ← readS rs_outcome;
  match journaled with
  | Ok (Some record) =>
      if bool_decide (dp_State record = "abandoned") then
        '(failed, failErr) ← invoke (failInterrupted p request runID run attempt outcome);
        returnFrom (failed, Join_errors [Some publicationErr; failErr])
      else if bool_decide (dp_State record = "conflict") then
        '(settled, cleanupErr) ← invoke (terminatePublicationConflict p request runID run leaseSet
                                           (bool_decide (leaseState = "active")) outcome);
        returnFrom (settled, Join_errors [Some publicationErr; cleanupErr])
      else throwS publicationErr
  | Ok None => throwS publicationErr
  | Err journalErr => returnS publicationErr [Some journalErr]
  end.

Definition resume_publish (p : Pipeline) (request : DeliveryRequest) (runID : RunID) (attempt : Attempt)
    (leaseState : string) (commit : CommitResult) (bundle : option ValidationBundle) : Stage resuming unit :=
  leaseSet ← readS rs_leaseSet;
  '(publication, publicationErr) ← match bundle with
                                   | None => perform (CRecover request commit leaseSet)
                                   | Some bundle => perform (CPublish request commit bundle leaseSet)
                                   end;
  _ ← modifyS (on_resumed (with_Publication publication));
  if negb (bool_decide (receipt_status publication = "published"))
  then resume_unpublished p request runID attempt leaseState publicationErr
  else
    run ← readS rs_run;
    completed ← invoke (transition p request runID run StateCompleted "recovery-run-completed");
    _ ← (match completed with Ok run => modifyS (on_resumed (with_Run run)) | Err _ => mret tt end);
    match Join_errors [publicationErr; err_of completed] with
    | Some err => throwS err
    | None => mret tt
    end.

(** [defer]: a guard that still runs is stopped. *)
Definition with_deferred_stop (body : Stage resuming unit) : Stage resuming unit := λ l,
  '(r, l) ← body l;
  if rs_guard l then '(_, l) ← stopResumed l; mret (r, l) else mret (r, l).

Definition resume_guarded (p : Pipeline) (request : DeliveryRequest) (recoveryFence : LeaseProof) (runID : RunID)
    (attempt : Attempt) (leaseState : string) (journal : option DeliveryPublication) : Stage resuming unit :=
  commit ← resume_commit request journal;
  _ ← resume_validating p request runID;
  bundle ← resume_bundle request journal commit;
  let status := match bundle with Some bundle => vr_Status (vb_Report bundle) | None => "passed" end in
  if negb (bool_decide (status = "passed")) then resume_rejected p request runID leaseState status else
  _ ← resume_renew request recoveryFence;
  resume_publish p request runID attempt leaseState commit bundle.

Definition resume_stages (p : Pipeline) (request : DeliveryRequest) (recoveryFence : LeaseProof) (runID : RunID)
    (attempt : Attempt) : Stage resuming unit :=
  loaded ← perform (CGetLeaseSet (rq_AttemptID request));
  loaded ← liftS (wrapped "load recovery lease set: %w" loaded);
  journaled ← perform (CGetPublication (rq_DeliveryID request) (rq_AttemptID request));
  journal ← liftS (wrapped "load recovery publication journal: %w" journaled);
  match loaded with
  | None => throwS (plain_error "recovery lease-set proof is missing")
  | Some (leaseSet, leaseState) =>
      _ ← modifyS (resume_leaseSet leaseSet);
      if bool_decide (dp_State <$> journal = Some "conflict") then
        run ← readS rs_run;
        outcome ← readS rs_outcome;
        '(settled, cleanupErr) ← invoke (terminatePublicationConflict p request runID run leaseSet
                                           (bool_decide (leaseState = "active")) outcome);
        returnFrom (settled, Join_errors [Some ErrPublicationConflict; cleanupErr])
      else
        _ ← resume_authority request recoveryFence leaseState;
        guarded ← readS rs_guard;
        if negb guarded && bool_decide (journal = None)
        then resume_expired p request runID attempt leaseState
        else with_deferred_stop (resume_guarded p request recoveryFence runID attempt leaseState journal)
  end.

Definition resumeSucceeded (p : Pipeline) (request : DeliveryRequest) (recoveryFence : LeaseProof) (runID : RunID)
    (run : Run) (attempt : Attempt) (outcome : Outcome) : prog (Outcome * option error) :=
  if bool_decide (r_State run = StateCompleted) then replayCompleted request run attempt outcome
  else if bool_decide (r_State run = StateFailedRetryable) || bool_decide (r_State run = StateFailedTerminal)
  then cleanupSucceededTerminal request run attempt outcome
  else if negb (bool_decide (r_State run = StateRunning)) && negb (bool_decide (r_State run = StateValidating))
  then mret (outcome, Some (text_error "succeeded attempt cannot resume Run state %q" [r_State run]))
  else
    '(r, l) ← resume_stages p request recoveryFence runID attempt (mkResuming outcome run zeroLeaseSet false);
    mret (rs_outcome l, err_of r).

(** ** [Recover] *)

(** Everything that is read before the attempt is judged; an error comes with the
    outcome that is returned beside it. *)
Definition recover_admit (p : Pipeline) (request : DeliveryRequest) (recoveryFence : LeaseProof)
    : Stage Outcome (RunID * Run * Attempt) :=
  _ ← liftS (wrapped "validate recovery delivery request: %w" (validateDeliveryRequestDocument request));
  runID ← liftS (authorize p request recoveryFence);
  authorized ← perform (CGetAuthorization (rq_DeliveryID request) (rq_AttemptID request));
  authorized ← liftS (wrapped "load immutable delivery authorization: %w" authorized);
  authorization ← match authorized with
                  | None => throwS (plain_error "immutable human delivery authorization is required")
                  | Some authorization => mret authorization
                  end;
  _ ← liftS (requireExactAuthorization request authorization);
  verified ← perform (CVerifyLease recoveryFence 0);
  _ ← liftS (wrapped "verify live recovery scheduler fence: %w" verified);
  renewed ← invoke (renewFence request recoveryFence);
  _ ← liftS (wrapped "renew recovery scheduler fence: %w" renewed);
  run ← perform (CGetRun runID);
  run ← liftS (wrapped "load interrupted run: %w" run);
  attempt ← perform (CGetAttempt (rq_AttemptID request));
  attempt ← liftS (wrapped "load interrupted attempt: %w" attempt);
  _ ← modifyS (λ outcome, with_Run run (with_Attempt attempt outcome));
  _ ← liftS (fail_if (negb (bool_decide (r_RunID run = rq_RunID request)) ||
                      negb (bool_decide (r_Objective run = rq_Objective request)) ||
                      negb (bool_decide (a_AttemptID attempt = rq_AttemptID request)) ||
                      negb (bool_decide (a_RunID attempt = rq_RunID request)) ||
                      negb (bool_decide (a_Ordinal attempt = rq_AttemptOrdinal request)))
               (plain_error "interrupted state differs from immutable delivery approval"));
  _ ← liftS (fail_if (negb (bool_decide (a_LeaseResourceType attempt = k_ResourceType (lp_LeaseKey recoveryFence))) ||
                      negb (bool_decide (a_LeaseResourceID attempt = k_ResourceID (lp_LeaseKey recoveryFence))))
               (plain_error "recovery fence does not own the attempt scheduler resource"));
  mret (runID, run, attempt).

(** An attempt of another scheduler is settled only by fenced reconciliation. *)
Definition recover_reconcile (p : Pipeline) (request : DeliveryRequest) (recoveryFence : LeaseProof)
    (attempt : Attempt) : Stage Outcome Attempt :=
  if negb (unsettled (a_Status attempt) && negb (attemptOwnedByFence attempt recoveryFence)) then mret attempt else
  reconciled ← perform (CReconcile (metadata p request "attempt-recovery-reconcile") recoveryFence);
  _ ← liftS (wrapped "reconcile abandoned attempt: %w" reconciled);
  attempt ← perform (CGetAttempt (rq_AttemptID request));
  attempt ← liftS (wrapped "reload reconciled attempt: %w" attempt);
  _ ← modifyS (with_Attempt attempt);
  mret attempt.

(** The branch that an attempt's status and the run's state select. *)
Definition recover_settled (p : Pipeline) (request : DeliveryRequest) (recoveryFence : LeaseProof) (runID : RunID)
    (run : Run) (attempt : Attempt) (outcome : Outcome) : prog (Outcome * option error) :=
  let status := a_Status attempt in
  if (bool_decide (r_State run = StateCancelling) || bool_decide (r_State run = StateCancelled)) &&
     negb (unsettled status)
  then recoverCancellation p request runID run attempt outcome
  else if unsettled status then
    mret (outcome, Some (plain_error
      "attempt remains protected by its original live scheduler fence; process quiescence is not proven"))
  else if bool_decide (status = "failed_retryable") then failInterrupted p request runID run attempt outcome
  else if bool_decide (status = "cancelled") then
    if bool_decide (r_State run = StateCancelled) then recoverNonSuccess p request runID run attempt outcome
    else failInterrupted p request runID run attempt outcome
  else if bool_decide (status = "blocked") || bool_decide (status = "failed_terminal")
  then recoverNonSuccess p request runID run attempt outcome
  else if bool_decide (status = "succeeded")
  then resumeSucceeded p request recoveryFence runID run attempt outcome
  else if bool_decide (r_State run = StateCompleted) then replayCompleted request run attempt outcome
  else mret (outcome, Some (text_error "attempt status %q and Run state %q have no automatic recovery path"
                              [status; r_State run])).

Definition Recover (p : Pipeline) (request : DeliveryRequest) (recoveryFence : LeaseProof)
    : prog (Outcome * option error) :=
  '(r, outcome) ← ('(runID, run, attempt) ← recover_admit p request recoveryFence;
                   attempt ← recover_reconcile p request recoveryFence attempt;
                   mret (runID, run, attempt)) noOutcome;
  match r with
  | Err err => mret (outcome, Some err)
  | Ok (runID, run, attempt) => recover_settled p request recoveryFence runID run attempt outcome
  end.
End recovery.
