(* ===== verification/DeliveryProtocol.v ===== *)
(** * Package [internal/execution]: the protocol of a delivery

    What an observer of the calls of [Execute] can know at any point, and what it
    allows the pipeline to do then. Nothing here mentions the pipeline's variables:
    the protocol is the promise, [PipelineSafety] shows that [Execute] keeps it. *)

From S2P Require Import Prelude GoLib Fault Contracts Identity RunState LeasePaths Postgres DeliveryContracts.
From S2P Require Import ControlMemory AttemptRecords Leases LeaseSets DeliveryLeases PgTables PgEvents.
From S2P Require Import WorkerResults Attempts Authorizations Publications PublicationService.
From S2P Require Import Approval Programs LeaseGuard Pipeline PipelineRecovery.

(** ** What has been seen *)

Inductive progress :=
| Queued
| Started (attempt : Attempt)
| Finished (status : string).

(** How recent the renewals are: none since the last other call, the delivery set, or
    the delivery set and then the scheduler fence. *)
Inductive freshness := Stale | SetRenewed | BothRenewed.

Record history := mkHistory {
  (** An authorization that is exact for the request has been loaded. *)
  h_authorized : bool;
  (** The scheduler fence has been verified, and then renewed. *)
  h_verified : bool;
  h_fenced : bool;
  (** The delivery leases that are held, as the repository confirmed them last. *)
  h_leases : option LeaseSet;
  h_fresh : freshness;
  (** A guard is running; the last one that was stopped reported a loss. *)
  h_guard : bool;
  h_lost : bool;
  (** A worktree may exist that has not been quarantined. *)
  h_exposed : bool;
  h_worktree : option Worktree;
  h_attempt : progress;
  (** What the worker reported without an error. *)
  h_worker : option WorkerResult;
  (** The state the run was moved to last. *)
  h_run : string;
  h_commit : option CommitResult;
  h_bundle : option ValidationBundle;
  (** A publication may have been journaled and is not known to have ended. *)
  h_open : bool;
  (** A published receipt has come back. *)
  h_published : bool;
}.

Definition nothing_seen : history :=
  mkHistory false false false None Stale false false false None Queued None "" None None false false.

(** The renewals are old news after any other call. *)
Definition stale (h : history) : history :=
  mkHistory (h_authorized h) (h_verified h) (h_fenced h) (h_leases h) Stale (h_guard h) (h_lost h) (h_exposed h)
    (h_worktree h) (h_attempt h) (h_worker h) (h_run h) (h_commit h) (h_bundle h) (h_open h) (h_published h).

Definition saw_fence (verified fenced : bool) (fresh : freshness) (h : history) : history :=
  mkHistory (h_authorized h) verified fenced (h_leases h) fresh (h_guard h) (h_lost h) (h_exposed h)
    (h_worktree h) (h_attempt h) (h_worker h) (h_run h) (h_commit h) (h_bundle h) (h_open h) (h_published h).
Definition saw_leases (leases : option LeaseSet) (fresh : freshness) (h : history) : history :=
  mkHistory (h_authorized h) (h_verified h) (h_fenced h) leases fresh (h_guard h) (h_lost h) (h_exposed h)
    (h_worktree h) (h_attempt h) (h_worker h) (h_run h) (h_commit h) (h_bundle h) (h_open h) (h_published h).
Definition saw_guard (guard lost : bool) (h : history) : history :=
  mkHistory (h_authorized h) (h_verified h) (h_fenced h) (h_leases h) Stale guard lost (h_exposed h)
    (h_worktree h) (h_attempt h) (h_worker h) (h_run h) (h_commit h) (h_bundle h) (h_open h) (h_published h).
Definition saw_worktree (exposed : bool) (worktree : option Worktree) (h : history) : history :=
  mkHistory (h_authorized h) (h_verified h) (h_fenced h) (h_leases h) Stale (h_guard h) (h_lost h) exposed
    worktree (h_attempt h) (h_worker h) (h_run h) (h_commit h) (h_bundle h) (h_open h) (h_published h).
Definition saw_attempt (attempt : progress) (h : history) : history :=
  mkHistory (h_authorized h) (h_verified h) (h_fenced h) (h_leases h) Stale (h_guard h) (h_lost h) (h_exposed h)
    (h_worktree h) attempt (h_worker h) (h_run h) (h_commit h) (h_bundle h) (h_open h) (h_published h).
Definition saw_worker (worker : option WorkerResult) (h : history) : history :=
  mkHistory (h_authorized h) (h_verified h) (h_fenced h) (h_leases h) Stale (h_guard h) (h_lost h) (h_exposed h)
    (h_worktree h) (h_attempt h) worker (h_run h) (h_commit h) (h_bundle h) (h_open h) (h_published h).
Definition saw_run (run : string) (h : history) : history :=
  mkHistory (h_authorized h) (h_verified h) (h_fenced h) (h_leases h) Stale (h_guard h) (h_lost h) (h_exposed h)
    (h_worktree h) (h_attempt h) (h_worker h) run (h_commit h) (h_bundle h) (h_open h) (h_published h).
Definition saw_commit (commit : option CommitResult) (bundle : option ValidationBundle) (h : history) : history :=
  mkHistory (h_authorized h) (h_verified h) (h_fenced h) (h_leases h) Stale (h_guard h) (h_lost h) (h_exposed h)
    (h_worktree h) (h_attempt h) (h_worker h) (h_run h) commit bundle (h_open h) (h_published h).
Definition saw_publication (open published : bool) (h : history) : history :=
  mkHistory (h_authorized h) (h_verified h) (h_fenced h) (h_leases h) Stale (h_guard h) (h_lost h) (h_exposed h)
    (h_worktree h) (h_attempt h) (h_worker h) (h_run h) (h_commit h) (h_bundle h) open published.
Definition saw_authorization (h : history) : history :=
  mkHistory true (h_verified h) (h_fenced h) (h_leases h) Stale (h_guard h) (h_lost h) (h_exposed h)
    (h_worktree h) (h_attempt h) (h_worker h) (h_run h) (h_commit h) (h_bundle h) (h_open h) (h_published h).

Section protocol.
Context `{Sha256, DeliveryJson, Schemas, Json, !JsonCodec WorkerResult, !WorkerContracts}.
Context (request : DeliveryRequest) (fence : LeaseProof).

Definition see_authorization (answered : result (option DeliveryAuthorization)) (h : history) : history :=
  match answered with
  | Ok (Some authorization) =>
      match requireExactAuthorization request authorization with
      | Ok _ => saw_authorization h
      | Err _ => stale h
      end
  | _ => stale h
  end.

(** A worktree is out of the way once it is in quarantine, or when none was ever
    created for an attempt that did not start. *)
Definition see_quarantine (quarantineErr : option error) (h : history) : history :=
  match quarantineErr with
  | None => saw_worktree false (h_worktree h) h
  | Some _ =>
      match h_attempt h with
      | Queued => if IsWorktreeNotFound quarantineErr then saw_worktree false (h_worktree h) h else stale h
      | _ => stale h
      end
  end.

(** The journal settles a publication: no intent, or one that ended in conflict. *)
Definition see_journal (answered : result (option DeliveryPublication)) (h : history) : history :=
  match answered with
  | Ok None => saw_publication false (h_published h) h
  | Ok (Some record) =>
      if bool_decide (dp_State record = "conflict") then saw_publication false (h_published h) h else stale h
  | Err _ => stale h
  end.

Definition on_ok {A} (r : result A) (f : A → history) (h : history) : history :=
  match r with Ok a => f a | Err _ => stale h end.

Definition see (h : history) (c : call) : answer c → history :=
  match c return answer c → history with
  | CGetAuthorization _ _ => λ r, see_authorization r h
  | CVerifyLease _ _ => λ r, on_ok r (λ _, saw_fence true (h_fenced h) Stale h) h
  | CRenewLease _ _ _ _ => λ r, match r with
      | Ok _ => saw_fence (h_verified h) true
                  (match h_fresh h with SetRenewed => BothRenewed | _ => Stale end) h
      | Err _ => saw_fence (h_verified h) false Stale h
      end
  | CTransitionRun _ _ target _ => λ r, on_ok r (λ _, saw_run target h) h
  | CAcquireLeaseSet _ _ _ _ => λ r, on_ok r (λ leaseSet, saw_leases (Some leaseSet) Stale h) h
  | CRenewLeaseSet _ _ => λ r, match r.2 with
      | None => saw_leases (Some r.1) SetRenewed h
      | Some _ => stale h
      end
  | CReleaseLeaseSet _ => λ r, on_ok r (λ _, saw_leases None Stale h) h
  | CStartGuard _ _ _ _ => λ _, saw_guard true false h
  | CStopGuard => λ r, saw_leases (Some r.1) Stale (saw_guard false (bool_decide (is_Some r.2)) h)
  | CPrepare _ => λ r, saw_worktree true (match r with Ok worktree => Some worktree | Err _ => None end) h
  | CQuarantine _ => λ r, see_quarantine r.2 h
  | CStartAttempt _ _ _ _ => λ r, on_ok r (λ attempt, saw_attempt (Started attempt) h) h
  | CFinishAttempt _ _ result _ _ => λ r, on_ok r (λ _, saw_attempt (Finished (wr_Status result)) h) h
  | CWorker _ => λ r, saw_worker (match r.2 with None => Some r.1 | Some _ => None end) h
  | CCreateResultCommit _ => λ r, on_ok r (λ commit, saw_commit (Some commit) None h) h
  | CValidate _ _ => λ r, on_ok r (λ bundle, saw_commit (h_commit h) (Some bundle) h) h
  | CPublish _ _ _ _ => λ r, saw_publication true (bool_decide (receipt_status r.1 = "published")) h
  | CGetPublication _ _ => λ r, see_journal r h
  | _ => λ _, stale h
  end.

(** ** What is allowed *)

(** The attempt has ended, nothing of it is exposed, its leases are gone, and no
    publication of it can still complete. *)
Definition wound_up (h : history) : Prop :=
  (∃ status, h_attempt h = Finished status) ∧ h_exposed h = false ∧ h_leases h = None ∧ h_guard h = false ∧
  h_open h = false ∧ h_published h = false.

Definition may_transition (h : history) (target : State) : Prop :=
  (target = StatePreparing ∧ h_authorized h = true ∧ h_verified h = true ∧ h_fenced h = true) ∨
  (target = StateRunning ∧ (∃ attempt, h_attempt h = Started attempt) ∧ h_guard h = true) ∨
  (target = StateValidating ∧ h_attempt h = Finished "succeeded" ∧ is_Some (h_commit h) ∧ h_guard h = true) ∨
  (target ∈ [StateValidating; StateAwaitingDecision] ∧ h_attempt h = Finished "blocked" ∧ wound_up h) ∨
  (target = StateCancelled ∧ h_attempt h = Finished "cancelled" ∧ wound_up h) ∨
  (target ∈ [StateFailedRetryable; StateFailedTerminal] ∧ wound_up h) ∨
  (target = StateCompleted ∧ h_published h = true).

Definition may (h : history) (c : call) : Prop :=
  match c with
  | CGetAuthorization d a | CGetPublication d a => d = rq_DeliveryID request ∧ a = rq_AttemptID request
  | CGetRun id => id = rq_RunID request
  | CGetAttempt id => id = rq_AttemptID request
  | CCause | CNow => True
  | CVerifyLease f _ => f = fence
  | CRenewLease key owner token _ =>
      key = lp_LeaseKey fence ∧ owner = lp_OwnerID fence ∧ token = lp_FencingToken fence
  | CTransitionRun runID _ target md =>
      runID = rq_RunID request ∧ CorrelationID md = rq_DeliveryID request ∧ may_transition h target
  | CAcquireLeaseSet id keys _ ttl =>
      id = rq_AttemptID request ∧ delivery_keys request = Ok keys ∧ ttl = leaseTTL request ∧
      h_authorized h = true ∧ h_run h = StatePreparing ∧ h_leases h = None
  | CRenewLeaseSet leaseSet ttl => h_leases h = Some leaseSet ∧ ttl = leaseTTL request ∧ h_guard h = false
  | CReleaseLeaseSet _ =>
      is_Some (h_leases h) ∧ h_exposed h = false ∧ h_guard h = false ∧ h_open h = false ∧ h_published h = false
  | CStartGuard f leaseSet ttl interval =>
      f = fence ∧ h_leases h = Some leaseSet ∧ h_fresh h = BothRenewed ∧ h_guard h = false ∧
      ttl = leaseTTL request ∧ interval = deliveryHeartbeatInterval ttl
  | CStopGuard => h_guard h = true
  | CPrepare r =>
      r = request ∧ h_authorized h = true ∧ h_fenced h = true ∧ is_Some (h_leases h) ∧ h_guard h = true ∧
      h_run h = StatePreparing ∧ h_attempt h = Queued
  | CQuarantine r => r = request ∧ h_exposed h = true ∧ h_guard h = false ∧ h_open h = false ∧ h_published h = false
  | CStartAttempt id _ _ f =>
      id = rq_AttemptID request ∧ f = fence ∧ h_attempt h = Queued ∧ h_guard h = true ∧ is_Some (h_worktree h)
  | CFinishAttempt id version result _ f =>
      f = fence ∧
      (∃ attempt, h_attempt h = Started attempt ∧ id = a_AttemptID attempt ∧ version = a_Version attempt) ∧
      (wr_Status result = "succeeded" →
         h_worker h = Some result ∧ h_guard h = false ∧ h_lost h = false ∧
         validateWorkerResult request result = Ok tt)
  | CWorker task =>
      h_authorized h = true ∧ h_guard h = true ∧ is_Some (h_leases h) ∧ h_run h = StateRunning ∧
      (∃ attempt, h_attempt h = Started attempt) ∧
      (∃ worktree, h_worktree h = Some worktree ∧ task = workerTaskFrom request worktree)
  | CCreateResultCommit r =>
      r = request ∧ h_attempt h = Finished "succeeded" ∧ h_guard h = true ∧ h_exposed h = true
  | CValidate r commit =>
      r = request ∧ h_commit h = Some commit ∧ h_run h = StateValidating ∧ h_guard h = true ∧ h_exposed h = true
  | CPublish r commit bundle leaseSet =>
      r = request ∧ h_authorized h = true ∧ h_attempt h = Finished "succeeded" ∧ h_run h = StateValidating ∧
      h_commit h = Some commit ∧ h_bundle h = Some bundle ∧ vr_Status (vb_Report bundle) = "passed" ∧
      h_leases h = Some leaseSet ∧ h_fresh h = BothRenewed ∧ h_guard h = false ∧ h_lost h = false ∧
      h_open h = false
  | CGetLeaseSet _ | CReconcile _ _ | CLoad _ | CRecover _ _ _ => False
  end.

(** What an observer may conclude from the result. *)
Definition delivered (answered : Outcome * option error) (h : history) : Prop :=
  h_guard h = false ∧
  (answered.2 = None → h_published h = true ∧ h_run h = StateCompleted) ∧
  (h_exposed h = true → h_published h = false → is_Some (h_leases h)).
End protocol.

(** * The protocol of a recovery

    What an observer of the calls of [Recover] knows, and what it allows. A recovery
    starts nothing: it reads what an interrupted delivery left behind, waits until no
    process of the attempt can be running, and then finishes or cleans up. *)

(** ** What has been seen *)

Record sight := mkSight {
  s_authorized : bool;
  s_verified : bool;
  s_fenced : bool;
  (** The attempt as it was read last, unless a reconciliation may have changed it since;
      the state of the run as it was answered last. *)
  s_attempt : option Attempt;
  s_run : string;
  (** The lease set, as it was loaded or renewed last. *)
  s_leases : option LeaseSet;
  s_fresh : freshness;
  s_guard : bool;
  s_lost : bool;
  (** The journal as it was read last, unless a publication was tried since. *)
  s_journal : option (option DeliveryPublication);
  (** The worktree is in quarantine or was never created. *)
  s_away : bool;
  s_commit : option CommitResult;
  s_bundle : option ValidationBundle;
  (** A published receipt came back; the run is completed. *)
  s_published : bool;
  s_completed : bool;
}.

Definition nothing_known : sight :=
  mkSight false false false None "" None Stale false false None false None None false false.

Definition aged (s : sight) : sight :=
  mkSight (s_authorized s) (s_verified s) (s_fenced s) (s_attempt s) (s_run s) (s_leases s) Stale (s_guard s)
    (s_lost s) (s_journal s) (s_away s) (s_commit s) (s_bundle s) (s_published s) (s_completed s).
Definition knew_approval (s : sight) : sight :=
  mkSight true (s_verified s) (s_fenced s) (s_attempt s) (s_run s) (s_leases s) Stale (s_guard s)
    (s_lost s) (s_journal s) (s_away s) (s_commit s) (s_bundle s) (s_published s) (s_completed s).
Definition knew_fence (verified fenced : bool) (fresh : freshness) (s : sight) : sight :=
  mkSight (s_authorized s) verified fenced (s_attempt s) (s_run s) (s_leases s) fresh (s_guard s)
    (s_lost s) (s_journal s) (s_away s) (s_commit s) (s_bundle s) (s_published s) (s_completed s).
Definition knew_attempt (attempt : Attempt) (s : sight) : sight :=
  mkSight (s_authorized s) (s_verified s) (s_fenced s) (Some attempt) (s_run s) (s_leases s) Stale (s_guard s)
    (s_lost s) (s_journal s) (s_away s) (s_commit s) (s_bundle s) (s_published s) (s_completed s).
Definition forgot_attempt (s : sight) : sight :=
  mkSight (s_authorized s) (s_verified s) (s_fenced s) None (s_run s) (s_leases s) Stale (s_guard s)
    (s_lost s) (s_journal s) (s_away s) (s_commit s) (s_bundle s) (s_published s) (s_completed s).
Definition knew_run (run : string) (completed : bool) (s : sight) : sight :=
  mkSight (s_authorized s) (s_verified s) (s_fenced s) (s_attempt s) run (s_leases s) Stale (s_guard s)
    (s_lost s) (s_journal s) (s_away s) (s_commit s) (s_bundle s) (s_published s) completed.
Definition knew_leases (leases : option LeaseSet) (fresh : freshness) (away : bool) (s : sight) : sight :=
  mkSight (s_authorized s) (s_verified s) (s_fenced s) (s_attempt s) (s_run s) leases fresh (s_guard s)
    (s_lost s) (s_journal s) away (s_commit s) (s_bundle s) (s_published s) (s_completed s).
Definition knew_guard (guard lost : bool) (s : sight) : sight :=
  mkSight (s_authorized s) (s_verified s) (s_fenced s) (s_attempt s) (s_run s) (s_leases s) Stale guard
    lost (s_journal s) (s_away s) (s_commit s) (s_bundle s) (s_published s) (s_completed s).
Definition knew_journal (journal : option (option DeliveryPublication)) (published : bool) (s : sight) : sight :=
  mkSight (s_authorized s) (s_verified s) (s_fenced s) (s_attempt s) (s_run s) (s_leases s) Stale (s_guard s)
    (s_lost s) journal (s_away s) (s_commit s) (s_bundle s) published (s_completed s).
Definition knew_result (commit : option CommitResult) (bundle : option ValidationBundle) (s : sight) : sight :=
  mkSight (s_authorized s) (s_verified s) (s_fenced s) (s_attempt s) (s_run s) (s_leases s) Stale (s_guard s)
    (s_lost s) (s_journal s) (s_away s) commit bundle (s_published s) (s_completed s).

Section protocol.
Context `{Sha256, DeliveryJson, Schemas}.
Context (request : DeliveryRequest) (fence : LeaseProof).

Definition on_success {A} (r : result A) (f : A → sight) (s : sight) : sight :=
  match r with Ok a => f a | Err _ => aged s end.

(** An attempt for which no worktree can exist: the run never left preparation, or the
    attempt was given up without having started. *)
Definition never_started (s : sight) : bool :=
  bool_decide (s_run s = StatePreparing) ||
  match s_attempt s with
  | Some attempt => bool_decide (a_StartedAt attempt = None) && bool_decide (a_Status attempt = "failed_retryable")
  | None => false
  end.

Definition watch (s : sight) (c : call) : answer c → sight :=
  match c return answer c → sight with
  | CGetAuthorization _ _ => λ r, match r with
      | Ok (Some authorization) =>
          match requireExactAuthorization request authorization with Ok _ => knew_approval s | Err _ => aged s end
      | _ => aged s
      end
  | CVerifyLease _ _ => λ r, on_success r (λ _, knew_fence true (s_fenced s) Stale s) s
  | CRenewLease _ _ _ _ => λ r, match r with
      | Ok _ => knew_fence (s_verified s) true (match s_fresh s with SetRenewed => BothRenewed | _ => Stale end) s
      | Err _ => knew_fence (s_verified s) false Stale s
      end
  | CGetRun _ => λ r, on_success r (λ run, knew_run (r_State run) (bool_decide (r_State run = StateCompleted)) s) s
  | CTransitionRun _ _ target _ => λ r,
      on_success r (λ run, knew_run (r_State run) (bool_decide (target = StateCompleted)) s) s
  | CGetAttempt _ => λ r, match r with Ok attempt => knew_attempt attempt s | Err _ => forgot_attempt s end
  | CReconcile _ _ => λ _, forgot_attempt s
  | CGetLeaseSet _ => λ r, on_success r (λ loaded, match loaded with
      | Some (leaseSet, _) => knew_leases (Some leaseSet) Stale (s_away s) s
      | None => knew_leases None Stale true s
      end) s
  | CRenewLeaseSet _ _ => λ r, match r.2 with
      | None => knew_leases (Some r.1) SetRenewed (s_away s) s
      | Some _ => aged s
      end
  | CStartGuard _ _ _ _ => λ _, knew_guard true false s
  | CStopGuard => λ r,
      knew_leases (Some r.1) Stale (s_away s) (knew_guard false (bool_decide (is_Some r.2)) s)
  | CGetPublication _ _ => λ r, on_success r (λ journal, knew_journal (Some journal) (s_published s) s) s
  | CQuarantine _ => λ r, match r.2 with
      | None => knew_leases (s_leases s) Stale true s
      | Some _ => if IsWorktreeNotFound r.2 && never_started s then knew_leases (s_leases s) Stale true s else aged s
      end
  | CCreateResultCommit _ => λ r, on_success r (λ commit, knew_result (Some commit) None s) s
  | CLoad _ | CValidate _ _ => λ r, on_success r (λ bundle, knew_result (s_commit s) (Some bundle) s) s
  | CPublish _ _ _ _ | CRecover _ _ _ => λ r,
      knew_journal None (bool_decide (receipt_status r.1 = "published")) s
  | _ => λ _, aged s
  end.

(** ** What is allowed *)

(** The recovery is approved and fenced. *)
Definition entitled (s : sight) : Prop := s_authorized s = true ∧ s_verified s = true ∧ s_fenced s = true.

(** An attempt of which no process can be running: neither queued nor running. *)
Definition at_rest (status : string) : Prop := status ≠ "queued" ∧ status ≠ "running".

(** No process of the attempt can be running any more. *)
Definition quiet (status : string) (s : sight) : Prop :=
  entitled s ∧ at_rest status ∧ ∃ attempt, s_attempt s = Some attempt ∧ a_Status attempt = status.

(** The journal was read and holds no publication that is under way or done. *)
Definition journal_ended (s : sight) : Prop :=
  ∃ journal, s_journal s = Some journal ∧
    ∀ record, journal = Some record → dp_State record ≠ "prepared" ∧ dp_State record ≠ "published".

Definition allowed_transition (s : sight) (target : State) : Prop :=
  (target = StateValidating ∧ quiet "succeeded" s ∧ s_run s = StateRunning) ∨
  (target ∈ [StateValidating; StateAwaitingDecision] ∧ quiet "blocked" s ∧ s_away s = true) ∨
  (target = StateCancelled ∧ (∃ status, quiet status s) ∧ s_run s = StateCancelling ∧ s_away s = true) ∨
  (target ∈ [StateFailedRetryable; StateFailedTerminal] ∧ (∃ status, quiet status s) ∧ s_away s = true) ∨
  (target = StateCompleted ∧ quiet "succeeded" s ∧ s_published s = true).

Definition allowed (s : sight) (c : call) : Prop :=
  match c with
  | CGetAuthorization d a => d = rq_DeliveryID request ∧ a = rq_AttemptID request
  | CVerifyLease f _ => f = fence ∧ s_authorized s = true
  | CRenewLease key owner token _ =>
      key = lp_LeaseKey fence ∧ owner = lp_OwnerID fence ∧ token = lp_FencingToken fence ∧ s_verified s = true
  | CGetRun id => id = rq_RunID request ∧ entitled s
  | CGetAttempt id => id = rq_AttemptID request ∧ entitled s
  | CGetLeaseSet id => id = rq_AttemptID request ∧ ∃ status, quiet status s
  | CGetPublication d a => d = rq_DeliveryID request ∧ a = rq_AttemptID request ∧ ∃ status, quiet status s
  | CReconcile _ f =>
      f = fence ∧ entitled s ∧ ∃ attempt, s_attempt s = Some attempt ∧ ¬ at_rest (a_Status attempt) ∧
        attemptOwnedByFence attempt fence = false ∧
        a_LeaseResourceType attempt = k_ResourceType (lp_LeaseKey fence) ∧
        a_LeaseResourceID attempt = k_ResourceID (lp_LeaseKey fence)
  | CQuarantine r => r = request ∧ s_guard s = false ∧ ∃ status, quiet status s ∧
      (status = "succeeded" → s_run s ∈ [StateCancelling; StateCancelled] ∨ journal_ended s)
  | CReleaseLeaseSet _ => (∃ status, quiet status s) ∧ s_away s = true ∧ s_guard s = false
  | CRenewLeaseSet leaseSet ttl =>
      quiet "succeeded" s ∧ s_leases s = Some leaseSet ∧ ttl = leaseTTL request ∧ s_guard s = false
  | CStartGuard f leaseSet ttl interval =>
      f = fence ∧ quiet "succeeded" s ∧ s_leases s = Some leaseSet ∧ s_fresh s = BothRenewed ∧ s_guard s = false ∧
      ttl = leaseTTL request ∧ interval = deliveryHeartbeatInterval ttl
  | CStopGuard => s_guard s = true
  | CCreateResultCommit r => r = request ∧ quiet "succeeded" s ∧ s_guard s = true ∧ s_journal s = Some None
  | CLoad r => r = request ∧ quiet "succeeded" s ∧ s_journal s = Some None
  | CValidate r commit =>
      r = request ∧ quiet "succeeded" s ∧ s_guard s = true ∧ s_journal s = Some None ∧ s_commit s = Some commit
  | CPublish r commit bundle leaseSet =>
      r = request ∧ quiet "succeeded" s ∧ s_journal s = Some None ∧ s_commit s = Some commit ∧
      s_bundle s = Some bundle ∧ vr_Status (vb_Report bundle) = "passed" ∧ s_leases s = Some leaseSet ∧
      s_fresh s = BothRenewed ∧ s_guard s = false ∧ s_lost s = false
  | CRecover r commit _ =>
      r = request ∧ (∃ status, quiet status s ∧ (status = "succeeded" ∨ s_completed s = true)) ∧
      s_guard s = false ∧ ∃ record, s_journal s = Some (Some record) ∧ commitFromPublication record = Ok commit
  | CTransitionRun runID _ target _ => runID = rq_RunID request ∧ allowed_transition s target
  | CPrepare _ | CWorker _ | CStartAttempt _ _ _ _ | CFinishAttempt _ _ _ _ _ | CAcquireLeaseSet _ _ _ _
  | CCause | CNow => False
  end.

(** What an observer may conclude from the result. *)
Definition recovered (answered : Outcome * option error) (s : sight) : Prop :=
  s_guard s = false ∧ (answered.2 = None → s_published s = true ∧ s_completed s = true).
End protocol.
