(* ===== verification/PipelineSafety.v ===== *)
(** * Package [internal/execution]: [Execute] keeps the protocol of a delivery

    [linked] ties the pipeline's variables to what an observer has seen; every stage
    preserves it and makes only calls the protocol allows. *)

From S2P Require Import Prelude GoLib Fault Contracts Identity RunState LeasePaths Postgres DeliveryContracts.
From S2P Require Import ControlMemory AttemptRecords Leases LeaseSets DeliveryScopes DeliveryLeases PgTables PgEvents.
From S2P Require Import WorkerResults Attempts Authorizations Publications PublicationService.
From S2P Require Import Approval Programs LeaseGuard Pipeline DeliveryProtocol.

(** One step of a stage: bind, the steps without a call, and a call whose permission
    is left as the first goal. *)
Ltac stage_step :=
  lazymatch goal with
  | |- stage_ok _ _ (mbind _ _) _ _ _ => apply stage_ok_bind
  | |- stage_ok _ _ (mret _) _ _ _ => apply stage_ok_ret
  | |- stage_ok _ _ (readS _) _ _ _ => apply stage_ok_read
  | |- stage_ok _ _ (modifyS _) _ _ _ => apply stage_ok_modify
  | |- stage_ok _ _ (throwS _) _ _ _ => apply stage_ok_throw
  | |- stage_ok _ _ (liftS _) _ _ _ => apply stage_ok_lift
  | |- stage_ok _ _ (returnS _ _) _ _ _ => apply stage_ok_return; intros ?
  end; cbv beta iota zeta.
Ltac stage_steps := cbv beta iota zeta; repeat stage_step.

Section safety.
Context `{Sha256, DeliveryJson, Schemas, Json, !JsonCodec WorkerResult, !WorkerContracts}.
Context (p : Pipeline) (request : DeliveryRequest) (fence : LeaseProof).

Abbreviation may := (may request fence).
Abbreviation see := (see request).
Abbreviation ok := (stage_ok may see).

(** ** The variables and the history *)

Record linked (l : locals) (h : history) : Prop := {
  lk_guard : lc_guard l = h_guard h;
  lk_exposed : lc_prepared l = h_exposed h;
  lk_started : lc_attemptStarted l = match h_attempt h with Queued => false | _ => true end;
  lk_terminal : lc_attemptTerminal l = true → ∃ status, h_attempt h = Finished status;
  lk_owned : lc_leaseOwned l = match h_leases h with Some _ => true | None => false end;
  lk_held : h_exposed h = true → is_Some (h_leases h);
  lk_guarded : h_guard h = true → is_Some (h_leases h);
}.

(** Nothing has been published and no cleanup has taken place. *)
Record working (l : locals) (h : history) : Prop := {
  wk_linked : linked l h;
  wk_open : h_open h = false;
  wk_published : h_published h = false;
  wk_started : lc_publicationStarted l = false;
  wk_managed : lc_cleanupManaged l = false;
}.

(** How a stage leaves things behind when it returns early: for the deferred cleanup,
    or with nothing left for it to do. *)
Definition settled (l : locals) (h : history) : Prop :=
  (lc_publicationStarted l || lc_cleanupManaged l = true ∧ h_guard h = false ∧
   (h_exposed h = true → h_published h = false → is_Some (h_leases h))) ∨ working l h.

Lemma working_settled l h : working l h → settled l h.
Proof. by right. Qed.

Lemma linked_stale l h : linked l h → linked l (stale h).
Proof. intros []. by split. Qed.

(** Both sides computed: what is left is read off the hypotheses. *)
Ltac tidy := cbn in *; try first [done | congruence | (intros; simplify_eq; eauto 3; done)].

(** ** Cleanup *)

(** What cleaning up changes of the history, and what it keeps. *)
Record cleaned (l l' : locals) (h h' : history) (err : option error) : Prop := {
  cl_linked : linked l' h';
  cl_guard : h_guard h' = false;
  cl_attempt : h_attempt h' = h_attempt h;
  cl_open : h_open h' = false;
  cl_published : h_published h' = false;
  cl_terminal : lc_attemptTerminal l' = lc_attemptTerminal l;
  cl_publication : lc_publicationStarted l' = lc_publicationStarted l;
  cl_managed : lc_cleanupManaged l' = lc_cleanupManaged l || bool_decide (err = None);
  cl_done : err = None → h_exposed h' = false ∧ h_leases h' = None;
}.

Lemma stopGuard_ok l h (Q : result (option error) → locals → history → Prop) :
  h_guard h = true →
  (∀ current err, Q (Ok err) (set_leaseSet current (set_guard false l))
     (saw_leases (Some current) Stale (saw_guard false (bool_decide (is_Some err)) h))) →
  ok stopGuard l h Q.
Proof.
  intros Hg HQ. unfold stopGuard. stage_step. apply stage_ok_perform; [exact Hg|]. intros [current err].
  stage_steps. apply HQ.
Qed.

Lemma linked_stopped l h current (err : option error) :
  linked l h → h_guard h = true →
  linked (set_leaseSet current (set_guard false l))
    (saw_leases (Some current) Stale (saw_guard false (bool_decide (is_Some err)) h)).
Proof. intros [Lg Le Ls Lt Lo Lh Lr] Hg. split; tidy. rewrite Lo. by destruct (Lr Hg) as [? ->]. Qed.

Lemma quarantineAttempt_ok l h (Q : result (option error) → locals → history → Prop) :
  linked l h → h_guard h = false → h_open h = false → h_published h = false →
  (∀ err l' h', linked l' h' → h_guard h' = false → h_attempt h' = h_attempt h → h_open h' = false →
     h_published h' = false → h_leases h' = h_leases h → lc_attemptTerminal l' = lc_attemptTerminal l →
     lc_publicationStarted l' = lc_publicationStarted l → lc_cleanupManaged l' = lc_cleanupManaged l →
     (err = None → h_exposed h' = false) → Q (Ok err) l' h') →
  ok (quarantineAttempt request) l h Q.
Proof.
  intros Hl Hg Ho Hp HQ. unfold quarantineAttempt. stage_steps.
  destruct (lc_prepared l) eqn:Hprep; cbn [negb]; [|stage_steps; apply HQ; try done; destruct Hl; congruence].
  pose proof Hl as [Lg Le Ls Lt Lo Lh Lr].
  stage_step. apply stage_ok_perform; [cbn; split_and!; try done; congruence|]. intros [quarantine err].
  stage_steps. rewrite Ls.
  destruct (IsWorktreeNotFound err && _) eqn:Hnf.
  - apply andb_true_iff in Hnf as [Hnf Hs]. destruct err as [err|]; [|done].
    destruct (h_attempt h) eqn:Ha; try done. stage_steps. unfold DeliveryProtocol.see, see_quarantine.
    cbn [snd]. rewrite Ha, Hnf. apply HQ; [split; cbn; rewrite ?Ha; tidy|..]; tidy.
  - destruct err as [err|]; stage_steps; unfold DeliveryProtocol.see, see_quarantine; cbn [snd].
    + assert ((match h_attempt h with Queued => if IsWorktreeNotFound (Some err) then saw_worktree false (h_worktree h) h
                else stale h | _ => stale h end) = stale h) as ->.
      { destruct (h_attempt h); try done. rewrite andb_true_r in Hnf. by rewrite Hnf. }
      apply HQ; [split|..]; tidy.
    + apply HQ; [split|..]; tidy.
Qed.

Lemma releaseOwned_ok l h (Q : result (option error) → locals → history → Prop) :
  linked l h → h_guard h = false → h_open h = false → h_published h = false →
  (∀ err l' h', linked l' h' → h_guard h' = false → h_attempt h' = h_attempt h → h_open h' = false →
     h_published h' = false → h_exposed h' = h_exposed h → lc_attemptTerminal l' = lc_attemptTerminal l →
     lc_publicationStarted l' = lc_publicationStarted l → lc_cleanupManaged l' = lc_cleanupManaged l →
     (err = None → h_exposed h = false → h_leases h' = None) → Q (Ok err) l' h') →
  ok releaseOwned l h Q.
Proof.
  intros Hl Hg Ho Hp HQ. pose proof Hl as [Lg Le Ls Lt Lo Lh Lr]. unfold releaseOwned. stage_steps.
  destruct (lc_leaseOwned l) eqn:Hown, (lc_prepared l) eqn:Hprep; cbn [andb negb].
  - stage_steps. apply HQ; try done. congruence.
  - destruct (h_leases h) as [held|] eqn:Hheld; [|done]. stage_steps.
    apply stage_ok_perform; [cbn; split_and!; done|]. intros [[]|err]; stage_steps; apply HQ; [split|..]; tidy.
    by apply linked_stale.
  - stage_steps. destruct (h_leases h) as [held|] eqn:Hheld; [done|]. by apply HQ.
  - stage_steps. destruct (h_leases h) as [held|] eqn:Hheld; [done|]. by apply HQ.
Qed.

Lemma cleanup_tail_ok l h (guardErr : option error) l0 h0 Q :
  linked l h → h_guard h = false → h_open h = false → h_published h = false →
  h_attempt h = h_attempt h0 → lc_attemptTerminal l = lc_attemptTerminal l0 →
  lc_publicationStarted l = lc_publicationStarted l0 → lc_cleanupManaged l = lc_cleanupManaged l0 →
  (∀ err l' h', cleaned l0 l' h0 h' err → Q (Ok err) l' h') →
  ok (quarantineErr ← quarantineAttempt request;
      releaseErr ← releaseOwned;
      let cleanupErr := Join_errors [Join_errors [guardErr; quarantineErr]; releaseErr] in
      _ ← (match cleanupErr with None => modifyS set_cleanupManaged | Some _ => mret tt end);
      mret cleanupErr) l h Q.
Proof.
  intros Hl Hg Ho Hp Ha Ht Hs Hm HQ. stage_step. apply quarantineAttempt_ok; [done..|].
  intros qerr l1 h1 Hl1 Hg1 Ha1 Ho1 Hp1 Hls1 Ht1 Hs1 Hm1 Hq1. stage_step. apply releaseOwned_ok; [done..|].
  intros rerr l2 h2 Hl2 Hg2 Ha2 Ho2 Hp2 He2 Ht2 Hs2 Hm2 Hr2. stage_step.
  destruct (Join_errors _) eqn:Hj; stage_steps; apply HQ.
  - split; try done; [congruence..|]. rewrite Hm2, Hm1, Hm. by rewrite orb_false_r.
  - split; try done; [by destruct Hl2|cbn; congruence..|cbn; by rewrite orb_true_r|].
    intros _. destruct guardErr, qerr, rerr; try done. split; [cbn; rewrite He2|apply Hr2; [done|]]; by apply Hq1.
Qed.

Lemma cleanup_ok l h Q :
  linked l h → h_open h = false → h_published h = false →
  (∀ err l' h', cleaned l l' h h' err → Q (Ok err) l' h') → ok (cleanup request) l h Q.
Proof.
  intros Hl Ho Hp HQ. unfold cleanup. stage_steps. rewrite (lk_guard _ _ Hl).
  destruct (h_guard h) eqn:Hg; cbn [negb].
  - apply stopGuard_ok; [done|]. intros current err.
    apply cleanup_tail_ok with l h; try done. by apply linked_stopped.
  - stage_step. by apply cleanup_tail_ok with l h.
Qed.

(** A cleaned attempt that has ended is wound up. *)
Lemma cleaned_wound_up l l' h h' :
  cleaned l l' h h' None → (∃ status, h_attempt h = Finished status) → wound_up h'.
Proof. intros [] ?. destruct cl_done0; [done|]. unfold wound_up. rewrite cl_attempt0. done. Qed.

(** After a cleanup nothing is left for the deferred one, or it may try again. *)
Lemma cleaned_settled l l' h h' err : working l h → cleaned l l' h h' err → settled l' h'.
Proof.
  intros [_ _ _ Hs Hm] []. destruct err as [err|]; [right|left].
  - split; [done..|congruence|]. by rewrite cl_managed0, Hm.
  - split_and!; [|done|]; [by rewrite cl_managed0, orb_true_r, orb_true_r|]. intros He _. by apply (lk_held _ _ cl_linked0).
Qed.

(** ** Steps of [Execute] *)

Lemma transition_ok run target stage h (Q : result Run → history → Prop) :
  may_transition h target →
  (∀ run, Q (Ok run) (saw_run target h)) → (∀ e, Q (Err e) (stale h)) →
  always may see (transition p request (rq_RunID request) run target stage) h Q.
Proof. intros Hm Hok Herr. cbn. split; [done|]. intros [run'|e]; cbn; auto. Qed.

Lemma transitionRun_ok target stage l h (Q : result (option error) → locals → history → Prop) :
  may_transition h target →
  (∀ run, Q (Ok None) (set_run run l) (saw_run target h)) →
  (∀ e, Q (Ok (Some e)) (set_run zeroRun l) (stale h)) →
  ok (transitionRun p request (rq_RunID request) target stage) l h Q.
Proof.
  intros Hm Hok Herr. unfold transitionRun. stage_steps. apply stage_ok_invoke.
  apply transition_ok; [done|..]; intros; stage_steps; [apply Hok|apply Herr].
Qed.

(** Moving a run touches neither side of [linked]. *)
Lemma settled_stale l h : settled l h → settled l (stale h).
Proof. intros [?|[[] ? ? ? ?]]; [by left|right]. by split. Qed.
Lemma settled_saw_run l h target : settled l h → settled l (saw_run target h).
Proof. intros [?|[[] ? ? ? ?]]; [by left|right]. by split. Qed.
Lemma settled_outcome l h f : settled l h → settled (on_outcome f l) h.
Proof. intros [?|[[] ? ? ? ?]]; [by left|right]. by split. Qed.

Lemma failAfterCleanup_ok target stage l h Q :
  working l h → target ∈ [StateFailedRetryable; StateFailedTerminal] →
  (∀ err l' h', settled l' h' → Q (Ok err) l' h') →
  ok (failAfterCleanup p request (rq_RunID request) target stage) l h Q.
Proof.
  intros Hw Ht HQ. pose proof Hw as [Hl Ho Hp _ _]. unfold failAfterCleanup. stage_step.
  apply cleanup_ok; [done..|]. intros err l' h' Hc. pose proof (cleaned_settled _ _ _ _ _ Hw Hc).
  destruct err as [err|]; stage_steps; [by apply HQ|]. destruct (lc_attemptTerminal l') eqn:Hterm; cbn [negb].
  - stage_steps. apply stage_ok_invoke. unfold failRun. apply always_bind. apply transition_ok.
    + unfold may_transition. do 5 right. left. split; [done|]. apply (cleaned_wound_up _ _ _ _ Hc).
      apply (lk_terminal _ _ Hl). by rewrite <-(cl_terminal _ _ _ _ _ Hc).
    + intros run. by apply HQ, settled_saw_run.
    + intros e. by apply HQ, settled_stale.
  - stage_steps. by apply HQ.
Qed.

Lemma abandon_ok {A} target stage err errs l h (Q : result A → locals → history → Prop) :
  working l h → target ∈ [StateFailedRetryable; StateFailedTerminal] →
  (∀ e l' h', settled l' h' → Q (Err e) l' h') →
  ok (abandon p request (rq_RunID request) target stage err errs) l h Q.
Proof.
  intros Hw Ht HQ. unfold abandon. stage_step. apply failAfterCleanup_ok; [done..|].
  intros ferr l' h' Hs. stage_steps. by apply HQ.
Qed.

(** The facts of [working] for a state computed from one where it holds. *)
Ltac still_working Hw :=
  let Hl := fresh in pose proof Hw as [Hl ? ? ? ?]; destruct Hl;
  split; [split|..]; tidy; repeat case_match; simplify_eq; try done; try congruence;
  try match goal with T : ?P → ∃ _, _ = Finished _ |- ?P → _ => intros E; destruct (T E); congruence end.

Lemma recordRun_ok l h (Q : result unit → locals → history → Prop) :
  Q (Ok tt) (on_outcome (with_Run (lc_run l)) l) h → ok recordRun l h Q.
Proof. done. Qed.

Lemma renewBoth_ok t1 s1 t2 s2 l h (Q : result unit → locals → history → Prop) :
  working l h → h_leases h = Some (lc_leaseSet l) → h_guard h = false →
  (∀ leaseSet, Q (Ok tt) (set_leaseSet leaseSet l)
     (saw_fence (h_verified h) true BothRenewed (saw_leases (Some leaseSet) SetRenewed h))) →
  (∀ e l' h', settled l' h' → Q (Err e) l' h') →
  ok (renewBoth p request fence (rq_RunID request) t1 s1 t2 s2) l h Q.
Proof.
  intros Hw Hls Hg Hok Herr. unfold renewBoth. stage_steps. apply stage_ok_perform; [done|]. intros [renewed [e|]].
  - stage_steps. apply abandon_ok; [|by left|done]. still_working Hw.
  - stage_steps. apply stage_ok_invoke. split; [done|]. intros [lease|e]; cbn [always see].
    + stage_steps. apply Hok.
    + stage_steps. apply abandon_ok; [|by left|done]. still_working Hw.
Qed.

Lemma startGuard_ok l h (Q : result unit → locals → history → Prop) :
  h_leases h = Some (lc_leaseSet l) → h_guard h = false → h_fresh h = BothRenewed →
  Q (Ok tt) (set_guard true l) (saw_guard true false h) → ok (startGuard request fence) l h Q.
Proof.
  intros Hls Hg Hf HQ. unfold startGuard. stage_steps. apply stage_ok_perform; [done|]. intros []. by stage_steps.
Qed.

(** Nothing but the outcome, the run or the age of the renewals changed. *)
Lemma working_outcome l h f : working l h → working (on_outcome f l) h.
Proof. intros [[] ? ? ? ?]. by repeat split. Qed.
Lemma working_set_run l h run : working l h → working (set_run run l) h.
Proof. intros [[] ? ? ? ?]. by repeat split. Qed.
Lemma working_stale l h : working l h → working l (stale h).
Proof. intros [[] ? ? ? ?]. by repeat split. Qed.
Lemma working_saw_run l h target : working l h → working l (saw_run target h).
Proof. intros [[] ? ? ? ?]. by repeat split. Qed.

(** ** Admission *)

Lemma authorize_run runID : authorize p request fence = Ok runID → runID = rq_RunID request.
Proof.
  unfold authorize. intros ([tenant repository] & _ & (_ & _ & (_ & _ & Hp%wrapped_ok)%res_bind_ok)%res_bind_ok)%res_bind_ok.
  unfold ParseRunID in Hp. case_match; by simplify_eq.
Qed.

Lemma approved_attempt run attempt :
  validateApprovedState request run attempt fence = Ok tt → a_AttemptID attempt = rq_AttemptID request.
Proof.
  unfold validateApprovedState. intros (_ & _ & Hf)%res_bind_ok. unfold fail_if in Hf. case_match; [done|].
  repeat match goal with E : _ || _ = false |- _ => apply orb_false_iff in E as [? ?] end.
  match goal with E : negb (bool_decide (a_AttemptID _ = _)) = false |- _ =>
    by apply negb_false_iff, bool_decide_eq_true in E end.
Qed.

(** The request is approved and the fence is live; nothing has been changed. *)
Record admitted (l : locals) (h : history) : Prop := {
  ad_working : working l h;
  ad_authorized : h_authorized h = true;
  ad_verified : h_verified h = true;
  ad_fenced : h_fenced h = true;
  ad_leases : h_leases h = None;
  ad_guard : h_guard h = false;
  ad_exposed : h_exposed h = false;
  ad_attempt : h_attempt h = Queued;
}.

(** An early return before anything was done. *)
Definition untouched (l : locals) (h : history) : Prop :=
  h_guard h = false ∧ h_exposed h = false.

Lemma execute_admit_ok Q :
  (∀ attempt l h, admitted l h → a_AttemptID attempt = rq_AttemptID request →
     Q (Ok (rq_RunID request, attempt)) l h) →
  (∀ e l h, untouched l h → Q (Err e) l h) →
  ok (execute_admit p request fence) no_locals nothing_seen Q.
Proof.
  intros Hok Herr. unfold execute_admit. stage_steps.
  destruct (wrapped _ _); [|by apply Herr]. stage_steps.
  destruct (authorize _ _ _) eqn:Hrun; [|by apply Herr]. apply authorize_run in Hrun as ->.
  stage_steps. apply stage_ok_perform; [done|]. intros [[authorization|]|e]; cbn [wrapped]; stage_steps; try by apply Herr.
  destruct (requireExactAuthorization _ _) eqn:Hexact; cbn [DeliveryProtocol.see see_authorization]; rewrite Hexact;
    [|by apply Herr].
  stage_steps. apply stage_ok_perform; [done|]. intros [run|e]; cbn [wrapped]; stage_steps; [|by apply Herr].
  apply stage_ok_perform; [done|]. intros [attempt|e]; cbn [wrapped]; stage_steps; [|by apply Herr].
  destruct (validateApprovedState _ _ _ _) as [[]|] eqn:Hv; [|by apply Herr]. apply approved_attempt in Hv.
  stage_step. apply recordRun_ok. stage_steps. apply stage_ok_perform; [done|].
  intros [lease|e]; cbn [wrapped]; stage_steps; [|by apply Herr].
  apply stage_ok_invoke. split; [done|]. intros [renewed|e]; cbn [always wrapped]; stage_steps; [|by apply Herr].
  apply Hok; [|done]. by repeat split.
Qed.

(** The run is claimed and the delivery leases are held. *)
Record acquired (l : locals) (h : history) : Prop := {
  aq_working : working l h;
  aq_authorized : h_authorized h = true;
  aq_leases : h_leases h = Some (lc_leaseSet l);
  aq_guard : h_guard h = false;
  aq_exposed : h_exposed h = false;
  aq_attempt : h_attempt h = Queued;
  aq_run : h_run h = StatePreparing;
}.

Lemma execute_acquire_ok l h Q :
  admitted l h → (∀ l h, acquired l h → Q (Ok tt) l h) → (∀ e l h, untouched l h → Q (Err e) l h) →
  ok (execute_acquire p request (rq_RunID request)) l h Q.
Proof.
  intros [Hw Ha Hv Hf Hls Hg He Hq] Hok Herr. unfold execute_acquire. stage_step.
  apply transitionRun_ok; [by left| |by intros e; stage_steps; apply Herr]. intros run. stage_steps.
  apply recordRun_ok. stage_steps. apply stage_ok_invoke. unfold acquire.
  destruct (delivery_keys request) eqn:Hk; [|by apply Herr]. split; [done|].
  intros [leaseSet|e]; cbn [always wrapped]; stage_steps; [|by apply Herr]. apply Hok.
  split; cbn; try done. still_working Hw.
Qed.

(** ** The worktree and the attempt *)

(** The attempt has started in its worktree, under a guard. *)
Record dispatched (worktree : Worktree) (attempt : Attempt) (l : locals) (h : history) : Prop := {
  dp_working : working l h;
  dp_authorized : h_authorized h = true;
  dp_guard : h_guard h = true;
  dp_exposed : h_exposed h = true;
  dp_worktree : h_worktree h = Some worktree;
  dp_attempt : h_attempt h = Started attempt;
  dp_run : h_run h = StateRunning;
}.

Lemma finishAttempt_ok attempt result stage h (Q : Fault.result Attempt → history → Prop) :
  h_attempt h = Started attempt →
  (wr_Status result = "succeeded" → h_worker h = Some result ∧ h_guard h = false ∧ h_lost h = false ∧
     validateWorkerResult request result = Ok tt) →
  (∀ finished, Q (Ok finished) (saw_attempt (Finished (wr_Status result)) h)) →
  (∀ e, Q (Err e) (stale h)) →
  always may see (finishAttempt p request attempt result fence stage) h Q.
Proof.
  intros Ha Hs Hok Herr. split; [by cbn; eauto 6|]. intros [finished|e]; [apply Hok|apply Herr].
Qed.

Lemma failure_ok reason h (Q : WorkerResult → history → Prop) :
  (∀ failure, wr_Status failure = "failed_retryable" → Q failure (stale h)) →
  always may see (canonicalInfrastructureFailure request reason) h Q.
Proof. intros HQ. split; [done|]. intros now. by apply HQ. Qed.

(** An attempt is finished with an infrastructure failure. *)
Lemma working_finished l h attempt status :
  working l h → h_attempt h = Started attempt →
  working (set_attemptTerminal l) (saw_attempt (Finished status) h).
Proof. intros Hw Ha. still_working Hw. Qed.

Lemma working_stopped l h current (err : option error) :
  h_guard h = true → working l h → working (set_leaseSet current (set_guard false l))
    (saw_leases (Some current) Stale (saw_guard false (bool_decide (is_Some err)) h)).
Proof. intros Hg [Hl ? ? ? ?]. split; try done. by apply linked_stopped. Qed.

Lemma execute_not_running_ok attempt err l h Q :
  working l h → h_attempt h = Started attempt →
  (∀ e l' h', settled l' h' → Q (Err e) l' h') →
  ok (execute_not_running p request fence (rq_RunID request) attempt err) l h Q.
Proof.
  intros Hw Ha Herr. unfold execute_not_running. stage_steps. apply stage_ok_invoke, failure_ok. intros failure Hf.
  stage_steps. apply stage_ok_invoke, finishAttempt_ok; [done|congruence| |].
  - intros finished. stage_steps. apply abandon_ok; [|by left|done].
    apply working_outcome. by eapply working_finished; [by apply working_outcome, working_stale|].
  - intros e. stage_steps. by apply Herr, working_settled, working_stale, working_outcome, working_stale.
Qed.

Lemma execute_prepare_ok attempt l h Q :
  acquired l h → a_AttemptID attempt = rq_AttemptID request →
  (∀ worktree attempt l h, dispatched worktree attempt l h → Q (Ok (worktree, attempt)) l h) →
  (∀ e l' h', settled l' h' → Q (Err e) l' h') →
  ok (execute_prepare p request fence (rq_RunID request) attempt) l h Q.
Proof.
  intros [Hw Hau Hls Hg He Hq Hr] Hid Hok Herr. unfold execute_prepare. stage_step.
  apply renewBoth_ok; [done..| |done]. intros leaseSet. stage_step. apply startGuard_ok; [done..|].
  stage_steps. apply stage_ok_perform; [done|]. set (h1 := saw_guard _ _ _). set (l1 := set_prepared _ _).
  assert (working l1 (saw_worktree true (h_worktree h1) h1)) as Hw1 by still_working Hw.
  intros [worktree|e]; stage_steps; [|apply abandon_ok; [|by left|done]; still_working Hw1].
  apply stage_ok_perform; [by cbn; eauto 6|].
  intros [started|e]; stage_steps; [|apply abandon_ok; [|by left|done]; still_working Hw1].
  apply transitionRun_ok; [right; left; cbn; eauto 6| |].
  - intros run. stage_steps. apply recordRun_ok. stage_steps. apply Hok. split; try done. still_working Hw1.
  - intros e. stage_steps. apply execute_not_running_ok; [|done|done]. still_working Hw1.
Qed.

(** ** The worker *)

Lemma stale_id h : h_fresh h = Stale → stale h = h.
Proof. by destruct h; cbn; intros ->. Qed.

(** A success that is recorded is what the worker reported, with no error on any side. *)
Lemma settle_worker_ok r e g h (Q : WorkerResult * option error → history → Prop) :
  h_fresh h = Stale →
  (∀ r' e', (wr_Status r' = "succeeded" → r' = r ∧ e = None ∧ g = None) → Q (r', e') h) →
  always may see (settle_worker request r e g) h Q.
Proof.
  intros Hf HQ. unfold settle_worker. destruct g as [g|].
  - apply always_bind, failure_ok. intros failure Hs. rewrite stale_id by done. apply HQ. congruence.
  - case_match eqn:Hc.
    + apply always_bind, failure_ok. intros failure Hs. rewrite stale_id by done. apply HQ. congruence.
    + apply HQ. intros Hs. rewrite Hs in Hc. split_and!; [done| |done]. by destruct e.
Qed.

Lemma settle_cancelled_ok r e l h (Q : result (WorkerResult * option error) → locals → history → Prop) :
  h_fresh h = Stale → working l h →
  (∀ r' e' l', working l' h → lc_leaseSet l' = lc_leaseSet l →
     (wr_Status r' = "succeeded" → r' = r) → Q (Ok (r', e')) l' h) →
  ok (settle_cancelled request (rq_RunID request) r e) l h Q.
Proof.
  intros Hf Hw HQ. unfold settle_cancelled. case_match; [stage_steps; by apply HQ|]. stage_steps.
  apply stage_ok_perform; [done|]. intros currentRun. cbn [DeliveryProtocol.see]. rewrite stale_id by done.
  assert (∀ err, ok (failure ← invoke (canonicalInfrastructureFailure request "telemetry_failure");
    mret (failure, Join_errors [e; Some (Errorf (Lit "worker cancellation lacks durable governed Run cancellation: %w") err)]))
    l h Q) as Hun.
  { intros err. stage_steps. apply stage_ok_invoke, failure_ok. intros failure Hs. rewrite stale_id by done. stage_steps.
    apply HQ; [done..|congruence]. }
  destruct currentRun as [run|err]; [|apply Hun]. cbv beta iota zeta. case_match; [apply Hun|]. stage_steps. apply recordRun_ok.
  stage_steps. apply HQ; [by apply working_outcome, working_set_run|done..].
Qed.

Lemma close_run_ok run target stage outcome h (P : history → Prop) :
  may_transition h target → P (saw_run target h) → P (stale h) →
  always may see (close_run p request (rq_RunID request) run target stage outcome) h (λ _, P).
Proof. intros Hm Hok Herr. apply always_bind. by apply transition_ok. Qed.

Lemma completeNonSuccess_ok run status outcome h (P : history → Prop) :
  h_attempt h = Finished status → wound_up h → P h →
  (∀ h target, P h → P (saw_run target h)) → (∀ h, P h → P (stale h)) →
  always may see (completeNonSuccess p request (rq_RunID request) run status outcome) h (λ _, P).
Proof.
  intros Ha Hu HP Hsaw Hst. unfold completeNonSuccess. case_match eqn:Hs1.
  - apply bool_decide_eq_true in Hs1 as ->.
    assert (∀ run h, h_attempt h = Finished "blocked" → wound_up h → P h → always may see
      (if bool_decide (r_State run = StateAwaitingDecision) then mret (None, with_Run run outcome)
       else if negb (bool_decide (r_State run = StateValidating))
       then mret (Some (text_error "blocked attempt cannot close Run state %q" [r_State run]), outcome)
       else close_run p request (rq_RunID request) run StateAwaitingDecision "worker-blocked" outcome) h (λ _, P)) as Hclose.
    { intros run' h' Ha' Hu' HP'. repeat case_match; [done..|]. apply close_run_ok; [|auto..].
      do 3 right. left. split; [first [by left|by right; left]|done]. }
    apply always_bind. case_match; [|by apply Hclose]. apply transition_ok; [|intros; by apply Hclose; auto|by intros; apply Hst].
    do 3 right. left. split; [first [by left|by right; left]|done].
  - case_match eqn:Hs2.
    + apply bool_decide_eq_true in Hs2 as ->. repeat case_match; [done..|]. apply close_run_ok; [|auto..].
      do 4 right. by left.
    + repeat case_match; try done; (apply close_run_ok; [|auto..]; do 5 right; left; split; [first [by left|by right; left]|done]).
Qed.

Lemma execute_non_success_ok status workerErr l h Q :
  working l h → h_attempt h = Finished status → (∀ e l' h', settled l' h' → Q (Err e) l' h') →
  ok (execute_non_success p request (rq_RunID request) status workerErr) l h Q.
Proof.
  intros Hw Ha Herr. pose proof Hw as [Hl Ho Hp _ _]. unfold execute_non_success. stage_step.
  apply cleanup_ok; [done..|]. intros err l' h' Hc. pose proof (cleaned_settled _ _ _ _ _ Hw Hc) as Hs.
  destruct err as [err|]; stage_steps; [by apply Herr|]. apply stage_ok_invoke.
  eapply always_mono; [apply (completeNonSuccess_ok _ _ _ _ (settled l'))|].
  - by rewrite (cl_attempt _ _ _ _ _ Hc).
  - apply (cleaned_wound_up _ _ _ _ Hc). by eauto.
  - done.
  - intros. by apply settled_saw_run.
  - intros. by apply settled_stale.
  - intros [closeErr outcome] h'' Hs'. stage_steps. by apply Herr, settled_outcome.
Qed.

Lemma execute_invalid_ok attempt workerErr err l h Q :
  working l h → h_attempt h = Started attempt → (∀ e l' h', settled l' h' → Q (Err e) l' h') →
  ok (execute_invalid p request fence (rq_RunID request) attempt workerErr err) l h Q.
Proof.
  intros Hw Ha Herr. unfold execute_invalid. stage_steps. apply stage_ok_invoke, failure_ok. intros failure Hf.
  stage_steps. apply stage_ok_invoke, finishAttempt_ok; [done|congruence| |].
  - intros finished. stage_steps. apply abandon_ok; [|by left|done].
    apply working_outcome. by eapply working_finished; [by apply working_outcome, working_stale|].
  - intros e. stage_steps. by apply Herr, working_settled, working_stale, working_outcome, working_stale.
Qed.

(** The attempt succeeded; its worktree is still there, its leases are held. *)
Record succeeded (l : locals) (h : history) : Prop := {
  sc_working : working l h;
  sc_authorized : h_authorized h = true;
  sc_leases : h_leases h = Some (lc_leaseSet l);
  sc_guard : h_guard h = false;
  sc_exposed : h_exposed h = true;
  sc_attempt : h_attempt h = Finished "succeeded";
}.

Lemma execute_worker_ok worktree attempt l h Q :
  dispatched worktree attempt l h →
  (∀ l h, succeeded l h → Q (Ok tt) l h) → (∀ e l' h', settled l' h' → Q (Err e) l' h') →
  ok (execute_worker p request fence (rq_RunID request) worktree attempt) l h Q.
Proof.
  intros [Hw Hau Hg He Hwt Ha Hr] Hok Herr. unfold execute_worker. stage_step.
  pose proof (lk_guarded _ _ (wk_linked _ _ Hw) Hg) as Hheld.
  apply stage_ok_perform; [cbn [DeliveryProtocol.may]; split_and!; [done..|by eexists|by eexists]|]. intros [result workerErr].
  stage_step. apply stopGuard_ok; [done|]. intros current guardErr. stage_step.
  set (h1 := saw_leases _ _ _). set (l1 := set_leaseSet _ _).
  assert (working l1 h1) as Hw1 by still_working Hw.
  apply stage_ok_invoke, settle_worker_ok; [done|]. intros r1 e1 Hr1. stage_step.
  apply settle_cancelled_ok; [done..|]. intros r2 e2 l2 Hw2 Hls2 Hr2. stage_steps.
  destruct (validateWorkerResult request r2) as [[]|] eqn:Hval;
    [|apply execute_invalid_ok; [by apply working_outcome|done|done]].
  stage_steps. apply stage_ok_invoke, finishAttempt_ok; [done| | |].
  - intros Hs. pose proof (Hr2 Hs) as ->. destruct (Hr1 Hs) as (-> & -> & ->). done.
  - intros finished. stage_steps.
    assert (∀ f, working (on_outcome f (set_attemptTerminal (on_outcome (with_Worker r2) l2)))
              (saw_attempt (Finished (wr_Status r2)) h1)) as Hw3.
    { intros f. apply working_outcome. eapply working_finished; [by apply working_outcome|done]. }
    destruct guardErr as [guardErr|]; [by apply abandon_ok; [|by left|]|].
    case_match eqn:Hc; [by apply execute_non_success_ok|]. stage_steps. apply Hok.
    apply orb_false_iff in Hc as [_ Hc]. apply negb_false_iff, bool_decide_eq_true in Hc.
    split; [done|done|cbn; by rewrite Hls2|done|done|cbn; by rewrite Hc].
  - intros e. stage_steps. by apply Herr, working_settled, working_stale, working_outcome.
Qed.

(** ** The commit and its validation *)

Record validated (commit : CommitResult) (bundle : ValidationBundle) (l : locals) (h : history) : Prop := {
  vd_working : working l h;
  vd_authorized : h_authorized h = true;
  vd_guard : h_guard h = true;
  vd_exposed : h_exposed h = true;
  vd_attempt : h_attempt h = Finished "succeeded";
  vd_run : h_run h = StateValidating;
  vd_commit : h_commit h = Some commit;
  vd_bundle : h_bundle h = Some bundle;
  vd_passed : vr_Status (vb_Report bundle) = "passed";
}.

Lemma execute_no_commit_ok err l h Q :
  working l h → h_guard h = true → (∀ e l' h', settled l' h' → Q (Err e) l' h') →
  ok (execute_no_commit p request (rq_RunID request) err) l h Q.
Proof.
  intros Hw Hg Herr. unfold execute_no_commit. stage_step. apply stage_ok_perform; [done|]. intros cause. stage_step.
  apply stopGuard_ok; [done|]. intros current heartbeatErr. 
  apply abandon_ok; [by apply working_stopped, working_stale| |done].
  case_match; [by left|by right; left].
Qed.

Lemma execute_rejected_ok status l h Q :
  working l h → (∃ s, h_attempt h = Finished s) → (∀ e l' h', settled l' h' → Q (Err e) l' h') →
  ok (execute_rejected p request (rq_RunID request) status) l h Q.
Proof.
  intros Hw Ha Herr. pose proof Hw as [Hl Ho Hp _ _]. unfold execute_rejected. stage_step.
  apply cleanup_ok; [done..|]. intros err l' h' Hc. pose proof (cleaned_settled _ _ _ _ _ Hw Hc) as Hs.
  destruct err as [err|]; stage_steps; [by apply Herr|]. apply stage_ok_invoke, transition_ok.
  - do 5 right. left. split; [by right; left|]. by apply (cleaned_wound_up _ _ _ _ Hc).
  - intros run. stage_steps. by apply Herr, settled_outcome, settled_saw_run.
  - intros e. stage_steps. by apply Herr, settled_stale.
Qed.

Lemma execute_validate_ok l h Q :
  succeeded l h →
  (∀ commit bundle l h, validated commit bundle l h → Q (Ok (commit, bundle)) l h) →
  (∀ e l' h', settled l' h' → Q (Err e) l' h') →
  ok (execute_validate p request fence (rq_RunID request)) l h Q.
Proof.
  intros [Hw Hau Hls Hg He Ha] Hok Herr. unfold execute_validate. stage_step.
  apply renewBoth_ok; [done..| |done]. intros leaseSet. stage_step. apply startGuard_ok; [done..|].
  stage_steps. apply stage_ok_perform; [done|]. set (h1 := saw_guard _ _ _). set (l1 := set_guard _ _).
  assert (working l1 (stale h1)) as Hw1 by still_working Hw.
  intros [commit|e]; stage_steps; [|by apply execute_no_commit_ok].
  assert (∀ f, working (on_outcome f l1) (saw_commit (Some commit) None h1)) as Hw2 by (intros f; still_working Hw1).
  apply transitionRun_ok; [do 2 right; left; cbn; eauto 6| |].
  2: { intros e. stage_steps. by apply Herr, working_settled, working_set_run, working_stale. }
  intros run. stage_steps. apply recordRun_ok. stage_steps. apply stage_ok_perform; [done|].
  set (l2 := on_outcome (with_Run _) _). set (h2 := saw_run _ _).
  assert (working l2 h2) as Hw3 by by apply working_outcome, working_set_run, working_saw_run.
  intros [bundle|e]; stage_steps.
  - assert (∀ f, working (on_outcome f l2) (saw_commit (Some commit) (Some bundle) h2)) as Hw4
      by (intros f; still_working Hw3).
    case_match eqn:Hpass; [apply execute_rejected_ok; [done|by eexists|done]|].
    apply negb_false_iff, bool_decide_eq_true in Hpass. stage_steps. by apply Hok.
  - by apply abandon_ok; [apply working_stale|left|].
Qed.

(** ** Publication *)

Lemma terminate_ok run leaseSet stage t1 t2 outcome status h (Q : Outcome * option error → history → Prop) :
  h_attempt h = Finished status → h_guard h = false → h_open h = false → h_published h = false →
  h_exposed h = true → is_Some (h_leases h) →
  (∀ a h', h_guard h' = false → (h_exposed h' = true → is_Some (h_leases h')) → Q a h') →
  always may see (terminate p request (rq_RunID request) run leaseSet true stage t1 t2 outcome) h Q.
Proof.
  intros Ha Hg Ho Hp He Hls HQ. split; [done|]. intros [quarantine [err|]].
  - cbn. rewrite Ha. by apply HQ.
  - split; [done|]. intros [[]|err]; [|by apply HQ]. apply always_bind, transition_ok.
    + do 5 right. left. split; [by right; left|]. split; [|done]. by exists status.
    + intros run'. by apply HQ.
    + intros e. by apply HQ.
Qed.

Lemma execute_unpublished_ok publicationErr l h Q :
  linked l h → lc_publicationStarted l = false → lc_cleanupManaged l = false →
  h_guard h = false → h_published h = false → h_exposed h = true → h_attempt h = Finished "succeeded" →
  (∀ e l' h', settled l' h' → Q (Err e) l' h') →
  ok (execute_unpublished p request (rq_RunID request) publicationErr) l h Q.
Proof.
  intros Hl Hs Hm Hg Hp He Ha Herr. unfold execute_unpublished. stage_step. apply stage_ok_perform; [done|].
  assert (∀ l h', lc_publicationStarted l = true → h_guard h' = false → h_exposed h' = h_exposed h →
    h_leases h' = h_leases h → settled l h') as Hstop.
  { intros l' h' Hs' Hg' He' Hls'. left. rewrite Hs', Hls'. split_and!; [done..|]. intros. by apply (lk_held _ _ Hl). }
  intros [[record|]|e]; stage_steps.
  - cbn [DeliveryProtocol.see see_journal]. case_match; stage_steps; [|by apply Herr, Hstop].
    apply stage_ok_invoke. unfold terminatePublicationConflict.
    apply (terminate_ok _ _ _ _ _ _ "succeeded"); [done..|by apply (lk_held _ _ Hl)|].
    intros [o err] h' Hg' Hh'. stage_steps. apply Herr. left. split_and!; [done|done|]. by auto.
  - apply failAfterCleanup_ok; [|by left|].
    + destruct Hl. by split.
    + intros err l' h' Hs'. stage_steps. by apply Herr.
  - by apply Herr, Hstop.
Qed.

(** A delivery that reports no error. *)
Definition completed (h : history) : Prop :=
  h_guard h = false ∧ h_published h = true ∧ h_run h = StateCompleted.

Lemma execute_publish_ok commit bundle l h Q :
  validated commit bundle l h → (∀ l h, completed h → Q (Ok tt) l h) →
  (∀ e l' h', settled l' h' → Q (Err e) l' h') →
  ok (execute_publish p request fence (rq_RunID request) commit bundle) l h Q.
Proof.
  intros [Hw Hau Hg He Ha Hr Hc Hb Hpass] Hok Herr. unfold execute_publish. stage_step.
  apply stopGuard_ok; [done|]. intros current heartbeatErr.
  pose proof (working_stopped _ _ current heartbeatErr Hg Hw) as Hw1.
  destruct heartbeatErr as [err|]; cbv beta iota zeta; [by apply abandon_ok; [|left|]|stage_step].
  apply renewBoth_ok; [done..| |done]. intros leaseSet. set (h1 := saw_fence _ _ _ _). set (l1 := set_leaseSet leaseSet _).
  assert (working l1 h1) as Hw2 by still_working Hw1.
  stage_steps. apply stage_ok_perform; [cbn; split_and!; try done; apply (wk_open _ _ Hw)|]. intros [publication publicationErr]. stage_steps.
  case_match eqn:Hpub.
  - apply negb_true_iff in Hpub. pose proof Hw2 as [[] ? ? ? ?].
    apply execute_unpublished_ok; try done.
  - apply negb_false_iff in Hpub. stage_steps. apply transitionRun_ok.
    + do 6 right. cbn in Hpub |- *. by rewrite Hpub.
    + intros run. stage_steps. apply recordRun_ok. stage_steps. destruct (Join_errors _); stage_steps.
      * apply Herr. left. split_and!; [done..|]. cbn in Hpub |- *. by rewrite Hpub.
      * apply Hok. split_and!; [done| |done]. cbn in Hpub |- *. by rewrite Hpub.
    + intros e. stage_steps. destruct publicationErr; stage_steps; apply Herr; left;
        (split_and!; [done..|]; cbn in Hpub |- *; by rewrite Hpub).
Qed.

(** ** The whole of [Execute] *)

Lemma deferred_ok (body : Stage locals unit) l h Q :
  ok body l h (λ r l' h', match r with Ok _ => completed h' | Err _ => settled l' h' end) →
  (∀ l h, completed h → Q (Ok tt) l h) →
  (∀ e l h, h_guard h = false → (h_exposed h = true → h_published h = false → is_Some (h_leases h)) → Q (Err e) l h) →
  ok (with_deferred_cleanup request body) l h Q.
Proof.
  intros Hb Hok Herr. unfold stage_ok, with_deferred_cleanup. apply always_bind.
  eapply always_mono; [exact Hb|]. intros [[[]|e] l'] h'; cbv beta iota; [by apply Hok|].
  intros [(Hm & Hg & Hx)|Hw].
  - rewrite Hm. by apply Herr.
  - rewrite (wk_started _ _ Hw), (wk_managed _ _ Hw). cbn [orb]. apply always_bind.
    pose proof Hw as [Hl Ho Hp _ _]. 
    eapply always_mono; [apply (cleanup_ok l' h' (λ r l2 h2, ∃ err, r = Ok err ∧ cleaned l' l2 h' h2 err)); [done..|eauto]|].
    intros [r l2] h2 (err & -> & Hc). apply Herr; [apply Hc|]. intros. by apply (lk_held _ _ (cl_linked _ _ _ _ _ Hc)).
Qed.

Lemma execute_delivery_ok attempt l h :
  acquired l h → a_AttemptID attempt = rq_AttemptID request →
  ok (execute_delivery p request fence (rq_RunID request) attempt) l h
    (λ r l' h', match r with Ok _ => completed h' | Err _ => settled l' h' end).
Proof.
  intros Hq Hid. unfold execute_delivery. stage_step. apply execute_prepare_ok; [done..| |done].
  intros worktree started l1 h1 H1'. stage_step. apply (execute_worker_ok _ _ _ _ _ H1'); [|done].
  intros l2 h2 H2'. stage_step. apply (execute_validate_ok _ _ _ H2'); [|done].
  intros commit bundle l3 h3 H3'. by apply (execute_publish_ok _ _ _ _ _ H3').
Qed.

(** Every call of [Execute] is one the protocol allows, and its result is what an
    observer may conclude. *)
Lemma Execute_always : always may see (Execute p request fence) nothing_seen delivered.
Proof.
  unfold Execute. apply always_bind.
  assert (ok (execute_stages p request fence) no_locals nothing_seen
    (λ r l h, h_guard h = false ∧ (r = Ok tt → completed h) ∧
       (h_exposed h = true → h_published h = false → is_Some (h_leases h)))) as Hs.
  { unfold execute_stages. stage_step. apply execute_admit_ok; [|by intros e l h [? He]; rewrite He].
    intros attempt l h Had Hid. stage_step. apply (execute_acquire_ok _ _ _ Had); [|by intros e ? ? [? He]; rewrite He].
    intros l1 h1 Hq. apply deferred_ok; [by apply execute_delivery_ok| |by intros; split_and!].
    intros l2 h2 Hc. split_and!; [apply Hc|done|]. intros _. destruct Hc as (_ & Hp & _). congruence. }
  eapply always_mono; [exact Hs|]. intros [[[]|e] l] h (Hg & Hc & Hx); cbn; (split_and!; [done| |done]).
  - intros _. by destruct Hc.
  - done.
Qed.
End safety.
