(* ===== verification/PipelineProperties.v ===== *)
(** * Package [internal/execution]: what a delivery guarantees

    The protocol of [DeliveryProtocol] read as statements on the calls of a run of
    [Execute]: whatever the services answer, in every run. *)

From S2P Require Import Prelude GoLib Fault Contracts Identity RunState LeasePaths Postgres DeliveryContracts.
From S2P Require Import ControlMemory AttemptRecords Leases LeaseSets DeliveryLeases PgTables PgEvents.
From S2P Require Import WorkerResults Attempts Authorizations Publications PublicationService.
From S2P Require Import Approval Programs LeaseGuard Pipeline DeliveryProtocol PipelineSafety.

(** ** What the calls of a delivery show

    The history of the protocol is an abbreviation: each of its entries stands for a
    call that was made and for the answer it got. *)

Section traces.
Context `{Sha256, DeliveryJson, Schemas, Json, !JsonCodec WorkerResult, !WorkerContracts}.
Context (request : DeliveryRequest) (fence : LeaseProof).

Abbreviation may := (may request fence).
Abbreviation see := (see request).

(** The human approval of exactly this request was loaded. *)
Definition approved (tr : list event) : Prop :=
  ∃ authorization,
    mkEvent (CGetAuthorization (rq_DeliveryID request) (rq_AttemptID request)) (Ok (Some authorization)) ∈ tr ∧
    requireExactAuthorization request authorization = Ok tt.

(** The worker reported this, without an error. *)
Definition reported (result : WorkerResult) (tr : list event) : Prop :=
  ∃ task, mkEvent (CWorker task) (result, None) ∈ tr.

(** The attempt of the request was durably started under the fence. *)
Definition started (attempt : Attempt) (tr : list event) : Prop :=
  ∃ version md, mkEvent (CStartAttempt (rq_AttemptID request) version md fence) (Ok attempt) ∈ tr.

(** The attempt that was started was recorded as ended with this result, under the fence. *)
Definition recorded (result : WorkerResult) (tr : list event) : Prop :=
  ∃ attempt md finished, started attempt tr ∧
    mkEvent (CFinishAttempt (a_AttemptID attempt) (a_Version attempt) result md fence) (Ok finished) ∈ tr.

Definition moved (target : State) (tr : list event) : Prop :=
  ∃ version md run, mkEvent (CTransitionRun (rq_RunID request) version target md) (Ok run) ∈ tr.

(** The delivery leases, and then the scheduler fence, were renewed just now. *)
Definition set_renewed (leaseSet : LeaseSet) (tr : list event) : Prop :=
  ∃ tr' old, tr = tr' ++ [mkEvent (CRenewLeaseSet old (leaseTTL request)) (leaseSet, None)].
Definition both_renewed (leaseSet : LeaseSet) (tr : list event) : Prop :=
  ∃ tr' ttl lease, set_renewed leaseSet tr' ∧
    tr = tr' ++ [mkEvent (CRenewLease (lp_LeaseKey fence) (lp_OwnerID fence) (lp_FencingToken fence) ttl) (Ok lease)].

Record told (h : history) (tr : list event) : Prop := {
  td_authorized : h_authorized h = true → approved tr;
  td_started : ∀ attempt, h_attempt h = Started attempt → started attempt tr;
  td_finished : ∀ status, h_attempt h = Finished status →
    ∃ result, recorded result tr ∧ wr_Status result = status ∧
      (status = "succeeded" → reported result tr ∧ validateWorkerResult request result = Ok tt);
  td_worker : ∀ result, h_worker h = Some result → reported result tr;
  td_worktree : ∀ worktree, h_worktree h = Some worktree → mkEvent (CPrepare request) (Ok worktree) ∈ tr;
  td_commit : ∀ commit, h_commit h = Some commit → mkEvent (CCreateResultCommit request) (Ok commit) ∈ tr;
  td_bundle : ∀ bundle, h_bundle h = Some bundle →
    ∃ commit, h_commit h = Some commit ∧ mkEvent (CValidate request commit) (Ok bundle) ∈ tr;
  td_run : h_run h ≠ "" → moved (h_run h) tr;
  td_published : h_published h = true → ∃ commit bundle leaseSet publication publicationErr,
    mkEvent (CPublish request commit bundle leaseSet) (publication, publicationErr) ∈ tr ∧
    receipt_status publication = "published";
  td_fresh : match h_fresh h with
             | Stale => True
             | SetRenewed => ∃ leaseSet, h_leases h = Some leaseSet ∧ set_renewed leaseSet tr
             | BothRenewed => ∃ leaseSet, h_leases h = Some leaseSet ∧ both_renewed leaseSet tr
             end;
}.

(** More calls show more. *)
Lemma told_stale h tr e : told h tr → told (stale h) (tr ++ [e]).
Proof.
  intros []. split; cbn; try done.
  - intros ?. destruct td_authorized0 as (? & ? & ?); [done|]. eexists. rewrite elem_of_app. eauto.
  - intros ? (? & ? & ?)%td_started0. do 2 eexists. rewrite elem_of_app. eauto.
  - intros ? (result & (attempt & md & finished & (? & ? & ?) & ?) & ? & Hs)%td_finished0. exists result.
    split_and!; [exists attempt, md, finished; split; [do 2 eexists|]; rewrite elem_of_app; eauto|done|].
    intros [[task ?] ?]%Hs. split; [|done]. exists task. rewrite elem_of_app. eauto.
  - intros ? [? ?]%td_worker0. eexists. rewrite elem_of_app. eauto.
  - intros ? ?. rewrite elem_of_app. eauto.
  - intros ? ?. rewrite elem_of_app. eauto.
  - intros ? (? & ? & ?)%td_bundle0. eexists. rewrite elem_of_app. eauto.
  - intros (? & ? & ? & ?)%td_run0. do 3 eexists. rewrite elem_of_app. eauto.
  - intros (? & ? & ? & ? & ? & ? & ?)%td_published0. do 5 eexists. rewrite elem_of_app. eauto.
Qed.

Lemma elem_of_snoc (tr : list event) e : e ∈ tr ++ [e].
Proof. set_solver. Qed.

Lemma told_step h tr c (r : answer c) : may h c → told h tr → told (see h c r) (tr ++ [mkEvent c r]).
Proof.
  intros Hm Ht. pose proof (told_stale _ _ (mkEvent c r) Ht) as Hn. pose proof (elem_of_snoc tr (mkEvent c r)) as Hin.
  destruct c; cbn [DeliveryProtocol.see] in *; try exact Hn.
  - destruct Hm as [-> ->]. destruct r as [[authorization|]|e]; try exact Hn. cbn [see_authorization].
    destruct (requireExactAuthorization _ _) as [[]|] eqn:He; [|exact Hn].
    destruct Hn. split; cbn in *; try assumption. intros _. by exists authorization.
  - destruct Hm as [-> _]. destruct r as [run|e]; [|exact Hn].
    destruct Hn. split; cbn in *; try assumption. intros _. by do 3 eexists.
  - unfold see_journal. destruct r as [[record|]|e]; try exact Hn; [case_match; [|exact Hn]|];
      destruct Hn; split; cbn in *; try assumption; try done.
  - destruct Hm as (-> & -> & _). destruct r as [attempt|e]; [|exact Hn].
    destruct Hn. split; cbn in *; try assumption; try done. intros ? [= <-]. by do 2 eexists.
  - destruct Hm as (-> & (attempt & Hst & -> & ->) & Hs). destruct r as [finished|e]; [|exact Hn].
    destruct Hn. split; cbn in *; try assumption; try done. intros ? [= <-]. exists result.
    split_and!; [exists attempt, md, finished; split; [by apply td_started0|done]|done|].
    intros Hsucc. destruct (Hs Hsucc) as (Hw & _ & _ & Hv). split; [|done]. by apply td_worker0.
  - destruct r as [lease|e]; [|exact Hn]. destruct Hn; split; cbn in *; try assumption; try done.
  - destruct Hm as (-> & -> & ->). destruct r as [lease|e]; [|destruct Hn; split; cbn in *; try assumption; try done].
    pose proof (td_fresh _ _ Ht) as Hf. destruct Hn. split; cbn in *; try assumption.
    destruct (h_fresh h); [done| |done]. destruct Hf as (leaseSet & Hls & Hset). exists leaseSet. split; [done|].
    by do 3 eexists.
  - destruct r as [leaseSet|e]; [|exact Hn]. destruct Hn; split; cbn in *; try assumption; try done.
  - destruct Hm as (Hls & -> & _). destruct r as [renewed [e|]]; [exact Hn|].
    destruct Hn; split; cbn in *; try assumption. exists renewed. split; [done|]. by do 2 eexists.
  - destruct r as [[]|e]; [|exact Hn]. destruct Hn; split; cbn in *; try assumption; try done.
  - destruct Hm as (-> & _). destruct Hn; split; cbn in *; try assumption; try done.
    destruct r as [worktree|e]; [|done]. by intros ? [= <-].
  - destruct Hm as (-> & _). destruct r as [commit|e]; [|exact Hn].
    destruct Hn; split; cbn in *; try assumption; try done. by intros ? [= <-].
  - unfold see_quarantine. destruct r as [quarantine [e|]]; cbn [snd]; [case_match; [case_match|..]; try exact Hn|];
      (destruct Hn; split; cbn in *; try assumption; try done).
  - destruct Hn; split; cbn in *; try assumption; try done. destruct r as [result [e|]]; [done|].
    intros ? [= <-]. by eexists.
  - destruct Hm as (-> & Hc & _). destruct r as [bundle|e]; [|exact Hn].
    destruct Hn; split; cbn in *; try assumption; try done. intros ? [= <-]. by eexists.
  - destruct Hm as (-> & _). destruct r as [publication publicationErr].
    destruct Hn; split; cbn in *; try assumption; try done. intros Hp%bool_decide_eq_true. by do 5 eexists.
  - destruct Hn; split; cbn in *; try assumption; try done.
  - destruct Hn; split; cbn in *; try assumption; try done.
Qed.

Lemma told_nothing : told nothing_seen [].
Proof. by split. Qed.

Lemma told_trace tr : lawful may see nothing_seen tr → told (seen see nothing_seen tr) tr.
Proof.
  induction tr as [|[c r] tr IH] using rev_ind; [intros _; apply told_nothing|].
  intros [Hl Hm]%lawful_snoc. rewrite seen_snoc. apply told_step; [exact Hm|]. by apply IH.
Qed.

(** ** Worktrees and publications that are out of the way *)

(** A worktree went into quarantine, or was never created for an attempt that had
    not been started. *)
Definition put_away (before after : list event) : Prop :=
  (∃ quarantine, mkEvent (CQuarantine request) (quarantine, None) ∈ after) ∨
  (∃ quarantine err mid rest, after = mid ++ mkEvent (CQuarantine request) (quarantine, Some err) :: rest ∧
     IsWorktreeNotFound (Some err) = true ∧ ∀ attempt, ¬ started attempt (before ++ mid)).

(** The journal showed that the publication did not begin, or that it ended in conflict. *)
Definition ruled_out (after : list event) : Prop :=
  ∃ journaled, mkEvent (CGetPublication (rq_DeliveryID request) (rq_AttemptID request)) (Ok journaled) ∈ after ∧
    (journaled = None ∨ ∃ record, journaled = Some record ∧ dp_State record = "conflict").

(** Every call of a kind is followed by what [by_] asks for. *)
Definition each_followed (kind : event → Prop) (by_ : list event → list event → Prop) (tr : list event) : Prop :=
  ∀ tr1 e tr2, tr = tr1 ++ e :: tr2 → kind e → by_ (tr1 ++ [e]) tr2.

Definition is_prepare (e : event) : Prop := ∃ r, ev_call e = CPrepare r.
Definition is_publish (e : event) : Prop := ∃ r commit bundle leaseSet, ev_call e = CPublish r commit bundle leaseSet.

Lemma each_followed_old kind by_ tr e :
  (∀ before after, by_ before after → by_ before (after ++ [e])) → ¬ kind e →
  each_followed kind by_ tr → each_followed kind by_ (tr ++ [e]).
Proof.
  intros Hmono Hn Hf tr1 e1 tr2 Heq Hi. destruct tr2 as [|e2 tr2] using rev_ind.
  - apply app_inj_tail in Heq as [_ ->]. done.
  - rewrite app_comm_cons, app_assoc in Heq. apply app_inj_tail in Heq as [-> ->]. by apply Hmono, (Hf tr1 e1 tr2).
Qed.

Lemma each_followed_now kind by_ tr e :
  ¬ kind e → (∀ before after, before ++ after = tr → by_ before (after ++ [e])) → each_followed kind by_ (tr ++ [e]).
Proof.
  intros Hn Hnow tr1 e1 tr2 Heq Hi. destruct tr2 as [|e2 tr2] using rev_ind.
  - apply app_inj_tail in Heq as [_ ->]. done.
  - rewrite app_comm_cons, app_assoc in Heq. apply app_inj_tail in Heq as [Heq ->]. apply Hnow.
    by rewrite Heq, <-app_assoc.
Qed.

(** The attempt an event started. *)
Definition started_by (e : event) : option Attempt :=
  (match ev_call e as c return answer c → option Attempt with
   | CStartAttempt _ _ _ _ => λ r, match r with Ok attempt => Some attempt | Err _ => None end
   | _ => λ _, None
   end) (ev_answer e).

Lemma is_prepare_shape c (r : answer c) : is_prepare (mkEvent c r) → match c with CPrepare _ => True | _ => False end.
Proof. intros [q Hq]. cbn in Hq. by subst c. Qed.
Lemma is_publish_shape c (r : answer c) :
  is_publish (mkEvent c r) → match c with CPublish _ _ _ _ => True | _ => False end.
Proof. intros (q & cm & b & ls & Hq). cbn in Hq. by subst c. Qed.

Lemma put_away_mono before after e : put_away before after → put_away before (after ++ [e]).
Proof.
  intros [[q Hq]|(q & err & mid & rest & -> & Hn & Hs)]; [left|right].
  - exists q. set_solver.
  - exists q, err, mid, (rest ++ [e]). by rewrite <-app_assoc.
Qed.
Lemma ruled_out_mono before after e : (λ _, ruled_out) before after → (λ _ : list event, ruled_out) before (after ++ [e]).
Proof. intros (j & Hj & Hx). exists j. set_solver. Qed.

Record settled_by (h : history) (tr : list event) : Prop := {
  sb_queued : h_attempt h = Queued → ∀ attempt, ¬ started attempt tr;
  sb_exposed : h_exposed h = false → each_followed is_prepare put_away tr;
  sb_open : h_open h = false → each_followed is_publish (λ _, ruled_out) tr;
}.

Lemma settled_by_stale h tr e :
  settled_by h tr → (∀ attempt, ¬ started attempt [e]) → ¬ is_prepare e → ¬ is_publish e → settled_by (stale h) (tr ++ [e]).
Proof.
  intros [Hq He Ho] Hs Hp Hu. split; cbn.
  - intros Hx attempt (version & md & Hin). apply elem_of_app in Hin as [Hin|Hin]; [eapply Hq; [done|]|eapply Hs];
      by do 2 eexists.
  - intros Hx. apply each_followed_old; [intros; by apply put_away_mono|done|auto].
  - intros Hx. apply each_followed_old; [intros; by apply ruled_out_mono|done|auto].
Qed.

Lemma not_started c (r : answer c) attempt :
  (∀ id version md f, c ≠ CStartAttempt id version md f) → ¬ started attempt [mkEvent c r].
Proof. intros Hc (version & md & Hin). apply list_elem_of_singleton in Hin. by inversion Hin; subst; eapply Hc. Qed.

Lemma settled_by_step h tr c (r : answer c) :
  may h c → settled_by h tr → settled_by (see h c r) (tr ++ [mkEvent c r]).
Proof.
  intros Hm Hs.
  assert ((∀ id version md f, c ≠ CStartAttempt id version md f) → (∀ req, c ≠ CPrepare req) →
    (∀ req cm b ls, c ≠ CPublish req cm b ls) → settled_by (stale h) (tr ++ [mkEvent c r])) as Hn.
  { intros H1' H2' H3'. apply settled_by_stale; [done|intros; by apply not_started|..].
    - intros [? Hx]. by eapply H2'.
    - intros (? & ? & ? & ? & Hx). by eapply H3'. }
  assert (∀ h' tr', h_attempt h' = h_attempt h → h_exposed h' = h_exposed h → h_open h' = h_open h →
    settled_by (stale h) tr' → settled_by h' tr') as Hext.
  { intros h' tr' Ea Ee Eo [Nq Ne No]. split; rewrite ?Ea, ?Ee, ?Eo; done. }
  destruct c; cbn [DeliveryProtocol.see] in *; try (specialize (Hn ltac:(done) ltac:(done) ltac:(done)); try exact Hn).
  - apply Hext; [..|exact Hn]; unfold see_authorization; repeat case_match; done.
  - apply Hext; [..|exact Hn]; by destruct r.
  - destruct Hm as [-> ->]. destruct Hn as [Nq Ne No]. unfold see_journal.
    assert (∀ j, r = Ok j → (j = None ∨ ∃ record, j = Some record ∧ dp_State record = "conflict") →
      each_followed is_publish (λ _, ruled_out) (tr ++ [mkEvent (CGetPublication (rq_DeliveryID request)
        (rq_AttemptID request)) r])) as Hnow.
    { intros j -> Hj. apply each_followed_now; [by intros (? & ? & ? & ? & ?)|]. intros before after _. exists j. set_solver. }
    destruct r as [[record|]|e]; [case_bool_decide| |]; split; cbn; try assumption; intros _; eapply Hnow; eauto.
  - clear Hn. destruct Hs as [Sq Se So]. destruct r as [attempt|e]; split; cbn; try done.
    3: { intros Hx attempt0 (v & m & Hin). apply elem_of_app in Hin as [Hin|Hin]; [eapply Sq; [done|]; by do 2 eexists|].
         apply list_elem_of_singleton in Hin. by apply (f_equal started_by) in Hin. }
    all: intros Hx; apply each_followed_old; [intros; by (apply put_away_mono || apply ruled_out_mono)| |auto].
    all: by intros ?%is_prepare_shape || by intros ?%is_publish_shape.
  - destruct r; [|exact Hn]. destruct Hn. split; cbn; done.
  - apply Hext; [..|exact Hn]; by destruct r.
  - apply Hext; [..|exact Hn]; by destruct r.
  - apply Hext; [..|exact Hn]; by destruct r.
  - apply Hext; [..|exact Hn]; by destruct r as [? []].
  - apply Hext; [..|exact Hn]; by destruct r.
  - clear Hn. destruct Hs as [Sq Se So]. split; cbn; [|done|].
    + intros Hx attempt (v & m & Hin). apply elem_of_app in Hin as [Hin|Hin]; [eapply Sq; [done|]; by do 2 eexists|].
      by apply list_elem_of_singleton in Hin.
    + intros Hx. apply each_followed_old; [intros; by apply ruled_out_mono|by intros ?%is_publish_shape|auto].
  - apply Hext; [..|exact Hn]; by destruct r.
  - destruct Hm as [-> _]. unfold see_quarantine. destruct r as [quarantine [e|]]; cbn [snd].
    + destruct (h_attempt h) eqn:Ha; try exact Hn. case_match; [|exact Hn]. destruct Hn as [Nq Ne No].
      split; cbn; [done| |done]. intros _. apply each_followed_now; [by intros ?%is_prepare_shape|].
      intros before after Htr. right. exists quarantine, e, after, []. split_and!; [done..|].
      rewrite Htr. by apply Hs.
    + destruct Hn as [Nq Ne No]. split; cbn; [done| |done]. intros _.
      apply each_followed_now; [by intros ?%is_prepare_shape|]. intros before after _. left. exists quarantine. set_solver.
  - apply Hext; [..|exact Hn]; by destruct r as [? []].
  - apply Hext; [..|exact Hn]; by destruct r.
  - clear Hn. destruct Hs as [Sq Se So]. split; cbn; [| |done].
    + intros Hx attempt (v & m & Hin). apply elem_of_app in Hin as [Hin|Hin]; [eapply Sq; [done|]; by do 2 eexists|].
      by apply list_elem_of_singleton in Hin.
    + intros Hx. apply each_followed_old; [intros; by apply put_away_mono|by intros ?%is_prepare_shape|auto].
  - by apply Hext.
  - by apply Hext.
Qed.

Lemma settled_by_trace tr : lawful may see nothing_seen tr → settled_by (seen see nothing_seen tr) tr.
Proof.
  induction tr as [|[c r] tr IH] using rev_ind.
  - intros _. split; [by intros _ ? (? & ? & ?%not_elem_of_nil)|..]; intros _ tr1 e tr2 Heq; by destruct tr1.
  - intros [Hl Hm]%lawful_snoc. rewrite seen_snoc. apply settled_by_step; [exact Hm|]. by apply IH.
Qed.
End traces.

(** ** The properties *)

Section properties.
Context `{Sha256, DeliveryJson, Schemas, Json, !JsonCodec WorkerResult, !WorkerContracts}.
Context (p : Pipeline) (request : DeliveryRequest) (fence : LeaseProof).

Abbreviation run := (reaches (Execute p request fence)).
Abbreviation history_of := (seen (see request) nothing_seen).

Lemma run_told tr q : run tr q → told request fence (history_of tr) tr.
Proof. intros Hr. apply told_trace. eapply always_lawful; [apply Execute_always|exact Hr]. Qed.
Lemma run_settled tr q : run tr q → settled_by request fence (history_of tr) tr.
Proof. intros Hr. apply settled_by_trace. eapply always_lawful; [apply Execute_always|exact Hr]. Qed.
Lemma run_may tr c k : run tr (Call c k) → may request fence (history_of tr) c.
Proof. intros Hr. eapply always_call; [apply Execute_always|exact Hr]. Qed.

(** C6. Whatever the services answer, every call [Execute] makes is one the delivery
    protocol allows at that point, and when it returns no guard is left running, no
    error means a published receipt and a completed run, and a worktree that is
    neither quarantined nor published is still protected by its leases. *)
Theorem execute_keeps_protocol tr q :
  run tr q →
  lawful (may request fence) (see request) nothing_seen tr ∧
  ∀ answered, q = Return answered → delivered answered (history_of tr).
Proof.
  intros Hr. split; [eapply always_lawful; [apply Execute_always|exact Hr]|].
  intros answered ->. eapply always_result; [apply Execute_always|exact Hr].
Qed.

(** C7. A worker is started only after a human approval of exactly this request was
    loaded, in the worktree that was prepared for it, with the task the request
    spells out, for an attempt that was durably started under the scheduler's fence,
    and once the run was moved to running. *)
Theorem worker_needs_approval tr task k :
  run tr (Call (CWorker task) k) →
  approved request tr ∧ (∃ attempt, started request fence attempt tr) ∧ moved request StateRunning tr ∧
  ∃ worktree, mkEvent (CPrepare request) (Ok worktree) ∈ tr ∧ task = workerTaskFrom request worktree.
Proof.
  intros Hr. pose proof (run_told _ _ Hr) as [Ta Ts Tf Tw Tt Tc Tb Tr Tp Tn]. apply run_may in Hr as (Ha & _ & _ & Hrun & [attempt Hs] & worktree & Hw & ->).
  rewrite Hrun in Tr. split_and!; [auto|exists attempt; auto|by apply Tr|exists worktree; auto].
Qed.

(** What precedes a publication. *)
Lemma publish_evidence tr r commit bundle leaseSet k :
  run tr (Call (CPublish r commit bundle leaseSet) k) →
  r = request ∧ approved request tr ∧
  (∃ result, reported result tr ∧ recorded request fence result tr ∧ wr_Status result = "succeeded" ∧
     validateWorkerResult request result = Ok tt) ∧
  mkEvent (CCreateResultCommit request) (Ok commit) ∈ tr ∧
  mkEvent (CValidate request commit) (Ok bundle) ∈ tr ∧ vr_Status (vb_Report bundle) = "passed" ∧
  both_renewed request fence leaseSet tr.
Proof.
  intros Hr. pose proof (run_told _ _ Hr) as [Ta Ts Tf Tw Tt Tc Tb Tr Tp Tn].
  apply run_may in Hr as (-> & Ha & Hs & Hrun & Hc & Hb & Hpass & Hls & Hf & _).
  destruct (Tf _ Hs) as (result & Hrec & Hst & Hok). destruct (Hok eq_refl) as [Hrep Hval].
  destruct (Tb _ Hb) as (commit' & Hc' & Hv). rewrite Hc in Hc'. injection Hc' as <-.
  rewrite Hf in Tn. destruct Tn as (leaseSet' & Hls' & Hboth). rewrite Hls in Hls'. injection Hls' as <-.
  split_and!; [done|auto|by exists result|auto|done..].
Qed.

(** C8. A publication is attempted only for the commit the supervisor created, with the
    bundle in which the validator passed exactly this commit, after the worker's own
    success was recorded for the attempt, and directly after both the delivery leases
    that are handed over and the scheduler fence have been renewed. *)
Theorem publish_needs_validation tr r commit bundle leaseSet k :
  run tr (Call (CPublish r commit bundle leaseSet) k) →
  r = request ∧ approved request tr ∧
  (∃ result, reported result tr ∧ recorded request fence result tr ∧ wr_Status result = "succeeded" ∧
     validateWorkerResult request result = Ok tt) ∧
  mkEvent (CCreateResultCommit request) (Ok commit) ∈ tr ∧
  mkEvent (CValidate request commit) (Ok bundle) ∈ tr ∧ vr_Status (vb_Report bundle) = "passed" ∧
  both_renewed request fence leaseSet tr.
Proof. apply publish_evidence. Qed.

(** C9. Delivery leases are released only when every worktree that may have been
    created is in quarantine (or was never created, before an attempt started), and
    when the journal has ruled out every publication that was attempted; a worktree
    is quarantined only under the latter condition. *)
Theorem release_is_safe tr c k :
  run tr (Call c k) →
  (∀ leaseSet, c = CReleaseLeaseSet leaseSet →
     each_followed is_prepare (put_away request fence) tr ∧ each_followed is_publish (λ _, ruled_out request) tr) ∧
  (∀ r, c = CQuarantine r → each_followed is_publish (λ _, ruled_out request) tr).
Proof.
  intros Hr. pose proof (run_settled _ _ Hr) as [_ He Ho]. apply run_may in Hr. split.
  - intros leaseSet ->. destruct Hr as (_ & Hx & _ & Hp & _). auto.
  - intros r ->. destruct Hr as (_ & _ & _ & Hp & _). auto.
Qed.

(** C10. [Execute] moves a run to failed or cancelled, and only the run of the request,
    only after the outcome of its attempt was recorded under the fence, the worktree it
    may have prepared was put in quarantine (or was never created, before an attempt
    started), and the journal has ruled out every publication that was tried. *)
Theorem failed_run_is_quiescent tr runID version target md k :
  run tr (Call (CTransitionRun runID version target md) k) →
  target ∈ [StateFailedRetryable; StateFailedTerminal; StateCancelled] →
  runID = rq_RunID request ∧ (∃ result, recorded request fence result tr) ∧
  each_followed is_prepare (put_away request fence) tr ∧ each_followed is_publish (λ _, ruled_out request) tr.
Proof.
  intros Hr Ht. pose proof (run_settled _ _ Hr) as [_ He Ho]. pose proof (run_told _ _ Hr) as [Ta Ts Tf Tw Tt Tc Tb Tr Tp Tn].
  apply run_may in Hr as (-> & _ & Hm).
  assert (wound_up (history_of tr)) as ([status Hs] & Hx & _ & _ & Hp & _).
  { unfold may_transition in Hm. set_unfold in Ht.
    destruct Hm as [[-> _]|[[-> _]|[[-> _]|[[Hm' [_ ?]]|[[-> [_ ?]]|[[Hm' ?]|[-> _]]]]]]]; try done;
      by destruct Ht as [|[|[|]]]. }
  destruct (Tf _ Hs) as (result & Hrec & _). split_and!; [done|by exists result|auto..].
Qed.

(** [Execute] returns no error only if the publisher answered a published receipt
    and the run was then moved to completed. *)
Theorem nil_error_is_delivery tr outcome :
  run tr (Return (outcome, None)) →
  moved request StateCompleted tr ∧
  ∃ commit bundle leaseSet publication publicationErr,
    mkEvent (CPublish request commit bundle leaseSet) (publication, publicationErr) ∈ tr ∧
    receipt_status publication = "published".
Proof.
  intros Hr. pose proof (run_told _ _ Hr) as [Ta Ts Tf Tw Tt Tc Tb Tr Tp Tn].
  destruct (always_result _ _ _ _ _ _ _ (Execute_always p request fence) Hr) as (_ & Hd & _).
  destruct (Hd eq_refl) as [Hp Hrun]. rewrite Hrun in Tr. split; [by apply Tr|auto].
Qed.
End properties.
