(* ===== verification/RecoverySafety.v ===== *)
(** * Package [internal/execution]: [Recover] keeps the protocol of a recovery *)

From S2P Require Import Prelude GoLib Fault Contracts Identity RunState LeasePaths Postgres DeliveryContracts.
From S2P Require Import ControlMemory AttemptRecords Leases LeaseSets DeliveryLeases PgTables PgEvents.
From S2P Require Import WorkerResults Attempts Authorizations Publications PublicationService.
From S2P Require Import Approval Programs LeaseGuard Pipeline PipelineRecovery DeliveryProtocol PipelineSafety.

Section safety.
Context `{Sha256, DeliveryJson, Schemas}.
Context (p : Pipeline) (request : DeliveryRequest) (fence : LeaseProof).

Abbreviation may := (allowed request fence).
Abbreviation see := (watch request).
Abbreviation ok := (stage_ok may see).

(** ** Settled attempts *)

Lemma unsettled_spec status : unsettled status = false ↔ at_rest status.
Proof. unfold unsettled, at_rest. by rewrite orb_false_iff, !bool_decide_eq_false. Qed.

(** What is known once an attempt has been judged: the variables are what was answered. *)
Record judged (run : Run) (attempt : Attempt) (s : sight) : Prop := {
  jd_entitled : entitled s;
  jd_settled : at_rest (a_Status attempt);
  jd_attempt : s_attempt s = Some attempt;
  jd_run : s_run s = r_State run;
}.

Lemma judged_quiet run attempt s : judged run attempt s → quiet (a_Status attempt) s.
Proof. intros []. split_and!; [done..|]. by exists attempt. Qed.
Lemma judged_quiet_some run attempt s : judged run attempt s → ∃ status, quiet status s.
Proof. intros ?%judged_quiet. by eexists. Qed.
#[local] Hint Resolve judged_quiet_some : core.

(** An error was returned and no guard runs. *)
Definition given_up (answered : Outcome * option error) (s : sight) : Prop :=
  s_guard s = false ∧ answered.2 ≠ None.

(** A worktree may be quarantined. *)
Definition no_publication (run : Run) (attempt : Attempt) (s : sight) : Prop :=
  a_Status attempt = "succeeded" → r_State run ∈ [StateCancelling; StateCancelled] ∨ journal_ended s.

Lemma may_quarantine run attempt s :
  judged run attempt s → s_guard s = false → no_publication run attempt s → may s (CQuarantine request).
Proof.
  intros Hj Hg Hn. split_and!; [done..|]. exists (a_Status attempt). split; [by eapply judged_quiet|].
  by rewrite (jd_run _ _ _ Hj).
Qed.

Lemma releaseActive_ok leaseState leaseSet s (Q : option error → sight → Prop) :
  (∃ status, quiet status s) → s_away s = true → s_guard s = false →
  (∀ err, Q err s) → (∀ err, Q err (aged s)) → always may see (releaseActive leaseState leaseSet) s Q.
Proof.
  intros Hq Ha Hg Hs Hag. unfold releaseActive. case_match; [|apply Hs]. split; [done|]. intros r. apply Hag.
Qed.

Lemma transition_may run target stage s (Q : result Run → sight → Prop) :
  allowed_transition s target →
  (∀ run', Q (Ok run') (knew_run (r_State run') (bool_decide (target = StateCompleted)) s)) →
  (∀ e, Q (Err e) (aged s)) →
  always may see (transition p request (rq_RunID request) run target stage) s Q.
Proof. intros Hm Hok Herr. split; [done|]. intros [run'|e]; [apply Hok|apply Herr]. Qed.

Lemma fails_away run attempt s target :
  judged run attempt s → s_away s = true → target ∈ [StateFailedRetryable; StateFailedTerminal] →
  allowed_transition s target.
Proof. intros Hj Ha Ht. do 3 right. left. eauto. Qed.

Lemma close_run_may run target stage outcome s (P : option error * Outcome → sight → Prop) :
  allowed_transition s target → (∀ a s', s_guard s' = s_guard s → P a s') →
  always may see (close_run p request (rq_RunID request) run target stage outcome) s P.
Proof. intros Hm HP. apply always_bind, transition_may; [done|..]; intros; by apply HP. Qed.

(** The status a run is closed with is the attempt's, or the cancellation of the run. *)
Lemma completeNonSuccess_may run attempt status outcome s (P : option error * Outcome → sight → Prop) :
  judged run attempt s → s_away s = true → status = a_Status attempt ∨ status = "cancelled" →
  (∀ a s', s_guard s' = s_guard s → P a s') →
  always may see (completeNonSuccess p request (rq_RunID request) run status outcome) s P.
Proof.
  intros Hj Ha Hs HP. unfold completeNonSuccess. case_match eqn:Hs1.
  - apply bool_decide_eq_true in Hs1 as ->. destruct Hs as [Hs|Hs]; [|done].
    pose proof (judged_quiet _ _ _ Hj) as Hq. rewrite <-Hs in Hq.
    assert (∀ s', quiet "blocked" s' → s_away s' = true → ∀ target, target ∈ [StateValidating; StateAwaitingDecision] →
      allowed_transition s' target) as Hb by (intros; right; left; done).
    apply always_bind. case_match.
    + apply transition_may; [apply Hb; [done..|by left]| |intros; by apply HP]. intros run'.
      repeat case_match; try by apply HP. apply close_run_may; [|done]. apply Hb; [|done|by right; left].
      exact Hq.
    + cbn. repeat case_match; try by apply HP. apply close_run_may; [|done]. apply Hb; [done..|by right; left].
  - case_match eqn:Hs2.
    + repeat case_match; try by apply HP. apply close_run_may; [|done]. do 2 right. left. split_and!; [done|eauto| |done].
      rewrite (jd_run _ _ _ Hj). match goal with E : negb _ = false |- _ =>
        by apply negb_false_iff, bool_decide_eq_true in E end.
    + repeat case_match; try by apply HP.
      all: (apply close_run_may; [|done]); eapply fails_away; [done..|]; by first [left|right; left].
Qed.

(** A quarantine that counts puts the worktree away. *)
Lemma quarantine_seen run attempt absent s q qerr :
  quarantine_unless absent qerr = None →
  judged run attempt s → s_guard s = false → (absent = true → never_started s = true) →
  let s' := see s (CQuarantine request) (q, qerr) in
  judged run attempt s' ∧ s_guard s' = false ∧ s_away s' = true.
Proof.
  intros Hu [? ? ? Hr] Hg Hn. destruct qerr as [e|]; [|by split_and!; [constructor|..]].
  unfold quarantine_unless in Hu. destruct (IsWorktreeNotFound (Some e)) eqn:Hi; cbn in Hu; [|done].
  destruct absent; [|done]. unfold watch. cbn [snd]. rewrite Hi, Hn by done. by split_and!; [constructor|..].
Qed.

Lemma never_started_preparing run attempt s :
  judged run attempt s → bool_decide (r_State run = StatePreparing) = true → never_started s = true.
Proof. intros [_ _ _ Hr] Hp. unfold never_started. by rewrite Hr, Hp. Qed.

(** The state after a quarantine is forgotten but for what [quarantine_seen] says. *)
Ltac clean_quarantine run attempt Hu :=
  match goal with |- always _ _ _ ?x _ =>
    assert (judged run attempt x ∧ s_guard x = false ∧ s_away x = true) as Hafter;
    [refine (quarantine_seen run attempt _ _ _ _ Hu _ _ _)|generalize dependent x; intros s' (Hj' & Hg' & Ha')]
  end.

Lemma failInterrupted_may run attempt outcome s :
  judged run attempt s → s_guard s = false → no_publication run attempt s →
  always may see (failInterrupted p request (rq_RunID request) run attempt outcome) s given_up.
Proof.
  intros Hj Hg Hn. unfold failInterrupted. cbv zeta.
  assert (∀ o s', judged run attempt s' → s_guard s' = false → s_away s' = true → always may see
    (if bool_decide (r_State run = StatePreparing) || bool_decide (r_State run = StateRunning) ||
        bool_decide (r_State run = StateValidating)
     then failed ← transition p request (rq_RunID request) run StateFailedRetryable "interrupted-run-retryable";
          mret (match failed with
                | Err transitionErr => (o, Some transitionErr)
                | Ok failed => (with_Run failed o, Some (text_error "interrupted attempt %s is retryable" [a_AttemptID attempt]))
                end)
     else mret (o, Some (text_error "interrupted attempt %s is retryable" [a_AttemptID attempt]))) s' given_up) as Hclose.
  { intros o s' Hj' Hg' Ha'. case_match; [|by split]. apply always_bind, transition_may; [|by split|by split].
    eapply fails_away; [done..|by left]. }
  split; [split; [done|by eauto]|]. intros [[[leaseSet state]|]|e]; [|by apply Hclose; destruct Hj|by split].
  split; [by eapply may_quarantine; destruct Hj|]. intros [q qerr].
  destruct (quarantine_unless _ qerr) as [err|] eqn:Hu.
  { split; [|done]. cbn. by repeat case_match. }
  clean_quarantine run attempt Hu; [by constructor; destruct Hj|done|..].
  { intros. by eapply never_started_preparing; [by constructor; destruct Hj|]. }
  apply always_bind, releaseActive_ok; [by eauto|done|done| |]; intros [err|]; (done || by apply Hclose; destruct Hj').
Qed.

Lemma terminate_may run attempt leaseSet active stage t1 t2 outcome s (Q : Outcome * option error → sight → Prop) :
  judged run attempt s → s_guard s = false → no_publication run attempt s →
  (∀ a s', s_guard s' = false → Q a s') →
  always may see (terminate p request (rq_RunID request) run leaseSet active stage t1 t2 outcome) s Q.
Proof.
  intros Hj Hg Hn HQ. split; [by eapply may_quarantine|]. intros [q [err|]].
  { apply HQ. cbn. by case_match. }
  assert (∀ s', judged run attempt s' → s_guard s' = false → s_away s' = true → always may see
    (failed ← transition p request (rq_RunID request) run StateFailedTerminal stage;
     mret (match failed with
           | Err err => (with_Quarantine q outcome, Some err)
           | Ok run => (with_Run run (with_Quarantine q outcome), None)
           end)) s' Q) as Hclose.
  { intros s' Hj' Hg' Ha'. apply always_bind, transition_may; [|by intros; apply HQ|by intros; apply HQ].
    eapply fails_away; [done..|by right; left]. }
  destruct active; [|by apply Hclose; [constructor; destruct Hj|..]].
  split; [split_and!; [|done..]; exists (a_Status attempt); exact (judged_quiet _ _ _ Hj)|].
  intros [[]|err]; [by apply Hclose; [constructor; destruct Hj|..]|by apply HQ].
Qed.

Lemma given_up_recovered a s : given_up a s → recovered a s.
Proof. by intros [Hg Hn]. Qed.

(** [failInterrupted], [recoverCancellation] and [recoverNonSuccess] share this: after
    the lease set was loaded, the worktree is put away and the leases are released. *)
Lemma recoverCancellation_may run attempt outcome s :
  judged run attempt s → s_guard s = false → r_State run ∈ [StateCancelling; StateCancelled] →
  always may see (recoverCancellation p request (rq_RunID request) run attempt outcome) s given_up.
Proof.
  intros Hj Hg Hc. unfold recoverCancellation. cbv zeta.
  assert (∀ o s', judged run attempt s' → s_guard s' = false → s_away s' = true → always may see
    ('(err, o) ← completeNonSuccess p request (rq_RunID request) run "cancelled" o;
     mret (o, Some (default (text_error "recovered cancellation for attempt %s with durable status %q"
                               [a_AttemptID attempt; a_Status attempt]) err))) s' given_up) as Hclose.
  { intros o s' Hj' Hg' Ha'. apply always_bind. eapply completeNonSuccess_may; [done..|by right|].
    intros [err o'] s'' Hg''. split; [|done]. congruence. }
  split; [split; [done|by eauto]|]. intros [[[leaseSet state]|]|e]; [|by apply Hclose; [constructor; destruct Hj|..]|by split].
  split; [eapply may_quarantine; [by constructor; destruct Hj|done|by left]|]. intros [q qerr].
  destruct (quarantine_unless _ qerr) as [err|] eqn:Hu.
  { split; [|done]. cbn. by repeat case_match. }
  clean_quarantine run attempt Hu; [by constructor; destruct Hj|done|..].
  { intros Hb. unfold never_started. cbn. rewrite (jd_attempt _ _ _ Hj), Hb. by apply orb_true_r. }
  apply always_bind, releaseActive_ok; [by eauto|done|done| |]; intros [err|];
    (done || (apply Hclose; [constructor; destruct Hj'; done|done|done])).
Qed.

Lemma recoverNonSuccess_may run attempt outcome s :
  judged run attempt s → s_guard s = false → no_publication run attempt s →
  always may see (recoverNonSuccess p request (rq_RunID request) run attempt outcome) s given_up.
Proof.
  intros Hj Hg Hn. unfold recoverNonSuccess. cbv zeta.
  assert (∀ o s', judged run attempt s' → s_guard s' = false → s_away s' = true → always may see
    ('(err, o) ← completeNonSuccess p request (rq_RunID request) run (a_Status attempt) o;
     mret (o, Some (default (text_error "recovered terminal worker attempt %s with status %q"
                               [a_AttemptID attempt; a_Status attempt]) err))) s' given_up) as Hclose.
  { intros o s' Hj' Hg' Ha'. apply always_bind. eapply completeNonSuccess_may; [done..|by left|].
    intros [err o'] s'' Hg''. split; [|done]. congruence. }
  split; [split; [done|by eauto]|]. intros [[[leaseSet state]|]|e]; [|by apply Hclose; [constructor; destruct Hj|..]|by split].
  split; [eapply may_quarantine; [by constructor; destruct Hj|done|done]|]. intros [q [err|]].
  { split; [|done]. cbn. by repeat case_match. }
  apply always_bind, releaseActive_ok; [exists (a_Status attempt); exact (judged_quiet _ _ _ Hj)|done|done| |]; intros [err|];
    (done || (apply Hclose; [constructor; destruct Hj; done|done|done])).
Qed.

Lemma cleanupSucceededTerminal_may run attempt outcome s :
  judged run attempt s → s_guard s = false →
  always may see (cleanupSucceededTerminal request run attempt outcome) s given_up.
Proof.
  intros Hj Hg. unfold cleanupSucceededTerminal. split; [split_and!; [done|done|by eauto]|].
  intros [record|e]; [|by split]. cbv zeta. case_match eqn:Hst; [by split|].
  assert (journal_ended (knew_journal (Some record) (s_published s) s)) as He.
  { exists record. split; [done|]. intros r ->. apply orb_false_iff in Hst as [Hp Hq].
    split; intros Hx; cbn in Hp, Hq; rewrite Hx in Hp, Hq; done. }
  split; [split; [done|]; exists (a_Status attempt); exact (judged_quiet _ _ _ Hj)|].
  intros [[[leaseSet state]|]|e]; [|by split|by split].
  split; [eapply (may_quarantine run attempt); [by constructor; destruct Hj|done|by right]|].
  intros [q [err|]].
  { split; [|done]. cbn. by repeat case_match. }
  apply always_bind, releaseActive_ok; [exists (a_Status attempt); exact (judged_quiet _ _ _ Hj)|done|done| |];
    intros [err|]; done.
Qed.

Lemma replayCompleted_may run attempt outcome s :
  judged run attempt s → s_guard s = false → s_completed s = true →
  always may see (replayCompleted request run attempt outcome) s recovered.
Proof.
  intros Hj Hg Hc. unfold replayCompleted. split; [split_and!; [done|done|by eauto]|].
  intros [[record|]|e]; [|by split|by split]. case_match; [by split|].
  destruct (commitFromPublication record) as [commit|e] eqn:Hcommit; [|by split].
  split; [split; [done|]; exists (a_Status attempt); exact (judged_quiet _ _ _ Hj)|].
  intros [[[leaseSet state]|]|e]; [|by split|by split].
  split; [split_and!; [done|exists (a_Status attempt); split; [exact (judged_quiet _ _ _ Hj)|by right]|done|by exists record]|].
  intros [publication publicationErr]. cbn. unfold replay_outcome. case_match eqn:Hpub; [by split|].
  apply negb_false_iff in Hpub. split; [done|]. intros _. split; [exact Hpub|done].
Qed.

(** ** A succeeded attempt *)

Section resuming.
Context (attempt : Attempt) (succeeded : a_Status attempt = "succeeded").

Record resumes (journal : option DeliveryPublication) (l : resuming) (s : sight) : Prop := {
  rm_judged : judged (rs_run l) attempt s;
  rm_guard : rs_guard l = s_guard s;
  rm_journal : s_journal s = Some journal;
}.

(** What the deferred stop needs to know, and what the result may claim. *)
Definition resumed {A} (r : result A) (l : resuming) (s : sight) : Prop :=
  rs_guard l = s_guard s ∧ match r with Ok _ => s_published s = true ∧ s_completed s = true | Err _ => True end.

Lemma judged_succeeded run s : judged run attempt s → quiet "succeeded" s.
Proof. intros Hj. rewrite <-succeeded. by eapply judged_quiet. Qed.

(** Steps that only age the renewals, or learn of results, keep the facts. *)
Ltac keep Hr := let Hj := fresh in pose proof Hr as [Hj ? ?]; split; [constructor; by destruct Hj|done..].

Lemma stopResumed_may l s (Q : result (option error) → resuming → sight → Prop) :
  s_guard s = true →
  (∀ current err, Q (Ok err) (resume_leaseSet current (resume_guard false l))
     (knew_leases (Some current) Stale (s_away s) (knew_guard false (bool_decide (is_Some err)) s))) →
  ok stopResumed l s Q.
Proof.
  intros Hg HQ. unfold stopResumed. stage_step. apply stage_ok_perform; [exact Hg|]. intros [current err].
  stage_steps. apply HQ.
Qed.

Lemma returnFrom_may a l s (Q : result unit → resuming → sight → Prop) :
  a.2 ≠ None → (∀ e o, Q (Err e) (on_resumed (λ _, o) l) s) → ok (returnFrom a) l s Q.
Proof. intros Ha HQ. unfold returnFrom. stage_steps. destruct a as [o [e|]]; [|done]. cbn [snd fst]. stage_steps. apply HQ. Qed.

Lemma renewFence_may s (Q : result Lease → sight → Prop) :
  entitled s → s_fresh s = SetRenewed →
  (∀ lease, Q (Ok lease) (knew_fence (s_verified s) true BothRenewed s)) →
  (∀ e, Q (Err e) (knew_fence (s_verified s) false Stale s)) →
  always may see (renewFence request fence) s Q.
Proof.
  intros (_ & Hv & _) Hf Hok Herr. split; [done|]. intros [lease|e]; cbn; rewrite ?Hf; auto.
Qed.

Lemma resume_authority_may leaseState journal l s (Q : result unit → resuming → sight → Prop) :
  resumes journal l s → s_guard s = false → s_leases s = Some (rs_leaseSet l) →
  (∀ l' s', resumes journal l' s' → Q (Ok tt) l' s') →
  (∀ e l' s', rs_guard l' = false → s_guard s' = false → Q (Err e) l' s') →
  ok (resume_authority request fence leaseState) l s Q.
Proof.
  intros Hr Hg Hls Hok Herr. pose proof Hr as [Hj Hgl Hjo]. unfold resume_authority. case_match; stage_steps; [by apply Hok|].
  apply stage_ok_perform; [split_and!; [by eapply judged_succeeded|done..]|]. intros [renewed [e|]]; stage_steps.
  - apply Hok. keep Hr.
  - apply stage_ok_invoke, renewFence_may; [apply Hj|done| |].
    + intros lease. cbn [wrapped]. stage_steps. apply stage_ok_perform.
      { split_and!; try done. destruct Hj as [(? & ? & ?) ? ? ?]. split; [by split_and!|]. split; [done|]. by exists attempt. }
      intros []. stage_steps. apply Hok. destruct Hj as [(? & ? & ?) ? ? ?]. split; [constructor|..]; done.
    + intros e. cbn [wrapped]. stage_steps. apply Herr; cbn; congruence.
Qed.

Lemma no_publication_none run journal l s :
  resumes journal l s → (∀ record, journal = Some record → dp_State record ≠ "prepared" ∧ dp_State record ≠ "published") →
  no_publication run attempt s.
Proof. intros Hr Hj _. right. exists journal. split; [apply Hr|done]. Qed.

Lemma resume_expired_may leaseState l s (Q : result unit → resuming → sight → Prop) :
  resumes None l s → s_guard s = false →
  (∀ e l' s', s_guard s' = false → Q (Err e) l' s') →
  ok (resume_expired p request (rq_RunID request) attempt leaseState) l s Q.
Proof.
  intros Hr Hg Herr. pose proof Hr as [Hj Hgl Hjo]. unfold resume_expired. stage_step.
  apply stage_ok_perform; [split_and!; [done|by eapply judged_succeeded|done]|].
  assert (∀ l' s', resumes None l' s' → s_guard s' = false →
    ok (outcome ← readS rs_outcome;
        failed ← invoke (failInterrupted p request (rq_RunID request) (rs_run l') attempt outcome);
        returnFrom failed) l' s' Q) as Hfail.
  { intros l' s' Hr' Hg'. stage_steps. apply stage_ok_invoke. eapply always_mono.
    - apply failInterrupted_may; [apply Hr'|done|by eapply no_publication_none].
    - intros a s'' [Hg'' Hn]. apply returnFrom_may; [done|]. intros e o. by apply Herr. }
  intros [bundle|e]; stage_steps.
  - case_match; [|apply Hfail; [keep Hr|done]]. stage_steps. apply stage_ok_invoke. unfold rejectRecoveredValidation.
    apply (terminate_may _ attempt); [constructor; by destruct Hj|done| |].
    + intros _. right. by exists None.
    + intros [o err] s' Hg'. stage_steps. apply Herr. cbn. congruence.
  - case_match; [stage_steps; apply Herr; cbn; congruence|]. apply Hfail; [keep Hr|done].
Qed.

(** The commit a recovery works on. *)
Definition has_commit (journal : option DeliveryPublication) (commit : CommitResult) (s : sight) : Prop :=
  match journal with
  | Some record => commitFromPublication record = Ok commit
  | None => s_commit s = Some commit
  end.

Lemma resume_commit_may journal l s (Q : result CommitResult → resuming → sight → Prop) :
  resumes journal l s → (journal = None → s_guard s = true) →
  (∀ commit l' s', resumes journal l' s' → s_guard s' = s_guard s → has_commit journal commit s' → Q (Ok commit) l' s') →
  (∀ e l' s', rs_guard l' = s_guard s' → Q (Err e) l' s') →
  ok (resume_commit request journal) l s Q.
Proof.
  intros Hr Hg Hok Herr. pose proof Hr as [Hj Hgl Hjo]. unfold resume_commit. stage_step. destruct journal as [record|].
  - stage_steps. destruct (commitFromPublication record) as [commit|e] eqn:Hc; cbn [wrapped]; [|by apply Herr].
    stage_steps. apply Hok; [keep Hr|done|done].
  - stage_step. apply stage_ok_perform; [split_and!; [done|by eapply judged_succeeded|by apply Hg|done]|].
    intros [commit|e]; cbn [wrapped]; stage_steps; [|by apply Herr]. apply Hok; [keep Hr|done|done].
Qed.

Lemma resume_validating_may journal commit l s (Q : result unit → resuming → sight → Prop) :
  resumes journal l s → has_commit journal commit s →
  (∀ l' s', resumes journal l' s' → s_guard s' = s_guard s → has_commit journal commit s' → Q (Ok tt) l' s') →
  (∀ e l' s', rs_guard l' = s_guard s' → Q (Err e) l' s') →
  ok (resume_validating p request (rq_RunID request)) l s Q.
Proof.
  intros Hr Hc Hok Herr. pose proof Hr as [Hj Hgl Hjo]. unfold resume_validating. stage_steps.
  case_match eqn:Hrun; stage_steps; [by apply Hok|]. apply negb_false_iff, bool_decide_eq_true in Hrun.
  apply stage_ok_invoke, transition_may.
  - left. split_and!; [done|by eapply judged_succeeded|]. by rewrite (jd_run _ _ _ Hj).
  - intros run. stage_steps. apply Hok; [|done|by destruct journal]. destruct Hj. split; [constructor|..]; done.
  - intros e. stage_steps. by apply Herr.
Qed.

Lemma resume_bundle_may journal commit l s (Q : result (option ValidationBundle) → resuming → sight → Prop) :
  resumes journal l s → (journal = None → s_guard s = true) → has_commit journal commit s →
  (∀ bundle l' s', resumes journal l' s' → s_guard s' = s_guard s → has_commit journal commit s' →
     (journal = None → ∃ b, bundle = Some b ∧ s_bundle s' = Some b) → (journal ≠ None → bundle = None) →
     Q (Ok bundle) l' s') →
  (∀ e l' s', rs_guard l' = s_guard s' → Q (Err e) l' s') →
  ok (resume_bundle request journal commit) l s Q.
Proof.
  intros Hr Hg Hc Hok Herr. pose proof Hr as [Hj Hgl Hjo]. unfold resume_bundle. destruct journal as [record|].
  { stage_steps. by apply Hok. }
  stage_step. apply stage_ok_perform; [split_and!; [done|by eapply judged_succeeded|done]|].
  intros [bundle|e]; stage_steps.
  - apply Hok; [keep Hr|done|done|by eauto|done].
  - case_match; stage_steps; [by apply Herr|]. apply stage_ok_perform.
    { split_and!; [done|exact (judged_succeeded _ _ Hj)|by apply Hg|done|done]. }
    intros [bundle|e']; cbn [wrapped]; stage_steps; [|by apply Herr]. apply Hok; [keep Hr|done|done|by eauto|done].
Qed.

Lemma resume_rejected_may leaseState status l s (Q : result unit → resuming → sight → Prop) :
  resumes None l s → (∀ e l' s', rs_guard l' = s_guard s' → Q (Err e) l' s') →
  ok (resume_rejected p request (rq_RunID request) leaseState status) l s Q.
Proof.
  intros Hr Herr. pose proof Hr as [Hj Hgl Hjo]. unfold resume_rejected. stage_steps. rewrite Hgl.
  assert (∀ l' s' heartbeatErr, resumes None l' s' → s_guard s' = false → ok
    (run ← readS rs_run;
     leaseSet ← readS rs_leaseSet;
     outcome ← readS rs_outcome;
     '(rejected, cleanupErr) ← invoke (rejectRecoveredValidation p request (rq_RunID request) run leaseSet leaseState outcome);
     _ ← modifyS (on_resumed (λ _, rejected));
     returnS (text_error "recovered validation status is %q" [status]) [heartbeatErr; cleanupErr]) l' s' Q) as Htail.
  { intros l' s' heartbeatErr Hr' Hg'. stage_steps. apply stage_ok_invoke. unfold rejectRecoveredValidation.
    apply (terminate_may _ attempt); [apply Hr'|done|by eapply no_publication_none|].
    intros [o err] s'' Hg''. stage_steps. apply Herr. cbn. rewrite (rm_guard _ _ _ Hr'). congruence. }
  destruct (s_guard s) eqn:Hg; cbn [negb].
  - apply stopResumed_may; [done|]. intros current err. apply Htail; [|done].
    split; [constructor; by destruct Hj|done..].
  - stage_step. by apply Htail.
Qed.

(** Both fences are fresh, unless the journal is to be replayed without authority. *)
Definition may_publish (journal : option DeliveryPublication) (l : resuming) (s : sight) : Prop :=
  s_guard s = false ∧
  (journal = None → s_fresh s = BothRenewed ∧ s_leases s = Some (rs_leaseSet l) ∧ s_lost s = false).

Lemma resume_renew_may journal commit bundle l s (Q : result unit → resuming → sight → Prop) :
  resumes journal l s → (journal = None → s_guard s = true) → has_commit journal commit s → s_bundle s = bundle →
  (∀ l' s', resumes journal l' s' → may_publish journal l' s' → has_commit journal commit s' → s_bundle s' = bundle →
     Q (Ok tt) l' s') →
  (∀ e l' s', rs_guard l' = s_guard s' → Q (Err e) l' s') →
  ok (resume_renew request fence) l s Q.
Proof.
  intros Hr Hg Hc Hb Hok Herr. pose proof Hr as [Hj Hgl Hjo]. unfold resume_renew. stage_steps. rewrite Hgl.
  destruct (s_guard s) eqn:Hgs; cbn [negb].
  2: { stage_steps. apply Hok; [done| |done|done]. split; [done|]. intros Hn. by specialize (Hg Hn). }
  stage_step. apply stopResumed_may; [done|]. intros current [err|]; stage_steps; [by apply Herr|].
  apply stage_ok_perform; [split_and!; [rewrite <-succeeded; exact (judged_quiet _ _ _ Hj)|done..]|].
  intros [renewed [err|]]; stage_steps; [by apply Herr|].
  apply stage_ok_invoke, renewFence_may; [apply Hj|done| |by intros e; cbn [wrapped]; stage_steps; apply Herr].
  intros lease. cbn [wrapped]. stage_steps. apply Hok; [|done|by destruct journal|done].
  destruct Hj as [(? & ? & ?) ? ? ?]. split; [constructor|..]; done.
Qed.

Lemma resume_unpublished_may leaseState publicationErr l s (Q : result unit → resuming → sight → Prop) :
  judged (rs_run l) attempt s → rs_guard l = false → s_guard s = false →
  (∀ e l' s', rs_guard l' = s_guard s' → Q (Err e) l' s') →
  ok (resume_unpublished p request (rq_RunID request) attempt leaseState publicationErr) l s Q.
Proof.
  intros Hj Hgl Hg Herr. unfold resume_unpublished. stage_step.
  apply stage_ok_perform; [split_and!; [done|done|by eauto]|].
  assert (∀ (f : Outcome * option error → option error) (a : Outcome * option error) s',
    s_guard s' = false → ok (returnFrom (a.1, Join_errors [Some (default
      (plain_error "publication recovery returned no durable receipt") publicationErr); a.2])) l s' Q) as Hret.
  { intros _ a s' Hg'. apply returnFrom_may; [by destruct a.2|]. intros e o. apply Herr. cbn. congruence. }
  intros [[record|]|e]; stage_steps; try (apply Herr; cbn; congruence).
  assert (∀ state, dp_State record = state → state ≠ "prepared" → state ≠ "published" →
    no_publication (rs_run l) attempt (knew_journal (Some (Some record)) (s_published s) s)) as Hn.
  { intros state Hs Hp Hq _. right. exists (Some record). split; [done|]. intros r [= <-]. by rewrite Hs. }
  case_match eqn:Hab; [|case_match eqn:Hco].
  - apply bool_decide_eq_true in Hab. stage_step. apply stage_ok_invoke.
    eapply always_mono; [apply failInterrupted_may; [constructor; by destruct Hj|done|by eapply Hn]|].
    intros [o err] s' [Hg' _]. stage_steps. by apply (Hret snd (o, err)).
  - apply bool_decide_eq_true in Hco. stage_step. apply stage_ok_invoke. unfold terminatePublicationConflict.
    apply (terminate_may _ attempt); [constructor; by destruct Hj|done|by eapply Hn|].
    intros [o err] s' Hg'. stage_steps. by apply (Hret snd (o, err)).
  - stage_steps. apply Herr. cbn. congruence.
Qed.

Lemma resume_publish_may journal leaseState commit bundle l s (Q : result unit → resuming → sight → Prop) :
  resumes journal l s → may_publish journal l s → has_commit journal commit s →
  (journal = None → ∃ b, bundle = Some b ∧ s_bundle s = Some b ∧ vr_Status (vb_Report b) = "passed") →
  (journal ≠ None → bundle = None) →
  (∀ r l' s', resumed r l' s' → Q r l' s') →
  ok (resume_publish p request (rq_RunID request) attempt leaseState commit bundle) l s Q.
Proof.
  intros Hr [Hg Hfresh] Hc Hbn Hbs HQ. pose proof Hr as [Hj Hgl Hjo]. unfold resume_publish. stage_steps.
  assert (∀ c, (c = CRecover request commit (rs_leaseSet l) ∨ ∃ b, c = CPublish request commit b (rs_leaseSet l)) →
    ∀ publication publicationErr, let s' := knew_journal None (bool_decide (receipt_status publication = "published")) s in
    ok (_ ← modifyS (on_resumed (with_Publication publication));
        if negb (bool_decide (receipt_status publication = "published"))
        then resume_unpublished p request (rq_RunID request) attempt leaseState publicationErr
        else
          run ← readS rs_run;
          completed ← invoke (transition p request (rq_RunID request) run StateCompleted "recovery-run-completed");
          _ ← (match completed with Ok run => modifyS (on_resumed (with_Run run)) | Err _ => mret tt end);
          match Join_errors [publicationErr; err_of completed] with
          | Some err => throwS err
          | None => mret tt
          end) l s' Q) as Htail.
  { intros _ _ publication publicationErr s'. stage_steps. case_match eqn:Hpub.
    - apply resume_unpublished_may; [constructor; by destruct Hj|cbn; congruence|done|]. intros e l' s'' Hg''. by apply HQ.
    - apply negb_false_iff in Hpub. stage_steps. apply stage_ok_invoke, transition_may.
      + do 4 right. split_and!; [done| |done]. exact (judged_succeeded _ _ Hj).
      + intros run. stage_steps. destruct publicationErr; cbn; stage_steps; apply HQ; (split; [cbn; congruence|done]).
      + intros e. stage_steps. destruct publicationErr; cbn; stage_steps; apply HQ; (split; [cbn; congruence|done]). }
  destruct journal as [record|].
  - rewrite (Hbs ltac:(done)). apply stage_ok_perform.
    { split_and!; [done|exists "succeeded"; split; [exact (judged_succeeded _ _ Hj)|by left]|done|]. by exists record. }
    intros [publication publicationErr]. apply (Htail _ (or_introl eq_refl)).
  - destruct (Hbn eq_refl) as (b & -> & Hsb & Hpass). destruct (Hfresh eq_refl) as (Hf & Hls & Hl). apply stage_ok_perform.
    { split_and!; try done. exact (judged_succeeded _ _ Hj). }
    intros [publication publicationErr]. apply (Htail _ (or_intror (ex_intro _ b eq_refl))).
Qed.

Lemma resume_guarded_may leaseState journal l s :
  resumes journal l s → (journal = None → s_guard s = true) →
  ok (resume_guarded p request fence (rq_RunID request) attempt leaseState journal) l s resumed.
Proof.
  intros Hr Hg. unfold resume_guarded. stage_step. apply resume_commit_may; [done..| |by split].
  intros commit l1 s1 Hr1 Hg1 Hc1. stage_step. apply (resume_validating_may journal commit); [done..| |by split].
  intros l2 s2 Hr2 Hg2 Hc2. stage_step. apply resume_bundle_may; [done| |done| |by split].
  { intros Hn. rewrite Hg2, Hg1. auto. }
  intros bundle l3 s3 Hr3 Hg3 Hc3 Hbn Hbs. cbv zeta. case_match eqn:Hst.
  - destruct journal as [record|]; [by rewrite (Hbs ltac:(done)) in Hst|].
    apply resume_rejected_may; [done|by split].
  - stage_step. eapply resume_renew_may; [done| |done|reflexivity| |by split].
    { intros Hn. rewrite Hg3, Hg2, Hg1. auto. }
    intros l4 s4 Hr4 Hm4 Hc4 Hb4. apply (resume_publish_may journal); [done..| |done|by intros].
    intros Hn. destruct (Hbn Hn) as (b & -> & Hb). exists b. split_and!; [done|congruence|].
    by apply negb_false_iff, bool_decide_eq_true in Hst.
Qed.

(** The deferred function leaves no guard behind. *)
Definition finished (r : result unit) (l : resuming) (s : sight) : Prop :=
  s_guard s = false ∧ (r = Ok tt → s_published s = true ∧ s_completed s = true).

Lemma with_deferred_stop_may body l s :
  ok body l s resumed → ok (with_deferred_stop body) l s finished.
Proof.
  intros Hb. unfold stage_ok, with_deferred_stop. apply always_bind. eapply always_mono; [exact Hb|].
  intros [r l'] s' [Hg Hr]. rewrite Hg. destruct (s_guard s') eqn:Hgs; [|split; [done|]; by intros ->].
  apply always_bind. eapply always_mono.
  - apply (stopResumed_may l' s' (λ _ _ s'', s_guard s'' = false ∧ s_published s'' = s_published s' ∧
      s_completed s'' = s_completed s')); [done|]. by intros.
  - intros [err l''] s'' (Hg'' & Hp & Hc). split; [done|]. rewrite Hp, Hc. by intros ->.
Qed.

Lemma resume_stages_may l s :
  judged (rs_run l) attempt s → rs_guard l = false → s_guard s = false →
  ok (resume_stages p request fence (rq_RunID request) attempt) l s finished.
Proof.
  intros Hj Hgl Hg. unfold resume_stages. stage_step.
  apply stage_ok_perform; [split; [done|by eauto]|]. intros [loaded|e]; cbn [wrapped]; stage_steps; [|by split].
  apply stage_ok_perform.
  { split_and!; [done..|]. exists (a_Status attempt). destruct loaded as [[? ?]|]; exact (judged_quiet _ _ _ Hj). }
  intros [journal|e]; cbn [wrapped]; stage_steps; [|destruct loaded as [[? ?]|]; by split].
  destruct loaded as [[leaseSet leaseState]|]; stage_steps; [|by split].
  match goal with |- ok _ ?l' ?s' _ => assert (resumes journal l' s') as Hr
    by (split; [constructor; by destruct Hj|cbn; congruence|done]) end.
  case_match eqn:Hcf.
  - apply bool_decide_eq_true in Hcf. stage_steps. apply stage_ok_invoke. unfold terminatePublicationConflict.
    apply (terminate_may _ attempt); [constructor; by destruct Hj|done| |].
    + eapply no_publication_none; [done|]. intros record ->. injection Hcf as ->. done.
    + intros [o err] s' Hg'. stage_steps. apply returnFrom_may; [by destruct err|]. by split.
  - stage_step. apply (resume_authority_may leaseState journal); [done..| |by split].
    intros l' s' Hr'. stage_steps. case_match eqn:Hx.
    + apply andb_true_iff in Hx as [Hx ->%bool_decide_eq_true]. apply negb_true_iff in Hx.
      rewrite (rm_guard _ _ _ Hr') in Hx. apply resume_expired_may; [done..|].
      by split.
    + apply with_deferred_stop_may, resume_guarded_may; [done|]. intros ->. rewrite bool_decide_eq_true_2 in Hx by done.
      rewrite andb_true_r in Hx. apply negb_false_iff in Hx. by rewrite <-(rm_guard _ _ _ Hr').
Qed.
End resuming.

Lemma resumeSucceeded_may run attempt outcome s :
  judged run attempt s → s_guard s = false → a_Status attempt = "succeeded" →
  s_completed s = bool_decide (r_State run = StateCompleted) →
  always may see (resumeSucceeded p request fence (rq_RunID request) run attempt outcome) s recovered.
Proof.
  intros Hj Hg Hs Hc. unfold resumeSucceeded. case_match eqn:Hdone.
  { apply replayCompleted_may; [done..|congruence]. }
  case_match.
  { eapply always_mono; [by apply cleanupSucceededTerminal_may|]. apply given_up_recovered. }
  case_match; [by split|]. apply always_bind.
  eapply always_mono; [apply (resume_stages_may _ Hs); [done..]|].
  intros [[[]|e] l] s' [Hg' Hr]; (split; [done|]); [|done]. intros _. by apply Hr.
Qed.

Lemma recover_settled_may run attempt outcome s :
  entitled s → s_attempt s = Some attempt → s_run s = r_State run → s_guard s = false →
  s_completed s = bool_decide (r_State run = StateCompleted) →
  always may see (recover_settled p request fence (rq_RunID request) run attempt outcome) s recovered.
Proof.
  intros He Ha Hr Hg Hc. unfold recover_settled. cbv zeta.
  destruct (unsettled (a_Status attempt)) eqn:Hu.
  { rewrite andb_false_r. by split. }
  apply unsettled_spec in Hu. assert (judged run attempt s) as Hj by done.
  assert (∀ prog, always may see prog s given_up → always may see prog s recovered) as Hup
    by (intros prog Hp; eapply always_mono; [exact Hp|apply given_up_recovered]).
  rewrite andb_true_r. case_match eqn:Hcancel.
  { apply Hup, recoverCancellation_may; [done..|]. apply orb_true_iff in Hcancel as [->%bool_decide_eq_true| ->%bool_decide_eq_true];
      by first [left|right; left]. }
  assert (a_Status attempt ≠ "succeeded" → no_publication run attempt s) as Hn by (by intros Hs Hx).
  case_match eqn:H1'; [apply bool_decide_eq_true in H1'; apply Hup, failInterrupted_may; [done..|apply Hn; congruence]|].
  case_match eqn:H2'.
  { apply bool_decide_eq_true in H2'. case_match; apply Hup; [apply recoverNonSuccess_may|apply failInterrupted_may];
      [done|done|apply Hn; congruence|done|done|apply Hn; congruence]. }
  case_match eqn:H3'.
  { apply Hup, recoverNonSuccess_may; [done..|apply Hn].
    apply orb_true_iff in H3' as [Hx%bool_decide_eq_true|Hx%bool_decide_eq_true]; congruence. }
  case_match eqn:H4'; [apply bool_decide_eq_true in H4'; by apply resumeSucceeded_may|].
  case_match eqn:H5'; [|by split]. apply replayCompleted_may; [done..|congruence].
Qed.

(** What is known after the reads of [Recover]. *)
Record loaded (run : Run) (attempt : Attempt) (s : sight) : Prop := {
  ld_entitled : entitled s;
  ld_attempt : s_attempt s = Some attempt;
  ld_run : s_run s = r_State run;
  ld_guard : s_guard s = false;
  ld_completed : s_completed s = bool_decide (r_State run = StateCompleted);
}.

(** The attempt belongs to the scheduler resource of the fence. *)
Definition same_resource (attempt : Attempt) : Prop :=
  a_LeaseResourceType attempt = k_ResourceType (lp_LeaseKey fence) ∧
  a_LeaseResourceID attempt = k_ResourceID (lp_LeaseKey fence).

Lemma recover_admit_may (Q : result (RunID * Run * Attempt) → Outcome → sight → Prop) :
  (∀ run attempt o s, loaded run attempt s → same_resource attempt → Q (Ok (rq_RunID request, run, attempt)) o s) →
  (∀ e o s, s_guard s = false → Q (Err e) o s) →
  ok (recover_admit p request fence) noOutcome nothing_known Q.
Proof.
  intros Hok Herr. unfold recover_admit. stage_steps.
  destruct (wrapped _ _); [|by apply Herr]. stage_steps.
  destruct (authorize _ _ _) eqn:Hrun; [|by apply Herr]. apply authorize_run in Hrun as ->.
  stage_steps. apply stage_ok_perform; [done|]. intros [[authorization|]|e]; cbn [wrapped]; stage_steps; try by apply Herr.
  destruct (requireExactAuthorization _ _) eqn:Hexact; cbn [watch]; rewrite Hexact; [|by apply Herr].
  stage_steps. apply stage_ok_perform; [done|]. intros [lease|e]; cbn [wrapped]; stage_steps; [|by apply Herr].
  apply stage_ok_invoke. split; [done|]. intros [renewed|e]; cbn [always wrapped]; stage_steps; [|by apply Herr].
  apply stage_ok_perform; [by split_and!|]. intros [run|e]; cbn [wrapped]; stage_steps; [|by apply Herr].
  apply stage_ok_perform; [by split_and!|]. intros [attempt|e]; cbn [wrapped]; stage_steps; [|by apply Herr].
  destruct (fail_if _ _); [|by apply Herr]. stage_steps.
  destruct (fail_if _ _) eqn:Hres; [|by apply Herr]. unfold fail_if in Hres. case_match eqn:Hres'; [done|]. stage_steps.
  apply Hok; [split; try done; by split_and!|].
  apply orb_false_iff in Hres' as [Ht Hi]. by split; apply negb_false_iff, bool_decide_eq_true in Ht, Hi.
Qed.

Lemma recover_reconcile_may run attempt o s (Q : result Attempt → Outcome → sight → Prop) :
  loaded run attempt s → same_resource attempt →
  (∀ attempt' o s, loaded run attempt' s → Q (Ok attempt') o s) →
  (∀ e o s, s_guard s = false → Q (Err e) o s) →
  ok (recover_reconcile p request fence attempt) o s Q.
Proof.
  intros [He Ha Hr Hg Hc] [Ht Hi] Hok Herr. unfold recover_reconcile. case_match eqn:Hx; stage_steps; [by apply Hok|].
  apply negb_false_iff, andb_true_iff in Hx as [Hu Hown]. apply negb_true_iff in Hown.
  apply stage_ok_perform; [split_and!; [done|done|]|].
  { exists attempt. split_and!; [done| |done..]. by rewrite <- unsettled_spec, Hu. }
  intros [reconciled|e]; cbn [wrapped]; stage_steps; [|by apply Herr].
  apply stage_ok_perform; [done|]. intros [attempt'|e]; cbn [wrapped]; stage_steps; [|by apply Herr]. by apply Hok.
Qed.

(** Every call of [Recover] is one the protocol allows, and its result is what an
    observer may conclude. *)
Lemma Recover_always : always may see (Recover p request fence) nothing_known recovered.
Proof.
  unfold Recover. apply always_bind.
  assert (ok ('(runID, run, attempt) ← recover_admit p request fence;
              attempt ← recover_reconcile p request fence attempt;
              mret (runID, run, attempt)) noOutcome nothing_known (λ r _ s, match r with
    | Ok (runID, run, attempt) => runID = rq_RunID request ∧ loaded run attempt s
    | Err _ => s_guard s = false end)) as Hl.
  { stage_step. apply recover_admit_may; [|done]. intros run attempt o s Hl Hres. stage_step.
    apply (recover_reconcile_may run); [done..| |done]. intros attempt' o' s' Hl'. by stage_steps. }
  eapply always_mono; [exact Hl|]. intros [[[[runID run] attempt]|e] o] s; [|by split].
  intros [-> []]. by apply recover_settled_may.
Qed.
End safety.
