(* ===== verification/RecoveryProperties.v ===== *)
(** * Package [internal/execution]: what a recovery guarantees

    The protocol of [DeliveryProtocol] read as statements on the calls of a run of
    [Recover], whatever the services answer. *)

From S2P Require Import Prelude GoLib Fault Contracts Identity RunState LeasePaths Postgres DeliveryContracts.
From S2P Require Import ControlMemory AttemptRecords Leases LeaseSets DeliveryLeases PgTables PgEvents.
From S2P Require Import WorkerResults Attempts Authorizations Publications PublicationService.
From S2P Require Import Approval Programs LeaseGuard Pipeline PipelineRecovery.
From S2P Require Import DeliveryProtocol PipelineSafety PipelineProperties RecoverySafety.

(** The work of a delivery: acquiring its leases, preparing its worktree, starting,
    executing and finishing its attempt. *)
Definition starts_work (c : call) : bool :=
  match c with
  | CPrepare _ | CWorker _ | CStartAttempt _ _ _ _ | CFinishAttempt _ _ _ _ _ | CAcquireLeaseSet _ _ _ _ => true
  | _ => false
  end.

(** The calls that leave everything an interrupted delivery left behind as it is: reads,
    the renewal of the recovering scheduler's own lease, and the end of a guard the
    recovery itself has started. *)
Definition reads (c : call) : bool :=
  match c with
  | CGetAuthorization _ _ | CGetRun _ | CGetAttempt _ | CGetPublication _ _ | CGetLeaseSet _ | CLoad _
  | CVerifyLease _ _ | CRenewLease _ _ _ _ | CStopGuard | CCause | CNow => true
  | _ => false
  end.

Definition reconciles (c : call) : bool := match c with CReconcile _ _ => true | _ => false end.

(** The calls after which an attempt that was read earlier is old news. *)
Definition refreshes (c : call) : bool := match c with CGetAttempt _ | CReconcile _ _ => true | _ => false end.

Section properties.
Context `{Sha256, DeliveryJson, Schemas}.
Context (p : Pipeline) (request : DeliveryRequest) (fence : LeaseProof).

Abbreviation run := (reaches (Recover p request fence)).
Abbreviation sight_of := (seen (watch request) nothing_known).

(** The attempt of the request, as it was read last: no later call has read it again or
    may have changed it. *)
Definition last_read (attempt : Attempt) (tr : list event) : Prop :=
  ∃ tr1 tr2, tr = tr1 ++ mkEvent (CGetAttempt (rq_AttemptID request)) (Ok attempt) :: tr2 ∧
    ∀ e, e ∈ tr2 → refreshes (ev_call e) = false.

(** The human approval of exactly this request was loaded, the scheduler fence was found
    live and was renewed. *)
Definition licensed (tr : list event) : Prop :=
  approved request tr ∧
  (∃ minimum lease, mkEvent (CVerifyLease fence minimum) (Ok lease) ∈ tr) ∧
  (∃ ttl lease,
     mkEvent (CRenewLease (lp_LeaseKey fence) (lp_OwnerID fence) (lp_FencingToken fence) ttl) (Ok lease) ∈ tr).

(** The supervisor made the commit from an attempt that, read before, had succeeded. *)
Definition reconstructed (commit : CommitResult) (tr : list event) : Prop :=
  ∃ tr1 tr2 attempt, tr = tr1 ++ mkEvent (CCreateResultCommit request) (Ok commit) :: tr2 ∧
    last_read attempt tr1 ∧ a_Status attempt = "succeeded".

(** What the entries of a sight stand for. *)
Record recalled (s : sight) (tr : list event) : Prop := {
  rc_authorized : s_authorized s = true → approved request tr;
  rc_verified : s_verified s = true → ∃ minimum lease, mkEvent (CVerifyLease fence minimum) (Ok lease) ∈ tr;
  rc_fenced : s_fenced s = true → ∃ ttl lease,
    mkEvent (CRenewLease (lp_LeaseKey fence) (lp_OwnerID fence) (lp_FencingToken fence) ttl) (Ok lease) ∈ tr;
  rc_commit : ∀ commit, s_commit s = Some commit → mkEvent (CCreateResultCommit request) (Ok commit) ∈ tr;
  rc_bundle : ∀ bundle, s_bundle s = Some bundle →
    mkEvent (CLoad request) (Ok bundle) ∈ tr ∨
    ∃ commit, s_commit s = Some commit ∧ mkEvent (CValidate request commit) (Ok bundle) ∈ tr;
  rc_journal : ∀ journal, s_journal s = Some journal →
    mkEvent (CGetPublication (rq_DeliveryID request) (rq_AttemptID request)) (Ok journal) ∈ tr;
  rc_published : s_published s = true → ∃ publication publicationErr commit leaseSet,
    receipt_status publication = "published" ∧
    (mkEvent (CRecover request commit leaseSet) (publication, publicationErr) ∈ tr ∨
     ∃ bundle, mkEvent (CPublish request commit bundle leaseSet) (publication, publicationErr) ∈ tr);
  rc_completed : s_completed s = true → moved request StateCompleted tr ∨
    ∃ loaded, mkEvent (CGetRun (rq_RunID request)) (Ok loaded) ∈ tr ∧ r_State loaded = StateCompleted;
}.

Lemma recalled_aged s tr e : recalled s tr → recalled (aged s) (tr ++ [e]).
Proof.
  intros [Ha Hv Hf Hc Hb Hj Hp Hd]. split; cbn.
  - intros (? & ? & ?)%Ha. eexists. rewrite elem_of_app. eauto.
  - intros (? & ? & ?)%Hv. do 2 eexists. rewrite elem_of_app. eauto.
  - intros (? & ? & ?)%Hf. do 2 eexists. rewrite elem_of_app. eauto.
  - intros ? ?%Hc. rewrite elem_of_app. eauto.
  - intros ? [?|(? & ? & ?)]%Hb; [left|right; eexists]; rewrite elem_of_app; eauto.
  - intros ? ?%Hj. rewrite elem_of_app. eauto.
  - intros (publication & publicationErr & commit & leaseSet & ? & Hx)%Hp. exists publication, publicationErr, commit, leaseSet.
    split; [done|]. destruct Hx as [?|[? ?]]; [left|right; eexists]; rewrite elem_of_app; eauto.
  - intros [(? & ? & ? & ?)|(? & ? & ?)]%Hd; [left; do 3 eexists|right; eexists]; rewrite elem_of_app; eauto.
Qed.

Lemma recalled_step s tr c (r : answer c) :
  allowed request fence s c → recalled s tr → recalled (watch request s c r) (tr ++ [mkEvent c r]).
Proof.
  intros Hm Ht. pose proof (recalled_aged _ _ (mkEvent c r) Ht) as Hn. pose proof (elem_of_snoc tr (mkEvent c r)) as Hin.
  destruct c; cbn [watch] in *; try exact Hn.
  - destruct Hm as [-> ->]. destruct r as [[authorization|]|e]; try exact Hn.
    destruct (requireExactAuthorization _ _) as [[]|] eqn:He; [|exact Hn].
    destruct Hn. split; cbn in *; try assumption. intros _. by exists authorization.
  - destruct Hm as [-> _]. destruct r as [loaded|e]; [|exact Hn]. destruct Hn. split; cbn in *; try assumption.
    intros Hx%bool_decide_eq_true. right. by eexists.
  - destruct Hm as [-> _]. destruct r as [moved_|e]; [|exact Hn]. destruct Hn. split; cbn in *; try assumption.
    intros ->%bool_decide_eq_true. left. by do 3 eexists.
  - destruct r; destruct Hn; split; cbn in *; assumption.
  - destruct Hm as (-> & -> & _). destruct r as [journal|e]; [|exact Hn]. destruct Hn. split; cbn in *; try assumption.
    by intros ? [= <-].
  - destruct r as [[[leaseSet state]|]|e]; [..|exact Hn]; destruct Hn; split; cbn in *; assumption.
  - destruct Hn; split; cbn in *; assumption.
  - destruct Hm as [-> _]. destruct r as [lease|e]; [|exact Hn]. destruct Hn. split; cbn in *; try assumption.
    intros _. by do 2 eexists.
  - destruct Hm as (-> & -> & -> & _). destruct r as [lease|e]; destruct Hn; split; cbn in *; try assumption; [|done].
    intros _. by do 2 eexists.
  - destruct r as [renewed [e|]]; [exact Hn|]. destruct Hn; split; cbn in *; assumption.
  - destruct Hm as (-> & _). destruct r as [commit|e]; [|exact Hn]. destruct Hn. split; cbn in *; try assumption; [|done].
    by intros ? [= <-].
  - destruct r as [q [e|]]; cbn [snd]; [case_match; [|exact Hn]|]; destruct Hn; split; cbn in *; assumption.
  - destruct Hm as (-> & _ & _ & _ & Hc). destruct r as [bundle|e]; [|exact Hn]. destruct Hn. split; cbn in *; try assumption.
    intros ? [= <-]. right. by eexists.
  - destruct Hm as (-> & _). destruct r as [bundle|e]; [|exact Hn]. destruct Hn. split; cbn in *; try assumption.
    intros ? [= <-]. by left.
  - destruct Hm as (-> & _). destruct r as [publication publicationErr]. destruct Hn. split; cbn in *; try assumption; [done|].
    intros Hx%bool_decide_eq_true. do 4 eexists. split; [done|]. right. by eexists.
  - destruct Hm as (-> & _). destruct r as [publication publicationErr]. destruct Hn. split; cbn in *; try assumption; [done|].
    intros Hx%bool_decide_eq_true. do 4 eexists. split; [done|]. by left.
  - destruct Hn; split; cbn in *; assumption.
  - destruct Hn; split; cbn in *; assumption.
Qed.

Lemma lawful_recalled tr :
  lawful (allowed request fence) (watch request) nothing_known tr → recalled (sight_of tr) tr.
Proof.
  induction tr as [|[c r] tr IH] using rev_ind; [by intros _; split|].
  intros [Hl Hm]%lawful_snoc. rewrite seen_snoc. apply recalled_step; [exact Hm|]. by apply IH.
Qed.

(** The attempt a sight holds is the one that was read last. *)
Lemma watch_attempt s c r :
  s_attempt (watch request s c r) = s_attempt s ∧ refreshes c = false ∨
  refreshes c = true ∧ ∀ attempt, s_attempt (watch request s c r) = Some attempt →
    ∃ id, mkEvent c r = mkEvent (CGetAttempt id) (Ok attempt).
Proof.
  destruct c; cbn [watch refreshes]; unfold on_success; try (left; repeat case_match; done).
  - right. split; [done|]. destruct r as [attempt|e]; cbn; [|done]. intros ? [= <-]. by eexists.
  - by right.
Qed.

Lemma lawful_attempt tr attempt :
  lawful (allowed request fence) (watch request) nothing_known tr →
  s_attempt (sight_of tr) = Some attempt → last_read attempt tr.
Proof.
  induction tr as [|[c r] tr IH] using rev_ind; [done|]. intros [Hl Hm]%lawful_snoc. rewrite seen_snoc.
  cbn [ev_call ev_answer]. destruct (watch_attempt (sight_of tr) c r) as [[-> Hold]|[_ Hnew]].
  - intros (tr1 & tr2 & -> & Hlater)%IH; [|done]. exists tr1, (tr2 ++ [mkEvent c r]). split; [by rewrite <-app_assoc|].
    intros e [He|He%list_elem_of_singleton]%elem_of_app; [by apply Hlater|by subst e].
  - intros [id He]%Hnew. exists tr, []. split; [|by intros e ?%elem_of_nil].
    rewrite He in *. by destruct Hm as [-> _].
Qed.

Lemma run_lawful tr q : run tr q → lawful (allowed request fence) (watch request) nothing_known tr.
Proof. intros Hr. eapply always_lawful; [apply Recover_always|exact Hr]. Qed.

Lemma run_allowed tr c k : run tr (Call c k) → allowed request fence (sight_of tr) c.
Proof. intros Hr. eapply always_call; [apply Recover_always|exact Hr]. Qed.

Lemma entitled_licensed tr :
  lawful (allowed request fence) (watch request) nothing_known tr → entitled (sight_of tr) → licensed tr.
Proof. intros []%lawful_recalled (? & ? & ?). split_and!; auto. Qed.

Lemma quiet_licensed tr status :
  lawful (allowed request fence) (watch request) nothing_known tr → quiet status (sight_of tr) →
  licensed tr ∧ ∃ attempt, last_read attempt tr ∧ a_Status attempt = status ∧ at_rest status.
Proof.
  intros Hl (He & Hu & attempt & Hat & Hs). split; [by apply entitled_licensed|]. exists attempt.
  by split; [apply lawful_attempt|].
Qed.

Lemma lawful_reconstructed tr commit :
  lawful (allowed request fence) (watch request) nothing_known tr →
  s_commit (sight_of tr) = Some commit → reconstructed commit tr.
Proof.
  intros Hl Hc. apply (rc_commit _ _ (lawful_recalled _ Hl)) in Hc. apply list_elem_of_split in Hc as (tr1 & tr2 & ->).
  pose proof (Hl tr1 _ tr2 eq_refl) as (_ & Hq & _). destruct (quiet_licensed tr1 "succeeded") as (_ & attempt & Hr & Hs & _).
  - intros a e b ->. apply (Hl a e (b ++ mkEvent (CCreateResultCommit request) (Ok commit) :: tr2)).
    by rewrite <-app_assoc.
  - exact Hq.
  - by exists tr1, tr2, attempt.
Qed.

(** Everything but reads and the reconciliation waits for an attempt at rest. *)
Lemma allowed_quiet s c : allowed request fence s c → reads c = false → reconciles c = false → ∃ status, quiet status s.
Proof.
  intros Hm Hr Hc. destruct c; try done; cbn in Hm.
  - destruct Hm as [_ Hm]. unfold allowed_transition in Hm. naive_solver.
  - destruct Hm as [? _]. by eexists.
  - by destruct Hm as [? _].
  - destruct Hm as (_ & ? & _). by eexists.
  - destruct Hm as (_ & _ & ? & ? & _). by eexists.
  - destruct Hm as (_ & ? & _). by eexists.
  - destruct Hm as (_ & ? & _). by eexists.
  - destruct Hm as (_ & (? & ? & _) & _). by eexists.
  - destruct Hm as (_ & ? & _). by eexists.
Qed.

(** C11. Whatever the services answer, every call [Recover] makes is one the recovery
    protocol allows, and when it returns no guard is left running. None of the calls
    acquires leases or prepares, starts, executes or finishes an attempt; an abandoned
    attempt is ended by the fenced reconciliation alone. *)
Theorem recovery_keeps_protocol tr q :
  run tr q →
  lawful (allowed request fence) (watch request) nothing_known tr ∧
  (∀ e, e ∈ tr → starts_work (ev_call e) = false) ∧
  ∀ answered, q = Return answered → recovered answered (sight_of tr).
Proof.
  intros Hr. split_and!.
  - by eapply run_lawful.
  - intros e (tr1 & tr2 & ->)%list_elem_of_split. apply run_lawful in Hr. pose proof (Hr tr1 e tr2 eq_refl) as Hm.
    by destruct (ev_call e).
  - intros answered ->. eapply always_result; [apply Recover_always|exact Hr].
Qed.

(** C12. Any call of a recovery that does more than read comes after the human approval
    of exactly this request was loaded and the scheduler fence was verified and renewed.
    The only such call made of an attempt that may be running is the reconciliation of
    abandoned attempts, under that fence, when the attempt as last read belongs to the
    same scheduler resource and to another holder of it. Every other one waits until the
    request's own attempt was read, after any reconciliation, in a state in which no
    process of it can be running: neither queued nor running. *)
Theorem recovery_waits_for_quiescence tr c k :
  run tr (Call c k) → reads c = false →
  licensed tr ∧ ∃ attempt, last_read attempt tr ∧
    (reconciles c = false → at_rest (a_Status attempt)) ∧
    (∀ md f, c = CReconcile md f → f = fence ∧ ¬ at_rest (a_Status attempt) ∧
       attemptOwnedByFence attempt fence = false ∧ same_resource fence attempt).
Proof.
  intros Hr Hc. pose proof (run_lawful _ _ Hr) as Hl. apply run_allowed in Hr. destruct (reconciles c) eqn:Hx.
  - destruct c; try done. destruct Hr as (-> & He & attempt & Ha & Hn & Ho & Ht & Hi).
    split; [by apply entitled_licensed|]. exists attempt. split_and!; [by apply lawful_attempt|done|].
    by intros md' f [= -> <-].
  - destruct (allowed_quiet _ _ Hr Hc Hx) as [status Hq].
    destruct (quiet_licensed _ _ Hl Hq) as (Ha & attempt & Hread & <- & Hrest). split; [done|].
    exists attempt. split_and!; [done..|]. by intros md f ->.
Qed.

(** C13. A recovery publishes anew only when the journal showed no intent and the
    request's attempt, as last read, has succeeded, for the commit the supervisor
    reconstructed from that succeeded attempt, with a bundle that passed, loaded from the
    persisted evidence or validated again for that commit. Otherwise it replays the
    journaled intent, for the commit of its receipt, of an attempt that is at rest and
    has succeeded or whose run is completed. *)
Theorem recovery_publishes_validated tr c k :
  run tr (Call c k) →
  (∀ r commit bundle leaseSet, c = CPublish r commit bundle leaseSet →
     r = request ∧ mkEvent (CGetPublication (rq_DeliveryID request) (rq_AttemptID request)) (Ok None) ∈ tr ∧
     (∃ attempt, last_read attempt tr ∧ a_Status attempt = "succeeded") ∧ reconstructed commit tr ∧
     vr_Status (vb_Report bundle) = "passed" ∧
     (mkEvent (CLoad request) (Ok bundle) ∈ tr ∨ mkEvent (CValidate request commit) (Ok bundle) ∈ tr)) ∧
  (∀ r commit leaseSet, c = CRecover r commit leaseSet →
     r = request ∧
     (∃ record, commitFromPublication record = Ok commit ∧
       mkEvent (CGetPublication (rq_DeliveryID request) (rq_AttemptID request)) (Ok (Some record)) ∈ tr) ∧
     ∃ attempt, last_read attempt tr ∧ at_rest (a_Status attempt) ∧
       (a_Status attempt = "succeeded" ∨ moved request StateCompleted tr ∨
        ∃ loaded, mkEvent (CGetRun (rq_RunID request)) (Ok loaded) ∈ tr ∧ r_State loaded = StateCompleted)).
Proof.
  intros Hr. pose proof (run_lawful _ _ Hr) as Hl. pose proof (lawful_recalled _ Hl) as Hrc. apply run_allowed in Hr. split.
  - intros r commit bundle leaseSet ->. destruct Hr as (-> & Hq & Sj & Sc & Sb & Hpass & _).
    destruct (quiet_licensed _ _ Hl Hq) as (_ & attempt & Hread & Hs & _).
    split_and!; [done|by apply (rc_journal _ _ Hrc)|by exists attempt|by apply lawful_reconstructed|done|].
    destruct (rc_bundle _ _ Hrc _ Sb) as [Hb|(commit' & Sc' & Hv)]; [by left|right].
    rewrite Sc in Sc'. by injection Sc' as <-.
  - intros r commit leaseSet ->. destruct Hr as (-> & (status & Hq & Hdone) & _ & record & Sj & Hcommit).
    destruct (quiet_licensed _ _ Hl Hq) as (_ & attempt & Hread & <- & Hrest).
    split_and!; [done|exists record; split; [done|by apply (rc_journal _ _ Hrc)]|]. exists attempt. split_and!; [done..|].
    destruct Hdone as [?|?%(rc_completed _ _ Hrc)]; [by left|by right].
Qed.

(** [Recover] returns no error only if a published receipt came back from the
    publisher, and the run is completed: it was moved there, or was found there. *)
Theorem nil_recovery_is_delivery tr outcome :
  run tr (Return (outcome, None)) →
  (∃ publication publicationErr commit leaseSet, receipt_status publication = "published" ∧
    (mkEvent (CRecover request commit leaseSet) (publication, publicationErr) ∈ tr ∨
     ∃ bundle, mkEvent (CPublish request commit bundle leaseSet) (publication, publicationErr) ∈ tr)) ∧
  (moved request StateCompleted tr ∨
   ∃ loaded, mkEvent (CGetRun (rq_RunID request)) (Ok loaded) ∈ tr ∧ r_State loaded = StateCompleted).
Proof.
  intros Hr. pose proof (lawful_recalled _ (run_lawful _ _ Hr)) as Hrc.
  destruct (always_result _ _ _ _ _ _ _ (Recover_always p request fence) Hr) as (_ & Hx).
  destruct (Hx eq_refl) as [Hpub Hcomp]. by split; [apply (rc_published _ _ Hrc)|apply (rc_completed _ _ Hrc)].
Qed.
End properties.
