(* ===== verification/DeliveryWorld.v ===== *)
(** * A delivery in the whole system

    The calls of a delivery answered by the components of this development: the
    authorization is read from the database, the publication is that of the
    publication service, and every other service is free. Around every call the rest
    of the system goes on: commands, schedulers, leases, projections, other
    deliveries, and whoever else changes Git. *)

From S2P Require Import Prelude GoLib Fault Contracts Identity RunState LeasePaths.
From S2P Require Import ControlMemory Governance ControlRefinement AttemptRecords Postgres DeliveryContracts.
From S2P Require Import Leases LeaseSets LeaseExpansion DeliveryScopes DeliveryLeases LeaseSafety.
From S2P Require Import PgTables PgEvents Publications PgLogic PublicationEffects PublicationWorld.
From S2P Require Import PgControl PgEffects PgRefinement PgStreams.
From S2P Require Import Queue Outbox ProjectionDeliveries RunProjection RunReplay StreamEffects PgSystem.
From S2P Require Import WorkerResults Attempts AttemptEffects Authorizations AuthorizationEffects PgProperties.
From S2P Require Import AttemptProperties AuthorizationProperties PublicationProperties.
From S2P Require Import PublicationService PublicationGit PublicationServiceLogic PublicationServiceProperties PublicationHistories.
From S2P Require Import Approval Programs LeaseGuard Pipeline DeliveryProtocol PipelineSafety PipelineProperties.

Section world.
Context `{Clock, !ClockStarted, Database, Sha256, Json, !Jsonb, Entropy, Sequences, UuidText}.
Context `{!JsonCodec Run, !JsonCodec Sprint, !JsonCodec Decision, !JsonCodec AuditRecord,
          !JsonCodec PlanResult, !JsonCodec SubmissionResult, !JsonCodec DecisionResult}.
Context `{!UuidLaws, !RunCodecLaws, RowLocks, TextOrder, Visits, TimeText, Collation, DeliveryJson}.
Context `{!AttemptCodecs, !JsonCodec WorkerResult, !WorkerContracts, ReportJson, !AuthorizationContracts}.
Context {G : Type} `{Schemas, !Host G} `{!GitRefs G, !GitLaws G}.
Implicit Types (w : World G) (t : Forja).
Context (service : PublicationService).

(** ** The world *)

(** A step of the system, or something that leaves the rows alone: a read, the passing
    of time. *)
Definition tick w w' : Prop := wstep w w' ∨ tables (db w') = tables (db w).

Definition publication_answer (r : result (PublicationResult * option error)) : PublicationResult * option error :=
  match r with Ok answer => answer | Err err => (noResult, Some err) end.

Definition serves w (c : call) : answer c → World G → Prop :=
  match c return answer c → World G → Prop with
  | CGetAuthorization d a => λ r w',
      ∃ s', GetDeliveryAuthorization (sv_store service) d a (db w) = (r, s') ∧ w' = mkWorld s' (git w)
  | CPublish request commit bundle leaseSet => λ r w',
      ∃ r', Publish service request commit bundle leaseSet w = (r', w') ∧ r = publication_answer r'
  | CRecover request commit leaseSet => λ r w',
      ∃ r', PublicationService.Recover service request commit leaseSet w = (r', w') ∧ r = publication_answer r'
  | _ => λ _ w', rtc tick w w'
  end.

(** A whole run of a program, with its calls. *)
Inductive carries {A} : prog A → World G → list event → A → World G → Prop :=
| carry_return a w : carries (Return a) w [] a w
| carry_call c k w w1 r w2 tr a w3 :
    rtc tick w w1 → serves w1 c r w2 → carries (k r) w2 tr a w3 →
    carries (Call c k) w (mkEvent c r :: tr) a w3.

Lemma carries_reaches {A} (p : prog A) w tr a w' : carries p w tr a w' → reaches p tr (Return a).
Proof. induction 1; by constructor. Qed.

(** ** Invariants *)

Definition world_ok t : Prop := delivery_ok t ∧ approvals_ok t.

Lemma journal_approvals st intent t t' : journal_effect st intent t t' → approvals_ok t → approvals_ok t'.
Proof.
  intros Heff [Hl Hu]. destruct Heff; [done|..]; (split; [|exact Hu]); intros e He Ha;
    destruct (Hl e He Ha) as [auth Hla]; exists auth; (eapply lawful_carried; [|exact Hla]; done).
Qed.

Lemma wstep_approvals w w' : wstep w w' → approvals_ok (tables (db w)) → approvals_ok (tables (db w')).
Proof.
  destruct 1 as [a s' Hstep|st op r w' Hrun|g]; cbn; [by eapply step_approvals_ok| |done].
  apply publication_effect in Hrun as [intent Heff]. by eapply journal_approvals.
Qed.

Lemma tick_ok w w' : tick w w' → world_ok (tables (db w)) → world_ok (tables (db w')).
Proof. intros [Hs| ->]; [|done]. intros [Hd Ha]. split; [by eapply wstep_ok|by eapply wstep_approvals]. Qed.

Lemma ticks_ok w w' : rtc tick w w' → world_ok (tables (db w)) → world_ok (tables (db w')).
Proof. induction 1 as [|w w1 w' Ht _ IH]; [done|]. intros Hok. by eapply IH, tick_ok. Qed.

Lemma steps_ticks w w' : rtc wstep w w' → rtc tick w w'.
Proof. induction 1 as [|w w1 w' Hs _ IH]; [done|]. econstructor; [by left|done]. Qed.

Lemma Get_reader st d a : reader (GetDeliveryAuthorization st d a).
Proof. unfold GetDeliveryAuthorization. reading. Qed.

Lemma serves_ticks w c (r : answer c) w' : serves w c r w' → rtc tick w w'.
Proof.
  destruct c; cbn; try done.
  - intros (s' & Hrun & ->). apply rtc_once. right. apply (Get_reader _ _ _ _ _ _ Hrun).
  - intros (r' & Hrun & _). eapply steps_ticks, history_publish, Hrun.
  - intros (r' & Hrun & _). eapply steps_ticks, history_recovery, Hrun.
Qed.

Lemma carries_ticks {A} (p : prog A) w tr a w' : carries p w tr a w' → rtc tick w w'.
Proof. induction 1 as [|c k w w1 r w2 tr a w3 Ht Hs _ IH]; [done|]. etrans; [done|]. etrans; [by eapply serves_ticks|done]. Qed.

(** Every call of a run was served somewhere along the way. *)
Lemma carries_event {A} (p : prog A) w tr a w' e :
  carries p w tr a w' → e ∈ tr →
  ∃ w1 w2, rtc tick w w1 ∧ serves w1 (ev_call e) (ev_answer e) w2 ∧ rtc tick w2 w'.
Proof.
  induction 1 as [|c k w w1 r w2 tr a w3 Ht Hs Hc IH]; [by intros ?%not_elem_of_nil|].
  intros [->|Hin]%elem_of_cons.
  - exists w1, w2. split_and!; [done|done|by eapply carries_ticks].
  - destruct (IH Hin) as (w1' & w2' & ? & ? & ?). exists w1', w2'. split_and!; [|done..].
    etrans; [done|]. etrans; [by eapply serves_ticks|done].
Qed.

(** ** Approvals *)

(** The approval event behind a loaded authorization. *)
Definition rests_on (request : DeliveryRequest) (e : EventRow) (original : DeliveryAuthorization) t : Prop :=
  e ∈ events (stream t) ∧ ev_scope e = store_scope (sv_store service) ∧
  ev_aggregate e = deliveryAuthorizationAggregateID (rq_DeliveryID request) (rq_AttemptID request) ∧
  lawful_approval t e original ∧
  ∃ auth, Decode (ev_payload e) = Ok auth ∧ da_ApprovedBy auth = da_ApprovedBy original ∧
    requireExactAuthorization request auth = Ok tt.

Lemma loaded_rests_on request auth s s' :
  world_ok (tables s) →
  GetDeliveryAuthorization (sv_store service) (rq_DeliveryID request) (rq_AttemptID request) s = (Ok (Some auth), s') →
  requireExactAuthorization request auth = Ok tt → ∃ e original, rests_on request e original (tables s').
Proof.
  intros [_ [Hl _]] Hrun Hex. rewrite (proj1 (Get_reader _ _ _ _ _ _ Hrun)).
  destruct (wp_run _ _ _ _ _ (wp_Get _ _ _ _) Hrun auth eq_refl) as (e & encoded & digest & He & Hev & Hdec & _ & Hc).
  apply authorization_event_true in Hev as (Hsc & Hap & Hag & _). destruct (Hl e He Hap) as [original Hla].
  exists e, original. split_and!; [done..|]. exists auth. split_and!; [done| |done].
  destruct Hc as (_ & Hby & _). pose proof (la_actor _ _ _ Hla) as (_ & Hx & _). congruence.
Qed.

Lemma rests_on_tick request e original w w' :
  tick w w' → rests_on request e original (tables (db w)) → rests_on request e original (tables (db w')).
Proof.
  intros [Hs|Heq]; [|by rewrite Heq]. intros (He & Hsc & Hag & Hla & Hauth). split_and!; try done.
  - destruct Hs as [a s' Hstep|st op r w' Hrun|g]; cbn; [| |done].
    + destruct (step_log _ _ _ Hstep) as (new & -> & _). apply elem_of_app. by left.
    + apply publication_effect in Hrun as [intent Heff]. by destruct Heff.
  - eapply lawful_carried; [|exact Hla]. intros id d Hd Hst.
    destruct Hs as [a s' Hstep|st op r w' Hrun|g]; cbn; [by eapply step_decided| |done].
    apply publication_effect in Hrun as [intent Heff]. by destruct Heff.
Qed.

Lemma rests_on_ticks request e original w w' :
  rtc tick w w' → rests_on request e original (tables (db w)) → rests_on request e original (tables (db w')).
Proof. induction 1 as [|w w1 w' Ht _ IH]; [done|]. intros Hr. by eapply IH, rests_on_tick. Qed.

(** ** Publications *)

Definition published_row (request : DeliveryRequest) (commit : CommitResult) t : Prop :=
  ∃ row : PublicationRow, rows_of t !! (store_scope (sv_store service), rq_DeliveryID request, rq_AttemptID request) = Some row ∧
    pb_state row = "published" ∧ pb_result row = cr_ResultCommit commit ∧ pb_ref row = rq_PublicationRef request.

Lemma published_row_tick request commit w w' :
  tick w w' → published_row request commit (tables (db w)) → published_row request commit (tables (db w')).
Proof.
  intros [Hs|Heq]; [|by unfold published_row; rewrite Heq]. intros (row & Hrow & Hst & Hres & Href).
  destruct (wstep_row _ _ _ _ Hs Hrow) as (row' & Hrow' & [->|(Hp & _)]); [by exists row|congruence].
Qed.

Lemma published_row_ticks request commit w w' :
  rtc tick w w' → published_row request commit (tables (db w)) → published_row request commit (tables (db w')).
Proof. induction 1 as [|w w1 w' Ht _ IH]; [done|]. intros Hr. by eapply IH, published_row_tick. Qed.

Lemma publish_rows request commit bundle leaseSet w outcome err w' :
  Publish service request commit bundle leaseSet w = (Ok (outcome, err), w') → cr_ResultCommit commit ≠ zeroCommit →
  published_row request commit (tables (db w')).
Proof.
  intros Hrun Hnz. destruct (owp_run _ _ _ _ _ (Publish_spec _ _ _ _ _ _ Hnz) Hrun) as [_ Hrec].
  destruct Hrec as (receipt & intent & _ & [[Hd Ha Href _ Hres] _ _] & (pubs & row & Hj & Hrow & Hscan & Hst) & _).
  exists row. unfold rows_of. rewrite Hj. cbn. unfold intent_key in Hrow. rewrite Hd, Ha in Hrow.
  apply list_elem_of_singleton in Hst. split_and!; [exact Hrow|done| |].
  - rewrite <-Hres, <-Hscan. done.
  - rewrite <-Href, <-Hscan. done.
Qed.

(** ** A delivery from end to end *)

Lemma published_answer r : receipt_status (publication_answer r).1 = "published" → ∃ outcome err, r = Ok (outcome, err).
Proof. destruct r as [[outcome err]|e]; [by eauto|done]. Qed.

(** C5. End to end: when [Execute] returns no error, in any history of the whole system
    and whatever the services without a model answered, then in the final state the
    journal has a published row for this delivery and attempt, with the reference of the
    request and the result commit that the validator passed; the attempt has succeeded
    and its run is being validated or is completed; and the delivery rests on an approval
    event that an independent human earned, read back for a request with this digest.
    Of the supervisor it is only assumed that it never reports the zero object name,
    Git's notation for no commit, as the commit it created. *)
Theorem delivery_is_real p request fence w0 w tr outcome w' :
  unpublished_yet (tables (db w0)) → rtc tick w0 w →
  carries (Execute p request fence) w tr (outcome, None) w' →
  (∀ commit, mkEvent (CCreateResultCommit request) (Ok commit) ∈ tr → cr_ResultCommit commit ≠ zeroCommit) →
  let t := tables (db w') in
  (∃ e original, rests_on request e original t) ∧
  (∃ commit bundle, mkEvent (CValidate request commit) (Ok bundle) ∈ tr ∧
     vr_Status (vb_Report bundle) = "passed" ∧ published_row request commit t) ∧
  ∃ a r, attempts (work t) !! rq_AttemptID request = Some a ∧ at_status a = "succeeded" ∧
    runs (canonical t) !! at_run a = Some r ∧ run_scope r = store_scope (sv_store service) ∧
    run_state r ∈ [StateValidating; StateCompleted].
Proof.
  intros Hfresh Hw Hc Hnz t.
  assert (∀ w1, rtc tick w0 w1 → world_ok (tables (db w1))) as Hok.
  { intros w1 Ht. eapply ticks_ok; [exact Ht|]. split; [by apply unpublished_yet_ok|apply fresh_approvals_ok, Hfresh]. }
  pose proof (carries_reaches _ _ _ _ _ Hc) as Hr. pose proof (carries_ticks _ _ _ _ _ Hc) as Hend.
  destruct (nil_error_is_delivery p request fence _ _ Hr) as (_ & commit & bundle & leaseSet & publication & publicationErr & Hpub & Hst).
  pose proof Hpub as (tr1 & tr2 & Htr)%list_elem_of_split. rewrite Htr in Hr. apply reaches_cut in Hr as [k Hk].
  destruct (publish_evidence p request fence _ _ _ _ _ _ Hk) as (_ & (auth & Hauth & Hex) & _ & Hcommit & Hval & Hpass & _).
  assert (∀ e, e ∈ tr1 → e ∈ tr) as Hsub by (intros e He; rewrite Htr; apply elem_of_app; by left).
  destruct (carries_event _ _ _ _ _ _ Hc (Hsub _ Hauth)) as (wa & wb & Hwa & (s' & Hget & ->) & Hwb).
  destruct (carries_event _ _ _ _ _ _ Hc Hpub) as (wc & wd & Hwc & (r' & Hrun & Hans) & Hwd). cbn in Hrun, Hans.
  assert (receipt_status (publication_answer r').1 = "published") as Hst' by (by rewrite <-Hans).
  apply published_answer in Hst' as (o & err & ->).
  assert (published_row request commit t) as Hrow.
  { eapply published_row_ticks; [exact Hwd|]. eapply publish_rows; [exact Hrun|]. by apply Hnz, Hsub. }
  split_and!.
  - destruct (loaded_rests_on request auth (db wa) s') as (e & original & Hrest); [|exact Hget|exact Hex|].
    { apply Hok. by transitivity w. }
    exists e, original. by eapply rests_on_ticks; [exact Hwb|].
  - exists commit, bundle. split_and!; [by apply Hsub|done..].
  - destruct Hrow as (row & Hrow & Hpst & _). destruct (Hok w' ltac:(by transitivity w)) as [Hd _].
    destruct (dk_pins _ Hd _ _ Hrow) as (a & r & Ha & _ & Hs & Hrn & Hsc & Hstate).
    { unfold active. apply bool_decide_eq_true. set_solver. }
    exists a, r. split_and!; [done..|]. destruct Hstate as [->|[_ ->]]; set_solver.
Qed.
End world.
