(* ===== verification/ExecutionSample.v ===== *)
(** * A concrete delivery and a concrete recovery

    The request of [DeliverySample], carried out by services that always succeed, by
    a worker that fails, and by services that answer an error the pipeline loses sight
    of; and its recovery. *)

From S2P Require Import Prelude GoLib Fault Contracts Identity RunState LeasePaths Postgres DeliveryContracts.
From S2P Require Import ControlMemory AttemptRecords Leases LeaseSets DeliveryLeases DeliverySample PgTables PgEvents.
From S2P Require Import WorkerResults Attempts Authorizations Publications PublicationService.
From S2P Require Import Approval Programs LeaseGuard Pipeline PipelineRecovery.
From S2P Require Import DeliveryProtocol PipelineSafety PipelineProperties.
From S2P Require Import RecoverySafety RecoveryProperties.
From S2P Require Import Governance ControlRefinement.
From S2P Require Import LeaseExpansion DeliveryScopes LeaseSafety.
From S2P Require Import PgLogic PublicationEffects PublicationWorld.
From S2P Require Import PgControl PgEffects PgSample PgRefinement PgStreams.
From S2P Require Import Queue Outbox ProjectionDeliveries RunProjection RunReplay StreamEffects PgSystem.
From S2P Require Import AttemptEffects AuthorizationEffects PgProperties.
From S2P Require Import AttemptProperties AuthorizationProperties PublicationProperties SystemSample PublicationSample AuthorizationSample.
From S2P Require Import PublicationGit PublicationServiceLogic PublicationServiceProperties PublicationHistories.
From S2P Require Import PublicationServiceSample.
From S2P Require Import DeliveryWorld.

Module Delivering.
Import Documents.

#[export] Instance texts : Json := { json := WorkerResult; json_strings _ := "" }.
#[export] Instance results : JsonCodec WorkerResult := { Marshal := Ok; Decode := Ok }.
#[export] Instance contracts : WorkerContracts := { registry_err := None; worker_result_schema _ := None }.
#[export] Instance schemas : Schemas := { NewRegistry := None; ValidateJSON _ _ := None }.

Definition pipeline : Pipeline := mkPipeline (mkAuthority uuid1 uuid1) "owner".
Definition fence_of : LeaseProof := mkLeaseProof (mkLeaseKey uuid1 uuid1 "scheduler" "main") "sched" 1.

Definition authorization : DeliveryAuthorization := mkAuthorization request sha_text "human" (moment 1).
Definition run_in (state : string) : Run := mkRun run_id "1.0" "objective" state 4 (moment 1) (moment 1).
Definition attempt_in (status : string) : Attempt :=
  mkAttempt attempt run_id 1 status "scheduler" "main" "sched" 1 None None 1 (moment 1) (moment 1).
Definition lease : Lease := mkLease (lp_LeaseKey fence_of) "sched" 1 (moment 1) (moment 9).
Definition set_of (owner : string) : LeaseSet := mkLeaseSet attempt owner [] (moment 1) (moment 9).
Definition worktree : Worktree := mkWorktree delivery attempt "/work/repo" "/work/trees/a" "/work/repo/.git" commit.
Definition quarantine : QuarantineResult := mkQuarantine "/work/trees/a" "/work/quarantine/a" true.
Definition success : WorkerResult :=
  mkWorkerResult "task" attempt run_id "1.0" "adapter" "succeeded" false "completed" (moment 2) (moment 3) 1000
    (Some 0%Z) "" "" sha_text sha_text (mkWorkerUsage 0 0 0 0) None None.
Definition made : CommitResult := mkCommitResult commit commit commit sha_text ["src/a"].
Definition passed : ValidationBundle := mkBundle report "report" manifest "manifest" "" "" "/work/trees".

(** Everything succeeds. *)
Definition willing (c : call) : answer c :=
  match c return answer c with
  | CGetAuthorization _ _ => Ok (Some authorization)
  | CGetRun _ => Ok (run_in StateQueued)
  | CTransitionRun _ _ target _ => Ok (run_in target)
  | CGetAttempt _ => Ok (attempt_in "queued")
  | CStartAttempt _ _ _ _ => Ok (attempt_in "running")
  | CFinishAttempt _ _ result _ _ => Ok (attempt_in (wr_Status result))
  | CGetPublication _ _ => Ok None
  | CGetLeaseSet _ => Ok (Some (set_of "owner", "active"))
  | CReconcile _ _ => Ok []
  | CVerifyLease _ _ | CRenewLease _ _ _ _ => Ok lease
  | CAcquireLeaseSet _ _ owner _ => Ok (set_of owner)
  | CRenewLeaseSet leaseSet _ => (leaseSet, None)
  | CReleaseLeaseSet _ => Ok tt
  | CPrepare _ => Ok worktree
  | CCreateResultCommit _ => Ok made
  | CQuarantine _ => (quarantine, None)
  | CWorker _ => (success, None)
  | CValidate _ _ | CLoad _ => Ok passed
  | CPublish _ _ _ _ | CRecover _ _ _ => (mkPublicationResult (Some receipt) false true, None)
  | CStartGuard _ _ _ _ => tt
  | CStopGuard => (set_of "owner", None)
  | CCause => None
  | CNow => moment 5
  end.

(** The worker ends without success. *)
Definition failing (c : call) : answer c :=
  match c return answer c with
  | CWorker _ => (mkWorkerResult "task" attempt run_id "1.0" "adapter" "failed_retryable" true "exit" (moment 2)
      (moment 3) 1000 None "" "" sha_text sha_text (mkWorkerUsage 0 0 0 0) None None, None)
  | c => willing c
  end.

(** The run cannot be marked running. *)
Definition unmarked (c : call) : answer c :=
  match c return answer c with
  | CTransitionRun _ _ target _ =>
      if bool_decide (target = StateRunning) then Err (plain_error "connection lost") else Ok (run_in target)
  | c => willing c
  end.

(** The lease set cannot be renewed after the worker; the store answers an error with
    the zero set. *)
Definition unrenewed (c : call) : answer c :=
  match c return answer c with
  | CStopGuard => (set_of "stopped", None)
  | CRenewLeaseSet leaseSet _ =>
      if bool_decide (ls_OwnerID leaseSet = "stopped") then (zeroLeaseSet, Some (plain_error "connection lost"))
      else (leaseSet, None)
  | c => willing c
  end.

Abbreviation deliver := (Execute pipeline request fence_of).
Definition calls (oracle : ∀ c, answer c) (n : nat) : list event := (play oracle n deliver).1.

(** ** Errors that overwrite a variable *)

(** [run, err = p.transition(...)]: when the run cannot be marked running, the attempt
    is finished and the worktree put away, but the transition that should fail the run
    carries version 0, which [TransitionRun] refuses. *)
Example start_failure_forgets_version : first_call (play unmarked 18 deliver).2 =
  Some (CTransitionRun run_id 0 StateFailedRetryable (metadata pipeline request "run-start-failed")).
Proof. vm_compute. reflexivity. Qed.

(** [leaseSet, err = p.repository.RenewLeaseSet(...)]: when the renewal after the worker
    fails, the cleanup releases the zero set in place of the one that is held. *)
Example failed_renewal_forgets_leases :
  first_call (play unrenewed 18 deliver).2 = Some (CReleaseLeaseSet zeroLeaseSet).
Proof. vm_compute. reflexivity. Qed.

(** ** Witnesses *)

Lemma execute_keeps_protocol_witness :
  ∃ outcome, reaches deliver (calls willing 27) (Return (outcome, None)) ∧
    delivered (outcome, None) (seen (see request) nothing_seen (calls willing 27)).
Proof.
  eexists. assert (reaches deliver (calls willing 27) (Return (_, None))) as Hr
    by (apply play_returns; vm_compute; reflexivity).
  split; [exact Hr|]. by apply (execute_keeps_protocol pipeline request fence_of _ _ Hr).
Defined.

Lemma worker_needs_approval_witness : approved request (calls willing 13).
Proof.
  destruct (play_calls willing 13 deliver (CWorker (workerTaskFrom request worktree))) as [k Hk];
    [vm_compute; reflexivity|].
  apply (worker_needs_approval pipeline request fence_of _ _ _ Hk).
Defined.

Lemma publish_needs_validation_witness :
  mkEvent (CValidate request made) (Ok passed) ∈ calls willing 25 ∧
  both_renewed request fence_of (set_of "owner") (calls willing 25).
Proof.
  destruct (play_calls willing 25 deliver (CPublish request made passed (set_of "owner"))) as [k Hk];
    [vm_compute; reflexivity|].
  destruct (publish_needs_validation pipeline request fence_of _ _ _ _ _ _ Hk) as (_ & _ & _ & _ & Hv & _ & Hb).
  by split.
Defined.

Lemma release_is_safe_witness : each_followed is_prepare (put_away request fence_of) (calls failing 17).
Proof.
  destruct (play_calls failing 17 deliver (CReleaseLeaseSet (set_of "owner"))) as [k Hk]; [vm_compute; reflexivity|].
  destruct (release_is_safe pipeline request fence_of _ _ _ Hk) as [Hs _]. by apply (Hs _ eq_refl).
Defined.

Lemma failed_run_is_quiescent_witness : ∃ result, recorded request fence_of result (calls failing 18).
Proof.
  destruct (play_calls failing 18 deliver (CTransitionRun run_id 4 StateFailedRetryable
    (metadata pipeline request "worker-retryable"))) as [k Hk]; [vm_compute; reflexivity|].
  apply (failed_run_is_quiescent pipeline request fence_of _ _ _ _ _ _ Hk). by left.
Defined.

Lemma nil_error_is_delivery_witness : moved request StateCompleted (calls willing 27).
Proof.
  assert (∃ outcome, reaches deliver (calls willing 27) (Return (outcome, None))) as [outcome Hr]
    by (eexists; apply play_returns; vm_compute; reflexivity).
  apply (nil_error_is_delivery pipeline request fence_of _ _ Hr).
Defined.
End Delivering.

(** ** Recovery

    The same delivery interrupted after its worker had succeeded: the run
    is validating, the attempt succeeded and the journal holds no intent. The recovery
    loads the evidence, publishes and completes the run. *)

Module Recovering.
Import Documents Delivering.

Definition interrupted (c : call) : answer c :=
  match c return answer c with
  | CGetRun _ => Ok (run_in StateValidating)
  | CGetAttempt _ => Ok (attempt_in "succeeded")
  | c => willing c
  end.

(** The process stopped between the swap of the reference and the receipt, and the leases
    expired before the recovery: the set is still marked active, and its renewal is
    refused with the zero set. *)
Definition journaled : DeliveryPublication :=
  mkPublication (mkIntent delivery uuid1 uuid1 attempt attempt 60000 "refs/heads/forja/result" None commit
    sha_text sha_text sha_text "receipt") "prepared" None (moment 4) None (moment 4).
Definition expired (c : call) : answer c :=
  match c return answer c with
  | CGetPublication _ _ => Ok (Some journaled)
  | CRenewLeaseSet _ _ => (zeroLeaseSet, Some (plain_error "lease set is stale"))
  | c => interrupted c
  end.

Abbreviation recover := (PipelineRecovery.Recover pipeline request fence_of).
Definition steps (n : nat) : list event := (play interrupted n recover).1.

(** [leaseSet, err = p.repository.RenewLeaseSet(...)] in [resumeSucceeded]: the publisher
    is asked to recover with the zero set, which it refuses. *)
Example expired_recovery_forgets_leases : ∃ commit,
  first_call (play expired 8 recover).2 = Some (CRecover request commit zeroLeaseSet).
Proof. eexists. vm_compute. reflexivity. Qed.

Lemma recovery_keeps_protocol_witness :
  ∃ outcome, reaches recover (steps 17) (Return (outcome, None)) ∧
    recovered (outcome, None) (seen (watch request) nothing_known (steps 17)).
Proof.
  eexists. assert (reaches recover (steps 17) (Return (_, None))) as Hr
    by (apply play_returns; vm_compute; reflexivity).
  split; [exact Hr|]. by apply (recovery_keeps_protocol pipeline request fence_of _ _ Hr).
Defined.

(** The attempt was running under another scheduler when it was interrupted. *)
Definition abandoned : Attempt :=
  mkAttempt attempt run_id 1 "running" "scheduler" "main" "other" 0 None None 1 (moment 1) (moment 1).
Definition orphaned (c : call) : answer c :=
  match c return answer c with
  | CGetAttempt _ => Ok abandoned
  | c => interrupted c
  end.

(** The leases of a succeeded attempt are renewed; an abandoned one is reconciled. *)
Lemma recovery_waits_for_quiescence_witness :
  (∃ attempt, last_read request attempt (steps 7) ∧ at_rest (a_Status attempt)) ∧
  (∃ attempt, last_read request attempt (play orphaned 5 recover).1 ∧ ¬ at_rest (a_Status attempt)).
Proof.
  destruct (play_calls interrupted 7 recover (CRenewLeaseSet (set_of "owner") (leaseTTL request))) as [k Hk];
    [vm_compute; reflexivity|].
  destruct (play_calls orphaned 5 recover
    (CReconcile (metadata pipeline request "attempt-recovery-reconcile") fence_of)) as [k' Hk']; [vm_compute; reflexivity|].
  destruct (recovery_waits_for_quiescence pipeline request fence_of _ _ _ Hk eq_refl) as (_ & a & Ha & Hr & _).
  destruct (recovery_waits_for_quiescence pipeline request fence_of _ _ _ Hk' eq_refl) as (_ & a' & Ha' & _ & Hn).
  split; [exists a; split; [exact Ha|exact (Hr eq_refl)]|exists a'; split; [exact Ha'|]].
  exact (proj1 (proj2 (Hn _ _ eq_refl))).
Defined.

(** The succeeded attempt is published anew, or its journaled intent is replayed. *)
Lemma recovery_publishes_validated_witness :
  reconstructed request made (steps 15) ∧
  ∃ attempt, last_read request attempt (play expired 8 recover).1 ∧ at_rest (a_Status attempt).
Proof.
  destruct (play_calls interrupted 15 recover (CPublish request made passed (set_of "owner"))) as [k Hk];
    [vm_compute; reflexivity|].
  assert (∃ commit, first_call (play expired 8 recover).2 = Some (CRecover request commit zeroLeaseSet)) as [commit Hc]
    by (eexists; vm_compute; reflexivity).
  destruct (play_calls expired 8 recover _ Hc) as [k' Hk'].
  destruct (proj1 (recovery_publishes_validated pipeline request fence_of _ _ _ Hk) _ _ _ _ eq_refl)
    as (_ & _ & _ & Hmade & _).
  destruct (proj2 (recovery_publishes_validated pipeline request fence_of _ _ _ Hk') _ _ _ eq_refl)
    as (_ & _ & a & Ha & Hrest & _).
  split; [exact Hmade|exists a; exact (conj Ha Hrest)].
Defined.

Lemma nil_recovery_is_delivery_witness :
  ∃ publication publicationErr commit leaseSet, receipt_status publication = "published" ∧
    (mkEvent (CRecover request commit leaseSet) (publication, publicationErr) ∈ steps 17 ∨
     ∃ bundle, mkEvent (CPublish request commit bundle leaseSet) (publication, publicationErr) ∈ steps 17).
Proof.
  assert (∃ outcome, reaches recover (steps 17) (Return (outcome, None))) as [outcome Hr]
    by (eexists; apply play_returns; vm_compute; reflexivity).
  apply (nil_recovery_is_delivery pipeline request fence_of _ _ Hr).
Defined.
End Recovering.

(** ** A concrete delivery in the whole system

    The sprint of [AuthorizationSample] is planned, approved and queued in a database
    with a journal, the delivery is authorized, and [Execute] takes it to a published
    receipt while the rest of the system starts and finishes the attempt. *)

(** ** Runs along an oracle *)

Section oracles.
Context `{Clock, !ClockStarted, Database, Sha256, Json, !Jsonb, Entropy, Sequences, UuidText}.
Context `{!JsonCodec Run, !JsonCodec Sprint, !JsonCodec Decision, !JsonCodec AuditRecord,
          !JsonCodec PlanResult, !JsonCodec SubmissionResult, !JsonCodec DecisionResult}.
Context `{!UuidLaws, !RunCodecLaws, RowLocks, TextOrder, Visits, TimeText, Collation, DeliveryJson}.
Context `{!AttemptCodecs, !JsonCodec WorkerResult, !WorkerContracts, ReportJson, !AuthorizationContracts}.
Context {G : Type} `{Schemas, !Host G} (service : PublicationService).

(** Calls that are answered by no model. *)
Definition unmodelled (e : event) : bool :=
  match ev_call e with CGetAuthorization _ _ | CPublish _ _ _ _ | CRecover _ _ _ => false | _ => true end.

Lemma carries_free {A} oracle n (p : prog A) (w : World G) tr a w' :
  forallb unmodelled (play oracle n p).1 = true →
  carries service (play oracle n p).2 w tr a w' → carries service p w ((play oracle n p).1 ++ tr) a w'.
Proof.
  revert p. induction n as [|n IH]; intros [r|c k]; try done. cbn.
  specialize (IH (k (oracle c))). destruct (play oracle n (k (oracle c))) as [tr1 q]. cbn in *.
  intros [Hu Hall]%andb_true_iff Hc. econstructor; [reflexivity| |by apply IH]. destruct c; try done; apply rtc_refl.
Qed.

Lemma carries_next {A} oracle (p : prog A) c (w w1 w2 : World G) tr a w' :
  first_call p = Some c → rtc tick w w1 → serves service w1 c (oracle c) w2 →
  carries service (play oracle 1 p).2 w2 tr a w' → carries service p w ((play oracle 1 p).1 ++ tr) a w'.
Proof. destruct p as [r|c' k]; [done|]. intros [= <-] Ht Hs Hc. by econstructor. Qed.
End oracles.

Module Whole.
Import Sample Session Documents Publishing Approving Serving.

(** ** The history of the database *)

Definition z0 : DB Forja := mkDB
  (mkForja _ (mkCanonical _ {[store_scope home]} ∅ ∅ ∅ ∅) (mkStream _ [] [] 0 ∅ ∅ ∅ [] ∅)
     (mkWork ∅ (Some ∅) (mkTables ∅ ∅ ∅))) 0 25.
Definition z3 : DB Forja := order approve (order submit (order plan z0)).
Definition z4 : DB Forja := lend Approving.hold z3.
Definition z5 : DB Forja := try Approving.create_attempt z4.
Definition z6 : DB Forja := (approving z5).2.

Definition result : WorkerResult :=
  mkWorkerResult "task" attempt run_id "1.0" "adapter" "succeeded" false "completed" (mkTime (30 * Millisecond) 0)
    (mkTime (30 * Millisecond) 0) 0 (Some 0%Z) "" "" sha_text sha_text (mkWorkerUsage 0 0 0 0) None None.

Definition z7 : DB Forja := order (move 3 StatePreparing (md "key-0101")) z6.
Definition z8 : DB Forja := order (move 4 StateRunning (md "key-0102")) z7.
Definition z9 : DB Forja := try (AttemptStart attempt 1 (md "key-0103") fence_of) z8.
Definition z10 : DB Forja := try (AttemptFinish attempt 2 result (md "key-0104") fence_of) z9.
Definition z11 : DB Forja := order (move 5 StateValidating (md "key-0105")) z10.
Definition z12 : DB Forja := lend take_set z11.

Definition at_ (s : DB Forja) : World Git := mkWorld s None.
Abbreviation ticks := (rtc (tick (G := Git))).

Lemma rtc_trans (w1 w2 w3 : World Git) : ticks w1 w2 → ticks w2 w3 → ticks w1 w3.
Proof. intros. by etrans. Qed.

Lemma tick_order op s : ticks (at_ s) (at_ (order op s)).
Proof.
  apply rtc_once. left. apply (ws_system (at_ s) (ByCommand home op) (order op s)). unfold order.
  destruct (PgEffects.perform home op s) as [r s'] eqn:Hrun. by exists r.
Qed.
Lemma tick_lend op s : ticks (at_ s) (at_ (lend op s)).
Proof.
  apply rtc_once. left. apply (ws_system (at_ s) (ByLease op) (lend op s)). unfold lend.
  destruct (on_leases (run_op op) s) as [r s'] eqn:Hrun. by exists r.
Qed.
Lemma tick_try op s : ticks (at_ s) (at_ (try op s)).
Proof.
  apply rtc_once. left. apply (ws_system (at_ s) (ByAttempt home op) (try op s)). unfold try.
  destruct (attempt_run home op s) as [r s'] eqn:Hrun. by exists r.
Qed.

Lemma reach_z6 : ticks (at_ z0) (at_ z6).
Proof.
  refine (rtc_trans _ _ _ (tick_order plan z0) _). refine (rtc_trans _ _ _ (tick_order submit _) _).
  refine (rtc_trans _ (at_ z3) _ (tick_order approve _) _).
  refine (rtc_trans _ (at_ z4) _ (tick_lend Approving.hold z3) _).
  refine (rtc_trans _ (at_ z5) _ (tick_try Approving.create_attempt z4) _).
  apply rtc_once. left. refine (ws_system (at_ z5) (ByAuthorization home request approver) z6 _).
  unfold sysstep, z6. change (db (at_ z5)) with z5. destruct (approving z5) as [r s']. by exists r.
Qed.

Lemma reach_z12 : ticks (at_ z6) (at_ z12).
Proof.
  refine (rtc_trans _ (at_ z7) _ (tick_order _ z6) _). refine (rtc_trans _ (at_ z8) _ (tick_order _ z7) _).
  refine (rtc_trans _ (at_ z9) _ (tick_try _ z8) _). refine (rtc_trans _ (at_ z10) _ (tick_try _ z9) _).
  refine (rtc_trans _ (at_ z11) _ (tick_order _ z10) _). exact (tick_lend take_set z11).
Qed.

(** ** The delivery *)

Definition pipeline : Pipeline := mkPipeline (mkAuthority uuid1 uuid1) "owner".
Abbreviation loaded := (GetDeliveryAuthorization home delivery attempt z6).
Abbreviation published := (Publish service request outcome_commit bundle proof_set (at_ z12)).

Definition answers (c : call) : answer c :=
  match c return answer c with
  | CGetAuthorization _ _ => loaded.1
  | CAcquireLeaseSet _ _ _ _ => Ok proof_set
  | CRenewLeaseSet _ _ | CStopGuard => (proof_set, None)
  | CWorker _ => (result, None)
  | CCreateResultCommit _ => Ok outcome_commit
  | CValidate _ _ => Ok bundle
  | CPublish _ _ _ _ => publication_answer published.1
  | c => Delivering.willing c
  end.

Abbreviation stage0 := (Execute pipeline request fence_of).
Abbreviation stage1 := ((play answers 1 stage0).2).
Abbreviation stage25 := ((play answers 24 stage1).2).
Abbreviation stage26 := ((play answers 1 stage25).2).
Abbreviation stage27 := ((play answers 1 stage26).2).
Abbreviation trace :=
  ((play answers 1 stage0).1 ++ (play answers 24 stage1).1 ++ (play answers 1 stage25).1 ++ (play answers 1 stage26).1 ++ []).

Lemma delivered_run :
  ∃ outcome, carries service stage0 (at_ z6) trace (outcome, None) published.2.
Proof.
  assert (∃ outcome, stage27 = Return (outcome, None)) as [outcome Hend].
  { assert (match stage27 with Return (_, None) => true | _ => false end = true) as Hx by (vm_compute; reflexivity).
    destruct stage27 as [[o [e|]]|]; [done|by exists o|done]. }
  exists outcome. eapply (carries_next _ answers stage0 (CGetAuthorization delivery attempt)).
  - vm_compute. reflexivity.
  - reflexivity.
  - exists loaded.2. split; [|reflexivity]. cbv beta iota delta [serves answers].
    change (sv_store service) with home. change (db (at_ z6)) with z6. apply surjective_pairing.
  - apply (carries_free _ answers 24 stage1); [vm_compute; reflexivity|].
    eapply (carries_next _ answers stage25 (CPublish request outcome_commit bundle proof_set) _ (at_ z12)).
    + vm_compute. reflexivity.
    + transitivity (at_ z6); [|apply reach_z12]. apply rtc_once. right. symmetry.
      destruct (GetDeliveryAuthorization home delivery attempt z6) as [r s'] eqn:Hrun.
      apply (Get_reader _ _ _ _ _ _ Hrun).
    + exists published.1. split; [apply surjective_pairing|reflexivity].
    + apply (carries_free _ answers 1 stage26); [vm_compute; reflexivity|]. rewrite Hend. constructor.
Qed.

Lemma z0_fresh : unpublished_yet (tables z0).
Proof. by split; [split|]; try (split; vm_compute; done). Qed.

Lemma trace_answers e : e ∈ trace → ev_answer e = answers (ev_call e).
Proof.
  rewrite !elem_of_app. intros [He|[He|[He|[He|He%not_elem_of_nil]]]]; [exact (play_answers _ _ _ _ He)..|done].
Qed.

Lemma delivery_is_real_witness :
  (∃ commit, published_row service request commit (tables (db published.2))) ∧
  ∃ e original, rests_on service request e original (tables (db published.2)).
Proof.
  destruct delivered_run as [outcome Hrun].
  destruct (delivery_is_real service pipeline request fence_of (at_ z0) (at_ z6) trace outcome published.2 z0_fresh reach_z6 Hrun)
    as (Hrest & (commit & bundle & _ & _ & Hrow) & _).
  - intros commit [= ->]%trace_answers. exact not_zero.
  - split; [by exists commit|exact Hrest].
Defined.
End Whole.
